(* ===== verification/_CoqProject ===== *)
-Q . S2P
Prelude.v
Text.v
Model.v
Fingerprint.v
Task.v
Residue.v
Artifact.v
Graph.v
Evidence.v
Effects.v
Cleanup.v
Executor.v
ExecutorSafety.v
ExecutorGuarantees.v
ExecutorBounds.v
Pack.v
Matching.v
Candidates.v
Classify.v
Analyzer.v
Decisions.v
Cooling.v
Names.v
Store.v
Journal.v
JournalFacts.v
DurableRun.v
StoreSafety.v
DurableCleanup.v
Lifecycle.v
LifecycleFacts.v
Protocol.v
Mutations.v
Observations.v
MutationFacts.v
ObservationFacts.v
Views.v
PruneFacts.v
Maintenance.v
Control.v
ControlFacts.v
ControlSafety.v
DurableExamples.v
MutationExamples.v
ControlExamples.v
System.v
Owners.v
OwnersFacts.v
OwnersBinding.v
OwnerCommands.v
OwnersExamples.v
Engine.v
EngineFacts.v
EngineRun.v
EngineExamples.v
Scheduler.v
Clones.v
ClonesFacts.v
Storage.v
StorageFacts.v
ClonesExamples.v
Procargs.v
Native.v
Bundles.v
Runtime.v
RuntimeFacts.v
Quarantine.v
QuarantineFacts.v
Adapter.v
NativeExamples.v
Producer.v
NodeCache.v
UvCache.v
NodeCacheFacts.v
UvCacheFacts.v
CacheTermination.v
CacheWorker.v
CacheWorkerFacts.v
CacheExamples.v
