(* ===== verification/Prelude.v ===== *)
(** Unlinger: a verification development.

    Unlinger is a macOS daemon that finds browser trees abandoned by automation
    tools and ends them. It observes the process table, groups processes into
    incident candidates by signature packs, classifies them, confirms an incident
    only when two observations agree and a grace period elapsed, freezes a cleanup
    plan and executes it with exact-identity signals, a write-ahead journal and a
    proof of absence at the end. A control plane decides when it may act, a SQLite
    store makes its decisions durable, owners of tasks and sessions lease their
    processes, and two workers remove the clones that Chrome leaves behind and maintain
    the caches of Node and uv.
    The development models that system from the observed facts to the last system
    call, and proves what makes it safe.

    * Parts and files

    Each file models the Rust source named with it, definition by definition, with
    the source's names; the doc comment of a definition names its function.

    Foundations:

    - [Prelude], [Text]: results, machine integers, [BTreeMap] order, collections;
      the parts of [str] and [Path] the program uses, on UTF-8 bytes; decimal numbers
      as [f64], as far as a byte figure is read by them.
    - [Effects]: programs as trees of events, their traces and a post-condition
      calculus; the interface between code and environment, the programs that answer
      the events of another program, and bounded loops.

    Observation and analysis ([unlinger-core], [unlinger-rules]):

    - [Model]: [model.rs] and [state.rs]; process facts, exact identities, coverage,
      the incident state machine ([transition]).
    - [Fingerprint], [Task], [Residue], [Artifact], [Graph], [Evidence]: the files of
      these names; hashed rows, session-name lanes, storage residue, artifact
      candidates, the process graph, the gate ledger and the incident reports.
    - [Pack], [Matching], [Candidates], [Classify], [Analyzer]: [rules/lib.rs] from
      pack validation to revalidation.

    Cleanup:

    - [Cleanup]: the data of [cleanup.rs]; receipts, outcomes, plans and
      [from_confirmed].
    - [Executor]: [CleanupExecutor::execute], one definition per stage and helper;
      [ExecutorSafety], [ExecutorGuarantees] and [ExecutorBounds] verify it.
    - [Decisions]: [public_action_policy.rs] and the pure decisions of [engine.rs].
    - [Cooling]: the abandonment clock of [store.rs] and the engine's loops over it.
    - [System]: analyzer, abandonment clock and executor composed.

    The durable store ([store.rs] and [store/*.rs]):

    - [Names], [Store]: the stored names, the tables with their constraints.
    - [Journal]: cleanup attempts, their journal, completion and recovery; verified by
      [JournalFacts], [DurableRun], [StoreSafety], [DurableCleanup].
    - [Lifecycle], [LifecycleFacts]: the managed lifecycle and the abstract service it
      refines.
    - [Protocol], [Mutations], [Observations], [Views]: public mutations, observation
      spans, reconciliation, pruning, projections; verified by [MutationFacts],
      [ObservationFacts] and [PruneFacts].
    - [Maintenance]: the tables of storage and cache attempts, verified in the same file.
    - [Owners]: the leases of tasks and session owners; verified by [OwnersFacts]
      and [OwnersBinding].

    The daemon:

    - [Control]: [ipc.rs]; the status, the roster, the gates and every command of the
      owner socket; verified by [ControlFacts] and [ControlSafety].
    - [OwnerCommands]: the commands of tasks and session owners, verified in the same
      file.
    - [Engine]: [engine.rs]; the cycle, the gated runtime and the background worker;
      verified by [EngineFacts] and [EngineRun].
    - [Scheduler]: [scheduler.rs]; when the next cycle starts.
    - [Clones]: [unlinger-macos/src/storage_residue.rs]; the scan and the removal of
      Chrome's clones; verified by [ClonesFacts].
    - [Storage], [StorageFacts]: the storage worker of [main.rs] on top of it.

    The producer caches ([tool_cache.rs], [node_compile_cache.rs]):

    - [Producer]: the system calls as events, [CacheE], owned children and the queries
      of a producer; verified in the same file.
    - [NodeCache]: the discovery, the scan and the removal of the Node compile cache;
      verified by [NodeCacheFacts].
    - [UvCache]: the discovery of uv, the supervisor that starts its mutator under a
      capability, and the daemon's wait for it; verified by [UvCacheFacts].
    - [CacheTermination]: all of them end when the clock goes on.
    - [CacheWorker], [CacheWorkerFacts]: the cache worker of [main.rs] and its two
      cycles, in the running daemon.

    The machine ([unlinger-macos]):

    - [Procargs]: the buffer with a process's arguments and environment.
    - [Native]: the system calls as events, [NativeE]; [Bundles]: [version.rs] and
      [cli_sessions.rs]; [Runtime]: reading one process, the clocks, the snapshot, the
      exact signal and the wait, [lib.rs] and [descriptors.rs]; verified by
      [RuntimeFacts].
    - [Quarantine]: [artifacts.rs]; freezing an artifact and removing it by way of a
      quarantined name; verified by [QuarantineFacts].
    - [Adapter]: the engine's runtime made of these, and the whole cycle as a program
      over system calls, verified in the same file.

    [DurableExamples], [MutationExamples], [ControlExamples], [OwnersExamples],
    [EngineExamples], [ClonesExamples], [NativeExamples] and [CacheExamples] evaluate the
    definitions on concrete databases, kernels and file systems, and hold the witnesses of
    the theorems.

    * Interaction

    [Analyzer.observe] builds a [Graph.ProcessGraph] from a [Model.Snapshot], proposes
    [Matching.Candidate]s and classifies each into an [Evidence.IncidentReport];
    [reconcile_with_abandonment] compares two observations; [from_confirmed] freezes a
    report into a [CleanupPlan]; [execute] runs the plan against a runtime, a journal
    and a stop flag (the events of [CleanupE], one per method of the traits) and asks
    an [IncidentRevalidator], which the analyzer implements, before every signal.
    [Revalidates] is the interface between the two. [run_cycle_at_until] composes them:
    its own events are calls on the daemon ([DaemonE]) and on the runtime, and the
    executor's events are interpreted by [gated], which asks the control plane before
    every side effect. [run_storage_cycle] interprets the events of
    [Clones.reconcile] in the same way, and [hosted] those of the cache maintenance, with
    the probe that the worker hands to it. [macos_runtime] answers every runtime event of
    the engine by a program over [NativeE]; [machine_cycle] is the cycle with its runtime
    events answered so and its calls on the daemon left as they are.

    * State and effects

    Pure Rust functions are functions; [Result] is [result] and the [?] operator its
    bind. A mutable receipt or status is passed explicitly, and an early return is a
    value of [flow]. The environment of a program is quantified over: [runs p tr x]
    holds of every trace that the answers of an arbitrary environment can produce,
    failures, stop requests and changes between two calls included.

    The database is a record of tables ([database], [maintenance], [ownership]); a
    call takes the error that its transaction met, if any, and an error leaves the
    tables as they were. JSON columns hold the text of a [Json] instance, a parameter
    with the round trip [JsonRoundTrip] where a theorem needs it. A call on the daemon
    is a total function of its state ([daemon_call], [storage_call], [cache_call]);
    [engine_run], [storage_run] and [cache_run] interleave the calls of a trace with
    [ctl_step], the steps of the other threads on the control plane. The start of a cache
    maintenance holds the lock of the status over several events; in [cache_run] the
    steps that need the lock wait ([start_splits] joins its two ends).

    A [BTreeMap] is a [gmap] read in key order ([btree_entries]), a [BTreeSet] a
    [gset], a [Vec] a list. Machine integers are [N] or [Z] with the source's
    saturating, checked or wrapping operation written out.

    * What the theorems show

    - Execution: a signal goes only to an exact planned identity that a fresh snapshot
      lists and the revalidator finds eligible, under an open journal row; the journal
      is written ahead and balanced; signals are bounded and in stage order; Cleared is
      a proof of absence.
    - Analysis and confirmation: Cooling has its justification in the facts; what
      confirms a report, exactly; grace is earned only by sightings without a break.
    - The cycle: it begins a cleanup only for an incident that its own two observations
      confirmed, unprotected and unblocked, under an authority read twice; one cleanup
      at a time; a failed cycle shuts the daemon; whatever is signalled is a confirmed
      orphan still at the moment of the signal.
    - Authority: nothing is cleaned unless the durable row enforces this generation,
      instance and epoch; a revoked epoch never comes back; an owner's command stops
      the cleanups in flight for as long as no public mutation sets the policy revision
      back, and a public mutation stops them by the store's count of the revisions; the
      lifecycle rows refine an abstract service, and the abandonment clocks are cleared
      exactly by the step that begins to enforce.
    - Store: recovery resolves what a crash left open; the persisted receipt is the
      executor's, and its completion is described table by table; a mutation commits the
      policy's decision; pruning leaves no dangling reference, but takes the terminal
      event of a cleanup that still blocks, and the view of that block fails; protections
      and blocks are retired on proved absence only.
    - Leases: a grant never changes once given, and expires only by a complete snapshot
      past the retention that does not show what it covers; controllers are bound at birth; a
      selector has one current owner; absent owners, and only those, are released.
    - Clones: only a clone that two reconciliations saw and no process uses is deleted,
      entry by entry below open descriptors, under a lease polled before every entry;
      the store accepts what the removal reports; a cycle settles what it takes.
    - Caches: a file of the Node cache is unlinked only as a validated entry of the frozen
      plan, looked at twice and with its activity polled directly before; the mutator of
      uv is started only under a capability of this attempt, by a supervisor that the
      daemon starts while it holds the lock; at both the durable row is enforcing. A
      result is taken only as the mutator warrants it, an activity is always returned,
      and every program of the maintenance ends.
    - Scheduling: a wait ends at the deadline of the period.
    - The machine: arguments are read back from the kernel's buffer, and what else
      comes out of it; a snapshot accounts for every process that the kernel listed;
      kill(2) reaches only the exact process, unlink only the frozen artifact, which no
      process refers to; so in a whole cycle kill(2) is only called on a confirmed
      orphan, and unlink on a planned artifact of a tree that is gone.

    * Fuel and bounds

    The traversals of [Graph] use [walk_fuel], one unit per process and two more, and
    [descendants_loop_total], [ancestors_loop_total] and [lineage_loop_total] show that
    it never runs out. [Scheduler.wait_for_trigger] has [enough_fuel] iterations. The
    [depth] of [Clones] is the number of descriptors that the process may hold, beyond
    which the operating system refuses the next one. The loops of [Runtime] are
    [bounded_loop]s, of [2 ^ depth] iterations: [depth] 31 is more than the ancestors
    that one walk can meet, and 38 more than the readings of a clock that goes on before
    a wait ends ([machine_waits_end]). The loops of [Producer], [NodeCache] and [UvCache]
    that watch the clock have [depth] 38 as well, and those that fill a buffer up to its cap
    17 and 15; [cache_maintenance_ends] shows that this is enough. Every other recursion
    is structural; a [prog] is a finite tree, so an execution ends in every environment
    ([run_runs]).

    * Parameters

    The [toml] crate is a parameter of [RuleSet_embedded]; its hypothesis is that it
    denotes the embedded texts by the values of [embedded_packs]. [serde_json] is the
    class [Json]; the property lists and the registry of the CLI sessions are read by the
    classes [CoreFoundation] and [JsonValues], and the architecture of the build is the
    argument [ARCH] of Node's discovery. Random tokens and instance ids are arguments of the
    calls that draw them. Environment answers are arbitrary.

    * Not modelled

    The socket servers ([public_ipc.rs], the framing of [ipc.rs]), the opening and the
    schema of the database file, the start of the process, the run-loop sources of
    [events.rs] and the command-line client are not modelled. Of the maintenance of the
    caches the closing of descriptors is left out, and reads that are repeated while they
    are interrupted are one event. The binding of controllers takes the connection of the
    store several times, and no other thread's call comes between them here. Lines that
    are only logged are left out everywhere.
    FNV-1a is not collision free, so statements about fingerprints are about the rows
    that are hashed, or say that fingerprints agree. *)

From stdpp Require Export base tactics numbers list gmap strings sorting pretty relations.
From Stdlib Require Export ZArith Lia.

(** ** Results *)

(** Rust's [Result<T, E>]. *)
Inductive result (T E : Type) : Type :=
| Ok (t : T)
| Err (e : E).
Arguments Ok {T E} t.
Arguments Err {T E} e.

#[export] Instance result_eq_dec {T E} `{EqDecision T, EqDecision E} :
  EqDecision (result T E).
Proof. solve_decision. Defined.

(** The [?] operator: an error returns early, a success continues. *)
Definition result_bind {T U E} (m : result T E) (k : T → result U E) : result U E :=
  match m with Ok t => k t | Err e => Err e end.

(** [Result::map_err]. *)
Definition map_err {T E F} (f : E → F) (m : result T E) : result T F :=
  match m with Ok t => Ok t | Err e => Err (f e) end.

Definition is_Ok {T E} (m : result T E) : Prop := ∃ t, m = Ok t.

(** [Option::ok_or]. *)
Definition ok_or {T E} (o : option T) (e : E) : result T E :=
  match o with Some t => Ok t | None => Err e end.

Declare Scope unlinger_scope.
Delimit Scope unlinger_scope with unl.
Open Scope unlinger_scope.

Notation "'let?' x ':=' m 'in' k" := (result_bind m (λ x, k))
  (at level 10, x name, m at level 100, k at level 200)
  : unlinger_scope.
Notation "'guard?' b 'else' e 'in' k" := (if b then k else Err e)
  (at level 10, b at level 100, e at level 100, k at level 200) : unlinger_scope.

(** ** Machine integers

    [u32], [u64] and [usize] (64 bits on every supported target) are [N]; each
    operation that can leave the range writes out what the code does there. *)

Definition u64_bound : N := 2 ^ 64.

(** [u64::checked_add]. *)
Definition checked_add (a b : N) : option N :=
  if bool_decide (a + b < u64_bound)%N then Some (a + b)%N else None.

(** [u64::checked_sub]. *)
Definition checked_sub (a b : N) : option N :=
  if bool_decide (b ≤ a)%N then Some (a - b)%N else None.

(** [u64::checked_mul]. *)
Definition checked_mul (a b : N) : option N :=
  if bool_decide (a * b < u64_bound)%N then Some (a * b)%N else None.

(** [u64::saturating_add] / [usize::saturating_add]. *)
Definition saturating_add (a b : N) : N := N.min (a + b) (u64_bound - 1).

(** [u64::saturating_mul]. *)
Definition saturating_mul (a b : N) : N := N.min (a * b) (u64_bound - 1).

(** [u64::wrapping_mul]. *)
Definition wrapping_mul (a b : N) : N := (a * b) `mod` u64_bound.

(** [u64] addition of [Iterator::sum] in the release profile, which wraps. *)
Definition wrapping_add (a b : N) : N := (a + b) `mod` u64_bound.

(** ** Ordered collections

    A [BTreeMap]/[BTreeSet] is a [gmap]/[gset]; its iterators run in key order,
    so an iteration is the key-sorted list of its elements. *)

(** [iter.collect::<BTreeMap<_, _>>()]: a later duplicate key replaces. *)
Definition collect_map {K V} `{Countable K} (kvs : list (K * V)) : gmap K V :=
  fold_left (λ m kv, <[kv.1 := kv.2]> m) kvs ∅.

(** The order of map entries induced by an order of the keys. *)
Definition key_le {K V} (le : relation K) : relation (K * V) := λ a b, le a.1 b.1.

#[export] Instance key_le_dec {K V} (le : relation K) `{!RelDecision le} :
  RelDecision (key_le (V:=V) le) := λ a b, decide (le a.1 b.1).

(** [BTreeMap::into_iter] for a given key order. *)
Definition btree_entries {K V} `{Countable K} (le : relation K)
    `{!RelDecision le} (m : gmap K V) : list (K * V) :=
  merge_sort (key_le le) (map_to_list m).

(** [BTreeMap::values]. *)
Definition btree_values {K V} `{Countable K} (le : relation K)
    `{!RelDecision le} (m : gmap K V) : list V := (btree_entries le m).*2.

(** [BTreeSet::iter]. *)
Definition btree_elements {K} `{Countable K} (le : relation K)
    `{!RelDecision le} (s : gset K) : list K := merge_sort le (elements s).

(** [Vec::dedup_by]: an element equal to the last one kept is dropped. *)
Fixpoint dedup_from {A} (same : A → A → bool) (kept : A) (l : list A) : list A :=
  match l with
  | [] => []
  | x :: l => if same x kept then dedup_from same kept l
              else x :: dedup_from same x l
  end.

Definition dedup_by {A} (same : A → A → bool) (l : list A) : list A :=
  match l with [] => [] | x :: l => x :: dedup_from same x l end.

(** [Vec::dedup]. *)
Definition dedup {A} `{EqDecision A} : list A → list A :=
  dedup_by (λ x y, bool_decide (x = y)).

(** ** Automation *)

Create HintDb unlinger.

(** Case analysis on every [match] and [if] in sight, closing the branches
    that contradict a hypothesis. *)
Ltac split_matches := repeat (case_match; simplify_eq/=); try done.

(** Turn boolean tests in the context into propositions. *)
Ltac bool_facts :=
  repeat match goal with
  | H : (_ && _) = true |- _ => apply andb_prop in H as [? ?]
  | H : (_ || _) = false |- _ => apply orb_false_elim in H as [? ?]
  | H : negb _ = true |- _ => apply negb_true_iff in H
  | H : negb _ = false |- _ => apply negb_false_iff in H
  | H : bool_decide _ = true |- _ => apply bool_decide_eq_true in H
  | H : bool_decide _ = false |- _ => apply bool_decide_eq_false in H
  end.

(** ** Generic lemmas *)

(** An element of a list, found in a part of it. *)
Lemma app_split_left {A} (l1 l2 pre post : list A) o :
  l1 ++ l2 = pre ++ o :: post → o ∉ l2 → ∃ l, l1 = pre ++ o :: l ∧ post = l ++ l2.
Proof.
  intros H Hn. apply app_eq_inv in H as [(l & -> & Hl)|(l & -> & ->)].
  - destruct l as [|o' l]; simpl in Hl; [subst l2; destruct Hn; left|].
    pose proof (f_equal tail Hl) as Ht. apply (f_equal head), (inj Some) in Hl. simpl in Ht. subst.
    by exists l.
  - destruct Hn. apply elem_of_app. right; left.
Qed.

Lemma app_split_right {A} (l1 l2 pre post : list A) o :
  l1 ++ l2 = pre ++ o :: post → o ∉ l1 → ∃ l, pre = l1 ++ l ∧ l2 = l ++ o :: post.
Proof.
  intros H Hn. apply app_eq_inv in H as [(l & -> & Hl)|(l & -> & ->)].
  - destruct l as [|o' l]; simpl in Hl; [exists []; by rewrite !app_nil_r|].
    apply (f_equal head), (inj Some) in Hl. simpl in Hl. subst o'.
    destruct Hn. apply elem_of_app. right; left.
  - by exists l.
Qed.

Lemma cons_split_other {A} (o1 o : A) l pre post :
  o1 :: l = pre ++ o :: post → o ≠ o1 → ∃ pre', pre = o1 :: pre' ∧ l = pre' ++ o :: post.
Proof.
  intros H Hne. pose proof (f_equal tail H) as Ht. apply (f_equal head) in H.
  destruct pre as [|o2 pre]; simpl in *; apply (inj Some) in H; [by destruct Hne|].
  subst. by exists pre.
Qed.

Lemma checked_sub_Some a b d :
  checked_sub a b = Some d ↔ (b ≤ a)%N ∧ d = (a - b)%N.
Proof. unfold checked_sub. case_bool_decide; naive_solver. Qed.

Lemma checked_mul_Some a b p :
  checked_mul a b = Some p ↔ (a * b < u64_bound)%N ∧ p = (a * b)%N.
Proof. unfold checked_mul. case_bool_decide; naive_solver. Qed.

Lemma saturating_add_bounded a b : (saturating_add a b < u64_bound)%N.
Proof. unfold saturating_add, u64_bound. lia. Qed.

(** The event with a property, when no other event of the trace has it. *)
Lemma omap_split_unique {A B} (f : A → option B) l1 o l2 l1' o' l2' :
  l1 ++ o :: l2 = l1' ++ o' :: l2' → omap f l1 = [] → omap f l2 = [] → is_Some (f o') →
  l1 = l1' ∧ o = o' ∧ l2 = l2'.
Proof.
  intros Heq H1 H2 [y Hy].
  assert (Hno : ∀ l, omap f l = [] → o' ∉ l).
  { intros l Hl Hin. assert (Hy' : y ∈ omap f l) by (apply list_elem_of_omap; eauto).
    rewrite Hl in Hy'. by apply elem_of_nil in Hy'. }
  apply app_eq_inv in Heq as [(k & -> & Hk)|(k & -> & Hk)]; destruct k as [|x k]; simplify_eq/=;
    rewrite ?app_nil_r; try done.
  - exfalso. apply (Hno _ H1). set_solver.
  - exfalso. apply (Hno _ H2). set_solver.
Qed.

Lemma result_bind_Ok {T U E} (m : result T E) (k : T → result U E) u :
  result_bind m k = Ok u ↔ ∃ t, m = Ok t ∧ k t = Ok u.
Proof. destruct m; naive_solver. Qed.

Lemma elem_of_btree_entries {K V} `{Countable K} (le : relation K)
    `{!RelDecision le} (m : gmap K V) k v :
  (k, v) ∈ btree_entries le m ↔ m !! k = Some v.
Proof. unfold btree_entries. by rewrite merge_sort_Permutation, elem_of_map_to_list. Qed.

Lemma elem_of_btree_values {K V} `{Countable K} (le : relation K)
    `{!RelDecision le} (m : gmap K V) v :
  v ∈ btree_values le m ↔ ∃ k, m !! k = Some v.
Proof.
  unfold btree_values. rewrite list_elem_of_fmap.
  setoid_rewrite <-(elem_of_btree_entries le). split.
  - intros [[k v'] [-> Hin]]. eauto.
  - intros [k Hin]. by exists (k, v).
Qed.

Lemma elem_of_btree_elements {K} `{Countable K} (le : relation K)
    `{!RelDecision le} (s : gset K) k :
  k ∈ btree_elements le s ↔ k ∈ s.
Proof. unfold btree_elements. by rewrite merge_sort_Permutation, elem_of_elements. Qed.

Lemma btree_elements_sorted {K} `{Countable K} (le : relation K)
    `{!RelDecision le, !Total le} (s : gset K) : Sorted le (btree_elements le s).
Proof. apply Sorted_merge_sort, _. Qed.

(** The last entry of a key wins. *)
Lemma collect_map_snoc {K V} `{Countable K} (l : list (K * V)) k v :
  collect_map (l ++ [(k, v)]) = <[k := v]> (collect_map l).
Proof. unfold collect_map. by rewrite fold_left_app. Qed.

Lemma collect_map_None {K V} `{Countable K} (l : list (K * V)) k :
  collect_map l !! k = None ↔ k ∉ l.*1.
Proof.
  induction l as [|[k' v'] l IH] using rev_ind.
  { unfold collect_map; simpl. rewrite lookup_empty. set_solver. }
  rewrite collect_map_snoc, fmap_app, not_elem_of_app, <-IH; simpl.
  destruct (decide (k' = k)) as [->|Hne].
  - rewrite lookup_insert_eq. set_solver.
  - rewrite lookup_insert_ne by done. set_solver.
Qed.

Lemma collect_map_Some {K V} `{Countable K} (l : list (K * V)) k v :
  collect_map l !! k = Some v → (k, v) ∈ l.
Proof.
  induction l as [|[k' v'] l IH] using rev_ind; [done|].
  rewrite collect_map_snoc. destruct (decide (k' = k)) as [->|Hne].
  - rewrite lookup_insert_eq. intros [= ->]. set_solver.
  - rewrite lookup_insert_ne by done. set_solver.
Qed.

Lemma collect_map_unique {K V} `{Countable K} (l : list (K * V)) k v :
  NoDup l.*1 → (k, v) ∈ l → collect_map l !! k = Some v.
Proof.
  induction l as [|[k' v'] l IH] using rev_ind; [by intros _ ?%elem_of_nil|].
  rewrite collect_map_snoc, fmap_app, NoDup_app, elem_of_app. simpl.
  intros (Hnd & Hdis & _) [Hin|[= -> ->]%list_elem_of_singleton].
  - rewrite lookup_insert_ne; [by apply IH|]. intros ->.
    apply (Hdis k); [|by left]. by apply (list_elem_of_fmap_2' fst _ _ _ Hin).
  - by rewrite lookup_insert_eq.
Qed.

Lemma not_nil_elem {A} (l : list A) : l ≠ [] ↔ ∃ x, x ∈ l.
Proof. destruct l as [|x l]; set_solver. Qed.

(** A closed predicate holds along every path. *)
Lemma rtc_closed {A} (R : relation A) (P : A → Prop) x y :
  P x → (∀ a b, P a → R a b → P b) → rtc R x y → P y.
Proof. intros Hx Hstep Hrtc. induction Hrtc; eauto. Qed.

(** Along a functional relation, what a cyclic element reaches is cyclic. *)
Lemma tc_cycle_rtc {A} (R : relation A) x y :
  (∀ a b c, R a b → R a c → b = c) → tc R x x → rtc R x y → tc R y y.
Proof.
  intros Hdet Hx Hrtc. apply (rtc_closed R (λ z, tc R z z) x y Hx); [|done].
  clear -Hdet. intros a b Hcyc Hab. inversion Hcyc as [? ? Haa|? c ? Hac Hca]; subst.
  - rewrite (Hdet _ _ _ Hab Haa). by constructor.
  - rewrite <-(Hdet _ _ _ Hab Hac) in Hca. by eapply tc_r.
Qed.

(** Two paths of a functional relation from one element are comparable. *)
Lemma rtc_functional {A} (R : relation A) x y z :
  (∀ a b c, R a b → R a c → b = c) → rtc R x y → rtc R x z → rtc R y z ∨ rtc R z y.
Proof.
  intros Hdet Hxy. revert z. induction Hxy as [x|x x' y Hxx' Hxy IH]; intros z Hxz; [by left|].
  inversion Hxz as [|? x'' ? Hxx'' Hx''z]; subst.
  - right. by eapply rtc_l.
  - rewrite <-(Hdet _ _ _ Hxx' Hxx'') in Hx''z. auto.
Qed.

Lemma dedup_from_subseteq {A} (same : A → A → bool) kept l x :
  x ∈ dedup_from same kept l → x ∈ l.
Proof.
  revert kept. induction l as [|y l IH]; intros kept; simpl; [done|].
  destruct (same y kept); set_solver.
Qed.

(** What [dedup] does to a sorted list: it makes it duplicate-free and changes
    neither its elements nor its order. *)
Lemma dedup_from_sorted {A} `{EqDecision A} (R : relation A) `{!Transitive R, !AntiSymm (=) R}
    kept l :
  StronglySorted R (kept :: l) →
  let l' := dedup_from (λ x y, bool_decide (x = y)) kept l in
  StronglySorted R (kept :: l') ∧ NoDup (kept :: l') ∧ ∀ x, x ∈ kept :: l' ↔ x ∈ kept :: l.
Proof.
  revert kept. induction l as [|y l IH]; intros kept; simpl.
  { intros Hs. split_and!; [done| |done]. apply NoDup_singleton. }
  intros [[Hs Hy]%StronglySorted_inv Hk]%StronglySorted_inv.
  apply Forall_cons in Hk as [Hky Hkl].
  destruct (bool_decide (y = kept)) eqn:Heq; bool_facts; subst; simpl.
  - destruct (IH kept) as (? & ? & Hin); [by constructor|]. split_and!; [done..|].
    intros x. rewrite Hin. set_solver.
  - destruct (IH y) as (Hs' & Hnd & Hin); [by constructor|].
    assert (Hkl' : Forall (R kept) (y :: dedup_from (λ x y, bool_decide (x = y)) y l)).
    { apply Forall_forall. intros x [->|Hx]%Hin%elem_of_cons; [done|].
      rewrite Forall_forall in Hkl. by apply Hkl. }
    split_and!; [by constructor| |].
    + constructor; [|done]. intros Hk%Hin. apply elem_of_cons in Hk as [->|Hk]; [done|].
      rewrite Forall_forall in Hy. apply Heq. by apply (anti_symm R); [apply Hy|].
    + intros x. rewrite !(elem_of_cons _ x kept). by rewrite Hin.
Qed.

Lemma dedup_sorted {A} `{EqDecision A} (R : relation A) `{!Transitive R, !AntiSymm (=) R} l :
  Sorted R l →
  Sorted R (dedup l) ∧ NoDup (dedup l) ∧ ∀ x, x ∈ dedup l ↔ x ∈ l.
Proof.
  intros Hs%Sorted_StronglySorted; [|done]. unfold dedup, dedup_by. destruct l as [|x l].
  { split_and!; [constructor|constructor|done]. }
  destruct (dedup_from_sorted R x l Hs) as (? & ? & ?).
  split_and!; [by apply StronglySorted_Sorted|done|done].
Qed.

#[export] Hint Resolve saturating_add_bounded : unlinger.

(** ** Boolean searches *)

Lemma existsb_elem {A} (f : A → bool) l : existsb f l = true ↔ ∃ x, x ∈ l ∧ f x = true.
Proof. rewrite existsb_exists. by setoid_rewrite <-list_elem_of_In. Qed.

Lemma existsb_false {A} (f : A → bool) l : existsb f l = false ↔ ∀ x, x ∈ l → f x = false.
Proof.
  rewrite <-not_true_iff_false, existsb_exists. setoid_rewrite <-list_elem_of_In.
  setoid_rewrite <-not_true_iff_false. naive_solver.
Qed.
