(* ===== verification/Text.v ===== *)
(** Text: the parts of Rust's [str], [char] and [Path] the program uses.

    A Rust [String] is its UTF-8 byte sequence, a [string] of 8-bit [ascii]
    codes; [str] comparison is byte-lexicographic, which is [String.le]. Paths
    are Unix paths, byte strings as well. *)

From S2P Require Import Prelude.
From Stdlib Require Import Ascii.

(** ** Bytes *)

(** The numeric value of a byte, the Rust [u8]. *)
Definition code (c : ascii) : N := N_of_ascii c.

Definition in_range (lo hi : N) (c : ascii) : bool :=
  (lo <=? code c)%N && (code c <=? hi)%N.

(** [u8::is_ascii_digit]. *)
Definition is_ascii_digit (c : ascii) : bool := in_range 48 57 c.

(** [b'a'..=b'f'], the letters of a lowercase hexadecimal digit. *)
Definition is_lower_hex_letter (c : ascii) : bool := in_range 97 102 c.

Definition is_lower_hex (c : ascii) : bool :=
  is_ascii_digit c || is_lower_hex_letter c.

(** [u8::is_ascii_hexdigit]. *)
Definition is_ascii_hexdigit (c : ascii) : bool :=
  is_ascii_digit c || in_range 97 102 c || in_range 65 70 c.

(** [u8::is_ascii_alphanumeric]. *)
Definition is_ascii_alphanumeric (c : ascii) : bool :=
  is_ascii_digit c || in_range 97 122 c || in_range 65 90 c.

(** [u8::to_ascii_lowercase]. *)
Definition lower_byte (c : ascii) : ascii :=
  if in_range 65 90 c then ascii_of_N (code c + 32) else c.

(** ** Strings *)

Fixpoint map_bytes (f : ascii → ascii) (s : string) : string :=
  match s with
  | EmptyString => EmptyString
  | String c s => String (f c) (map_bytes f s)
  end.

(** [s.bytes().all(p)]. *)
Fixpoint all_bytes (p : ascii → bool) (s : string) : bool :=
  match s with
  | EmptyString => true
  | String c s => p c && all_bytes p s
  end.

(** [str::to_ascii_lowercase]. *)
Definition to_ascii_lowercase : string → string := map_bytes lower_byte.

(** [s.replace(from, to)] for single ASCII characters. *)
Definition replace_byte (from to : ascii) : string → string :=
  map_bytes (λ c, if Ascii.eqb c from then to else c).

(** [str::strip_prefix]. *)
Fixpoint strip_prefix (p s : string) : option string :=
  match p, s with
  | EmptyString, _ => Some s
  | String a p, String b s => if Ascii.eqb a b then strip_prefix p s else None
  | String _ _, EmptyString => None
  end.

(** [str::starts_with]. *)
Definition starts_with (p s : string) : bool :=
  match strip_prefix p s with Some _ => true | None => false end.

(** [str::contains] with a string pattern: [contains needle haystack]. *)
Fixpoint contains (needle s : string) : bool :=
  starts_with needle s ||
  match s with EmptyString => false | String _ s => contains needle s end.

(** [str::is_empty]. *)
Definition is_empty (s : string) : bool :=
  match s with EmptyString => true | String _ _ => false end.

(** [s.split(c)]: the pieces between the separators, empty pieces included. *)
Fixpoint split_byte (c : ascii) (s : string) : list string :=
  match s with
  | EmptyString => [EmptyString]
  | String a s =>
      if Ascii.eqb a c then EmptyString :: split_byte c s
      else match split_byte c s with
           | [] => [String a EmptyString]
           | p :: ps => String a p :: ps
           end
  end.

(** [pieces.join(sep)]. *)
Definition join (sep : string) (pieces : list string) : string :=
  String.concat sep pieces.

(** Decimal display of an unsigned integer. *)
Definition show_N (n : N) : string := pretty n.

(** *** Trimming

    [str::trim] strips the Unicode [White_Space] characters; in UTF-8 these are
    six ASCII bytes, two 2-byte and seventeen 3-byte sequences. No sequence
    starts inside another one, so both ends can be matched on bytes. *)

Definition is_space1 (a : N) : bool := ((9 <=? a)%N && (a <=? 13)%N) || (a =? 32)%N.

Definition is_space2 (a b : N) : bool :=
  (a =? 194)%N && ((b =? 133)%N || (b =? 160)%N).

Definition is_space3 (a b c : N) : bool :=
  ((a =? 225)%N && (b =? 154)%N && (c =? 128)%N) ||
  ((a =? 226)%N && (b =? 128)%N &&
     (((128 <=? c)%N && (c <=? 138)%N) || (c =? 168)%N || (c =? 169)%N || (c =? 175)%N)) ||
  ((a =? 226)%N && (b =? 129)%N && (c =? 159)%N) ||
  ((a =? 227)%N && (b =? 128)%N && (c =? 128)%N).

Fixpoint trim_front (rev : bool) (l : list ascii) : list ascii :=
  match l with
  | [] => []
  | a :: l1 =>
      if is_space1 (code a) then trim_front rev l1 else
      match l1 with
      | [] => l
      | b :: l2 =>
          if (if rev then is_space2 (code b) (code a) else is_space2 (code a) (code b))
          then trim_front rev l2 else
          match l2 with
          | [] => l
          | c :: l3 =>
              if (if rev then is_space3 (code c) (code b) (code a)
                  else is_space3 (code a) (code b) (code c))
              then trim_front rev l3 else l
          end
      end
  end.

(** [str::trim]. *)
Definition trim (s : string) : string :=
  String.string_of_list_ascii
    (reverse (trim_front true
       (reverse (trim_front false (String.list_ascii_of_string s))))).

(** *** UTF-8

    [std::str::from_utf8] accepts exactly the well-formed byte sequences. *)

Definition is_cont (c : ascii) : bool := in_range 128 191 c.

Fixpoint utf8_valid (s : string) : bool :=
  match s with
  | EmptyString => true
  | String a s1 =>
      if in_range 0 127 a then utf8_valid s1 else
      match s1 with
      | EmptyString => false
      | String b s2 =>
          if in_range 194 223 a then is_cont b && utf8_valid s2 else
          match s2 with
          | EmptyString => false
          | String c s3 =>
              if in_range 224 239 a then
                (if (code a =? 224)%N then in_range 160 191 b
                 else if (code a =? 237)%N then in_range 128 159 b else is_cont b)
                && is_cont c && utf8_valid s3
              else
              match s3 with
              | EmptyString => false
              | String d s4 =>
                  if in_range 240 244 a then
                    (if (code a =? 240)%N then in_range 144 191 b
                     else if (code a =? 244)%N then in_range 128 143 b else is_cont b)
                    && is_cont c && is_cont d && utf8_valid s4
                  else false
              end
          end
      end
  end.

(** *** Numbers *)

Fixpoint digits_value (acc : N) (s : string) : option N :=
  match s with
  | EmptyString => Some acc
  | String c s =>
      let next := (acc * 10 + (code c - 48))%N in
      if bool_decide (next < u64_bound)%N then digits_value next s else None
  end.

(** [component.parse::<u64>().ok()] for a component of ASCII digits: overflow is
    the only failure. *)
Definition parse_u64_digits (s : string) : option N := digits_value 0 s.

(** *** Searching and parsing *)

(** [str::ends_with]. *)
Fixpoint ends_with (suffix s : string) : bool :=
  bool_decide (s = suffix) || match s with String _ s => ends_with suffix s | EmptyString => false end.

(** [str::replace], of a pattern that is not empty. *)
Fixpoint replace_from (fuel : nat) (from to s : string) : string :=
  match fuel with
  | O => s
  | S fuel =>
      match strip_prefix from s with
      | Some rest => to +:+ replace_from fuel from to rest
      | None =>
          match s with
          | EmptyString => ""
          | String c s => String c (replace_from fuel from to s)
          end
      end
  end.

Definition replace_text (from to s : string) : string := replace_from (String.length s) from to s.

(** [str::split_once] at a byte. *)
Fixpoint split_once (c : ascii) (s : string) : option (string * string) :=
  match s with
  | EmptyString => None
  | String a s =>
      if Ascii.eqb a c then Some ("", s)
      else '(before, after) ← split_once c s; Some (String a before, after)
  end.

(** The number of bytes of the white space that a text starts with, if any. *)
Definition leading_space (s : string) : nat :=
  match s with
  | EmptyString => 0
  | String a s1 =>
      if is_space1 (code a) then 1 else
      match s1 with
      | EmptyString => 0
      | String b s2 =>
          if is_space2 (code a) (code b) then 2 else
          match s2 with
          | EmptyString => 0
          | String c _ => if is_space3 (code a) (code b) (code c) then 3 else 0
          end
      end
  end.

Definition drop_bytes (n : nat) (s : string) : string := String.substring n (String.length s - n) s.

(** [str::split_once(char::is_whitespace)]. *)
Fixpoint split_once_space (s : string) : option (string * string) :=
  match leading_space s, s with
  | O, EmptyString => None
  | O, String a rest =>
      '(before, after) ← split_once_space rest; Some (String a before, after)
  | n, _ => Some ("", drop_bytes n s)
  end.

(** The text without one carriage return at its end. *)
Fixpoint strip_return (s : string) : string :=
  match s with
  | EmptyString => ""
  | String c EmptyString => if Ascii.eqb c "013"%char then "" else s
  | String c s => String c (strip_return s)
  end.

(** [str::lines]: an empty text after the last line break is not a line. *)
Definition lines (s : string) : list string :=
  let pieces := split_byte "010"%char s in
  strip_return <$> match last pieces with
                   | Some "" => removelast pieces
                   | _ => pieces
                   end.

(** [str::parse::<u64>]: a sign "+" is allowed, the digits are not empty. *)
Definition parse_u64 (text : string) : option N :=
  let digits := match text with String "+" rest => rest | _ => text end in
  if negb (is_empty digits) && all_bytes is_ascii_digit digits then parse_u64_digits digits else None.

(** [str::parse::<i32>]: a sign is allowed, the digits are not empty. *)
Definition parse_i32 (text : string) : option Z :=
  let '(negative, digits) :=
    match text with
    | String "+" rest => (false, rest)
    | String "-" rest => (true, rest)
    | _ => (false, text)
    end in
  if negb (is_empty digits) && all_bytes is_ascii_digit digits then
    n ← parse_u64_digits digits;
    let value := if negative : bool then (- Z.of_N n)%Z else Z.of_N n in
    if bool_decide (- 2 ^ 31 ≤ value < 2 ^ 31)%Z then Some value else None
  else None.

(** ** Paths *)

(** [std::path::Component] on Unix. *)
Inductive component : Type :=
| RootDir
| CurDir
| ParentDir
| Normal (name : string).

Definition slash : ascii := "/"%char.

(** [Path::is_absolute] on Unix: a leading separator. *)
Definition is_absolute (path : string) : bool := starts_with "/" path.

(** A separated piece of a path: empty pieces and "." are skipped. *)
Definition piece_component (piece : string) : list component :=
  if bool_decide (piece = "") || bool_decide (piece = ".") then []
  else if bool_decide (piece = "..") then [ParentDir] else [Normal piece].

(** [Path::components]: "." survives only as the first piece of a relative path. *)
Definition components (path : string) : list component :=
  if is_absolute path then RootDir :: (split_byte slash path ≫= piece_component)
  else match split_byte slash path with
       | "." :: pieces => CurDir :: (pieces ≫= piece_component)
       | pieces => pieces ≫= piece_component
       end.

(** [Path::file_name]. *)
Definition file_name (path : string) : option string :=
  match last (components path) with Some (Normal name) => Some name | _ => None end.

Fixpoint ends_with_byte (c : ascii) (s : string) : bool :=
  match s with
  | EmptyString => false
  | String a EmptyString => Ascii.eqb a c
  | String _ s => ends_with_byte c s
  end.

(** [Path::join] with a relative name. *)
Definition path_join (base name : string) : string :=
  if is_empty base || ends_with_byte slash base then base +:+ name
  else base +:+ "/" +:+ name.

#[export] Instance component_eq_dec : EqDecision component.
Proof. solve_decision. Defined.

(** [Path::eq], [Path::starts_with] and [Path::ends_with]: by components. *)
Definition same_path (a b : string) : bool := bool_decide (components a = components b).

Definition path_starts_with (path base : string) : bool :=
  bool_decide (components base `prefix_of` components path).

Definition path_ends_with (path tail : string) : bool :=
  bool_decide (components tail `suffix_of` components path).

Definition component_text (c : component) : string :=
  match c with RootDir => "/" | CurDir => "." | ParentDir => ".." | Normal name => name end.

(** A path in the normal form of its components. *)
Definition path_of (cs : list component) : string := fold_left path_join (component_text <$> cs) "".

(** [Path::parent]. *)
Definition path_parent (path : string) : option string :=
  match reverse (components path) with
  | [] | RootDir :: _ => None
  | _ :: rest => Some (path_of (reverse rest))
  end.

(** [Path::ancestors], the path itself first, of the reversed components. *)
Fixpoint ancestors_of (rcs : list component) : list (list component) :=
  match rcs with
  | [] => [[]]
  | RootDir :: _ => [[RootDir]]
  | _ :: rest => reverse rcs :: ancestors_of rest
  end.

Definition path_ancestors (path : string) : list (list component) :=
  ancestors_of (reverse (components path)).

(** [Path::strip_prefix], the remaining components. *)
Fixpoint strip_components (base path : list component) : option (list component) :=
  match base, path with
  | [], _ => Some path
  | b :: base, p :: path => if bool_decide (b = p) then strip_components base path else None
  | _ :: _, [] => None
  end.

(** [Component::Normal] of a name, with its name. *)
Definition normal_name (c : component) : option string :=
  match c with Normal name => Some name | _ => None end.

(** ** Lemmas *)

Lemma strip_prefix_Some p s r : strip_prefix p s = Some r ↔ s = p +:+ r.
Proof.
  revert s. induction p as [|a p IH]; intros s; simpl.
  { split; [by intros [= ->]|by intros ->]. }
  destruct s as [|b s]; [done|].
  destruct (Ascii.eqb_spec a b) as [->|Hne].
  - rewrite IH. split; [by intros ->|by intros [= ->]].
  - split; [done|]. by intros [= ? ?].
Qed.

Lemma strip_prefix_app p s : strip_prefix p (p +:+ s) = Some s.
Proof. by apply strip_prefix_Some. Qed.

Lemma starts_with_spec p s : starts_with p s = true ↔ ∃ r, s = p +:+ r.
Proof.
  unfold starts_with. setoid_rewrite <-strip_prefix_Some.
  destruct (strip_prefix p s); naive_solver.
Qed.

Lemma contains_spec needle s :
  contains needle s = true ↔ ∃ a b, s = a +:+ needle +:+ b.
Proof.
  induction s as [|c s IH]; simpl.
  - rewrite orb_false_r, starts_with_spec. split.
    + intros [r Hr]. by exists "", r.
    + intros ([|a0 a] & b & Hab); [eauto|done].
  - rewrite orb_true_iff, starts_with_spec, IH. split.
    + intros [[r ->]|(a & b & ->)]; [by exists "", r|by exists (String c a), b].
    + intros ([|a0 a] & b & Hab); [left; eauto|].
      right. injection Hab as -> ->. eauto.
Qed.

Lemma all_bytes_app p a b : all_bytes p (a +:+ b) = all_bytes p a && all_bytes p b.
Proof. induction a as [|c a IH]; simpl; [done|]. by rewrite IH, andb_assoc. Qed.

Lemma all_bytes_impl (p q : ascii → bool) s :
  (∀ c, p c = true → q c = true) → all_bytes p s = true → all_bytes q s = true.
Proof.
  intros Hpq. induction s as [|c s IH]; simpl; [done|].
  intros [Hc Hs]%andb_prop. by rewrite (Hpq c), IH.
Qed.

Lemma length_map_bytes f s : String.length (map_bytes f s) = String.length s.
Proof. induction s; simpl; auto. Qed.

Lemma lower_byte_idemp c : lower_byte (lower_byte c) = lower_byte c.
Proof. destruct c as [[] [] [] [] [] [] [] []]; reflexivity. Qed.

Lemma to_ascii_lowercase_idemp s :
  to_ascii_lowercase (to_ascii_lowercase s) = to_ascii_lowercase s.
Proof.
  unfold to_ascii_lowercase. induction s as [|c s IH]; simpl; [done|].
  by rewrite lower_byte_idemp, IH.
Qed.

(** Splitting and joining on a separator are inverse. *)
Lemma join_split c s : join (String c "") (split_byte c s) = s.
Proof.
  unfold join. induction s as [|a s IH]; [done|]. simpl.
  destruct (Ascii.eqb_spec a c) as [->|Hne].
  - change (String.concat (String c "") ("" :: split_byte c s)) with
      (match split_byte c s with
       | [] => "" | _ => "" +:+ String c "" +:+ String.concat (String c "") (split_byte c s)
       end).
    destruct (split_byte c s) eqn:Hs; [|simpl; by rewrite <-IH].
    destruct s as [|a s]; simpl in Hs; [done|].
    destruct (Ascii.eqb a c), (split_byte c s); done.
  - destruct (split_byte c s) as [|p ps]; [by rewrite <-IH|].
    simpl in *. destruct ps; by rewrite <-IH.
Qed.

#[export] Hint Rewrite strip_prefix_app all_bytes_app : unlinger.

(** ** Examples *)

Example trim_ex : trim "  a b 	" = "a b".
Proof. reflexivity. Qed.

Example file_name_ex :
  (file_name "/usr/bin/node", file_name "/", file_name "a/..", file_name "/x/./") =
  (Some "node", None, None, Some "x").
Proof. reflexivity. Qed.

(** *** Trimming visible text *)

Lemma trim_front_visible rev a l :
  is_space1 (code a) = false → (code a < 128)%N → trim_front rev (a :: l) = a :: l.
Proof.
  intros Hs Ha. simpl. rewrite Hs.
  assert (Hlow : ∀ n, (128 ≤ n)%N → (code a =? n)%N = false) by (intros; apply N.eqb_neq; lia).
  assert (Hge : ∀ n, (128 ≤ n)%N → (n <=? code a)%N = false) by (intros; apply N.leb_gt; lia).
  destruct l as [|b l]; [done|]. unfold is_space2.
  destruct rev; rewrite !Hlow by lia; rewrite ?andb_false_r; simpl;
    (destruct l as [|c l]; [done|]); unfold is_space3; rewrite !Hlow by lia; simpl;
    rewrite ?Hge by lia; rewrite ?andb_false_r; simpl; rewrite ?andb_false_r; done.
Qed.

(** Text between two visible ASCII bytes is not changed by trimming. *)
Lemma trim_visible a s b :
  is_space1 (code a) = false → (code a < 128)%N →
  is_space1 (code b) = false → (code b < 128)%N →
  trim (String a (s +:+ String b "")) = String a (s +:+ String b "").
Proof.
  intros Ha Ha' Hb Hb'. unfold trim. simpl String.list_ascii_of_string.
  rewrite trim_front_visible by done.
  assert (Hl : String.list_ascii_of_string (s +:+ String b "") =
               String.list_ascii_of_string s ++ [b]).
  { induction s as [|c s IH]; [done|]. simpl. by rewrite <-IH. }
  rewrite Hl, app_comm_cons, reverse_snoc, trim_front_visible by done.
  rewrite reverse_cons, reverse_involutive, <-app_comm_cons, <-Hl. simpl.
  by rewrite String.string_of_list_ascii_of_string.
Qed.

(** * Decimal numbers

    What the program uses of the standard library's [f64], on exact integers. *)

(** A finite [f64] that is not negative: [significand * 2 ^ exponent]. *)
Record float64 : Type := mkFloat64 {
  significand : Z;
  exponent : Z;
}.

(** The largest [k] with [2 ^ k <= num / den]. *)
Definition ratio_log2 (num den : Z) : Z :=
  let l := (Z.log2 num - Z.log2 den)%Z in
  if bool_decide (num * 2 ^ Z.max 0 (- l) < den * 2 ^ Z.max 0 l)%Z then (l - 1)%Z else l.

(** The nearest [f64] of a ratio, ties to even; [None] is an infinity. *)
Definition round_ratio (num den : Z) : option float64 :=
  if bool_decide (num = 0)%Z then Some (mkFloat64 0 0) else
  let e := Z.max (ratio_log2 num den - 52) (-1074) in
  let n := (num * 2 ^ Z.max 0 (- e))%Z in
  let d := (den * 2 ^ Z.max 0 e)%Z in
  let q := (n / d)%Z in
  let r := (n mod d)%Z in
  let m := if bool_decide (d < 2 * r)%Z || (bool_decide (d = 2 * r)%Z && Z.odd q) then (q + 1)%Z else q in
  if bool_decide (2 ^ 53 ≤ m ∧ 971 ≤ e)%Z || bool_decide (972 ≤ e)%Z then None
  else Some (mkFloat64 m e).

(** The value of digits, of any length. *)
Fixpoint decimal_value (acc : Z) (s : string) : Z :=
  match s with
  | EmptyString => acc
  | String c s => decimal_value (acc * 10 + (Z.of_N (code c) - 48))%Z s
  end.

(** [str::parse::<f64>] of a text without letters: a sign, digits and a fraction, which are
    not both empty. The answer is the sign with the magnitude, [None] for an infinity. *)
Definition parse_decimal (text : string) : option (bool * option float64) :=
  let '(negative, body) :=
    match text with
    | String "+" rest => (false, rest)
    | String "-" rest => (true, rest)
    | _ => (false, text)
    end in
  let '(whole, fraction) :=
    match split_once "."%char body with Some parts => parts | None => (body, "") end in
  if negb (is_empty (whole +:+ fraction)) && all_bytes is_ascii_digit (whole +:+ fraction)
  then Some (negative,
             round_ratio (decimal_value 0 (whole +:+ fraction))
               (10 ^ Z.of_nat (String.length fraction)))
  else None.
