(* ===== verification/Model.v ===== *)
(** Model: the observed process facts of [unlinger-core/src/model.rs] and the
    incident state machine of [unlinger-core/src/state.rs]. *)

From S2P Require Import Prelude Text.

(** ** Process facts ([model.rs]) *)

Record ExecutableIdentity : Type := mkExecutableIdentity {
  exe_device : option N;
  exe_inode : option N;
  exe_size : option N;
  exe_modified_unix_nanos : option Z;
}.

(** [ExecutableIdentity::is_complete]. *)
Definition executable_is_complete (e : ExecutableIdentity) : bool :=
  bool_decide (is_Some (exe_device e)) && bool_decide (is_Some (exe_inode e)).

Record ProcessIdentity : Type := mkProcessIdentity {
  pid : N;
  started_at_unix_micros : N;
  executable_device : option N;
  executable_inode : option N;
}.

#[export] Instance ProcessIdentity_eq_dec : EqDecision ProcessIdentity.
Proof. solve_decision. Defined.

(** [ProcessIdentity::exact_match]. *)
Definition exact_match (self other : ProcessIdentity) : bool :=
  bool_decide (self = other)
    && bool_decide (is_Some (executable_device self))
    && bool_decide (is_Some (executable_inode self)).

Inductive ProcessStatus : Type :=
| Running
| Sleeping
| Stopped
| Zombie
| OtherStatus (code : N).

Record AppBundleVersion : Type := mkAppBundleVersion {
  bundle_id : string;
  short_version : string;
}.

#[export] Instance AppBundleVersion_eq_dec : EqDecision AppBundleVersion.
Proof. solve_decision. Defined.

Record PlaywrightCliRuntime : Type := mkPlaywrightCliRuntime {
  cli_session_name : string;
  cli_version : string;
  cli_persistent : bool;
  cli_attached : bool;
  cli_selector_fingerprint : option string;
}.

Record ProcessRuntimeFacts : Type := mkProcessRuntimeFacts {
  cpu_total_nanos : N;
  open_file_descriptors : N;
  descriptor_facts_complete : bool;
  debug_transport_facts_complete : bool;
  tcp_listening_ports : list N;
  tcp_established_local_ports : list N;
  connected_unix_sockets : N;
  attached_debug_transport : bool;
  app_bundle : option AppBundleVersion;
  crashpad_bundle : option AppBundleVersion;
  task_session_name : option string;
  task_session_facts_complete : bool;
  unix_socket_fingerprints : list string;
  connected_named_unix_socket_fingerprints : list string;
  playwright_cli : option PlaywrightCliRuntime;
}.

(** [ProcessRuntimeFacts::default]. *)
Definition default_runtime_facts : ProcessRuntimeFacts :=
  mkProcessRuntimeFacts 0 0 false false [] [] 0 false None None None false [] [] None.

Record ProcessRecord : Type := mkProcessRecord {
  identity : ProcessIdentity;
  parent_pid : N;
  process_group_id : N;
  uid : N;
  tty_device : option N;
  proc_name : string;
  executable_path : option string;
  executable : ExecutableIdentity;
  arguments : option (list string);
  resident_memory_bytes : N;
  status : ProcessStatus;
  runtime : ProcessRuntimeFacts;
}.

(** [ProcessRecord::pid]. *)
Definition process_pid (p : ProcessRecord) : N := pid (identity p).

(** [ProcessRecord::executable_basename]: the file name of the executable path,
    or the process name. A path held in a [String] is valid UTF-8, so its file
    name is. *)
Definition executable_basename (p : ProcessRecord) : string :=
  match executable_path p ≫= file_name with
  | Some name => if is_empty name then proc_name p else name
  | None => proc_name p
  end.

(** [ProcessRecord::has_complete_classification_facts]. *)
Definition has_complete_classification_facts (p : ProcessRecord) : bool :=
  bool_decide (is_Some (executable_path p))
    && bool_decide (is_Some (arguments p))
    && executable_is_complete (executable p)
    && bool_decide (is_Some (executable_device (identity p)))
    && bool_decide (is_Some (executable_inode (identity p))).

Record SnapshotCoverage : Type := mkSnapshotCoverage {
  listed_processes : N;
  inspected_processes : N;
  unreadable_processes : N;
  arguments_unavailable : N;
  executable_identity_unavailable : N;
  executable_path_unavailable : N;
  executable_path_missing_without_errno : N;
  executable_vnode_unavailable : N;
  descriptor_facts_unavailable : N;
}.

(** [SnapshotCoverage::default]. *)
Definition default_coverage : SnapshotCoverage :=
  mkSnapshotCoverage 0 0 0 0 0 0 0 0 0.

Record Snapshot : Type := mkSnapshot {
  observed_at_unix_millis : N;
  current_uid : N;
  processes : list ProcessRecord;
  coverage : SnapshotCoverage;
}.

(** An identity whose absence a complete listing can prove. *)
Definition identity_facts_complete (p : ProcessRecord) : bool :=
  bool_decide (0 < started_at_unix_micros (identity p))%N
    && bool_decide (is_Some (executable_device (identity p)))
    && bool_decide (is_Some (executable_inode (identity p))).

(** [Snapshot::proves_complete_exact_identity_coverage]. *)
Definition proves_complete_exact_identity_coverage (s : Snapshot) : bool :=
  bool_decide (listed_processes (coverage s) = inspected_processes (coverage s))
    && bool_decide (unreadable_processes (coverage s) = 0%N)
    && bool_decide (executable_identity_unavailable (coverage s) = 0%N)
    && bool_decide (N.of_nat (length (processes s)) = inspected_processes (coverage s))
    && forallb identity_facts_complete (processes s).

(** [Snapshot::proves_complete_classification_coverage]. *)
Definition proves_complete_classification_coverage (s : Snapshot) : bool :=
  proves_complete_exact_identity_coverage s
    && bool_decide (arguments_unavailable (coverage s) = 0%N)
    && forallb has_complete_classification_facts (processes s).

(** ** The incident state machine ([state.rs]) *)

Inductive IncidentState : Type :=
| Protected
| Active
| Cooling
| Confirmed
| Ambiguous
| Reclaiming
| Cleared
| Revived
| Failed.

#[export] Instance IncidentState_eq_dec : EqDecision IncidentState.
Proof. solve_decision. Defined.

Record TransitionError : Type := mkTransitionError {
  transition_from : IncidentState;
  transition_to : IncidentState;
}.

(** The [matches!] table of [IncidentState::transition]. *)
Definition transition_listed (from to : IncidentState) : bool :=
  match from, to with
  | Active, (Cooling | Protected | Ambiguous)
  | Cooling, (Confirmed | Active | Protected | Ambiguous)
  | Confirmed, (Reclaiming | Active | Protected | Ambiguous)
  | Ambiguous, (Protected | Active | Cooling)
  | Reclaiming, (Cleared | Revived | Failed)
  | Revived, (Cooling | Failed)
  | Failed, (Cooling | Protected | Ambiguous) => true
  | _, _ => false
  end.

(** [IncidentState::transition]. *)
Definition transition (from to : IncidentState) : result IncidentState TransitionError :=
  if bool_decide (from = to) || transition_listed from to
  then Ok to else Err (mkTransitionError from to).

(** One accepted transition, as a step relation. *)
Inductive incident_step : IncidentState → IncidentState → Prop :=
| Incident_step from to : transition from to = Ok to → incident_step from to.

(** A path of accepted transitions, with every state it visits. *)
Inductive incident_path : IncidentState → list IncidentState → IncidentState → Prop :=
| Path_here s : incident_path s [s] s
| Path_step s t visited u :
    incident_step s t → incident_path t visited u → incident_path s (s :: visited) u.

(** ** Lemmas *)

Lemma exact_match_iff a b :
  exact_match a b = true ↔
  a = b ∧ is_Some (executable_device a) ∧ is_Some (executable_inode a).
Proof. unfold exact_match. rewrite !andb_true_iff, !bool_decide_eq_true. tauto. Qed.

Lemma exact_match_eq a b : exact_match a b = true → a = b.
Proof. by intros [-> _]%exact_match_iff. Qed.

#[export] Hint Resolve exact_match_eq : unlinger.

Lemma incident_step_iff s t :
  incident_step s t ↔ s = t ∨ transition_listed s t = true.
Proof.
  split.
  - intros [? ? H]. unfold transition in H.
    destruct (bool_decide_reflect (from = to)); [by left|right].
    by destruct (transition_listed from to).
  - intros H. constructor. unfold transition.
    destruct H as [->| ->]; [by rewrite bool_decide_true|by rewrite orb_true_r].
Qed.

Lemma incident_path_start s visited t : incident_path s visited t → s ∈ visited.
Proof. by intros []; left. Qed.

Lemma incident_path_end s visited t : incident_path s visited t → t ∈ visited.
Proof. induction 1; set_solver. Qed.

(** The stages a path into [Reclaiming] must still visit from a state. *)
Definition stages_to_reclaim (s : IncidentState) : list IncidentState :=
  match s with
  | Reclaiming => [Reclaiming]
  | Confirmed => [Confirmed; Reclaiming]
  | _ => [Cooling; Confirmed; Reclaiming]
  end.

Lemma stages_to_reclaim_path s visited :
  incident_path s visited Reclaiming → stages_to_reclaim s `sublist_of` visited.
Proof.
  remember Reclaiming as t. induction 1 as [s|s t visited u Hst Hp IH]; subst.
  { by apply sublist_skip. }
  specialize (IH eq_refl). apply incident_step_iff in Hst as [->|Hl].
  { by apply sublist_cons. }
  destruct s, t; try discriminate Hl; simpl in *;
    solve [by apply sublist_cons | by apply sublist_skip
          | apply sublist_cons; (etrans; [|exact IH]);
            repeat first [apply sublist_nil_l|apply sublist_skip|apply sublist_cons]].
Qed.

(** ** Properties *)

(** Nothing is reclaimed without confirmation: every path of accepted
    transitions into Reclaiming, from any state but Confirmed and Reclaiming
    themselves, visits Cooling, Confirmed and Reclaiming in that order. *)
Theorem reclaim_only_through_confirmed s visited :
  s ≠ Confirmed → s ≠ Reclaiming → incident_path s visited Reclaiming →
  [Cooling; Confirmed; Reclaiming] `sublist_of` visited.
Proof. intros Hc Hr Hp. apply stages_to_reclaim_path in Hp. by destruct s. Qed.

(** What can leave Reclaiming is an ending: from Reclaiming one accepted
    step reaches only Reclaiming, Cleared, Revived or Failed, and Cleared and
    Protected accept no other state at all. *)
Theorem endings_are_closed s t :
  incident_step s t →
  (s = Reclaiming → t ∈ [Reclaiming; Cleared; Revived; Failed]) ∧
  (s = Cleared ∨ s = Protected → t = s).
Proof.
  intros [->|Hl]%incident_step_iff; [split; [intros ->; set_solver|done]|].
  destruct s, t; simpl in Hl; try discriminate Hl; split; try (intros; set_solver);
    by intros [|].
Qed.

(** ** Witnesses *)

Lemma reclaim_only_through_confirmed_witness :
  [Cooling; Confirmed; Reclaiming] `sublist_of` [Active; Cooling; Confirmed; Reclaiming].
Proof.
  apply (reclaim_only_through_confirmed Active); [done|done|].
  apply (Path_step _ Cooling); [by constructor|]. apply (Path_step _ Confirmed); [by constructor|].
  apply (Path_step _ Reclaiming); [by constructor|]. apply Path_here.
Defined.

Lemma endings_are_closed_witness : Cleared ∈ [Reclaiming; Cleared; Revived; Failed].
Proof. by apply (endings_are_closed Reclaiming Cleared); [constructor|]. Defined.
