(* ===== verification/Fingerprint.v ===== *)
(** Fingerprint: the FNV-1a fingerprints of [unlinger-core/src/fingerprint.rs].

    A fingerprint names a process identity, a process set or a session in
    persisted records, so the properties that matter are its shape, that a set
    fingerprint does not depend on the order of the set, and that the hashed row
    determines the identity. *)

From S2P Require Import Prelude Text Model.
From Stdlib Require Import Ascii.

Definition FNV_OFFSET_BASIS : N := 14695981039346656037.
Definition FNV_PRIME : N := 1099511628211.

(** One hashed byte: [hash ^= byte; hash = hash.wrapping_mul(FNV_PRIME)]. *)
Definition fnv_byte (hash b : N) : N := wrapping_mul (N.lxor hash b) FNV_PRIME.

(** The inner loop over the bytes of one part. *)
Fixpoint fnv_part (hash : N) (part : string) : N :=
  match part with
  | EmptyString => hash
  | String c part => fnv_part (fnv_byte hash (code c)) part
  end.

(** The outer loop: every part is closed by the byte [0xff]. *)
Definition fnv_parts (parts : list string) : N :=
  fold_left (λ hash part, fnv_byte (fnv_part hash part) 255) parts FNV_OFFSET_BASIS.

Definition hex_digit (d : N) : ascii :=
  if (d <? 10)%N then ascii_of_N (48 + d) else ascii_of_N (87 + d).

(** The [n] low hexadecimal digits of a value, most significant first. *)
Fixpoint hex_fixed (n : nat) (v : N) : string :=
  match n with
  | O => EmptyString
  | S n => String (hex_digit ((v / 16 ^ N.of_nat n) `mod` 16)) (hex_fixed n v)
  end.

(** [fingerprint_parts]: the hash shown as [{hash:016x}]. *)
Definition fingerprint_parts (parts : list string) : string :=
  hex_fixed 16 (fnv_parts parts).

(** The row [format!("{}:{}:{}:{}", ..)] of an identity, with
    [unwrap_or_default] for a missing device or inode. *)
Definition identity_row (i : ProcessIdentity) : string :=
  show_N (pid i) +:+ ":" +:+ show_N (started_at_unix_micros i) +:+ ":"
    +:+ show_N (default 0%N (executable_device i)) +:+ ":"
    +:+ show_N (default 0%N (executable_inode i)).

(** [fingerprint_process_identity]. *)
Definition fingerprint_process_identity (i : ProcessIdentity) : string :=
  fingerprint_parts [identity_row i].

(** [fingerprint_process_set]: the rows are sorted before hashing. *)
Definition fingerprint_process_set (ids : list ProcessIdentity) : string :=
  fingerprint_parts (merge_sort String.le (identity_row <$> ids)).

(** ** Shape *)

Lemma hex_digit_lower_hex d : (d < 16)%N → is_lower_hex (hex_digit d) = true.
Proof.
  intros Hd. unfold hex_digit, is_lower_hex, is_ascii_digit, is_lower_hex_letter, in_range, code.
  destruct (N.ltb_spec d 10); rewrite N_ascii_embedding by lia;
    rewrite ?orb_true_iff, !andb_true_iff, !N.leb_le; lia.
Qed.

Lemma hex_digit_inj d e :
  (d < 16)%N → (e < 16)%N → hex_digit d = hex_digit e → d = e.
Proof.
  intros Hd He. unfold hex_digit.
  destruct (N.ltb_spec d 10), (N.ltb_spec e 10); intros Hc%(f_equal N_of_ascii);
    rewrite !N_ascii_embedding in Hc by lia; lia.
Qed.

Lemma length_hex_fixed n v : String.length (hex_fixed n v) = n.
Proof. induction n; simpl; auto. Qed.

Lemma hex_fixed_lower_hex n v : all_bytes is_lower_hex (hex_fixed n v) = true.
Proof.
  induction n as [|n IH]; [done|]. cbn [hex_fixed all_bytes].
  rewrite IH, hex_digit_lower_hex; [done|]. by apply N.mod_lt.
Qed.

Lemma hex_fixed_inj n v w :
  (v < 16 ^ N.of_nat n)%N → (w < 16 ^ N.of_nat n)%N →
  hex_fixed n v = hex_fixed n w → v = w.
Proof.
  intros Hv Hw Heq. enough (v `mod` 16 ^ N.of_nat n = w `mod` 16 ^ N.of_nat n)%N
    by (rewrite !N.mod_small in *; lia).
  clear Hv Hw. induction n as [|n IH]; [by rewrite !N.mod_1_r|].
  cbn [hex_fixed] in Heq. injection Heq as Hd Htl.
  apply hex_digit_inj in Hd; [|by apply N.mod_lt..]. apply IH in Htl.
  rewrite Nat2N.inj_succ, N.pow_succ_r', N.mul_comm.
  assert (16 ^ N.of_nat n ≠ 0)%N by (apply N.pow_nonzero; lia).
  rewrite !N.Div0.mod_mul_r. lia.
Qed.

(** ** The hash *)

Lemma lxor_bound n a b : (a < 2 ^ n)%N → (b < 2 ^ n)%N → (N.lxor a b < 2 ^ n)%N.
Proof.
  intros Ha Hb. rewrite <-(N.mod_small a (2 ^ n)), <-(N.mod_small b (2 ^ n)) by done.
  rewrite <-!N.land_ones.
  replace (N.lxor _ _) with (N.land (N.lxor a b) (N.ones n)).
  - rewrite N.land_ones. apply N.mod_lt, N.pow_nonzero. lia.
  - apply N.bits_inj. intros k. rewrite N.land_spec, !N.lxor_spec, !N.land_spec.
    by destruct (N.testbit a k), (N.testbit b k), (N.testbit (N.ones n) k).
Qed.

(** The inverse of the odd FNV prime modulo 2^64. *)
Definition FNV_PRIME_INVERSE : N := 14886173955864302971.

Lemma wrapping_mul_prime_cancel x :
  (x < u64_bound)%N →
  ((wrapping_mul x FNV_PRIME * FNV_PRIME_INVERSE) `mod` u64_bound)%N = x.
Proof.
  intros Hx. unfold wrapping_mul.
  rewrite N.Div0.mul_mod_idemp_l, <-N.mul_assoc, <-N.Div0.mul_mod_idemp_r.
  replace ((FNV_PRIME * FNV_PRIME_INVERSE) `mod` u64_bound)%N with 1%N by done.
  by rewrite N.mul_1_r, N.mod_small.
Qed.

Lemma fnv_byte_bounded h b : (fnv_byte h b < u64_bound)%N.
Proof. by apply N.mod_lt. Qed.

(** Hashing one byte is injective in the state and in the byte. *)
Lemma fnv_byte_inj h1 h2 b1 b2 :
  (h1 < u64_bound)%N → (h2 < u64_bound)%N → (b1 < 256)%N → (b2 < 256)%N →
  fnv_byte h1 b1 = fnv_byte h2 b2 → N.lxor h1 b1 = N.lxor h2 b2.
Proof.
  intros Hh1 Hh2 Hb1 Hb2 Heq.
  assert (Hbound : ∀ h b, (h < u64_bound → b < 256 → N.lxor h b < u64_bound)%N)
    by (intros; apply (lxor_bound 64); unfold u64_bound in *; lia).
  rewrite <-(wrapping_mul_prime_cancel (N.lxor h1 b1)) by auto.
  rewrite <-(wrapping_mul_prime_cancel (N.lxor h2 b2)) by auto.
  unfold fnv_byte in Heq. by rewrite Heq.
Qed.

Lemma fnv_byte_state_inj h1 h2 b :
  (h1 < u64_bound)%N → (h2 < u64_bound)%N → (b < 256)%N →
  fnv_byte h1 b = fnv_byte h2 b → h1 = h2.
Proof.
  intros Hh1 Hh2 Hb Heq%fnv_byte_inj; [|done..].
  apply (f_equal (λ x, N.lxor x b)) in Heq.
  by rewrite !N.lxor_assoc, N.lxor_nilpotent, !N.lxor_0_r in Heq.
Qed.

Lemma code_bounded c : (code c < 256)%N.
Proof. apply N_ascii_bounded. Qed.

Lemma fnv_part_bounded h s : (h < u64_bound)%N → (fnv_part h s < u64_bound)%N.
Proof.
  revert h. induction s as [|c s IH]; intros h Hh; simpl; [done|].
  apply IH, fnv_byte_bounded.
Qed.

Lemma fnv_part_state_inj h1 h2 s :
  (h1 < u64_bound)%N → (h2 < u64_bound)%N →
  fnv_part h1 s = fnv_part h2 s → h1 = h2.
Proof.
  revert h1 h2. induction s as [|c s IH]; intros h1 h2 H1 H2; simpl; [done|].
  intros Heq%IH; [|apply fnv_byte_bounded..].
  eapply fnv_byte_state_inj; eauto using code_bounded.
Qed.

Lemma fnv_part_app h a b : fnv_part h (a +:+ b) = fnv_part (fnv_part h a) b.
Proof. revert h. induction a as [|c a IH]; intros h; simpl; auto. Qed.

Lemma fnv_parts_bounded parts : (fnv_parts parts < u64_bound)%N.
Proof.
  unfold fnv_parts. induction parts as [|p ps IH] using rev_ind; [done|].
  rewrite fold_left_app; simpl. apply fnv_byte_bounded.
Qed.

Lemma fingerprint_parts_inj_hash ps qs :
  fingerprint_parts ps = fingerprint_parts qs → fnv_parts ps = fnv_parts qs.
Proof. apply (hex_fixed_inj 16); apply fnv_parts_bounded. Qed.

(** ** Rows *)

Lemma show_N_digits n : all_bytes is_ascii_digit (show_N n) = true.
Proof.
  assert (Hgo : ∀ n s, all_bytes is_ascii_digit s = true →
            all_bytes is_ascii_digit (pretty_N_go n s) = true).
  { clear n. intros n. induction (N.lt_wf_0 n) as [n _ IH]; intros s Hs.
    destruct (decide (0 < n)%N) as [Hn|Hn].
    - rewrite pretty_N_go_step by done. apply IH; [by apply N.div_lt|].
      cbn [all_bytes]. rewrite Hs, andb_true_r. unfold pretty_N_char. by repeat case_match.
    - by replace n with 0%N by lia. }
  unfold show_N, pretty, pretty_N. case_decide; [done|]. by apply Hgo.
Qed.

(** A text of digits ends where the first separator stands. *)
Lemma digits_colon_inj a b r s :
  all_bytes is_ascii_digit a = true → all_bytes is_ascii_digit b = true →
  a +:+ ":" +:+ r = b +:+ ":" +:+ s → a = b ∧ r = s.
Proof.
  revert b. induction a as [|c a IH]; intros [|d b]; simpl.
  - intros _ _ [= Heq]. by split.
  - by intros _ [Hd _]%andb_prop [= <- _].
  - by intros [Hc _]%andb_prop _ [= -> _].
  - intros [_ Ha]%andb_prop [_ Hb]%andb_prop [= -> Heq].
    by destruct (IH b Ha Hb Heq) as [-> ->].
Qed.

Lemma identity_row_inj_default i j :
  identity_row i = identity_row j →
  pid i = pid j ∧ started_at_unix_micros i = started_at_unix_micros j ∧
  default 0%N (executable_device i) = default 0%N (executable_device j) ∧
  default 0%N (executable_inode i) = default 0%N (executable_inode j).
Proof.
  unfold identity_row. intros Heq.
  apply digits_colon_inj in Heq as [H1 Heq]; [|apply show_N_digits..].
  apply digits_colon_inj in Heq as [H2 Heq]; [|apply show_N_digits..].
  apply digits_colon_inj in Heq as [H3 H4]; [|apply show_N_digits..].
  unfold show_N in *. repeat split; by apply (inj pretty).
Qed.

(** ** Properties *)

(** The row that a process-identity fingerprint hashes determines the
    identity exactly: two complete identities with the same row agree on PID,
    start time, device and inode. *)
Theorem identity_row_injective i j :
  is_Some (executable_device i) → is_Some (executable_inode i) →
  is_Some (executable_device j) → is_Some (executable_inode j) →
  identity_row i = identity_row j → i = j.
Proof.
  intros [di Hdi] [ni Hni] [dj Hdj] [nj Hnj] (H1 & H2 & H3 & H4)%identity_row_inj_default.
  destruct i, j; by simplify_eq/=.
Qed.

(** A process-set fingerprint does not depend on the order in which the
    members are listed. *)
Theorem fingerprint_process_set_permutation ids1 ids2 :
  ids1 ≡ₚ ids2 → fingerprint_process_set ids1 = fingerprint_process_set ids2.
Proof.
  intros Hp. unfold fingerprint_process_set. f_equal.
  apply (Sorted_unique String.le); [apply Sorted_merge_sort, _..|].
  by rewrite !merge_sort_Permutation, Hp.
Qed.

(** FNV-1a separates rows that differ in a single byte: fingerprints of
    parts equal but for one byte of one part are different. *)
Theorem fingerprint_single_byte_sensitive pre post a b c d :
  c ≠ d →
  fingerprint_parts (pre ++ [a +:+ String c b] ++ post) ≠
  fingerprint_parts (pre ++ [a +:+ String d b] ++ post).
Proof.
  intros Hne Heq%fingerprint_parts_inj_hash. apply Hne. revert Heq.
  unfold fnv_parts. rewrite !fold_left_app; simpl.
  pose proof (fnv_parts_bounded pre) as Hpre. unfold fnv_parts in Hpre.
  revert Hpre. generalize (fold_left (λ hash part, fnv_byte (fnv_part hash part) 255)
    pre FNV_OFFSET_BASIS) as h. intros h Hh.
  rewrite !fnv_part_app. simpl.
  induction post as [|p post IH] using rev_ind; simpl.
  - intros Heq%fnv_byte_state_inj; [|by repeat first [apply fnv_part_bounded|apply fnv_byte_bounded]..|done].
    apply fnv_part_state_inj in Heq; [|apply fnv_byte_bounded..].
    apply fnv_byte_inj in Heq; [|by (apply fnv_part_bounded || apply code_bounded)..].
    apply (f_equal (N.lxor (fnv_part h a))) in Heq.
    rewrite <-!N.lxor_assoc, !N.lxor_nilpotent, !N.lxor_0_l in Heq.
    unfold code in Heq. apply (f_equal ascii_of_N) in Heq.
    by rewrite !ascii_N_embedding in Heq.
  - rewrite !fold_left_app; simpl. intros Heq. apply IH.
    assert (Hb : ∀ x l, (x < u64_bound)%N → (fold_left
      (λ hash part, fnv_byte (fnv_part hash part) 255) l x < u64_bound)%N).
    { clear. intros x l. revert x. induction l as [|q l IH]; intros x Hx; simpl; [done|].
      apply IH, fnv_byte_bounded. }
    apply fnv_byte_state_inj in Heq;
      [|by apply fnv_part_bounded, Hb, fnv_byte_bounded..|done].
    apply fnv_part_state_inj in Heq; [done|by apply Hb, fnv_byte_bounded..].
Qed.

(** A fingerprint is always sixteen lowercase hexadecimal digits, whatever
    was hashed, so it can carry no path or argument text. *)
Theorem fingerprint_parts_shape parts :
  String.length (fingerprint_parts parts) = 16 ∧
  all_bytes is_lower_hex (fingerprint_parts parts) = true.
Proof. split; [apply length_hex_fixed|apply hex_fixed_lower_hex]. Qed.

(** ** Witnesses *)

Lemma identity_row_injective_witness :
  let i := mkProcessIdentity 10 20 (Some 3%N) (Some 4%N) in
  identity_row i = "10:20:3:4" ∧ i = mkProcessIdentity 10 20 (Some 3%N) (Some 4%N).
Proof.
  split; [vm_compute; reflexivity|]. apply identity_row_injective; simpl; eauto.
Defined.

Lemma fingerprint_process_set_permutation_witness :
  let i := mkProcessIdentity 10 20 (Some 3%N) (Some 4%N) in
  let j := mkProcessIdentity 9 20 (Some 3%N) (Some 4%N) in
  fingerprint_process_set [i; j] = fingerprint_process_set [j; i].
Proof. apply fingerprint_process_set_permutation. apply Permutation_swap. Defined.

Lemma fingerprint_single_byte_sensitive_witness :
  fingerprint_parts ["session"; "ab"] ≠ fingerprint_parts ["session"; "cb"].
Proof.
  apply (fingerprint_single_byte_sensitive ["session"] [] "" "b" "a"%char "c"%char). done.
Defined.
