(* ===== verification/Task.v ===== *)
(** Task: task and session ownership bindings of [unlinger-core/src/task.rs].

    The two session-name lanes (issued [unlinger-<id>] selectors and ordinary
    names) decide which ownership evidence may apply to a controller, so the
    properties are that issued names decode to their id and that no name belongs
    to both lanes. *)

From S2P Require Import Prelude Text Model Fingerprint.
From Stdlib Require Import Ascii.

Record TaskOwnerIdentity : Type := mkTaskOwnerIdentity {
  owner_pid : N;
  owner_started_at_unix_micros : N;
  owner_uid_ : N;
}.

#[export] Instance TaskOwnerIdentity_eq_dec : EqDecision TaskOwnerIdentity.
Proof. solve_decision. Defined.

(** [TaskOwnerIdentity::from_process]. *)
Definition owner_from_process (p : ProcessRecord) : option TaskOwnerIdentity :=
  if bool_decide (1 < process_pid p)%N
     && bool_decide (0 < started_at_unix_micros (identity p))%N
     && bool_decide (uid p ≠ 0%N)
  then Some (mkTaskOwnerIdentity (process_pid p)
               (started_at_unix_micros (identity p)) (uid p))
  else None.

(** [TaskOwnerIdentity::matches]. *)
Definition owner_matches (o : TaskOwnerIdentity) (p : ProcessRecord) : bool :=
  bool_decide (owner_pid o = process_pid p)
    && bool_decide (owner_started_at_unix_micros o = started_at_unix_micros (identity p))
    && bool_decide (owner_uid_ o = uid p).

Record TaskControllerBinding : Type := mkTaskControllerBinding {
  task_id : string;
  task_controller : ProcessIdentity;
  task_released : bool;
}.

(** [ordinary_selector_fingerprint]. *)
Definition ordinary_selector_fingerprint (registry_namespace session_name : string) : string :=
  fingerprint_parts ["pw-cli"; registry_namespace; session_name].

Record SessionOwnerBinding : Type := mkSessionOwnerBinding {
  lease_id : string;
  owner_selector_fingerprint : string;
  owner_session_name : string;
  owner_controller_version : string;
  owner_controller : ProcessIdentity;
  owner_released : bool;
}.

(** [SessionOwnerBinding::binds]. *)
Definition binds (b : SessionOwnerBinding) (p : ProcessRecord) : bool :=
  exact_match (owner_controller b) (identity p).

(** [valid_task_id]: 32 lowercase hexadecimal digits. *)
Definition valid_task_id (value : string) : bool :=
  bool_decide (String.length value = 32)
    && all_bytes (λ b, is_ascii_digit b || is_lower_hex_letter b) value.

(** [session_name_from_id]. *)
Definition session_name_from_id (id : string) : string := "unlinger-" +:+ id.

(** [task_id_from_session]. *)
Definition task_id_from_session (value : string) : option string :=
  match strip_prefix "unlinger-" value with
  | Some id => if valid_task_id id then Some id else None
  | None => None
  end.

Definition is_session_byte (b : ascii) : bool :=
  is_ascii_alphanumeric b
    || (Ascii.eqb b "-" || Ascii.eqb b "_" || Ascii.eqb b ".").

(** [valid_ordinary_session_name]. *)
Definition valid_ordinary_session_name (value : string) : bool :=
  negb (is_empty value)
    && bool_decide (String.length value ≤ 64)
    && negb (starts_with "unlinger-" value)
    && all_bytes is_session_byte value.

(** [valid_registry_namespace]: 16 lowercase hexadecimal digits. *)
Definition valid_registry_namespace (value : string) : bool :=
  bool_decide (String.length value = 16)
    && all_bytes (λ b, is_ascii_digit b || is_lower_hex_letter b) value.

(** ** Lemmas *)

Lemma task_id_from_session_Some value id :
  task_id_from_session value = Some id ↔
  value = session_name_from_id id ∧ valid_task_id id = true.
Proof.
  unfold task_id_from_session, session_name_from_id. split.
  - destruct (strip_prefix _ value) as [r|] eqn:Hr; [|done].
    apply strip_prefix_Some in Hr as ->. by case_match; intros [= ->].
  - intros [-> Hv]. by rewrite strip_prefix_app, Hv.
Qed.

Lemma owner_matches_spec o p :
  owner_matches o p = true ↔
  owner_pid o = process_pid p ∧
  owner_started_at_unix_micros o = started_at_unix_micros (identity p) ∧
  owner_uid_ o = uid p.
Proof. unfold owner_matches. rewrite !andb_true_iff, !bool_decide_eq_true. tauto. Qed.

(** ** Properties *)

(** Session names round-trip: the task id decoded from a session name is
    the id the name was issued for, exactly for valid 32-hex ids, and any decoded
    name is the one issued for that id. *)
Theorem session_name_roundtrip value id :
  (task_id_from_session (session_name_from_id id) = Some id ↔ valid_task_id id = true) ∧
  (task_id_from_session value = Some id → value = session_name_from_id id).
Proof. rewrite !task_id_from_session_Some. naive_solver. Qed.

(** The two session lanes are disjoint: a valid ordinary session name never
    decodes to a task id, so ordinary and task ownership evidence cannot both
    apply to one controller. *)
Theorem session_lanes_disjoint value :
  ¬ (valid_ordinary_session_name value = true ∧ is_Some (task_id_from_session value)).
Proof.
  intros [Hv [id [-> _]%task_id_from_session_Some]].
  unfold valid_ordinary_session_name, session_name_from_id, starts_with in Hv.
  rewrite strip_prefix_app in Hv. bool_facts. done.
Qed.

(** An owner captured from a process matches exactly the processes with the
    same PID, start time and user, and is never root or init. *)
Theorem owner_from_process_sound p q o :
  owner_from_process p = Some o →
  owner_matches o p = true ∧ owner_uid_ o ≠ 0%N ∧ (1 < owner_pid o)%N ∧
  (owner_matches o q = true ↔
     process_pid q = process_pid p ∧
     started_at_unix_micros (identity q) = started_at_unix_micros (identity p) ∧
     uid q = uid p).
Proof.
  unfold owner_from_process. case_match eqn:Hg; [|done]. intros [= <-].
  bool_facts. rewrite !owner_matches_spec. simpl. naive_solver.
Qed.

(** ** Witnesses *)

Lemma owner_from_process_sound_witness :
  let p := mkProcessRecord (mkProcessIdentity 42 7 None None) 1 42 501 None "node" None
             (mkExecutableIdentity None None None None) None 0 Running default_runtime_facts in
  owner_matches (mkTaskOwnerIdentity 42 7 501) p = true.
Proof. intros p. by apply (owner_from_process_sound p p). Defined.
