(* ===== verification/Residue.v ===== *)
(** Residue: the storage-residue facts of [unlinger-core/src/storage_residue.rs]. *)

From S2P Require Import Prelude Text.

Inductive StorageResidueKind : Type := ChromeCodeSignClone.

Inductive StorageResidueStatus : Type :=
| ResidueClear
| ResidueDetected
| ResidueUnavailable.

Inductive StorageResidueReferenceCheck : Type :=
| Incomplete
| CompleteNoReferences
| Referenced_.

Record StorageResidueObservation : Type := mkStorageResidueObservation {
  sr_kind : StorageResidueKind;
  sr_status : StorageResidueStatus;
  sr_observed_at_unix_millis : N;
  sr_candidate_count : N;
  sr_logical_bytes : N;
  sr_shape_complete : bool;
  sr_reference_check : StorageResidueReferenceCheck;
  sr_automatic_cleanup_eligible : bool;
  sr_reason_ids : list string;
}.

Record StorageCleanupAttemptFacts : Type := mkStorageCleanupAttemptFacts {
  sa_planned_candidate_count : N;
  sa_before_candidate_count : N;
  sa_before_logical_bytes : N;
}.

Inductive StorageCleanupDisposition : Type :=
| DispComplete
| DispPartial
| DispFailed
| DispDeliveryUnknown.

(** [StorageCleanupDisposition::as_str]. *)
Definition disposition_as_str (d : StorageCleanupDisposition) : string :=
  match d with
  | DispComplete => "complete"
  | DispPartial => "partial"
  | DispFailed => "failed"
  | DispDeliveryUnknown => "delivery_unknown"
  end.

(** [StorageCleanupDisposition::parse]. *)
Definition disposition_parse (value : string) : option StorageCleanupDisposition :=
  if bool_decide (value = "complete") then Some DispComplete
  else if bool_decide (value = "partial") then Some DispPartial
  else if bool_decide (value = "failed") then Some DispFailed
  else if bool_decide (value = "delivery_unknown") then Some DispDeliveryUnknown
  else None.

Record StorageCleanupResultFacts : Type := mkStorageCleanupResultFacts {
  sc_disposition : StorageCleanupDisposition;
  sc_planned_candidate_count : N;
  sc_before_candidate_count : N;
  sc_before_logical_bytes : N;
  sc_removed_candidate_count : option N;
  sc_after_candidate_count : option N;
  sc_after_logical_bytes : option N;
  sc_retained_not_planned_count : option N;
}.

(** The persisted text of a storage-cleanup disposition round-trips: parsing
    accepts exactly the printed names. *)
Theorem disposition_roundtrip value d :
  disposition_parse value = Some d ↔ value = disposition_as_str d.
Proof.
  unfold disposition_parse. split.
  - repeat case_bool_decide; simplify_eq/=; by intros [= <-].
  - intros ->. by destruct d.
Qed.
