(* ===== verification/Artifact.v ===== *)
(** Artifact: runtime-artifact candidates of [unlinger-core/src/artifact.rs].

    A candidate is the only way an artifact path enters a cleanup plan, so its
    constructor is the place where unsafe profile paths are refused. *)

From S2P Require Import Prelude Text Fingerprint.

Inductive RuntimeArtifactKind : Type := DevToolsActivePort.

#[export] Instance RuntimeArtifactKind_eq_dec : EqDecision RuntimeArtifactKind.
Proof. solve_decision. Defined.

Inductive ArtifactDisposition : Type :=
| Removed
| AlreadyAbsent
| ArtIdentityMismatch
| Referenced
| Unsafe
| ArtRejected
| ArtCancelledBeforeDelivery
| ArtDeliveryUnknown.

#[export] Instance ArtifactDisposition_eq_dec : EqDecision ArtifactDisposition.
Proof. solve_decision. Defined.

(** [ArtifactDisposition::completed_cleanup]. *)
Definition completed_cleanup (d : ArtifactDisposition) : bool :=
  match d with Removed | AlreadyAbsent => true | _ => false end.

Record ArtifactActionIntent : Type := mkArtifactActionIntent {
  intent_kind : RuntimeArtifactKind;
  intent_artifact_fingerprint : string;
}.

#[export] Instance ArtifactActionIntent_eq_dec : EqDecision ArtifactActionIntent.
Proof. solve_decision. Defined.

Record ArtifactAction : Type := mkArtifactAction {
  act_kind : RuntimeArtifactKind;
  act_artifact_fingerprint : string;
  act_disposition : ArtifactDisposition;
}.

#[export] Instance ArtifactAction_eq_dec : EqDecision ArtifactAction.
Proof. solve_decision. Defined.

Record RuntimeArtifactCandidate : Type := mkRuntimeArtifactCandidate {
  candidate_kind : RuntimeArtifactKind;
  profile_path : string;
  artifact_path : string;
  candidate_owner_uid : N;
  candidate_session_fingerprint : string;
  candidate_artifact_fingerprint : string;
}.

#[export] Instance RuntimeArtifactCandidate_eq_dec : EqDecision RuntimeArtifactCandidate.
Proof. solve_decision. Defined.

Inductive ArtifactCandidateError : Type :=
| RelativePath
| UnsafePathComponent
| RootProfile
| NonUtf8Path
| RootOwner
| CandidateMissingSessionFingerprint.

#[export] Instance ArtifactCandidateError_eq_dec : EqDecision ArtifactCandidateError.
Proof. solve_decision. Defined.

(** The component loop of [validate_profile_path]: the number of normal
    components, or the first unsafe one. ([Prefix] components exist on Windows
    only.) *)
Fixpoint count_normal (count : nat) (cs : list component) : result nat ArtifactCandidateError :=
  match cs with
  | [] => Ok count
  | RootDir :: cs => count_normal count cs
  | Normal _ :: cs => count_normal (S count) cs
  | (CurDir | ParentDir) :: _ => Err UnsafePathComponent
  end.

(** [validate_profile_path]. *)
Definition validate_profile_path (path : string) : result unit ArtifactCandidateError :=
  guard? is_absolute path else RelativePath in
  let? normal_components := count_normal 0 (components path) in
  guard? negb (bool_decide (normal_components = 0)) else RootProfile in
  Ok tt.

(** The session- and profile-bound name of an artifact. *)
Definition artifact_fingerprint_of (session_fingerprint profile_text : string) : string :=
  "art-" +:+ fingerprint_parts
    ["unlinger.runtime-artifact.v1"; "devtools_active_port";
     session_fingerprint; profile_text].

(** [RuntimeArtifactCandidate::devtools_active_port]. *)
Definition devtools_active_port (profile_path : string) (owner_uid : N)
    (session_fingerprint : string) : result RuntimeArtifactCandidate ArtifactCandidateError :=
  let? _ := validate_profile_path profile_path in
  guard? negb (bool_decide (owner_uid = 0%N)) else RootOwner in
  guard? negb (is_empty (trim session_fingerprint)) else CandidateMissingSessionFingerprint in
  guard? utf8_valid profile_path else NonUtf8Path in
  Ok (mkRuntimeArtifactCandidate DevToolsActivePort profile_path
        (path_join profile_path "DevToolsActivePort") owner_uid session_fingerprint
        (artifact_fingerprint_of session_fingerprint profile_path)).

(** [RuntimeArtifactCandidate::intent]. *)
Definition candidate_intent (c : RuntimeArtifactCandidate) : ArtifactActionIntent :=
  mkArtifactActionIntent (candidate_kind c) (candidate_artifact_fingerprint c).

Record RuntimeArtifactIdentity : Type := mkRuntimeArtifactIdentity {
  ra_device : N;
  ra_inode : N;
  ra_owner_uid : N;
  ra_mode : N;
  ra_link_count : N;
  ra_parent_device : N;
  ra_parent_inode : N;
  ra_parent_owner_uid : N;
  ra_parent_mode : N;
}.

#[export] Instance RuntimeArtifactIdentity_eq_dec : EqDecision RuntimeArtifactIdentity.
Proof. solve_decision. Defined.

Record FrozenRuntimeArtifact : Type := mkFrozenRuntimeArtifact {
  frozen_candidate : RuntimeArtifactCandidate;
  frozen_identity : RuntimeArtifactIdentity;
}.

#[export] Instance FrozenRuntimeArtifact_eq_dec : EqDecision FrozenRuntimeArtifact.
Proof. solve_decision. Defined.

Inductive ArtifactFreeze : Type :=
| Frozen (artifact : FrozenRuntimeArtifact)
| Absent
| FreezeUnsafe.

#[export] Instance ArtifactFreeze_eq_dec : EqDecision ArtifactFreeze.
Proof. solve_decision. Defined.

(** ** Lemmas *)

Lemma count_normal_Ok count cs n :
  count_normal count cs = Ok n →
  CurDir ∉ cs ∧ ParentDir ∉ cs ∧ (count ≤ n) ∧ (count < n ↔ ∃ name, Normal name ∈ cs).
Proof.
  revert count. induction cs as [|c cs IH]; intros count; simpl.
  { intros [= ->]. repeat split; [set_solver..|lia|lia|set_solver]. }
  destruct c as [| | |name]; [|done..|]; intros Hc; apply IH in Hc as (? & ? & ? & Hn).
  - repeat split; [set_solver|set_solver|done|..]; rewrite Hn; set_solver.
  - repeat split; [set_solver|set_solver|lia| |lia]. intros _. exists name. set_solver.
Qed.

(** ** Properties *)

(** The artifact constructor accepts exactly the safe profiles: a candidate
    exists iff the path is absolute UTF-8 without "." or ".." components and not
    the filesystem root, the owner is not root, and the session fingerprint is
    not blank; the candidate then names that profile's DevToolsActivePort file,
    owner and session. *)
Theorem devtools_active_port_accepts path owner session c :
  devtools_active_port path owner session = Ok c ↔
  is_absolute path = true ∧ utf8_valid path = true ∧
  CurDir ∉ components path ∧ ParentDir ∉ components path ∧
  (∃ name, Normal name ∈ components path) ∧
  owner ≠ 0%N ∧ trim session ≠ "" ∧
  c = mkRuntimeArtifactCandidate DevToolsActivePort path
        (path_join path "DevToolsActivePort") owner session
        (artifact_fingerprint_of session path).
Proof.
  unfold devtools_active_port. rewrite result_bind_Ok. split.
  - intros (u & Hval & Hrest). unfold validate_profile_path in Hval.
    destruct (is_absolute path) eqn:Habs; [|done].
    apply result_bind_Ok in Hval as (n & Hn & Hpos).
    apply count_normal_Ok in Hn as (? & ? & _ & Hex). split_matches; bool_facts.
    repeat split; try done; [apply Hex; lia|]. by intros Ht; rewrite Ht in *.
  - intros (Habs & Hutf & Hcur & Hpar & Hex & Hown & Hses & ->). exists tt.
    rewrite Hutf, (bool_decide_false _ Hown). split; [|by destruct (trim session)].
    unfold validate_profile_path. rewrite Habs. simpl.
    destruct (count_normal 0 (components path)) as [n|e] eqn:Hn; simpl.
    + apply count_normal_Ok in Hn as (_ & _ & _ & Hiff). apply Hiff in Hex.
      by rewrite bool_decide_false by lia.
    + exfalso. clear Hex. revert Hcur Hpar Hn. generalize 0.
      induction (components path) as [|[] cs IH]; intros k; simpl; [done|..]; set_solver.
Qed.
