(* ===== verification/Graph.v ===== *)
(** Graph: the process tree of [unlinger-core/src/graph.rs].

    The traversal loops run on fuel: every loop visits a process at most once, so
    one unit per process and two more are enough ([walk_fuel]); the lemmas
    [descendants_loop_total], [ancestors_loop_total] and [lineage_loop_total] say
    that the fuel never runs out. *)

From S2P Require Import Prelude Text Model Fingerprint.

Inductive GraphError : Type := DuplicatePid (pid : N).

Record ProcessGraph : Type := mkProcessGraph {
  graph_current_uid : N;
  graph_processes : gmap N ProcessRecord;
  graph_children : gmap N (list N);
}.

(** The insertion loop of [ProcessGraph::from_snapshot]. *)
Fixpoint insert_processes (m : gmap N ProcessRecord) (ps : list ProcessRecord) :
    result (gmap N ProcessRecord) GraphError :=
  match ps with
  | [] => Ok m
  | p :: ps =>
      match m !! process_pid p with
      | Some _ => Err (DuplicatePid (process_pid p))
      | None => insert_processes (<[process_pid p := p]> m) ps
      end
  end.

(** [children.entry(parent).or_default().push(pid)]. *)
Definition push_child (m : gmap N (list N)) (p : ProcessRecord) : gmap N (list N) :=
  <[parent_pid p := default [] (m !! parent_pid p) ++ [process_pid p]]> m.

(** The child lists of [from_snapshot], each sorted. *)
Definition children_index (m : gmap N ProcessRecord) : gmap N (list N) :=
  merge_sort N.le <$> fold_left push_child (btree_values N.le m) ∅.

(** [ProcessGraph::from_snapshot]. *)
Definition from_snapshot (s : Snapshot) : result ProcessGraph GraphError :=
  let? m := insert_processes ∅ (processes s) in
  Ok (mkProcessGraph (current_uid s) m (children_index m)).

(** [ProcessGraph::processes]: the records in PID order. *)
Definition graph_records (g : ProcessGraph) : list ProcessRecord :=
  btree_values N.le (graph_processes g).

(** [ProcessGraph::get]. *)
Definition get (g : ProcessGraph) (pid : N) : option ProcessRecord :=
  graph_processes g !! pid.

(** [ProcessGraph::children_of]. *)
Definition children_of (g : ProcessGraph) (pid : N) : list N :=
  default [] (graph_children g !! pid).

Definition walk_fuel (g : ProcessGraph) : nat := 2 + size (graph_processes g).

(** The queue loop of [descendant_pids]; [None] when the fuel runs out. *)
Fixpoint descendants_loop (g : ProcessGraph) (fuel : nat) (queue : list N)
    (seen : gset N) (found : list N) : option (list N) :=
  match queue with
  | [] => Some found
  | pid :: queue =>
      match fuel with
      | O => None
      | S fuel =>
          if bool_decide (pid ∈ seen) then descendants_loop g fuel queue seen found
          else descendants_loop g fuel (queue ++ children_of g pid) ({[pid]} ∪ seen)
                 (if bool_decide (is_Some (get g pid)) then found ++ [pid] else found)
      end
  end.

(** [ProcessGraph::descendant_pids]. *)
Definition descendant_pids (g : ProcessGraph) (root : N) : list N :=
  merge_sort N.le (default [] (descendants_loop g (walk_fuel g) [root] ∅ [])).

(** The cursor loop of [ancestor_pids]. *)
Fixpoint ancestors_loop (g : ProcessGraph) (fuel : nat) (cursor : option N)
    (seen : gset N) (found : list N) : option (list N) :=
  match cursor with
  | None => Some found
  | Some parent =>
      match fuel with
      | O => None
      | S fuel =>
          if bool_decide (parent = 0%N) || bool_decide (parent ∈ seen) then Some found
          else ancestors_loop g fuel (parent_pid <$> get g parent)
                 ({[parent]} ∪ seen) (found ++ [parent])
      end
  end.

(** [ProcessGraph::ancestor_pids]. *)
Definition ancestor_pids (g : ProcessGraph) (pid : N) : list N :=
  default [] (ancestors_loop g (walk_fuel g) (parent_pid <$> get g pid) ∅ []).

(** [ProcessGraph::has_ancestor]. *)
Definition has_ancestor (g : ProcessGraph) (pid ancestor : N) : bool :=
  bool_decide (ancestor ∈ ancestor_pids g pid).

(** The next lineage step: init and the kernel end a lineage. *)
Definition lineage_next (g : ProcessGraph) (pid : N) : option N :=
  p ← get g pid;
  if bool_decide (parent_pid p ≠ 0%N) && bool_decide (parent_pid p ≠ 1%N)
  then Some (parent_pid p) else None.

(** The cursor loop of [lineage_has_cycle]. *)
Fixpoint lineage_loop (g : ProcessGraph) (fuel : nat) (cursor : option N)
    (seen : gset N) : option bool :=
  match cursor with
  | None => Some false
  | Some current =>
      match fuel with
      | O => None
      | S fuel =>
          if bool_decide (current ∈ seen) then Some true
          else lineage_loop g fuel (lineage_next g current) ({[current]} ∪ seen)
      end
  end.

(** [ProcessGraph::lineage_has_cycle]. *)
Definition lineage_has_cycle (g : ProcessGraph) (pid : N) : bool :=
  default true (lineage_loop g (walk_fuel g) (Some pid) ∅).

(** [ProcessGraph::has_unresolved_parent]. *)
Definition has_unresolved_parent (g : ProcessGraph) (pid : N) : bool :=
  match get g pid with
  | Some p => bool_decide (1 < parent_pid p)%N
                && negb (bool_decide (is_Some (get g (parent_pid p))))
  | None => false
  end.

(** [ProcessGraph::process_set_fingerprint]. *)
Definition process_set_fingerprint (g : ProcessGraph) (pids : list N) : string :=
  fingerprint_process_set (identity <$> omap (get g) pids).

(** ** Specification *)

(** A graph built from a snapshot: records sit under their own PID and the child
    index is the one of the records. *)
Definition graph_wf (g : ProcessGraph) : Prop :=
  map_Forall (λ k p, process_pid p = k) (graph_processes g) ∧
  graph_children g = children_index (graph_processes g).

(** [child_edge g a b]: [b] is a process whose parent is [a]. *)
Definition child_edge (g : ProcessGraph) (a b : N) : Prop :=
  ∃ p, get g b = Some p ∧ parent_pid p = a.

(** [parent_edge g a b]: [b] is the parent of the process [a], and not 0. *)
Definition parent_edge (g : ProcessGraph) (a b : N) : Prop :=
  ∃ p, get g a = Some p ∧ parent_pid p = b ∧ b ≠ 0%N.

(** One lineage step as a relation. *)
Definition lineage_edge (g : ProcessGraph) (a b : N) : Prop :=
  lineage_next g a = Some b.

Definition witness_process (p parent : N) : ProcessRecord :=
  mkProcessRecord (mkProcessIdentity p 7 None None) parent p 501 None "node" None
    (mkExecutableIdentity None None None None) None 0 Running default_runtime_facts.

Definition witness_snapshot : Snapshot :=
  mkSnapshot 0 501 [witness_process 30 20; witness_process 20 10; witness_process 10 1]
    default_coverage.

(** ** Lemmas: construction *)

Lemma insert_processes_Ok m ps m' :
  insert_processes m ps = Ok m' →
  NoDup (process_pid <$> ps) ∧
  (∀ p, p ∈ ps → m !! process_pid p = None) ∧
  (∀ k, m' !! k = m !! k ∪ (list_to_map ((λ p, (process_pid p, p)) <$> ps) : gmap N _) !! k).
Proof.
  revert m. induction ps as [|p ps IH]; intros m; simpl.
  { intros [= ->]. split_and!; [constructor|set_solver|].
    intros k. by rewrite lookup_empty, (right_id_L None _). }
  destruct (m !! process_pid p) eqn:Hp; [done|].
  intros (Hnd & Hfresh & Hlook)%IH. split_and!.
  - constructor; [|done]. intros (q & Hq & Hin)%list_elem_of_fmap.
    specialize (Hfresh q Hin). by rewrite <-Hq, lookup_insert_eq in Hfresh.
  - intros q [->|Hin]%elem_of_cons; [done|]. specialize (Hfresh q Hin).
    by apply lookup_insert_None in Hfresh as [? _].
  - intros k. rewrite Hlook. destruct (decide (process_pid p = k)) as [<-|Hne].
    + rewrite !lookup_insert_eq, Hp. by destruct (list_to_map _ !! _).
    + by rewrite !lookup_insert_ne by done.
Qed.

Lemma from_snapshot_lookup s g k p :
  from_snapshot s = Ok g →
  get g k = Some p ↔ p ∈ processes s ∧ process_pid p = k.
Proof.
  unfold from_snapshot. intros (m & Hm & [= <-])%result_bind_Ok.
  apply insert_processes_Ok in Hm as (Hnd & _ & Hlook).
  unfold get; simpl. rewrite Hlook, lookup_empty, (left_id_L None _).
  rewrite <-elem_of_list_to_map.
  - rewrite list_elem_of_fmap. split; [intros (q & [= -> ->] & ?)|intros [? <-]]; eauto.
  - by rewrite <-list_fmap_compose.
Qed.

Lemma from_snapshot_wf s g : from_snapshot s = Ok g → graph_wf g.
Proof.
  intros Hg. split.
  - intros k p Hk. by apply (from_snapshot_lookup s) in Hk as [_ ?].
  - revert Hg. unfold from_snapshot. by intros (m & _ & [= <-])%result_bind_Ok.
Qed.

Lemma from_snapshot_uid s g : from_snapshot s = Ok g → graph_current_uid g = current_uid s.
Proof. unfold from_snapshot. by intros (m & _ & [= <-])%result_bind_Ok. Qed.

Lemma elem_of_graph_records g p :
  p ∈ graph_records g ↔ ∃ k, get g k = Some p.
Proof. apply elem_of_btree_values. Qed.

Lemma push_child_lookup ps k :
  default [] (fold_left push_child ps ∅ !! k)
  = process_pid <$> filter (λ p, parent_pid p = k) ps.
Proof.
  induction ps as [|p ps IH] using rev_ind; [done|].
  rewrite fold_left_app, filter_app, fmap_app, <-IH; simpl. unfold push_child at 1.
  rewrite filter_cons, filter_nil. case_decide as Hk.
  - by rewrite Hk, lookup_insert_eq.
  - rewrite lookup_insert_ne by done. by rewrite app_nil_r.
Qed.

Lemma children_of_permutation g k :
  graph_wf g →
  children_of g k ≡ₚ process_pid <$> filter (λ p, parent_pid p = k) (graph_records g).
Proof.
  intros [_ Hch]. unfold children_of, graph_records. rewrite Hch. unfold children_index.
  rewrite lookup_fmap, <-push_child_lookup.
  match goal with |- context [merge_sort N.le <$> ?o] => destruct o as [l|] end; simpl;
    [by rewrite merge_sort_Permutation|reflexivity].
Qed.

Lemma elem_of_children_of g a b :
  graph_wf g → b ∈ children_of g a ↔ child_edge g a b.
Proof.
  intros Hwf. rewrite children_of_permutation by done. unfold child_edge.
  rewrite list_elem_of_fmap. setoid_rewrite list_elem_of_filter.
  setoid_rewrite elem_of_graph_records. split.
  - intros (p & -> & Hp & k & Hk). exists p. split; [|done].
    destruct Hwf as [Hkeys _]. by rewrite (Hkeys _ _ Hk).
  - intros (p & Hb & Hp). exists p. destruct Hwf as [Hkeys _].
    split; [by rewrite (Hkeys _ _ Hb)|eauto].
Qed.

Lemma length_merge_sort {A} (R : relation A) `{!RelDecision R} l :
  length (merge_sort R l) = length l.
Proof. apply Permutation_length, merge_sort_Permutation. Qed.

Lemma length_graph_records g : length (graph_records g) = size (graph_processes g).
Proof.
  unfold graph_records, btree_values, btree_entries.
  rewrite length_fmap, length_merge_sort. by rewrite <-length_map_to_list.
Qed.

(** ** Lemmas: the descendant loop *)

(** Processes whose parent has not been visited yet. *)
Definition unvisited (g : ProcessGraph) (seen : gset N) : nat :=
  length (filter (λ p, parent_pid p ∉ seen) (graph_records g)).

Lemma unvisited_visit g seen k :
  graph_wf g → k ∉ seen →
  unvisited g seen = length (children_of g k) + unvisited g ({[k]} ∪ seen).
Proof.
  intros Hwf Hk. rewrite children_of_permutation, length_fmap by done. unfold unvisited.
  induction (graph_records g) as [|p ps IH]; [done|].
  rewrite !filter_cons. repeat case_decide; simpl; set_solver by lia.
Qed.

Lemma descendants_loop_total g fuel queue seen found :
  graph_wf g → length queue + unvisited g seen ≤ fuel →
  is_Some (descendants_loop g fuel queue seen found).
Proof.
  intros Hwf. revert queue seen found.
  induction fuel as [|fuel IH]; intros [|k queue] seen found Hfuel; simpl in *;
    [eauto|lia|eauto|].
  case_bool_decide as Hk; apply IH; [lia|].
  rewrite length_app. pose proof (unvisited_visit g seen k Hwf Hk). lia.
Qed.

Lemma unvisited_empty g : unvisited g ∅ ≤ size (graph_processes g).
Proof. unfold unvisited. rewrite <-length_graph_records. apply length_filter. Qed.

(** What the descendant loop maintains. *)
Record descendants_inv (g : ProcessGraph) (root : N) (queue : list N)
    (seen : gset N) (found : list N) : Prop := {
  di_root : root ∈ seen ∨ root ∈ queue;
  di_reach k : k ∈ seen ∨ k ∈ queue → rtc (child_edge g) root k;
  di_closed k k' : k ∈ seen → child_edge g k k' → k' ∈ seen ∨ k' ∈ queue;
  di_found k : k ∈ found ↔ k ∈ seen ∧ is_Some (get g k);
  di_nodup : NoDup found;
}.

Lemma descendants_inv_seen g root k queue seen found :
  k ∈ seen → descendants_inv g root (k :: queue) seen found →
  descendants_inv g root queue seen found.
Proof.
  intros Hk [Hr Hreach Hcl Hf Hnd]. split; [set_solver..| | |done].
  - intros a b Ha Hab. destruct (Hcl a b Ha Hab); set_solver.
  - done.
Qed.

Lemma descendants_inv_visit g root k queue seen found :
  graph_wf g → k ∉ seen → descendants_inv g root (k :: queue) seen found →
  descendants_inv g root (queue ++ children_of g k) ({[k]} ∪ seen)
    (if bool_decide (is_Some (get g k)) then found ++ [k] else found).
Proof.
  intros Hwf Hk [Hr Hreach Hcl Hf Hnd].
  assert (Hkr : rtc (child_edge g) root k) by (apply Hreach; set_solver).
  split.
  - set_solver.
  - intros a Ha. rewrite elem_of_app, elem_of_children_of in Ha by done.
    destruct Ha as [[?%elem_of_singleton|?]%elem_of_union|[?|Hka]]; subst;
      [done|apply Hreach; set_solver..|]. by eapply rtc_r.
  - intros a b Ha Hab. rewrite elem_of_app, elem_of_children_of by done.
    apply elem_of_union in Ha as [->%elem_of_singleton|Ha]; [by right; right|].
    destruct (Hcl a b Ha Hab); set_solver.
  - intros a. case_bool_decide as Hs.
    + rewrite elem_of_app, list_elem_of_singleton, Hf. set_solver.
    + rewrite Hf. set_solver.
  - case_bool_decide; [|done]. apply NoDup_app. split_and!; [done| |apply NoDup_singleton].
    intros a Ha%Hf. set_solver.
Qed.

Lemma descendants_loop_inv g root fuel queue seen found r :
  graph_wf g → descendants_inv g root queue seen found →
  descendants_loop g fuel queue seen found = Some r →
  NoDup r ∧ ∀ k, k ∈ r ↔ is_Some (get g k) ∧ rtc (child_edge g) root k.
Proof.
  intros Hwf. revert queue seen found.
  induction fuel as [|fuel IH]; intros [|k queue] seen found Hinv; simpl; try done.
  1, 2: intros [= <-]; destruct Hinv as [Hr Hreach Hcl Hf Hnd]; split; [done|];
    intros k; rewrite Hf; split; [intros [? ?]; split; [done|]; apply Hreach; set_solver|];
    intros [Hs Hrk]; split; [|done];
    apply (rtc_closed (child_edge g) (.∈ seen) root k); [set_solver| |done];
    intros a b Ha Hab; destruct (Hcl a b Ha Hab); set_solver.
  case_bool_decide as Hk; intros Hloop.
  - eapply IH; [|done]. by eapply descendants_inv_seen.
  - eapply IH; [|done]. by apply descendants_inv_visit.
Qed.

(** ** Lemmas: the parent loops *)

Lemma parent_edge_det g a b c : parent_edge g a b → parent_edge g a c → b = c.
Proof. intros (p & ? & ? & _) (q & ? & ? & _). by simplify_eq. Qed.

(** The fuel an unfinished cursor loop still needs. *)
Definition unseen (g : ProcessGraph) (seen : gset N) : nat :=
  size (dom (graph_processes g) ∖ seen).

Lemma unseen_visit g seen k :
  is_Some (get g k) → k ∉ seen → unseen g seen = S (unseen g ({[k]} ∪ seen)).
Proof.
  intros Hk Hns. unfold unseen.
  assert (Hin : k ∈ dom (graph_processes g) ∖ seen)
    by (apply elem_of_difference; split; [by apply elem_of_dom|done]).
  rewrite (union_difference_L {[k]} (dom (graph_processes g) ∖ seen)) by set_solver.
  rewrite size_union by set_solver. rewrite size_singleton.
  f_equal. simpl. f_equal. set_solver.
Qed.

Lemma unseen_empty g : unseen g ∅ = size (graph_processes g).
Proof. unfold unseen. by rewrite difference_empty_L, size_dom. Qed.

Lemma ancestors_loop_total g fuel cursor seen found :
  (is_Some cursor → S (unseen g seen) ≤ fuel) →
  is_Some (ancestors_loop g fuel cursor seen found).
Proof.
  revert cursor seen found.
  induction fuel as [|fuel IH]; intros [k|] seen found Hfuel; simpl; eauto.
  { specialize (Hfuel (mk_is_Some _ _ eq_refl)). lia. }
  destruct (bool_decide (k = 0%N)); simpl; [eauto|].
  case_bool_decide as Hk; [eauto|]. apply IH. intros Hs.
  apply fmap_is_Some in Hs. pose proof (unseen_visit g seen k Hs Hk).
  specialize (Hfuel (mk_is_Some _ _ eq_refl)). lia.
Qed.

Lemma lineage_next_get g k : is_Some (lineage_next g k) → is_Some (get g k).
Proof. unfold lineage_next. destruct (get g k); [eauto|by intros []]. Qed.

Lemma lineage_loop_total g fuel cursor seen :
  (is_Some cursor → S (unseen g seen) ≤ fuel) → is_Some (lineage_loop g fuel cursor seen).
Proof.
  revert cursor seen. induction fuel as [|fuel IH]; intros [k|] seen Hfuel; simpl; eauto.
  { specialize (Hfuel (mk_is_Some _ _ eq_refl)). lia. }
  case_bool_decide as Hk; [eauto|]. apply IH. intros Hs%lineage_next_get.
  pose proof (unseen_visit g seen k Hs Hk).
  specialize (Hfuel (mk_is_Some _ _ eq_refl)). lia.
Qed.

(** What the ancestor loop maintains. *)
Record ancestors_inv (g : ProcessGraph) (pid : N) (cursor : option N)
    (seen : gset N) (found : list N) : Prop := {
  ai_seen k : k ∈ seen ↔ k ∈ found;
  ai_found k : k ∈ found → tc (parent_edge g) pid k;
  ai_cursor c : cursor = Some c → c = 0%N ∨ tc (parent_edge g) pid c;
  ai_closed a b : a = pid ∨ a ∈ found → parent_edge g a b → b ∈ found ∨ cursor = Some b;
  ai_nodup : NoDup found;
}.

Lemma ancestors_inv_closed g pid cursor seen found k :
  ancestors_inv g pid cursor seen found →
  (∀ c, cursor = Some c → c = 0%N ∨ c ∈ found) →
  tc (parent_edge g) pid k → k ∈ found.
Proof.
  intros [_ _ _ Hcl _] Hend Htc.
  assert (Hstep : ∀ a b, a = pid ∨ a ∈ found → parent_edge g a b → b ∈ found).
  { intros a b Ha Hab. destruct (Hcl a b Ha Hab) as [?|Hc]; [done|].
    destruct (Hend b Hc) as [->|]; [|done]. by destruct Hab as (? & _ & _ & ?). }
  inversion Htc as [? ? Hk|? b ? Hb Hbk]; subst; [eauto|].
  apply (rtc_closed (parent_edge g) (.∈ found) b k); eauto using tc_rtc.
Qed.

Lemma ancestors_inv_step g pid k seen found :
  k ≠ 0%N → k ∉ seen → ancestors_inv g pid (Some k) seen found →
  ancestors_inv g pid (parent_pid <$> get g k) ({[k]} ∪ seen) (found ++ [k]).
Proof.
  intros H0 Hk [Hseen Hf Hc Hcl Hnd].
  assert (Hpk : tc (parent_edge g) pid k) by (by destruct (Hc k eq_refl)).
  split.
  - intros a. rewrite elem_of_app, list_elem_of_singleton, <-Hseen. set_solver.
  - intros a [?| ->%list_elem_of_singleton]%elem_of_app; auto.
  - intros c (p & Hp & ->)%fmap_Some. destruct (decide (parent_pid p = 0%N)); [by left|right].
    eapply tc_r; [done|]. by exists p.
  - intros a b Ha Hab. rewrite elem_of_app, list_elem_of_singleton.
    assert (Ha' : (a = pid ∨ a ∈ found) ∨ a = k) by set_solver. destruct Ha' as [Ha'| ->].
    + destruct (Hcl a b Ha' Hab) as [|[= ->]]; auto.
    + right. destruct Hab as (p & -> & <- & _). done.
  - apply NoDup_app. split_and!; [done| |apply NoDup_singleton].
    intros a Ha%Hseen. set_solver.
Qed.

Lemma ancestors_loop_inv g pid fuel cursor seen found r :
  ancestors_inv g pid cursor seen found →
  ancestors_loop g fuel cursor seen found = Some r →
  NoDup r ∧ ∀ k, k ∈ r ↔ tc (parent_edge g) pid k.
Proof.
  revert cursor seen found.
  assert (Hdone : ∀ cursor seen found, ancestors_inv g pid cursor seen found →
    (∀ c, cursor = Some c → c = 0%N ∨ c ∈ seen) →
    NoDup found ∧ ∀ k, k ∈ found ↔ tc (parent_edge g) pid k).
  { intros cursor seen found Hinv Hend. split; [by destruct Hinv|]. intros k. split.
    - by apply (ai_found _ _ _ _ _ Hinv).
    - apply (ancestors_inv_closed _ _ _ _ _ _ Hinv). intros c Hc.
      rewrite <-(ai_seen _ _ _ _ _ Hinv). auto. }
  induction fuel as [|fuel IH]; intros [k|] seen found Hinv; simpl; try done;
    try (intros [= <-]; by eapply Hdone).
  destruct (bool_decide (k = 0%N) || bool_decide (k ∈ seen)) eqn:Hend.
  - intros [= <-]. eapply Hdone; [done|]. intros c [= <-].
    apply orb_true_iff in Hend as [?%bool_decide_eq_true|?%bool_decide_eq_true]; auto.
  - bool_facts. intros Hloop. eapply IH; [|done]. by apply ancestors_inv_step.
Qed.

Lemma ancestors_inv_start g pid :
  ancestors_inv g pid (parent_pid <$> get g pid) ∅ [].
Proof.
  split; [set_solver..| | |constructor].
  - intros c (p & Hp & ->)%fmap_Some. destruct (decide (parent_pid p = 0%N)); [by left|right].
    constructor. by exists p.
  - intros a b [->|?%elem_of_nil] (p & Hp & <- & _); [|done]. right. by rewrite Hp.
Qed.

Lemma lineage_edge_det g a b c : lineage_edge g a b → lineage_edge g a c → b = c.
Proof. unfold lineage_edge. congruence. Qed.

Lemma lineage_loop_spec g pid fuel current seen r :
  rtc (lineage_edge g) pid current →
  (∀ x, x ∈ seen → rtc (lineage_edge g) pid x ∧ tc (lineage_edge g) x current) →
  lineage_loop g fuel (Some current) seen = Some r →
  r = true ↔ ∃ x, rtc (lineage_edge g) pid x ∧ tc (lineage_edge g) x x.
Proof.
  revert current seen. induction fuel as [|fuel IH]; intros current seen Hcur Hseen; [done|].
  simpl. case_bool_decide as Hin.
  { intros [= <-]. apply Hseen in Hin. naive_solver. }
  destruct (lineage_next g current) as [next|] eqn:Hnext.
  - apply IH; [by eapply rtc_r|].
    intros x [->%elem_of_singleton|Hx]%elem_of_union.
    + split; [done|]. by constructor.
    + apply Hseen in Hx as [? ?]. split; [done|]. by eapply tc_r.
  - destruct fuel; intros [= <-]; (split; [done|]); intros (x & Hx & Hcyc); exfalso.
    all: destruct (rtc_functional (lineage_edge g) pid x current) as [Hxc|Hcx];
      eauto using lineage_edge_det.
    all: first [apply (tc_cycle_rtc _ x current) in Hcyc as Hcc; [|eauto using lineage_edge_det|done];
           inversion Hcc; unfold lineage_edge in *; congruence
         | inversion Hcx; subst; [inversion Hcyc|]; unfold lineage_edge in *; congruence].
Qed.

Lemma descendant_pids_facts s g root :
  from_snapshot s = Ok g →
  is_Some (descendants_loop g (walk_fuel g) [root] ∅ []) ∧
  Sorted N.le (descendant_pids g root) ∧ NoDup (descendant_pids g root) ∧
  ∀ k, k ∈ descendant_pids g root ↔ is_Some (get g k) ∧ rtc (child_edge g) root k.
Proof.
  intros Hwf%from_snapshot_wf.
  destruct (descendants_loop_total g (walk_fuel g) [root] ∅ [] Hwf) as [r Hr].
  { unfold walk_fuel. pose proof (unvisited_empty g). simpl. lia. }
  rewrite Hr. split; [eauto|]. unfold descendant_pids. rewrite Hr. simpl.
  apply (descendants_loop_inv g root) in Hr as [Hnd Hspec]; [|done|].
  - split; [apply Sorted_merge_sort, _|]. rewrite merge_sort_Permutation. split; [done|].
    intros k. by rewrite merge_sort_Permutation.
  - split; [set_solver..| | |constructor]; [set_solver|].
    intros k. split; [by intros ?%elem_of_nil|set_solver].
Qed.

Lemma ancestor_pids_facts g pid :
  is_Some (ancestors_loop g (walk_fuel g) (parent_pid <$> get g pid) ∅ []) ∧
  NoDup (ancestor_pids g pid) ∧
  ∀ k, k ∈ ancestor_pids g pid ↔ tc (parent_edge g) pid k.
Proof.
  destruct (ancestors_loop_total g (walk_fuel g) (parent_pid <$> get g pid) ∅ []) as [r Hr].
  { rewrite unseen_empty. unfold walk_fuel. lia. }
  unfold ancestor_pids. rewrite Hr. split; [eauto|]. simpl.
  eapply ancestors_loop_inv; [apply ancestors_inv_start|done].
Qed.

Lemma from_snapshot_get s g k p :
  from_snapshot s = Ok g → get g k = Some p → p ∈ processes s ∧ process_pid p = k.
Proof. intros Hg Hk. by eapply from_snapshot_lookup. Qed.

(** ** Properties *)

(** A process graph exists exactly for snapshots without a duplicate PID,
    and then looks up every observed process under its own PID and nothing else. *)
Theorem from_snapshot_correct s :
  (is_Ok (from_snapshot s) ↔ NoDup (process_pid <$> processes s)) ∧
  ∀ g, from_snapshot s = Ok g →
    ∀ k p, get g k = Some p ↔ p ∈ processes s ∧ process_pid p = k.
Proof.
  split; [|by intros; apply from_snapshot_lookup].
  unfold from_snapshot, is_Ok.
  assert (Hins : ∀ m ps, (∀ p, p ∈ ps → m !! process_pid p = None) →
    NoDup (process_pid <$> ps) → ∃ m', insert_processes m ps = Ok m').
  { intros m ps. revert m. induction ps as [|p ps IH]; intros m Hfresh; [eauto|].
    rewrite fmap_cons, NoDup_cons. intros [Hp Hnd]. simpl.
    rewrite Hfresh by set_solver. apply IH; [|done]. intros q Hq.
    rewrite lookup_insert_ne; [set_solver|]. intros Heq. apply Hp. rewrite Heq.
    by apply list_elem_of_fmap_2. }
  split.
  - intros [g Hg]. apply result_bind_Ok in Hg as (m & Hm & _).
    by apply insert_processes_Ok in Hm as [? _].
  - intros Hnd. destruct (Hins ∅ (processes s)) as [m ->]; [done..|]. by eexists.
Qed.

(** [descendant_pids] terminates within its fuel and returns, without
    duplicates and in ascending order, exactly the observed processes reachable
    from the root along parent links. *)
Theorem descendant_pids_spec s g root :
  from_snapshot s = Ok g →
  is_Some (descendants_loop g (walk_fuel g) [root] ∅ []) ∧
  Sorted N.le (descendant_pids g root) ∧ NoDup (descendant_pids g root) ∧
  ∀ k, k ∈ descendant_pids g root ↔ is_Some (get g k) ∧ rtc (child_edge g) root k.
Proof. apply descendant_pids_facts. Qed.

(** [ancestor_pids] terminates within its fuel, cyclic parent links
    included, and returns every non-zero ancestor exactly once. *)
Theorem ancestor_pids_spec g pid :
  is_Some (ancestors_loop g (walk_fuel g) (parent_pid <$> get g pid) ∅ []) ∧
  NoDup (ancestor_pids g pid) ∧
  ∀ k, k ∈ ancestor_pids g pid ↔ tc (parent_edge g) pid k.
Proof. apply ancestor_pids_facts. Qed.

(** [lineage_has_cycle] terminates within its fuel and reports a cycle iff
    following parents from the process (init and the kernel excluded) reaches a
    process that is its own ancestor. *)
Theorem lineage_has_cycle_spec g pid :
  is_Some (lineage_loop g (walk_fuel g) (Some pid) ∅) ∧
  (lineage_has_cycle g pid = true ↔
     ∃ x, rtc (lineage_edge g) pid x ∧ tc (lineage_edge g) x x).
Proof.
  destruct (lineage_loop_total g (walk_fuel g) (Some pid) ∅) as [r Hr].
  { rewrite unseen_empty. unfold walk_fuel. lia. }
  unfold lineage_has_cycle. rewrite Hr. split; [eauto|]. simpl.
  eapply lineage_loop_spec; [done| |done]. set_solver.
Qed.

(** ** Witnesses *)

Lemma descendant_pids_spec_witness :
  ∃ g, from_snapshot witness_snapshot = Ok g ∧ descendant_pids g 10 = [10%N; 20%N; 30%N] ∧
    NoDup (descendant_pids g 10).
Proof.
  eexists. split; [reflexivity|]. split; [vm_compute; reflexivity|].
  eapply (descendant_pids_spec witness_snapshot). reflexivity.
Defined.
