(* ===== verification/Evidence.v ===== *)
(** Evidence: incident reports and the gate ledger of
    [unlinger-core/src/evidence.rs]. *)

From S2P Require Import Prelude Text Model Artifact.

Inductive EvidenceFamily : Type :=
| AutomationProvenance
| Abandonment
| Isolation
| Protection.

#[export] Instance EvidenceFamily_eq_dec : EqDecision EvidenceFamily.
Proof. solve_decision. Defined.

(** The derived [Ord] is the declaration order. *)
Definition family_rank (f : EvidenceFamily) : N :=
  match f with
  | AutomationProvenance => 0
  | Abandonment => 1
  | Isolation => 2
  | Protection => 3
  end.

Record EvidenceItem : Type := mkEvidenceItem {
  ev_id : string;
  ev_family : EvidenceFamily;
  ev_source_pid : option N;
}.

#[export] Instance EvidenceItem_eq_dec : EqDecision EvidenceItem.
Proof. solve_decision. Defined.

Record GateLedger : Type := mkGateLedger {
  same_user : bool;
  strong_automation_provenance : bool;
  confirmed_abandonment : bool;
  isolated_session : bool;
  stable_across_two_observations : bool;
  process_identity_unchanged : bool;
  no_protection_rule : bool;
}.

#[export] Instance GateLedger_eq_dec : EqDecision GateLedger.
Proof. solve_decision. Defined.

(** [GateLedger::default]. *)
Definition default_gates : GateLedger :=
  mkGateLedger false false false false false false false.

(** [GateLedger::cleanup_eligible]. *)
Definition cleanup_eligible (g : GateLedger) : bool :=
  same_user g
    && strong_automation_provenance g
    && confirmed_abandonment g
    && isolated_session g
    && stable_across_two_observations g
    && process_identity_unchanged g
    && no_protection_rule g.

Record RootSummary : Type := mkRootSummary {
  root_pid : N;
  root_started_at_unix_micros : N;
  root_executable_basename : string;
  root_identity_fingerprint : string;
}.

Inductive ProcessRole : Type :=
| Controller
| BrowserRoot
| Renderer
| Gpu
| Utility
| BrowserHelper
| CrashHandler
| Recorder
| IncidentMember.

#[export] Instance ProcessRole_eq_dec : EqDecision ProcessRole.
Proof. solve_decision. Defined.

Definition all_roles : list ProcessRole :=
  [Controller; BrowserRoot; Renderer; Gpu; Utility; BrowserHelper; CrashHandler;
   Recorder; IncidentMember].

(** The derived [Ord] of the roles is the declaration order. *)
Definition role_rank (r : ProcessRole) : nat :=
  match r with
  | Controller => 0
  | BrowserRoot => 1
  | Renderer => 2
  | Gpu => 3
  | Utility => 4
  | BrowserHelper => 5
  | CrashHandler => 6
  | Recorder => 7
  | IncidentMember => 8
  end.

#[export] Program Instance ProcessRole_countable : Countable ProcessRole := {|
  encode r := encode (role_rank r);
  decode p := n ← decode p; all_roles !! n
|}.
Next Obligation. by intros []. Qed.

Definition role_le : relation ProcessRole := λ a b, role_rank a ≤ role_rank b.

#[export] Instance role_le_dec : RelDecision role_le := λ a b, decide (role_rank a ≤ role_rank b).

Inductive BrowserProduct : Type :=
| ChromeForTesting
| Chromium
| GoogleChrome
| OtherProduct
| UnknownProduct.

#[export] Instance BrowserProduct_eq_dec : EqDecision BrowserProduct.
Proof. solve_decision. Defined.

Inductive BrowserCompatibilityDecision : Type :=
| DecisionAutomatic
| DecisionObserveOnly
| DecisionProtected
| DecisionUnknown.

#[export] Instance BrowserCompatibilityDecision_eq_dec : EqDecision BrowserCompatibilityDecision.
Proof. solve_decision. Defined.

Record BrowserCompatibility : Type := mkBrowserCompatibility {
  compat_product : BrowserProduct;
  compat_observed_version : option string;
  compat_decision : BrowserCompatibilityDecision;
  compat_reason_id : option string;
}.

(** [BrowserCompatibility::default]. *)
Definition default_compatibility : BrowserCompatibility :=
  mkBrowserCompatibility UnknownProduct None DecisionUnknown
    (Some "compatibility.browser_facts_unavailable").

Record ProcessTarget : Type := mkProcessTarget {
  target_identity : ProcessIdentity;
  target_process_group_id : N;
  target_role : ProcessRole;
}.

#[export] Instance ProcessTarget_eq_dec : EqDecision ProcessTarget.
Proof. solve_decision. Defined.

Definition target_pid (t : ProcessTarget) : N := pid (target_identity t).

Record ProcessRoleCount : Type := mkProcessRoleCount {
  counted_role : ProcessRole;
  role_count : N;
}.

Record IncidentReport : Type := mkIncidentReport {
  incident_id : string;
  tracking_key : string;
  session_fingerprint : string;
  signature_pack : string;
  signature_version : string;
  state : IncidentState;
  root : RootSummary;
  member_count : N;
  report_resident_memory_bytes : N;
  member_fingerprint : string;
  roles : list ProcessRoleCount;
  evidence : list EvidenceItem;
  gates : GateLedger;
  browser_compatibility : BrowserCompatibility;
  targets : list ProcessTarget;
  runtime_artifacts : list RuntimeArtifactCandidate;
}.

(** ** Lemmas *)

Lemma cleanup_eligible_iff g :
  cleanup_eligible g = true ↔
  g = mkGateLedger true true true true true true true.
Proof. destruct g as [[] [] [] [] [] [] []]; split; by intros. Qed.
