(* ===== verification/Effects.v ===== *)
(** Effects: programs over an effect signature, their traces and a post-condition
    calculus.

    The cleanup executor talks to a runtime, a journal and a stop flag only
    through trait methods. A [prog] is the translated code with each method call
    as an event; it makes no assumption on the answers. [runs] relates a program
    to the traces the environment can produce, [run] executes it against a
    concrete environment, and [safe] is the calculus in which the executor is
    verified: a ghost state folds the trace, every event is checked against the
    ghost state before it happens, and a post-condition relates the final ghost
    state to the result. *)

From S2P Require Import Prelude.

Set Implicit Arguments.

Section Programs.
Context {E : Type → Type}.

Inductive prog (A : Type) : Type :=
| Ret (a : A)
| Vis {X : Type} (e : E X) (k : X → prog A).
Arguments Ret {A} a.
Arguments Vis {A X} e k.

Fixpoint bind {A B} (p : prog A) (k : A → prog B) : prog B :=
  match p with
  | Ret a => k a
  | Vis e k' => Vis e (λ x, bind (k' x) k)
  end.

(** A single event. *)
Definition trigger {X} (e : E X) : prog X := Vis e Ret.

(** An answered event. *)
Inductive obs : Type :=
| Obs {X : Type} (e : E X) (x : X).

(** The traces of a program, for every possible environment. *)
Fixpoint runs {A} (p : prog A) (tr : list obs) (r : A) : Prop :=
  match p with
  | Ret a => tr = [] ∧ r = a
  | Vis e k => ∃ x tr', tr = Obs e x :: tr' ∧ runs (k x) tr' r
  end.

(** Execution against a concrete environment with state [W]. *)
Fixpoint run {A W} (handle : ∀ X, E X → W → W * X) (p : prog A) (w : W) :
    W * list obs * A :=
  match p with
  | Ret a => (w, [], a)
  | @Vis _ X e k =>
      let '(w, x) := handle X e w in
      let '(w, tr, a) := run handle (k x) w in
      (w, Obs e x :: tr, a)
  end.

Section Ghost.
(** The ghost state, its update by an answered event, and the check an event
    must pass in the current ghost state. *)
Context {G : Type} (upd : G → obs → G) (ok : G → ∀ X, E X → Prop).

Fixpoint safe {A} (g : G) (p : prog A) (Q : G → A → Prop) : Prop :=
  match p with
  | Ret a => Q g a
  | @Vis _ X e k => ok g e ∧ ∀ x, safe (upd g (Obs e x)) (k x) Q
  end.

(** The checks along a trace. *)
Fixpoint accepts (g : G) (tr : list obs) : Prop :=
  match tr with
  | [] => True
  | @Obs X e x :: tr => ok g e ∧ accepts (upd g (Obs e x)) tr
  end.

Lemma safe_mono {A} g (p : prog A) (Q Q' : G → A → Prop) :
  (∀ g a, Q g a → Q' g a) → safe g p Q → safe g p Q'.
Proof.
  intros HQ. revert g. induction p as [a|X e k IH]; simpl; intros g; [apply HQ|].
  intros [Hok Hk]. split; [done|]. intros x. by apply IH.
Qed.

Lemma safe_bind {A B} g (p : prog A) (k : A → prog B) (Q : G → B → Prop) :
  safe g p (λ g' a, safe g' (k a) Q) → safe g (bind p k) Q.
Proof.
  revert g. induction p as [a|X e k' IH]; simpl; intros g; [done|].
  intros [Hok Hk]. split; [done|]. intros x. by apply IH.
Qed.

Lemma safe_bind_post {A B} g (p : prog A) (k : A → prog B)
    (R : G → A → Prop) (Q : G → B → Prop) :
  safe g p R → (∀ g' a, R g' a → safe g' (k a) Q) → safe g (bind p k) Q.
Proof. intros Hp Hk. apply safe_bind. by eapply safe_mono. Qed.

Lemma safe_runs {A} g (p : prog A) (Q : G → A → Prop) tr a :
  safe g p Q → runs p tr a → accepts g tr ∧ Q (fold_left upd tr g) a.
Proof.
  revert g tr. induction p as [b|X e k IH]; simpl; intros g tr; [by intros ? [-> ->]|].
  intros [Hok Hk] (x & tr' & -> & Hr). simpl. destruct (IH x _ _ (Hk x) Hr). done.
Qed.

Lemma accepts_app g tr1 tr2 :
  accepts g (tr1 ++ tr2) ↔ accepts g tr1 ∧ accepts (fold_left upd tr1 g) tr2.
Proof.
  revert g. induction tr1 as [|[X e x] tr1 IH]; intros g; simpl; [tauto|].
  rewrite IH. tauto.
Qed.

(** The form in which checks are stated of a trace: at every event, the check
    holds for the ghost state folded from the events before it. *)
Lemma accepts_at g tr pre X (e : E X) x post :
  accepts g tr → tr = pre ++ Obs e x :: post → ok (fold_left upd pre g) e.
Proof. intros Hacc ->. apply accepts_app in Hacc as [_ Hacc]. by destruct Hacc. Qed.
End Ghost.

(** A program has a trace and a result in every environment: it terminates. *)
Lemma run_runs {A W} (handle : ∀ X, E X → W → W * X) (p : prog A) w :
  runs p (run handle p w).1.2 (run handle p w).2.
Proof.
  revert w. induction p as [a|X e k IH]; intros w; simpl; [done|].
  destruct (handle X e w) as [w' x]. specialize (IH x w').
  destruct (run handle (k x) w') as [[w'' tr] a]. simpl in *. eauto.
Qed.

Lemma runs_bind_inv {A B} (p : prog A) (k : A → prog B) tr b :
  runs (bind p k) tr b →
  ∃ tr1 tr2 a, tr = tr1 ++ tr2 ∧ runs p tr1 a ∧ runs (k a) tr2 b.
Proof.
  revert tr. induction p as [a|X e k' IH]; intros tr; simpl.
  - intros Hr. by exists [], tr, a.
  - intros (x & tr' & -> & (tr1 & tr2 & a & -> & Hp & Hk)%IH).
    exists (Obs e x :: tr1), tr2, a. naive_solver.
Qed.
End Programs.

Arguments prog : clear implicits.
Arguments obs : clear implicits.
Arguments Ret {E A} a.
Arguments Vis {E A X} e k.

Notation "'do*' x ':=' p 'in' k" := (bind p (λ x, k))
  (at level 10, x name, p at level 200, k at level 200) : unlinger_scope.

(** A step that ends with an error: the [?] operator. *)
Notation "'do?' x ':=' p 'in' k" :=
  (bind p (λ r, match r with Ok x => k | Err e => Ret (Err e) end))
  (at level 10, x name, p at level 200, k at level 200) : unlinger_scope.

Unset Implicit Arguments.

(** * Programs on top of other programs

    Programs run on top of other programs.

    [interpret] answers each event of a program by a program over other events, with a state
    that is threaded through; [handled] relates the two traces. [confined] bounds the kinds
    of events of a program. *)

(** A program with its events interpreted, over a state. *)
Fixpoint interpret {E F : Type → Type} {S A} (h : ∀ X, E X → S → prog F (S * X)) (p : prog E A)
    (s : S) : prog F (S * A) :=
  match p with
  | Ret a => Ret (s, a)
  | @Vis _ _ X e k => do* r := h X e s in interpret h (k r.2) r.1
  end.

(** ** Programs without a kind of event *)

(** Every event of the program, whatever the answers, is allowed. *)
Fixpoint confined {E : Type → Type} {A} (P : ∀ X, E X → Prop) (p : prog E A) : Prop :=
  match p with
  | Ret _ => True
  | @Vis _ _ X e k => P X e ∧ ∀ x, confined P (k x)
  end.

Lemma confined_bind {E : Type → Type} {A B} (P : ∀ X, E X → Prop) (p : prog E A)
    (k : A → prog E B) :
  confined P p → (∀ a, confined P (k a)) → confined P (bind p k).
Proof.
  intros Hp Hk. induction p as [a|X e k' IH]; simpl; [apply Hk|].
  destruct Hp as [He Hp]. split; [done|]. intros x. by apply IH.
Qed.

Lemma confined_step {E : Type → Type} {A B F} (P : ∀ X, E X → Prop) (p : prog E (result A F))
    (k : A → prog E (result B F)) :
  confined P p → (∀ a, confined P (k a)) →
  confined P (bind p (λ r, match r with Ok x => k x | Err e => Ret (Err e) end)).
Proof. intros Hp Hk. apply confined_bind; [done|]. intros [a|e]; [apply Hk|done]. Qed.

Lemma confined_runs {E : Type → Type} {A} (P : ∀ X, E X → Prop) (p : prog E A) tr a X (e : E X) x :
  confined P p → runs p tr a → Obs e x ∈ tr → P X e.
Proof.
  revert tr. induction p as [b|Y ev k IH]; simpl; intros tr Hc Hr Hin.
  - destruct Hr as [-> _]. by apply elem_of_nil in Hin.
  - destruct Hr as (y & tr' & -> & Hr), Hc as [Hev Hc].
    apply elem_of_cons in Hin as [Heq|Hin]; [|by eapply IH].
    change (match Obs ev y with @Obs _ Z f _ => P Z f end) in Hev. rewrite <-Heq in Hev. exact Hev.
Qed.

(** ** The traces of an interpreted program *)

(** The first trace is of a program, the second of its interpretation by [h]. *)
Inductive handled {E F : Type → Type} {S} (h : ∀ X, E X → S → prog F (S * X)) :
    S → list (obs E) → list (obs F) → S → Prop :=
| handled_nil s : handled h s [] [] s
| handled_cons s X (e : E X) s1 x tr1 ctr tr2 s' :
    runs (h X e s) tr1 (s1, x) → handled h s1 ctr tr2 s' →
    handled h s (Obs e x :: ctr) (tr1 ++ tr2) s'.

Lemma interpret_handled {E F : Type → Type} {S A} (h : ∀ X, E X → S → prog F (S * X))
    (p : prog E A) s tr r :
  runs (interpret h p s) tr r → ∃ ctr, runs p ctr r.2 ∧ handled h s ctr tr r.1.
Proof.
  revert s tr. induction p as [a|X e k IH]; intros s tr H.
  - destruct H as [-> ->]. exists []. split; [done|constructor].
  - cbn [interpret] in H. apply runs_bind_inv in H as (tr1 & tr2 & [s1 x] & -> & He & H).
    apply IH in H as (ctr & Hp & Hh). exists (Obs e x :: ctr).
    split; [by exists x, ctr|by eapply handled_cons].
Qed.

Lemma handled_app {E F : Type → Type} {S} (h : ∀ X, E X → S → prog F (S * X)) s ctr1 ctr2 tr s' :
  handled h s (ctr1 ++ ctr2) tr s' →
  ∃ tr1 tr2 s1, tr = tr1 ++ tr2 ∧ handled h s ctr1 tr1 s1 ∧ handled h s1 ctr2 tr2 s'.
Proof.
  revert s tr. induction ctr1 as [|o ctr1 IH]; intros s tr H.
  - exists [], tr, s. split; [done|]. split; [constructor|done].
  - inversion H as [|? X e s1 x tr1 ctr tr2 s2 Hr Hh]. subst.
    destruct (IH _ _ Hh) as (tr3 & tr4 & s3 & -> & H3 & H4).
    exists (tr1 ++ tr3), tr4, s3. split; [by rewrite (assoc_L (++))|].
    split; [by eapply handled_cons|done].
Qed.

(** The event of the program during which an event of the interpretation happens. *)
Lemma handled_at {E F : Type → Type} {S} (h : ∀ X, E X → S → prog F (S * X)) s ctr tr s' pre o post :
  handled h s ctr tr s' → tr = pre ++ o :: post →
  ∃ ctr1 X (e : E X) x ctr2 pre1 pre2 post1 s1 s2, ctr = ctr1 ++ Obs e x :: ctr2 ∧
    pre = pre1 ++ pre2 ∧ handled h s ctr1 pre1 s1 ∧
    runs (h X e s1) (pre2 ++ o :: post1) (s2, x).
Proof.
  intros H. revert pre. induction H as [s|s X e s1 x tr1 ctr tr2 s' Hr Hh IH]; intros pre Htr.
  { by destruct pre. }
  apply app_eq_inv in Htr as [(l & -> & Hl)|(l & -> & ->)].
  - destruct l as [|o' l]; simpl in Hl.
    + rewrite app_nil_r in Hr.
      destruct (IH [] (eq_sym Hl)) as (c1 & Y & e' & y & c2 & p1 & p2 & q & s3 & s4 & -> & Hp & H3 & H4).
      symmetry in Hp. apply app_nil in Hp as [-> ->].
      exists (Obs e x :: c1), Y, e', y, c2, (pre ++ []), [], q, s3, s4.
      split; [done|]. split; [by rewrite !app_nil_r|]. split; [by eapply handled_cons|done].
    + injection Hl as <- ->. exists [], X, e, x, ctr, [], pre, l, s, s1.
      split; [done|]. split; [done|]. split; [constructor|done].
  - destruct (IH l eq_refl) as (c1 & Y & e' & y & c2 & p1 & p2 & q & s3 & s4 & -> & -> & H3 & H4).
    exists (Obs e x :: c1), Y, e', y, c2, (tr1 ++ p1), p2, q, s3, s4.
    split; [done|]. split; [by rewrite (assoc_L (++))|]. split; [by eapply handled_cons|done].
Qed.

(** The events of the interpretation that answer an event of the program. *)
Lemma handled_elem {E F : Type → Type} {S} (h : ∀ X, E X → S → prog F (S * X)) s ctr tr s' pre o post :
  handled h s ctr tr s' → ctr = pre ++ o :: post →
  ∃ tr1 tr2 tr3 s1 s2, tr = tr1 ++ tr2 ++ tr3 ∧
    match o with @Obs _ X e x => runs (h X e s1) tr2 (s2, x) end.
Proof.
  intros H. revert pre. induction H as [s|s X e s1 x tr1 ctr tr2 s' Hr Hh IH]; intros pre Hc.
  { by destruct pre. }
  destruct pre as [|o' pre]; injection Hc as Ho Hc.
  - subst o. exists [], tr1, tr2, s, s1. done.
  - destruct (IH pre Hc) as (t1 & t2 & t3 & a & b & -> & Ht).
    exists (tr1 ++ t1), t2, t3, a, b. split; [by rewrite (assoc_L (++))|done].
Qed.

(** A weaker bound on the events. *)
Lemma confined_mono {E : Type → Type} {A} (P Q : ∀ X, E X → Prop) (p : prog E A) :
  (∀ X e, P X e → Q X e) → confined P p → confined Q p.
Proof.
  intros HPQ. induction p as [a|X e k IH]; simpl; [done|]. intros [He Hk]. by split; auto.
Qed.

(** * Loops

    Loops of programs, whose steps are bounded, and what a run of one is. *)

(** A step that ends with [None]: the [?] operator on options. *)
Notation "'some*' x ':=' p 'in' k" :=
  (bind p (λ o, match o with Some x => k | None => Ret None end))
  (at level 10, x name, p at level 200, k at level 200) : unlinger_scope.

(** A loop of at most [2 ^ depth] steps; [inl] is the state of a loop that has not ended. *)
Fixpoint bounded_loop {E : Type → Type} {S A} (depth : nat) (step : S → prog E (S + A)) (s : S) :
    prog E (S + A) :=
  match depth with
  | O => step s
  | Datatypes.S depth =>
      do* r := bounded_loop depth step s in
      match r with
      | inl s => bounded_loop depth step s
      | inr a => Ret (inr a)
      end
  end.

(** The answer of a loop, if it ended. *)
Definition looping {E : Type → Type} {S A} (depth : nat) (step : S → prog E (S + A)) (s : S) :
    prog E (option A) :=
  do* r := bounded_loop depth step s in
  Ret (match r with inl _ => None | inr a => Some a end).

(** The same, of a step that may itself not end. *)
Definition partial_step {E : Type → Type} {S A} (step : S → prog E (option (S + A))) (s : S) :
    prog E (S + option A) :=
  do* r := step s in
  Ret (match r with None => inr None | Some (inl s) => inl s | Some (inr a) => inr (Some a) end).

Definition polling {E : Type → Type} {S A} (depth : nat) (step : S → prog E (option (S + A)))
    (s : S) : prog E (option A) :=
  do* r := bounded_loop depth (partial_step step) s in
  Ret (match r with inl _ => None | inr a => a end).

(** ** Runs *)

Lemma runs_bind {E : Type → Type} {A B} (p : prog E A) (k : A → prog E B) t1 t2 a b :
  runs p t1 a → runs (k a) t2 b → runs (bind p k) (t1 ++ t2) b.
Proof.
  revert t1. induction p as [a'|X e k' IH]; intros t1 Hp Hk.
  - by destruct Hp as [-> ->].
  - destruct Hp as (x & t & -> & Hp). exists x, (t ++ t2). split; [done|]. by apply IH.
Qed.

(** [n] steps of a loop that did not end it. *)
Inductive loop_steps {E : Type → Type} {S A} (step : S → prog E (S + A)) :
    N → S → list (obs E) → S → Prop :=
| loop_none s : loop_steps step 0 s [] s
| loop_step n s tr1 s1 tr2 s2 :
    runs (step s) tr1 (inl s1) → loop_steps step n s1 tr2 s2 →
    loop_steps step (n + 1) s (tr1 ++ tr2) s2.

Lemma loop_steps_app {E : Type → Type} {S A} (step : S → prog E (S + A)) n m s tr1 s1 tr2 s2 :
  loop_steps step n s tr1 s1 → loop_steps step m s1 tr2 s2 →
  loop_steps step (n + m) s (tr1 ++ tr2) s2.
Proof.
  induction 1 as [s|n s tr0 s0 tr1 s1 Hr Hl IH]; intros H; [done|].
  replace (n + 1 + m)%N with (n + m + 1)%N by lia. rewrite <-(assoc_L (++)).
  econstructor; [done|]. by apply IH.
Qed.

(** A loop that has not ended has made all its steps. *)
Lemma bounded_loop_spec {E : Type → Type} {S A} depth (step : S → prog E (S + A)) s tr r :
  runs (bounded_loop depth step s) tr r →
  match r with
  | inl s' => loop_steps step (2 ^ N.of_nat depth) s tr s'
  | inr a => ∃ n tr1 s' tr2, tr = tr1 ++ tr2 ∧ loop_steps step n s tr1 s' ∧
               runs (step s') tr2 (inr a)
  end.
Proof.
  revert s tr r. induction depth as [|depth IH]; intros s tr r H.
  - cbn [bounded_loop] in H. destruct r as [s'|a].
    + rewrite <-(app_nil_r tr). change (2 ^ N.of_nat 0)%N with (0 + 1)%N.
      econstructor; [done|constructor].
    + exists 0%N, [], s, tr. split; [done|]. split; [constructor|done].
  - cbn [bounded_loop] in H.
    apply runs_bind_inv in H as (tr1 & tr2 & r1 & -> & H1 & H2). apply IH in H1.
    destruct r1 as [s1|a].
    + apply IH in H2. destruct r as [s'|a].
      * replace (2 ^ N.of_nat (Datatypes.S depth))%N with (2 ^ N.of_nat depth + 2 ^ N.of_nat depth)%N.
        { by eapply loop_steps_app. }
        rewrite Nat2N.inj_succ, N.pow_succ_r'. lia.
      * destruct H2 as (n & tr3 & s' & tr4 & -> & H2 & H3).
        exists (2 ^ N.of_nat depth + n)%N, (tr1 ++ tr3), s', tr4.
        split; [by rewrite (assoc_L (++))|]. split; [by eapply loop_steps_app|done].
    + destruct H2 as [-> ->]. by rewrite app_nil_r.
Qed.

(** A loop that ended: its steps, and the last one. *)
Lemma looping_runs {E : Type → Type} {S A} depth (step : S → prog E (S + A)) s tr a :
  runs (looping depth step s) tr (Some a) →
  ∃ n tr1 s' tr2, tr = tr1 ++ tr2 ∧ loop_steps step n s tr1 s' ∧ runs (step s') tr2 (inr a).
Proof.
  unfold looping. intros (t1 & t2 & r & -> & H%bounded_loop_spec & -> & Hr)%runs_bind_inv.
  rewrite app_nil_r. destruct r as [s'|b]; [done|]. by injection Hr as ->.
Qed.

(** A loop that did not end made all its steps. *)
Lemma looping_open {E : Type → Type} {S A} depth (step : S → prog E (S + A)) s tr :
  runs (looping depth step s) tr None → ∃ s', loop_steps step (2 ^ N.of_nat depth) s tr s'.
Proof.
  unfold looping. intros (t1 & t2 & r & -> & H%bounded_loop_spec & -> & Hr)%runs_bind_inv.
  rewrite app_nil_r. destruct r as [s'|b]; [by exists s'|done].
Qed.

Lemma partial_step_runs {E : Type → Type} {S A} (step : S → prog E (option (S + A))) s tr r :
  runs (partial_step step s) tr r →
  runs (step s) tr (match r with
                    | inl s' => Some (inl s')
                    | inr (Some a) => Some (inr a)
                    | inr None => None
                    end).
Proof.
  unfold partial_step. intros (t1 & t2 & x & -> & H & -> & ->)%runs_bind_inv.
  rewrite app_nil_r. by destruct x as [[s'|a]|].
Qed.

Lemma polling_runs {E : Type → Type} {S A} depth (step : S → prog E (option (S + A))) s tr a :
  runs (polling depth step s) tr (Some a) →
  ∃ n tr1 s' tr2, tr = tr1 ++ tr2 ∧ loop_steps (partial_step step) n s tr1 s' ∧
    runs (step s') tr2 (Some (inr a)).
Proof.
  unfold polling. intros (t1 & t2 & r & -> & H%bounded_loop_spec & -> & Hr)%runs_bind_inv.
  rewrite app_nil_r. destruct r as [s'|b]; [done|]. subst b.
  destruct H as (n & t3 & s' & t4 & -> & H1 & H2%partial_step_runs).
  by exists n, t3, s', t4.
Qed.

(** A loop whose steps make only allowed calls makes only those. *)
Lemma confined_loop {E : Type → Type} {S A} (P : ∀ X, E X → Prop) depth
    (step : S → prog E (S + A)) s :
  (∀ s, confined P (step s)) → confined P (bounded_loop depth step s).
Proof.
  intros H. revert s. induction depth as [|depth IH]; intros s; [apply H|].
  cbn [bounded_loop]. apply confined_bind; [done|]. by intros [?|?].
Qed.

Lemma confined_looping {E : Type → Type} {S A} (P : ∀ X, E X → Prop) depth
    (step : S → prog E (S + A)) s :
  (∀ s, confined P (step s)) → confined P (looping depth step s).
Proof. intros H. unfold looping. apply confined_bind; [by apply confined_loop|done]. Qed.

Lemma confined_polling {E : Type → Type} {S A} (P : ∀ X, E X → Prop) depth
    (step : S → prog E (option (S + A))) s :
  (∀ s, confined P (step s)) → confined P (polling depth step s).
Proof.
  intros H. unfold polling. apply confined_bind; [|done]. apply confined_loop. intros s'.
  unfold partial_step. by apply confined_bind; [|done].
Qed.

(** A polling loop without an answer: it made all its steps, or a step gave none. *)
Lemma polling_open {E : Type → Type} {S A} depth (step : S → prog E (option (S + A))) s tr :
  runs (polling depth step s) tr None →
  ∃ s' n t1 t2, tr = t1 ++ t2 ∧ loop_steps (partial_step step) n s t1 s' ∧
    (n = (2 ^ N.of_nat depth)%N ∨ runs (step s') t2 None).
Proof.
  unfold polling. intros (t1 & t2 & r & -> & H%bounded_loop_spec & -> & Hr)%runs_bind_inv.
  rewrite app_nil_r. destruct r as [s'|b].
  - exists s', (2 ^ N.of_nat depth)%N, t1, []. rewrite app_nil_r. auto.
  - subst b. destruct H as (n & t3 & s' & t4 & -> & H1 & H2%partial_step_runs).
    exists s', n, t3, t4. auto.
Qed.

#[global] Opaque looping polling.
