(* ===== verification/Cleanup.v ===== *)
(** Cleanup: receipts, outcomes and plans of [unlinger-core/src/cleanup.rs].

    [Executor.v] holds the cleanup execution itself. *)

From S2P Require Import Prelude Text Model Fingerprint Artifact Evidence.

(** ** Actions and receipts *)

Inductive CleanupSignal : Type := Term | Kill.

#[export] Instance CleanupSignal_eq_dec : EqDecision CleanupSignal.
Proof. solve_decision. Defined.

Inductive SignalDisposition : Type :=
| Delivered
| AlreadyExited
| IdentityMismatch
| Rejected
| CancelledBeforeDelivery
| DeliveryUnknown.

#[export] Instance SignalDisposition_eq_dec : EqDecision SignalDisposition.
Proof. solve_decision. Defined.

Inductive CleanupStage : Type := PrimaryTerm | MemberTerm | ExactKill.

#[export] Instance CleanupStage_eq_dec : EqDecision CleanupStage.
Proof. solve_decision. Defined.

Record CleanupActionIntent : Type := mkCleanupActionIntent {
  intent_stage : CleanupStage;
  intent_pid : N;
  intent_identity_fingerprint : string;
  intent_signal : CleanupSignal;
}.

#[export] Instance CleanupActionIntent_eq_dec : EqDecision CleanupActionIntent.
Proof. solve_decision. Defined.

Record CleanupAction : Type := mkCleanupAction {
  action_stage : CleanupStage;
  action_pid : N;
  action_identity_fingerprint : string;
  action_signal : CleanupSignal;
  action_disposition : SignalDisposition;
}.

#[export] Instance CleanupAction_eq_dec : EqDecision CleanupAction.
Proof. solve_decision. Defined.

Record ResourceSnapshot : Type := mkResourceSnapshot {
  rs_process_count : N;
  rs_resident_memory_bytes : N;
}.

#[export] Instance ResourceSnapshot_eq_dec : EqDecision ResourceSnapshot.
Proof. solve_decision. Defined.

Record CleanupResources : Type := mkCleanupResources {
  before : option ResourceSnapshot;
  after : option ResourceSnapshot;
  estimated_reclaimed_memory_bytes : option N;
}.

#[export] Instance CleanupResources_eq_dec : EqDecision CleanupResources.
Proof. solve_decision. Defined.

(** [CleanupResources::default]. *)
Definition default_resources : CleanupResources := mkCleanupResources None None None.

Record CleanupReceipt : Type := mkCleanupReceipt {
  receipt_incident_id : string;
  receipt_state : IncidentState;
  reason_id : option string;
  actions : list CleanupAction;
  artifact_actions : list ArtifactAction;
  survivor_pids : list N;
  revival_checks_completed : N;
  resources : CleanupResources;
}.

#[export] Instance CleanupReceipt_eq_dec : EqDecision CleanupReceipt.
Proof. solve_decision. Defined.

Inductive ProcessOutcome : Type :=
| ProcessCleared
| ProcessRevived
| ProcessFailed
| ProcessDeliveryUnknown.

#[export] Instance ProcessOutcome_eq_dec : EqDecision ProcessOutcome.
Proof. solve_decision. Defined.

Inductive ArtifactOutcome : Type :=
| NotApplicable
| Reconciled
| Residue
| ArtifactDeliveryUnknown.

#[export] Instance ArtifactOutcome_eq_dec : EqDecision ArtifactOutcome.
Proof. solve_decision. Defined.

Inductive OverallOutcome : Type :=
| OverallCleared
| ClearedWithResidue
| OverallRevived
| OverallFailed.

#[export] Instance OverallOutcome_eq_dec : EqDecision OverallOutcome.
Proof. solve_decision. Defined.

Record CleanupOutcome : Type := mkCleanupOutcome {
  process_outcome : ProcessOutcome;
  artifact_outcome : ArtifactOutcome;
  overall_outcome : OverallOutcome;
  attention_required : bool;
}.

Definition has_disposition (d : SignalDisposition) (r : CleanupReceipt) : bool :=
  existsb (λ a, bool_decide (action_disposition a = d)) (actions r).

Definition artifact_residue_reasons : list string :=
  ["cleanup.artifact_identity_changed"; "cleanup.artifact_live_reference";
   "cleanup.artifact_unsafe"; "cleanup.artifact_rejected"].

(** [CleanupReceipt::outcome]. *)
Definition outcome (r : CleanupReceipt) : CleanupOutcome :=
  let reason := reason_id r in
  let signal_delivery_unknown := has_disposition DeliveryUnknown r in
  let artifact_delivery_unknown :=
    existsb (λ a, bool_decide (act_disposition a = ArtDeliveryUnknown)) (artifact_actions r)
    || bool_decide (reason = Some "cleanup.artifact_delivery_unknown") in
  let artifact_residue_reason :=
    match reason with
    | Some text => bool_decide (text ∈ artifact_residue_reasons)
    | None => false
    end in
  let process :=
    if signal_delivery_unknown then ProcessDeliveryUnknown
    else if bool_decide (receipt_state r = Revived) then ProcessRevived
    else if bool_decide (receipt_state r = Cleared)
            || artifact_residue_reason || artifact_delivery_unknown
    then ProcessCleared else ProcessFailed in
  let artifact :=
    if artifact_delivery_unknown then ArtifactDeliveryUnknown
    else if artifact_residue_reason
            || existsb (λ a, negb (completed_cleanup (act_disposition a))) (artifact_actions r)
    then Residue
    else match artifact_actions r with [] => NotApplicable | _ => Reconciled end in
  let overall :=
    match process, artifact with
    | ProcessDeliveryUnknown, _
    | _, ArtifactDeliveryUnknown
    | ProcessFailed, _ => OverallFailed
    | ProcessCleared, (NotApplicable | Reconciled) => OverallCleared
    | ProcessCleared, Residue => ClearedWithResidue
    | ProcessRevived, _ => OverallRevived
    end in
  mkCleanupOutcome process artifact overall (negb (bool_decide (overall = OverallCleared))).

(** [CleanupReceipt::proves_process_reclaim]. *)
Definition proves_process_reclaim (r : CleanupReceipt) : bool :=
  bool_decide (process_outcome (outcome r) = ProcessCleared)
    && has_disposition Delivered r.

(** [CleanupReceipt::ended_without_intervention]. *)
Definition ended_without_intervention (r : CleanupReceipt) : bool :=
  bool_decide (receipt_state r = Cleared)
    && bool_decide (overall_outcome (outcome r) = OverallCleared)
    && negb (proves_process_reclaim r)
    && match artifact_actions r with [] => true | _ => false end.

(** ** Plans *)

Record CleanupPlan : Type := mkCleanupPlan {
  plan_incident_id : string;
  plan_tracking_key : string;
  plan_session_fingerprint : string;
  plan_signature_pack : string;
  plan_signature_version : string;
  root_identity : ProcessIdentity;
  plan_member_fingerprint : string;
  plan_targets : list ProcessTarget;
  artifacts : list RuntimeArtifactCandidate;
}.

Inductive CleanupPlanError : Type :=
| NotConfirmed
| NoTargets
| MissingSessionFingerprint
| DuplicateTarget (pid : N)
| IncompleteIdentity (pid : N)
| RootMissing
| NoPrimaryTarget
| TooManyArtifacts
| DuplicateArtifact
| ArtifactSessionMismatch.

(** The target loop of [from_confirmed]. *)
Fixpoint check_targets (pids : gset N) (ts : list ProcessTarget) : result unit CleanupPlanError :=
  match ts with
  | [] => Ok tt
  | t :: ts =>
      if bool_decide (target_pid t ∈ pids) then Err (DuplicateTarget (target_pid t))
      else if bool_decide (executable_device (target_identity t) = None)
              || bool_decide (executable_inode (target_identity t) = None)
      then Err (IncompleteIdentity (target_pid t))
      else check_targets ({[target_pid t]} ∪ pids) ts
  end.

(** The artifact loop of [from_confirmed]. *)
Fixpoint check_artifacts (session : string) (seen : gset string)
    (cs : list RuntimeArtifactCandidate) : result unit CleanupPlanError :=
  match cs with
  | [] => Ok tt
  | c :: cs =>
      if negb (bool_decide (candidate_session_fingerprint c = session))
      then Err ArtifactSessionMismatch
      else if bool_decide (candidate_artifact_fingerprint c ∈ seen) then Err DuplicateArtifact
      else check_artifacts session ({[candidate_artifact_fingerprint c]} ∪ seen) cs
  end.

Definition is_primary_role (r : ProcessRole) : bool :=
  match r with Controller | BrowserRoot => true | _ => false end.

(** [CleanupPlan::from_confirmed]. *)
Definition from_confirmed (report : IncidentReport) : result CleanupPlan CleanupPlanError :=
  guard? bool_decide (state report = Confirmed) && cleanup_eligible (gates report)
    else NotConfirmed in
  guard? negb (bool_decide (targets report = [])) else NoTargets in
  guard? negb (is_empty (trim (session_fingerprint report))) else MissingSessionFingerprint in
  let? _ := check_targets ∅ (targets report) in
  guard? bool_decide (length (runtime_artifacts report) ≤ 1) else TooManyArtifacts in
  let? _ := check_artifacts (session_fingerprint report) ∅ (runtime_artifacts report) in
  let? root_target :=
    ok_or (List.find (λ t, bool_decide (target_pid t = root_pid (root report))) (targets report))
      RootMissing in
  guard? existsb (λ t, is_primary_role (target_role t)) (targets report)
    else NoPrimaryTarget in
  Ok (mkCleanupPlan (incident_id report) (tracking_key report) (session_fingerprint report)
        (signature_pack report) (signature_version report) (target_identity root_target)
        (member_fingerprint report) (targets report) (runtime_artifacts report)).

(** [CleanupPlan::primary_targets]. *)
Definition primary_targets (plan : CleanupPlan) : list ProcessTarget :=
  match filter (λ t, target_role t = Controller) (plan_targets plan) with
  | [] => filter (λ t, target_role t = BrowserRoot) (plan_targets plan)
  | controllers => controllers
  end.

(** What a frozen plan promises the executor. *)
Record plan_wf (plan : CleanupPlan) : Prop := {
  plan_wf_nonempty : plan_targets plan ≠ [];
  plan_wf_distinct : NoDup (target_pid <$> plan_targets plan);
  plan_wf_complete : Forall (λ t, is_Some (executable_device (target_identity t)) ∧
                                  is_Some (executable_inode (target_identity t)))
                       (plan_targets plan);
  plan_wf_root : ∃ t, t ∈ plan_targets plan ∧ target_identity t = root_identity plan;
  plan_wf_primary : primary_targets plan ≠ [];
  plan_wf_session : trim (plan_session_fingerprint plan) ≠ "";
  plan_wf_artifacts : length (artifacts plan) ≤ 1 ∧
    Forall (λ c, candidate_session_fingerprint c = plan_session_fingerprint plan)
      (artifacts plan);
}.

Definition witness_identity : ProcessIdentity := mkProcessIdentity 10 7 (Some 1%N) (Some 2%N).

Definition witness_report : IncidentReport :=
  mkIncidentReport "incident" "tracking" "session" "pack" "1" Confirmed
    (mkRootSummary 10 7 "node" "fingerprint") 1 0 "members" [] []
    (mkGateLedger true true true true true true true) default_compatibility
    [mkProcessTarget witness_identity 10 Controller] [].

(** ** Lemmas *)

Lemma has_disposition_iff d r :
  has_disposition d r = true ↔ ∃ a, a ∈ actions r ∧ action_disposition a = d.
Proof.
  unfold has_disposition. rewrite existsb_exists.
  setoid_rewrite bool_decide_eq_true. by setoid_rewrite <-list_elem_of_In.
Qed.

Lemma check_targets_Ok pids ts :
  check_targets pids ts = Ok tt ↔
  NoDup (target_pid <$> ts) ∧ (∀ t, t ∈ ts → target_pid t ∉ pids) ∧
  Forall (λ t, is_Some (executable_device (target_identity t)) ∧
               is_Some (executable_inode (target_identity t))) ts.
Proof.
  revert pids. induction ts as [|t ts IH]; intros pids; simpl.
  { split; [|done]. intros _. split_and!; [constructor|set_solver|constructor]. }
  rewrite NoDup_cons, Forall_cons, <-!not_eq_None_Some.
  case_bool_decide as Hin; [split; [done|]; set_solver|].
  case_bool_decide as Hd; [simpl; naive_solver|].
  case_bool_decide as Hi; simpl; [naive_solver|]. rewrite IH. split.
  - intros (Hnd & Hfresh & Hall). split_and!; [|done|set_solver|done..].
    intros (t' & Ht' & ?)%list_elem_of_fmap. set_solver.
  - intros ((Hnin & Hnd) & Hfresh & _ & Hall). split_and!; [done| |done].
    intros t' Ht'. rewrite elem_of_union, elem_of_singleton. intros [Heq|?]; [|set_solver].
    apply Hnin. rewrite <-Heq. by apply list_elem_of_fmap_2.
Qed.

Lemma check_artifacts_Ok session seen cs :
  check_artifacts session seen cs = Ok tt →
  Forall (λ c, candidate_session_fingerprint c = session) cs.
Proof.
  revert seen. induction cs as [|c cs IH]; intros seen; simpl; [constructor|].
  case_bool_decide; simpl; [|done]. case_bool_decide; [done|].
  intros ?%IH. by constructor.
Qed.

Lemma is_primary_role_iff r : is_primary_role r = true ↔ r = Controller ∨ r = BrowserRoot.
Proof. destruct r; simpl; split; auto; first [discriminate|by intros [|]]. Qed.

Lemma elem_of_primary_targets plan t :
  t ∈ primary_targets plan → t ∈ plan_targets plan ∧ is_primary_role (target_role t) = true.
Proof.
  unfold primary_targets. rewrite is_primary_role_iff.
  destruct (filter (λ t, target_role t = Controller) _) as [|c cs] eqn:Hc.
  - rewrite list_elem_of_filter. naive_solver.
  - rewrite <-Hc, list_elem_of_filter. naive_solver.
Qed.

Lemma primary_targets_nonempty plan :
  primary_targets plan ≠ [] ↔
  ∃ t, t ∈ plan_targets plan ∧ is_primary_role (target_role t) = true.
Proof.
  split.
  - intros [t Ht]%not_nil_elem. exists t. by apply elem_of_primary_targets.
  - intros (t & Ht & Hrole). unfold primary_targets.
    destruct (filter (λ t, target_role t = Controller) _) as [|c cs] eqn:Hc; [|done].
    apply not_nil_elem. exists t. apply list_elem_of_filter. split; [|done].
    apply is_primary_role_iff in Hrole as [Hrole|]; [|done].
    assert (Hin : t ∈ filter (λ t, target_role t = Controller) (plan_targets plan))
      by (by apply list_elem_of_filter). rewrite Hc in Hin. by apply elem_of_nil in Hin.
Qed.

(** What [from_confirmed] demands of a report. *)
Record plannable (report : IncidentReport) : Prop := {
  plannable_confirmed : state report = Confirmed;
  plannable_eligible : cleanup_eligible (gates report) = true;
  plannable_targets : targets report ≠ [];
  plannable_session : trim (session_fingerprint report) ≠ "";
  plannable_distinct : NoDup (target_pid <$> targets report);
  plannable_complete : Forall (λ t, is_Some (executable_device (target_identity t)) ∧
                                    is_Some (executable_inode (target_identity t)))
                         (targets report);
  plannable_artifacts : length (runtime_artifacts report) ≤ 1;
  plannable_artifact_sessions :
    Forall (λ c, candidate_session_fingerprint c = session_fingerprint report)
      (runtime_artifacts report);
  plannable_root : ∃ t, t ∈ targets report ∧ target_pid t = root_pid (root report);
  plannable_primary : ∃ t, t ∈ targets report ∧ is_primary_role (target_role t) = true;
}.

Lemma from_confirmed_plannable report plan :
  from_confirmed report = Ok plan →
  plannable report ∧
  ∃ t, t ∈ targets report ∧ target_pid t = root_pid (root report) ∧
    plan = mkCleanupPlan (incident_id report) (tracking_key report)
             (session_fingerprint report) (signature_pack report) (signature_version report)
             (target_identity t) (member_fingerprint report) (targets report)
             (runtime_artifacts report).
Proof.
  unfold from_confirmed.
  destruct (bool_decide (state report = Confirmed) && _) eqn:Hc; [|done].
  destruct (bool_decide (targets report = [])) eqn:Hne; [done|]; simpl.
  destruct (is_empty (trim _)) eqn:Hses; [done|]; simpl.
  intros ([] & (Hnd & _ & Hcomplete)%check_targets_Ok & Hrest)%result_bind_Ok.
  destruct (bool_decide (length _ ≤ 1)) eqn:Hlen; [|done].
  apply result_bind_Ok in Hrest as ([] & Harts%check_artifacts_Ok & Hrest).
  destruct (List.find _ _) as [t|] eqn:Hroot; [|done]; simpl in Hrest.
  apply find_some in Hroot as [Hin%list_elem_of_In Ht%bool_decide_eq_true].
  destruct (existsb _ _) eqn:Hprim; [|done]. apply existsb_elem in Hprim.
  simplify_eq. bool_facts. split; [|by exists t].
  split; eauto. by intros Ht'; rewrite Ht' in Hses.
Qed.

Lemma check_artifacts_singleton session cs :
  length cs ≤ 1 → Forall (λ c, candidate_session_fingerprint c = session) cs →
  check_artifacts session ∅ cs = Ok tt.
Proof.
  destruct cs as [|c [|]]; simpl; [done| |lia]. rewrite Forall_singleton. intros _ Hall.
  rewrite bool_decide_true by done. simpl. by rewrite bool_decide_false by set_solver.
Qed.

Lemma from_confirmed_accepts report : is_Ok (from_confirmed report) ↔ plannable report.
Proof.
  split; [by intros [plan [? _]%from_confirmed_plannable]|].
  intros [Hst Hel Hne Hses Hnd Hcomplete Hlen Harts (r & Hr & Hrp) (t & Ht & Hrole)].
  unfold from_confirmed, is_Ok.
  rewrite (bool_decide_true _ Hst), Hel, (bool_decide_false _ Hne). simpl.
  destruct (is_empty (trim _)) eqn:Hempty; [by destruct (trim (session_fingerprint report))|].
  rewrite (proj2 (check_targets_Ok ∅ (targets report))) by (split_and!; set_solver). simpl.
  rewrite (bool_decide_true _ Hlen), check_artifacts_singleton by done. simpl.
  destruct (List.find _ _) as [r'|] eqn:Hfind; simpl.
  - rewrite (proj2 (existsb_elem _ _)) by eauto. eauto.
  - apply list_elem_of_In in Hr. pose proof (find_none _ _ Hfind r Hr) as Hf.
    simpl in Hf. by rewrite bool_decide_true in Hf.
Qed.

Lemma overall_cleared r :
  overall_outcome (outcome r) = OverallCleared →
  process_outcome (outcome r) = ProcessCleared ∧
  has_disposition DeliveryUnknown r = false ∧
  Forall (λ a, completed_cleanup (act_disposition a) = true) (artifact_actions r).
Proof.
  unfold outcome. simpl. destruct (has_disposition DeliveryUnknown r) eqn:Hd; [done|].
  intros Ho. split; [|split; [done|]].
  + repeat case_match; simplify_eq; done.
  + apply Forall_forall. intros a Ha.
    destruct (completed_cleanup (act_disposition a)) eqn:Hc; [done|].
    rewrite (proj2 (existsb_elem (λ a, negb (completed_cleanup (act_disposition a))) _)) in Ho
      by (exists a; by rewrite Hc).
    rewrite orb_true_r in Ho. repeat case_match; simplify_eq; done.
Qed.

(** ** Properties *)

(** A cleanup plan is built exactly from reports that are Confirmed with
    every gate of the ledger set, whose targets are non-empty, distinct, of
    complete identity and contain the root and a controller or browser root, and
    whose at most one artifact belongs to the incident session. *)
Theorem from_confirmed_iff report :
  is_Ok (from_confirmed report) ↔ plannable report.
Proof. apply from_confirmed_accepts. Qed.

(** Every plan frozen from a report is well formed: distinct PIDs, complete
    identities, the root and a primary target among the targets, and at most one
    artifact of the same session; targets and artifacts are the report's. *)
Theorem from_confirmed_plan_wf report plan :
  from_confirmed report = Ok plan →
  plan_wf plan ∧ plan_targets plan = targets report ∧
  artifacts plan = runtime_artifacts report ∧
  pid (root_identity plan) = root_pid (root report).
Proof.
  intros ([Hst Hel Hne Hses Hnd Hcomplete Hlen Harts Hroot Hprim] & t & Ht & Htp & ->)%
    from_confirmed_plannable.
  simpl. split; [|done]. split; simpl; eauto. by apply primary_targets_nonempty.
Qed.

(** The three outcome projections of a receipt are consistent: an unknown
    signal delivery is never projected as cleared or revived, attention is
    requested exactly when the whole outcome is not Cleared, and an overall
    Cleared outcome excludes every unknown delivery and every unfinished
    artifact action. *)
Theorem outcome_consistent r :
  (has_disposition DeliveryUnknown r = true →
     process_outcome (outcome r) = ProcessDeliveryUnknown ∧
     overall_outcome (outcome r) = OverallFailed) ∧
  (attention_required (outcome r) = true ↔ overall_outcome (outcome r) ≠ OverallCleared) ∧
  (overall_outcome (outcome r) = OverallCleared →
     process_outcome (outcome r) = ProcessCleared ∧
     has_disposition DeliveryUnknown r = false ∧
     Forall (λ a, completed_cleanup (act_disposition a) = true) (artifact_actions r)).
Proof.
  split_and!.
  - intros Hd. unfold outcome. rewrite Hd. done.
  - simpl. rewrite negb_true_iff, bool_decide_eq_false. done.
  - apply overall_cleared.
Qed.

(** Reclaim attribution needs a cause: a receipt proves a process reclaim
    only when a signal was delivered, and a tree that ended on its own never
    counts as one. *)
Theorem reclaim_attribution r :
  (proves_process_reclaim r = true →
     process_outcome (outcome r) = ProcessCleared ∧
     ∃ a, a ∈ actions r ∧ action_disposition a = Delivered) ∧
  (ended_without_intervention r = true →
     proves_process_reclaim r = false ∧ has_disposition Delivered r = false ∧
     artifact_actions r = []).
Proof.
  unfold ended_without_intervention, proves_process_reclaim. split.
  - intros Hp. bool_facts. rewrite has_disposition_iff in *. done.
  - intros He. bool_facts. destruct (artifact_actions r); [|done].
    assert (Hc : process_outcome (outcome r) = ProcessCleared) by (by apply overall_cleared).
    rewrite (bool_decide_true _ Hc) in *. simpl in *. done.
Qed.

(** ** Witnesses *)

Lemma from_confirmed_plan_wf_witness :
  ∃ plan, from_confirmed witness_report = Ok plan ∧ plan_wf plan.
Proof.
  eexists. split; [vm_compute; reflexivity|].
  apply (from_confirmed_plan_wf witness_report). vm_compute. reflexivity.
Defined.
