(* ===== verification/Executor.v ===== *)
(** Executor: the cleanup execution of [unlinger-core/src/cleanup.rs].

    The runtime, the action journal and the stop flag are reached through the
    events of [CleanupE], one per trait method; the revalidator is a pure method
    of an [IncidentRevalidator]. [CleanupExecutor::execute] is the sequence of
    its stages: freeze, primary TERM, member TERM, exact KILL, revival windows,
    terminal proof, artifacts, post-artifact proof. *)

From S2P Require Import Prelude Text Model Fingerprint Artifact Evidence Cleanup Effects.

(** ** Interfaces *)

(** [std::time::Duration], in nanoseconds. *)
Record Duration : Type := mkDuration { nanos : N }.

Definition from_secs (s : N) : Duration := mkDuration (s * 1000000000).

Record CleanupPolicy : Type := mkCleanupPolicy {
  primary_term_grace : Duration;
  member_term_grace : Duration;
  kill_grace : Duration;
  revival_windows : list Duration;
}.

(** [CleanupPolicy::default]. *)
Definition default_policy : CleanupPolicy :=
  mkCleanupPolicy (from_secs 3) (from_secs 3) (from_secs 1) [from_secs 15; from_secs 60].

Record RuntimeFailure : Type := mkRuntimeFailure { failure_message : string }.

#[export] Instance RuntimeFailure_eq_dec : EqDecision RuntimeFailure.
Proof. solve_decision. Defined.

Record ClockSample : Type := mkClockSample {
  wall_unix_millis : N;
  continuous_millis : N;
  boot_session_fingerprint : string;
}.

Inductive WaitOutcome : Type := DeadlineReached | Interrupted.

(** The methods of [CleanupRuntime] and [CleanupActionJournal] and the
    [should_stop] closure, with their return types. *)
Inductive CleanupE : Type → Type :=
| TakeSnapshot : CleanupE (result Snapshot RuntimeFailure)
| LookupProcess (pid : N) : CleanupE (result (option ProcessRecord) RuntimeFailure)
| SampleClock : CleanupE (result ClockSample RuntimeFailure)
| SignalExact (identity : ProcessIdentity) (signal : CleanupSignal) : CleanupE SignalDisposition
| WaitUntil (duration : Duration) : CleanupE (result WaitOutcome RuntimeFailure)
| FreezeArtifact (candidate : RuntimeArtifactCandidate) :
    CleanupE (result ArtifactFreeze RuntimeFailure)
| RemoveArtifactExact (artifact : FrozenRuntimeArtifact) : CleanupE ArtifactDisposition
| PrepareAction (intent : CleanupActionIntent) (prepared_at : N) :
    CleanupE (result string RuntimeFailure)
| CompleteAction (action_id : string) (disposition : SignalDisposition) (completed_at : N) :
    CleanupE (result unit RuntimeFailure)
| PrepareArtifactAction (intent : ArtifactActionIntent) (prepared_at : N) :
    CleanupE (result string RuntimeFailure)
| CompleteArtifactAction (action_id : string) (disposition : ArtifactDisposition)
    (completed_at : N) : CleanupE (result unit RuntimeFailure)
| ShouldStop : CleanupE bool.

Inductive RevalidationPhase : Type := BeforeSignal | RevivalCheck.

#[export] Instance RevalidationPhase_eq_dec : EqDecision RevalidationPhase.
Proof. solve_decision. Defined.

Inductive RevalidationStatus : Type :=
| Eligible
| Gone
| Blocked
| StatusRevived.

#[export] Instance RevalidationStatus_eq_dec : EqDecision RevalidationStatus.
Proof. solve_decision. Defined.

Record Revalidation : Type := mkRevalidation {
  revalidation_status : RevalidationStatus;
  revalidation_reason_id : string;
}.

(** The trait [IncidentRevalidator]. *)
Class IncidentRevalidator (V : Type) : Type :=
  revalidate : V → Snapshot → CleanupPlan → RevalidationPhase → Revalidation.

Inductive CleanupError : Type :=
| RuntimeError (error : RuntimeFailure) (terminal_receipt : CleanupReceipt)
| AttemptOpen (error : RuntimeFailure) (partial_receipt : CleanupReceipt)
    (prepared_action_id : string).

(** [CleanupError::terminal_receipt]. *)
Definition terminal_receipt (e : CleanupError) : option CleanupReceipt :=
  match e with RuntimeError _ r => Some r | AttemptOpen _ _ _ => None end.

(** [CleanupError::partial_receipt]. *)
Definition partial_receipt (e : CleanupError) : CleanupReceipt :=
  match e with RuntimeError _ r => r | AttemptOpen _ r _ => r end.

(** [CleanupError::prepared_action_id]. *)
Definition prepared_action_id (e : CleanupError) : option string :=
  match e with RuntimeError _ _ => None | AttemptOpen _ _ id => Some id end.

(** ** Receipt updates *)

Definition set_state (s : IncidentState) (reason : string) (r : CleanupReceipt) : CleanupReceipt :=
  mkCleanupReceipt (receipt_incident_id r) s (Some reason) (actions r) (artifact_actions r)
    (survivor_pids r) (revival_checks_completed r) (resources r).

Definition set_resources (x : CleanupResources) (r : CleanupReceipt) : CleanupReceipt :=
  mkCleanupReceipt (receipt_incident_id r) (receipt_state r) (reason_id r) (actions r)
    (artifact_actions r) (survivor_pids r) (revival_checks_completed r) x.

Definition push_action (a : CleanupAction) (r : CleanupReceipt) : CleanupReceipt :=
  mkCleanupReceipt (receipt_incident_id r) (receipt_state r) (reason_id r) (actions r ++ [a])
    (artifact_actions r) (survivor_pids r) (revival_checks_completed r) (resources r).

Definition push_artifact_action (a : ArtifactAction) (r : CleanupReceipt) : CleanupReceipt :=
  mkCleanupReceipt (receipt_incident_id r) (receipt_state r) (reason_id r) (actions r)
    (artifact_actions r ++ [a]) (survivor_pids r) (revival_checks_completed r) (resources r).

Definition count_revival_check (r : CleanupReceipt) : CleanupReceipt :=
  mkCleanupReceipt (receipt_incident_id r) (receipt_state r) (reason_id r) (actions r)
    (artifact_actions r) (survivor_pids r) (revival_checks_completed r + 1)%N (resources r).

(** [fail]: the survivors are sorted and deduplicated. *)
Definition fail (r : CleanupReceipt) (reason : string) (survivors : list N) : CleanupReceipt :=
  mkCleanupReceipt (receipt_incident_id r) Failed (Some reason) (actions r)
    (artifact_actions r) (dedup (merge_sort N.le survivors)) (revival_checks_completed r)
    (resources r).

(** [survivors.into_keys().collect()]. *)
Definition survivor_keys (survivors : gmap N ProcessIdentity) : list N :=
  (btree_entries N.le survivors).*1.

(** [terminal_runtime_error]. *)
Definition terminal_runtime_error (error : RuntimeFailure) (r : CleanupReceipt) : CleanupError :=
  RuntimeError error (set_state Failed "cleanup.runtime_failure" r).

(** [resource_snapshot]: the plan identities by PID, the processes that match one
    exactly, their number and their saturating memory sum. *)
Definition resource_snapshot (s : Snapshot) (plan : CleanupPlan) : ResourceSnapshot :=
  let identities :=
    collect_map ((λ t, (target_pid t, target_identity t)) <$> plan_targets plan) in
  let matching := List.filter (λ p,
      match identities !! process_pid p with
      | Some i => exact_match i (identity p)
      | None => false
      end) (processes s) in
  mkResourceSnapshot (N.of_nat (length matching))
    (fold_left (λ acc p, saturating_add acc (resident_memory_bytes p)) matching 0%N).

(** [set_resource_after]. *)
Definition set_resource_after (r : CleanupReceipt) (x : ResourceSnapshot) : CleanupReceipt :=
  set_resources
    (mkCleanupResources (before (resources r)) (Some x)
       (b ← before (resources r);
        checked_sub (rs_resident_memory_bytes b) (rs_resident_memory_bytes x))) r.

(** [artifact_failure_reason]. *)
Definition artifact_failure_reason (d : ArtifactDisposition) : string :=
  match d with
  | Removed | AlreadyAbsent => "cleanup.artifact_reconciled"
  | ArtIdentityMismatch => "cleanup.artifact_identity_changed"
  | Referenced => "cleanup.artifact_live_reference"
  | Unsafe => "cleanup.artifact_unsafe"
  | ArtRejected => "cleanup.artifact_rejected"
  | ArtCancelledBeforeDelivery => "cleanup.drain_requested"
  | ArtDeliveryUnknown => "cleanup.artifact_delivery_unknown"
  end.

(** ** Control flow *)

(** The rest of a function that may [return] from inside a loop. *)
Inductive flow (A : Type) : Type :=
| Return (receipt : CleanupReceipt)
| Continue (a : A).
Arguments Return {A} receipt.
Arguments Continue {A} a.

Abbreviation cleanup A := (prog CleanupE (result A CleanupError)).

Notation "'do!' x ':=' p 'in' k" :=
  (bind p (λ r, match r with
                | Ok (Continue x) => k
                | Ok (Return receipt) => Ret (Ok (Return receipt))
                | Err e => Ret (Err e)
                end))
  (at level 10, x name, p at level 200, k at level 200) : unlinger_scope.

(** A method call whose failure is a terminal runtime error. *)
Definition or_terminal {X} (e : CleanupE (result X RuntimeFailure)) (r : CleanupReceipt) :
    cleanup X :=
  do* x := trigger e in Ret (map_err (λ error, terminal_runtime_error error r) x).

(** A method call whose failure leaves the prepared action open. *)
Definition or_open {X} (e : CleanupE (result X RuntimeFailure)) (r : CleanupReceipt)
    (action_id : string) : cleanup X :=
  do* x := trigger e in Ret (map_err (λ error, AttemptOpen error r action_id) x).

(** [snapshot_or_receipt_error]. *)
Definition snapshot_or_receipt_error (r : CleanupReceipt) : cleanup Snapshot :=
  or_terminal TakeSnapshot r.

(** [wait_interrupted]. *)
Definition wait_interrupted (duration : Duration) (r : CleanupReceipt) : cleanup bool :=
  do* stop := trigger ShouldStop in
  if stop : bool then Ret (Ok true) else
  do* outcome := trigger (WaitUntil duration) in
  match outcome with
  | Ok DeadlineReached => do* stop := trigger ShouldStop in Ret (Ok stop)
  | Ok Interrupted => Ret (Ok true)
  | Err error => Ret (Err (terminal_runtime_error error r))
  end.

(** [complete_prepared]. *)
Definition complete_prepared (r : CleanupReceipt) (intent : CleanupActionIntent)
    (action_id : string) (disposition : SignalDisposition) : cleanup CleanupReceipt :=
  do? clock := or_open SampleClock r action_id in
  do? _ := or_open (CompleteAction action_id disposition (wall_unix_millis clock)) r action_id in
  Ret (Ok (push_action
    (mkCleanupAction (intent_stage intent) (intent_pid intent)
       (intent_identity_fingerprint intent) (intent_signal intent) disposition) r)).

(** [complete_artifact_prepared]. *)
Definition complete_artifact_prepared (r : CleanupReceipt) (intent : ArtifactActionIntent)
    (action_id : string) (disposition : ArtifactDisposition) : cleanup CleanupReceipt :=
  do? clock := or_open SampleClock r action_id in
  do? _ := or_open (CompleteArtifactAction action_id disposition (wall_unix_millis clock))
             r action_id in
  Ret (Ok (push_artifact_action
    (mkArtifactAction (intent_kind intent) (intent_artifact_fingerprint intent) disposition) r)).

Record ExactTargetLiveness : Type := mkExactTargetLiveness {
  survivors : gmap N ProcessIdentity;
  missing_live_targets : list N;
}.

(** The PID index of a snapshot. *)
Definition by_pid (s : Snapshot) : gmap N ProcessRecord :=
  collect_map ((λ p, (process_pid p, p)) <$> processes s).

(** The target loop of [observe_exact_target_liveness]. *)
Fixpoint observe_targets (index : gmap N ProcessRecord) (ts : list ProcessTarget)
    (live : gmap N ProcessIdentity) (missing : list N) :
    prog CleanupE (result ExactTargetLiveness string) :=
  match ts with
  | [] => Ret (Ok (mkExactTargetLiveness live missing))
  | t :: ts =>
      let found (process : option ProcessRecord) (missing_from_snapshot : bool) :=
        match process with
        | None => observe_targets index ts live missing
        | Some p =>
            if negb (exact_match (target_identity t) (identity p))
            then Ret (Err "cleanup.identity_changed")
            else observe_targets index ts (<[target_pid t := identity p]> live)
                   (if missing_from_snapshot then missing ++ [target_pid t] else missing)
        end in
      match index !! target_pid t with
      | Some p => found (Some p) false
      | None =>
          do* looked_up := trigger (LookupProcess (target_pid t)) in
          match looked_up with
          | Ok process => found process true
          | Err _ => Ret (Err "cleanup.target_lookup_incomplete")
          end
      end
  end.

(** [observe_exact_target_liveness]. *)
Definition observe_exact_target_liveness (s : Snapshot) (plan : CleanupPlan) :
    prog CleanupE (result ExactTargetLiveness string) :=
  observe_targets (by_pid s) (plan_targets plan) ∅ [].

Section Execute.
Context {V : Type} `{!IncidentRevalidator V} (revalidator : V) (plan : CleanupPlan).

(** [validate_stage]. *)
Definition validate_stage (s : Snapshot) :
    prog CleanupE (result (gmap N ProcessIdentity) string) :=
  do* observation := observe_exact_target_liveness s plan in
  Ret match observation with
      | Err reason => Err reason
      | Ok o =>
          if negb (bool_decide (missing_live_targets o = []))
          then Err "cleanup.snapshot_target_inconsistent"
          else if bool_decide (survivors o = ∅) then Ok (survivors o)
          else
            let validation := revalidate revalidator s plan BeforeSignal in
            match revalidation_status validation with
            | Eligible => Ok (survivors o)
            | Gone => Err "cleanup.revalidator_gone_with_survivors"
            | Blocked | StatusRevived => Err (revalidation_reason_id validation)
            end
      end.

Inductive TerminalRevalidation : Type :=
| TerminalGone
| TerminalRevived (reason : string)
| TerminalBlocked (reason : string).

(** [terminal_revalidation]. *)
Definition terminal_revalidation (s : Snapshot) : TerminalRevalidation :=
  let validation := revalidate revalidator s plan RevivalCheck in
  match revalidation_status validation with
  | Gone => TerminalGone
  | StatusRevived | Eligible => TerminalRevived (revalidation_reason_id validation)
  | Blocked => TerminalBlocked (revalidation_reason_id validation)
  end.

(** The reason a signal disposition stops the cleanup with, if any. *)
Definition disposition_reason (d : SignalDisposition) : option string :=
  match d with
  | Delivered | AlreadyExited => None
  | IdentityMismatch => Some "cleanup.signal_identity_mismatch"
  | Rejected => Some "cleanup.signal_rejected"
  | CancelledBeforeDelivery => Some "cleanup.drain_requested"
  | DeliveryUnknown => Some "cleanup.delivery_unknown"
  end.

(** [signal]: the receipt after the action, and the reason to stop. *)
Definition signal (r : CleanupReceipt) (target : ProcessTarget) (stage : CleanupStage)
    (cleanup_signal : CleanupSignal) : cleanup (CleanupReceipt * option string) :=
  let intent := mkCleanupActionIntent stage (target_pid target)
                  (fingerprint_process_identity (target_identity target)) cleanup_signal in
  do* stop := trigger ShouldStop in
  if stop : bool then Ret (Ok (r, Some "cleanup.drain_requested")) else
  do? prepared := or_terminal SampleClock r in
  do? action_id := or_terminal (PrepareAction intent (wall_unix_millis prepared)) r in
  do* stop := trigger ShouldStop in
  if stop : bool then
    do? r := complete_prepared r intent action_id CancelledBeforeDelivery in
    Ret (Ok (r, Some "cleanup.drain_requested"))
  else
  do* snapshot := trigger TakeSnapshot in
  match snapshot with
  | Err error =>
      do? r := complete_prepared r intent action_id CancelledBeforeDelivery in
      Ret (Err (terminal_runtime_error error r))
  | Ok snapshot =>
      do* exact := validate_stage snapshot in
      match exact with
      | Err reason =>
          do? r := complete_prepared r intent action_id
                 (if bool_decide (reason = "cleanup.identity_changed")
                  then IdentityMismatch else Rejected) in
          Ret (Ok (r, Some reason))
      | Ok exact =>
          if bool_decide (exact !! target_pid target = None) then
            do? r := complete_prepared r intent action_id AlreadyExited in
            Ret (Ok (r, None))
          else
          do* stop := trigger ShouldStop in
          if stop : bool then
            do? r := complete_prepared r intent action_id CancelledBeforeDelivery in
            Ret (Ok (r, Some "cleanup.drain_requested"))
          else
          do* disposition := trigger (SignalExact (target_identity target) cleanup_signal) in
          do? r := complete_prepared r intent action_id disposition in
          Ret (Ok (r, disposition_reason disposition))
      end
  end.

(** The artifact freeze loop before the first signal. *)
Fixpoint freeze_artifacts (r : CleanupReceipt) (cs : list RuntimeArtifactCandidate) :
    cleanup (list (RuntimeArtifactCandidate * ArtifactFreeze)) :=
  match cs with
  | [] => Ret (Ok [])
  | c :: cs =>
      do? frozen := or_terminal (FreezeArtifact c) r in
      do? rest := freeze_artifacts r cs in
      Ret (Ok ((c, frozen) :: rest))
  end.

(** The primary TERM loop; [attempted] is [term_attempted]. *)
Fixpoint primary_term_loop (live : gmap N ProcessIdentity) (primary_pids : gset N)
    (r : CleanupReceipt) (attempted : gset N) (ts : list ProcessTarget) :
    cleanup (flow (CleanupReceipt * gset N)) :=
  match ts with
  | [] => Ret (Ok (Continue (r, attempted)))
  | t :: ts =>
      if bool_decide (is_Some (live !! target_pid t))
         && bool_decide (target_pid t ∈ primary_pids)
      then
        do? signalled := signal r t PrimaryTerm Term in
        match signalled with
        | (r, Some reason) => Ret (Ok (Return (fail r reason (survivor_keys live))))
        | (r, None) =>
            primary_term_loop live primary_pids r ({[target_pid t]} ∪ attempted) ts
        end
      else primary_term_loop live primary_pids r attempted ts
  end.

(** The member TERM loop. *)
Fixpoint member_term_loop (live : gmap N ProcessIdentity) (r : CleanupReceipt)
    (attempted : gset N) (ts : list ProcessTarget) :
    cleanup (flow (CleanupReceipt * gset N)) :=
  match ts with
  | [] => Ret (Ok (Continue (r, attempted)))
  | t :: ts =>
      if bool_decide (is_Some (live !! target_pid t))
         && negb (bool_decide (target_pid t ∈ attempted))
      then
        do? signalled := signal r t MemberTerm Term in
        match signalled with
        | (r, Some reason) => Ret (Ok (Return (fail r reason (survivor_keys live))))
        | (r, None) => member_term_loop live r ({[target_pid t]} ∪ attempted) ts
        end
      else member_term_loop live r attempted ts
  end.

(** The exact KILL loop. *)
Fixpoint exact_kill_loop (live : gmap N ProcessIdentity) (attempted : gset N)
    (r : CleanupReceipt) (ts : list ProcessTarget) : cleanup (flow CleanupReceipt) :=
  match ts with
  | [] => Ret (Ok (Continue r))
  | t :: ts =>
      if bool_decide (is_Some (live !! target_pid t)) then
        if negb (bool_decide (target_pid t ∈ attempted))
        then Ret (Ok (Return (fail r "cleanup.kill_without_term" (survivor_keys live))))
        else
          do? signalled := signal r t ExactKill Kill in
          match signalled with
          | (r, Some reason) => Ret (Ok (Return (fail r reason (survivor_keys live))))
          | (r, None) => exact_kill_loop live attempted r ts
          end
      else exact_kill_loop live attempted r ts
  end.

(** Waiting out a grace period; an interruption fails with the survivors. *)
Definition wait_or_drain (grace : Duration) (r : CleanupReceipt) (pids : list N) :
    cleanup (flow unit) :=
  do? interrupted := wait_interrupted grace r in
  Ret (Ok (if interrupted : bool then Return (fail r "cleanup.drain_requested" pids)
           else Continue tt)).

(** A fresh snapshot, validated for the next stage. *)
Definition revalidated_survivors (r : CleanupReceipt) :
    cleanup (flow (gmap N ProcessIdentity)) :=
  do? snapshot := snapshot_or_receipt_error r in
  do* validated := validate_stage snapshot in
  Ret (Ok match validated with
          | Ok live => Continue live
          | Err reason => Return (fail r reason [])
          end).

(** The first stage of [execute]: primary targets. *)
Definition primary_stage (policy : CleanupPolicy) (r : CleanupReceipt)
    (live : gmap N ProcessIdentity) (attempted : gset N) :
    cleanup (flow (CleanupReceipt * gmap N ProcessIdentity * gset N)) :=
  if bool_decide (live = ∅) then Ret (Ok (Continue (r, live, attempted))) else
  let primary_pids := list_to_set (target_pid <$> primary_targets plan) in
  do! signalled := primary_term_loop live primary_pids r attempted (plan_targets plan) in
  let '(r, attempted) := signalled in
  do! _ := wait_or_drain (primary_term_grace policy) r (survivor_keys live) in
  do! live := revalidated_survivors r in
  Ret (Ok (Continue (r, live, attempted))).

(** The second stage: the other members. *)
Definition member_stage (policy : CleanupPolicy) (r : CleanupReceipt)
    (live : gmap N ProcessIdentity) (attempted : gset N) :
    cleanup (flow (CleanupReceipt * gmap N ProcessIdentity * gset N)) :=
  if bool_decide (live = ∅) then Ret (Ok (Continue (r, live, attempted))) else
  do! signalled := member_term_loop live r attempted (plan_targets plan) in
  let '(r, attempted) := signalled in
  do! _ := wait_or_drain (member_term_grace policy) r (survivor_keys live) in
  do! live := revalidated_survivors r in
  Ret (Ok (Continue (r, live, attempted))).

(** The third stage: KILL, and the demand that nothing survives it. *)
Definition kill_stage (policy : CleanupPolicy) (r : CleanupReceipt)
    (live : gmap N ProcessIdentity) (attempted : gset N) : cleanup (flow CleanupReceipt) :=
  if bool_decide (live = ∅) then Ret (Ok (Continue r)) else
  do! r := exact_kill_loop live attempted r (plan_targets plan) in
  do! _ := wait_or_drain (kill_grace policy) r (survivor_keys live) in
  do? snapshot := snapshot_or_receipt_error r in
  do* observed := observe_exact_target_liveness snapshot plan in
  Ret (Ok match observed with
          | Err reason => Return (fail r reason [])
          | Ok o =>
              if bool_decide (survivors o = ∅) then Continue r
              else Return (fail r "cleanup.survivors_after_kill" (survivor_keys (survivors o)))
          end).

(** The revival windows; [seen] is [terminal_snapshot]. *)
Fixpoint revival_loop (r : CleanupReceipt) (seen : option Snapshot) (windows : list Duration) :
    cleanup (flow (CleanupReceipt * option Snapshot)) :=
  match windows with
  | [] => Ret (Ok (Continue (r, seen)))
  | window :: windows =>
      do! _ := wait_or_drain window r [] in
      do? snapshot := snapshot_or_receipt_error r in
      let r := count_revival_check r in
      let validation := revalidate revalidator snapshot plan RevivalCheck in
      match revalidation_status validation with
      | Gone => revival_loop r (Some snapshot) windows
      | StatusRevived | Eligible =>
          let r := set_resource_after r (resource_snapshot snapshot plan) in
          Ret (Ok (Return (set_state Revived (revalidation_reason_id validation) r)))
      | Blocked =>
          let r := set_resource_after r (resource_snapshot snapshot plan) in
          Ret (Ok (Return (fail r (revalidation_reason_id validation) [])))
      end
  end.

(** A proof of absence on one snapshot: no target live, session gone. *)
Definition prove_gone (r : CleanupReceipt) (s : Snapshot) (survivors_reason : string) :
    cleanup (flow CleanupReceipt) :=
  do* liveness := observe_exact_target_liveness s plan in
  match liveness with
  | Err reason => Ret (Ok (Return (fail r reason [])))
  | Ok o =>
      let r := set_resource_after r (resource_snapshot s plan) in
      Ret (Ok match terminal_revalidation s with
              | TerminalRevived reason => Return (set_state Revived reason r)
              | TerminalBlocked reason => Return (fail r reason [])
              | TerminalGone =>
                  if bool_decide (survivors o = ∅) then Continue r
                  else Return (fail r survivors_reason (survivor_keys (survivors o)))
              end)
  end.

(** The terminal proof after the revival windows. *)
Definition terminal_stage (r : CleanupReceipt) (seen : option Snapshot) :
    cleanup (flow CleanupReceipt) :=
  do? s := match seen with
       | Some s => Ret (Ok s)
       | None => snapshot_or_receipt_error r
       end in
  prove_gone r s "cleanup.terminal_tree_not_gone".

(** [execute_artifact_action]: the receipt and the disposition. *)
Definition execute_artifact_action (r : CleanupReceipt) (candidate : RuntimeArtifactCandidate)
    (frozen : ArtifactFreeze) : cleanup (CleanupReceipt * ArtifactDisposition) :=
  let intent := candidate_intent candidate in
  do* stop := trigger ShouldStop in
  if stop : bool then Ret (Ok (r, ArtCancelledBeforeDelivery)) else
  do? absent_revalidation :=
    match frozen with
    | Absent =>
        do? again := or_terminal (FreezeArtifact candidate) r in Ret (Ok (Some again))
    | Frozen _ | FreezeUnsafe => Ret (Ok None)
    end in
  do? prepared := or_terminal SampleClock r in
  do? action_id := or_terminal (PrepareArtifactAction intent (wall_unix_millis prepared)) r in
  do* stop := trigger ShouldStop in
  do* disposition :=
    (if stop : bool then Ret ArtCancelledBeforeDelivery else
     match frozen with
     | Frozen f => trigger (RemoveArtifactExact f)
     | Absent =>
         Ret match absent_revalidation with
             | Some Absent => AlreadyAbsent
             | Some (Frozen _) => ArtIdentityMismatch
             | Some FreezeUnsafe => Unsafe
             | None => Unsafe (* unreachable: absent artifacts are frozen again *)
             end
     | FreezeUnsafe => Ret Unsafe
     end) in
  do? r := complete_artifact_prepared r intent action_id disposition in
  if negb (completed_cleanup disposition) then Ret (Ok (r, disposition)) else
  do? final_freeze := or_terminal (FreezeArtifact candidate) r in
  Ret (Ok (r, match final_freeze with
              | Absent => disposition
              | Frozen _ => ArtIdentityMismatch
              | FreezeUnsafe => Unsafe
              end)).

(** The artifact loop. *)
Fixpoint artifact_loop (r : CleanupReceipt)
    (fs : list (RuntimeArtifactCandidate * ArtifactFreeze)) : cleanup (flow CleanupReceipt) :=
  match fs with
  | [] => Ret (Ok (Continue r))
  | (candidate, frozen) :: fs =>
      do? executed := execute_artifact_action r candidate frozen in
      let '(r, disposition) := executed in
      if negb (completed_cleanup disposition)
      then Ret (Ok (Return (fail r (artifact_failure_reason disposition) [])))
      else artifact_loop r fs
  end.

(** The proof after artifact actions. *)
Definition post_artifact_stage (r : CleanupReceipt) : cleanup (flow CleanupReceipt) :=
  if bool_decide (artifacts plan = []) then Ret (Ok (Continue r)) else
  do? s := snapshot_or_receipt_error r in
  prove_gone r s "cleanup.post_artifact_tree_not_gone".

(** The receipt of a proved cleanup. *)
Definition cleared_receipt (r : CleanupReceipt) : CleanupReceipt :=
  let r := mkCleanupReceipt (receipt_incident_id r) Cleared (reason_id r) (actions r)
             (artifact_actions r) (survivor_pids r) (revival_checks_completed r)
             (resources r) in
  if ended_without_intervention r then
    set_state Cleared "cleanup.tree_gone_without_signal"
      (set_resources
         (mkCleanupResources (before (resources r)) (after (resources r)) None) r)
  else if bool_decide (artifact_actions r = []) then
    set_state Cleared "cleanup.tree_gone_no_revival" r
  else set_state Cleared "cleanup.tree_gone_artifacts_reconciled" r.

Definition initial_receipt : CleanupReceipt :=
  mkCleanupReceipt (plan_incident_id plan) Reclaiming None [] [] [] 0 default_resources.

(** The opening of [execute]: stop check, first snapshot, validation, freeze. *)
Definition opening_stage :
    cleanup (flow (CleanupReceipt * gmap N ProcessIdentity
                   * list (RuntimeArtifactCandidate * ArtifactFreeze))) :=
  do* stop := trigger ShouldStop in
  if stop : bool then Ret (Ok (Return (fail initial_receipt "cleanup.drain_requested" []))) else
  do? initial := snapshot_or_receipt_error initial_receipt in
  let r := set_resources (mkCleanupResources (Some (resource_snapshot initial plan)) None None)
             initial_receipt in
  do* validated := validate_stage initial in
  match validated with
  | Err reason => Ret (Ok (Return (fail r reason [])))
  | Ok live =>
      do? frozen := freeze_artifacts r (artifacts plan) in
      Ret (Ok (Continue (r, live, frozen)))
  end.

(** The stages of [execute] in order. *)
Definition stages (policy : CleanupPolicy) : cleanup (flow CleanupReceipt) :=
  do! opened := opening_stage in
  let '(r, live, frozen) := opened in
  do! signalled := primary_stage policy r live ∅ in
  let '(r, live, attempted) := signalled in
  do! signalled := member_stage policy r live attempted in
  let '(r, live, attempted) := signalled in
  do! r := kill_stage policy r live attempted in
  do! revived := revival_loop r None (revival_windows policy) in
  let '(r, seen) := revived in
  do! r := terminal_stage r seen in
  do! r := artifact_loop r frozen in
  do! r := post_artifact_stage r in
  Ret (Ok (Continue (cleared_receipt r))).

(** [CleanupExecutor::execute]. *)
Definition execute (policy : CleanupPolicy) : cleanup CleanupReceipt :=
  do? finished := stages policy in
  Ret (Ok match finished with Return r => r | Continue r => r end).
End Execute.
