(* ===== verification/ExecutorSafety.v ===== *)
(** ExecutorSafety: what [CleanupExecutor::execute] guarantees in every
    environment.

    A ghost state folds the answered events of a run: what was observed (stop
    requests, snapshots, lookups, waits), what the journal holds (the open
    action, the completed ones) and what was frozen. [event_ok] is the check every event
    passes before it happens, and [settled] ties the receipt to the ghost
    state when the execution ends. *)

From S2P Require Import Prelude Text Model Fingerprint Artifact Evidence Cleanup Effects Executor.

(** ** Ghost state *)

Record ghost : Type := mkGhost {
  (** A stop request or an interrupted wait was answered. *)
  g_stopped : bool;
  (** Snapshots in order, each with the waits completed since the one before. *)
  g_log : list (list Duration * Snapshot);
  g_waits : list Duration;
  (** Targeted lookups answered since the last snapshot. *)
  g_lookups : list (N * option ProcessRecord);
  (** The signal action that is PREPARED and not yet completed. *)
  g_open : option (string * CleanupActionIntent);
  (** A snapshot was taken since that action was prepared. *)
  g_fresh : bool;
  (** The delivery attempted for that action. *)
  g_delivery : option SignalDisposition;
  g_open_artifact : option (string * ArtifactActionIntent);
  g_removal : option ArtifactDisposition;
  (** Artifacts frozen while the opening snapshot was the only one. *)
  g_frozen : list (RuntimeArtifactCandidate * ArtifactFreeze);
  g_actions : list CleanupAction;
  g_artifact_actions : list ArtifactAction;
}.

Definition ghost0 : ghost :=
  mkGhost false [] [] [] None false None None None [] [] [].

Definition completed_action (i : CleanupActionIntent) (d : SignalDisposition) : CleanupAction :=
  mkCleanupAction (intent_stage i) (intent_pid i) (intent_identity_fingerprint i)
    (intent_signal i) d.

Definition completed_artifact (i : ArtifactActionIntent) (d : ArtifactDisposition) :
    ArtifactAction :=
  mkArtifactAction (intent_kind i) (intent_artifact_fingerprint i) d.

Definition upd (g : ghost) (o : obs CleanupE) : ghost :=
  let 'mkGhost st lg ws lk op fr de oa rm fz ac aa := g in
  match o with
  | @Obs _ _ e x =>
      match e in CleanupE X return X → ghost with
      | TakeSnapshot => λ x, match x with
          | Ok s => mkGhost st (lg ++ [(ws, s)]) [] [] op true de oa rm fz ac aa
          | Err _ => g
          end
      | LookupProcess p => λ x, match x with
          | Ok r => mkGhost st lg ws (lk ++ [(p, r)]) op fr de oa rm fz ac aa
          | Err _ => g
          end
      | SampleClock => λ _, g
      | SignalExact i s => λ x, mkGhost st lg ws lk op fr (Some x) oa rm fz ac aa
      | WaitUntil d => λ x, match x with
          | Ok DeadlineReached => mkGhost st lg (ws ++ [d]) lk op fr de oa rm fz ac aa
          | Ok Interrupted => mkGhost true lg ws lk op fr de oa rm fz ac aa
          | Err _ => g
          end
      | FreezeArtifact c => λ x, match x with
          | Ok z => if bool_decide (length lg ≤ 1)
                    then mkGhost st lg ws lk op fr de oa rm (fz ++ [(c, z)]) ac aa else g
          | Err _ => g
          end
      | RemoveArtifactExact f => λ x, mkGhost st lg ws lk op fr de oa (Some x) fz ac aa
      | PrepareAction i _ => λ x, match x with
          | Ok id => mkGhost st lg ws lk (Some (id, i)) false None oa rm fz ac aa
          | Err _ => g
          end
      | CompleteAction id d _ => λ x, match x, op with
          | Ok _, Some (_, i) =>
              mkGhost st lg ws lk None fr None oa rm fz (ac ++ [completed_action i d]) aa
          | _, _ => g
          end
      | PrepareArtifactAction i _ => λ x, match x with
          | Ok id => mkGhost st lg ws lk op fr de (Some (id, i)) None fz ac aa
          | Err _ => g
          end
      | CompleteArtifactAction id d _ => λ x, match x, oa with
          | Ok _, Some (_, i) =>
              mkGhost st lg ws lk op fr de None None fz ac (aa ++ [completed_artifact i d])
          | _, _ => g
          end
      | ShouldStop => λ x, mkGhost (st || x) lg ws lk op fr de oa rm fz ac aa
      end x
  end.

(** The ghost state after a trace. *)
Definition ghost_of (tr : list (obs CleanupE)) : ghost := fold_left upd tr ghost0.

Definition last_snapshot (g : ghost) : option Snapshot := snd <$> last (g_log g).

(** A target proved absent: missing from the snapshot, and by targeted lookup. *)
Definition target_gone (s : Snapshot) (lookups : list (N * option ProcessRecord))
    (t : ProcessTarget) : Prop :=
  by_pid s !! target_pid t = None ∧ (target_pid t, None) ∈ lookups.

(** A target listed by the snapshot with exactly the planned identity. *)
Definition target_exact (s : Snapshot) (t : ProcessTarget) : Prop :=
  ∃ p, by_pid s !! target_pid t = Some p ∧ exact_match (target_identity t) (identity p) = true.

Definition disposition_without_delivery (d : SignalDisposition) : Prop :=
  d = AlreadyExited ∨ d = IdentityMismatch ∨ d = Rejected ∨ d = CancelledBeforeDelivery.

Definition removal_without_delivery (d : ArtifactDisposition) : Prop :=
  d = AlreadyAbsent ∨ d = ArtIdentityMismatch ∨ d = Unsafe ∨ d = ArtCancelledBeforeDelivery.

Section Checks.
Context {V : Type} `{!IncidentRevalidator V} (revalidator : V) (plan : CleanupPlan).

(** The last snapshot authorises a signal. *)
Definition stage_valid (g : ghost) : Prop :=
  ∃ s, last_snapshot g = Some s ∧
    Forall (λ t, target_exact s t ∨ target_gone s (g_lookups g) t) (plan_targets plan) ∧
    revalidation_status (revalidate revalidator s plan BeforeSignal) = Eligible.

(** The last snapshot proves the tree gone. *)
Definition tree_gone (g : ghost) : Prop :=
  ∃ s, last_snapshot g = Some s ∧
    Forall (target_gone s (g_lookups g)) (plan_targets plan) ∧
    revalidation_status (revalidate revalidator s plan RevivalCheck) = Gone.

(** A completed TERM of a target with this PID. *)
Definition term_completed (g : ghost) (p : N) : Prop :=
  ∃ t a, t ∈ plan_targets plan ∧ target_pid t = p ∧ a ∈ g_actions g ∧ action_pid a = p ∧
    action_identity_fingerprint a = fingerprint_process_identity (target_identity t) ∧
    action_signal a = Term ∧
    (action_disposition a = Delivered ∨ action_disposition a = AlreadyExited).

(** The intent a target's signal is journalled with. *)
Definition target_intent (t : ProcessTarget) (stage : CleanupStage) (s : CleanupSignal) :=
  mkCleanupActionIntent stage (target_pid t)
    (fingerprint_process_identity (target_identity t)) s.

Record signal_ok (g : ghost) (i : ProcessIdentity) (s : CleanupSignal) : Prop := {
  signal_ok_target : ∃ t id stage, t ∈ plan_targets plan ∧ target_identity t = i ∧
    g_open g = Some (id, target_intent t stage s) ∧
    ∃ snap, last_snapshot g = Some snap ∧ target_exact snap t;
  signal_ok_fresh : g_fresh g = true;
  signal_ok_once : g_delivery g = None;
  signal_ok_valid : stage_valid g;
  signal_ok_running : g_stopped g = false;
  signal_ok_kill : s = Kill → term_completed g (pid i);
}.

Definition nothing_open (g : ghost) : Prop := g_open g = None ∧ g_open_artifact g = None.

Record removal_ok (g : ghost) (f : FrozenRuntimeArtifact) : Prop := {
  removal_ok_frozen : ∃ c id, c ∈ artifacts plan ∧ (c, Frozen f) ∈ g_frozen g ∧
    g_open_artifact g = Some (id, candidate_intent c);
  removal_ok_once : g_removal g = None;
  removal_ok_gone : tree_gone g;
  removal_ok_running : g_stopped g = false;
}.

(** The check of an event in the ghost state before it. *)
Definition event_ok (g : ghost) (X : Type) (e : CleanupE X) : Prop :=
  match e with
  | SignalExact i s => signal_ok g i s
  | RemoveArtifactExact f => removal_ok g f
  | FreezeArtifact c => c ∈ artifacts plan
  | PrepareAction i _ => nothing_open g ∧ g_stopped g = false ∧
      ∃ t, t ∈ plan_targets plan ∧ i = target_intent t (intent_stage i) (intent_signal i)
  | PrepareArtifactAction i _ => nothing_open g ∧ g_stopped g = false ∧ tree_gone g
  | CompleteAction id d _ => (∃ i, g_open g = Some (id, i)) ∧
      match g_delivery g with
      | Some x => d = x
      | None => disposition_without_delivery d
      end
  | CompleteArtifactAction id d _ => (∃ i, g_open_artifact g = Some (id, i)) ∧
      match g_removal g with
      | Some x => d = x
      | None => removal_without_delivery d
      end
  | _ => True
  end.

(** Each revival window was waited out and followed by a snapshot on which the
    revalidator sees the session gone. *)
Definition windows_proved (windows : list Duration) (log : list (list Duration * Snapshot)) :
    Prop :=
  ∃ seen, log = zip ((λ w, [w]) <$> windows) seen ∧ length seen = length windows ∧
    Forall (λ s, revalidation_status (revalidate revalidator s plan RevivalCheck) = Gone) seen.

(** Every planned artifact was processed to completion, in order. *)
Definition artifacts_reconciled : list RuntimeArtifactCandidate → list ArtifactAction → Prop :=
  Forall2 (λ c a, a = completed_artifact (candidate_intent c) (act_disposition a) ∧
                  completed_cleanup (act_disposition a) = true).

(** What a Cleared receipt proves. *)
Record cleared_proof (windows : list Duration) (g : ghost) (r : CleanupReceipt) : Prop := {
  cleared_gone : tree_gone g;
  cleared_running : g_stopped g = false;
  cleared_survivors : survivor_pids r = [];
  cleared_checks : revival_checks_completed r = N.of_nat (length windows);
  cleared_windows : ∃ before seen after,
    g_log g = before ++ seen ++ after ∧ before ≠ [] ∧ windows_proved windows seen;
  cleared_artifacts : artifacts_reconciled (artifacts plan) (artifact_actions r);
}.

(** ** Post-conditions *)

(** The receipt holds exactly the journal's completed actions. *)
Definition recorded (g : ghost) (r : CleanupReceipt) : Prop :=
  actions r = g_actions g ∧ artifact_actions r = g_artifact_actions g.

Definition settled (g : ghost) (r : CleanupReceipt) : Prop :=
  recorded g r ∧ nothing_open g.

(** The invariant of a running execution: nothing is open, nothing was stopped, the
    artifacts [F] were frozen in the opening, [checks] revival checks and
    [done_artifacts] were made, and [waits] were completed since the last snapshot. *)
Record calm (F : list (RuntimeArtifactCandidate * ArtifactFreeze)) (checks : N)
    (done_artifacts : list ArtifactAction) (waits : list Duration) (g : ghost)
    (r : CleanupReceipt) : Prop := {
  calm_settled : settled g r;
  calm_running : g_stopped g = false;
  calm_waits : g_waits g = waits;
  calm_frozen : F ⊆ g_frozen g;
  calm_opened : 1 ≤ length (g_log g);
  calm_checks : revival_checks_completed r = checks;
  calm_survivors : survivor_pids r = [];
  calm_artifacts : artifact_actions r = done_artifacts;
}.

(** What an error carries: a terminal receipt with nothing open, or the id of
    the one open action. *)
Definition error_post (g : ghost) (e : CleanupError) : Prop :=
  match e with
  | RuntimeError _ r => settled g r ∧ receipt_state r = Failed
  | AttemptOpen _ r id => recorded g r ∧
      ((∃ i, g_open g = Some (id, i)) ∨ (∃ i, g_open_artifact g = Some (id, i)))
  end.

Definition stop_post (g : ghost) (r : CleanupReceipt) : Prop :=
  settled g r ∧ (receipt_state r = Failed ∨ receipt_state r = Revived).

Definition result_post {A} (K : ghost → A → Prop) (g : ghost)
    (x : result A CleanupError) : Prop :=
  match x with Ok a => K g a | Err e => error_post g e end.

Definition flow_post {A} (K : ghost → A → Prop) : ghost → result (flow A) CleanupError → Prop :=
  result_post (λ g x, match x with Continue a => K g a | Return r => stop_post g r end).

Abbreviation ensures g p Q := (safe upd event_ok g p Q).
End Checks.

(** ** Composition *)

Section Proofs.
Context {V : Type} `{!IncidentRevalidator V} (revalidator : V) (plan : CleanupPlan).

Local Abbreviation okp := (event_ok revalidator plan).

Lemma safe_do_result {A B} g (p : cleanup A) (k : A → cleanup B) K Q :
  safe upd okp g p (result_post K) →
  (∀ g' a, K g' a → safe upd okp g' (k a) (result_post Q)) →
  safe upd okp g (do? x := p in k x) (result_post Q).
Proof. intros Hp Hk. eapply safe_bind_post; [done|]. intros g' [a|e]; simpl; eauto. Qed.

Lemma safe_do_flow {A B} g (p : cleanup (flow A)) (k : A → cleanup (flow B)) K Q :
  safe upd okp g p (flow_post K) →
  (∀ g' a, K g' a → safe upd okp g' (k a) (flow_post Q)) →
  safe upd okp g (do! x := p in k x) (flow_post Q).
Proof. intros Hp Hk. eapply safe_bind_post; [done|]. intros g' [[r|a]|e]; simpl; eauto. Qed.

Lemma safe_or_terminal {X} g (e : CleanupE (result X RuntimeFailure)) r K :
  okp g _ e →
  (∀ x, K (upd g (Obs e (Ok x))) x) →
  (∀ err, settled (upd g (Obs e (Err err))) r) →
  safe upd okp g (or_terminal e r) (result_post K).
Proof. intros Hok HK Herr. split; [done|]. intros [x|err]; simpl; [apply HK|]. by split; [apply Herr|]. Qed.

Lemma safe_or_open {X} g (e : CleanupE (result X RuntimeFailure)) r id K :
  okp g _ e →
  (∀ x, K (upd g (Obs e (Ok x))) x) →
  (∀ err, error_post (upd g (Obs e (Err err))) (AttemptOpen err r id)) →
  safe upd okp g (or_open e r id) (result_post K).
Proof. intros Hok HK Herr. split; [done|]. intros [x|err]; simpl; [apply HK|]. apply Herr. Qed.

(** ** Journal completion *)

Definition closed (g : ghost) (i : CleanupActionIntent) (d : SignalDisposition) : ghost :=
  mkGhost (g_stopped g) (g_log g) (g_waits g) (g_lookups g) None (g_fresh g) None
    (g_open_artifact g) (g_removal g) (g_frozen g) (g_actions g ++ [completed_action i d])
    (g_artifact_actions g).

Lemma safe_complete_prepared g r i id d :
  g_open g = Some (id, i) → recorded g r →
  match g_delivery g with Some x => d = x | None => disposition_without_delivery d end →
  safe upd okp g (complete_prepared r i id d)
    (result_post (λ g' r', g' = closed g i d ∧ r' = push_action (completed_action i d) r)).
Proof.
  destruct g. simpl. intros -> Hrec Hd. split; [done|]. intros [clock|err]; simpl; [|by eauto].
  split; [by eauto|]. by intros [[]|err]; simpl; eauto.
Qed.

Definition closed_artifact (g : ghost) (i : ArtifactActionIntent) (d : ArtifactDisposition) :
    ghost :=
  mkGhost (g_stopped g) (g_log g) (g_waits g) (g_lookups g) (g_open g) (g_fresh g)
    (g_delivery g) None None (g_frozen g) (g_actions g)
    (g_artifact_actions g ++ [completed_artifact i d]).

Lemma safe_complete_artifact_prepared g r i id d :
  g_open_artifact g = Some (id, i) → recorded g r →
  match g_removal g with Some x => d = x | None => removal_without_delivery d end →
  safe upd okp g (complete_artifact_prepared r i id d)
    (result_post (λ g' r', g' = closed_artifact g i d ∧
                           r' = push_artifact_action (completed_artifact i d) r)).
Proof.
  destruct g. simpl. intros -> Hrec Hd. split; [done|]. intros [clock|err]; simpl; [|by eauto].
  split; [by eauto|]. by intros [[]|err]; simpl; eauto.
Qed.
(** ** Liveness observation *)

Definition with_lookups (g : ghost) (l : list (N * option ProcessRecord)) : ghost :=
  mkGhost (g_stopped g) (g_log g) (g_waits g) l (g_open g) (g_fresh g) (g_delivery g)
    (g_open_artifact g) (g_removal g) (g_frozen g) (g_actions g) (g_artifact_actions g).

(** What an observation says of one target. *)
Definition target_observed (index : gmap N ProcessRecord) (l : list (N * option ProcessRecord))
    (o : ExactTargetLiveness) (t : ProcessTarget) : Prop :=
  match index !! target_pid t with
  | Some p => exact_match (target_identity t) (identity p) = true ∧
              is_Some (survivors o !! target_pid t)
  | None => (target_pid t, None) ∈ l ∨
            (target_pid t ∈ missing_live_targets o ∧ is_Some (survivors o !! target_pid t))
  end.

(** A survivor is a listed process or one of the missing live targets. *)
Definition survivors_from (index : gmap N ProcessRecord) (live : gmap N ProcessIdentity)
    (missing : list N) : Prop :=
  ∀ k, is_Some (live !! k) → is_Some (index !! k) ∨ k ∈ missing.

Lemma survivors_from_insert index live missing k i :
  survivors_from index live missing → is_Some (index !! k) ∨ k ∈ missing →
  survivors_from index (<[k := i]> live) missing.
Proof.
  intros Hs Hk k'. destruct (decide (k' = k)) as [->|Hne]; [done|].
  rewrite lookup_insert_ne by done. apply Hs.
Qed.

Lemma survivors_from_mono index live missing missing' :
  survivors_from index live missing → missing ⊆ missing' →
  survivors_from index live missing'.
Proof. intros Hs Hsub k [?|?]%Hs; auto. Qed.

Lemma safe_observe_targets index ts : ∀ g live missing,
  survivors_from index live missing →
  safe upd okp g (observe_targets index ts live missing) (λ g' x,
    ∃ l, g' = with_lookups g l ∧ g_lookups g ⊆ l ∧
    match x with
    | Err _ => True
    | Ok o => Forall (target_observed index l o) ts ∧
        survivors_from index (survivors o) (missing_live_targets o) ∧
        missing ⊆ missing_live_targets o ∧ dom live ⊆ dom (survivors o)
    end).
Proof.
  induction ts as [|t ts IH]; intros g live missing Hfrom; simpl.
  { exists (g_lookups g). destruct g; simpl. by split_and!. }
  destruct (index !! target_pid t) as [p|] eqn:Hp.
  - destruct (exact_match _ _) eqn:Hex; simpl.
    2: { exists (g_lookups g). by destruct g. }
    eapply safe_mono; [|apply IH, survivors_from_insert; eauto].
    intros g' x (l & -> & Hl & Ho). exists l. do 2 (split; [done|]).
    destruct x as [o|e]; [|done]. destruct Ho as (Hall & Hsf & Hm & Hd).
    split; [|split_and!; set_solver]. constructor; [|done].
    unfold target_observed. rewrite Hp. split; [done|]. apply elem_of_dom. set_solver.
  - split; [done|]. destruct g as [st lg ws lk op fr de oa rm fz ac aa].
    intros [[p|]|err]; simpl; [| |by exists lk].
    + destruct (exact_match _ _) eqn:Hex; simpl.
      2: { exists (lk ++ [(target_pid t, Some p)]). split_and!; set_solver. }
      eapply safe_mono; [|apply IH, survivors_from_insert;
                          [eapply survivors_from_mono; [done|set_solver]|set_solver]].
      intros g' x (l & -> & Hl & Ho). exists l. split; [done|]. split; [set_solver|].
      destruct x as [o|e]; [|done]. destruct Ho as (Hall & Hsf & Hm & Hd).
      split; [|split_and!; set_solver]. constructor; [|done].
      unfold target_observed. rewrite Hp. right.
      split; [set_solver|]. apply elem_of_dom. set_solver.
    + eapply safe_mono; [|by apply IH].
      intros g' x (l & -> & Hl & Ho). exists l. split; [done|]. split; [set_solver|].
      destruct x as [o|e]; [|done]. destruct Ho as (Hall & Hsf & Hm & Hd).
      split; [|done]. constructor; [|done]. unfold target_observed. rewrite Hp. left.
      set_solver.
Qed.

(** What an observation of the snapshot [s] says of the plan. *)
Definition observed (s : Snapshot) (l : list (N * option ProcessRecord))
    (o : ExactTargetLiveness) : Prop :=
  Forall (target_observed (by_pid s) l o) (plan_targets plan) ∧
  survivors_from (by_pid s) (survivors o) (missing_live_targets o).

Lemma safe_observe g s :
  safe upd okp g (observe_exact_target_liveness s plan) (λ g' x,
    ∃ l, g' = with_lookups g l ∧
    match x with Err _ => True | Ok o => observed s l o end).
Proof.
  eapply safe_mono; [|apply safe_observe_targets;
                      intros k; rewrite lookup_empty; by intros ?%is_Some_None].
  intros g' [o|e] (l & -> & _ & Ho); exists l; split; [done|..|done|done]. by split; apply Ho.
Qed.

(** No survivor: every target is gone. *)
Lemma observed_none s l o :
  observed s l o → survivors o = ∅ → Forall (target_gone s l) (plan_targets plan).
Proof.
  intros [Hall _] Hnone. eapply Forall_impl; [done|]. intros t. unfold target_observed.
  rewrite Hnone, lookup_empty. destruct (by_pid s !! target_pid t) eqn:Hp.
  - by intros [_ []%is_Some_None].
  - by intros [?|[_ []%is_Some_None]].
Qed.

Lemma observed_exact_or_gone s l o :
  observed s l o → missing_live_targets o = [] →
  Forall (λ t, (target_exact s t ∧ is_Some (survivors o !! target_pid t)) ∨
               target_gone s l t) (plan_targets plan).
Proof.
  intros [Hall _] Hm. eapply Forall_impl; [done|]. intros t. unfold target_observed.
  rewrite Hm. destruct (by_pid s !! target_pid t) as [p|] eqn:Hp.
  - intros [? ?]. left. split; [|done]. by exists p.
  - intros [?|[[]%elem_of_nil _]]. right. by split.
Qed.
(** ** Signals *)


Lemma safe_validate g s :
  last_snapshot g = Some s →
  safe upd okp g (validate_stage revalidator plan s) (λ g' x,
    ∃ l, g' = with_lookups g l ∧
    match x with
    | Err _ => True
    | Ok live => ∀ t, t ∈ plan_targets plan → is_Some (live !! target_pid t) →
                 target_exact s t ∧ stage_valid revalidator plan g'
    end).
Proof.
  intros Hs. unfold validate_stage. eapply safe_bind_post; [apply safe_observe|].
  intros g' [o|e] (l & -> & Ho); simpl; [|by exists l].
  exists l. split; [done|].
  destruct (bool_decide (missing_live_targets o = [])) eqn:Hm; simpl; [|done]. bool_facts.
  pose proof (observed_exact_or_gone _ _ _ Ho Hm) as Hall.
  assert (Hexact : ∀ t, t ∈ plan_targets plan → is_Some (survivors o !! target_pid t) →
                        target_exact s t).
  { intros t Ht Hlive. rewrite Forall_forall in Hall.
    destruct (Hall t Ht) as [[? _]|[Hgone _]]; [done|].
    destruct Ho as [_ Hfrom]. destruct (Hfrom _ Hlive) as [[? ?]|Hin]; [congruence|].
    rewrite Hm in Hin. by apply elem_of_nil in Hin. }
  destruct (bool_decide (survivors o = ∅)) eqn:Hne; bool_facts.
  { intros t _. rewrite Hne, lookup_empty. by intros ?%is_Some_None. }
  destruct (revalidation_status _) eqn:Hst; try done.
  intros t Ht Hlive. split; [by apply Hexact|].
  exists s. split; [by destruct g|]. split; [|done]. destruct g; simpl.
  eapply Forall_impl; [done|]. intros t' [[? _]|?]; auto.
Qed.

#[local] Opaque complete_prepared complete_artifact_prepared validate_stage
  observe_exact_target_liveness.

Lemma last_snapshot_taken g lg ws s :
  g_log g = lg ++ [(ws, s)] → last_snapshot g = Some s.
Proof. unfold last_snapshot. intros ->. by rewrite last_snoc. Qed.

Definition extends (g g' : ghost) : Prop := g_actions g ⊆ g_actions g'.

Lemma term_completed_mono g g' p :
  extends g g' → term_completed plan g p → term_completed plan g' p.
Proof. intros Hext (t & a & Ht & Hp & Ha & Hrest). exists t, a. auto 6. Qed.

Definition signal_post F c D (g : ghost) (t : ProcessTarget) (s : CleanupSignal)
    (g' : ghost) (x : CleanupReceipt * option string) : Prop :=
  let '(r, reason) := x in
  match reason with
  | Some _ => settled g' r
  | None => calm F c D [] g' r ∧ extends g g' ∧ (s = Term → term_completed plan g' (target_pid t))
  end.

Lemma closed_settled g r i d :
  recorded g r → g_open_artifact g = None →
  settled (closed g i d) (push_action (completed_action i d) r).
Proof.
  intros [Ha Haa] Hoa. unfold settled, recorded, nothing_open. simpl. by rewrite Ha, Haa.
Qed.

Lemma term_completed_closed g t stage d :
  t ∈ plan_targets plan → d = Delivered ∨ d = AlreadyExited →
  term_completed plan (closed g (target_intent t stage Term) d) (target_pid t).
Proof.
  intros Ht Hd. exists t, (completed_action (target_intent t stage Term) d).
  split_and!; try done. apply elem_of_app. right. by apply list_elem_of_singleton.
Qed.

Lemma safe_signal F c D g r t stage s :
  calm F c D [] g r → t ∈ plan_targets plan →
  (s = Kill → term_completed plan g (target_pid t)) →
  safe upd okp g (signal revalidator plan r t stage s) (result_post (signal_post F c D g t s)).
Proof.
  intros [[Hrec [Hop Hoa]] Hrun Hw HF Hlog Hck Hsv Hart] Ht Hkill. unfold signal.
  destruct g as [st lg ws lk op fr de oa rm fz ac aa]; simpl in *; subst.
  split; [done|]. intros [|]; simpl; [by split|].
  split; [done|]. intros [clock|err]; simpl; [|by split].
  split.
  { split; [done|]. split; [done|]. exists t. by split. }
  intros [id|err]; simpl; [|by split].
  split; [done|]. intros [|]; simpl.
  { eapply safe_do_result; [apply safe_complete_prepared; [done|done|]|].
    - by right; right; right.
    - intros g' r' [-> ->]. by apply closed_settled. }
  split; [done|]. intros [snap|err]; simpl.
  2: { eapply safe_do_result; [apply safe_complete_prepared; [done|done|]|].
       - by right; right; right.
       - intros g' r' [-> ->]. simpl. split; [|done]. by apply closed_settled. }
  eapply safe_bind_post; [by eapply safe_validate, last_snapshot_taken|].
  intros g' [live|reason] (l & -> & Hlive); simpl.
  2: { eapply safe_do_result; [apply safe_complete_prepared; [done|done|]|].
       - simpl. case_bool_decide; [by right; left|by right; right; left].
       - intros g' r' [-> ->]. by apply closed_settled. }
  destruct (bool_decide (live !! target_pid t = None)) eqn:Hin; bool_facts.
  { eapply safe_do_result; [apply safe_complete_prepared; [done|done|by left]|].
    intros g' r' [-> ->]. simpl. split; [|split].
    - split; simpl; try done; [by apply closed_settled|]. rewrite length_app. simpl. lia.
    - unfold extends. simpl. set_solver.
    - intros ->. by apply term_completed_closed; auto. }
  split; [done|]. intros [|]; simpl.
  { eapply safe_do_result; [apply safe_complete_prepared; [done|done|]|].
    - by right; right; right.
    - intros g' r' [-> ->]. by apply closed_settled. }
  apply not_eq_None_Some in Hin. destruct (Hlive t Ht Hin) as [Hex Hvalid].
  split.
  { split; simpl; try done.
    exists t, id, stage. split_and!; try done. exists snap. split; [|done].
    by eapply last_snapshot_taken. }
  intros d. eapply safe_do_result; [by apply safe_complete_prepared|].
  intros g' r' [-> ->]. destruct (disposition_reason d) as [reason|] eqn:Hd; simpl.
  { by apply closed_settled. }
  split; [|split].
  - split; simpl; try done; [by apply closed_settled|]. rewrite length_app. simpl. lia.
  - unfold extends. simpl. set_solver.
  - intros ->. apply term_completed_closed; [done|]. destruct d; naive_solver.
Qed.

(** ** Signal loops *)

Definition attempted_ok (g : ghost) (A : gset N) : Prop :=
  ∀ p, p ∈ A → term_completed plan g p.

Lemma attempted_ok_add g g' A t :
  attempted_ok g A → extends g g' → term_completed plan g' (target_pid t) →
  attempted_ok g' ({[target_pid t]} ∪ A).
Proof.
  intros HA Hext Ht p [->%elem_of_singleton|Hp]%elem_of_union; [done|].
  eapply term_completed_mono; eauto.
Qed.

Lemma stop_post_fail g r reason l : settled g r → stop_post g (fail r reason l).
Proof. intros Hs. split; [exact Hs|by left]. Qed.

#[local] Opaque signal.

Lemma safe_primary_term_loop F c D live primary ts : ∀ g r A,
  calm F c D [] g r → attempted_ok g A → ts ⊆ plan_targets plan →
  safe upd okp g (primary_term_loop revalidator plan live primary r A ts)
    (flow_post (λ g' x, calm F c D [] g' x.1 ∧ attempted_ok g' x.2)).
Proof.
  induction ts as [|t ts IH]; intros g r A Hc HA Hts; simpl; [done|].
  assert (Ht : t ∈ plan_targets plan) by set_solver.
  assert (Hts' : ts ⊆ plan_targets plan) by set_solver.
  destruct (_ && _); [|by apply IH].
  eapply safe_do_result; [by apply (safe_signal F c D)|]. intros g' [r' [reason|]]; simpl.
  - intros Hs. by apply stop_post_fail.
  - intros (Hc' & Hext & Hterm). apply IH; [done| |done].
    eapply attempted_ok_add; eauto.
Qed.

Lemma safe_member_term_loop F c D live ts : ∀ g r A,
  calm F c D [] g r → attempted_ok g A → ts ⊆ plan_targets plan →
  safe upd okp g (member_term_loop revalidator plan live r A ts)
    (flow_post (λ g' x, calm F c D [] g' x.1 ∧ attempted_ok g' x.2)).
Proof.
  induction ts as [|t ts IH]; intros g r A Hc HA Hts; simpl; [done|].
  assert (Ht : t ∈ plan_targets plan) by set_solver.
  assert (Hts' : ts ⊆ plan_targets plan) by set_solver.
  destruct (_ && _); [|by apply IH].
  eapply safe_do_result; [by apply (safe_signal F c D)|]. intros g' [r' [reason|]]; simpl.
  - intros Hs. by apply stop_post_fail.
  - intros (Hc' & Hext & Hterm). apply IH; [done| |done].
    eapply attempted_ok_add; eauto.
Qed.

Lemma safe_exact_kill_loop F c D live A ts : ∀ g r,
  calm F c D [] g r → attempted_ok g A → ts ⊆ plan_targets plan →
  safe upd okp g (exact_kill_loop revalidator plan live A r ts)
    (flow_post (λ g' r', calm F c D [] g' r')).
Proof.
  induction ts as [|t ts IH]; intros g r Hc HA Hts; simpl; [done|].
  assert (Ht : t ∈ plan_targets plan) by set_solver.
  assert (Hts' : ts ⊆ plan_targets plan) by set_solver.
  destruct (bool_decide (is_Some _)); [|by apply IH].
  destruct (bool_decide (target_pid t ∈ A)) eqn:Hin; bool_facts; simpl.
  2: { apply stop_post_fail. apply Hc. }
  eapply safe_do_result; [by apply (safe_signal F c D); auto|]. intros g' [r' [reason|]]; simpl.
  - intros Hs. by apply stop_post_fail.
  - intros (Hc' & Hext & _). apply IH; [done| |done].
    intros p Hp. eapply term_completed_mono; eauto.
Qed.

(** ** Waits and snapshots *)

Lemma safe_wait_or_drain F c D g r d pids :
  calm F c D [] g r →
  safe upd okp g (wait_or_drain d r pids)
    (flow_post (λ g' _, calm F c D [d] g' r ∧ g_actions g' = g_actions g ∧
                        g_log g' = g_log g)).
Proof.
  intros [[Hrec [Hop Hoa]] Hrun Hw HF Hlog Hck Hsv Hart].
  destruct g as [st lg ws lk op fr de oa rm fz ac aa]; simpl in *; subst.
  assert (Hs : ∀ b lg' ws' lk', settled (mkGhost b lg' ws' lk' None fr de None rm fz ac aa) r)
    by (by intros; split).
  split; [done|]. intros [|]; simpl; [by apply stop_post_fail|].
  split; [done|]. intros [[]|err]; simpl; [|by apply stop_post_fail|by split; [apply Hs|]].
  split; [done|]. intros [|]; simpl; [by apply stop_post_fail|done].
Qed.

(** A ghost state after one more snapshot. *)
Definition snapped (g : ghost) (s : Snapshot) : ghost := upd g (Obs TakeSnapshot (Ok s)).

Lemma last_snapshot_snapped g s : last_snapshot (snapped g s) = Some s.
Proof. destruct g. by eapply last_snapshot_taken. Qed.

Lemma calm_snapped F c D ws g r s : calm F c D ws g r → calm F c D [] (snapped g s) r.
Proof.
  intros []. destruct g; split; simpl in *; try done. rewrite length_app. lia.
Qed.

Lemma calm_with_lookups F c D ws g r l : calm F c D ws g r → calm F c D ws (with_lookups g l) r.
Proof. intros []. by destruct g. Qed.

Lemma safe_snapshot_or_receipt_error F c D ws g r :
  calm F c D ws g r →
  safe upd okp g (snapshot_or_receipt_error r) (result_post (λ g' s, g' = snapped g s)).
Proof.
  intros Hc. apply safe_or_terminal; [done|done|]. intros err. destruct g; apply Hc.
Qed.

(** ** Stages *)

#[local] Opaque wait_or_drain snapshot_or_receipt_error.

Lemma safe_revalidated_survivors F c D ws g r :
  calm F c D ws g r →
  safe upd okp g (revalidated_survivors revalidator plan r)
    (flow_post (λ g' _, calm F c D [] g' r ∧ g_actions g' = g_actions g)).
Proof.
  intros Hc. eapply safe_do_result; [by eapply safe_snapshot_or_receipt_error|].
  intros g' s ->. pose proof (calm_snapped _ _ _ _ _ _ s Hc) as Hc'.
  eapply safe_bind_post; [by apply safe_validate, last_snapshot_snapped|].
  intros g' [live|reason] (l & -> & _); simpl.
  - split; [by apply calm_with_lookups|]. by destruct g.
  - apply stop_post_fail. by eapply calm_settled, calm_with_lookups.
Qed.

Lemma attempted_ok_eq g g' A :
  g_actions g' = g_actions g → attempted_ok g A → attempted_ok g' A.
Proof.
  intros Heq HA p Hp. eapply term_completed_mono; [|by apply HA].
  unfold extends. by rewrite Heq.
Qed.

(** The wait and the revalidation that close a TERM stage. *)
Lemma safe_stage_end F c D g r d live A :
  calm F c D [] g r → attempted_ok g A →
  safe upd okp g
    (do! _ := wait_or_drain d r (survivor_keys live) in
     do! live := revalidated_survivors revalidator plan r in
     Ret (Ok (Continue (r, live, A))))
    (flow_post (λ g' x, calm F c D [] g' x.1.1 ∧ attempted_ok g' x.2)).
Proof.
  intros Hc HA. eapply safe_do_flow; [by apply safe_wait_or_drain|].
  intros g' _ (Hc' & Heq & _). eapply safe_do_flow; [by eapply safe_revalidated_survivors|].
  intros g'' live' [Hc'' Heq']. simpl. split; [done|].
  eapply attempted_ok_eq; [|done]. by rewrite Heq'.
Qed.

Lemma safe_primary_stage F c D policy g r live A :
  calm F c D [] g r → attempted_ok g A →
  safe upd okp g (primary_stage revalidator plan policy r live A)
    (flow_post (λ g' x, calm F c D [] g' x.1.1 ∧ attempted_ok g' x.2)).
Proof.
  intros Hc HA. unfold primary_stage. destruct (bool_decide (live = ∅)); [done|].
  eapply safe_do_flow; [by apply (safe_primary_term_loop F c D)|].
  intros g' [r' A'] [Hc' HA']. by apply safe_stage_end.
Qed.

Lemma safe_member_stage F c D policy g r live A :
  calm F c D [] g r → attempted_ok g A →
  safe upd okp g (member_stage revalidator plan policy r live A)
    (flow_post (λ g' x, calm F c D [] g' x.1.1 ∧ attempted_ok g' x.2)).
Proof.
  intros Hc HA. unfold member_stage. destruct (bool_decide (live = ∅)); [done|].
  eapply safe_do_flow; [by apply (safe_member_term_loop F c D)|].
  intros g' [r' A'] [Hc' HA']. by apply safe_stage_end.
Qed.

Lemma safe_kill_stage F c D policy g r live A :
  calm F c D [] g r → attempted_ok g A →
  safe upd okp g (kill_stage revalidator plan policy r live A)
    (flow_post (λ g' r', calm F c D [] g' r')).
Proof.
  intros Hc HA. unfold kill_stage. destruct (bool_decide (live = ∅)); [done|].
  eapply safe_do_flow; [by apply (safe_exact_kill_loop F c D)|]. intros g1 r1 Hc1.
  eapply safe_do_flow; [by apply safe_wait_or_drain|]. intros g2 _ [Hc2 _].
  eapply safe_do_result; [by eapply safe_snapshot_or_receipt_error|]. intros g3 s ->.
  apply (calm_snapped _ _ _ _ _ _ s) in Hc2.
  eapply safe_bind_post; [apply safe_observe|]. intros g4 o (l & -> & Ho).
  apply (calm_with_lookups _ _ _ _ _ _ l) in Hc2.
  destruct o as [o|reason]; simpl; [|by eapply stop_post_fail, calm_settled].
  destruct (bool_decide (survivors o = ∅)); [done|].
  by eapply stop_post_fail, calm_settled.
Qed.

(** ** Revival windows and the terminal proof *)

Lemma calm_count_check F c D g r :
  calm F c D [] g r → calm F (c + 1) D [] g (count_revival_check r).
Proof. intros []. split; simpl; try done. by f_equal. Qed.

Lemma calm_set_after F c D ws g r x :
  calm F c D ws g r → calm F c D ws g (set_resource_after r x).
Proof. by intros []. Qed.

Lemma windows_proved_cons w ws s log :
  revalidation_status (revalidate revalidator s plan RevivalCheck) = Gone →
  windows_proved revalidator plan ws log →
  windows_proved revalidator plan (w :: ws) (([w], s) :: log).
Proof.
  intros Hs (seen & -> & Hlen & Hall). exists (s :: seen). simpl.
  split_and!; [done|by rewrite Hlen|by constructor].
Qed.

Lemma safe_revival_loop F D windows : ∀ c g r seen,
  calm F c D [] g r → seen = None ∨ seen = last_snapshot g →
  safe upd okp g (revival_loop revalidator plan r seen windows)
    (flow_post (λ g' x,
       calm F (c + N.of_nat (length windows)) D [] g' x.1 ∧
       (x.2 = None ∨ x.2 = last_snapshot g') ∧
       ∃ log, g_log g' = g_log g ++ log ∧ windows_proved revalidator plan windows log)).
Proof.
  induction windows as [|w windows IH]; intros c g r seen Hc Hseen; simpl.
  { rewrite N.add_0_r. split; [done|]. split; [done|]. exists []. rewrite app_nil_r.
    split; [done|]. by exists []. }
  eapply safe_do_flow; [by apply safe_wait_or_drain|]. intros g1 _ (Hc1 & _ & Hlog1).
  eapply safe_do_result; [by eapply safe_snapshot_or_receipt_error|]. intros g2 s ->.
  assert (Hlog2 : g_log (snapped g1 s) = g_log g ++ [([w], s)]).
  { rewrite <-Hlog1. destruct g1, Hc1; simpl in *. by subst. }
  apply (calm_snapped _ _ _ _ _ _ s), calm_count_check in Hc1.
  destruct (revalidation_status _) eqn:Hst.
  1, 4: split; [by apply Hc1|by right].
  2: { by eapply stop_post_fail, calm_settled, calm_set_after. }
  eapply safe_mono; [|apply (IH _ _ _ _ Hc1); right; by rewrite last_snapshot_snapped].
  intros g3 [[r3|[r3 seen3]]|e]; simpl; try done.
  intros (Hc3 & Hseen3 & log & Hlog3 & Hw). split_and!; [|done|].
  { replace (c + N.of_nat (S (length windows)))%N
      with (c + 1 + N.of_nat (length windows))%N by lia. done. }
  exists (([w], s) :: log). rewrite Hlog3, Hlog2, <-app_assoc. split; [done|].
  by apply windows_proved_cons.
Qed.

Lemma safe_prove_gone F c D g r s reason :
  calm F c D [] g r → last_snapshot g = Some s →
  safe upd okp g (prove_gone revalidator plan r s reason)
    (flow_post (λ g' r', calm F c D [] g' r' ∧ tree_gone revalidator plan g' ∧
                         g_log g' = g_log g)).
Proof.
  intros Hc Hs. unfold prove_gone. eapply safe_bind_post; [apply safe_observe|].
  intros g1 o (l & -> & Ho). apply (calm_with_lookups _ _ _ _ _ _ l) in Hc.
  destruct o as [o|e]; simpl; [|by eapply stop_post_fail, calm_settled].
  apply (calm_set_after _ _ _ _ _ _ (resource_snapshot s plan)) in Hc.
  unfold terminal_revalidation. destruct (revalidation_status _) eqn:Hst; simpl.
  1, 4: split; [by apply Hc|by right].
  2: { by eapply stop_post_fail, calm_settled. }
  destruct (bool_decide (survivors o = ∅)) eqn:Hnone; simpl;
    [|by eapply stop_post_fail, calm_settled]. bool_facts.
  split; [done|]. split; [|by destruct g]. exists s. split; [by destruct g|].
  split; [|done]. destruct g; simpl. by eapply observed_none.
Qed.

Lemma safe_terminal_stage F c D g r seen :
  calm F c D [] g r → seen = None ∨ seen = last_snapshot g →
  safe upd okp g (terminal_stage revalidator plan r seen)
    (flow_post (λ g' r', calm F c D [] g' r' ∧ tree_gone revalidator plan g' ∧
                         ∃ tail, g_log g' = g_log g ++ tail)).
Proof.
  intros Hc Hseen. unfold terminal_stage. destruct seen as [s|].
  - destruct Hseen as [?|Hs]; [done|]. simpl.
    eapply safe_mono; [|by apply (safe_prove_gone F c D)].
    intros g' [[r'|r']|e]; simpl; try done. intros (? & ? & Hlog). split_and!; [done..|].
    exists []. by rewrite app_nil_r.
  - eapply safe_do_result; [by eapply safe_snapshot_or_receipt_error|]. intros g1 s ->.
    eapply safe_mono; [|apply (safe_prove_gone F c D);
      [by eapply calm_snapped|apply last_snapshot_snapped]].
    intros g' [[r'|r']|e]; simpl; try done. intros (? & ? & Hlog). split_and!; [done..|].
    rewrite Hlog. destruct g; simpl. eauto.
Qed.

(** ** Artifacts *)

Definition same_view (g g' : ghost) : Prop :=
  g_log g' = g_log g ∧ g_lookups g' = g_lookups g.

Lemma tree_gone_view g g' :
  same_view g g' → tree_gone revalidator plan g → tree_gone revalidator plan g'.
Proof. intros [Hl Hk] (s & Hs & Hrest). exists s. unfold last_snapshot. by rewrite Hl, Hk. Qed.

Lemma safe_freeze_artifact F c D ws g r cand :
  calm F c D ws g r → cand ∈ artifacts plan →
  safe upd okp g (or_terminal (FreezeArtifact cand) r) (result_post (λ g' z,
    calm F c D ws g' r ∧ same_view g g' ∧
    (length (g_log g) ≤ 1 → (cand, z) ∈ g_frozen g'))).
Proof.
  intros [Hset Hrun Hw HF Hlog Hck Hsv Hart] Hin.
  destruct g as [st lg ws' lk op fr de oa rm fz ac aa]; simpl in *; subst.
  split; [done|]. intros [z|err]; simpl; [|by split; [apply Hset|]].
  destruct (bool_decide (length lg ≤ 1)) eqn:Hlen; bool_facts.
  - split; [|split; [done|]]; [split; simpl; try done; set_solver|].
    intros _. simpl. apply elem_of_app. right. by apply list_elem_of_singleton.
  - split; [done|]. split; [done|]. done.
Qed.

Definition artifact_post F c D (g : ghost) (cand : RuntimeArtifactCandidate)
    (g' : ghost) (x : CleanupReceipt * ArtifactDisposition) : Prop :=
  settled g' x.1 ∧
  (completed_cleanup x.2 = true →
     calm F c (D ++ [completed_artifact (candidate_intent cand) x.2]) [] g' x.1 ∧
     same_view g g').

Lemma closed_artifact_calm F c D g r i d id :
  g_open_artifact g = Some (id, i) → g_open g = None → recorded g r →
  g_stopped g = false → g_waits g = [] → F ⊆ g_frozen g → 1 ≤ length (g_log g) →
  revival_checks_completed r = c → survivor_pids r = [] → artifact_actions r = D →
  calm F c (D ++ [completed_artifact i d]) [] (closed_artifact g i d)
    (push_artifact_action (completed_artifact i d) r).
Proof.
  intros Hoa Hop [Ha Haa] Hrun Hw HF Hlog Hck Hsv HD. split; simpl; try done.
  - unfold settled, recorded, nothing_open. simpl. by rewrite Ha, Haa.
  - by rewrite HD.
Qed.

Lemma safe_artifact_tail F c D g r cand id d :
  g_open_artifact g = Some (id, candidate_intent cand) → g_open g = None → recorded g r →
  match g_removal g with Some x => d = x | None => removal_without_delivery d end →
  cand ∈ artifacts plan →
  (completed_cleanup d = true →
     calm F c (D ++ [completed_artifact (candidate_intent cand) d]) []
       (closed_artifact g (candidate_intent cand) d)
       (push_artifact_action (completed_artifact (candidate_intent cand) d) r)) →
  safe upd okp g
    (do? r := complete_artifact_prepared r (candidate_intent cand) id d in
     if negb (completed_cleanup d) then Ret (Ok (r, d)) else
     do? final_freeze := or_terminal (FreezeArtifact cand) r in
     Ret (Ok (r, match final_freeze with
                 | Absent => d
                 | Frozen _ => ArtIdentityMismatch
                 | FreezeUnsafe => Unsafe
                 end)))
    (result_post (artifact_post F c D g cand)).
Proof.
  intros Hoa Hop Hrec Hd Hin Hcalm.
  eapply safe_do_result; [by apply safe_complete_artifact_prepared|].
  intros g1 r1 [-> ->]. destruct (completed_cleanup d) eqn:Hc; simpl negb; cbv iota.
  - specialize (Hcalm eq_refl). eapply safe_do_result; [by eapply safe_freeze_artifact|].
    intros g2 z (Hc2 & Hview & _). split; [by apply Hc2|]. by destruct z.
  - split; [|by simpl; rewrite Hc]. destruct Hrec as [Ha Haa].
    unfold settled, recorded, nothing_open. simpl. by rewrite Ha, Haa.
Qed.

Lemma safe_should_stop {B} g (k : bool → prog CleanupE B) Q :
  g_stopped g = false → safe upd okp (upd g (Obs ShouldStop true)) (k true) Q →
  safe upd okp g (k false) Q →
  safe upd okp g (do* stop := trigger ShouldStop in k stop) Q.
Proof.
  intros Hrun Ht Hf. split; [done|]. intros [|]; simpl; [done|].
  destruct g; simpl in *. by subst.
Qed.

(** The ghost state with an artifact action prepared and a removal answered. *)
Definition removing (g : ghost) (id : string) (i : ArtifactActionIntent) (stopped : bool)
    (x : option ArtifactDisposition) : ghost :=
  mkGhost stopped (g_log g) (g_waits g) (g_lookups g) (g_open g) (g_fresh g) (g_delivery g)
    (Some (id, i)) x (g_frozen g) (g_actions g) (g_artifact_actions g).

(** The tail from a prepared action: [d] is what the removal answered, or a
    disposition without delivery. *)
Lemma safe_removing_tail F c D g0 g r cand id d stopped x :
  calm F c D [] g r → same_view g0 g → cand ∈ artifacts plan →
  match x with Some y => d = y | None => removal_without_delivery d end →
  (stopped = false ∨ completed_cleanup d = false) →
  safe upd okp (removing g id (candidate_intent cand) stopped x)
    (do? r := complete_artifact_prepared r (candidate_intent cand) id d in
     if negb (completed_cleanup d) then Ret (Ok (r, d)) else
     do? final_freeze := or_terminal (FreezeArtifact cand) r in
     Ret (Ok (r, match final_freeze with
                 | Absent => d
                 | Frozen _ => ArtIdentityMismatch
                 | FreezeUnsafe => Unsafe
                 end)))
    (result_post (artifact_post F c D g0 cand)).
Proof.
  intros [[Hrec [Hop Hoa]] Hrun Hw HF Hlog Hck Hsv Hart] [Hv1 Hv2] Hin Hd Hstop.
  eapply safe_mono; [|apply (safe_artifact_tail F c D)]; try done.
  - intros g' [[r' d']|e]; [|done]. intros [Hs Hpost]. split; [done|].
    intros Hcomp. destruct (Hpost Hcomp) as [? [Hv1' Hv2']]. split; [done|]. simpl in *.
    split; [by rewrite Hv1', <-Hv1|by rewrite Hv2', <-Hv2].
  - intros Hcomp. destruct Hstop as [->|?]; [|congruence].
    by eapply closed_artifact_calm.
Qed.

#[local] Opaque or_terminal complete_artifact_prepared.

Lemma safe_execute_artifact_action F c D g r cand frozen :
  calm F c D [] g r → tree_gone revalidator plan g →
  (cand, frozen) ∈ F → cand ∈ artifacts plan →
  safe upd okp g (execute_artifact_action r cand frozen)
    (result_post (artifact_post F c D g cand)).
Proof.
  intros Hc Hgone HinF Hin. unfold execute_artifact_action.
  apply safe_should_stop; [apply Hc|split; [by destruct g; apply Hc|done]|].
  eapply (safe_do_result _ _ _ (λ g' absent,
    calm F c D [] g' r ∧ same_view g g' ∧ (frozen = Absent → is_Some absent))).
  { destruct frozen;
      [by split; [done|split; [by split|]]| |by split; [done|split; [by split|]]].
    eapply safe_do_result; [by eapply safe_freeze_artifact|].
    intros g' z (Hc' & Hv & _). simpl. eauto. }
  intros g1 absent (Hc1 & Hv & Habs).
  eapply (safe_do_result _ _ _ (λ g' _, g' = g1)).
  { apply safe_or_terminal; [done| |]; intros; destruct g1; [done|apply Hc1]. }
  intros g2 clock ->.
  eapply (safe_do_result _ _ _
    (λ g' id, g' = removing g1 id (candidate_intent cand) false None)).
  { apply safe_or_terminal.
    - split; [apply Hc1|]. split; [apply Hc1|]. by eapply tree_gone_view.
    - intros id. destruct Hc1 as [_ Hrun _ _ _ _ _ _], g1; simpl in *. by subst.
    - intros err. destruct g1; apply Hc1. }
  intros g3 id ->. apply safe_should_stop; [done| |].
  { apply (safe_removing_tail F c D g g1 r cand id ArtCancelledBeforeDelivery true None);
      try done; [by right; right; right|by right]. }
  destruct frozen as [f| |].
  2: { destruct Habs as [z ->]; [done|].
       apply (safe_removing_tail F c D g g1 r cand id
                match z with Absent => AlreadyAbsent | Frozen _ => ArtIdentityMismatch
                           | FreezeUnsafe => Unsafe end false None); try done; [|by left].
       unfold removal_without_delivery. destruct z; auto. }
  - split.
    + split; try done; [|by eapply tree_gone_view].
      exists cand, id. split_and!; [done| |done]. by apply (calm_frozen _ _ _ _ _ _ Hc1).
    + intros d. apply (safe_removing_tail F c D g g1 r cand id d false (Some d)); try done.
      by left.
  - apply (safe_removing_tail F c D g g1 r cand id Unsafe false None); try done; [|by left].
    unfold removal_without_delivery; auto.
Qed.

#[local] Opaque execute_artifact_action.

Lemma safe_artifact_loop F c fs : ∀ D g r,
  calm F c D [] g r → tree_gone revalidator plan g → fs ⊆ F →
  (∀ x, x ∈ fs → x.1 ∈ artifacts plan) →
  safe upd okp g (artifact_loop r fs)
    (flow_post (λ g' r', ∃ l, calm F c (D ++ l) [] g' r' ∧ same_view g g' ∧
                              artifacts_reconciled fs.*1 l)).
Proof.
  induction fs as [|[cand z] fs IH]; intros D g r Hc Hgone Hsub Hplan; simpl.
  { exists []. rewrite app_nil_r. split; [done|]. split; [by split|constructor]. }
  eapply safe_do_result; [apply (safe_execute_artifact_action F c D); try done|].
  { apply Hsub. by left. }
  { apply (Hplan (cand, z)). by left. }
  intros g1 [r1 d] [Hset Hpost]; simpl in *.
  destruct (completed_cleanup d) eqn:Hd; simpl; [|by apply stop_post_fail].
  destruct (Hpost eq_refl) as [Hc1 Hv]. eapply safe_mono; [|eapply IH; [done|..]].
  - intros g' [[r'|r']|e]; simpl; try done. intros (l & Hc' & [Hv1 Hv2] & Hl).
    eexists (_ :: l). rewrite <-app_assoc in Hc'. split; [exact Hc'|].
    destruct Hv as [Hv1' Hv2']. split; [by split; [rewrite Hv1|rewrite Hv2]|].
    by constructor.
  - by eapply tree_gone_view.
  - set_solver.
  - intros x Hx. apply Hplan. by right.
Qed.

Lemma safe_post_artifact_stage F c D g r :
  calm F c D [] g r → tree_gone revalidator plan g →
  safe upd okp g (post_artifact_stage revalidator plan r)
    (flow_post (λ g' r', calm F c D [] g' r' ∧ tree_gone revalidator plan g' ∧
                         ∃ tail, g_log g' = g_log g ++ tail)).
Proof.
  intros Hc Hgone. unfold post_artifact_stage. destruct (bool_decide (artifacts plan = [])).
  { simpl. split_and!; [done..|]. exists []. by rewrite app_nil_r. }
  eapply safe_do_result; [by eapply safe_snapshot_or_receipt_error|]. intros g1 s ->.
  eapply safe_mono; [|apply (safe_prove_gone F c D);
    [by eapply calm_snapped|apply last_snapshot_snapped]].
  intros g' [[r'|r']|e]; simpl; try done. intros (? & ? & Hlog). split_and!; [done..|].
  rewrite Hlog. destruct g; simpl. eauto.
Qed.

(** ** The opening and the whole execution *)

Lemma safe_freeze_artifacts F c D g r cs :
  calm F c D [] g r → length (g_log g) = 1 → cs ⊆ artifacts plan →
  safe upd okp g (freeze_artifacts r cs) (result_post (λ g' fs,
    fs.*1 = cs ∧ calm (F ++ fs) c D [] g' r ∧ length (g_log g') = 1)).
Proof.
  revert F g. induction cs as [|cand cs IH]; intros F g Hc Hlen Hin; simpl.
  { by rewrite app_nil_r. }
  eapply safe_do_result; [apply (safe_freeze_artifact F c D []); [done|set_solver]|].
  intros g1 z (Hc1 & [Hlog _] & Hfz). rewrite <-Hlog in Hlen.
  assert (Hc1' : calm (F ++ [(cand, z)]) c D [] g1 r).
  { destruct Hc1. split; try done. rewrite Hlog in Hlen.
    intros x [Hx|Hx%list_elem_of_singleton]%elem_of_app; [auto|subst x]. apply Hfz. lia. }
  eapply safe_do_result; [apply (IH _ _ Hc1' Hlen); set_solver|].
  intros g2 fs (<- & Hc2 & Hlen2). rewrite <-app_assoc in Hc2. by split_and!.
Qed.

#[local] Opaque validate_stage freeze_artifacts.

Lemma calm_opening s :
  calm [] 0 [] [] (snapped ghost0 s)
    (set_resources (mkCleanupResources (Some (resource_snapshot s plan)) None None)
       (initial_receipt plan)).
Proof. by split. Qed.

Lemma safe_opening_stage :
  safe upd okp ghost0 (opening_stage revalidator plan)
    (flow_post (λ g' x, x.2.*1 = artifacts plan ∧ calm x.2 0 [] [] g' x.1.1)).
Proof.
  unfold opening_stage. apply safe_should_stop; [done|by apply stop_post_fail|].
  eapply (safe_do_result _ _ _ (λ g' s, g' = snapped ghost0 s));
    [by apply safe_or_terminal; intros|].
  intros g1 s ->. pose proof (calm_opening s) as Hc.
  eapply safe_bind_post; [by apply safe_validate, last_snapshot_snapped|].
  intros g2 live (l & -> & _). apply (calm_with_lookups _ _ _ _ _ _ l) in Hc.
  destruct live as [live|reason]; [|by eapply stop_post_fail, calm_settled].
  eapply safe_do_result; [by apply (safe_freeze_artifacts [] 0 [])|].
  intros g3 fs (Hfs & Hc3 & _). by split.
Qed.

#[local] Opaque opening_stage primary_stage member_stage kill_stage revival_loop
  terminal_stage artifact_loop post_artifact_stage.

Lemma cleared_receipt_fields r :
  actions (cleared_receipt r) = actions r ∧
  artifact_actions (cleared_receipt r) = artifact_actions r ∧
  survivor_pids (cleared_receipt r) = survivor_pids r ∧
  revival_checks_completed (cleared_receipt r) = revival_checks_completed r ∧
  receipt_state (cleared_receipt r) = Cleared.
Proof. unfold cleared_receipt. by repeat case_match. Qed.

Lemma safe_stages policy :
  safe upd okp ghost0 (stages revalidator plan policy)
    (flow_post (λ g r, settled g r ∧ receipt_state r = Cleared ∧
       cleared_proof revalidator plan (revival_windows policy) g r)).
Proof.
  unfold stages.
  eapply safe_do_flow; [apply safe_opening_stage|]. intros g1 [[r1 live1] F] [HF Hc1].
  eapply safe_do_flow; [by apply (safe_primary_stage F 0 [])|].
  intros g2 [[r2 live2] A2] [Hc2 HA2].
  eapply safe_do_flow; [by apply (safe_member_stage F 0 [])|].
  intros g3 [[r3 live3] A3] [Hc3 HA3].
  eapply safe_do_flow; [by apply (safe_kill_stage F 0 [])|]. intros g4 r4 Hc4.
  eapply safe_do_flow; [by apply (safe_revival_loop F [] _ 0); [|left]|].
  intros g5 [r5 seen] (Hc5 & Hseen & log & Hlog5 & Hw).
  eapply safe_do_flow; [by apply (safe_terminal_stage F (0 + N.of_nat (length (revival_windows policy))) [])|].
  intros g6 r6 (Hc6 & Hgone6 & tail6 & Hlog6).
  eapply safe_do_flow;
    [apply (safe_artifact_loop F (0 + N.of_nat (length (revival_windows policy))) F []);
     try done|].
  { intros x Hx. rewrite <-HF. by apply list_elem_of_fmap_2. }
  intros g7 r7 (l & Hc7 & Hv & Hl). simpl in Hc7.
  eapply safe_do_flow; [apply (safe_post_artifact_stage _ _ _ _ _ Hc7);
    by eapply tree_gone_view|].
  intros g8 r8 (Hc8 & Hgone8 & tail8 & Hlog8). simpl.
  destruct (cleared_receipt_fields r8) as (Ha & Haa & Hsv & Hck & Hst).
  destruct Hc8 as [[[Hra Hraa] Hno] Hrun _ _ _ Hchecks Hsurv Hart]. destruct Hv as [Hv _].
  split; [by split; [split; congruence|]|]. split; [done|].
  split; try congruence.
  - by rewrite Hck, Hchecks.
  - exists (g_log g4), log, (tail6 ++ tail8).
    rewrite Hlog8, Hv, Hlog6, Hlog5, <-!app_assoc. split_and!; [done| |done].
    intros Hnil. pose proof (calm_opened _ _ _ _ _ _ Hc4) as Hlen. rewrite Hnil in Hlen.
    simpl in Hlen. lia.
  - by rewrite Haa, Hart, <-HF.
Qed.
End Proofs.
