(* ===== verification/ExecutorGuarantees.v ===== *)
(** ExecutorGuarantees: the guarantees of [CleanupExecutor::execute] over its
    traces, derived from the ghost-state verification of [ExecutorSafety.v], and
    a small concrete machine on which they are exercised. *)

From S2P Require Import Prelude Text Model Fingerprint Artifact Evidence Cleanup Effects.
From S2P Require Import Executor ExecutorSafety.

(** ** A concrete machine *)

(** A process table whose members end on TERM unless they are stubborn. *)
Record machine : Type := mkMachine {
  table : list ProcessRecord;
  stubborn : list N;
  next_action : N;
  stop_answers : list bool;
  artifact_file : option FrozenRuntimeArtifact;
}.

Definition machine_snapshot (m : machine) : Snapshot :=
  let n := N.of_nat (length (table m)) in
  mkSnapshot 1000000000 501 (table m) (mkSnapshotCoverage n n 0 0 0 0 0 0 0).

Definition machine_clock : ClockSample := mkClockSample 1000 1000 "boot".

(** The machine's answer to a signal. *)
Definition machine_signal (m : machine) (i : ProcessIdentity) (s : CleanupSignal) :
    machine * SignalDisposition :=
  match List.find (λ p, exact_match i (identity p)) (table m) with
  | None => (m, AlreadyExited)
  | Some _ =>
      if bool_decide (s = Term) && bool_decide (pid i ∈ stubborn m) then (m, Delivered)
      else (mkMachine (List.filter (λ p, negb (exact_match i (identity p))) (table m))
              (stubborn m) (next_action m) (stop_answers m) (artifact_file m), Delivered)
  end.

Definition machine_handle (X : Type) (e : CleanupE X) (m : machine) : machine * X :=
  match e in CleanupE X return machine * X with
  | TakeSnapshot => (m, Ok (machine_snapshot m))
  | LookupProcess p => (m, Ok (List.find (λ r, bool_decide (process_pid r = p)) (table m)))
  | SampleClock => (m, Ok machine_clock)
  | SignalExact i s => machine_signal m i s
  | WaitUntil _ => (m, Ok DeadlineReached)
  | FreezeArtifact _ =>
      (m, Ok match artifact_file m with Some f => Frozen f | None => Absent end)
  | RemoveArtifactExact _ =>
      (mkMachine (table m) (stubborn m) (next_action m) (stop_answers m) None, Removed)
  | PrepareAction _ _ | PrepareArtifactAction _ _ =>
      (mkMachine (table m) (stubborn m) (next_action m + 1) (stop_answers m)
         (artifact_file m),
       Ok (show_N (next_action m)))
  | CompleteAction _ _ _ | CompleteArtifactAction _ _ _ => (m, Ok tt)
  | ShouldStop =>
      match stop_answers m with
      | b :: bs =>
          (mkMachine (table m) (stubborn m) (next_action m) bs (artifact_file m), b)
      | [] => (m, false)
      end
  end.

(** A revalidator that trusts the liveness observation. *)
Inductive trusting : Type := Trusting.

#[export] Instance trusting_revalidator : IncidentRevalidator trusting :=
  λ _ _ _ phase, match phase with
                 | BeforeSignal => mkRevalidation Eligible "eligible"
                 | RevivalCheck => mkRevalidation Gone "gone"
                 end.

Definition example_identity (p : N) : ProcessIdentity :=
  mkProcessIdentity p 7 (Some 1%N) (Some p).

Definition example_process (p : N) : ProcessRecord :=
  mkProcessRecord (example_identity p) 1 p 501 None "node" None
    (mkExecutableIdentity (Some 1%N) (Some p) None None) None 10 Running default_runtime_facts.

Definition example_candidate : RuntimeArtifactCandidate :=
  mkRuntimeArtifactCandidate DevToolsActivePort "/tmp/profile" "/tmp/profile/DevToolsActivePort"
    501 "session" (artifact_fingerprint_of "session" "/tmp/profile").

Definition example_file : FrozenRuntimeArtifact :=
  mkFrozenRuntimeArtifact example_candidate (mkRuntimeArtifactIdentity 1 2 501 384 1 1 3 501 448).

Definition example_plan : CleanupPlan :=
  mkCleanupPlan "incident" "tracking" "session" "pack" "1" (example_identity 10) "members"
    [mkProcessTarget (example_identity 10) 10 Controller;
     mkProcessTarget (example_identity 11) 10 BrowserRoot]
    [example_candidate].

Definition example_policy : CleanupPolicy := default_policy.

(** A machine with both targets alive; the browser ignores TERM. *)
Definition example_machine : machine :=
  mkMachine [example_process 10; example_process 11] [11%N] 0 [] (Some example_file).

(** The same machine asked to stop at the [n]-th question. *)
Definition stopping_machine (n : nat) : machine :=
  mkMachine [example_process 10; example_process 11] [11%N] 0 (replicate n false ++ [true])
    (Some example_file).

Definition example_run (m : machine) :
    machine * list (obs CleanupE) * result CleanupReceipt CleanupError :=
  run machine_handle (execute Trusting example_plan example_policy) m.

Definition deliveries (tr : list (obs CleanupE)) : list (N * CleanupSignal) :=
  omap (λ o, match o with
             | @Obs _ _ e _ => match e with SignalExact i s => Some (pid i, s) | _ => None end
             end) tr.

(** The receipt an execution ends with, whatever the ending. *)
Definition execution_receipt (res : result CleanupReceipt CleanupError) : CleanupReceipt :=
  match res with Ok r => r | Err e => partial_receipt e end.

Definition machine_trace : list (obs CleanupE) := (example_run example_machine).1.2.

Definition stopped_trace : list (obs CleanupE) := (example_run (stopping_machine 3)).1.2.

Definition machine_receipt : CleanupReceipt :=
  execution_receipt (example_run example_machine).2.

(** The events a stop request forbids. *)
Definition acts {X} (e : CleanupE X) : bool :=
  match e with
  | SignalExact _ _ | RemoveArtifactExact _ | PrepareAction _ _ | PrepareArtifactAction _ _ =>
      true
  | _ => false
  end.

(** A stop request, or a wait that was interrupted by one. *)
Definition stop_observed (o : obs CleanupE) : bool :=
  match o with
  | @Obs _ _ e x =>
      match e in CleanupE X return X → bool with
      | ShouldStop => λ x, x
      | WaitUntil _ => λ x, match x with Ok Interrupted => true | _ => false end
      | _ => λ _, false
      end x
  end.

(** What every execution ends with. *)
Definition execution_post `{!IncidentRevalidator V} (revalidator : V) (plan : CleanupPlan)
    (policy : CleanupPolicy) (g : ghost) (res : result CleanupReceipt CleanupError) : Prop :=
  match res with
  | Ok r => settled g r ∧
      ((receipt_state r = Cleared ∧
        cleared_proof revalidator plan (revival_windows policy) g r) ∨
       receipt_state r = Failed ∨ receipt_state r = Revived)
  | Err e => error_post g e
  end.

Example example_deliveries :
  deliveries (example_run example_machine).1.2 =
    [(10%N, Term); (11%N, Term); (11%N, Kill)].
Proof. vm_compute. reflexivity. Qed.

Example example_cleared :
  match (example_run example_machine).2 with
  | Ok r => receipt_state r = Cleared ∧ reason_id r = Some "cleanup.tree_gone_artifacts_reconciled"
  | Err _ => False
  end.
Proof. vm_compute. done. Qed.

(** ** Executions *)

Section Executions.
Context {V : Type} `{!IncidentRevalidator V} (revalidator : V) (plan : CleanupPlan)
  (policy : CleanupPolicy).

Lemma safe_execute :
  safe upd (event_ok revalidator plan) ghost0 (execute revalidator plan policy)
    (execution_post revalidator plan policy).
Proof.
  unfold execute. eapply safe_bind_post; [apply safe_stages|].
  intros g [[r|r]|e]; simpl; [| |done].
  - intros [Hs Hst]. split; [done|]. tauto.
  - intros (Hs & Hst & Hproof). split; [done|]. by left.
Qed.

(** What holds of every run, for every environment. *)
Lemma execution_sound tr res :
  runs (execute revalidator plan policy) tr res →
  accepts upd (event_ok revalidator plan) ghost0 tr ∧
  execution_post revalidator plan policy (ghost_of tr) res.
Proof. apply safe_runs, safe_execute. Qed.

Lemma execution_event_ok tr res pre X (e : CleanupE X) x post :
  runs (execute revalidator plan policy) tr res →
  tr = pre ++ Obs e x :: post → event_ok revalidator plan (ghost_of pre) X e.
Proof. intros [Hacc _]%execution_sound Htr. by eapply accepts_at. Qed.

Lemma stopped_stays tr g : g_stopped g = true → g_stopped (fold_left upd tr g) = true.
Proof.
  revert g. induction tr as [|[X e x] tr IH]; intros g Hg; [done|]. simpl. apply IH.
  destruct g as [st lg ws lk op fr de oa rm fz ac aa]; simpl in *. subst.
  destruct e; simpl; repeat case_match; simplify_eq/=; done.
Qed.
End Executions.

(** ** Properties *)

(** [C1] Every signal the executor sends is authorised at the moment it is sent:
    it goes to the exact identity of a planned target that the latest snapshot
    lists with that identity; a PREPARED row for that target, identity
    fingerprint and signal is open and nothing was delivered for it yet; the
    latest snapshot was taken after the row was prepared, shows every planned
    target exact or provably gone, and the revalidator finds it eligible; no stop
    was observed; and a KILL follows a completed TERM. *)
Theorem every_signal_authorised `{!IncidentRevalidator V} (revalidator : V) plan policy
    tr res pre i s d post :
  runs (execute revalidator plan policy) tr res →
  tr = pre ++ Obs (SignalExact i s) d :: post →
  signal_ok revalidator plan (ghost_of pre) i s.
Proof. intros Hr Htr. by apply (execution_event_ok _ _ _ _ _ _ _ _ _ _ Hr Htr). Qed.

(** KILL is the last resort: in a plan with distinct PIDs, a process is sent
    KILL only after a TERM to the same PID and the same identity was journalled
    as delivered, or as finding the process already exited. *)
Theorem kill_follows_term `{!IncidentRevalidator V} (revalidator : V) plan policy
    tr res pre i d post :
  plan_wf plan →
  runs (execute revalidator plan policy) tr res →
  tr = pre ++ Obs (SignalExact i Kill) d :: post →
  ∃ a, a ∈ g_actions (ghost_of pre) ∧ action_pid a = pid i ∧
    action_identity_fingerprint a = fingerprint_process_identity i ∧
    action_signal a = Term ∧
    (action_disposition a = Delivered ∨ action_disposition a = AlreadyExited).
Proof.
  intros Hwf Hr Htr. pose proof (execution_event_ok _ _ _ _ _ _ _ _ _ _ Hr Htr) as Hok.
  destruct (signal_ok_target _ _ _ _ _ Hok) as (t & id & stage & Ht & <- & _).
  destruct (signal_ok_kill _ _ _ _ _ Hok eq_refl) as (t' & a & Ht' & Hp & Ha & Hap & Hf & Hrest).
  exists a. split_and!; [done|done| |apply Hrest..].
  assert (t' = t) as ->; [|done].
  pose proof (plan_wf_distinct _ Hwf) as Hnd.
  apply list_elem_of_lookup in Ht as [n Hn], Ht' as [n' Hn'].
  assert (n' = n) as ->; [|congruence].
  eapply (NoDup_lookup _ n' n (target_pid t) Hnd);
    rewrite list_lookup_fmap; [rewrite Hn'; simpl; by rewrite Hp|by rewrite Hn].
Qed.

(** [C19] The action journal is written ahead and balanced: a row is prepared only
    while no row is open, for a planned target; a row is completed only
    while it is the open one, with the disposition its delivery answered or, if
    nothing was delivered, one that claims no delivery; and an execution ends
    with no open row, except an error that names the open row. *)
Theorem journal_protocol `{!IncidentRevalidator V} (revalidator : V) plan policy tr res :
  runs (execute revalidator plan policy) tr res →
  (∀ pre i at_ x post, tr = pre ++ Obs (PrepareAction i at_) x :: post →
     nothing_open (ghost_of pre) ∧
     ∃ t, t ∈ plan_targets plan ∧ i = target_intent t (intent_stage i) (intent_signal i)) ∧
  (∀ pre id d at_ x post, tr = pre ++ Obs (CompleteAction id d at_) x :: post →
     (∃ i, g_open (ghost_of pre) = Some (id, i)) ∧
     match g_delivery (ghost_of pre) with
     | Some answered => d = answered
     | None => disposition_without_delivery d
     end) ∧
  match res with
  | Err (AttemptOpen _ _ id) =>
      (∃ i, g_open (ghost_of tr) = Some (id, i)) ∨
      (∃ i, g_open_artifact (ghost_of tr) = Some (id, i))
  | _ => nothing_open (ghost_of tr)
  end.
Proof.
  intros Hr. split_and!.
  - intros pre i at_ x post Htr.
    pose proof (execution_event_ok _ _ _ _ _ _ _ _ _ _ Hr Htr) as (? & _ & ?). done.
  - intros pre id d at_ x post Htr.
    exact (execution_event_ok _ _ _ _ _ _ _ _ _ _ Hr Htr).
  - apply execution_sound in Hr as [_ Hpost].
    destruct res as [r|[err r|err r id]]; simpl in Hpost; apply Hpost.
Qed.

(** The receipt tells the truth: whatever the ending, its actions and
    artifact actions are exactly the journal's completed rows, in order, and
    the final state is Cleared, Failed or Revived unless a row is left open. *)
Theorem receipt_is_the_journal `{!IncidentRevalidator V} (revalidator : V) plan policy tr res :
  runs (execute revalidator plan policy) tr res →
  actions (execution_receipt res) = g_actions (ghost_of tr) ∧
  artifact_actions (execution_receipt res) = g_artifact_actions (ghost_of tr) ∧
  match res with
  | Err (AttemptOpen _ _ _) => True
  | _ => receipt_state (execution_receipt res) ∈ [Cleared; Failed; Revived]
  end.
Proof.
  intros [_ Hpost]%execution_sound.
  destruct res as [r|[err r|err r id]]; simpl in *.
  - destruct Hpost as [[[Ha Haa] _] Hst]. split_and!; [done..|]. set_solver.
  - destruct Hpost as [[[Ha Haa] _] Hst]. split_and!; [done..|]. set_solver.
  - destruct Hpost as [[Ha Haa] _]. done.
Qed.

(** A stop request is final: after it is observed, directly or as an
    interrupted wait, the executor prepares nothing, signals nothing and removes
    nothing, and it does not report the incident as Cleared. *)
Theorem stop_is_final `{!IncidentRevalidator V} (revalidator : V) plan policy
    tr res pre o post :
  runs (execute revalidator plan policy) tr res →
  tr = pre ++ o :: post → stop_observed o = true →
  (∀ X (e : CleanupE X) x, Obs e x ∈ post → acts e = false) ∧
  match res with Ok r => receipt_state r ≠ Cleared | Err _ => True end.
Proof.
  intros Hr -> Hstop.
  assert (Hst : ∀ mid, g_stopped (ghost_of ((pre ++ [o]) ++ mid)) = true).
  { intros mid. unfold ghost_of. rewrite !fold_left_app. apply stopped_stays. simpl.
    destruct (fold_left upd pre ghost0) as [st lg ws lk op fr de oa rm fz ac aa].
    destruct o as [X e x]. destruct e; simplify_eq/=; repeat case_match; simplify_eq/=; try done.
    by rewrite orb_true_r. }
  split.
  - intros X e x (p1 & p2 & ->)%list_elem_of_split. specialize (Hst p1).
    assert (Htr : pre ++ o :: p1 ++ Obs e x :: p2 =
                  ((pre ++ [o]) ++ p1) ++ Obs e x :: p2) by (by rewrite <-!app_assoc).
    pose proof (execution_event_ok _ _ _ _ _ _ _ _ _ _ Hr Htr) as Hok.
    destruct e; simpl in *; try done.
    + by rewrite (signal_ok_running _ _ _ _ _ Hok) in Hst.
    + by rewrite (removal_ok_running _ _ _ _ Hok) in Hst.
    + destruct Hok as (_ & Hok & _). congruence.
    + destruct Hok as (_ & Hok & _). congruence.
  - specialize (Hst post). rewrite <-app_assoc in Hst. simpl in Hst.
    apply execution_sound in Hr as [_ Hpost]. destruct res as [r|]; [|done].
    destruct Hpost as [_ [[_ Hproof]|[->| ->]]]; [|done..].
    rewrite (cleared_running _ _ _ _ _ Hproof) in Hst. done.
Qed.

(** [C8] A Cleared receipt is a proof: the last snapshot and targeted lookups
    show every planned target gone and the revalidator the session gone, every
    revival window was waited out and followed by a snapshot without revival,
    there are no survivors, no stop was observed, and every planned artifact was
    reconciled. *)
Theorem cleared_is_proved `{!IncidentRevalidator V} (revalidator : V) plan policy tr r :
  runs (execute revalidator plan policy) tr (Ok r) → receipt_state r = Cleared →
  cleared_proof revalidator plan (revival_windows policy) (ghost_of tr) r.
Proof.
  intros [_ [_ [[_ Hproof]|Hst]]]%execution_sound Hc; [done|]. rewrite Hc in Hst.
  by destruct Hst.
Qed.

(** Artifacts are removed last and never beyond the plan: a removal names a
    file frozen for a planned candidate while the opening snapshot was the only
    one, under an open PREPARED row of that candidate, at a moment when the latest
    snapshot proves the whole tree gone. *)
Theorem every_removal_authorised `{!IncidentRevalidator V} (revalidator : V) plan policy
    tr res pre f d post :
  runs (execute revalidator plan policy) tr res →
  tr = pre ++ Obs (RemoveArtifactExact f) d :: post →
  removal_ok revalidator plan (ghost_of pre) f.
Proof. intros Hr Htr. by apply (execution_event_ok _ _ _ _ _ _ _ _ _ _ Hr Htr). Qed.

(** ** Witnesses *)

(** The machine's run, as a trace and a result of the execution. *)
Lemma example_runs m :
  runs (execute Trusting example_plan example_policy) (example_run m).1.2 (example_run m).2.
Proof. apply run_runs. Qed.

Lemma split_at {A} (l : list A) n x : l !! n = Some x → l = take n l ++ x :: drop (S n) l.
Proof. intros Hx. symmetry. by apply take_drop_middle. Qed.

Lemma every_signal_authorised_witness :
  machine_trace !! 9 = Some (Obs (SignalExact (example_identity 10) Term) Delivered) ∧
  signal_ok Trusting example_plan (ghost_of (take 9 machine_trace)) (example_identity 10) Term.
Proof.
  split; [vm_compute; reflexivity|].
  eapply (every_signal_authorised Trusting example_plan example_policy);
    [apply (example_runs example_machine)|apply (split_at machine_trace 9)].
  vm_compute. reflexivity.
Defined.

Lemma example_plan_wf : plan_wf example_plan.
Proof.
  split; simpl; try done.
  - apply (bool_decide_eq_true_1 _). vm_compute. reflexivity.
  - repeat constructor; eauto.
  - eexists. split; [by left|done].
  - split; [lia|]. by repeat constructor.
Qed.

Lemma kill_follows_term_witness :
  machine_trace !! 39 = Some (Obs (SignalExact (example_identity 11) Kill) Delivered) ∧
  ∃ a, a ∈ g_actions (ghost_of (take 39 machine_trace)) ∧ action_pid a = 11%N ∧
    action_identity_fingerprint a = fingerprint_process_identity (example_identity 11) ∧
    action_signal a = Term ∧
    (action_disposition a = Delivered ∨ action_disposition a = AlreadyExited).
Proof.
  split; [vm_compute; reflexivity|].
  eapply (kill_follows_term Trusting example_plan example_policy machine_trace _
            (take 39 machine_trace) (example_identity 11));
    [apply example_plan_wf|apply (example_runs example_machine)|
     apply (split_at machine_trace 39)].
  vm_compute. reflexivity.
Defined.

Lemma journal_protocol_witness :
  nothing_open (ghost_of machine_trace).
Proof.
  pose proof (journal_protocol Trusting example_plan example_policy machine_trace _
                (example_runs example_machine)) as (_ & _ & Hend).
  vm_compute in Hend. vm_compute. exact Hend.
Defined.

Lemma receipt_is_the_journal_witness :
  actions (execution_receipt (example_run example_machine).2) =
    g_actions (ghost_of machine_trace) ∧
  length (g_actions (ghost_of machine_trace)) = 3.
Proof.
  split; [|vm_compute; reflexivity].
  apply (receipt_is_the_journal Trusting example_plan example_policy machine_trace _
           (example_runs example_machine)).
Defined.

Lemma stop_is_final_witness :
  stopped_trace !! 8 = Some (Obs ShouldStop true) ∧
  ∀ X (e : CleanupE X) x, Obs e x ∈ drop 9 stopped_trace → acts e = false.
Proof.
  split; [vm_compute; reflexivity|].
  apply (stop_is_final Trusting example_plan example_policy stopped_trace _
           (take 8 stopped_trace) (Obs ShouldStop true) (drop 9 stopped_trace)
           (example_runs (stopping_machine 3))); [|reflexivity].
  apply split_at. vm_compute. reflexivity.
Defined.

Lemma cleared_is_proved_witness :
  cleared_proof Trusting example_plan (revival_windows example_policy)
    (ghost_of machine_trace) machine_receipt.
Proof.
  apply (cleared_is_proved Trusting example_plan example_policy); [|vm_compute; reflexivity].
  replace (Ok machine_receipt) with (example_run example_machine).2
    by (vm_compute; reflexivity).
  apply example_runs.
Defined.

Lemma every_removal_authorised_witness :
  machine_trace !! 62 = Some (Obs (RemoveArtifactExact example_file) Removed) ∧
  removal_ok Trusting example_plan (ghost_of (take 62 machine_trace)) example_file.
Proof.
  split; [vm_compute; reflexivity|].
  eapply (every_removal_authorised Trusting example_plan example_policy);
    [apply (example_runs example_machine)|apply (split_at machine_trace 62)].
  vm_compute. reflexivity.
Defined.
