(* ===== verification/ExecutorBounds.v ===== *)
(** ExecutorBounds: how many signals [CleanupExecutor::execute] sends, and in
    which order.

    [emits] is a post-condition on the deliveries of a program's traces; it is
    composed along [bind] like the program. A program that sends no signal is
    [quiet]. *)

From S2P Require Import Prelude Text Model Fingerprint Artifact Evidence Cleanup Effects.
From S2P Require Import Executor ExecutorSafety ExecutorGuarantees.

(** ** Deliveries of a program *)

(** Every trace of [p] with result [x] has deliveries [l] such that [Q l x]. *)
Definition emits {A} (p : prog CleanupE A) (Q : list (N * CleanupSignal) → A → Prop) : Prop :=
  ∀ tr x, runs p tr x → Q (deliveries tr) x.

Definition quiet {A} (p : prog CleanupE A) : Prop := emits p (λ l _, l = []).

(** The same signal to several PIDs. *)
Definition to_all (s : CleanupSignal) (pids : list N) : list (N * CleanupSignal) :=
  (λ pid, (pid, s)) <$> pids.

(** A loop sends one signal at most once to each of the PIDs [allowed], to none of
    [before], and remembers in [attempted] whom it was sent to. *)
Definition sent_once (allowed : list N) (s : CleanupSignal) (before : gset N)
    (l : list (N * CleanupSignal)) (attempted : option (gset N)) : Prop :=
  ∃ pids, l = to_all s pids ∧ NoDup pids ∧ pids ⊆ allowed ∧
    (∀ p, p ∈ pids → p ∉ before) ∧
    match attempted with
    | Some after => before ⊆ after ∧ ∀ p, p ∈ pids → p ∈ after
    | None => True
    end.

(** The order of the signals: the TERMs of primary targets, the TERMs of the other
    members, then KILLs, none of them twice to a PID. *)
Definition signal_order (plan : CleanupPlan) (l : list (N * CleanupSignal)) : Prop :=
  ∃ primary members kills,
    l = to_all Term (primary ++ members) ++ to_all Kill kills ∧
    NoDup (primary ++ members) ∧ NoDup kills ∧
    primary ⊆ (target_pid <$> primary_targets plan) ∧
    members ⊆ (target_pid <$> plan_targets plan) ∧
    kills ⊆ (target_pid <$> plan_targets plan).

(** ** Lemmas: composition *)

Lemma deliveries_app tr1 tr2 : deliveries (tr1 ++ tr2) = deliveries tr1 ++ deliveries tr2.
Proof. apply omap_app. Qed.

Lemma emits_ret {A} (x : A) (Q : list (N * CleanupSignal) → A → Prop) :
  Q [] x → emits (Ret x) Q.
Proof. by intros HQ tr y [-> ->]. Qed.

Lemma emits_mono {A} (p : prog CleanupE A) (P Q : list (N * CleanupSignal) → A → Prop) :
  (∀ l x, P l x → Q l x) → emits p P → emits p Q.
Proof. intros HPQ Hp tr x Hr. by apply HPQ, Hp. Qed.

Lemma emits_bind {A B} (p : prog CleanupE A) (k : A → prog CleanupE B) P Q :
  emits p P → (∀ l x, P l x → emits (k x) (λ l' y, Q (l ++ l') y)) → emits (bind p k) Q.
Proof.
  intros Hp Hk tr y (tr1 & tr2 & x & -> & H1 & H2)%runs_bind_inv.
  rewrite deliveries_app. by eapply Hk; [apply Hp|].
Qed.

Lemma emits_quiet_bind {A B} (p : prog CleanupE A) (k : A → prog CleanupE B) Q :
  quiet p → (∀ x, emits (k x) Q) → emits (bind p k) Q.
Proof. intros Hp Hk. eapply emits_bind; [exact Hp|]. intros l x ->. apply Hk. Qed.

Lemma quiet_emits {A} (p : prog CleanupE A) (Q : list (N * CleanupSignal) → A → Prop) :
  quiet p → (∀ x, Q [] x) → emits p Q.
Proof. intros Hp HQ tr x Hr. rewrite (Hp tr x Hr). apply HQ. Qed.

Lemma quiet_trigger {X} (e : CleanupE X) :
  (match e with SignalExact _ _ => False | _ => True end) → quiet (trigger e).
Proof. intros He tr x (y & tr' & -> & -> & ->). by destruct e. Qed.

Lemma quiet_ret {A} (x : A) : quiet (Ret x).
Proof. by apply emits_ret. Qed.

Lemma quiet_bind {A B} (p : prog CleanupE A) (k : A → prog CleanupE B) :
  quiet p → (∀ x, quiet (k x)) → quiet (bind p k).
Proof. apply emits_quiet_bind. Qed.

Lemma quiet_vis {A X} (e : CleanupE X) (k : X → prog CleanupE A) :
  (match e with SignalExact _ _ => False | _ => True end) → (∀ x, quiet (k x)) →
  quiet (Vis e k).
Proof. intros He Hk. by apply (quiet_bind (trigger e)); [apply quiet_trigger|]. Qed.

Create HintDb quiet.

(** A program without a signal, along its control flow. *)
Ltac quiet_tac :=
  repeat first
    [ apply quiet_ret
    | apply quiet_trigger; exact I
    | solve [eauto with quiet]
    | apply quiet_vis; [exact I|intros ?]
    | apply quiet_bind; [|intros ?]
    | case_match ].

Lemma quiet_or_terminal {X} (e : CleanupE (result X RuntimeFailure)) r :
  (match e with SignalExact _ _ => False | _ => True end) → quiet (or_terminal e r).
Proof. intros He. apply emits_quiet_bind; [by apply quiet_trigger|]. intros x. by apply emits_ret. Qed.

Lemma quiet_complete_prepared r i id d : quiet (complete_prepared r i id d).
Proof. unfold complete_prepared, or_open. quiet_tac. Qed.

#[export] Hint Resolve quiet_complete_prepared : quiet.
#[export] Hint Extern 1 (quiet (or_terminal _ _)) => apply quiet_or_terminal; exact I : quiet.

Lemma quiet_complete_artifact_prepared r i id d : quiet (complete_artifact_prepared r i id d).
Proof. unfold complete_artifact_prepared, or_open. quiet_tac. Qed.

Lemma quiet_wait_or_drain d r pids : quiet (wait_or_drain d r pids).
Proof. unfold wait_or_drain, wait_interrupted. quiet_tac. Qed.

Lemma quiet_observe_targets index ts : ∀ live missing, quiet (observe_targets index ts live missing).
Proof. induction ts as [|t ts IH]; intros live missing; simpl; quiet_tac. Qed.

#[export] Hint Resolve quiet_complete_artifact_prepared quiet_wait_or_drain : quiet.
#[export] Hint Extern 1 (quiet (observe_exact_target_liveness _ _)) =>
  apply quiet_observe_targets : quiet.

Lemma quiet_freeze_artifacts r cs : quiet (freeze_artifacts r cs).
Proof. induction cs as [|c cs IH]; simpl; quiet_tac. Qed.

Lemma quiet_execute_artifact_action r c f : quiet (execute_artifact_action r c f).
Proof. unfold execute_artifact_action. quiet_tac. Qed.

#[export] Hint Resolve quiet_freeze_artifacts quiet_execute_artifact_action : quiet.

Lemma quiet_artifact_loop fs : ∀ r, quiet (artifact_loop r fs).
Proof. induction fs as [|[c f] fs IH]; intros r; simpl; quiet_tac. Qed.

#[export] Hint Resolve quiet_artifact_loop : quiet.

Section Stages.
Context {V : Type} `{!IncidentRevalidator V} (revalidator : V) (plan : CleanupPlan).

Lemma quiet_validate_stage s : quiet (validate_stage revalidator plan s).
Proof. unfold validate_stage. quiet_tac. Qed.

#[local] Hint Resolve quiet_validate_stage : quiet.

Lemma quiet_revalidated_survivors r : quiet (revalidated_survivors revalidator plan r).
Proof. unfold revalidated_survivors, snapshot_or_receipt_error. quiet_tac. Qed.

Lemma quiet_revival_loop ws : ∀ r seen, quiet (revival_loop revalidator plan r seen ws).
Proof.
  induction ws as [|w ws IH]; intros r seen; simpl; unfold snapshot_or_receipt_error; quiet_tac.
Qed.

Lemma quiet_prove_gone r s why : quiet (prove_gone revalidator plan r s why).
Proof. unfold prove_gone. quiet_tac. Qed.

#[local] Hint Resolve quiet_prove_gone : quiet.

Lemma quiet_terminal_stage r seen : quiet (terminal_stage revalidator plan r seen).
Proof. unfold terminal_stage, snapshot_or_receipt_error. quiet_tac. Qed.

Lemma quiet_post_artifact_stage r : quiet (post_artifact_stage revalidator plan r).
Proof. unfold post_artifact_stage, snapshot_or_receipt_error. quiet_tac. Qed.

Lemma quiet_opening_stage : quiet (opening_stage revalidator plan).
Proof. unfold opening_stage, snapshot_or_receipt_error. quiet_tac. Qed.

(** A signal call delivers at most its own signal, once. *)
Lemma emits_signal r t stage s :
  emits (signal revalidator plan r t stage s) (λ l _, l = [] ∨ l = [(target_pid t, s)]).
Proof.
  unfold signal. cbv zeta.
  repeat first
    [ apply quiet_emits; [|by left]; solve [quiet_tac]
    | apply emits_quiet_bind; [solve [quiet_tac]|intros ?]
    | case_match ].
  eapply emits_bind with (P := λ l _, l = [(target_pid t, s)]).
  - intros tr d (y & tr' & -> & -> & ->). done.
  - intros l d ->. apply quiet_emits; [quiet_tac|]. by right.
Qed.

(** What a loop remembers when it goes on. *)
Definition remembered {A} (after : A → option (gset N)) (x : result (flow A) CleanupError) :
    option (gset N) :=
  match x with Ok (Continue a) => after a | _ => None end.

(** A loop that sends [s] to [t] and goes on with the PIDs [rest]. *)
Lemma emits_loop_step {A} (r : CleanupReceipt) t allowed rest stage s before survivors
    (k : CleanupReceipt → cleanup (flow A)) (after : A → option (gset N)) :
  target_pid t ∈ allowed → target_pid t ∉ rest → rest ⊆ allowed → target_pid t ∉ before →
  (∀ r', emits (k r') (λ l x,
     sent_once rest s ({[target_pid t]} ∪ before) l (remembered after x))) →
  emits
    (do? signalled := signal revalidator plan r t stage s in
     match signalled with
     | (r, Some reason) => Ret (Ok (Return (fail r reason survivors)))
     | (r, None) => k r
     end)
    (λ l x, sent_once allowed s before l (remembered after x)).
Proof.
  intros Hin Hnin Hsub Hbefore Hk.
  eapply emits_bind; [apply emits_signal|]. intros l x Hl.
  assert (Hstop : sent_once allowed s before l None).
  { destruct Hl as [->| ->]; [exists []|exists [target_pid t]]; split_and!; try done;
      first [apply NoDup_nil_2|apply NoDup_singleton|set_solver]. }
  destruct x as [[r' [reason|]]|e]; try (apply emits_ret; by rewrite app_nil_r).
  eapply emits_mono; [|apply Hk]. intros l' y (pids & -> & Hpnd & Hpids & Hout & Hafter).
  assert (Hrest : ∀ q, q ∈ pids → q ∉ before ∧ q ≠ target_pid t) by set_solver.
  destruct Hl as [->| ->]; [exists pids|exists (target_pid t :: pids)].
  - split_and!; [done|done|set_solver|naive_solver|].
    destruct (remembered after y); [set_solver|done].
  - split_and!; [done| |set_solver|set_solver|].
    + apply NoDup_cons. split; [|done]. intros Hp. by destruct (Hrest _ Hp).
    + destruct (remembered after y); [set_solver|done].
Qed.

Lemma sent_once_weaken allowed rest s before l o :
  rest ⊆ allowed → sent_once rest s before l o → sent_once allowed s before l o.
Proof. intros Hsub (pids & ? & ? & ? & ? & ?). exists pids. split_and!; try done. set_solver. Qed.

Lemma sent_once_nil allowed s before : sent_once allowed s before [] (Some before).
Proof. exists []. split_and!; try done; first [apply NoDup_nil_2|set_solver]. Qed.

Lemma emits_primary_term_loop live pids ts : ∀ r attempted,
  NoDup (target_pid <$> ts) → (∀ p, p ∈ target_pid <$> ts → p ∉ attempted) →
  emits (primary_term_loop revalidator plan live pids r attempted ts) (λ l x,
    sent_once (filter (.∈ pids) (target_pid <$> ts)) Term attempted l
      (remembered (λ x, Some x.2) x)).
Proof.
  induction ts as [|t ts IH]; intros r attempted Hnd Hfresh.
  { apply emits_ret, sent_once_nil. }
  apply NoDup_cons in Hnd as [Hnin Hnd]. cbn [primary_term_loop].
  assert (Hsub : filter (.∈ pids) (target_pid <$> ts) ⊆ filter (.∈ pids) (target_pid <$> t :: ts)).
  { intros p. rewrite !list_elem_of_filter. set_solver. }
  destruct (_ && _) eqn:Hg; bool_facts.
  - eapply (emits_loop_step _ _ _ (filter (.∈ pids) (target_pid <$> ts))); [| |done| |].
    + apply list_elem_of_filter. split; [done|]. by left.
    + intros [_ Hin]%list_elem_of_filter. done.
    + apply Hfresh. by left.
    + intros r'. apply IH; [done|]. intros p Hp. rewrite not_elem_of_union.
      split; [|apply Hfresh; by right]. set_solver.
  - eapply emits_mono; [intros l x; apply sent_once_weaken, Hsub|].
    apply IH; [done|]. intros p Hp. apply Hfresh. by right.
Qed.

Lemma emits_member_term_loop live ts : ∀ r attempted,
  NoDup (target_pid <$> ts) →
  emits (member_term_loop revalidator plan live r attempted ts) (λ l x,
    sent_once (target_pid <$> ts) Term attempted l (remembered (λ x, Some x.2) x)).
Proof.
  induction ts as [|t ts IH]; intros r attempted Hnd.
  { apply emits_ret, sent_once_nil. }
  apply NoDup_cons in Hnd as [Hnin Hnd]. cbn [member_term_loop].
  destruct (_ && _) eqn:Hg; bool_facts.
  - eapply (emits_loop_step _ _ _ (target_pid <$> ts)); [by left|done|set_solver|done|].
    intros r'. by apply IH.
  - eapply emits_mono; [intros l x; apply (sent_once_weaken _ (target_pid <$> ts)); set_solver|].
    by apply IH.
Qed.

Lemma emits_exact_kill_loop live attempted ts : ∀ r before,
  NoDup (target_pid <$> ts) → (∀ p, p ∈ target_pid <$> ts → p ∉ before) →
  emits (exact_kill_loop revalidator plan live attempted r ts) (λ l x,
    sent_once (target_pid <$> ts) Kill before l None).
Proof.
  induction ts as [|t ts IH]; intros r before Hnd Hfresh.
  { apply emits_ret. exists []. split_and!; try done; first [apply NoDup_nil_2|set_solver]. }
  apply NoDup_cons in Hnd as [Hnin Hnd]. cbn [exact_kill_loop].
  assert (Hskip : ∀ r, emits (exact_kill_loop revalidator plan live attempted r ts) (λ l x,
    sent_once (target_pid <$> t :: ts) Kill before l None)).
  { intros r'. eapply emits_mono;
      [intros l x; apply (sent_once_weaken _ (target_pid <$> ts)); set_solver|].
    apply IH; [done|]. intros p Hp. apply Hfresh. by right. }
  destruct (bool_decide _); [|apply Hskip]. destruct (negb _).
  { apply emits_ret. exists []. split_and!; try done; first [apply NoDup_nil_2|set_solver]. }
  eapply emits_mono; [|eapply (emits_loop_step _ t (target_pid <$> t :: ts) (target_pid <$> ts)
    _ _ before _ _ (λ _, None)); [by left|done|set_solver|apply Hfresh; by left|]].
  - intros l [[r'|a]|e]; done.
  - intros r'. eapply emits_mono; [|apply (IH _ ({[target_pid t]} ∪ before) Hnd)].
    + intros l [[r''|a]|e]; done.
    + intros p Hp. specialize (Hfresh p). set_solver.
Qed.

#[local] Hint Resolve quiet_revalidated_survivors quiet_revival_loop quiet_terminal_stage
  quiet_post_artifact_stage quiet_opening_stage : quiet.

(** The end of a TERM stage: it sends nothing and keeps the attempts. *)
Lemma emits_settle grace r pids (attempted : gset N) :
  emits
    (do! _ := wait_or_drain grace r pids in
     do! live := revalidated_survivors revalidator plan r in
     Ret (Ok (Continue (r, live, attempted))))
    (λ l x, l = [] ∧ match x with Ok (Continue y) => y.2 = attempted | _ => True end).
Proof.
  apply emits_quiet_bind; [apply quiet_wait_or_drain|]. intros [[?|?]|?]; try by apply emits_ret.
  apply emits_quiet_bind; [apply quiet_revalidated_survivors|].
  by intros [[?|?]|?]; apply emits_ret.
Qed.

(** A TERM stage sends what its loop sends. *)
Lemma emits_term_stage allowed before grace pids
    (loop : cleanup (flow (CleanupReceipt * gset N))) :
  emits loop (λ l x, sent_once allowed Term before l (remembered (λ x, Some x.2) x)) →
  emits
    (do! signalled := loop in
     let '(r, attempted) := signalled in
     do! _ := wait_or_drain grace r pids in
     do! live := revalidated_survivors revalidator plan r in
     Ret (Ok (Continue (r, live, attempted))))
    (λ l x, sent_once allowed Term before l (remembered (λ x, Some x.2) x)).
Proof.
  intros Hloop. eapply emits_bind; [exact Hloop|]. intros l x Hl.
  assert (Hstop : sent_once allowed Term before l None).
  { destruct Hl as (ps & ? & ? & ? & ? & _). by exists ps. }
  destruct x as [[r|[r attempted]]|e]; try (apply emits_ret; by rewrite app_nil_r).
  eapply emits_mono; [|apply emits_settle]. intros l' y [-> Hy]. rewrite app_nil_r.
  destruct y as [[?|y]|?]; try done. simpl in *. by rewrite Hy.
Qed.

Lemma emits_primary_stage policy r live :
  NoDup (target_pid <$> plan_targets plan) →
  emits (primary_stage revalidator plan policy r live ∅) (λ l x,
    sent_once (target_pid <$> primary_targets plan) Term ∅ l (remembered (λ x, Some x.2) x)).
Proof.
  intros Hnd. unfold primary_stage. destruct (bool_decide _); [apply emits_ret, sent_once_nil|].
  apply emits_term_stage. eapply emits_mono; [|by apply emits_primary_term_loop; [|set_solver]].
  intros l x. apply sent_once_weaken. intros p [Hp _]%list_elem_of_filter.
  by apply elem_of_list_to_set in Hp.
Qed.

Lemma emits_member_stage policy r live attempted :
  NoDup (target_pid <$> plan_targets plan) →
  emits (member_stage revalidator plan policy r live attempted) (λ l x,
    sent_once (target_pid <$> plan_targets plan) Term attempted l
      (remembered (λ x, Some x.2) x)).
Proof.
  intros Hnd. unfold member_stage. destruct (bool_decide _); [apply emits_ret, sent_once_nil|].
  apply emits_term_stage. by apply emits_member_term_loop.
Qed.

Lemma emits_kill_stage policy r live attempted :
  NoDup (target_pid <$> plan_targets plan) →
  emits (kill_stage revalidator plan policy r live attempted) (λ l _,
    sent_once (target_pid <$> plan_targets plan) Kill ∅ l None).
Proof.
  intros Hnd. unfold kill_stage. destruct (bool_decide _).
  { apply emits_ret. exists []. split_and!; try done; first [apply NoDup_nil_2|set_solver]. }
  eapply emits_bind; [by apply (emits_exact_kill_loop _ _ _ _ ∅)|].
  intros l x Hl. apply quiet_emits; [|by rewrite app_nil_r].
  unfold snapshot_or_receipt_error. quiet_tac.
Qed.

Lemma sent_once_remember allowed s before l o :
  sent_once allowed s before l o → ∃ after, sent_once allowed s before l (Some after).
Proof.
  intros (pids & ? & ? & ? & ? & _). exists (before ∪ list_to_set pids), pids.
  split_and!; try done; set_solver.
Qed.

Lemma signal_order_intro attempted l1 l2 l3 o :
  sent_once (target_pid <$> primary_targets plan) Term ∅ l1 (Some attempted) →
  sent_once (target_pid <$> plan_targets plan) Term attempted l2 o →
  sent_once (target_pid <$> plan_targets plan) Kill ∅ l3 None →
  signal_order plan (l1 ++ l2 ++ l3).
Proof.
  intros (ps & -> & Hps & Hsub1 & _ & _ & Hatt) (ms & -> & Hms & Hsub2 & Hnew & _)
    (ks & -> & Hks & Hsub3 & _).
  exists ps, ms, ks. split_and!; try done.
  - unfold to_all. by rewrite fmap_app, (assoc_L (++)).
  - apply NoDup_app. split_and!; [done|set_solver|done].
Qed.

Lemma sent_once_none allowed s before : sent_once allowed s before [] None.
Proof. exists []. split_and!; try done; first [apply NoDup_nil_2|set_solver]. Qed.

Lemma emits_stages policy :
  NoDup (target_pid <$> plan_targets plan) →
  emits (stages revalidator plan policy) (λ l _, signal_order plan l).
Proof.
  intros Hnd. unfold stages. apply emits_quiet_bind; [apply quiet_opening_stage|].
  assert (Hnil : signal_order plan []).
  { by apply (signal_order_intro ∅ [] [] [] None);
      [apply sent_once_nil|apply sent_once_none|apply sent_once_none]. }
  intros [[?|[[r live] frozen]]|?]; try by apply emits_ret.
  eapply emits_bind; [by apply emits_primary_stage|]. intros l1 x1 H1.
  assert (Hstop1 : signal_order plan (l1 ++ [])).
  { apply sent_once_remember in H1 as [after H1].
    by apply (signal_order_intro after l1 [] [] None);
      [|apply sent_once_none|apply sent_once_none]. }
  destruct x1 as [[?|[[r1 live1] att1]]|?]; try by apply emits_ret.
  eapply emits_bind; [by apply emits_member_stage|]. intros l2 x2 H2. simpl in H1.
  pose proof (signal_order_intro _ _ _ _ _ H1 H2 (sent_once_none _ _ _)) as Hstop2.
  destruct x2 as [[?|[[r2 live2] att2]]|?]; try by apply emits_ret.
  eapply emits_bind; [by apply emits_kill_stage|]. intros l3 x3 H3.
  pose proof (signal_order_intro _ _ _ _ _ H1 H2 H3) as Hdone.
  apply quiet_emits; [|intros _; by rewrite app_nil_r]. quiet_tac.
Qed.

Lemma emits_execute policy :
  NoDup (target_pid <$> plan_targets plan) →
  emits (execute revalidator plan policy) (λ l _, signal_order plan l).
Proof.
  intros Hnd. unfold execute. eapply emits_bind; [by apply emits_stages|].
  intros l x Hl. apply quiet_emits; [quiet_tac|]. by rewrite app_nil_r.
Qed.
End Stages.

(** ** Properties *)

(** [C40] Signals are bounded and ordered: in a plan with distinct PIDs an execution
    sends TERM to primary targets, then TERM to other members, then KILL; no
    target gets TERM or KILL twice, so that it sends at most two signals per
    target, whatever the environment answers. *)
Theorem signals_bounded_and_ordered `{!IncidentRevalidator V} (revalidator : V) plan policy
    tr res :
  NoDup (target_pid <$> plan_targets plan) →
  runs (execute revalidator plan policy) tr res →
  signal_order plan (deliveries tr) ∧ NoDup (deliveries tr) ∧
  length (deliveries tr) ≤ 2 * length (plan_targets plan).
Proof.
  intros Hnd Hr. pose proof (emits_execute revalidator plan policy Hnd _ _ Hr) as Hl.
  split; [done|]. destruct Hl as (ps & ms & ks & -> & Hterms & Hkills & Hps & Hms & Hks).
  split.
  - apply NoDup_app. split_and!; [by apply NoDup_fmap_2_strong; [naive_solver|]| |
      by apply NoDup_fmap_2_strong; [naive_solver|]].
    intros [p s] (? & [= -> ->] & _)%list_elem_of_fmap (? & [=] & _)%list_elem_of_fmap.
  - assert (Hbound : ∀ l, NoDup l → l ⊆ (target_pid <$> plan_targets plan) →
      length l ≤ length (plan_targets plan)).
    { intros l Hl Hsub. rewrite <-(length_fmap target_pid (plan_targets plan)).
      by apply submseteq_length, NoDup_submseteq. }
    assert (Hprim : ps ⊆ (target_pid <$> plan_targets plan)).
    { intros p (t & -> & [Ht _]%elem_of_primary_targets)%Hps%list_elem_of_fmap.
      by apply list_elem_of_fmap_2. }
    pose proof (Hbound _ Hterms ltac:(set_solver)) as H1. pose proof (Hbound _ Hkills Hks) as H2.
    unfold to_all. rewrite length_app, !length_fmap. lia.
Qed.

(** ** Witnesses *)

Lemma signals_bounded_and_ordered_witness :
  deliveries machine_trace = [(10%N, Term); (11%N, Term); (11%N, Kill)] ∧
  NoDup (deliveries machine_trace).
Proof.
  split; [vm_compute; reflexivity|].
  apply (signals_bounded_and_ordered Trusting example_plan example_policy machine_trace
           (example_run example_machine).2); [|apply (example_runs example_machine)].
  apply (bool_decide_eq_true_1 _). vm_compute. reflexivity.
Defined.
