(* ===== verification/Pack.v ===== *)
(** Pack: signature packs and browser version gates of
    [unlinger-rules/src/lib.rs].

    A pack is data deserialized by the [toml] crate, which is a parameter of
    [RuleSet_embedded]; everything after the deserialization is translated. *)

From S2P Require Import Prelude Text Model Task Evidence.
From Stdlib Require Import Ascii.

Definition STANDARD_PROFILE_MARKERS : list string :=
  ["/library/application support/google/chrome";
   "/library/application support/chromium";
   "/library/application support/microsoft edge"].

Definition HEADLESS_MARKERS : list string :=
  ["--headless"; "--headless=new"; "--headless=old"].

Definition TRANSPORT_MARKERS : list string :=
  ["--remote-debugging-pipe"; "--remote-debugging-port"].

Definition MINIMUM_CANDIDATE_AGE_MICROS : N := 60 * 1000000.

(** ** Packs *)

Inductive GracefulStrategy : Type := OsTermOnly.

Inductive VersionPolicy : Type :=
| Observational
| ExactAllowlist (bundle : string) (versions : list string)
| BoundedRange (bundle minimum_inclusive maximum_inclusive : string).

Record ArtifactPolicy : Type := mkArtifactPolicy {
  policy_devtools_active_port : bool;
}.

Record SignaturePack : Type := mkSignaturePack {
  schema_version : N;
  pack_id : string;
  pack_version : string;
  supported_versions : string;
  task_controller_version : option string;
  session_owner_controller_version : option string;
  controller_markers : list string;
  framework_markers : list string;
  ephemeral_profile_markers : list string;
  browser_executable_markers : list string;
  recorder_executable_basenames : list string;
  graceful_strategy : GracefulStrategy;
  version_policy : VersionPolicy;
  artifact_policy : ArtifactPolicy;
}.

Inductive RuleError : Type :=
| ParseError (message : string)
| InvalidPack (message : string)
| InvalidGraph (message : string).

(** ** Versions *)

(** One component of a dotted version: non-empty ASCII digits in [u64]. *)
Definition parse_component (piece : string) : option N :=
  if negb (is_empty piece) && all_bytes is_ascii_digit piece
  then parse_u64_digits piece else None.

(** The loop [while parsed.len() > 1 && parsed.last() == Some(&0) { parsed.pop() }],
    on the reversed list. *)
Fixpoint pop_zeros (rev : list N) : list N :=
  match rev with
  | [] => []
  | [x] => [x]
  | x :: rest => if bool_decide (x = 0%N) then pop_zeros rest else rev
  end.

(** [parse_dotted_version]. *)
Definition parse_dotted_version (value : string) : option (list N) :=
  if is_empty value || bool_decide (64 < String.length value) then None else
  let pieces := split_byte "."%char value in
  if bool_decide (pieces = []) || bool_decide (8 < length pieces) then None else
  parsed ← mapM parse_component pieces;
  Some (reverse (pop_zeros (reverse parsed))).

(** [<=] of [Vec<u64>]: lexicographic, a prefix first. *)
Fixpoint version_le (a b : list N) : bool :=
  match a, b with
  | [], _ => true
  | _ :: _, [] => false
  | x :: a, y :: b => (x <? y)%N || ((x =? y)%N && version_le a b)
  end.

(** ** Validation *)

(** [validate_bundle_id]. *)
Definition validate_bundle_id (id bundle : string) : result unit RuleError :=
  if is_empty bundle || bool_decide (192 < String.length bundle)
     || negb (bool_decide (trim bundle = bundle)) || negb (contains "." bundle)
  then Err (InvalidPack (id +:+ " contains an invalid bundle id")) else Ok tt.

(** The version loop of an exact allowlist. *)
Fixpoint validate_exact_versions (id : string) (unique : gset string) (versions : list string) :
    result unit RuleError :=
  match versions with
  | [] => Ok tt
  | version :: versions =>
      let? _ := ok_or (parse_dotted_version version)
                  (InvalidPack (id +:+ " contains an invalid exact version")) in
      if bool_decide (version ∈ unique)
      then Err (InvalidPack (id +:+ " contains a duplicate exact version"))
      else validate_exact_versions id ({[version]} ∪ unique) versions
  end.

(** [VersionPolicy::validate]. *)
Definition validate_version_policy (id : string) (policy : VersionPolicy) :
    result unit RuleError :=
  match policy with
  | Observational => Ok tt
  | ExactAllowlist bundle versions =>
      let? _ := validate_bundle_id id bundle in
      guard? negb (bool_decide (versions = []))
        else InvalidPack (id +:+ " exact version allowlist is empty") in
      validate_exact_versions id ∅ versions
  | BoundedRange bundle minimum_inclusive maximum_inclusive =>
      let? _ := validate_bundle_id id bundle in
      let? minimum := ok_or (parse_dotted_version minimum_inclusive)
                        (InvalidPack (id +:+ " contains an invalid minimum version")) in
      let? maximum := ok_or (parse_dotted_version maximum_inclusive)
                        (InvalidPack (id +:+ " contains an invalid maximum version")) in
      guard? version_le minimum maximum
        else InvalidPack (id +:+ " version range is reversed") in
      Ok tt
  end.

(** The controller-version loop of [SignaturePack::validate]. *)
Fixpoint validate_controller_versions (id : string) (versions : list (option string)) :
    result unit RuleError :=
  match versions with
  | [] => Ok tt
  | None :: versions => validate_controller_versions id versions
  | Some version :: versions =>
      if is_empty (trim version)
      then Err (InvalidPack (id +:+ " contains an empty controller version"))
      else validate_controller_versions id versions
  end.

(** The marker loop. *)
Fixpoint validate_markers (id : string) (markers : list string) : result unit RuleError :=
  match markers with
  | [] => Ok tt
  | marker :: markers =>
      if bool_decide (String.length (trim marker) < 4)
      then Err (InvalidPack (id +:+ " contains an unsafe short marker"))
      else validate_markers id markers
  end.

(** The recorder basename loop. *)
Fixpoint validate_recorders (id : string) (names : gset string) (basenames : list string) :
    result unit RuleError :=
  match basenames with
  | [] => Ok tt
  | basename :: basenames =>
      let normalized := to_ascii_lowercase (trim basename) in
      if is_empty normalized || negb (bool_decide (normalized = basename))
         || contains "/" normalized || contains "\" normalized
         || bool_decide (normalized ∈ names)
      then Err (InvalidPack (id +:+ " contains an invalid or duplicate recorder basename"))
      else validate_recorders id ({[normalized]} ∪ names) basenames
  end.

(** [SignaturePack::validate]. *)
Definition validate_pack (p : SignaturePack) : result unit RuleError :=
  guard? bool_decide (schema_version p = 2%N)
    else InvalidPack (pack_id p +:+ " has unsupported schema " +:+ show_N (schema_version p)) in
  guard? negb (is_empty (trim (pack_id p)) || is_empty (trim (pack_version p))
               || is_empty (trim (supported_versions p))
               || bool_decide (controller_markers p = [])
               || bool_decide (framework_markers p = [])
               || bool_decide (ephemeral_profile_markers p = [])
               || bool_decide (browser_executable_markers p = [])
               || bool_decide (recorder_executable_basenames p = []))
    else InvalidPack (pack_id p +:+ " is missing a required field or marker family") in
  let? _ := validate_controller_versions (pack_id p)
              [task_controller_version p; session_owner_controller_version p] in
  let? _ := validate_markers (pack_id p)
              (controller_markers p ++ framework_markers p ++ ephemeral_profile_markers p
               ++ browser_executable_markers p) in
  let? _ := validate_recorders (pack_id p) ∅ (recorder_executable_basenames p) in
  validate_version_policy (pack_id p) (version_policy p).

(** ** Browser version gates *)

Inductive BrowserVersionGate : Type :=
| ExactSupported
| RangeSupported
| GateObservational
| MissingFacts
| MixedFacts
| UnsupportedProduct
| UnsupportedVersion.

#[export] Instance BrowserVersionGate_eq_dec : EqDecision BrowserVersionGate.
Proof. solve_decision. Defined.

(** [BrowserVersionGate::supported]. *)
Definition gate_supported (g : BrowserVersionGate) : bool :=
  match g with ExactSupported | RangeSupported => true | _ => false end.

(** The bundle facts of browser roots that have them. *)
Definition bundle_facts (roots : list ProcessRecord) : list AppBundleVersion :=
  omap (λ p, app_bundle (runtime p)) roots.

(** [evaluate_browser_versions]. With facts for every root and one unique fact
    there is a first one. *)
Definition evaluate_browser_versions (roots : list ProcessRecord) (policy : VersionPolicy) :
    BrowserVersionGate :=
  let facts := bundle_facts roots in
  if negb (bool_decide (length facts = length roots)) then MissingFacts else
  let unique : gset (string * string) :=
    list_to_set ((λ f, (bundle_id f, short_version f)) <$> facts) in
  if negb (bool_decide (size unique = 1)) then MixedFacts else
  match facts with
  | [] => MixedFacts
  | fact :: _ =>
      match policy with
      | Observational => GateObservational
      | ExactAllowlist bundle versions =>
          if negb (bool_decide (bundle_id fact = bundle)) then UnsupportedProduct
          else if bool_decide (short_version fact ∈ versions) then ExactSupported
          else UnsupportedVersion
      | BoundedRange bundle minimum_inclusive maximum_inclusive =>
          if negb (bool_decide (bundle_id fact = bundle)) then UnsupportedProduct else
          match parse_dotted_version (short_version fact),
                parse_dotted_version minimum_inclusive,
                parse_dotted_version maximum_inclusive with
          | Some version, Some minimum, Some maximum =>
              if version_le minimum version && version_le version maximum
              then RangeSupported else UnsupportedVersion
          | _, _, _ => UnsupportedVersion
          end
      end
  end.

(** [browser_product]. *)
Definition browser_product (bundle : string) : BrowserProduct :=
  let bundle := to_ascii_lowercase bundle in
  if bool_decide (bundle = "com.google.chrome.for.testing") then ChromeForTesting
  else if bool_decide (bundle = "org.chromium.chromium") then Chromium
  else if bool_decide (bundle = "com.google.chrome") then GoogleChrome
  else OtherProduct.

(** The decision part of [browser_compatibility]. *)
Definition compatibility_decision (gate : option BrowserVersionGate)
    (unverified_controller_reason : option string) (control_path_incomplete : bool) :
    BrowserCompatibilityDecision * option string :=
  match gate with
  | Some MixedFacts => (DecisionProtected, Some "protection.browser_version_mixed")
  | Some UnsupportedProduct => (DecisionProtected, Some "protection.browser_product_unsupported")
  | Some UnsupportedVersion => (DecisionProtected, Some "protection.browser_version_unsupported")
  | Some MissingFacts => (DecisionUnknown, Some "protection.browser_version_missing")
  | Some GateObservational =>
      (DecisionObserveOnly, Some "protection.version_observational_only")
  | Some (ExactSupported | RangeSupported) =>
      if bool_decide (is_Some unverified_controller_reason)
      then (DecisionProtected, unverified_controller_reason)
      else if control_path_incomplete
      then (DecisionProtected, Some "protection.debug_peer_visibility_incomplete")
      else (DecisionAutomatic, None)
  | None => (DecisionUnknown, Some "ambiguity.browser_root_missing")
  end.

(** [browser_compatibility]. *)
Definition browser_compatibility (roots : list ProcessRecord) (gate : option BrowserVersionGate)
    (unverified_controller_reason : option string) (control_path_incomplete : bool) :
    BrowserCompatibility :=
  let facts := bundle_facts roots in
  let bundle_ids : gset string := list_to_set (bundle_id <$> facts) in
  let versions : gset string := list_to_set (short_version <$> facts) in
  let complete := bool_decide (length facts = length roots) in
  let product :=
    match facts with
    | fact :: _ => if complete && bool_decide (size bundle_ids = 1)
                   then browser_product (bundle_id fact) else UnknownProduct
    | [] => UnknownProduct
    end in
  let observed_version :=
    match facts with
    | fact :: _ => if complete && bool_decide (size versions = 1)
                   then Some (short_version fact) else None
    | [] => None
    end in
  let '(decision, reason) :=
    compatibility_decision gate unverified_controller_reason control_path_incomplete in
  mkBrowserCompatibility product observed_version decision reason.

(** [policy_bundle_id]. *)
Definition policy_bundle_id (policy : VersionPolicy) : option string :=
  match policy with
  | Observational => None
  | ExactAllowlist bundle _ | BoundedRange bundle _ _ => Some bundle
  end.

(** [ordinary_cli_session]. *)
Definition ordinary_cli_session (controller : ProcessRecord) : bool :=
  match playwright_cli (runtime controller) with
  | Some cli => bool_decide (task_id_from_session (cli_session_name cli) = None)
  | None => false
  end.

(** [ordinary_controller_version_supported]. *)
Definition ordinary_controller_version_supported (pack : SignaturePack)
    (controller : ProcessRecord) : bool :=
  match playwright_cli (runtime controller) with
  | Some cli => bool_decide (session_owner_controller_version pack = Some (cli_version cli))
  | None => false
  end.

(** [unverified_controller_reason]. *)
Definition unverified_controller_reason (has_controller has_task_binding has_session_owner : bool)
    (controller : ProcessRecord) (pack : SignaturePack) : option string :=
  if negb has_controller || has_task_binding || has_session_owner then None else
  Some (if ordinary_cli_session controller
           && ordinary_controller_version_supported pack controller
        then "protection.ordinary_session_owner_unverified"
        else "protection.controller_version_unverified").

(** ** Candidate age *)

Inductive CandidateAgeGate : Type := AgeEligible | TooYoung | AgeUnknown.

#[export] Instance CandidateAgeGate_eq_dec : EqDecision CandidateAgeGate.
Proof. solve_decision. Defined.

(** [candidate_age_gate]. *)
Definition candidate_age_gate (observed_at_unix_millis started_at_unix_micros : N) :
    CandidateAgeGate :=
  if bool_decide (started_at_unix_micros = 0%N) then AgeUnknown else
  match checked_mul observed_at_unix_millis 1000 with
  | None => AgeUnknown
  | Some observed_at_unix_micros =>
      match checked_sub observed_at_unix_micros started_at_unix_micros with
      | None => AgeUnknown
      | Some age => if bool_decide (age < MINIMUM_CANDIDATE_AGE_MICROS)%N
                    then TooYoung else AgeEligible
      end
  end.

(** ** Rule sets *)

Record RuleSet : Type := mkRuleSet { packs : list SignaturePack }.

Definition pack_le : relation SignaturePack := λ a b, String.le (pack_id a) (pack_id b).

#[export] Instance pack_le_dec : RelDecision pack_le :=
  λ a b, decide (String.le (pack_id a) (pack_id b)).

Section Embedded.
Context (toml_from_str : string → result SignaturePack string).

(** The source loop of [RuleSet::embedded]. *)
Fixpoint load_packs (ids : gset string) (sources : list string) :
    result (list SignaturePack) RuleError :=
  match sources with
  | [] => Ok []
  | source :: sources =>
      let? pack := map_err ParseError (toml_from_str source) in
      let? _ := validate_pack pack in
      guard? negb (bool_decide (pack_id pack ∈ ids))
        else InvalidPack ("duplicate pack id " +:+ pack_id pack) in
      let? rest := load_packs ({[pack_id pack]} ∪ ids) sources in
      Ok (pack :: rest)
  end.

(** [RuleSet::embedded], for the texts the build embeds. *)
Definition RuleSet_embedded (sources : list string) : result RuleSet RuleError :=
  let? packs := load_packs ∅ sources in
  Ok (mkRuleSet (merge_sort pack_le packs)).
End Embedded.

Inductive BrowserAutomaticActionLevel : Type :=
| LevelAutomatic
| LevelObserveOnly
| LevelUnsupported.

Record BrowserFamilySupport : Type := mkBrowserFamilySupport {
  family : string;
  product : BrowserProduct;
  admitted_versions : list string;
  automatic_action_level : BrowserAutomaticActionLevel;
}.

Record BrowserSupportCatalog : Type := mkBrowserSupportCatalog {
  support_revision : string;
  families : list BrowserFamilySupport;
}.

(** One family of [RuleSet::browser_support_catalog]. *)
Definition family_support (pack : SignaturePack) : BrowserFamilySupport :=
  match version_policy pack with
  | Observational =>
      mkBrowserFamilySupport (pack_id pack) UnknownProduct [] LevelObserveOnly
  | ExactAllowlist bundle versions =>
      mkBrowserFamilySupport (pack_id pack) (browser_product bundle) versions LevelAutomatic
  | BoundedRange bundle minimum_inclusive maximum_inclusive =>
      mkBrowserFamilySupport (pack_id pack) (browser_product bundle)
        [minimum_inclusive +:+ "..=" +:+ maximum_inclusive] LevelAutomatic
  end.

(** [RuleSet::browser_support_catalog]. *)
Definition browser_support_catalog (rules : RuleSet) : BrowserSupportCatalog :=
  mkBrowserSupportCatalog
    ("rules:" +:+ join "|" ((λ p, pack_id p +:+ "@" +:+ pack_version p) <$> packs rules))
    (family_support <$> packs rules).

(** ** The embedded packs

    The contents of [rules/*.toml] as the values their deserialization denotes. *)

Definition chrome_for_testing_policy : VersionPolicy :=
  ExactAllowlist "com.google.chrome.for.testing" ["151.0.7922.34"; "152.0.7977.42"].

Definition agent_browser_pack : SignaturePack :=
  mkSignaturePack 2 "agent-browser" "0.4.0"
    "Chrome for Testing 151.0.7922.34 and 152.0.7977.42 only; controller version remains observational"
    None None ["agent-browser"; "@vercel/agent-browser"] ["agent-browser"; ".agent-browser"]
    ["agent-browser"; ".agent-browser"] ["chrome for testing"; "chromium"; "google chrome"]
    ["ffmpeg"] OsTermOnly chrome_for_testing_policy (mkArtifactPolicy false).

Definition playwright_pack : SignaturePack :=
  mkSignaturePack 2 "playwright" "0.6.0"
    "Chrome for Testing 151.0.7922.34 and 152.0.7977.42 only; task-owned Playwright CLI 1.63.0-alpha-2026-08-31; host-owned ordinary Playwright CLI 1.62.1; other controllers remain observational"
    (Some "1.63.0-alpha-2026-08-31") (Some "1.62.1")
    ["playwright"; "@playwright/mcp"; "playwright-mcp"]
    ["playwright"; "@playwright/mcp"; "ms-playwright"]
    ["playwright_chromiumdev_profile"; "playwright-artifacts"; "ms-playwright"]
    ["chrome for testing"; "chromium"; "google chrome"] ["ffmpeg"] OsTermOnly
    chrome_for_testing_policy (mkArtifactPolicy false).

Definition puppeteer_pack : SignaturePack :=
  mkSignaturePack 2 "puppeteer" "0.4.0"
    "Chrome for Testing 151.0.7922.34 and 152.0.7977.42 only; Puppeteer controller version remains observational"
    None None ["puppeteer"; "@puppeteer/browsers"]
    ["puppeteer"; "@puppeteer/browsers"; "chrome-headless-shell"]
    ["puppeteer_dev_chrome_profile"; "puppeteer"]
    ["chrome-headless-shell"; "chrome for testing"; "chromium"; "google chrome"] ["ffmpeg"]
    OsTermOnly chrome_for_testing_policy (mkArtifactPolicy false).

Definition embedded_packs : list SignaturePack :=
  [agent_browser_pack; playwright_pack; puppeteer_pack].

(** ** Specification *)

(** The versions a policy admits for automatic action. *)
Inductive policy_admits : VersionPolicy → string → string → Prop :=
| Admits_exact bundle versions version :
    version ∈ versions → policy_admits (ExactAllowlist bundle versions) bundle version
| Admits_range bundle minimum maximum version lo v hi :
    parse_dotted_version minimum = Some lo →
    parse_dotted_version version = Some v →
    parse_dotted_version maximum = Some hi →
    version_le lo v = true → version_le v hi = true →
    policy_admits (BoundedRange bundle minimum maximum) bundle version.

(** Every root of a non-empty list carries the same bundle fact. *)
Definition uniform_bundle (roots : list ProcessRecord) (bundle version : string) : Prop :=
  roots ≠ [] ∧ ∀ p, p ∈ roots → app_bundle (runtime p) = Some (mkAppBundleVersion bundle version).

(** ** Lemmas *)

Lemma bundle_facts_cons r roots :
  bundle_facts (r :: roots) =
  match app_bundle (runtime r) with
  | Some f => f :: bundle_facts roots
  | None => bundle_facts roots
  end.
Proof. unfold bundle_facts. simpl. by destruct (app_bundle _). Qed.

Lemma length_bundle_facts roots : length (bundle_facts roots) ≤ length roots.
Proof.
  induction roots as [|r roots IH]; [done|]. rewrite bundle_facts_cons.
  destruct (app_bundle _); simpl; lia.
Qed.

Lemma bundle_facts_complete roots :
  length (bundle_facts roots) = length roots →
  ∀ p, p ∈ roots → is_Some (app_bundle (runtime p)).
Proof.
  induction roots as [|r roots IH]; intros Hlen p Hp; [by apply elem_of_nil in Hp|].
  rewrite bundle_facts_cons in Hlen. pose proof (length_bundle_facts roots).
  destruct (app_bundle (runtime r)) as [f|] eqn:Hf; simpl in Hlen; [|lia].
  apply elem_of_cons in Hp as [->|Hp]; [by rewrite Hf|]. apply IH; [lia|done].
Qed.

Lemma bundle_facts_uniform roots b v :
  uniform_bundle roots b v →
  bundle_facts roots = replicate (length roots) (mkAppBundleVersion b v).
Proof.
  intros [_ Hall]. induction roots as [|r roots IH]; [done|].
  rewrite bundle_facts_cons, (Hall r) by (by left). simpl. f_equal. apply IH. intros p Hp. apply Hall. by right.
Qed.

(** A set made of a list has one element exactly when the list is a repetition. *)
Lemma size_list_to_set_1 {A} `{Countable A} (x : A) l :
  size (list_to_set (x :: l) : gset A) = 1 ↔ ∀ y, y ∈ l → y = x.
Proof.
  split.
  - intros (z & Hz)%size_1_elem_of y Hy.
    assert (y ∈ ({[z]} : gset A)) by (rewrite <-Hz; set_solver).
    assert (x ∈ ({[z]} : gset A)) by (rewrite <-Hz; set_solver). set_solver.
  - intros Hall. replace (list_to_set (x :: l) : gset A) with ({[x]} : gset A);
      [apply size_singleton|]. apply set_eq. set_solver.
Qed.

(** The supported gates, characterised. *)
Lemma evaluate_uniform roots b v policy :
  uniform_bundle roots b v →
  evaluate_browser_versions roots policy =
  match policy with
  | Observational => GateObservational
  | ExactAllowlist bundle versions =>
      if bool_decide (b = bundle)
      then if bool_decide (v ∈ versions) then ExactSupported else UnsupportedVersion
      else UnsupportedProduct
  | BoundedRange bundle lo hi =>
      if bool_decide (b = bundle)
      then match parse_dotted_version v, parse_dotted_version lo, parse_dotted_version hi with
           | Some v, Some lo, Some hi =>
               if version_le lo v && version_le v hi then RangeSupported else UnsupportedVersion
           | _, _, _ => UnsupportedVersion
           end
      else UnsupportedProduct
  end.
Proof.
  intros Hu. unfold evaluate_browser_versions. rewrite (bundle_facts_uniform _ _ _ Hu).
  rewrite bool_decide_true by (by rewrite length_replicate). simpl.
  destruct Hu as [Hne _]. destruct roots as [|r roots]; [done|].
  rewrite bool_decide_true.
  - simpl. destruct policy; simpl; [done|..]; by destruct (bool_decide (b = bundle)).
  - simpl. apply (size_list_to_set_1 (b, v)). intros y. rewrite fmap_replicate. simpl.
    by intros [-> _]%elem_of_replicate.
Qed.

Lemma evaluate_supported_uniform roots policy :
  gate_supported (evaluate_browser_versions roots policy) = true →
  ∃ b v, uniform_bundle roots b v.
Proof.
  unfold evaluate_browser_versions.
  destruct (bool_decide (length _ = length roots)) eqn:Hlen; [|done]. simpl.
  destruct (bool_decide (size _ = 1)) eqn:Hsize; [|done]. simpl. bool_facts.
  destruct (bundle_facts roots) as [|[b v] facts] eqn:Hf; [done|]. intros _. exists b, v.
  split; [by intros ->|]. intros p Hp. rewrite <-Hf in Hlen.
  destruct (bundle_facts_complete _ Hlen p Hp) as [[b' v'] Hp']. rewrite Hp'.
  simpl in Hsize. pose proof (proj1 (size_list_to_set_1 _ _) Hsize) as Huniq.
  assert (Hin : mkAppBundleVersion b' v' ∈ bundle_facts roots).
  { apply list_elem_of_omap. by exists p. }
  rewrite Hf in Hin. apply elem_of_cons in Hin as [[= -> ->]|Hin]; [done|].
  assert (Hin' : (b', v') ∈ (λ f, (bundle_id f, short_version f)) <$> facts).
  { by apply (list_elem_of_fmap_2 (λ f, (bundle_id f, short_version f)) _
                (mkAppBundleVersion b' v')). }
  by apply Huniq in Hin' as [= -> ->].
Qed.

Lemma split_byte_not_nil c s : split_byte c s ≠ [].
Proof.
  destruct s as [|a s]; simpl; [done|]. destruct (Ascii.eqb a c); [done|].
  by destruct (split_byte c s).
Qed.

Lemma split_byte_app c a b :
  split_byte c (a +:+ String c b) = split_byte c a ++ split_byte c b.
Proof.
  induction a as [|x a IH]; simpl.
  - by rewrite Ascii.eqb_refl.
  - rewrite IH. destruct (Ascii.eqb x c); [done|].
    pose proof (split_byte_not_nil c a). by destruct (split_byte c a).
Qed.

Lemma pop_zeros_zero rev : rev ≠ [] → pop_zeros (0%N :: rev) = pop_zeros rev.
Proof. by destruct rev. Qed.

Lemma validate_exact_versions_Ok id unique versions :
  validate_exact_versions id unique versions = Ok tt →
  NoDup versions ∧ (∀ v, v ∈ versions → v ∉ unique) ∧
  Forall (λ v, is_Some (parse_dotted_version v)) versions.
Proof.
  revert unique. induction versions as [|v versions IH]; intros unique; simpl.
  { intros _. split_and!; [constructor|set_solver|constructor]. }
  intros (l & Hl & Hrest)%result_bind_Ok.
  destruct (bool_decide (v ∈ unique)) eqn:Hv; [done|]. bool_facts.
  destruct (IH _ Hrest) as (Hnd & Hfresh & Hall). split_and!.
  - constructor; [|done]. intros Hin. apply (Hfresh _ Hin). set_solver.
  - set_solver.
  - constructor; [|done]. destruct (parse_dotted_version v); [eauto|done].
Qed.

(** A policy whose versions can all be compared. *)
Definition policy_wf (policy : VersionPolicy) : Prop :=
  match policy with
  | Observational => True
  | ExactAllowlist bundle versions =>
      versions ≠ [] ∧ NoDup versions ∧ Forall (λ v, is_Some (parse_dotted_version v)) versions
  | BoundedRange bundle minimum maximum =>
      ∃ lo hi, parse_dotted_version minimum = Some lo ∧
        parse_dotted_version maximum = Some hi ∧ version_le lo hi = true
  end.

Lemma validate_version_policy_Ok id policy :
  validate_version_policy id policy = Ok tt → policy_wf policy.
Proof.
  destruct policy as [|bundle versions|bundle minimum maximum]; simpl; [done|..].
  - intros ([] & _ & Hrest)%result_bind_Ok.
    destruct (bool_decide (versions = [])) eqn:Hne; [done|]. bool_facts.
    by apply validate_exact_versions_Ok in Hrest as (? & _ & ?).
  - intros ([] & _ & (lo & Hlo & (hi & Hhi & Hle)%result_bind_Ok)%result_bind_Ok)%result_bind_Ok.
    destruct (parse_dotted_version minimum); simplify_eq/=.
    destruct (parse_dotted_version maximum); simplify_eq/=.
    destruct (version_le lo hi) eqn:?; [|done]. eauto.
Qed.

Lemma validate_markers_Ok id markers :
  validate_markers id markers = Ok tt → Forall (λ m, 4 ≤ String.length (trim m)) markers.
Proof.
  induction markers as [|m markers IH]; simpl; [constructor|].
  destruct (bool_decide (String.length (trim m) < 4)) eqn:Hm; [done|]. bool_facts.
  intros ?%IH. constructor; [lia|done].
Qed.

Lemma validate_recorders_Ok id names basenames :
  validate_recorders id names basenames = Ok tt →
  NoDup basenames ∧ (∀ b, b ∈ basenames → b ∉ names) ∧
  Forall (λ b, to_ascii_lowercase (trim b) = b ∧ b ≠ "" ∧ contains "/" b = false ∧
               contains "\" b = false) basenames.
Proof.
  revert names. induction basenames as [|b basenames IH]; intros names; simpl.
  { intros _. split_and!; [constructor|set_solver|constructor]. }
  destruct (_ || _) eqn:Hor; [done|]. intros (Hnd & Hfresh & Hall)%IH.
  apply orb_false_elim in Hor as [[[[Hne Heq]%orb_false_elim Hs]%orb_false_elim
    Hb]%orb_false_elim Hin].
  bool_facts. rewrite Heq in *. split_and!; [|set_solver|].
  - constructor; [|done]. intros Hin'. apply (Hfresh _ Hin'). set_solver.
  - constructor; [|done]. split_and!; try done. by intros ->.
Qed.

(** What validation promises of a pack. *)
Record pack_wf (p : SignaturePack) : Prop := {
  pack_wf_schema : schema_version p = 2%N;
  pack_wf_id : trim (pack_id p) ≠ "";
  pack_wf_markers : Forall (λ m, 4 ≤ String.length (trim m))
    (controller_markers p ++ framework_markers p ++ ephemeral_profile_markers p
     ++ browser_executable_markers p);
  pack_wf_families : controller_markers p ≠ [] ∧ framework_markers p ≠ [] ∧
    ephemeral_profile_markers p ≠ [] ∧ browser_executable_markers p ≠ [];
  pack_wf_recorders : recorder_executable_basenames p ≠ [] ∧
    NoDup (recorder_executable_basenames p) ∧
    Forall (λ b, to_ascii_lowercase (trim b) = b ∧ b ≠ "" ∧ contains "/" b = false ∧
                 contains "\" b = false) (recorder_executable_basenames p);
  pack_wf_policy : policy_wf (version_policy p);
}.

Lemma not_is_empty s : is_empty s = false → s ≠ "".
Proof. by destruct s. Qed.

Lemma validate_pack_wf p : validate_pack p = Ok tt → pack_wf p.
Proof.
  unfold validate_pack. destruct (bool_decide (schema_version p = 2%N)) eqn:Hschema; [|done].
  destruct (negb _) eqn:Hfields; [|done]. bool_facts.
  intros ([] & _ & ([] & Hm & ([] & Hr & Hpol)%result_bind_Ok)%result_bind_Ok)%result_bind_Ok.
  apply validate_markers_Ok in Hm. apply validate_recorders_Ok in Hr as (? & _ & ?).
  apply validate_version_policy_Ok in Hpol. split; try done. by apply not_is_empty.
Qed.

Lemma load_packs_Ok toml ids sources loaded :
  load_packs toml ids sources = Ok loaded →
  NoDup (pack_id <$> loaded) ∧ (∀ p, p ∈ loaded → pack_id p ∉ ids) ∧
  Forall (λ p, validate_pack p = Ok tt) loaded ∧
  Forall2 (λ source p, toml source = Ok p) sources loaded.
Proof.
  revert ids loaded. induction sources as [|source sources IH]; intros ids loaded; simpl.
  { intros [= <-]. split_and!; try constructor. set_solver. }
  intros (p & Hp & ([] & Hv & Hrest)%result_bind_Ok)%result_bind_Ok.
  destruct (toml source) as [p'|] eqn:Ht; simplify_eq/=.
  destruct (bool_decide (pack_id p ∈ ids)) eqn:Hin; [done|]. bool_facts. simpl in Hrest.
  apply result_bind_Ok in Hrest as (rest & (Hnd & Hfresh & Hall & Hsrc)%IH & [= <-]).
  split_and!; [| |by constructor|by constructor].
  - simpl. constructor; [|done]. intros (q & Hq & Hqin)%list_elem_of_fmap.
    apply (Hfresh q Hqin). set_solver.
  - intros q [->|Hq]%elem_of_cons; [done|]. set_solver.
Qed.

Lemma candidate_age_gate_iff observed started :
  candidate_age_gate observed started = AgeEligible ↔
  started ≠ 0%N ∧ (observed * 1000 < u64_bound)%N ∧ (started + 60000000 ≤ observed * 1000)%N.
Proof.
  unfold candidate_age_gate, MINIMUM_CANDIDATE_AGE_MICROS.
  destruct (bool_decide (started = 0%N)) eqn:H0; bool_facts; [naive_solver|].
  destruct (checked_mul observed 1000) as [m|] eqn:Hm.
  - apply checked_mul_Some in Hm as [Hlt ->].
    destruct (checked_sub _ started) as [d|] eqn:Hd.
    + apply checked_sub_Some in Hd as [Hle ->].
      destruct (bool_decide _) eqn:Hage; bool_facts; split; try done; [|naive_solver lia..];
        intros (_ & _ & ?); lia.
    + split; [done|]. intros (_ & _ & Hle).
      unfold checked_sub in Hd. rewrite bool_decide_true in Hd by lia. done.
  - split; [done|]. intros (_ & Hlt & _).
    unfold checked_mul in Hm. by rewrite bool_decide_true in Hm.
Qed.

(** ** Properties *)

(** The browser version gate opens exactly for admitted versions: the roots
    are supported iff there is one, all of them carry the same bundle fact, and
    the policy names that bundle and admits that version, by membership in the
    allowlist or by lying in the inclusive range. An observational policy never
    opens the gate. *)
Theorem version_gate_opens_iff roots policy :
  gate_supported (evaluate_browser_versions roots policy) = true ↔
  ∃ bundle version, uniform_bundle roots bundle version ∧ policy_admits policy bundle version.
Proof.
  split.
  - intros Hg. destruct (evaluate_supported_uniform _ _ Hg) as (b & v & Hu). exists b, v.
    split; [done|]. rewrite (evaluate_uniform _ _ _ _ Hu) in Hg.
    destruct policy as [|bundle versions|bundle lo hi]; [done|..];
      destruct (bool_decide (b = bundle)) eqn:Hb; try done; bool_facts; subst.
    + destruct (bool_decide (v ∈ versions)) eqn:Hv; [|done]. bool_facts. by constructor.
    + repeat case_match; try done. bool_facts. by econstructor.
  - intros (b & v & Hu & Hadm). rewrite (evaluate_uniform _ _ _ _ Hu).
    destruct Hadm as [? ? ? Hin|? ? ? ? ? ? ? Hlo Hv Hhi Hle1 Hle2];
      rewrite bool_decide_true by done.
    + by rewrite bool_decide_true.
    + by rewrite Hlo, Hv, Hhi, Hle1, Hle2.
Qed.

(** Automatic action needs an open gate and a clean control path: the browser
    compatibility of a candidate is Automatic iff its version gate is supported,
    its controller is verified and its control path is completely visible; in
    every other case a typed reason is given. *)
Theorem automatic_iff_supported roots gate reason incomplete :
  (compat_decision (browser_compatibility roots gate reason incomplete) = DecisionAutomatic ↔
     (∃ g, gate = Some g ∧ gate_supported g = true) ∧ reason = None ∧ incomplete = false) ∧
  (compat_decision (browser_compatibility roots gate reason incomplete) ≠ DecisionAutomatic →
     is_Some (compat_reason_id (browser_compatibility roots gate reason incomplete))).
Proof.
  unfold browser_compatibility.
  destruct (compatibility_decision gate reason incomplete) as [d why] eqn:Hd. simpl.
  unfold compatibility_decision in Hd.
  destruct gate as [[]|], reason as [text|], incomplete; simpl in Hd;
    injection Hd as <- <-; naive_solver.
Qed.

(** Loaded rules are trustworthy: for every deserializer, a rule set that
    loads has one pack per embedded source, every pack passed validation (so
    its markers are at least four bytes, its recorder names are normalised and
    distinct, and its versions can be compared), and pack ids are distinct and in
    order. *)
Theorem embedded_rules_valid toml sources rules :
  RuleSet_embedded toml sources = Ok rules →
  length (packs rules) = length sources ∧
  NoDup (pack_id <$> packs rules) ∧ Sorted pack_le (packs rules) ∧
  (∀ p, p ∈ packs rules →
     pack_wf p ∧ ∃ source, source ∈ sources ∧ toml source = Ok p).
Proof.
  unfold RuleSet_embedded. intros (loaded & Hload & [= <-])%result_bind_Ok. simpl.
  apply load_packs_Ok in Hload as (Hnd & _ & Hall & Hsrc). split_and!.
  - rewrite merge_sort_Permutation. symmetry. by eapply Forall2_length.
  - by rewrite merge_sort_Permutation.
  - apply Sorted_merge_sort. intros a b. unfold pack_le. apply (total String.le).
  - intros p. rewrite merge_sort_Permutation. intros Hp. rewrite Forall_forall in Hall.
    split; [by apply validate_pack_wf, Hall|].
    apply list_elem_of_lookup in Hp as [i Hi].
    destruct (Forall2_lookup_r _ _ _ _ _ Hsrc Hi) as (source & Hs & Ht).
    exists source. split; [|done]. by apply list_elem_of_lookup_2 in Hs.
Qed.

(** Candidates are old enough: the age gate is eligible iff the start time is
    known, the observation time fits in 64-bit microseconds, and at least sixty
    seconds lie between them; clock skew and overflow are never eligible. *)
Theorem candidate_age_eligible_iff observed started :
  candidate_age_gate observed started = AgeEligible ↔
  started ≠ 0%N ∧ (observed * 1000 < u64_bound)%N ∧ (started + 60000000 ≤ observed * 1000)%N.
Proof. apply candidate_age_gate_iff. Qed.

(** Dotted versions are compared without regard to trailing zeros: appending
    ".0" to a version that leaves room for it does not change its parse. *)
Theorem dotted_version_trailing_zero v l :
  String.length v ≤ 62 → length (split_byte "."%char v) ≤ 7 →
  parse_dotted_version v = Some l → parse_dotted_version (v +:+ ".0") = Some l.
Proof.
  intros Hlen Hcount. unfold parse_dotted_version.
  destruct (is_empty v || _) eqn:Hv; [done|]. destruct (_ || _) eqn:Hp in |- *; [done|].
  intros (parsed & Hparsed & [= <-])%bind_Some.
  assert (Hl : String.length (v +:+ ".0") = String.length v + 2).
  { clear. induction v as [|a v IH]; [done|]. simpl. by rewrite IH. }
  assert (Hne : is_empty (v +:+ ".0") = false) by (by destruct v).
  rewrite Hne, Hl, bool_decide_false by lia.
  rewrite (split_byte_app "."%char v "0"). simpl.
  rewrite bool_decide_false by (by destruct (split_byte "."%char v)).
  rewrite length_app, bool_decide_false by (simpl; lia). simpl.
  assert (Hall : mapM parse_component (split_byte "."%char v ++ ["0"]) = Some (parsed ++ [0%N])).
  { apply mapM_Some, Forall2_app; [by apply mapM_Some|by repeat constructor]. }
  rewrite Hall. simpl. rewrite reverse_snoc.
  rewrite pop_zeros_zero; [done|].
  pose proof (length_reverse parsed) as Hlr. apply length_mapM in Hparsed.
  pose proof (split_byte_not_nil "."%char v). intros Hnil. rewrite Hnil in Hlr.
  destruct (split_byte "."%char v); simpl in *; [done|lia].
Qed.

(** ** Witnesses *)

Example embedded_packs_valid :
  forallb (λ p, match validate_pack p with Ok _ => true | Err _ => false end)
    embedded_packs = true.
Proof. vm_compute. reflexivity. Qed.

(** A deserializer that knows one text per embedded pack. *)
Lemma embedded_rules_valid_witness :
  let toml (source : string) : result SignaturePack string :=
    ok_or (List.find (λ p, bool_decide (pack_id p = source)) embedded_packs) "unknown" in
  RuleSet_embedded toml ["puppeteer"; "agent-browser"; "playwright"] =
    Ok (mkRuleSet embedded_packs) ∧
  NoDup (pack_id <$> embedded_packs).
Proof.
  intros toml. split; [vm_compute; reflexivity|].
  apply (embedded_rules_valid toml ["puppeteer"; "agent-browser"; "playwright"]
           (mkRuleSet embedded_packs)).
  vm_compute. reflexivity.
Defined.

Lemma dotted_version_trailing_zero_witness :
  parse_dotted_version "151.0.7922" = Some [151%N; 0%N; 7922%N] ∧
  parse_dotted_version "151.0.7922.0" = Some [151%N; 0%N; 7922%N].
Proof.
  split; [vm_compute; reflexivity|].
  apply (dotted_version_trailing_zero "151.0.7922");
    [apply (bool_decide_eq_true_1 _); vm_compute; reflexivity..|vm_compute; reflexivity].
Defined.
