(* ===== verification/Matching.v ===== *)
(** Matching: the process predicates of [unlinger-rules/src/lib.rs], how a
    pack's markers, command-line flags and evidence lists are read. *)

From S2P Require Import Prelude Text Model Evidence Pack.
From Stdlib Require Import Ascii.

(** ** Markers and flags *)

(** [normalize]. *)
Definition normalize (value : string) : string :=
  replace_byte "\"%char "/"%char (to_ascii_lowercase value).

(** [contains_any]. *)
Definition contains_any (value : string) (markers : list string) : bool :=
  existsb (λ marker, contains (normalize marker) (normalize value)) markers.

(** [is_ephemeral_path]. *)
Definition is_ephemeral_path (path : string) : bool :=
  let path := normalize path in
  starts_with "/tmp/" path || starts_with "/private/tmp/" path
  || starts_with "/var/folders/" path || contains "playwright_chromiumdev_profile" path
  || contains "puppeteer_dev_chrome_profile" path.

(** [process.arguments.as_ref().is_some_and(|arguments| arguments.iter().any(f))]. *)
Definition any_argument (f : string → bool) (p : ProcessRecord) : bool :=
  match arguments p with Some args => existsb f args | None => false end.

(** [args_contain]. *)
Definition args_contain (p : ProcessRecord) (marker : string) : bool :=
  any_argument (λ argument,
    let argument := to_ascii_lowercase argument in
    let marker := to_ascii_lowercase marker in
    bool_decide (argument = marker) || starts_with (marker +:+ "=") argument) p.

(** [args_contain_any]. *)
Definition args_contain_any (p : ProcessRecord) (markers : list string) : bool :=
  existsb (args_contain p) markers.

(** [&argument[offset..]]. *)
Definition string_drop (offset : nat) (s : string) : string :=
  String.substring offset (String.length s - offset) s.

(** The argument loop of [flag_value]. *)
Fixpoint flag_value_in (normalized_flag : string) (args : list string) : option string :=
  match args with
  | [] => None
  | argument :: rest =>
      let normalized := to_ascii_lowercase argument in
      if bool_decide (normalized = normalized_flag) then head rest else
      match strip_prefix (normalized_flag +:+ "=") normalized with
      | Some value =>
          Some (string_drop (String.length argument - String.length value) argument)
      | None => flag_value_in normalized_flag rest
      end
  end.

(** [flag_value]. *)
Definition flag_value (p : ProcessRecord) (flag : string) : option string :=
  args ← arguments p; flag_value_in (to_ascii_lowercase flag) args.

(** [process_contains_any]. *)
Definition process_contains_any (p : ProcessRecord) (markers : list string) : bool :=
  existsb (λ part, contains_any part markers)
    ([proc_name p]
     ++ match executable_path p with Some path => [path] | None => [] end
     ++ match arguments p with Some args => args | None => [] end).

(** ** Process classes *)

(** [matches_recorder]. *)
Definition matches_recorder (p : ProcessRecord) (pack : SignaturePack) : bool :=
  bool_decide (to_ascii_lowercase (executable_basename p) ∈ recorder_executable_basenames pack).

(** An argument that marks a Chromium child process. *)
Definition is_type_argument (argument : string) : bool :=
  starts_with "--type=" (to_ascii_lowercase argument).

(** [matches_controller]. *)
Definition matches_controller (p : ProcessRecord) (pack : SignaturePack) : bool :=
  let basename := to_ascii_lowercase (executable_basename p) in
  if matches_recorder p pack || contains "crashpad" basename || any_argument is_type_argument p
  then false else
  let executable :=
    to_ascii_lowercase
      match executable_path p with Some path => path | None => proc_name p end in
  if contains_any executable (controller_markers pack) then true else
  match arguments p with
  | Some args =>
      existsb (λ argument, contains_any argument (controller_markers pack))
        (List.filter (λ argument, negb (starts_with "-" argument)) args)
  | None => false
  end.

(** [is_browser_root]. *)
Definition is_browser_root (p : ProcessRecord) (pack : SignaturePack) : bool :=
  contains_any (to_ascii_lowercase (executable_basename p)) (browser_executable_markers pack)
  && negb (any_argument is_type_argument p).

(** [pack_anchor_count]. *)
Definition pack_anchor_count (p : ProcessRecord) (pack : SignaturePack) : N :=
  N.b2n (process_contains_any p (framework_markers pack))
  + N.b2n match flag_value p "--user-data-dir" with
          | Some path => contains_any path (ephemeral_profile_markers pack)
          | None => false
          end.

(** ** Candidates *)

Record Candidate : Type := mkCandidate {
  candidate_pack : SignaturePack;
  candidate_root_pid : N;
  candidate_controller_pid : option N;
  browser_root_pids : list N;
  member_pids : list N;
  candidate_anchor_count : N;
}.

(** The argument loop of [process_role]. *)
Fixpoint type_role (args : list string) : option ProcessRole :=
  match args with
  | [] => None
  | argument :: args =>
      match strip_prefix "--type=" (to_ascii_lowercase argument) with
      | Some kind =>
          Some (if bool_decide (kind = "renderer") then Renderer
                else if bool_decide (kind = "gpu-process") then Gpu
                else if bool_decide (kind = "utility") then Utility
                else BrowserHelper)
      | None => type_role args
      end
  end.

(** [process_role]. *)
Definition process_role (p : ProcessRecord) (c : Candidate) : ProcessRole :=
  if bool_decide (candidate_controller_pid c = Some (process_pid p)) then Controller else
  if bool_decide (process_pid p ∈ browser_root_pids c) then BrowserRoot else
  let basename := to_ascii_lowercase (executable_basename p) in
  if contains "crashpad" basename || contains "crash handler" basename then CrashHandler else
  if matches_recorder p (candidate_pack c) then Recorder else
  default IncidentMember (args ← arguments p; type_role args).

(** ** Evidence lists *)

(** [item]. *)
Definition item (id : string) (family : EvidenceFamily) (source_pid : option N) : EvidenceItem :=
  mkEvidenceItem id family source_pid.

(** [<=] of [Option<u32>]: [None] first. *)
Definition option_le (a b : option N) : bool :=
  match a, b with
  | None, _ => true
  | Some _, None => false
  | Some a, Some b => (a <=? b)%N
  end.

(** [<=] of the tuples [(family, id, source_pid)]. *)
Definition evidence_leb (a b : EvidenceItem) : bool :=
  (family_rank (ev_family a) <? family_rank (ev_family b))%N
  || ((family_rank (ev_family a) =? family_rank (ev_family b))%N
      && (String.ltb (ev_id a) (ev_id b)
          || (String.eqb (ev_id a) (ev_id b) && option_le (ev_source_pid a) (ev_source_pid b)))).

Definition evidence_le : relation EvidenceItem := λ a b, evidence_leb a b = true.

#[export] Instance evidence_le_dec : RelDecision evidence_le.
Proof. intros a b. unfold evidence_le. solve_decision. Defined.

(** [sort_evidence]: sort, then drop adjacent duplicates. *)
Definition sort_evidence (evidence : list EvidenceItem) : list EvidenceItem :=
  dedup (merge_sort evidence_le evidence).

(** ** Lemmas *)

Lemma string_app_length a b : String.length (a +:+ b) = String.length a + String.length b.
Proof. induction a as [|c a IH]; simpl; [done|]. by rewrite <-IH. Qed.

Lemma to_ascii_lowercase_app a b :
  to_ascii_lowercase (a +:+ b) = to_ascii_lowercase a +:+ to_ascii_lowercase b.
Proof.
  unfold to_ascii_lowercase. induction a as [|c a IH]; [done|].
  exact (f_equal (String (lower_byte c)) IH).
Qed.

Lemma length_to_ascii_lowercase s : String.length (to_ascii_lowercase s) = String.length s.
Proof. apply length_map_bytes. Qed.

Lemma substring_all s : String.substring 0 (String.length s) s = s.
Proof. induction s as [|c s IH]; simpl; [done|]. by rewrite IH. Qed.

Lemma string_drop_app w v : string_drop (String.length w) (w +:+ v) = v.
Proof.
  unfold string_drop. rewrite string_app_length, Nat.add_comm, Nat.add_sub.
  induction w as [|c w IH]; simpl; [apply substring_all|done].
Qed.

(** A byte-wise lowercase splits where its image does. *)
Lemma lowercase_split a p r :
  to_ascii_lowercase a = p +:+ r →
  ∃ w v, a = w +:+ v ∧ to_ascii_lowercase w = p ∧ to_ascii_lowercase v = r.
Proof.
  revert a. induction p as [|c p IH]; intros a; simpl; [by exists "", a|].
  destruct a as [|x a]; [done|]. simpl. intros [= <- (w & v & -> & <- & <-)%IH].
  by exists (String x w), v.
Qed.

(** An argument that mentions the flag. *)
Definition mentions_flag (flag argument : string) : bool :=
  bool_decide (to_ascii_lowercase argument = flag)
  || starts_with (flag +:+ "=") (to_ascii_lowercase argument).

Lemma flag_equals_value flag argument value :
  strip_prefix (flag +:+ "=") (to_ascii_lowercase argument) = Some value →
  ∃ w, argument = w +:+ string_drop (String.length argument - String.length value) argument ∧
       to_ascii_lowercase w = flag +:+ "=".
Proof.
  intros (w & v & -> & Hw & <-)%strip_prefix_Some%lowercase_split. exists w. split; [|done].
  rewrite length_to_ascii_lowercase, string_app_length, Nat.add_sub.
  by rewrite string_drop_app.
Qed.

Lemma option_le_spec a b :
  option_le a b = true ↔
  match a, b with None, _ => True | Some _, None => False | Some a, Some b => (a ≤ b)%N end.
Proof. destruct a, b; simpl; try done. apply N.leb_le. Qed.

Lemma ltb_compare a b : String.ltb a b = true ↔ String.compare a b = Lt.
Proof. unfold String.ltb. by destruct (String.compare a b). Qed.

(** The evidence order is a lexicographic total order; compared by components. *)
Lemma evidence_leb_total a b : evidence_leb a b = true ∨ evidence_leb b a = true.
Proof.
  unfold evidence_leb.
  destruct (N.lt_trichotomy (family_rank (ev_family a)) (family_rank (ev_family b)))
    as [Hlt|[Heq|Hlt]].
  - left. apply orb_true_iff. left. by apply N.ltb_lt.
  - rewrite Heq, N.ltb_irrefl, N.eqb_refl. simpl.
    destruct (String.eqb_spec (ev_id a) (ev_id b)) as [->|Hne].
    + rewrite String.eqb_refl, !orb_true_iff. simpl. rewrite !option_le_spec.
      destruct (ev_source_pid a), (ev_source_pid b); try tauto. lia.
    + destruct (String.compare (ev_id a) (ev_id b)) eqn:Hc.
      * by apply String.compare_eq_iff in Hc.
      * left. apply ltb_compare in Hc. by rewrite Hc.
      * right. assert (Hc' : String.compare (ev_id b) (ev_id a) = Lt).
        { rewrite String.compare_antisym, Hc. done. }
        apply ltb_compare in Hc'. by rewrite Hc'.
  - right. apply orb_true_iff. left. by apply N.ltb_lt.
Qed.

#[export] Instance evidence_le_total : Total evidence_le.
Proof. intros a b. apply evidence_leb_total. Qed.

Lemma ltb_strict a b : String.ltb a b = true ↔ String.le a b ∧ a ≠ b.
Proof.
  unfold String.le, String.leb, String.ltb. destruct (String.compare a b) eqn:Hc; simpl.
  - apply String.compare_eq_iff in Hc as ->. naive_solver.
  - split; [|done]. intros _. split; [done|]. intros ->.
    pose proof (String.compare_antisym b b) as Hb. by rewrite Hc in Hb.
  - naive_solver.
Qed.

Lemma evidence_le_spec a b :
  evidence_le a b ↔
  (family_rank (ev_family a) < family_rank (ev_family b))%N ∨
  (family_rank (ev_family a) = family_rank (ev_family b) ∧
   ((String.le (ev_id a) (ev_id b) ∧ ev_id a ≠ ev_id b) ∨
    (ev_id a = ev_id b ∧ option_le (ev_source_pid a) (ev_source_pid b) = true))).
Proof.
  unfold evidence_le, evidence_leb.
  rewrite !orb_true_iff, !andb_true_iff, !orb_true_iff, !andb_true_iff, N.ltb_lt, N.eqb_eq,
    ltb_strict, String.eqb_eq. done.
Qed.

Lemma family_rank_inj f g : family_rank f = family_rank g → f = g.
Proof. by destruct f, g. Qed.

#[export] Instance evidence_le_trans : Transitive evidence_le.
Proof.
  intros a b c. rewrite !evidence_le_spec.
  intros [Hab|[Hab Habi]] [Hbc|[Hbc Hbci]]; [left; lia..|]. right. split; [congruence|].
  destruct Habi as [[Hle Hne]|[Heq Ho]], Hbci as [[Hle' Hne']|[Heq' Ho']].
  - left. split; [by etrans|]. intros Heq. rewrite Heq in Hle, Hne.
    apply Hne. by apply (anti_symm String.le).
  - left. rewrite <-Heq'. done.
  - left. rewrite Heq. done.
  - right. split; [congruence|]. rewrite option_le_spec in *.
    destruct (ev_source_pid a), (ev_source_pid b), (ev_source_pid c); try done. lia.
Qed.

#[export] Instance evidence_le_antisym : AntiSymm (=) evidence_le.
Proof.
  intros [i f o] [i' f' o']. rewrite !evidence_le_spec. simpl.
  intros [Hab|[Hab Habi]] [Hba|[Hba Hbai]]; [lia..|].
  apply family_rank_inj in Hab as ->.
  destruct Habi as [[Hle Hne]|[-> Ho]], Hbai as [[Hle' Hne']|[Heq' Ho']]; try done.
  - destruct Hne. by apply (anti_symm String.le).
  - f_equal. rewrite option_le_spec in *. destruct o, o'; try done. f_equal. lia.
Qed.

Lemma flag_value_in_spec flag args v :
  flag_value_in flag args = Some v ↔
  ∃ pre a post, args = pre ++ a :: post ∧ Forall (λ x, mentions_flag flag x = false) pre ∧
    ((to_ascii_lowercase a = flag ∧ head post = Some v) ∨
     (to_ascii_lowercase a ≠ flag ∧
      ∃ w, a = w +:+ v ∧ to_ascii_lowercase w = flag +:+ "=")).
Proof.
  induction args as [|a args IH]; simpl.
  { split; [done|]. by intros ([] & ? & ? & ? & _). }
  destruct (bool_decide (to_ascii_lowercase a = flag)) eqn:Ha; bool_facts.
  { split.
    - intros Hv. exists [], a, args. split_and!; [done|done|by left].
    - intros ([|x pre] & a' & post & [= -> ->] & Hpre & Hcase); [naive_solver|].
      apply Forall_cons in Hpre as [Hx _]. unfold mentions_flag in Hx.
      by rewrite bool_decide_true in Hx. }
  destruct (strip_prefix _ _) as [value|] eqn:Hp.
  - destruct (flag_equals_value _ _ _ Hp) as (w & Hw & Hlow). split.
    + intros [= <-]. exists [], a, args. split_and!; [done|done|right; eauto].
    + intros ([|x pre] & a' & post & [= -> ->] & Hpre & Hcase).
      * destruct Hcase as [[? _]|[_ (w' & Hw' & Hlow')]]; [done|]. f_equal.
        assert (String.length w' = String.length w) as Hlen.
        { by rewrite <-(length_to_ascii_lowercase w'), Hlow', <-Hlow, length_to_ascii_lowercase. }
        assert (Hd : string_drop (String.length w') a' = v) by (by rewrite Hw', string_drop_app).
        rewrite <-Hd. f_equal. apply (f_equal String.length) in Hw.
        rewrite string_app_length in Hw. rewrite Hlen. apply (f_equal String.length) in Hw'.
        unfold string_drop in Hw. clear -Hp Hlow.
        apply strip_prefix_Some in Hp. apply (f_equal String.length) in Hp.
        rewrite length_to_ascii_lowercase, string_app_length in Hp.
        rewrite <-Hlow, length_to_ascii_lowercase in Hp. lia.
      * apply Forall_cons in Hpre as [Hx _]. unfold mentions_flag, starts_with in Hx.
        by rewrite Hp, orb_true_r in Hx.
  - rewrite IH. split.
    + intros (pre & a' & post & -> & Hpre & Hcase). exists (a :: pre), a', post.
      split_and!; [done| |done]. constructor; [|done].
      unfold mentions_flag, starts_with. by rewrite bool_decide_false, Hp.
    + intros ([|x pre] & a' & post & [= -> ->] & Hpre & Hcase).
      * destruct Hcase as [[? _]|[_ (w' & -> & Hlow')]]; [done|].
        by rewrite to_ascii_lowercase_app, Hlow', strip_prefix_app in Hp.
      * apply Forall_cons in Hpre as [_ Hpre]. by exists pre, a', post.
Qed.

(** ** Properties *)

(** Evidence lists are canonical: sorting yields a list in (family, id,
    source) order without duplicates, with exactly the given items, so equal
    evidence sets give equal lists. *)
Theorem sort_evidence_canonical evidence evidence' :
  (Sorted evidence_le (sort_evidence evidence) ∧ NoDup (sort_evidence evidence) ∧
   ∀ e, e ∈ sort_evidence evidence ↔ e ∈ evidence) ∧
  ((∀ e, e ∈ evidence ↔ e ∈ evidence') → sort_evidence evidence = sort_evidence evidence').
Proof.
  assert (Hsort : ∀ l, Sorted evidence_le (sort_evidence l) ∧ NoDup (sort_evidence l) ∧
                       ∀ e, e ∈ sort_evidence l ↔ e ∈ l).
  { intros l. destruct (dedup_sorted evidence_le (merge_sort evidence_le l)) as (? & ? & Hin).
    { apply Sorted_merge_sort, _. }
    split_and!; [done..|]. intros e. rewrite (Hin e). by rewrite merge_sort_Permutation. }
  split; [apply Hsort|]. intros Heq.
  destruct (Hsort evidence) as (Hs & Hnd & Hin), (Hsort evidence') as (Hs' & Hnd' & Hin').
  apply (Sorted_unique evidence_le); [done..|]. apply NoDup_Permutation; [done..|].
  intros e. rewrite Hin, Hin'. apply Heq.
Qed.

(** A flag's value is read as given: it is the argument after the first
    argument equal to the flag, or the text after "flag=" of the first argument
    of that form, whichever comes first, compared without case and returned with
    its original case. *)
Theorem flag_value_iff p flag v :
  flag_value p flag = Some v ↔
  ∃ args pre a post, arguments p = Some args ∧ args = pre ++ a :: post ∧
    Forall (λ x, mentions_flag (to_ascii_lowercase flag) x = false) pre ∧
    ((to_ascii_lowercase a = to_ascii_lowercase flag ∧ head post = Some v) ∨
     (to_ascii_lowercase a ≠ to_ascii_lowercase flag ∧
      ∃ w, a = w +:+ v ∧ to_ascii_lowercase w = to_ascii_lowercase flag +:+ "=")).
Proof.
  unfold flag_value. rewrite bind_Some. setoid_rewrite flag_value_in_spec. naive_solver.
Qed.
