(* ===== verification/Candidates.v ===== *)
(** Candidates: how [Analyzer::candidates] of [unlinger-rules/src/lib.rs] groups
    processes into incident candidates.

    Every pack proposes candidates in three loops: controllers with browsers,
    controllers without, and browser roots without a controller. A proposal is kept
    per root PID by [select_candidate]. *)

From S2P Require Import Prelude Text Model Graph Evidence Task Pack Matching.

(** ** Analyzer state *)

Record AnalyzerContext : Type := mkAnalyzerContext {
  self_pid : option N;
  context_ancestor_pids : gset N;
  task_controllers : list TaskControllerBinding;
  session_owners : list SessionOwnerBinding;
}.

Record Analyzer : Type := mkAnalyzer {
  rules : RuleSet;
  context : AnalyzerContext;
}.

(** [selected: BTreeMap<u32, Candidate>]. *)
Abbreviation selection := (gmap N Candidate).

(** Whether a proposal replaces what is selected. *)
Definition replaces (candidate existing : Candidate) : bool :=
  bool_decide (candidate_anchor_count existing < candidate_anchor_count candidate)%N
  || (bool_decide (candidate_anchor_count candidate = candidate_anchor_count existing)
      && String.ltb (pack_id (candidate_pack candidate)) (pack_id (candidate_pack existing))).

(** [select_candidate]. *)
Definition select_candidate (selected : selection) (candidate : Candidate) : selection :=
  let replace := match selected !! candidate_root_pid candidate with
                 | None => true
                 | Some existing => replaces candidate existing
                 end in
  if replace then <[candidate_root_pid candidate := candidate]> selected else selected.

(** ** Recorders *)

(** A recorder child of the controller in the same process group. *)
Definition is_joined_recorder (controller : ProcessRecord) (controller_pid : N)
    (pack : SignaturePack) (p : ProcessRecord) : bool :=
  bool_decide (parent_pid p = controller_pid)
  && bool_decide (uid p = uid controller)
  && bool_decide (tty_device p = None)
  && bool_decide (started_at_unix_micros (identity controller)
                  ≤ started_at_unix_micros (identity p))%N
  && bool_decide (process_group_id p = process_group_id controller)
  && matches_recorder p pack.

(** [joined_recorder_pids]. *)
Definition joined_recorder_pids (g : ProcessGraph) (controller_pid : N) (browsers : list N)
    (pack : SignaturePack) : list N :=
  match get g controller_pid with
  | None => []
  | Some controller =>
      if bool_decide (process_group_id controller = 0%N)
         || negb (existsb (λ pid,
              match get g pid with
              | Some browser =>
                  bool_decide (process_group_id browser ≠ 0%N)
                  && bool_decide (process_group_id browser = process_group_id controller)
              | None => false
              end) browsers)
      then []
      else process_pid <$>
             List.filter (is_joined_recorder controller controller_pid pack) (graph_records g)
  end.

(** [has_plausible_unjoined_recorder]. *)
Definition has_plausible_unjoined_recorder (g : ProcessGraph) (c : Candidate)
    (browser_roots : list ProcessRecord) : bool :=
  existsb (λ p,
    negb (bool_decide (process_pid p ∈ member_pids c))
    && matches_recorder p (candidate_pack c)
    && bool_decide (uid p = graph_current_uid g)
    && bool_decide (tty_device p = None)
    && existsb (λ browser,
         bool_decide (started_at_unix_micros (identity browser)
                      ≤ started_at_unix_micros (identity p))%N
         && bool_decide (process_group_id p ≠ 0%N)
         && bool_decide (process_group_id p = process_group_id browser)) browser_roots)
    (graph_records g).

(** ** Proposals of one pack *)

(** The browser roots in PID order. *)
Definition pack_browser_roots (g : ProcessGraph) (pack : SignaturePack) : list N :=
  process_pid <$> List.filter (λ p, is_browser_root p pack) (graph_records g).

(** The controllers: matching processes that are no browser roots. *)
Definition pack_controllers (g : ProcessGraph) (pack : SignaturePack) (browser_roots : list N) :
    gset N :=
  list_to_set (process_pid <$>
    List.filter (λ p, negb (bool_decide (process_pid p ∈ browser_roots))
                      && matches_controller p pack) (graph_records g)).

(** The ownership loop: each browser root goes to its nearest controller, or to
    [unowned] when an anchor of the pack is on it. *)
Fixpoint own_browsers (g : ProcessGraph) (pack : SignaturePack) (controllers : gset N)
    (by_controller : gmap N (list N)) (unowned : list N) (browsers : list N) :
    gmap N (list N) * list N :=
  match browsers with
  | [] => (by_controller, unowned)
  | browser_pid :: browsers =>
      let nearest_controller :=
        List.find (λ pid, bool_decide (pid ∈ controllers)) (ancestor_pids g browser_pid) in
      match nearest_controller with
      | Some controller_pid =>
          own_browsers g pack controllers
            (<[controller_pid := default [] (by_controller !! controller_pid) ++ [browser_pid]]>
               by_controller) unowned browsers
      | None =>
          let anchored := match get g browser_pid with
                          | Some p => bool_decide (0 < pack_anchor_count p pack)%N
                          | None => false
                          end in
          own_browsers g pack controllers by_controller
            (if anchored then unowned ++ [browser_pid] else unowned) browsers
      end
  end.

(** A controller with the trees of its browsers and its recorders. *)
Definition controller_candidate (g : ProcessGraph) (pack : SignaturePack) (controller_pid : N)
    (browsers : list N) : Candidate :=
  let browsers := merge_sort N.le browsers in
  let members := [controller_pid] ++ (browsers ≫= descendant_pids g)
                 ++ joined_recorder_pids g controller_pid browsers pack in
  mkCandidate pack controller_pid (Some controller_pid) browsers
    (dedup (merge_sort N.le members))
    match get g controller_pid with Some p => pack_anchor_count p pack | None => 0%N end.

(** A controller without browsers. *)
Definition lone_controller_candidate (g : ProcessGraph) (pack : SignaturePack)
    (controller_pid : N) : option Candidate :=
  p ← get g controller_pid;
  Some (mkCandidate pack controller_pid (Some controller_pid) [] [controller_pid]
          (pack_anchor_count p pack)).

(** A browser root without a controller. *)
Definition unowned_candidate (g : ProcessGraph) (pack : SignaturePack) (browser_pid : N) :
    option Candidate :=
  p ← get g browser_pid;
  Some (mkCandidate pack browser_pid None [browser_pid] (descendant_pids g browser_pid)
          (pack_anchor_count p pack)).

(** One iteration of the pack loop: the proposals in the order they are selected. *)
Definition pack_proposals (g : ProcessGraph) (pack : SignaturePack) : list Candidate :=
  let browser_roots := pack_browser_roots g pack in
  let controllers := pack_controllers g pack browser_roots in
  let '(by_controller, unowned) := own_browsers g pack controllers ∅ [] browser_roots in
  ((λ entry, controller_candidate g pack entry.1 entry.2) <$> btree_entries N.le by_controller)
  ++ omap (lone_controller_candidate g pack)
       (btree_elements N.le (controllers ∖ dom by_controller))
  ++ omap (unowned_candidate g pack) unowned.

(** [Analyzer::candidates]. *)
Definition candidates (a : Analyzer) (g : ProcessGraph) : list Candidate :=
  btree_values N.le
    (fold_left select_candidate (packs (rules a) ≫= pack_proposals g) ∅).

(** ** Specification *)

(** What a proposal of a pack promises. *)
Record candidate_wf (g : ProcessGraph) (pack : SignaturePack) (c : Candidate) : Prop := {
  candidate_wf_pack : candidate_pack c = pack;
  candidate_wf_root : is_Some (get g (candidate_root_pid c));
  candidate_wf_member : candidate_root_pid c ∈ member_pids c;
  candidate_wf_sorted : Sorted N.le (member_pids c) ∧ NoDup (member_pids c);
  candidate_wf_observed : ∀ k, k ∈ member_pids c → is_Some (get g k);
  candidate_wf_browsers : ∀ b, b ∈ browser_root_pids c →
    b ∈ member_pids c ∧ ∃ p, get g b = Some p ∧ is_browser_root p pack = true;
  candidate_wf_controller : ∀ k, candidate_controller_pid c = Some k →
    k = candidate_root_pid c ∧
    (∃ p, get g k = Some p ∧ matches_controller p pack = true) ∧
    ∀ b, b ∈ browser_root_pids c → tc (parent_edge g) b k;
  candidate_wf_unowned : candidate_controller_pid c = None →
    browser_root_pids c = [candidate_root_pid c] ∧ (0 < candidate_anchor_count c)%N;
  candidate_wf_origin : ∀ k, k ∈ member_pids c →
    k = candidate_root_pid c ∨
    (∃ b, b ∈ browser_root_pids c ∧ rtc (child_edge g) b k) ∨
    (∃ controller p, get g (candidate_root_pid c) = Some controller ∧ get g k = Some p ∧
       is_joined_recorder controller (candidate_root_pid c) pack p = true);
}.

(** ** Lemmas: selection *)

Lemma replaces_spec c e :
  replaces c e = true ↔
  (candidate_anchor_count e < candidate_anchor_count c)%N ∨
  (candidate_anchor_count c = candidate_anchor_count e ∧
   String.le (pack_id (candidate_pack c)) (pack_id (candidate_pack e)) ∧
   pack_id (candidate_pack c) ≠ pack_id (candidate_pack e)).
Proof.
  unfold replaces. by rewrite orb_true_iff, andb_true_iff, !bool_decide_eq_true, ltb_strict.
Qed.

Lemma replaces_trans a b c : replaces a b = true → replaces b c = true → replaces a c = true.
Proof.
  rewrite !replaces_spec. intros [Hab|(Hab & Hle & Hne)] [Hbc|(Hbc & Hle' & Hne')];
    [left; lia..|]. right. split; [congruence|]. split; [by etrans|].
  intros Heq. rewrite Heq in Hle, Hne. apply Hne. by apply (anti_symm String.le).
Qed.

Lemma replaces_irrefl a : replaces a a = false.
Proof.
  apply not_true_is_false. rewrite replaces_spec. intros [?|(_ & _ & ?)]; [lia|done].
Qed.

(** The selection of a list of proposals: one of them per root, and no proposal
    would replace the one kept for its root. *)
Definition selects (proposals : list Candidate) (selected : selection) : Prop :=
  (∀ r c, selected !! r = Some c → c ∈ proposals ∧ candidate_root_pid c = r) ∧
  (∀ c, c ∈ proposals → ∃ c', selected !! candidate_root_pid c = Some c' ∧
                              replaces c c' = false).

Lemma select_candidate_selects proposals selected c :
  selects proposals selected → selects (proposals ++ [c]) (select_candidate selected c).
Proof.
  intros [Hsound Hbest]. unfold select_candidate.
  destruct (match selected !! candidate_root_pid c with
            | Some e => replaces c e | None => true end) eqn:Hrep.
  - split.
    + intros r c'. destruct (decide (r = candidate_root_pid c)) as [->|Hne].
      * rewrite lookup_insert_eq. intros [= <-]. split; [|done].
        apply elem_of_app. right. by left.
      * rewrite lookup_insert_ne by done. intros [? ?]%Hsound. split; [|done].
        apply elem_of_app. by left.
    + intros c' [Hc'|Hc'%list_elem_of_singleton]%elem_of_app.
      2: { subst c'. exists c. rewrite lookup_insert_eq. by rewrite replaces_irrefl. }
      destruct (Hbest c' Hc') as (e & He & Hno).
      destruct (decide (candidate_root_pid c = candidate_root_pid c')) as [Heq|Hne].
      * rewrite Heq in *. rewrite He in Hrep. exists c. rewrite lookup_insert_eq. split; [done|].
        apply not_true_is_false. intros Hc. rewrite (replaces_trans _ _ _ Hc Hrep) in Hno. done.
      * exists e. by rewrite lookup_insert_ne.
  - split.
    + intros r c' [? ?]%Hsound. split; [|done]. apply elem_of_app. by left.
    + intros c' [Hc'|Hc'%list_elem_of_singleton]%elem_of_app; [by apply Hbest|]. subst c'.
      destruct (selected !! candidate_root_pid c) as [e|]; [|done]. by exists e.
Qed.

Lemma fold_select_selects proposals : selects proposals (fold_left select_candidate proposals ∅).
Proof.
  induction proposals as [|c proposals IH] using rev_ind.
  { split; [intros r c; simpl; by rewrite lookup_empty|]. by intros c ?%elem_of_nil. }
  rewrite fold_left_app. by apply select_candidate_selects.
Qed.

Lemma elem_of_candidates a g c :
  c ∈ candidates a g ↔
  fold_left select_candidate (packs (rules a) ≫= pack_proposals g) ∅ !!
    candidate_root_pid c = Some c.
Proof.
  unfold candidates. rewrite elem_of_btree_values. split; [|eauto].
  intros [r Hr]. pose proof (proj1 (fold_select_selects _) _ _ Hr) as [_ Heq].
  by rewrite Heq.
Qed.

(** ** Lemmas: proposals *)

Lemma elem_of_merge_sort {A} (R : relation A) `{!RelDecision R} (l : list A) x :
  x ∈ merge_sort R l ↔ x ∈ l.
Proof. by rewrite merge_sort_Permutation. Qed.

Lemma elem_of_pack_browser_roots s g pack b :
  from_snapshot s = Ok g →
  b ∈ pack_browser_roots g pack ↔ ∃ p, get g b = Some p ∧ is_browser_root p pack = true.
Proof.
  intros Hg. unfold pack_browser_roots. rewrite list_elem_of_fmap.
  setoid_rewrite list_elem_of_In. setoid_rewrite filter_In. setoid_rewrite <-list_elem_of_In.
  setoid_rewrite elem_of_graph_records. split.
  - intros (p & -> & [k Hk] & Hroot). exists p.
    by destruct (from_snapshot_get _ _ _ _ Hg Hk) as [_ ->].
  - intros (p & Hp & Hroot). exists p. destruct (from_snapshot_get _ _ _ _ Hg Hp) as [_ <-].
    eauto.
Qed.

Lemma elem_of_pack_controllers s g pack k :
  from_snapshot s = Ok g →
  k ∈ pack_controllers g pack (pack_browser_roots g pack) ↔
  ∃ p, get g k = Some p ∧ matches_controller p pack = true ∧ k ∉ pack_browser_roots g pack.
Proof.
  intros Hg. unfold pack_controllers. rewrite elem_of_list_to_set, list_elem_of_fmap.
  setoid_rewrite list_elem_of_In at 1. setoid_rewrite filter_In.
  setoid_rewrite <-list_elem_of_In. setoid_rewrite elem_of_graph_records.
  setoid_rewrite andb_true_iff. setoid_rewrite negb_true_iff.
  setoid_rewrite bool_decide_eq_false. split.
  - intros (p & -> & [k' Hk'] & Hnb & Hm). exists p.
    by destruct (from_snapshot_get _ _ _ _ Hg Hk') as [_ <-].
  - intros (p & Hp & Hm & Hnb). exists p. destruct (from_snapshot_get _ _ _ _ Hg Hp) as [_ <-].
    eauto 6.
Qed.

(** The ownership loop keeps, per controller, browsers it is an ancestor of, and
    places every browser that has a controller or an anchor. *)
Record owned (g : ProcessGraph) (pack : SignaturePack) (controllers : gset N)
    (browsers : list N) (by_controller : gmap N (list N)) (unowned : list N) : Prop := {
  owned_sound : ∀ k bs, by_controller !! k = Some bs →
    k ∈ controllers ∧ bs ≠ [] ∧ ∀ b, b ∈ bs → b ∈ browsers ∧ k ∈ ancestor_pids g b;
  unowned_sound : ∀ b, b ∈ unowned → b ∈ browsers ∧
    (∀ k, k ∈ controllers → k ∉ ancestor_pids g b) ∧
    ∃ p, get g b = Some p ∧ (0 < pack_anchor_count p pack)%N;
  owned_complete : ∀ b, b ∈ browsers →
    (∃ k bs, by_controller !! k = Some bs ∧ b ∈ bs) ∨ b ∈ unowned ∨
    ((∀ k, k ∈ controllers → k ∉ ancestor_pids g b) ∧
     ∀ p, get g b = Some p → pack_anchor_count p pack = 0%N);
}.

Lemma find_controller_None (controllers : gset N) pids :
  List.find (λ pid, bool_decide (pid ∈ controllers)) pids = None →
  ∀ k, k ∈ controllers → k ∉ pids.
Proof.
  intros Hf k Hk Hin%list_elem_of_In. pose proof (find_none _ _ Hf k Hin) as Hno.
  simpl in Hno. by rewrite bool_decide_true in Hno.
Qed.

Lemma own_browsers_owned g pack controllers rest : ∀ done_ by_controller unowned,
  owned g pack controllers done_ by_controller unowned →
  let '(by_controller', unowned') :=
    own_browsers g pack controllers by_controller unowned rest in
  owned g pack controllers (done_ ++ rest) by_controller' unowned'.
Proof.
  induction rest as [|b rest IH]; intros done_ by_controller unowned Hown; simpl.
  { by rewrite app_nil_r. }
  rewrite (cons_middle b done_ rest), app_assoc.
  destruct (List.find _ _) as [k|] eqn:Hfind.
  - apply find_some in Hfind as [Hanc%list_elem_of_In Hk]. bool_facts. apply IH.
    destruct Hown as [Hs Hu Hc]. split.
    + intros k' bs. destruct (decide (k = k')) as [<-|Hne].
      * rewrite lookup_insert_eq. intros [= <-]. split; [done|]. split.
        { intros Hnil. by apply app_eq_nil in Hnil as [_ ?]. }
        intros b' [Hb'|Hb'%list_elem_of_singleton]%elem_of_app; [|subst b'; set_solver].
        destruct (by_controller !! k) as [bs0|] eqn:Hbs; simpl in Hb';
          [|by apply elem_of_nil in Hb'].
        destruct (Hs _ _ Hbs) as (_ & _ & Hall). destruct (Hall _ Hb'). set_solver.
      * rewrite lookup_insert_ne by done. intros (? & ? & Hall)%Hs. split_and!; [done..|].
        intros b' Hb'. destruct (Hall _ Hb'). set_solver.
    + intros b' (? & ? & ?)%Hu. set_solver.
    + intros b' [Hb'|Hb'%list_elem_of_singleton]%elem_of_app.
      * destruct (Hc _ Hb') as [(k' & bs & Hbs & Hin)|Hother]; [left|by right].
        destruct (decide (k = k')) as [<-|Hne].
        -- exists k, (bs ++ [b]). rewrite lookup_insert_eq, Hbs. set_solver.
        -- exists k', bs. by rewrite lookup_insert_ne.
      * subst b'. left. exists k. eexists. rewrite lookup_insert_eq. split; [done|set_solver].
  - pose proof (find_controller_None _ _ Hfind) as Hnone. apply IH.
    destruct Hown as [Hs Hu Hc]. split.
    + intros k bs (? & ? & Hall)%Hs. split_and!; [done..|].
      intros b' Hb'. destruct (Hall _ Hb'). set_solver.
    + intros b' Hb'. destruct (get g b) as [p|] eqn:Hp;
        [destruct (bool_decide (0 < pack_anchor_count p pack)%N) eqn:Hpos; bool_facts|].
      1: apply elem_of_app in Hb' as [Hb'|Hb'%list_elem_of_singleton]; [|subst b'; set_solver].
      all: destruct (Hu _ Hb') as (? & ? & ?); set_solver.
    + intros b' [Hb'|Hb'%list_elem_of_singleton]%elem_of_app.
      * destruct (Hc _ Hb') as [?|[Hin|?]]; [by left|right; left|by right; right].
        destruct (get g b) as [p|]; [destruct (bool_decide _)|]; set_solver.
      * subst b'. right. destruct (get g b) as [p|] eqn:Hp;
          [destruct (bool_decide (0 < pack_anchor_count p pack)%N) eqn:Hpos; bool_facts|].
        -- left. set_solver.
        -- right. split; [done|]. intros p' [= <-]. lia.
        -- right. by split.
Qed.

Lemma owned_nil g pack controllers : owned g pack controllers [] ∅ [].
Proof.
  split.
  - intros k bs. by rewrite lookup_empty.
  - by intros b ?%elem_of_nil.
  - by intros b ?%elem_of_nil.
Qed.

Lemma elem_of_joined_recorders s g controller_pid browsers pack k :
  from_snapshot s = Ok g →
  k ∈ joined_recorder_pids g controller_pid browsers pack →
  ∃ controller p, get g controller_pid = Some controller ∧ get g k = Some p ∧
    is_joined_recorder controller controller_pid pack p = true.
Proof.
  intros Hg. unfold joined_recorder_pids.
  destruct (get g controller_pid) as [controller|]; [|by intros ?%elem_of_nil].
  destruct (_ || _); [by intros ?%elem_of_nil|].
  intros (p & -> & Hp)%list_elem_of_fmap. apply list_elem_of_In, filter_In in Hp as [Hp Hr].
  apply list_elem_of_In, elem_of_graph_records in Hp as [k' Hk'].
  destruct (from_snapshot_get _ _ _ _ Hg Hk') as [_ <-]. eauto.
Qed.

Lemma controller_candidate_wf s g pack k browsers controller :
  from_snapshot s = Ok g → get g k = Some controller →
  matches_controller controller pack = true →
  (∀ b, b ∈ browsers → k ∈ ancestor_pids g b ∧
     ∃ p, get g b = Some p ∧ is_browser_root p pack = true) →
  candidate_wf g pack (controller_candidate g pack k browsers).
Proof.
  intros Hg Hk Hm Hbs. unfold controller_candidate.
  set (members := _ ++ _).
  assert (Hmem : ∀ x, x ∈ members ↔ x = k ∨
    (∃ b, b ∈ browsers ∧ x ∈ descendant_pids g b) ∨
    x ∈ joined_recorder_pids g k (merge_sort N.le browsers) pack).
  { intros x. unfold members. rewrite !elem_of_app, list_elem_of_singleton, list_elem_of_bind.
    split; [intros [?|[(b & ? & Hb)|?]]|intros [?|[(b & Hb & ?)|?]]]; auto; right; left;
      exists b; split; try done; by apply (elem_of_merge_sort N.le). }
  destruct (dedup_sorted N.le (merge_sort N.le members)) as (Hsort & Hnd & Hin).
  { apply Sorted_merge_sort, _. }
  setoid_rewrite elem_of_merge_sort in Hin.
  assert (Hdesc : ∀ b x, x ∈ descendant_pids g b ↔ is_Some (get g x) ∧ rtc (child_edge g) b x)
    by (intros; by apply (descendant_pids_facts s)).
  split; simpl.
  - done.
  - by rewrite Hk.
  - apply Hin, Hmem. by left.
  - done.
  - intros x [->|[(b & _ & [? _]%Hdesc)|Hx]]%Hin%Hmem; [by rewrite Hk|done|].
    by destruct (elem_of_joined_recorders _ _ _ _ _ _ Hg Hx) as (_ & p & _ & -> & _).
  - intros b. rewrite merge_sort_Permutation. intros Hb.
    destruct (Hbs _ Hb) as (_ & p & Hp & Hr). split; [|eauto].
    apply Hin, Hmem. right; left. exists b. split; [done|]. apply Hdesc. split; [by rewrite Hp|].
    reflexivity.
  - intros k' [= <-]. split; [done|]. split; [eauto|]. intros b.
    rewrite merge_sort_Permutation. intros [Hanc _]%Hbs. by apply ancestor_pids_facts.
  - done.
  - intros x [->|[(b & Hb & [_ Hx]%Hdesc)|Hx]]%Hin%Hmem; [by left| |].
    + right; left. exists b. by rewrite merge_sort_Permutation.
    + right; right. by apply (elem_of_joined_recorders s) in Hx.
Qed.

Lemma pack_proposals_wf s g pack c :
  from_snapshot s = Ok g → c ∈ pack_proposals g pack → candidate_wf g pack c.
Proof.
  intros Hg. unfold pack_proposals.
  pose proof (own_browsers_owned g pack
    (pack_controllers g pack (pack_browser_roots g pack)) (pack_browser_roots g pack)
    [] ∅ [] (owned_nil _ _ _)) as Hown.
  destruct (own_browsers _ _ _ _ _ _) as [by_controller unowned]. simpl in Hown.
  rewrite !elem_of_app. intros [Hc|[Hc|Hc]].
  - apply list_elem_of_fmap in Hc as ([k bs] & -> & Hin%elem_of_btree_entries). simpl.
    destruct (owned_sound _ _ _ _ _ _ Hown _ _ Hin) as (Hk & _ & Hbs).
    apply (elem_of_pack_controllers s) in Hk as (p & Hp & Hm & _); [|done].
    eapply controller_candidate_wf; [done..|]. intros b Hb. destruct (Hbs _ Hb) as [Hbr Hanc].
    split; [done|]. by apply (elem_of_pack_browser_roots s) in Hbr.
  - apply list_elem_of_omap in Hc as (k & Hk & Hc).
    apply elem_of_btree_elements, elem_of_difference in Hk as [Hk _].
    apply (elem_of_pack_controllers s) in Hk as (p & Hp & Hm & _); [|done].
    unfold lone_controller_candidate in Hc. rewrite Hp in Hc. simpl in Hc. injection Hc as <-.
    split; simpl.
    + done.
    + by rewrite Hp.
    + by left.
    + split; [by repeat constructor|apply NoDup_singleton].
    + intros x ->%list_elem_of_singleton. by rewrite Hp.
    + by intros b ?%elem_of_nil.
    + intros k' [= <-]. split; [done|]. split; [eauto|]. by intros b ?%elem_of_nil.
    + done.
    + intros x ->%list_elem_of_singleton. by left.
  - apply list_elem_of_omap in Hc as (b & Hb & Hc).
    destruct (unowned_sound _ _ _ _ _ _ Hown _ Hb) as (Hbr & _ & p & Hp & Hpos).
    apply (elem_of_pack_browser_roots s) in Hbr as (p' & Hp' & Hroot); [|done].
    assert (p' = p) as -> by congruence.
    unfold unowned_candidate in Hc. rewrite Hp in Hc. simpl in Hc. injection Hc as <-.
    destruct (descendant_pids_facts s g b Hg) as (_ & Hsort & Hnd & Hdesc).
    split; simpl; try done.
    + apply Hdesc. split; [by rewrite Hp|reflexivity].
    + by intros x [? _]%Hdesc.
    + intros b' ->%list_elem_of_singleton. split; [|eauto]. apply Hdesc.
      split; [by rewrite Hp|reflexivity].
    + intros x [_ Hx]%Hdesc. right; left. exists b. split; [by left|done].
Qed.

(** Every controller and every browser root that can be attributed is proposed. *)
Lemma pack_proposals_complete s g pack :
  from_snapshot s = Ok g →
  (∀ k, k ∈ pack_controllers g pack (pack_browser_roots g pack) →
     ∃ c, c ∈ pack_proposals g pack ∧ candidate_root_pid c = k) ∧
  (∀ b p, b ∈ pack_browser_roots g pack → get g b = Some p →
     (∃ k, k ∈ pack_controllers g pack (pack_browser_roots g pack) ∧ tc (parent_edge g) b k) ∨
     (0 < pack_anchor_count p pack)%N →
     ∃ c, c ∈ pack_proposals g pack ∧ b ∈ browser_root_pids c).
Proof.
  intros Hg. unfold pack_proposals.
  set (controllers := pack_controllers g pack (pack_browser_roots g pack)).
  pose proof (own_browsers_owned g pack controllers (pack_browser_roots g pack)
    [] ∅ [] (owned_nil _ _ _)) as Hown.
  destruct (own_browsers _ _ _ _ _ _) as [by_controller unowned]. simpl in Hown.
  split.
  - intros k Hk. destruct (by_controller !! k) as [bs|] eqn:Hbs.
    + exists (controller_candidate g pack k bs). split; [|done].
      apply elem_of_app. left. apply list_elem_of_fmap. exists (k, bs). split; [done|].
      by apply elem_of_btree_entries.
    + destruct (proj1 (elem_of_pack_controllers s _ _ _ Hg) Hk) as (p & Hp & _ & _).
      eexists. split; [apply elem_of_app; right; apply elem_of_app; left; apply list_elem_of_omap;
        exists k; split; [|unfold lone_controller_candidate; by rewrite Hp]|done].
      apply elem_of_btree_elements, elem_of_difference. split; [done|].
      by rewrite not_elem_of_dom.
  - intros b p Hb Hp Hcase.
    destruct (owned_complete _ _ _ _ _ _ Hown b Hb) as [(k & bs & Hbs & Hin)|[Hin|[Hno Hzero]]].
    + exists (controller_candidate g pack k bs). split.
      * apply elem_of_app. left. apply list_elem_of_fmap. exists (k, bs). split; [done|].
        by apply elem_of_btree_entries.
      * simpl. by rewrite merge_sort_Permutation.
    + eexists. split; [apply elem_of_app; right; apply elem_of_app; right; apply list_elem_of_omap;
        exists b; split; [done|unfold unowned_candidate; by rewrite Hp]|by left].
    + destruct Hcase as [(k & Hk & Hanc)|Hpos].
      * destruct (Hno _ Hk). by apply ancestor_pids_facts.
      * rewrite (Hzero _ Hp) in Hpos. lia.
Qed.

Lemma candidates_proposed a g c :
  c ∈ candidates a g → ∃ pack, pack ∈ packs (rules a) ∧ c ∈ pack_proposals g pack.
Proof.
  intros Hc%elem_of_candidates. apply fold_select_selects in Hc as [Hc _].
  by apply list_elem_of_bind in Hc as (pack & ? & ?); exists pack.
Qed.

(** ** Properties *)

(** Candidates are disjointly rooted and well formed: no two share a root PID,
    and each is a proposal of a loaded pack whose root and members are observed
    processes, whose members are sorted, distinct and all explained (the root,
    a descendant of one of its browser roots, or a recorder joined to the
    controller), whose browser roots match the pack, and whose controller, if
    any, is its root, matches the pack and is an ancestor of every browser root. *)
Theorem candidates_well_formed a s g :
  from_snapshot s = Ok g →
  NoDup (candidate_root_pid <$> candidates a g) ∧
  ∀ c, c ∈ candidates a g → ∃ pack, pack ∈ packs (rules a) ∧ candidate_wf g pack c.
Proof.
  intros Hg. split.
  - unfold candidates, btree_values. set (m := fold_left _ _ _).
    assert (Hkeys : candidate_root_pid <$> (btree_entries N.le m).*2 = (btree_entries N.le m).*1).
    { rewrite <-list_fmap_compose. apply list_fmap_ext. intros i [r c] Hi. simpl.
      apply list_elem_of_lookup_2, elem_of_btree_entries in Hi.
      by apply fold_select_selects in Hi as [_ ?]. }
    rewrite Hkeys. unfold btree_entries. rewrite merge_sort_Permutation.
    apply NoDup_fst_map_to_list.
  - intros c (pack & Hpack & Hc)%candidates_proposed. exists pack. split; [done|].
    by eapply pack_proposals_wf.
Qed.

(** Nothing attributable is overlooked, and the best attribution wins: every
    matching controller, and every matching browser root with a matching
    controller above it or an anchor of the pack on it, is proposed as a candidate;
    and for every proposal the selection keeps a candidate with its root that has
    more anchors, or as many and a pack id not after it, whatever the order of
    the packs. *)
Theorem selection_complete a s g pack :
  from_snapshot s = Ok g → pack ∈ packs (rules a) →
  (∀ k, k ∈ pack_controllers g pack (pack_browser_roots g pack) →
     ∃ c, c ∈ pack_proposals g pack ∧ candidate_root_pid c = k) ∧
  (∀ b p, b ∈ pack_browser_roots g pack → get g b = Some p →
     (∃ k, k ∈ pack_controllers g pack (pack_browser_roots g pack) ∧ tc (parent_edge g) b k) ∨
     (0 < pack_anchor_count p pack)%N →
     ∃ c, c ∈ pack_proposals g pack ∧ b ∈ browser_root_pids c) ∧
  (∀ c, c ∈ pack_proposals g pack →
     ∃ c', c' ∈ candidates a g ∧ candidate_root_pid c' = candidate_root_pid c ∧
       ¬ ((candidate_anchor_count c' < candidate_anchor_count c)%N ∨
          (candidate_anchor_count c = candidate_anchor_count c' ∧
           String.le (pack_id (candidate_pack c)) (pack_id (candidate_pack c')) ∧
           pack_id (candidate_pack c) ≠ pack_id (candidate_pack c')))).
Proof.
  intros Hg Hpack. destruct (pack_proposals_complete s g pack Hg) as [Hctrl Hbrowser].
  split_and!; [done..|]. intros c Hc.
  destruct (fold_select_selects (packs (rules a) ≫= pack_proposals g)) as [Hsound Hbest].
  destruct (Hbest c) as (c' & Hc' & Hrep).
  { apply list_elem_of_bind. by exists pack. }
  destruct (Hsound _ _ Hc') as [_ Hroot]. exists c'. split_and!.
  - apply elem_of_candidates. by rewrite Hroot.
  - done.
  - rewrite <-replaces_spec. by rewrite Hrep.
Qed.
