(* ===== verification/Classify.v ===== *)
(** Classify: [Analyzer::classify] of [unlinger-rules/src/lib.rs] and the ownership
    lookups it uses.

    The body of [classify] is split along its blocks: facts, profiles, ownership,
    protections, evidence, owner state, gates, and the report. A [BTreeSet] of
    protection ids filled by guarded insertions is the set of the ids whose guard
    holds. *)

From S2P Require Import Prelude Text Model Fingerprint Artifact Graph Evidence Task Pack.
From S2P Require Import Matching Candidates.

(** ** Ownership lookups *)

(** [Analyzer::owned_task_controller]. *)
Definition owned_task_controller (a : Analyzer) (p : ProcessRecord) (pack : SignaturePack) :
    option TaskControllerBinding :=
  cli ← playwright_cli (runtime p);
  if negb (bool_decide (task_controller_version pack = Some (cli_version cli))) then None else
  id ← task_id_from_session (cli_session_name cli);
  List.find (λ b, bool_decide (task_id b = id) && exact_match (task_controller b) (identity p))
    (task_controllers (context a)).

(** [Analyzer::bound_session_owner]. *)
Definition bound_session_owner (a : Analyzer) (p : ProcessRecord) (pack : SignaturePack) :
    option SessionOwnerBinding :=
  if negb (bool_decide (pack_id pack = "playwright"))
     || bool_decide (length (session_owners (context a)) = 0) then None else
  cli ← playwright_cli (runtime p);
  if bool_decide (is_Some (task_id_from_session (cli_session_name cli))) then None else
  if negb (bool_decide (session_owner_controller_version pack = Some (cli_version cli)))
  then None else
  selector_fingerprint ← cli_selector_fingerprint cli;
  List.find (λ b, bool_decide (owner_selector_fingerprint b = selector_fingerprint)
                  && bool_decide (owner_session_name b = cli_session_name cli)
                  && bool_decide (owner_controller_version b = cli_version cli)
                  && exact_match (owner_controller b) (identity p))
    (session_owners (context a)).

(** The exempt crashpad helper of [any_external_session_work]. *)
Definition is_session_crashpad (g : ProcessGraph) (session_members : gset N)
    (p : ProcessRecord) : bool :=
  bool_decide (executable_basename p = "chrome_crashpad_handler")
  && args_contain p "--monitor-self-annotation=ptype=crashpad-handler"
  && match crashpad_bundle (runtime p) with
     | Some bundle =>
         bool_decide (bundle_id bundle = "com.google.chrome.for.testing")
         && existsb (λ browser, bool_decide (process_pid browser ∈ session_members)
                                && bool_decide (app_bundle (runtime browser) = Some bundle))
              (graph_records g)
     | None => false
     end.

(** [Analyzer::any_external_session_work]. *)
Definition any_external_session_work (g : ProcessGraph) (session_members : gset N)
    (carries_selector : ProcessRecord → bool) : bool :=
  existsb (λ p,
    if bool_decide (process_pid p ∈ session_members) then false
    else if is_session_crashpad g session_members p then false
    else carries_selector p) (graph_records g).

(** The exact controller of a binding with its descendants. *)
Definition binding_members (g : ProcessGraph) (controller : ProcessIdentity) : gset N :=
  match get g (pid controller) with
  | Some p => if exact_match controller (identity p)
              then {[pid controller]} ∪ list_to_set (descendant_pids g (pid controller)) else ∅
  | None => ∅
  end.

(** [Analyzer::session_has_live_work]. *)
Definition session_has_live_work (a : Analyzer) (g : ProcessGraph) (session_id : string) : bool :=
  let browser_members :=
    fold_left (λ members b,
        if bool_decide (task_id b = session_id)
        then members ∪ binding_members g (task_controller b) else members)
      (task_controllers (context a)) ∅ in
  any_external_session_work g browser_members (λ p,
    bool_decide ((task_session_name (runtime p) ≫= task_id_from_session) = Some session_id)
    || existsb (λ flag,
         bool_decide ((flag_value p flag ≫= task_id_from_session) = Some session_id))
         ["--session"; "-s"]).

(** [Analyzer::task_has_live_work]. *)
Definition task_has_live_work (a : Analyzer) (g : ProcessGraph) (id : string) : bool :=
  session_has_live_work a g id.

(** [Analyzer::ordinary_session_has_live_work]. *)
Definition ordinary_session_has_live_work (g : ProcessGraph) (b : SessionOwnerBinding) : bool :=
  any_external_session_work g (binding_members g (owner_controller b)) (λ p,
    existsb (λ flag, bool_decide (flag_value p flag = Some (owner_session_name b)))
      ["--session"; "-s"]).

(** ** Facts of a candidate *)

(** The ids of the rows whose guard holds. *)
Definition guarded (rows : list (bool * string)) : gset string :=
  list_to_set (omap (λ row, if row.1 : bool then Some row.2 else None) rows).

Section Classify.
Context (a : Analyzer) (g : ProcessGraph) (c : Candidate) (observed_at : N).

Definition members : list ProcessRecord := omap (get g) (member_pids c).

Definition browser_roots : list ProcessRecord := omap (get g) (browser_root_pids c).

Definition has_browser_roots : bool := negb (bool_decide (length browser_roots = 0)).

Definition same_user_members : bool :=
  forallb (λ p, bool_decide (uid p = graph_current_uid g) && bool_decide (uid p ≠ 0%N)) members.

(** The protections of the process facts. *)
Definition fact_protections : gset string :=
  guarded
    [(negb same_user_members, "protection.uid_or_root");
     (bool_decide (0%N ∈ member_pids c) || bool_decide (1%N ∈ member_pids c),
      "protection.system_pid");
     (match self_pid (context a) with
      | Some pid => bool_decide (pid ∈ member_pids c)
      | None => false
      end
      || existsb (λ pid, bool_decide (pid ∈ context_ancestor_pids (context a))) (member_pids c),
      "protection.unlinger_or_ancestor");
     (existsb (λ pid, lineage_has_cycle g pid || has_unresolved_parent g pid) (member_pids c),
      "protection.incomplete_or_cyclic_graph");
     (existsb (λ p, negb (has_complete_classification_facts p)) members,
      "protection.incomplete_process_facts")].

Definition has_controller : bool := bool_decide (is_Some (candidate_controller_pid c)).

Definition framework_argument : bool :=
  existsb (λ p, process_contains_any p (framework_markers (candidate_pack c)))
    (match candidate_controller_pid c ≫= get g with Some p => [p] | None => [] end
     ++ browser_roots).

Definition headless : bool :=
  has_browser_roots && forallb (λ p, args_contain_any p HEADLESS_MARKERS) browser_roots.

Definition transport : bool :=
  existsb (λ p, args_contain_any p TRANSPORT_MARKERS) browser_roots.

Definition debug_pipe : bool :=
  existsb (λ p, args_contain p "--remote-debugging-pipe") browser_roots.

Definition version_gate : option BrowserVersionGate :=
  if has_browser_roots
  then Some (evaluate_browser_versions browser_roots (version_policy (candidate_pack c)))
  else None.

Definition recognized_browser_product : bool :=
  has_browser_roots
  && match policy_bundle_id (version_policy (candidate_pack c)) with
     | Some bundle =>
         forallb (λ p, match app_bundle (runtime p) with
                       | Some fact => bool_decide (bundle_id fact = bundle)
                       | None => false
                       end) browser_roots
     | None => false
     end.

(** *** Profiles *)

Definition profile_paths : list string :=
  omap (λ p, flag_value p "--user-data-dir") browser_roots.

Definition standard_profile : bool :=
  existsb (λ path, contains_any path STANDARD_PROFILE_MARKERS) profile_paths.

Definition ephemeral_profile : bool :=
  negb (bool_decide (profile_paths = []))
  && forallb (λ path, contains_any path (ephemeral_profile_markers (candidate_pack c))
                      && is_ephemeral_path path) profile_paths.

Definition persistent_profile : bool :=
  negb (bool_decide (profile_paths = [])) && negb ephemeral_profile.

Definition has_debug_port : bool :=
  existsb (λ p, args_contain p "--remote-debugging-port") browser_roots.

Definition manual_cdp : bool := negb has_controller && negb ephemeral_profile && has_debug_port.

Definition shared_profile : bool :=
  existsb (λ profile,
    existsb (λ p,
      negb (bool_decide (process_pid p ∈ member_pids c))
      && match flag_value p "--user-data-dir" with
         | Some other => bool_decide (normalize other = normalize profile)
         | None => false
         end) (graph_records g)) profile_paths.

Definition control_path_incomplete : bool :=
  has_debug_port
  && existsb (λ p, negb (debug_transport_facts_complete (runtime p))) browser_roots.

(** The protections of profiles and debug transports. *)
Definition profile_protections : gset string :=
  guarded
    [(standard_profile, "protection.standard_browser_profile");
     (has_browser_roots && negb headless, "protection.headed_or_human_control");
     (persistent_profile, "protection.persistent_or_unknown_profile");
     (manual_cdp, "protection.manual_cdp");
     (shared_profile, "protection.profile_shared_outside_incident");
     (existsb (λ p, attached_debug_transport (runtime p)) browser_roots,
      "protection.attached_debug_peer");
     (control_path_incomplete, "protection.debug_peer_visibility_incomplete")].

Section Root.
Context (root : ProcessRecord).

(** *** Ownership *)

Definition owned_task : option TaskControllerBinding :=
  if bool_decide (pack_id (candidate_pack c) = "playwright")
  then owned_task_controller a root (candidate_pack c) else None.

Definition session_owner : option SessionOwnerBinding :=
  if bool_decide (pack_id (candidate_pack c) = "playwright")
     && bool_decide (owned_task = None)
  then bound_session_owner a root (candidate_pack c) else None.

(** Some process hides its session selector, or the root its descriptors. *)
Definition session_visibility_incomplete : bool :=
  negb (descriptor_facts_complete (runtime root))
  || existsb (λ p, negb (task_session_facts_complete (runtime p))) (graph_records g).

Definition root_has_clients : bool :=
  negb (bool_decide (connected_named_unix_socket_fingerprints (runtime root) = [])).

(** A flag of the root's recognised command line. A bound controller has one. *)
Definition root_cli (f : PlaywrightCliRuntime → bool) : bool :=
  match playwright_cli (runtime root) with Some cli => f cli | None => false end.

(** The protections of a task-owned or host-owned controller, or of one nobody owns. *)
Definition ownership_protections : gset string :=
  match owned_task with
  | Some binding =>
      guarded
        [(negb (task_released binding), "protection.task_owner_active");
         (root_cli cli_persistent, "protection.persistent_or_unknown_profile");
         (root_cli cli_attached, "protection.attached_debug_peer");
         (session_visibility_incomplete, "protection.task_client_visibility_incomplete");
         (root_has_clients || task_has_live_work a g (task_id binding),
          "protection.task_client_active")]
  | None =>
      if negb has_controller then ∅ else
      match session_owner with
      | Some binding =>
          guarded
            [(negb (owner_released binding), "protection.session_owner_active");
             (root_cli cli_persistent, "protection.persistent_or_unknown_profile");
             (root_cli cli_attached, "protection.attached_debug_peer");
             (session_visibility_incomplete,
              "protection.session_owner_visibility_incomplete");
             (root_has_clients || ordinary_session_has_live_work g binding,
              "protection.session_owner_client_active")]
      | None =>
          if ordinary_cli_session root
             && ordinary_controller_version_supported (candidate_pack c) root
          then {["protection.ordinary_session_owner_unverified"]}
          else {["protection.controller_version_unverified"]}
      end
  end.

Definition ownership_evidence : list EvidenceItem :=
  match owned_task with
  | Some _ => [item "provenance.task_registered" AutomationProvenance (Some (process_pid root))]
  | None =>
      if has_controller && bool_decide (is_Some session_owner)
      then [item "provenance.session_owner_registered" AutomationProvenance
              (Some (process_pid root))]
      else []
  end.

(** *** Version and age *)

Definition version_protections : gset string :=
  match version_gate with
  | Some (ExactSupported | RangeSupported) => ∅
  | Some GateObservational => {["protection.version_observational_only"]}
  | Some MissingFacts => {["protection.browser_version_missing"]}
  | Some MixedFacts => {["protection.browser_version_mixed"]}
  | Some UnsupportedProduct => {["protection.browser_product_unsupported"]}
  | Some UnsupportedVersion => {["protection.browser_version_unsupported"]}
  | None => ∅
  end.

Definition missing_browser_evidence : list EvidenceItem :=
  match version_gate with
  | None => [item "ambiguity.browser_root_missing" Abandonment (candidate_controller_pid c)]
  | Some _ => []
  end.

Definition age_protections : gset string :=
  match candidate_age_gate observed_at (started_at_unix_micros (identity root)) with
  | AgeEligible => ∅
  | TooYoung => {["protection.minimum_candidate_age_not_met"]}
  | AgeUnknown => {["protection.candidate_age_unknown"]}
  end.

Definition recorder_protections : gset string :=
  guarded [(has_browser_roots && has_plausible_unjoined_recorder g c browser_roots,
            "protection.unjoined_recorder_residue")].

(** The whole [protection] set. *)
Definition protection : gset string :=
  fact_protections ∪ profile_protections ∪ ownership_protections ∪ version_protections
  ∪ age_protections ∪ recorder_protections.

(** *** Provenance *)

Definition first_browser : option N := head (browser_root_pids c).

Definition provenance_evidence : list EvidenceItem :=
  (if has_controller
   then [item "provenance.controller_lineage" AutomationProvenance (candidate_controller_pid c)]
   else [])
  ++ (if framework_argument
      then [item "provenance.framework_marker" AutomationProvenance (Some (process_pid root))]
      else [])
  ++ (if ephemeral_profile
      then [item "provenance.ephemeral_profile" AutomationProvenance first_browser;
            item "isolation.dedicated_ephemeral_profile" Isolation first_browser]
      else [])
  ++ (if transport
      then [item (if debug_pipe then "provenance.private_debug_pipe" else "provenance.debug_port")
              AutomationProvenance first_browser]
      else [])
  ++ (if headless
      then [item "provenance.headless_mode" AutomationProvenance first_browser] else [])
  ++ (if recognized_browser_product
      then [item "provenance.automation_browser_binary" AutomationProvenance first_browser]
      else [])
  ++ match version_gate with
     | Some ExactSupported =>
         [item "version.browser_exact_allowlist" AutomationProvenance first_browser]
     | Some RangeSupported =>
         [item "version.browser_bounded_range" AutomationProvenance first_browser]
     | _ => []
     end.

Definition provenance_categories : N :=
  (N.b2n has_controller + N.b2n framework_argument + N.b2n ephemeral_profile
   + N.b2n transport + N.b2n headless + N.b2n recognized_browser_product)%N.

Definition framework_anchor : bool := has_controller || framework_argument || ephemeral_profile.

Definition strong_provenance : bool :=
  framework_anchor && bool_decide (3 ≤ provenance_categories)%N.

(** *** Owner state *)

Definition verified_owner_release : option bool :=
  match owned_task with
  | Some binding => Some (task_released binding)
  | None => owner_released <$> session_owner
  end.

Definition owner_is_released : bool := bool_decide (verified_owner_release = Some true).

Definition controller_parent_live : bool :=
  negb owner_is_released
  && match candidate_controller_pid c ≫= get g with
     | Some controller => bool_decide (1 < parent_pid controller)%N
                          && bool_decide (is_Some (get g (parent_pid controller)))
     | None => false
     end.

Definition controller_reparented : bool :=
  match candidate_controller_pid c ≫= get g with
  | Some controller => bool_decide (parent_pid controller = 1%N)
  | None => false
  end.

Definition owner_missing : bool :=
  match verified_owner_release with
  | Some released => released
  | None =>
      controller_reparented
      || (bool_decide (candidate_controller_pid c = None) && has_browser_roots
          && forallb (λ browser, bool_decide (parent_pid browser = 1%N)
                                 || bool_decide (get g (parent_pid browser) = None))
               browser_roots)
  end.

Definition abandonment_evidence : list EvidenceItem :=
  if match owned_task with Some binding => task_released binding | None => false end
  then [item "abandonment.task_released" Abandonment (Some (process_pid root))]
  else if match session_owner with Some binding => owner_released binding | None => false end
  then [item "abandonment.session_owner_released" Abandonment (Some (process_pid root))]
  else if controller_parent_live
  then [item "abandonment.live_controller_owner" Abandonment (candidate_controller_pid c)]
  else if controller_reparented
  then [item "abandonment.controller_reparented" Abandonment (candidate_controller_pid c)]
  else if owner_missing
  then [item "abandonment.controller_missing" Abandonment (Some (process_pid root))]
  else [].

(** *** Gates and state *)

Definition isolated : bool := ephemeral_profile && negb shared_profile && negb standard_profile.

Definition classify_evidence : list EvidenceItem :=
  sort_evidence
    (ownership_evidence ++ missing_browser_evidence ++ provenance_evidence
     ++ abandonment_evidence
     ++ ((λ id, item id Protection (Some (process_pid root)))
           <$> btree_elements String.le protection)).

Definition classify_gates : GateLedger :=
  mkGateLedger same_user_members strong_provenance false isolated false false
    (bool_decide (protection = ∅)).

Definition classify_state : IncidentState :=
  if negb (bool_decide (protection = ∅)) then Protected
  else if controller_parent_live then Active
  else if strong_provenance && owner_missing && isolated then Cooling
  else Ambiguous.

(** *** Report *)

Definition role_counts : list ProcessRoleCount :=
  (λ entry, mkProcessRoleCount entry.1 entry.2) <$>
    btree_entries role_le
      (fold_left (λ counts p,
           let role := process_role p c in
           <[role := (default 0 (counts !! role) + 1)%N]> counts) members
         (∅ : gmap ProcessRole N)).

Definition report_targets : list ProcessTarget :=
  (λ p, mkProcessTarget (identity p) (process_group_id p) (process_role p c)) <$> members.

Definition session_rows : list string := merge_sort String.le (normalize <$> profile_paths).

Definition report_session_fingerprint : string :=
  "ses-" +:+
    match session_rows with
    | [] => fingerprint_parts
              [pack_id (candidate_pack c) +:+ ":"
               +:+ fingerprint_process_identity (identity root)]
    | rows => fingerprint_parts rows
    end.

(** [unique_profiles]: the first path of each normalized profile. *)
Definition unique_profiles : gmap string string :=
  fold_left (λ profiles profile,
      match profiles !! normalize profile with
      | Some _ => profiles
      | None => <[normalize profile := profile]> profiles
      end) profile_paths ∅.

Definition report_artifacts : list RuntimeArtifactCandidate :=
  if policy_devtools_active_port (artifact_policy (candidate_pack c))
     && match version_gate with Some gate => gate_supported gate | None => false end
     && bool_decide (protection = ∅)
     && strong_provenance
     && owner_missing
     && ephemeral_profile
     && negb shared_profile
     && negb standard_profile
     && bool_decide (size unique_profiles = 1)
  then match head (btree_values String.le unique_profiles) with
       | Some profile =>
           match devtools_active_port profile (graph_current_uid g) report_session_fingerprint with
           | Ok artifact => [artifact]
           | Err _ => []
           end
       | None => []
       end
  else [].

Definition classify_report : IncidentReport :=
  let identity_fingerprint := fingerprint_process_identity (identity root) in
  mkIncidentReport
    ("inc-" +:+ fingerprint_parts
       [pack_id (candidate_pack c) +:+ ":" +:+ show_N (process_pid root) +:+ ":"
        +:+ identity_fingerprint])
    ("trk-" +:+ fingerprint_parts
       [pack_id (candidate_pack c) +:+ ":" +:+ show_N (process_pid root)])
    report_session_fingerprint
    (pack_id (candidate_pack c))
    (pack_version (candidate_pack c))
    classify_state
    (mkRootSummary (process_pid root) (started_at_unix_micros (identity root))
       (executable_basename root) identity_fingerprint)
    (N.of_nat (length members))
    (fold_left (λ sum p, wrapping_add sum (resident_memory_bytes p)) members 0%N)
    (process_set_fingerprint g (member_pids c))
    role_counts
    classify_evidence
    classify_gates
    (browser_compatibility browser_roots version_gate
       (unverified_controller_reason has_controller (bool_decide (is_Some owned_task))
          (bool_decide (is_Some session_owner)) root (candidate_pack c))
       control_path_incomplete)
    report_targets
    report_artifacts.
End Root.

(** [Analyzer::classify]. *)
Definition classify : option IncidentReport :=
  root ← get g (candidate_root_pid c); Some (classify_report root).
End Classify.

(** ** Specification *)

(** What a Cooling report says of its candidate. *)
Record cooling_facts (a : Analyzer) (g : ProcessGraph) (c : Candidate) (observed_at : N)
    (root : ProcessRecord) : Prop := {
  cooling_members : ∀ p, p ∈ members g c →
    uid p = graph_current_uid g ∧ uid p ≠ 0%N ∧ has_complete_classification_facts p = true;
  cooling_pids : ∀ k, k ∈ member_pids c →
    k ≠ 0%N ∧ k ≠ 1%N ∧ self_pid (context a) ≠ Some k ∧
    k ∉ context_ancestor_pids (context a) ∧
    lineage_has_cycle g k = false ∧ has_unresolved_parent g k = false;
  cooling_browsers : browser_roots g c ≠ [] ∧ ∀ p, p ∈ browser_roots g c →
    args_contain_any p HEADLESS_MARKERS = true ∧ attached_debug_transport (runtime p) = false;
  cooling_version : gate_supported
    (evaluate_browser_versions (browser_roots g c) (version_policy (candidate_pack c))) = true;
  cooling_profiles : profile_paths g c ≠ [] ∧ ∀ path, path ∈ profile_paths g c →
    is_ephemeral_path path = true ∧
    contains_any path (ephemeral_profile_markers (candidate_pack c)) = true ∧
    contains_any path STANDARD_PROFILE_MARKERS = false;
  cooling_unshared : ∀ path p other, path ∈ profile_paths g c → p ∈ graph_records g →
    flag_value p "--user-data-dir" = Some other → normalize other = normalize path →
    process_pid p ∈ member_pids c;
  cooling_age :
    candidate_age_gate observed_at (started_at_unix_micros (identity root)) = AgeEligible;
  cooling_provenance : strong_provenance g c = true;
  cooling_owner : owner_missing a g c root = true;
  cooling_verified_owner : candidate_controller_pid c ≠ None →
    verified_owner_release a c root = Some true;
}.

(** ** Lemmas: protections *)

Lemma elem_of_guarded rows id :
  id ∈ guarded rows ↔ (true, id) ∈ rows.
Proof.
  unfold guarded. rewrite elem_of_list_to_set, list_elem_of_omap. split.
  - intros ([b i] & Hin & Heq). by destruct b; simplify_eq/=.
  - intros Hin. by exists (true, id).
Qed.

Lemma guarded_empty rows : guarded rows = ∅ ↔ Forall (λ row, row.1 = false) rows.
Proof.
  split.
  - intros Hempty. apply Forall_forall. intros [[] id] Hin; [|done].
    apply elem_of_guarded in Hin. rewrite Hempty in Hin. set_solver.
  - intros Hall. apply set_eq. intros id. rewrite elem_of_guarded. split; [|set_solver].
    intros Hin. rewrite Forall_forall in Hall. by apply Hall in Hin.
Qed.

Lemma protection_empty a g c obs root :
  protection a g c obs root = ∅ ↔
  fact_protections a g c = ∅ ∧ profile_protections g c = ∅ ∧
  ownership_protections a g c root = ∅ ∧ version_protections g c = ∅ ∧
  age_protections obs root = ∅ ∧ recorder_protections g c = ∅.
Proof. unfold protection. rewrite !empty_union_L. tauto. Qed.

Lemma forallb_true {A} (f : A → bool) l : forallb f l = true ↔ ∀ x, x ∈ l → f x = true.
Proof. rewrite forallb_forall. by setoid_rewrite <-list_elem_of_In. Qed.

Lemma fact_protections_empty a g c :
  fact_protections a g c = ∅ →
  (∀ p, p ∈ members g c →
     uid p = graph_current_uid g ∧ uid p ≠ 0%N ∧ has_complete_classification_facts p = true) ∧
  (∀ k, k ∈ member_pids c →
     k ≠ 0%N ∧ k ≠ 1%N ∧ self_pid (context a) ≠ Some k ∧
     k ∉ context_ancestor_pids (context a) ∧
     lineage_has_cycle g k = false ∧ has_unresolved_parent g k = false).
Proof.
  unfold fact_protections. rewrite guarded_empty, !Forall_cons. simpl.
  intros (Huser & [H0 H1]%orb_false_elim & [Hself Hanc]%orb_false_elim & Hgraph & Hfacts & _).
  bool_facts. unfold same_user_members in Huser.
  rewrite forallb_true in Huser. rewrite existsb_false in Hanc.
  rewrite existsb_false in Hgraph. rewrite existsb_false in Hfacts. split.
  - intros p Hp. specialize (Huser p Hp). specialize (Hfacts p Hp). bool_facts. done.
  - intros k Hk. specialize (Hanc k Hk). specialize (Hgraph k Hk). bool_facts.
    split_and!; try done; [by intros ->|by intros ->|]. intros Heq. rewrite Heq in Hself.
    by bool_facts.
Qed.

(** A controller nobody released protects its candidate. *)
Lemma ownership_protections_empty a g c root :
  ownership_protections a g c root = ∅ → candidate_controller_pid c ≠ None →
  verified_owner_release a c root = Some true.
Proof.
  unfold ownership_protections, verified_owner_release, has_controller. intros Hempty Hc.
  rewrite bool_decide_true in Hempty by (by apply not_eq_None_Some). simpl in Hempty.
  destruct (owned_task a c root) as [b|].
  - apply guarded_empty, Forall_cons in Hempty as [Hb _]. simpl in Hb. bool_facts. congruence.
  - destruct (session_owner a c root) as [b|]; simpl.
    + apply guarded_empty, Forall_cons in Hempty as [Hb _]. simpl in Hb. bool_facts. congruence.
    + destruct (_ && _); set_solver.
Qed.

Lemma version_protections_empty g c :
  version_protections g c = ∅ → has_browser_roots g c = true →
  gate_supported
    (evaluate_browser_versions (browser_roots g c) (version_policy (candidate_pack c))) = true.
Proof.
  unfold version_protections, version_gate. intros Hv Hb. rewrite Hb in Hv.
  destruct (evaluate_browser_versions _ _); try done; set_solver.
Qed.

Lemma has_browser_roots_true g c : has_browser_roots g c = true ↔ browser_roots g c ≠ [].
Proof.
  unfold has_browser_roots. rewrite negb_true_iff, bool_decide_eq_false.
  by destruct (browser_roots g c).
Qed.

Lemma profile_paths_browser_roots g c path :
  path ∈ profile_paths g c → has_browser_roots g c = true.
Proof.
  intros (p & Hp & _)%list_elem_of_omap. apply has_browser_roots_true. intros Hnil.
  rewrite Hnil in Hp. by apply elem_of_nil in Hp.
Qed.

Lemma ephemeral_profile_true g c :
  ephemeral_profile g c = true ↔
  profile_paths g c ≠ [] ∧ ∀ path, path ∈ profile_paths g c →
    contains_any path (ephemeral_profile_markers (candidate_pack c)) = true ∧
    is_ephemeral_path path = true.
Proof.
  unfold ephemeral_profile.
  rewrite andb_true_iff, negb_true_iff, bool_decide_eq_false, forallb_true.
  by setoid_rewrite andb_true_iff.
Qed.

(** ** Lemmas: the verdict *)

Lemma classify_state_cooling a g c obs root :
  classify_state a g c obs root = Cooling →
  protection a g c obs root = ∅ ∧ strong_provenance g c = true ∧
  owner_missing a g c root = true ∧ isolated g c = true.
Proof.
  unfold classify_state. destruct (negb _) eqn:Hp; [done|]. bool_facts.
  destruct (controller_parent_live _ _ _ _); [done|].
  destruct (_ && _) eqn:Hand; [|done]. bool_facts. done.
Qed.

Lemma classify_cooling_facts a g c obs root :
  classify_state a g c obs root = Cooling → cooling_facts a g c obs root.
Proof.
  intros (Hprot & Hstrong & Hmissing & Hiso)%classify_state_cooling.
  apply protection_empty in Hprot as (Hfact & Hprof & Hown & Hver & Hage & _).
  apply fact_protections_empty in Hfact as [Hmem Hpids].
  unfold isolated in Hiso. bool_facts.
  match goal with H : ephemeral_profile _ _ = true |- _ =>
    apply ephemeral_profile_true in H as [Hpaths Heph] end.
  assert (Hroots : has_browser_roots g c = true).
  { apply not_nil_elem in Hpaths as [path Hpath]. by eapply profile_paths_browser_roots. }
  unfold profile_protections in Hprof. rewrite guarded_empty, !Forall_cons in Hprof.
  simpl in Hprof. destruct Hprof as (Hstd & Hheadless & _ & _ & Hshared & Hattached & _).
  rewrite Hroots in Hheadless. simpl in Hheadless. apply negb_false_iff in Hheadless.
  unfold headless in Hheadless. apply andb_true_iff in Hheadless as [_ Hheadless].
  rewrite forallb_true in Hheadless.
  unfold standard_profile, shared_profile in *.
  rewrite existsb_false in Hstd. rewrite existsb_false in Hattached.
  rewrite existsb_false in Hshared. split; try done.
  - split; [by apply has_browser_roots_true|]. intros p Hp. split; [|by apply Hattached].
        by apply Hheadless.
  - by apply version_protections_empty.
  - split; [done|]. intros path Hpath. destruct (Heph _ Hpath). auto.
  - intros path p other Hpath Hp Hflag Hnorm. specialize (Hshared path Hpath).
    rewrite existsb_false in Hshared. specialize (Hshared p Hp). rewrite Hflag in Hshared.
    rewrite (bool_decide_true _ Hnorm), andb_true_r in Hshared. by bool_facts.
  - unfold age_protections in Hage. destruct (candidate_age_gate _ _); [done|set_solver..].
  - by eapply ownership_protections_empty.
Qed.

(** ** Lemmas: report contents *)

Lemma list_filter_fmap {A B} (f : A → B) (P : B → Prop) `{!∀ x, Decision (P x)} (l : list A) :
  filter P (f <$> l) = f <$> filter (λ x, P (f x)) l.
Proof.
  induction l as [|x l IH]; [done|]. rewrite fmap_cons.
  destruct (decide (P (f x))).
  - rewrite !filter_cons_True by done. by rewrite IH.
  - by rewrite !filter_cons_False.
Qed.

(** How many members have a role. *)
Definition role_total (c : Candidate) (role : ProcessRole) (ps : list ProcessRecord) : N :=
  N.of_nat (length (filter (λ p, process_role p c = role) ps)).

Lemma role_total_snoc c role ps p :
  role_total c role (ps ++ [p]) =
  (role_total c role ps + if bool_decide (process_role p c = role) then 1 else 0)%N.
Proof.
  unfold role_total. rewrite filter_app, length_app.
  destruct (decide (process_role p c = role)) as [Heq|Hne].
  - rewrite bool_decide_true by done. rewrite filter_cons_True by done. simpl. lia.
  - rewrite bool_decide_false by done. rewrite filter_cons_False by done. simpl. lia.
Qed.

Lemma elem_of_role_counts g c role n :
  mkProcessRoleCount role n ∈ role_counts g c ↔
  n = role_total c role (members g c) ∧ (0 < n)%N.
Proof.
  unfold role_counts. set (counts := fold_left _ _ _).
  assert (Hcounts : ∀ r, counts !! r =
    if bool_decide (role_total c r (members g c) = 0%N) then None
    else Some (role_total c r (members g c))).
  { unfold counts. clear. intros r. induction (members g c) as [|p ps IH] using rev_ind;
      [done|]. rewrite fold_left_app. simpl. rewrite role_total_snoc.
    destruct (decide (process_role p c = r)) as [<-|Hne].
    - rewrite lookup_insert_eq, IH, (bool_decide_true (process_role p c = _)) by done.
      rewrite (bool_decide_false (_ + 1 = _)%N) by lia.
      destruct (bool_decide (_ = 0%N)) eqn:Hz; bool_facts; simpl; [by rewrite Hz|done].
    - rewrite lookup_insert_ne by done.
      rewrite (bool_decide_false (process_role p c = r)) by done. by rewrite N.add_0_r. }
  rewrite list_elem_of_fmap. split.
  - intros ([r k] & [= -> ->] & Hin%elem_of_btree_entries). simpl in *.
    rewrite Hcounts in Hin. destruct (bool_decide _) eqn:Hz; [done|]. bool_facts.
    injection Hin as <-. split; [done|lia].
  - intros [Hn Hpos]. exists (role, n). split; [done|]. apply elem_of_btree_entries.
    rewrite Hcounts, bool_decide_false by lia. by rewrite <-Hn.
Qed.

Lemma omap_get_pids s g (pids : list N) :
  from_snapshot s = Ok g → (∀ k, k ∈ pids → is_Some (get g k)) →
  process_pid <$> omap (get g) pids = pids.
Proof.
  intros Hg. induction pids as [|k pids IH]; intros Hall; [done|]. simpl.
  destruct (Hall k) as [p Hp]; [by left|]. rewrite Hp. simpl.
  destruct (from_snapshot_get _ _ _ _ Hg Hp) as [_ ->]. f_equal. apply IH.
  intros k' Hk'. apply Hall. by right.
Qed.

Lemma report_targets_pids s g c pack :
  from_snapshot s = Ok g → candidate_wf g pack c →
  target_pid <$> report_targets g c = member_pids c.
Proof.
  intros Hg Hwf. unfold report_targets. rewrite <-list_fmap_compose.
  apply (omap_get_pids s); [done|]. apply (candidate_wf_observed _ _ _ Hwf).
Qed.

Lemma classify_Some a g c obs r :
  classify a g c obs = Some r ↔
  ∃ root, get g (candidate_root_pid c) = Some root ∧ r = classify_report a g c obs root.
Proof.
  unfold classify. rewrite bind_Some. split; intros (root & Hroot & Heq); exists root;
    split; congruence.
Qed.

Lemma report_artifacts_wf a g c obs root :
  length (report_artifacts a g c obs root) ≤ 1 ∧
  ∀ x, x ∈ report_artifacts a g c obs root →
    devtools_active_port (profile_path x) (graph_current_uid g)
      (report_session_fingerprint g c root) = Ok x ∧
    profile_path x ∈ profile_paths g c ∧
    policy_devtools_active_port (artifact_policy (candidate_pack c)) = true ∧
    protection a g c obs root = ∅.
Proof.
  unfold report_artifacts.
  destruct (_ && _) eqn:Hguard; [|split; [simpl; lia|by intros x ?%elem_of_nil]].
  destruct (head _) as [profile|] eqn:Hhead; [|split; [simpl; lia|by intros x ?%elem_of_nil]].
  destruct (devtools_active_port _ _ _) as [x|] eqn:Hx;
    [|split; [simpl; lia|by intros x ?%elem_of_nil]].
  split; [done|]. intros y ->%list_elem_of_singleton. bool_facts.
  assert (Hpath : profile_path x = profile).
  { unfold devtools_active_port in Hx. apply result_bind_Ok in Hx as (_ & _ & Hx).
    split_matches. }
  rewrite Hpath. split_and!; try done.
  apply head_Some_elem_of in Hhead. apply elem_of_btree_values in Hhead as [k Hk].
  revert Hk. unfold unique_profiles. generalize k profile. clear.
  assert (Hgen : ∀ paths (m : gmap string string) k v,
    fold_left (λ profiles profile, match profiles !! normalize profile with
      | Some _ => profiles | None => <[normalize profile := profile]> profiles end)
      paths m !! k = Some v → m !! k = Some v ∨ v ∈ paths).
  { induction paths as [|p paths IH]; intros m k v; simpl; [by left|]. intros [Hm|Hin]%IH.
    - destruct (m !! normalize p) eqn:Hp; [by left|].
      apply lookup_insert_Some in Hm as [[_ ->]|[_ Hm]]; [right; by left|by left].
    - right. by right. }
  intros k v [Hm|Hin]%Hgen; [|done]. by rewrite lookup_empty in Hm.
Qed.

(** ** Properties *)

(** A single observation never authorises cleanup: it yields only Protected,
    Active, Cooling or Ambiguous, its gate ledger is never eligible, and it is
    Protected exactly when some protection applies, which the ledger records. *)
Theorem one_observation_never_confirms a g c obs r :
  classify a g c obs = Some r →
  state r ∈ [Protected; Active; Cooling; Ambiguous] ∧
  cleanup_eligible (gates r) = false ∧
  (state r = Protected ↔ no_protection_rule (gates r) = false).
Proof.
  intros (root & _ & ->)%classify_Some. simpl. unfold classify_state, classify_gates. split_and!.
  - destruct (negb _); [set_solver|]. destruct (controller_parent_live _ _ _ _); [set_solver|].
    destruct (_ && _); set_solver.
  - unfold cleanup_eligible. simpl. by rewrite !andb_false_r.
  - simpl. destruct (bool_decide (protection a g c obs root = ∅)); simpl; [|done].
    split; [|done]. destruct (controller_parent_live _ _ _ _); [done|].
    by destruct (_ && _).
Qed.

(** [C10] Cooling is justified: a candidate is Cooling only if every member belongs
    to the current, non-root user with complete facts, no member is the system,
    Unlinger itself or an ancestor of it, every browser root is headless,
    unattached and of an admitted version, every profile is ephemeral, not
    standard and used by members only, the root is at least sixty seconds old,
    provenance is strong, the owner is gone, and any controller is released by
    its verified owner. *)
Theorem cooling_is_justified a g c obs r :
  classify a g c obs = Some r → state r = Cooling →
  ∃ root, get g (candidate_root_pid c) = Some root ∧ cooling_facts a g c obs root.
Proof.
  intros (root & Hroot & ->)%classify_Some Hst. exists root. split; [done|].
  by apply classify_cooling_facts.
Qed.

(** Reports account for their members: the targets are exactly the candidate's
    members in PID order, each with its identity and group, the member count is
    their number, and each listed role count is positive and the number of
    members with that role. *)
Theorem report_accounts_for_members a s g c obs r :
  from_snapshot s = Ok g → c ∈ candidates a g → classify a g c obs = Some r →
  target_pid <$> targets r = member_pids c ∧
  member_count r = N.of_nat (length (member_pids c)) ∧
  (∀ t, t ∈ targets r → ∃ p, p ∈ processes s ∧ identity p = target_identity t ∧
     process_group_id p = target_process_group_id t ∧ process_role p c = target_role t) ∧
  (∀ role n, mkProcessRoleCount role n ∈ roles r ↔
     n = N.of_nat (length (filter (λ t, target_role t = role) (targets r))) ∧ (0 < n)%N).
Proof.
  intros Hg (pack & _ & Hc)%candidates_proposed (root & _ & ->)%classify_Some.
  pose proof (pack_proposals_wf _ _ _ _ Hg Hc) as Hwf. simpl.
  pose proof (report_targets_pids _ _ _ _ Hg Hwf) as Hpids. split_and!.
  - done.
  - rewrite <-Hpids. unfold report_targets. by rewrite !length_fmap.
  - intros t (p & -> & Hp)%list_elem_of_fmap. exists p. simpl. split_and!; try done.
    apply list_elem_of_omap in Hp as (k & _ & Hk). by eapply from_snapshot_get.
  - intros role n. rewrite elem_of_role_counts. unfold role_total, report_targets.
    rewrite list_filter_fmap, length_fmap. done.
Qed.

(** Artifact candidates are bounded and bound: a report carries at most one,
    only when its pack allows artifacts and no protection applies; it lies in a
    profile directory of the candidate's own browser roots, and belongs to the current
    user and to the report's session. *)
Theorem report_artifacts_bound a g c obs r :
  classify a g c obs = Some r →
  length (runtime_artifacts r) ≤ 1 ∧
  ∀ x, x ∈ runtime_artifacts r →
    devtools_active_port (profile_path x) (graph_current_uid g) (session_fingerprint r) = Ok x ∧
    profile_path x ∈ profile_paths g c ∧
    policy_devtools_active_port (artifact_policy (candidate_pack c)) = true ∧
    state r ≠ Protected.
Proof.
  intros (root & _ & ->)%classify_Some.
  destruct (report_artifacts_wf a g c obs root) as [Hlen Hall]. split; [done|].
  intros x Hx. destruct (Hall x Hx) as (? & ? & ? & Hp). split_and!; try done.
  simpl. unfold classify_state. rewrite (bool_decide_true _ Hp). simpl.
  destruct (controller_parent_live _ _ _ _); [done|]. by destruct (_ && _).
Qed.
