(* ===== verification/Analyzer.v ===== *)
(** Analyzer: observation, reconciliation and revalidation of
    [unlinger-rules/src/lib.rs].

    The analyzer is the [IncidentRevalidator] the cleanup execution is run with;
    [Revalidates] states what its Eligible and Gone answers promise. *)

From S2P Require Import Prelude Text Model Fingerprint Artifact Graph Evidence Task Pack.
From S2P Require Import Cleanup Effects Executor Matching Candidates Classify.
From Stdlib Require Import Ascii.

(** ** Observation *)

(** [GraphError::to_string]. *)
Definition graph_error_message (e : GraphError) : string :=
  match e with DuplicatePid pid => "snapshot contains duplicate PID " +:+ show_N pid end.

Definition incident_le : relation IncidentReport :=
  λ x y, String.le (incident_id x) (incident_id y).

#[export] Instance incident_le_dec : RelDecision incident_le :=
  λ x y, decide (String.le (incident_id x) (incident_id y)).

(** [Analyzer::observe]. *)
Definition observe (a : Analyzer) (s : Snapshot) : result (list IncidentReport) RuleError :=
  let? g := map_err (λ e, InvalidGraph (graph_error_message e)) (from_snapshot s) in
  Ok (merge_sort incident_le
        (omap (λ c, classify a g c (observed_at_unix_millis s)) (candidates a g))).

(** ** Reconciliation *)

(** A report with a new verdict: state, gates and evidence. *)
Definition with_verdict (r : IncidentReport) (s : IncidentState) (gs : GateLedger)
    (ev : list EvidenceItem) : IncidentReport :=
  mkIncidentReport (incident_id r) (tracking_key r) (session_fingerprint r) (signature_pack r)
    (signature_version r) s (root r) (member_count r) (report_resident_memory_bytes r)
    (member_fingerprint r) (roles r) ev gs (Evidence.browser_compatibility r) (targets r)
    (runtime_artifacts r).

(** The root and the members are those of the previous report. *)
Definition report_unchanged (previous report : IncidentReport) : bool :=
  bool_decide (root_identity_fingerprint (root previous) = root_identity_fingerprint (root report))
  && bool_decide (member_fingerprint previous = member_fingerprint report).

(** The gates of a report after its second observation. *)
Definition reconciled_gates (gs : GateLedger) (unchanged abandoned : bool) : GateLedger :=
  mkGateLedger (same_user gs) (strong_automation_provenance gs) abandoned (isolated_session gs)
    unchanged unchanged (no_protection_rule gs).

(** One iteration of [reconcile_with_abandonment]. *)
Definition reconcile_report (first_by_key : gmap string IncidentReport)
    (confirmed_tracking_keys : gset string) (report : IncidentReport) : IncidentReport :=
  if negb (bool_decide (state report = Cooling)) then report else
  match first_by_key !! tracking_key report with
  | None => report
  | Some previous =>
      if negb (bool_decide (state previous = Cooling)) then report else
      let unchanged := report_unchanged previous report in
      let gs := reconciled_gates (gates report) unchanged
                  (bool_decide (tracking_key report ∈ confirmed_tracking_keys)) in
      let root_pid := Some (root_pid (root report)) in
      if unchanged && cleanup_eligible gs then
        with_verdict report Confirmed gs
          (sort_evidence (evidence report ++
             [item "abandonment.grace_elapsed" Abandonment root_pid;
              item "observation.stable_twice" Abandonment root_pid]))
      else if negb unchanged then
        with_verdict report Ambiguous
          (mkGateLedger (same_user gs) (strong_automation_provenance gs)
             (confirmed_abandonment gs) (isolated_session gs)
             (stable_across_two_observations gs) (process_identity_unchanged gs) false)
          (sort_evidence (evidence report ++
             [item "protection.identity_or_membership_changed" Protection root_pid]))
      else with_verdict report Cooling gs (sort_evidence (evidence report))
  end.

(** [Analyzer::reconcile_with_abandonment]. *)
Definition reconcile_with_abandonment (first second : list IncidentReport)
    (confirmed_tracking_keys : gset string) : list IncidentReport :=
  let first_by_key := collect_map ((λ r, (tracking_key r, r)) <$> first) in
  reconcile_report first_by_key confirmed_tracking_keys <$> second.

(** [Analyzer::reconcile]. *)
Definition reconcile (first second : list IncidentReport) : list IncidentReport :=
  reconcile_with_abandonment first second ∅.

(** ** Revalidation *)

(** An incompletely observed process that could belong to the plan. *)
Definition relevant_process (pack : SignaturePack) (plan : CleanupPlan) (p : ProcessRecord) :
    bool :=
  let target_pids := target_pid <$> plan_targets plan in
  let target_process_groups :=
    List.filter (λ group, negb (bool_decide (group = 0%N)))
      (target_process_group_id <$> plan_targets plan) in
  let target_executables :=
    omap (λ t, device ← executable_device (target_identity t);
               inode ← executable_inode (target_identity t);
               Some (device, inode)) (plan_targets plan) in
  let executable_matches :=
    match executable_device (identity p), executable_inode (identity p) with
    | Some device, Some inode => bool_decide ((device, inode) ∈ target_executables)
    | _, _ => false
    end in
  bool_decide (process_pid p ∈ target_pids)
  || (negb (bool_decide (process_group_id p = 0%N))
      && bool_decide (process_group_id p ∈ target_process_groups))
  || executable_matches
  || matches_controller p pack
  || is_browser_root p pack.

(** The coverage conditions of [revalidation_facts_incomplete]. *)
Definition coverage_incomplete (s : Snapshot) : bool :=
  negb (bool_decide (unreadable_processes (coverage s) = 0%N))
  || negb (bool_decide (listed_processes (coverage s) =
             saturating_add (inspected_processes (coverage s))
               (unreadable_processes (coverage s))))
  || negb (bool_decide (N.of_nat (length (processes s)) = inspected_processes (coverage s))).

(** [revalidation_facts_incomplete]. *)
Definition revalidation_facts_incomplete (a : Analyzer) (s : Snapshot) (plan : CleanupPlan) :
    bool :=
  if coverage_incomplete s then true else
  match List.find (λ pack, bool_decide (pack_id pack = plan_signature_pack plan)
                           && bool_decide (pack_version pack = plan_signature_version plan))
          (packs (rules a)) with
  | None => true
  | Some pack =>
      existsb (λ p, if has_complete_classification_facts p then false
                    else relevant_process pack plan p) (processes s)
  end.

(** The frozen identities by PID. *)
Definition plan_identities (plan : CleanupPlan) : gmap N ProcessIdentity :=
  collect_map ((λ t, (target_pid t, target_identity t)) <$> plan_targets plan).

(** [identities.get(&pid).is_some_and(|i| i.exact_match(identity))]. *)
Definition exact_in (identities : gmap N ProcessIdentity) (i : ProcessIdentity) : bool :=
  match identities !! pid i with Some j => exact_match j i | None => false end.

(** A live target that must not be signalled. *)
Definition target_protected (a : Analyzer) (s : Snapshot) (p : ProcessRecord) : bool :=
  bool_decide (uid p = 0%N)
  || negb (bool_decide (uid p = current_uid s))
  || negb (has_complete_classification_facts p)
  || bool_decide (self_pid (context a) = Some (process_pid p))
  || bool_decide (process_pid p ∈ context_ancestor_pids (context a)).

(** A matching report that lost its confidence. *)
Definition confidence_downgraded (r : IncidentReport) : bool :=
  negb (bool_decide (state r = Cooling))
  || negb (same_user (gates r))
  || negb (strong_automation_provenance (gates r))
  || negb (isolated_session (gates r))
  || negb (no_protection_rule (gates r)).

(** The checks before a signal, on the reports of the snapshot. *)
Definition revalidate_before_signal (a : Analyzer) (s : Snapshot) (plan : CleanupPlan)
    (reports : list IncidentReport) : Revalidation :=
  let matching :=
    List.filter (λ r, bool_decide (session_fingerprint r = plan_session_fingerprint plan))
      reports in
  let identities := plan_identities plan in
  let current_targets :=
    List.filter (λ p, bool_decide (is_Some (identities !! process_pid p))) (processes s) in
  if bool_decide (length current_targets = 0)
  then mkRevalidation Gone "revalidation.frozen_targets_absent"
  else if existsb (λ p, negb (exact_in identities (identity p))) current_targets
  then mkRevalidation Blocked "revalidation.identity_changed"
  else if existsb (target_protected a s) current_targets
  then mkRevalidation Blocked "revalidation.current_target_protected"
  else if existsb (λ r,
            negb (bool_decide (session_fingerprint r = plan_session_fingerprint plan))
            && existsb (λ t, exact_in identities (target_identity t)) (targets r)) reports
  then mkRevalidation Blocked "revalidation.overlapping_session_changed"
  else if existsb confidence_downgraded matching
  then mkRevalidation Blocked "revalidation.confidence_downgraded"
  else if existsb (λ r, existsb (λ t, negb (exact_in identities (target_identity t)))
                          (targets r)) matching
  then mkRevalidation Blocked "revalidation.new_or_changed_member"
  else mkRevalidation Eligible
         (if bool_decide (length matching = 0) then "revalidation.exact_frozen_subset"
          else "revalidation.incident_still_eligible").

(** [Analyzer::revalidate]. *)
#[export] Instance analyzer_revalidate : IncidentRevalidator Analyzer := λ a s plan phase,
  if revalidation_facts_incomplete a s plan
  then mkRevalidation Blocked "revalidation.relevant_facts_incomplete" else
  match observe a s with
  | Err _ => mkRevalidation Blocked "revalidation.classifier_failed"
  | Ok reports =>
      if bool_decide (phase = RevivalCheck) then
        if existsb (λ r, bool_decide (session_fingerprint r = plan_session_fingerprint plan))
             reports
        then mkRevalidation StatusRevived "revalidation.session_reappeared"
        else mkRevalidation Gone "revalidation.session_absent"
      else revalidate_before_signal a s plan reports
  end.

(** ** The interface to the execution *)

(** What the execution needs a revalidator to promise. *)
Class Revalidates (V : Type) `{!IncidentRevalidator V} : Type := {
  (** The processes a revalidator refuses to signal in a snapshot. *)
  untouchable : V → Snapshot → ProcessRecord → Prop;
  (** A session is visible in a snapshot. *)
  session_visible : V → Snapshot → string → Prop;
  eligible_touchable : ∀ (v : V) s plan p,
    revalidation_status (revalidate v s plan BeforeSignal) = Eligible →
    p ∈ processes s → process_pid p ∈ target_pid <$> plan_targets plan →
    ¬ untouchable v s p;
  gone_invisible : ∀ (v : V) s plan,
    revalidation_status (revalidate v s plan RevivalCheck) = Gone →
    ¬ session_visible v s (plan_session_fingerprint plan);
}.

(** The processes an analyzer leaves alone: of root or another user, of
    incomplete facts, itself and its ancestors. *)
Record analyzer_untouchable (a : Analyzer) (s : Snapshot) (p : ProcessRecord) : Prop :=
  untouchable_because {
    untouchable_reason :
      uid p = 0%N ∨ uid p ≠ current_uid s ∨ has_complete_classification_facts p = false ∨
      self_pid (context a) = Some (process_pid p) ∨
      process_pid p ∈ context_ancestor_pids (context a);
}.

(** A session is visible when the snapshot cannot be observed or reports it. *)
Definition analyzer_session_visible (a : Analyzer) (s : Snapshot) (session : string) : Prop :=
  match observe a s with
  | Ok reports => ∃ r, r ∈ reports ∧ session_fingerprint r = session
  | Err _ => True
  end.

(** ** Lemmas: reports and plans *)

Lemma string_last_byte s : s ≠ "" → ∃ p b, s = p +:+ String b "".
Proof.
  induction s as [|c s IH]; [done|]. intros _. destruct s as [|d s]; [by exists "", c|].
  destruct IH as (p & b & Hs); [done|]. exists (String c p), b. by rewrite Hs.
Qed.

Lemma lower_hex_visible b :
  is_lower_hex b = true → is_space1 (code b) = false ∧ (code b < 128)%N.
Proof.
  unfold is_lower_hex, is_ascii_digit, is_lower_hex_letter, in_range, is_space1.
  rewrite orb_true_iff, !andb_true_iff, !N.leb_le. intros Hb. split; [|lia].
  apply orb_false_iff. split; [apply andb_false_iff; right; apply N.leb_gt; lia|].
  apply N.eqb_neq. lia.
Qed.

Lemma session_fingerprint_visible g c root : trim (report_session_fingerprint g c root) ≠ "".
Proof.
  assert (Hfp : ∀ parts, trim ("ses-" +:+ fingerprint_parts parts) ≠ "").
  { intros parts. destruct (string_last_byte (fingerprint_parts parts)) as (p & b & Hp).
    { intros Hnil. apply (f_equal String.length) in Hnil.
      unfold fingerprint_parts in Hnil. by rewrite length_hex_fixed in Hnil. }
    assert (Hb : is_lower_hex b = true).
    { pose proof (hex_fixed_lower_hex 16 (fnv_parts parts)) as Hhex.
      unfold fingerprint_parts in Hp. rewrite Hp, all_bytes_app in Hhex. simpl in Hhex.
      apply andb_true_iff in Hhex as [_ Hhex]. by rewrite andb_true_r in Hhex. }
    apply lower_hex_visible in Hb as [Hb1 Hb2]. rewrite Hp.
    change ("ses-" +:+ p +:+ String b "") with (String "s"%char (("es-" +:+ p) +:+ String b "")).
    by rewrite trim_visible. }
  unfold report_session_fingerprint. destruct (session_rows g c); apply Hfp.
Qed.

Lemma elem_of_observe a s reports r :
  observe a s = Ok reports →
  r ∈ reports ↔ ∃ g c, from_snapshot s = Ok g ∧ c ∈ candidates a g ∧
    classify a g c (observed_at_unix_millis s) = Some r.
Proof.
  unfold observe. intros (g & Hg & [= <-])%result_bind_Ok.
  destruct (from_snapshot s) as [g'|] eqn:Hs; simplify_eq/=.
  rewrite merge_sort_Permutation, list_elem_of_omap. split; [naive_solver|].
  intros (g' & c & [= <-] & Hc & Hr). eauto.
Qed.

(** The role of a candidate's root is a primary one. *)
Lemma root_role_primary g pack c root :
  candidate_wf g pack c → process_pid root = candidate_root_pid c →
  is_primary_role (process_role root c) = true.
Proof.
  intros Hwf Hpid. unfold process_role.
  destruct (candidate_controller_pid c) as [k|] eqn:Hk.
  - destruct (candidate_wf_controller _ _ _ Hwf k Hk) as [-> _].
    by rewrite bool_decide_true by congruence.
  - rewrite bool_decide_false by done.
    destruct (candidate_wf_unowned _ _ _ Hwf Hk) as [Hb _].
    rewrite bool_decide_true; [done|]. rewrite Hb, Hpid. by left.
Qed.

(** Classified reports without a protection have what a plan needs. *)
Lemma unprotected_report_plannable a s g c root :
  from_snapshot s = Ok g → c ∈ candidates a g → get g (candidate_root_pid c) = Some root →
  protection a g c (observed_at_unix_millis s) root = ∅ →
  let r := classify_report a g c (observed_at_unix_millis s) root in
  ∀ gs ev, cleanup_eligible gs = true → plannable (with_verdict r Confirmed gs ev).
Proof.
  intros Hg (pack & _ & Hc)%candidates_proposed Hroot Hprot r gs ev Hgs.
  pose proof (pack_proposals_wf _ _ _ _ Hg Hc) as Hwf.
  pose proof (report_targets_pids _ _ _ _ Hg Hwf) as Hpids.
  apply protection_empty in Hprot as [[Hmem _]%fact_protections_empty _].
  destruct (report_artifacts_wf a g c (observed_at_unix_millis s) root) as [Hlen Harts].
  destruct (from_snapshot_get _ _ _ _ Hg Hroot) as [_ Hpid].
  assert (Hin : mkProcessTarget (identity root) (process_group_id root) (process_role root c)
                ∈ report_targets g c).
  { unfold report_targets.
    apply (list_elem_of_fmap_2 (λ p, mkProcessTarget (identity p) (process_group_id p)
             (process_role p c)) _ root).
    apply list_elem_of_omap. exists (candidate_root_pid c). split; [|done].
    apply (candidate_wf_member _ _ _ Hwf). }
  split; simpl; try done.
  - intros Hnil. rewrite Hnil in Hin. by apply elem_of_nil in Hin.
  - apply session_fingerprint_visible.
  - rewrite Hpids. apply (candidate_wf_sorted _ _ _ Hwf).
  - apply Forall_forall. intros t (p & -> & Hp)%list_elem_of_fmap. simpl.
    destruct (Hmem p Hp) as (_ & _ & Hfacts). unfold has_complete_classification_facts in Hfacts.
    by bool_facts.
  - apply Forall_forall. intros x Hx. destruct (Harts x Hx) as (Hok & _).
    unfold devtools_active_port in Hok. apply result_bind_Ok in Hok as (_ & _ & Hok).
    repeat case_match; try done. injection Hok as <-. done.
  - exists (mkProcessTarget (identity root) (process_group_id root) (process_role root c)).
    split; [done|]. done.
  - exists (mkProcessTarget (identity root) (process_group_id root) (process_role root c)).
    split; [done|]. by apply (root_role_primary g pack).
Qed.

(** ** Lemmas: reconciliation *)

(** What turns a report into a Confirmed one. *)
Record confirmable (first : list IncidentReport) (keys : gset string) (r : IncidentReport) : Prop := {
  confirmable_cooling : state r = Cooling;
  confirmable_previous : ∃ previous,
    collect_map ((λ r, (tracking_key r, r)) <$> first) !! tracking_key r = Some previous ∧
    previous ∈ first ∧ tracking_key previous = tracking_key r ∧ state previous = Cooling ∧
    root_identity_fingerprint (root previous) = root_identity_fingerprint (root r) ∧
    member_fingerprint previous = member_fingerprint r;
  confirmable_abandoned : tracking_key r ∈ keys;
  confirmable_gates : same_user (gates r) = true ∧ strong_automation_provenance (gates r) = true ∧
    isolated_session (gates r) = true ∧ no_protection_rule (gates r) = true;
}.

Definition all_gates : GateLedger := mkGateLedger true true true true true true true.

Lemma reconcile_report_confirmed first keys r :
  state r ≠ Confirmed →
  state (reconcile_report (collect_map ((λ r, (tracking_key r, r)) <$> first)) keys r)
    = Confirmed ↔ confirmable first keys r.
Proof.
  intros Hnot. unfold reconcile_report.
  destruct (bool_decide (state r = Cooling)) eqn:Hcool; simpl; bool_facts.
  2: { split; [done|]. by intros []. }
  destruct (collect_map _ !! tracking_key r) as [previous|] eqn:Hprev.
  2: { split; [done|]. intros [_ (p & Hp & _) _ _]. congruence. }
  assert (Hin : previous ∈ first ∧ tracking_key previous = tracking_key r).
  { apply collect_map_Some, list_elem_of_fmap in Hprev as (p & [= Hk ->] & Hp). by split. }
  destruct (bool_decide (state previous = Cooling)) eqn:Hpc; simpl; bool_facts.
  2: { split; [done|]. intros [_ (p & Hp & _ & _ & ? & _) _ _]. congruence. }
  destruct (report_unchanged previous r) eqn:Hun; simpl.
  - pose proof Hun as Hun'. unfold report_unchanged in Hun'. bool_facts.
    destruct (cleanup_eligible _) eqn:Hel; simpl.
    + split; [intros _|done]. apply cleanup_eligible_iff in Hel.
      unfold reconciled_gates in Hel. injection Hel as ? ? Hab ? ?. bool_facts.
      split; try done. exists previous. naive_solver.
    + split; [done|]. intros [_ _ Hab (Hg1 & Hg2 & Hg3 & Hg4)].
      unfold cleanup_eligible, reconciled_gates in Hel. simpl in Hel.
      by rewrite Hg1, Hg2, Hg3, Hg4, (bool_decide_true _ Hab) in Hel.
  - split; [done|]. intros [_ (p & Hp & _ & _ & _ & Hr & Hm) _ _].
    assert (p = previous) as -> by congruence.
    unfold report_unchanged in Hun. by rewrite !bool_decide_true in Hun.
Qed.

Lemma reconcile_report_fields by_key keys r :
  ∃ s gs ev, reconcile_report by_key keys r = with_verdict r s gs ev.
Proof.
  unfold reconcile_report.
  repeat case_match; try (by eexists _, _, _); exists (state r), (gates r), (evidence r);
    by destruct r.
Qed.

Lemma reconcile_report_gates first keys r :
  state r ≠ Confirmed →
  state (reconcile_report first keys r) = Confirmed →
  gates (reconcile_report first keys r) = all_gates.
Proof.
  intros Hnot. unfold reconcile_report.
  destruct (negb _); [done|]. destruct (first !! tracking_key r) as [previous|]; [|done].
  destruct (negb _); [done|]. destruct (report_unchanged previous r); simpl; [|done].
  destruct (cleanup_eligible _) eqn:Hel; simpl; [|done]. intros _.
  by apply cleanup_eligible_iff in Hel.
Qed.

Lemma observe_not_confirmed a s reports r :
  observe a s = Ok reports → r ∈ reports → state r ≠ Confirmed.
Proof.
  intros Hobs Hr. apply (elem_of_observe _ _ _ _ Hobs) in Hr as (g & c & _ & _ & Hc).
  apply classify_Some in Hc as (root & _ & ->). simpl. unfold classify_state.
  destruct (negb _); [done|]. destruct (controller_parent_live _ _ _ _); [done|].
  by destruct (_ && _).
Qed.

(** ** Lemmas: revalidation *)

Lemma plan_identities_Some plan k i :
  plan_identities plan !! k = Some i →
  ∃ t, t ∈ plan_targets plan ∧ target_pid t = k ∧ target_identity t = i.
Proof.
  intros Hk%collect_map_Some. apply list_elem_of_fmap in Hk as (t & [= -> ->] & Ht). eauto.
Qed.

Lemma plan_identities_is_Some plan k :
  is_Some (plan_identities plan !! k) ↔ k ∈ target_pid <$> plan_targets plan.
Proof.
  rewrite <-not_eq_None_Some. unfold plan_identities. rewrite collect_map_None.
  rewrite <-list_fmap_compose.
  change (fst ∘ (λ t, (target_pid t, target_identity t))) with target_pid.
  split; [apply dec_stable|tauto].
Qed.

(** What an Eligible answer of the analyzer rests on. *)
Record eligible_facts (a : Analyzer) (s : Snapshot) (plan : CleanupPlan) : Prop := {
  eligible_complete : revalidation_facts_incomplete a s plan = false;
  eligible_live : ∃ p, p ∈ processes s ∧ process_pid p ∈ target_pid <$> plan_targets plan;
  eligible_targets : ∀ p, p ∈ processes s → process_pid p ∈ target_pid <$> plan_targets plan →
    (∃ t, t ∈ plan_targets plan ∧ exact_match (target_identity t) (identity p) = true) ∧
    uid p = current_uid s ∧ uid p ≠ 0%N ∧ has_complete_classification_facts p = true ∧
    self_pid (context a) ≠ Some (process_pid p) ∧
    process_pid p ∉ context_ancestor_pids (context a);
  eligible_session : ∃ reports, observe a s = Ok reports ∧ ∀ r, r ∈ reports →
    (session_fingerprint r = plan_session_fingerprint plan ∧ state r = Cooling ∧
     ∀ t, t ∈ targets r → exact_in (plan_identities plan) (target_identity t) = true) ∨
    (session_fingerprint r ≠ plan_session_fingerprint plan ∧
     ∀ t, t ∈ targets r → exact_in (plan_identities plan) (target_identity t) = false);
}.

Lemma elem_of_list_filter {A} (f : A → bool) l x :
  x ∈ List.filter f l ↔ x ∈ l ∧ f x = true.
Proof. by rewrite !list_elem_of_In, filter_In. Qed.

Lemma exact_in_target plan i :
  exact_in (plan_identities plan) i = true →
  ∃ t, t ∈ plan_targets plan ∧ exact_match (target_identity t) i = true.
Proof.
  unfold exact_in. destruct (plan_identities plan !! pid i) as [j|] eqn:Hj; [|done].
  apply plan_identities_Some in Hj as (t & Ht & _ & <-). eauto.
Qed.

Lemma revalidate_eligible_facts (a : Analyzer) s plan :
  revalidation_status (revalidate a s plan BeforeSignal) = Eligible →
  eligible_facts a s plan.
Proof.
  unfold revalidate, analyzer_revalidate.
  destruct (revalidation_facts_incomplete a s plan) eqn:Hfacts; [done|].
  destruct (observe a s) as [reports|] eqn:Hobs; [|done]. simpl.
  unfold revalidate_before_signal.
  set (live := List.filter _ (processes s)). set (matching := List.filter _ reports).
  destruct (bool_decide (length live = 0)) eqn:Hlen; [done|]. bool_facts.
  destruct (existsb _ live) eqn:Hexact; [done|].
  destruct (existsb (target_protected a s) live) eqn:Hprot; [done|].
  destruct (existsb _ reports) eqn:Hover; [done|].
  destruct (existsb confidence_downgraded matching) eqn:Hconf; [done|].
  destruct (existsb (λ r, existsb (λ t, negb _) (targets r)) matching) eqn:Hmem; [done|].
  intros _.
  rewrite existsb_false in Hexact. rewrite existsb_false in Hprot.
  rewrite existsb_false in Hover. rewrite existsb_false in Hconf.
  rewrite existsb_false in Hmem.
  assert (Hlive : ∀ p, p ∈ live ↔ p ∈ processes s ∧
                                  process_pid p ∈ target_pid <$> plan_targets plan).
  { intros p. unfold live. rewrite elem_of_list_filter, bool_decide_eq_true.
    by rewrite plan_identities_is_Some. }
  split; [done|..].
  - destruct live as [|p live'] eqn:Hl; [done|]. exists p. apply Hlive. by left.
  - intros p Hp Hpid. assert (Hpl : p ∈ live) by by apply Hlive.
    specialize (Hexact p Hpl). specialize (Hprot p Hpl). apply negb_false_iff in Hexact.
    unfold target_protected in Hprot. bool_facts. split; [by apply exact_in_target|done].
  - exists reports. split; [done|]. intros r Hr.
    destruct (decide (session_fingerprint r = plan_session_fingerprint plan)) as [Heq|Hne].
    + left. assert (Hrm : r ∈ matching).
      { apply elem_of_list_filter. by rewrite bool_decide_true. }
      specialize (Hconf r Hrm). specialize (Hmem r Hrm). unfold confidence_downgraded in Hconf.
      bool_facts. split_and!; [done..|]. rewrite existsb_false in Hmem. intros t Ht.
      specialize (Hmem t Ht). by apply negb_false_iff in Hmem.
    + right. split; [done|]. specialize (Hover r Hr). rewrite bool_decide_false in Hover by done.
      simpl in Hover. by rewrite existsb_false in Hover.
Qed.

#[export] Program Instance analyzer_revalidates : Revalidates Analyzer := {|
  untouchable := analyzer_untouchable;
  session_visible := analyzer_session_visible;
|}.
Next Obligation.
  intros a s plan p Hel Hp Hpid [Hwhy].
  destruct (revalidate_eligible_facts _ _ _ Hel) as [_ _ Ht _].
  destruct (Ht p Hp Hpid) as (_ & ? & ? & ? & ? & ?).
  destruct Hwhy as [?|[?|[?|[?|?]]]]; congruence.
Qed.
Next Obligation.
  intros a s plan. unfold revalidate, analyzer_revalidate, analyzer_session_visible.
  destruct (revalidation_facts_incomplete a s plan); [done|].
  destruct (observe a s) as [reports|]; [|done]. simpl.
  destruct (existsb _ reports) eqn:Hex; [done|]. intros _ (r & Hr & Hs).
  rewrite existsb_false in Hex. specialize (Hex r Hr). by rewrite bool_decide_true in Hex.
Qed.

(** ** Properties *)

(** [C11] Confirmation needs two matching observations and an elapsed grace: for
    reports of a real observation, reconciliation confirms a report iff it is
    Cooling, the previous observation holds a Cooling report with its tracking
    key, the same root identity and the same member set, the key is among those
    whose abandonment was confirmed, and the four observed gates are set; and
    without confirmed keys nothing is ever confirmed. *)
Theorem confirmation_iff a s first second keys r :
  observe a s = Ok second → r ∈ second →
  (state (reconcile_report (collect_map ((λ r, (tracking_key r, r)) <$> first)) keys r)
     = Confirmed ↔ confirmable first keys r) ∧
  ∀ r', r' ∈ reconcile first second → state r' ≠ Confirmed.
Proof.
  intros Hobs Hr. split.
  { by eapply reconcile_report_confirmed, observe_not_confirmed. }
  intros r' (q & -> & Hq)%list_elem_of_fmap Hst.
  pose proof (observe_not_confirmed _ _ _ _ Hobs Hq) as Hnot.
  apply reconcile_report_confirmed in Hst as [_ _ Hkey _]; [set_solver|done].
Qed.

(** Reconciliation only changes the verdict: it keeps the number and order of
    the reports and everything in a report but state, gates and evidence; and a
    report it confirms has every gate of the ledger set. *)
Theorem reconcile_keeps_incidents first second keys i r :
  second !! i = Some r → state r ≠ Confirmed →
  ∃ r', reconcile_with_abandonment first second keys !! i = Some r' ∧
    (∃ st gs ev, r' = with_verdict r st gs ev) ∧
    (state r' = Confirmed → gates r' = all_gates).
Proof.
  intros Hi Hnot. unfold reconcile_with_abandonment. rewrite list_lookup_fmap, Hi. simpl.
  eexists. split; [done|]. split; [apply reconcile_report_fields|].
  by apply reconcile_report_gates.
Qed.

(** Confirmed incidents are always actionable: every report that two
    observations confirm yields a cleanup plan; no confirmed report is rejected
    for duplicate or incomplete targets, a missing root or primary target, a blank
    session, or its artifacts. *)
Theorem confirmed_reports_yield_plans a s first second keys r :
  observe a s = Ok second → r ∈ reconcile_with_abandonment first second keys →
  state r = Confirmed → is_Ok (from_confirmed r).
Proof.
  intros Hobs (q & -> & Hq)%list_elem_of_fmap Hst.
  pose proof (observe_not_confirmed _ _ _ _ Hobs Hq) as Hnot.
  pose proof (reconcile_report_gates _ keys q Hnot Hst) as Hgates.
  pose proof (proj1 (reconcile_report_confirmed first keys q Hnot) Hst) as [Hcool _ _ _].
  apply (elem_of_observe _ _ _ _ Hobs) in Hq as (g & c & Hg & Hc & Hcl).
  apply classify_Some in Hcl as (root & Hroot & ->).
  pose proof (classify_state_cooling _ _ _ _ _ Hcool) as (Hprot & _).
  apply from_confirmed_accepts.
  destruct (reconcile_report_fields (collect_map ((λ r, (tracking_key r, r)) <$> first)) keys
    (classify_report a g c (observed_at_unix_millis s) root)) as (st & gs & ev & Heq).
  rewrite Heq in *. simpl in Hst, Hgates. subst st gs.
  by apply (unprotected_report_plannable a s g c root).
Qed.

(** Revalidation authorises only what is still exactly the plan: an Eligible
    answer means that coverage is complete for every process that could belong to
    the plan, that some target is live, that every live process with a planned PID
    has exactly the planned identity, belongs to the current, non-root user, has
    complete facts and is neither Unlinger nor an ancestor of it, that every
    report of the plan's session is Cooling with no member outside the plan, and
    that no other session has taken a planned process. *)
Theorem eligible_means_unchanged (a : Analyzer) s plan :
  revalidation_status (revalidate a s plan BeforeSignal) = Eligible →
  eligible_facts a s plan.
Proof. apply revalidate_eligible_facts. Qed.

(** Revival checks never overlook a session: the analyzer answers Gone iff the
    facts are complete and the snapshot is observed without a report of the
    plan's session, Revived iff there is such a report, and Blocked otherwise;
    it never answers Eligible. *)
Theorem revival_check_iff (a : Analyzer) s plan :
  let complete := revalidation_facts_incomplete a s plan = false in
  let st := revalidation_status (revalidate a s plan RevivalCheck) in
  (st = Gone ↔ complete ∧ ∃ reports, observe a s = Ok reports ∧
     ∀ r, r ∈ reports → session_fingerprint r ≠ plan_session_fingerprint plan) ∧
  (st = StatusRevived ↔ complete ∧ ∃ reports r, observe a s = Ok reports ∧ r ∈ reports ∧
     session_fingerprint r = plan_session_fingerprint plan) ∧
  st ≠ Eligible.
Proof.
  simpl. unfold revalidate, analyzer_revalidate.
  destruct (revalidation_facts_incomplete a s plan); [naive_solver|].
  destruct (observe a s) as [reports|]; [|naive_solver]. simpl.
  destruct (existsb _ reports) eqn:Hex; simpl.
  - apply existsb_elem in Hex as (r & Hr & Hs). bool_facts. naive_solver.
  - rewrite existsb_false in Hex.
    assert (Hno : ∀ r, r ∈ reports → session_fingerprint r ≠ plan_session_fingerprint plan).
    { intros r Hr Hs. specialize (Hex r Hr). by rewrite bool_decide_true in Hex. }
    naive_solver.
Qed.
