(* ===== verification/Decisions.v ===== *)
(** Decisions: the public action policy of
    [unlinger-daemon/src/public_action_policy.rs] and the decisions of
    [unlinger-daemon/src/engine.rs] about receipts, owners and identities. *)

From S2P Require Import Prelude Text Model Fingerprint Artifact Evidence Task Cleanup Effects.
From S2P Require Import Executor ExecutorSafety ExecutorGuarantees Matching.

(** ** The public action policy *)

Record RuntimePolicyFacts : Type := mkRuntimePolicyFacts {
  draining : bool;
  failed : bool;
}.

Record StorePolicyFacts : Type := mkStorePolicyFacts {
  paused : bool;
  cleanup_blocked : bool;
  incident_observed : bool;
  incident_protected : bool;
}.

Inductive PolicyDecision : Type :=
| Allow
| NoChange (reason_id : string)
| Reject (reason_id : string).

(** [PolicyDecision::unavailable_reason]. *)
Definition unavailable_reason (d : PolicyDecision) : option string :=
  match d with Allow => None | NoChange reason_id | Reject reason_id => Some reason_id end.

(** [OrdinaryMutation] of [store.rs]. *)
Inductive OrdinaryMutation : Type :=
| Pause (duration_millis : N)
| Resume
| RetryFailedCleanup (incident_id : string)
| ProtectIncident (incident_id : string)
| UnprotectIncident (incident_id : string).

(** [evaluate_action]. *)
Definition evaluate_action (runtime : RuntimePolicyFacts) (store : StorePolicyFacts)
    (mutation : OrdinaryMutation) : PolicyDecision :=
  if draining runtime then Reject "action.daemon_draining" else
  if failed runtime then Reject "action.daemon_failed" else
  match mutation with
  | Pause _ => Allow
  | Resume => if paused store then Allow else NoChange "action.not_paused"
  | RetryFailedCleanup _ =>
      if cleanup_blocked store then Allow else Reject "action.no_blocked_cleanup"
  | ProtectIncident _ =>
      if negb (incident_observed store) then Reject "action.incident_not_observed"
      else if incident_protected store then NoChange "action.already_protected"
      else Allow
  | UnprotectIncident _ =>
      if incident_protected store then Allow else NoChange "action.not_protected"
  end.

(** ** Receipts *)

(** [receipt_requires_global_fail_close]. *)
Definition receipt_requires_global_fail_close (receipt : CleanupReceipt) : bool :=
  let uncertain :=
    existsb (λ a, bool_decide (action_disposition a = DeliveryUnknown)) (actions receipt)
    || existsb (λ a, bool_decide (act_disposition a = ArtDeliveryUnknown))
         (artifact_actions receipt) in
  let delivered_side_effect :=
    existsb (λ a, bool_decide (action_disposition a = Delivered)) (actions receipt)
    || existsb (λ a, bool_decide (act_disposition a = Removed)) (artifact_actions receipt) in
  if uncertain then true
  else if bool_decide (overall_outcome (outcome receipt) = ClearedWithResidue) then false
  else negb (bool_decide (receipt_state receipt = Cleared)) && delivered_side_effect.

(** [terminal_timestamp]: the clock's answer, never before the start. *)
Definition terminal_timestamp (clock : result ClockSample RuntimeFailure)
    (started_at_unix_millis : N) : N :=
  N.max match clock with Ok sample => wall_unix_millis sample | Err _ => started_at_unix_millis end
    started_at_unix_millis.

(** ** Owners and identities *)

(** [owner_is_absent], on the runtime's answer to the lookup. *)
Definition owner_is_absent (lookup : result (option ProcessRecord) RuntimeFailure)
    (owner : TaskOwnerIdentity) : bool :=
  match lookup with
  | Ok None => true
  | Ok (Some process) => negb (owner_matches owner process)
  | Err _ => false
  end.

(** [exact_live_identity_fingerprints]. *)
Definition exact_live_identity_fingerprints (s : Snapshot) : gset string :=
  list_to_set ((λ p, fingerprint_process_identity (identity p)) <$>
    List.filter (λ p,
      bool_decide (0 < started_at_unix_micros (identity p))%N
      && bool_decide (is_Some (executable_device (identity p)))
      && bool_decide (is_Some (executable_inode (identity p)))) (processes s)).

(** [apply_owner_protection]. *)
Definition apply_owner_protection (report : IncidentReport) : IncidentReport :=
  let gs := gates report in
  let protected :=
    mkGateLedger (same_user gs) (strong_automation_provenance gs) (confirmed_abandonment gs)
      (isolated_session gs) (stable_across_two_observations gs) (process_identity_unchanged gs)
      false in
  let ev :=
    if existsb (λ e, bool_decide (ev_id e = "protection.owner_exact_incident"))
         (evidence report)
    then evidence report
    else merge_sort evidence_le
           (evidence report ++ [item "protection.owner_exact_incident" Protection
                                  (Some (root_pid (root report)))]) in
  mkIncidentReport (incident_id report) (tracking_key report) (session_fingerprint report)
    (signature_pack report) (signature_version report) Protected (root report)
    (member_count report) (report_resident_memory_bytes report) (member_fingerprint report)
    (roles report) ev protected (Evidence.browser_compatibility report) (targets report)
    (runtime_artifacts report).

(** ** Specification *)

(** The executor asked the runtime for this signal and got this answer. *)
Definition signalled (tr : list (obs CleanupE)) (i : ProcessIdentity) (s : CleanupSignal)
    (d : SignalDisposition) : Prop :=
  Obs (SignalExact i s) d ∈ tr.

Definition removed (tr : list (obs CleanupE)) (f : FrozenRuntimeArtifact)
    (d : ArtifactDisposition) : Prop :=
  Obs (RemoveArtifactExact f) d ∈ tr.

(** The receipt entry of a signal. *)
Definition records (a : CleanupAction) (i : ProcessIdentity) (s : CleanupSignal)
    (d : SignalDisposition) : Prop :=
  action_pid a = pid i ∧ action_identity_fingerprint a = fingerprint_process_identity i ∧
  action_signal a = s ∧ action_disposition a = d.

(** A mutation whose effect is already there. *)
Definition already_done (store : StorePolicyFacts) (mutation : OrdinaryMutation) : Prop :=
  match mutation with
  | Resume => paused store = false
  | ProtectIncident _ => incident_observed store = true ∧ incident_protected store = true
  | UnprotectIncident _ => incident_protected store = false
  | Pause _ | RetryFailedCleanup _ => False
  end.

(** A mutation that has something to act on. *)
Definition applicable (store : StorePolicyFacts) (mutation : OrdinaryMutation) : Prop :=
  match mutation with
  | Pause _ => True
  | Resume => paused store = true
  | RetryFailedCleanup _ => cleanup_blocked store = true
  | ProtectIncident _ => incident_observed store = true ∧ incident_protected store = false
  | UnprotectIncident _ => incident_protected store = true
  end.

(** ** Lemmas *)

Section Records.
Context {V : Type} `{!IncidentRevalidator V} (revalidator : V) (plan : CleanupPlan)
  (policy : CleanupPolicy).

(** A delivered signal is on its way into the journal, or in it. *)
Definition accounted (i : ProcessIdentity) (s : CleanupSignal) (d : SignalDisposition)
    (g : ghost) : Prop :=
  (∃ id intent, g_open g = Some (id, intent) ∧ g_delivery g = Some d ∧
     records (completed_action intent d) i s d) ∨
  ∃ a, a ∈ g_actions g ∧ records a i s d.

Definition accounted_artifact (d : ArtifactDisposition) (g : ghost) : Prop :=
  (∃ id intent, g_open_artifact g = Some (id, intent) ∧ g_removal g = Some d) ∨
  ∃ a, a ∈ g_artifact_actions g ∧ act_disposition a = d.

Lemma accounted_stays i s d tr : ∀ g,
  accounted i s d g → accepts upd (event_ok revalidator plan) g tr →
  accounted i s d (fold_left upd tr g).
Proof.
  induction tr as [|[X e x] tr IH]; intros g Hacc; simpl; [done|]. intros [Hok Hrest].
  apply IH; [|done]. clear IH Hrest.
  destruct Hacc as [(id & intent & Hopen & Hd & Hrec)|(a & Ha & Hrec)].
  - destruct g as [st lg ws lk op fr de oa rm fz ac aa]; simpl in *; subst.
    destruct e; simpl; repeat case_match; simplify_eq/=;
      try (left; by eexists _, _); try (by destruct Hok as [_ _ ? _ _ _]);
      try (by destruct Hok as ([? _] & _)).
    right. eexists. split; [apply elem_of_app; right; by apply list_elem_of_singleton|].
    destruct Hok as [_ ->]. done.
  - right. destruct g as [st lg ws lk op fr de oa rm fz ac aa]; simpl in *.
    destruct e; simpl; repeat case_match; simplify_eq/=; exists a; try done.
    split; [|done]. apply elem_of_app. by left.
Qed.

Lemma accounted_artifact_stays d tr : ∀ g,
  accounted_artifact d g → accepts upd (event_ok revalidator plan) g tr →
  accounted_artifact d (fold_left upd tr g).
Proof.
  induction tr as [|[X e x] tr IH]; intros g Hacc; simpl; [done|]. intros [Hok Hrest].
  apply IH; [|done]. clear IH Hrest.
  destruct Hacc as [(id & intent & Hopen & Hd)|(a & Ha & Hrec)].
  - destruct g as [st lg ws lk op fr de oa rm fz ac aa]; simpl in *; subst.
    destruct e; simpl; repeat case_match; simplify_eq/=;
      try (left; by eexists _, _); try (by destruct Hok as [_ ? _ _]);
      try (by destruct Hok as ([_ ?] & _)).
    right. eexists. split; [apply elem_of_app; right; by apply list_elem_of_singleton|].
    destruct Hok as [_ ->]. done.
  - right. destruct g as [st lg ws lk op fr de oa rm fz ac aa]; simpl in *.
    destruct e; simpl; repeat case_match; simplify_eq/=; exists a; try done.
    split; [|done]. apply elem_of_app. by left.
Qed.

(** Every signal of a run with a receipt is in the receipt. *)
Lemma signalled_recorded tr r i s d :
  runs (execute revalidator plan policy) tr (Ok r) → signalled tr i s d →
  ∃ a, a ∈ actions r ∧ records a i s d.
Proof.
  intros Hr (pre & post & ->)%list_elem_of_split.
  apply execution_sound in Hr as [Hacc [[[Ha _] [Hopen _]] _]].
  apply accepts_app in Hacc as [_ [Hok Hacc]].
  destruct (signal_ok_target _ _ _ _ _ Hok) as (t & id & stage & _ & <- & Hop & _).
  assert (Hstart : accounted (target_identity t) s d
    (upd (ghost_of pre) (Obs (SignalExact (target_identity t) s) d))).
  { left. clear -Hop. unfold ghost_of. destruct (fold_left upd pre ghost0); simpl in *.
    exists id, (target_intent t stage s). split_and!; [done..|]. repeat split. }
  unfold ghost_of in *. rewrite fold_left_app in *. simpl in *.
  rewrite Ha. destruct (accounted_stays _ _ _ _ _ Hstart Hacc) as [(? & ? & ? & _)|?]; [|done].
  congruence.
Qed.

Lemma removed_recorded tr r f d :
  runs (execute revalidator plan policy) tr (Ok r) → removed tr f d →
  ∃ a, a ∈ artifact_actions r ∧ act_disposition a = d.
Proof.
  intros Hr (pre & post & ->)%list_elem_of_split.
  apply execution_sound in Hr as [Hacc [[[_ Ha] [_ Hopen]] _]].
  apply accepts_app in Hacc as [_ [Hok Hacc]].
  destruct (removal_ok_frozen _ _ _ _ Hok) as (c & id & _ & _ & Hop).
  assert (Hstart : accounted_artifact d
    (upd (ghost_of pre) (Obs (RemoveArtifactExact f) d))).
  { left. clear -Hop. unfold ghost_of. destruct (fold_left upd pre ghost0); simpl in *.
    exists id, (candidate_intent c). by split. }
  unfold ghost_of in *. rewrite fold_left_app in *. simpl in *.
  rewrite Ha. destruct (accounted_artifact_stays _ _ _ Hstart Hacc) as [(? & ? & ? & _)|?]; [|done].
  congruence.
Qed.
End Records.

Lemma fail_close_false r :
  receipt_requires_global_fail_close r = false →
  (∀ a, a ∈ actions r → action_disposition a ≠ DeliveryUnknown) ∧
  (∀ a, a ∈ artifact_actions r → act_disposition a ≠ ArtDeliveryUnknown) ∧
  ((∃ a, a ∈ actions r ∧ action_disposition a = Delivered) ∨
   (∃ a, a ∈ artifact_actions r ∧ act_disposition a = Removed) →
   receipt_state r = Cleared ∨ overall_outcome (outcome r) = ClearedWithResidue).
Proof.
  unfold receipt_requires_global_fail_close.
  destruct (existsb (λ a, bool_decide (action_disposition a = DeliveryUnknown)) (actions r))
    eqn:H1; [done|].
  destruct (existsb (λ a, bool_decide (act_disposition a = ArtDeliveryUnknown))
              (artifact_actions r)) eqn:H2; [done|]. cbn [orb].
  rewrite existsb_false in H1. rewrite existsb_false in H2. intros Hside. split_and!.
  - intros a Ha. specialize (H1 a Ha). by apply bool_decide_eq_false in H1.
  - intros a Ha. specialize (H2 a Ha). by apply bool_decide_eq_false in H2.
  - intros Hany. destruct (decide (overall_outcome (outcome r) = ClearedWithResidue)) as [|Ho];
      [by right|]. rewrite (bool_decide_false _ Ho) in Hside. left. destruct (decide (receipt_state r = Cleared)); [done|].
    rewrite bool_decide_false in Hside by done. cbn [negb andb] in Hside.
    apply orb_false_iff in Hside as [H3 H4]. rewrite existsb_false in H3. rewrite existsb_false in H4.
    destruct Hany as [(a & Ha & Hd)|(a & Ha & Hd)].
    + specialize (H3 a Ha). simpl in H3. by rewrite bool_decide_true in H3.
    + specialize (H4 a Ha). simpl in H4. by rewrite bool_decide_true in H4.
Qed.

(** ** Properties *)

(** No side effect is forgotten: every signal and every removal the runtime was
    asked for in an execution that returns a receipt is in the receipt, with the
    PID, identity fingerprint, signal and the runtime's own answer. *)
Theorem side_effects_are_recorded `{!IncidentRevalidator V} (revalidator : V) plan policy tr r :
  runs (execute revalidator plan policy) tr (Ok r) →
  (∀ i s d, signalled tr i s d → ∃ a, a ∈ actions r ∧ records a i s d) ∧
  (∀ f d, removed tr f d → ∃ a, a ∈ artifact_actions r ∧ act_disposition a = d).
Proof.
  intros Hr. split; intros; [by eapply signalled_recorded|by eapply removed_recorded].
Qed.

(** The daemon goes on only after certain ends: when the receipt of an execution
    does not require a global fail-close, no signal and no removal was answered
    with an unknown delivery, and if one was delivered, the receipt is Cleared or
    its outcome is cleared with residue. *)
Theorem fail_close_is_complete `{!IncidentRevalidator V} (revalidator : V) plan policy tr r :
  runs (execute revalidator plan policy) tr (Ok r) →
  receipt_requires_global_fail_close r = false →
  (∀ i s, ¬ signalled tr i s DeliveryUnknown) ∧ (∀ f, ¬ removed tr f ArtDeliveryUnknown) ∧
  ((∃ i s, signalled tr i s Delivered) ∨ (∃ f, removed tr f Removed) →
   receipt_state r = Cleared ∨ overall_outcome (outcome r) = ClearedWithResidue).
Proof.
  intros Hr (Hsig & Hart & Hdone)%fail_close_false. split_and!.
  - intros i s Hs. destruct (signalled_recorded _ _ _ _ _ _ _ _ Hr Hs) as (a & Ha & _ & _ & _ & Hd).
    by apply (Hsig a Ha).
  - intros f Hf. destruct (removed_recorded _ _ _ _ _ _ _ Hr Hf) as (a & Ha & Hd).
    by apply (Hart a Ha).
  - intros [(i & s & Hs)|(f & Hf)]; apply Hdone; [left|right].
    + destruct (signalled_recorded _ _ _ _ _ _ _ _ Hr Hs) as (a & Ha & _ & _ & _ & Hd). eauto.
    + destruct (removed_recorded _ _ _ _ _ _ _ Hr Hf) as (a & Ha & Hd). eauto.
Qed.

(** The action policy: an ordinary mutation is allowed iff the daemon is neither
    draining nor failed and the mutation has something to act on; it is answered
    NoChange iff the daemon runs and its effect is already there; the reason for
    unavailability is given exactly when it is not allowed. *)
Theorem policy_decides runtime store mutation :
  let running := draining runtime = false ∧ failed runtime = false in
  (evaluate_action runtime store mutation = Allow ↔ running ∧ applicable store mutation) ∧
  ((∃ reason, evaluate_action runtime store mutation = NoChange reason) ↔
     running ∧ already_done store mutation) ∧
  (unavailable_reason (evaluate_action runtime store mutation) = None ↔
     evaluate_action runtime store mutation = Allow).
Proof.
  destruct runtime as [[] []], store as [[] [] [] []], mutation; simpl; naive_solver.
Qed.

(** Owner protection is final for the cycle: a protected report is never frozen
    into a plan, whatever it was; protecting again changes nothing; and the
    incident, its root, members, targets and artifacts stay as observed. *)
Theorem owner_protection_blocks_plans report :
  from_confirmed (apply_owner_protection report) = Err NotConfirmed ∧
  apply_owner_protection (apply_owner_protection report) = apply_owner_protection report ∧
  cleanup_eligible (gates (apply_owner_protection report)) = false ∧
  targets (apply_owner_protection report) = targets report ∧
  tracking_key (apply_owner_protection report) = tracking_key report ∧
  (∀ e, e ∈ evidence report → e ∈ evidence (apply_owner_protection report)).
Proof.
  split_and!; try done.
  - unfold apply_owner_protection. simpl.
    assert (Hin : ∀ ev, existsb (λ e, bool_decide (ev_id e = "protection.owner_exact_incident"))
      (if existsb (λ e, bool_decide (ev_id e = "protection.owner_exact_incident")) ev then ev
       else merge_sort evidence_le (ev ++ [item "protection.owner_exact_incident" Protection
              (Some (root_pid (root report)))])) = true).
    { intros ev. destruct (existsb _ ev) eqn:He; [done|]. apply existsb_elem.
      exists (item "protection.owner_exact_incident" Protection (Some (root_pid (root report)))).
      rewrite merge_sort_Permutation. split; [|done]. apply elem_of_app. right. by left. }
    by rewrite Hin.
  - unfold cleanup_eligible. simpl. by rewrite andb_false_r.
  - intros e He. unfold apply_owner_protection. simpl. destruct (existsb _ _); [done|].
    rewrite merge_sort_Permutation. apply elem_of_app. by left.
Qed.

(** ** Witnesses *)

Lemma side_effects_are_recorded_witness :
  signalled machine_trace (example_identity 11) Kill Delivered ∧
  ∃ a, a ∈ actions machine_receipt ∧ records a (example_identity 11) Kill Delivered.
Proof.
  assert (Hsig : signalled machine_trace (example_identity 11) Kill Delivered).
  { unfold signalled. rewrite (split_at machine_trace 39 _ ltac:(vm_compute; reflexivity)).
    apply elem_of_app. right. left. }
  split; [exact Hsig|].
  apply (side_effects_are_recorded Trusting example_plan example_policy machine_trace);
    [|exact Hsig].
  replace (Ok machine_receipt) with (example_run example_machine).2
    by (vm_compute; reflexivity).
  apply example_runs.
Defined.

Lemma fail_close_is_complete_witness :
  receipt_requires_global_fail_close machine_receipt = false ∧
  ∀ i s, ¬ signalled machine_trace i s DeliveryUnknown.
Proof.
  split; [vm_compute; reflexivity|].
  apply (fail_close_is_complete Trusting example_plan example_policy machine_trace
           machine_receipt); [|vm_compute; reflexivity].
  replace (Ok machine_receipt) with (example_run example_machine).2
    by (vm_compute; reflexivity).
  apply example_runs.
Defined.
