(* ===== verification/Cooling.v ===== *)
(** Cooling: the abandonment clock of [unlinger-daemon/src/store.rs]
    ([track_cooling], [retain_cooling] and the other writers of
    [cooling_candidates]) and the loops of [unlinger-daemon/src/engine.rs] that
    drive it.

    The table is a map from tracking keys to rows. A row remembers the first and the
    last sighting of an unchanged incident; it starts anew whenever the incident,
    the boot session or the enforcement epoch changes or the clocks are not
    continuous. SQLite's answer to a transaction is an argument of the calls. *)

From S2P Require Import Prelude Text Model Evidence Cleanup Executor Analyzer.

(** ** Data *)

Record CoolingClock : Type := mkCoolingClock {
  clock_wall : N;
  clock_continuous : N;
  clock_boot_session : string;
  clock_epoch : string;
}.

(** The variants of [StoreError]; foreign errors by their text. *)
Inductive StoreError : Type :=
| StoreIo (error : string)
| StoreSqlite (error : string)
| StoreJson (error : string)
| StoreCorrupt (message : string)
| StoreRange (message : string)
| StoreInvalid (message : string)
| StoreConflict (message : string)
| StoreAuthorityLost (message : string)
| StoreNotFound (message : string)
| StoreCapacity (message : string)
| StoreUnsupportedSchema (message : string)
| StoreUnsafePath (message : string).

(** A row of [cooling_candidates]; the integers are [i64]. *)
Record cooling_row : Type := mkCoolingRow {
  first_continuous_ms : Z;
  last_continuous_ms : Z;
  first_wall_ms : Z;
  last_wall_ms : Z;
  row_root_identity : string;
  row_members : string;
  row_boot_session : string;
  row_epoch : string;
  row_pack : string;
  row_version : string;
}.

Abbreviation cooling_table := (gmap string cooling_row).

(** The CHECK constraints of the table. *)
Definition row_check (row : cooling_row) : bool :=
  bool_decide (0 ≤ first_continuous_ms row)%Z
  && bool_decide (first_continuous_ms row ≤ last_continuous_ms row)%Z
  && bool_decide (0 ≤ first_wall_ms row)%Z && bool_decide (0 ≤ last_wall_ms row)%Z.

(** [sqlite_millis]: [i64::try_from] of a [u64]. *)
Definition sqlite_millis (value : N) (label : string) : result Z StoreError :=
  if bool_decide (Z.of_N value < 2 ^ 63)%Z then Ok (Z.of_N value)
  else Err (StoreRange (label +:+ " overflowed i64")).

(** [i64::saturating_sub]. *)
Definition i64_saturating_sub (a b : Z) : Z :=
  Z.max (- 2 ^ 63) (Z.min (2 ^ 63 - 1) (a - b)).

(** [u64::try_from] of an [i64] difference. *)
Definition u64_try_from (z : Z) : option N := if bool_decide (0 ≤ z)%Z then Some (Z.to_N z) else None.

(** [u64::abs_diff]. *)
Definition abs_diff (a b : N) : N := if bool_decide (a ≤ b)%N then (b - a)%N else (a - b)%N.

(** [wall_continuity_is_plausible]. *)
Definition wall_continuity_is_plausible (wall previous_wall continuous previous_continuous : Z)
    (tolerance_millis : N) : bool :=
  match u64_try_from (wall - previous_wall), u64_try_from (continuous - previous_continuous) with
  | Some wall_gap, Some continuous_gap =>
      bool_decide (abs_diff wall_gap continuous_gap ≤ tolerance_millis)%N
  | _, _ => false
  end.

(** ** Operations *)

(** The match guard of [track_cooling]: the row continues with this sighting. *)
Definition row_continues (row : cooling_row) (report : IncidentReport) (clock : CoolingClock)
    (wall continuous : Z) (continuity_gap_millis : N) : bool :=
  bool_decide (row_root_identity row = root_identity_fingerprint (root report))
  && bool_decide (row_members row = member_fingerprint report)
  && bool_decide (row_boot_session row = clock_boot_session clock)
  && bool_decide (row_epoch row = clock_epoch clock)
  && bool_decide (row_pack row = signature_pack report)
  && bool_decide (row_version row = signature_version report)
  && bool_decide (last_continuous_ms row ≤ continuous)%Z
  && bool_decide (last_wall_ms row ≤ wall)%Z
  && match u64_try_from (continuous - last_continuous_ms row) with
     | Some gap => bool_decide (gap ≤ continuity_gap_millis)%N
     | None => false
     end
  && wall_continuity_is_plausible wall (last_wall_ms row) continuous (last_continuous_ms row)
       continuity_gap_millis.

(** The row [track_cooling] writes. *)
Definition tracked_row (existing : option cooling_row) (report : IncidentReport)
    (clock : CoolingClock) (wall continuous : Z) (continuity_gap_millis : N) : cooling_row :=
  let '(first_continuous, first_wall) :=
    match existing with
    | Some row =>
        if row_continues row report clock wall continuous continuity_gap_millis
        then (first_continuous_ms row, first_wall_ms row) else (continuous, wall)
    | None => (continuous, wall)
    end in
  mkCoolingRow first_continuous continuous first_wall wall
    (root_identity_fingerprint (root report)) (member_fingerprint report)
    (clock_boot_session clock) (clock_epoch clock) (signature_pack report)
    (signature_version report).

(** [HistoryStore::track_cooling]; [storage] is the failure of the transaction, if
    it fails. The answer is the new table and whether the grace elapsed. *)
Definition track_cooling (storage : option string) (t : cooling_table) (report : IncidentReport)
    (clock : CoolingClock) (abandonment_grace_millis continuity_gap_millis : N) :
    result (cooling_table * bool) StoreError :=
  guard? bool_decide (state report = Cooling)
    else StoreInvalid "only COOLING incidents can advance abandonment grace" in
  guard? negb (is_empty (trim (clock_boot_session clock)) || is_empty (trim (clock_epoch clock)))
    else StoreInvalid "cooling clock requires boot and enforcement epoch fingerprints" in
  let? wall := sqlite_millis (clock_wall clock) "cooling wall timestamp" in
  let? continuous := sqlite_millis (clock_continuous clock) "cooling continuous timestamp" in
  match storage with
  | Some error => Err (StoreSqlite error)
  | None =>
      let row := tracked_row (t !! tracking_key report) report clock wall continuous
                   continuity_gap_millis in
      guard? row_check row else StoreSqlite "CHECK constraint failed: cooling_candidates" in
      let elapsed :=
        default 0%N (u64_try_from (i64_saturating_sub continuous (first_continuous_ms row))) in
      Ok (<[tracking_key report := row]> t, bool_decide (abandonment_grace_millis ≤ elapsed)%N)
  end.

(** [HistoryStore::retain_cooling]: every existing key that is not active is deleted. *)
Definition retain_cooling (active_tracking_keys : gset string) (t : cooling_table) :
    cooling_table :=
  fold_left (λ t key, if bool_decide (key ∈ active_tracking_keys) then t else delete key t)
    (elements (dom t)) t.

(** The deletion of a retried cleanup ([authorize_retry] and the public
    mutation). *)
Definition forget_cooling (tracking_key : string) (t : cooling_table) : cooling_table :=
  delete tracking_key t.

(** The deletion of [prune]. *)
Definition prune_cooling (cutoff : Z) (t : cooling_table) : cooling_table :=
  filter (λ entry, (cutoff ≤ last_wall_ms entry.2)%Z) t.

(** The deletion of [apply_managed_arm]. *)
Definition reset_cooling (t : cooling_table) : cooling_table := ∅.

(** A committed call on the table, or a [track_cooling] call with its answer. *)
Inductive cooling_event : Type :=
| Track (storage : option string) (report : IncidentReport) (clock : CoolingClock)
    (abandonment_grace_millis continuity_gap_millis : N)
| Retain (active_tracking_keys : gset string)
| Forget (tracking_key : string)
| Prune (cutoff : Z)
| Arm.

Definition cooling_step (t : cooling_table) (e : cooling_event) : cooling_table :=
  match e with
  | Track storage report clock grace gap =>
      match track_cooling storage t report clock grace gap with Ok (t, _) => t | Err _ => t end
  | Retain keys => retain_cooling keys t
  | Forget key => forget_cooling key t
  | Prune cutoff => prune_cooling cutoff t
  | Arm => reset_cooling t
  end.

(** The table after the calls made since it was created. *)
Definition cooling_after (history : list cooling_event) : cooling_table :=
  fold_left cooling_step history ∅.

(** ** The engine's loops *)

(** [cooling_clock]. *)
Definition cooling_clock (sample : ClockSample) (enforcement_epoch : string) : CoolingClock :=
  mkCoolingClock (wall_unix_millis sample) (continuous_millis sample)
    (boot_session_fingerprint sample) enforcement_epoch.

(** [duration_millis]; an error is the message of [EngineError::Config]. *)
Definition duration_millis (d : Duration) : result N string :=
  let millis := (nanos d / 1000000)%N in
  if bool_decide (millis < u64_bound)%N then Ok millis
  else Err "duration overflowed u64 milliseconds".

Section Loops.
Context (storage : IncidentReport → option string) (clock : CoolingClock) (grace gap : N).

(** The loop over the first observation. *)
Fixpoint track_first (t : cooling_table) (reports : list IncidentReport) :
    result cooling_table StoreError :=
  match reports with
  | [] => Ok t
  | report :: reports =>
      if bool_decide (state report = Cooling) then
        let? tracked := track_cooling (storage report) t report clock grace gap in
        track_first tracked.1 reports
      else track_first t reports
  end.

(** The loop over the second observation: the table, the active keys and the keys
    whose abandonment is confirmed. *)
Fixpoint track_second (t : cooling_table) (active confirmed : gset string)
    (reports : list IncidentReport) :
    result (cooling_table * gset string * gset string) StoreError :=
  match reports with
  | [] => Ok (t, active, confirmed)
  | report :: reports =>
      if bool_decide (state report = Cooling) then
        let active := {[tracking_key report]} ∪ active in
        let? tracked := track_cooling (storage report) t report clock grace gap in
        track_second tracked.1 active
          (if tracked.2 : bool then {[tracking_key report]} ∪ confirmed else confirmed) reports
      else track_second t active confirmed reports
  end.

(** The second observation: the keys confirmed, with the table that is retained. *)
Definition confirm_abandonment (t : cooling_table) (second_reports : list IncidentReport) :
    result (cooling_table * gset string) StoreError :=
  let? tracked := track_second t ∅ ∅ second_reports in
  let '(t, active, confirmed) := tracked in
  Ok (retain_cooling active t, confirmed).

(** The calls of a loop, in order. *)
Definition loop_events (reports : list IncidentReport) : list cooling_event :=
  (λ r, Track (storage r) r clock grace gap) <$>
    List.filter (λ r, bool_decide (state r = Cooling)) reports.
End Loops.

(** ** Specification *)

(** A report tracked with a clock under a continuity tolerance. *)
Record sighting : Type := mkSighting {
  seen_report : IncidentReport;
  seen_clock : CoolingClock;
  seen_gap : N;
}.

Definition seen_continuous (x : sighting) : Z := Z.of_N (clock_continuous (seen_clock x)).

Definition seen_wall (x : sighting) : Z := Z.of_N (clock_wall (seen_clock x)).

(** The inputs [track_cooling] accepts. *)
Definition trackable (report : IncidentReport) (clock : CoolingClock) : bool :=
  bool_decide (state report = Cooling)
  && negb (is_empty (trim (clock_boot_session clock)) || is_empty (trim (clock_epoch clock)))
  && bool_decide (Z.of_N (clock_wall clock) < 2 ^ 63)%Z
  && bool_decide (Z.of_N (clock_continuous clock) < 2 ^ 63)%Z.

(** The accepted sightings of a key in a history. *)
Definition sighting_of (key : string) (e : cooling_event) : option sighting :=
  match e with
  | Track None report clock _ gap =>
      if bool_decide (tracking_key report = key) && trackable report clock
      then Some (mkSighting report clock gap) else None
  | _ => None
  end.

Definition sightings (key : string) (history : list cooling_event) : list sighting :=
  omap (sighting_of key) history.

(** [y] sees the incident of [x] unchanged, in the same boot session and epoch, no
    later than its tolerance after [x] on both clocks. *)
Record continues (x y : sighting) : Prop := {
  continues_root : root_identity_fingerprint (root (seen_report x)) =
    root_identity_fingerprint (root (seen_report y));
  continues_members : member_fingerprint (seen_report x) = member_fingerprint (seen_report y);
  continues_boot : clock_boot_session (seen_clock x) = clock_boot_session (seen_clock y);
  continues_epoch : clock_epoch (seen_clock x) = clock_epoch (seen_clock y);
  continues_pack : signature_pack (seen_report x) = signature_pack (seen_report y) ∧
    signature_version (seen_report x) = signature_version (seen_report y);
  continues_forward : (seen_continuous x ≤ seen_continuous y)%Z ∧ (seen_wall x ≤ seen_wall y)%Z;
  continues_gap : (seen_continuous y - seen_continuous x ≤ Z.of_N (seen_gap y))%Z;
  continues_wall : (Z.abs ((seen_wall y - seen_wall x) - (seen_continuous y - seen_continuous x))
                    ≤ Z.of_N (seen_gap y))%Z;
}.

Fixpoint unbroken (l : list sighting) : Prop :=
  match l with
  | x :: (y :: _) as rest => continues x y ∧ unbroken rest
  | _ => True
  end.

(** The call does not end what is remembered of a key. *)
Definition keeps (key : string) (e : cooling_event) : Prop :=
  match e with
  | Retain keys => key ∈ keys
  | Forget key' => key' ≠ key
  | Arm => False
  | Track _ _ _ _ _ | Prune _ => True
  end.

(** A history ends with an unbroken run of sightings of the key from [x] to [y],
    during which nothing ended what is remembered of it. *)
Definition watched (key : string) (history : list cooling_event) (x y : sighting) : Prop :=
  ∃ before since, history = before ++ since ∧ Forall (keeps key) since ∧
    head (sightings key since) = Some x ∧ last (sightings key since) = Some y ∧
    unbroken (sightings key since).

(** What a row remembers. *)
Record remembers (history : list cooling_event) (key : string) (row : cooling_row)
    (x y : sighting) : Prop := {
  remembers_watched : watched key history x y;
  remembers_first : first_continuous_ms row = seen_continuous x ∧ first_wall_ms row = seen_wall x;
  remembers_last : last_continuous_ms row = seen_continuous y ∧ last_wall_ms row = seen_wall y;
  remembers_subject :
    row_root_identity row = root_identity_fingerprint (root (seen_report y)) ∧
    row_members row = member_fingerprint (seen_report y) ∧
    row_boot_session row = clock_boot_session (seen_clock y) ∧
    row_epoch row = clock_epoch (seen_clock y) ∧
    row_pack row = signature_pack (seen_report y) ∧
    row_version row = signature_version (seen_report y);
}.

(** An incident was watched without a break for the grace period, up to this
    sighting of it. *)
Definition grace_elapsed (history : list cooling_event) (report : IncidentReport)
    (clock : CoolingClock) (grace gap : N) : Prop :=
  let y := mkSighting report clock gap in
  ∃ x, watched (tracking_key report) history x y ∧
    (Z.of_N grace ≤ seen_continuous y - seen_continuous x)%Z.

(** A Cooling report seen at a second past the boot. *)
Definition cooling_report : IncidentReport :=
  with_verdict witness_report Cooling (gates witness_report) [].

Definition cooling_clock_at (second : N) : CoolingClock :=
  mkCoolingClock (1000000 + second * 1000) (second * 1000) "boot" "epoch".

(** Two sightings a minute apart. *)
Definition watched_history : list cooling_event :=
  [Track None cooling_report (cooling_clock_at 0) 90000 120000;
   Track None cooling_report (cooling_clock_at 60) 90000 120000].

Definition watched_tracking : result (cooling_table * gset string) StoreError :=
  confirm_abandonment (λ _, None) (cooling_clock_at 120) 90000 120000
    (cooling_after watched_history) [cooling_report].

(** The table a successful loop leaves. *)
Definition table_of (x : result (cooling_table * gset string) StoreError) : cooling_table :=
  match x with Ok (t, _) => t | Err _ => ∅ end.

(** A third one reaches the grace of ninety seconds, unless the daemon was armed
    in between. *)
Example grace_is_reached :
  match track_cooling None (cooling_after watched_history) cooling_report
          (cooling_clock_at 120) 90000 120000 with Ok (_, b) => b | Err _ => false end = true ∧
  match track_cooling None (cooling_after (watched_history ++ [Arm])) cooling_report
          (cooling_clock_at 120) 90000 120000 with Ok (_, b) => b | Err _ => true end = false.
Proof. vm_compute. done. Qed.

(** ** Lemmas *)

Lemma sqlite_millis_Ok v label z :
  sqlite_millis v label = Ok z ↔ z = Z.of_N v ∧ (Z.of_N v < 2 ^ 63)%Z.
Proof. unfold sqlite_millis. case_bool_decide; split; [naive_solver..|done|naive_solver]. Qed.

Lemma track_cooling_Ok storage t r clock grace gap t' b :
  track_cooling storage t r clock grace gap = Ok (t', b) →
  let row := tracked_row (t !! tracking_key r) r clock (Z.of_N (clock_wall clock))
               (Z.of_N (clock_continuous clock)) gap in
  storage = None ∧ trackable r clock = true ∧ t' = <[tracking_key r := row]> t ∧
  row_check row = true ∧
  b = bool_decide (grace ≤ default 0%N (u64_try_from
        (i64_saturating_sub (Z.of_N (clock_continuous clock)) (first_continuous_ms row))))%N.
Proof.
  unfold track_cooling, trackable.
  destruct (bool_decide (state r = Cooling)); [|done].
  destruct (negb (is_empty (trim (clock_boot_session clock)) || _)); [|done].
  intros (wall & [-> Hwall]%sqlite_millis_Ok & Hrest)%result_bind_Ok.
  apply result_bind_Ok in Hrest as (continuous & [-> Hcont]%sqlite_millis_Ok & Hrest).
  destruct storage; [done|]. cbv zeta in Hrest.
  destruct (row_check _) eqn:Hcheck; [|done]. injection Hrest as <- <-.
  by rewrite !bool_decide_true by done.
Qed.

Lemma retain_cooling_Some keys t key row :
  retain_cooling keys t !! key = Some row ↔ t !! key = Some row ∧ key ∈ keys.
Proof.
  unfold retain_cooling.
  assert (Hgen : ∀ l (t : cooling_table),
    fold_left (λ t key, if bool_decide (key ∈ keys) then t else delete key t) l t !! key
      = Some row ↔ t !! key = Some row ∧ (key ∈ l → key ∈ keys)).
  { induction l as [|k l IH]; intros t'; simpl; [set_solver|]. rewrite IH.
    case_bool_decide; [set_solver|]. rewrite lookup_delete_Some. set_solver. }
  rewrite Hgen, elem_of_elements, elem_of_dom. naive_solver.
Qed.

Lemma cooling_after_snoc history e :
  cooling_after (history ++ [e]) = cooling_step (cooling_after history) e.
Proof. unfold cooling_after. by rewrite fold_left_app. Qed.

(** Every row of a reachable table satisfies the constraints. *)
Lemma cooling_after_check history key row :
  cooling_after history !! key = Some row → row_check row = true.
Proof.
  revert key row. induction history as [|e history IH] using rev_ind; intros key row; [done|].
  rewrite cooling_after_snoc. destruct e as [storage r clock grace gap|keys|key'|cutoff|];
    simpl; unfold forget_cooling, prune_cooling.
  - destruct (track_cooling _ _ _ _ _ _) as [[t' b]|] eqn:Htrack; [|apply IH].
    apply track_cooling_Ok in Htrack as (_ & _ & -> & Hcheck & _).
    intros [[_ <-]|[_ ?]]%lookup_insert_Some; eauto.
  - intros [? _]%retain_cooling_Some. eauto.
  - intros [_ ?]%lookup_delete_Some. eauto.
  - intros [? _]%map_lookup_filter_Some. eauto.
  - done.
Qed.

Lemma tracked_row_check existing r clock wall continuous gap :
  (∀ row, existing = Some row → row_check row = true) → (0 ≤ wall)%Z → (0 ≤ continuous)%Z →
  row_check (tracked_row existing r clock wall continuous gap) = true.
Proof.
  intros Hex Hw Hc. unfold tracked_row.
  assert (Hfresh : ∀ a b c d e f, row_check
    (mkCoolingRow continuous continuous wall wall a b c d e f) = true).
  { intros. unfold row_check. simpl. by rewrite !bool_decide_true by lia. }
  destruct existing as [row|]; [|apply Hfresh].
  destruct (row_continues _ _ _ _ _ _) eqn:Hcont; [|apply Hfresh].
  specialize (Hex row eq_refl). unfold row_continues in Hcont. unfold row_check in *.
  bool_facts. simpl. by rewrite !bool_decide_true by lia.
Qed.

(** Unbroken runs *)

Lemma unbroken_snoc l z :
  unbroken l → (∀ y, last l = Some y → continues y z) → unbroken (l ++ [z]).
Proof.
  induction l as [|x l IH]; [done|]. intros Hl Hz. destruct l as [|y l].
  { split; [|done]. by apply Hz. }
  destruct Hl as [Hxy Hl]. split; [done|]. apply IH; [done|]. intros y' Hy'. by apply Hz.
Qed.

Lemma watched_step key history e x y :
  watched key history x y → keeps key e → sighting_of key e = None →
  watched key (history ++ [e]) x y.
Proof.
  intros (before & since & -> & Hkeep & Hx & Hy & Hun) He Hnone.
  assert (Hs : sightings key (since ++ [e]) = sightings key since).
  { unfold sightings. rewrite omap_app. simpl. by rewrite Hnone, app_nil_r. }
  exists before, (since ++ [e]). rewrite Hs, <-app_assoc. split_and!; try done.
  apply Forall_app. by split; [|apply Forall_singleton].
Qed.

Lemma watched_extend key history e x y z :
  watched key history x y → keeps key e → sighting_of key e = Some z → continues y z →
  watched key (history ++ [e]) x z.
Proof.
  intros (before & since & -> & Hkeep & Hx & Hy & Hun) He Hz Hyz.
  assert (Hs : sightings key (since ++ [e]) = sightings key since ++ [z]).
  { unfold sightings. rewrite omap_app. simpl. by rewrite Hz. }
  exists before, (since ++ [e]). rewrite Hs, <-app_assoc. split_and!; try done.
  - apply Forall_app. by split; [|apply Forall_singleton].
  - by destruct (sightings key since).
  - apply last_snoc.
  - apply unbroken_snoc; [done|]. intros y' Hy'. congruence.
Qed.

Lemma watched_start key history e z :
  keeps key e → sighting_of key e = Some z → watched key (history ++ [e]) z z.
Proof.
  intros He Hz. exists history, [e]. unfold sightings. simpl. rewrite Hz.
  split_and!; try done. by apply Forall_singleton.
Qed.

Lemma row_continues_continues history key row x y r clock gap :
  remembers history key row x y →
  row_continues row r clock (Z.of_N (clock_wall clock)) (Z.of_N (clock_continuous clock)) gap
    = true →
  continues y (mkSighting r clock gap).
Proof.
  intros [_ _ [Hlc Hlw] (Hs1 & Hs2 & Hs3 & Hs4 & Hs5 & Hs6)]. unfold row_continues.
  intros Hc. bool_facts. unfold wall_continuity_is_plausible, u64_try_from, abs_diff in *.
  rewrite Hlc, Hlw in *.
  split; simpl; try congruence; try (split; congruence); unfold seen_continuous, seen_wall in *;
    simpl in *; [lia|..]; repeat case_bool_decide; try done; lia.
Qed.

Lemma trackable_sighting key r clock grace gap :
  trackable r clock = true → tracking_key r = key →
  sighting_of key (Track None r clock grace gap) = Some (mkSighting r clock gap).
Proof. intros Ht Hk. simpl. by rewrite (bool_decide_true _ Hk), Ht. Qed.

(** A successful call leaves a row that remembers the run it belongs to. *)
Lemma track_remembers history r clock grace gap t' b :
  (∀ row, cooling_after history !! tracking_key r = Some row →
     ∃ x y, remembers history (tracking_key r) row x y) →
  track_cooling None (cooling_after history) r clock grace gap = Ok (t', b) →
  let row := tracked_row (cooling_after history !! tracking_key r) r clock
               (Z.of_N (clock_wall clock)) (Z.of_N (clock_continuous clock)) gap in
  ∃ x, remembers (history ++ [Track None r clock grace gap]) (tracking_key r) row x
         (mkSighting r clock gap).
Proof.
  intros IH (_ & Htr & _)%track_cooling_Ok row.
  pose proof (trackable_sighting _ _ _ grace gap Htr eq_refl) as Hsee.
  assert (Hfresh : ∃ x, remembers (history ++ [Track None r clock grace gap]) (tracking_key r)
    (mkCoolingRow (Z.of_N (clock_continuous clock)) (Z.of_N (clock_continuous clock))
       (Z.of_N (clock_wall clock)) (Z.of_N (clock_wall clock))
       (root_identity_fingerprint (root r)) (member_fingerprint r) (clock_boot_session clock)
       (clock_epoch clock) (signature_pack r) (signature_version r)) x (mkSighting r clock gap)).
  { exists (mkSighting r clock gap). split; try done. by apply watched_start. }
  unfold row, tracked_row. destruct (cooling_after history !! tracking_key r) as [old|];
    [|exact Hfresh].
  destruct (row_continues _ _ _ _ _ _) eqn:Hc; [|exact Hfresh].
  destruct (IH old eq_refl) as (x & y & Hold). exists x. split; try done; simpl; [|apply Hold].
  eapply watched_extend; [apply Hold|done|done|]. by eapply row_continues_continues.
Qed.

Lemma track_cooling_accepts t r clock grace gap :
  trackable r clock = true →
  (∀ row, t !! tracking_key r = Some row → row_check row = true) →
  is_Ok (track_cooling None t r clock grace gap).
Proof.
  unfold trackable, track_cooling. intros Htr Hcheck. bool_facts.
  rewrite (bool_decide_true (state r = Cooling)) by done.
  destruct (is_empty (trim (clock_boot_session clock))); [done|].
  destruct (is_empty (trim (clock_epoch clock))); [done|]. simpl.
  unfold sqlite_millis. rewrite !bool_decide_true by done. simpl.
  rewrite tracked_row_check by (done || lia). by eexists.
Qed.

Lemma cooling_after_remembers history key row :
  cooling_after history !! key = Some row → ∃ x y, remembers history key row x y.
Proof.
  revert key row. induction history as [|e history IH] using rev_ind; intros key row; [done|].
  rewrite cooling_after_snoc.
  assert (Hstep : keeps key e → sighting_of key e = None →
    cooling_after history !! key = Some row → ∃ x y, remembers (history ++ [e]) key row x y).
  { intros He Hnone (x & y & [Hw ? ? ?])%IH. exists x, y. split; try done.
    by apply watched_step. }
  destruct e as [storage r clock grace gap|keys|key'|cutoff|];
    simpl; unfold forget_cooling, prune_cooling.
  - destruct (track_cooling _ _ _ _ _ _) as [[t' b]|err] eqn:Htrack.
    + pose proof Htrack as (-> & Htr & -> & _)%track_cooling_Ok.
      intros [[<- <-]|[Hne Hrow]]%lookup_insert_Some.
      * destruct (track_remembers history r clock grace gap _ b (IH (tracking_key r)) Htrack)
          as [x Hx]. eauto.
      * apply Hstep; [done| |done]. simpl. by rewrite bool_decide_false.
    + apply Hstep; [done|]. simpl. destruct storage; [done|].
      destruct (bool_decide (tracking_key r = key)); [|done]. simpl.
      destruct (trackable r clock) eqn:Htr; [|done].
      destruct (track_cooling_accepts _ _ _ grace gap Htr (cooling_after_check history _))
        as [? Hok]. congruence.
  - intros [Hrow Hin]%retain_cooling_Some. by apply Hstep.
  - intros [Hne Hrow]%lookup_delete_Some. by apply Hstep.
  - intros [Hrow _]%map_lookup_filter_Some. by apply Hstep.
  - done.
Qed.

(** A confirmed grace is a watched one. *)
Lemma track_true_grace history storage r clock grace gap t' :
  track_cooling storage (cooling_after history) r clock grace gap = Ok (t', true) →
  grace_elapsed (history ++ [Track storage r clock grace gap]) r clock grace gap.
Proof.
  intros Htrack. pose proof Htrack as (-> & _ & _ & Hcheck & Hb)%track_cooling_Ok.
  destruct (track_remembers history r clock grace gap _ _ (cooling_after_remembers _ _) Htrack)
    as (x & [Hw [Hfirst _] [Hlast _] _]).
  exists x. split; [done|]. symmetry in Hb. apply bool_decide_eq_true in Hb.
  unfold row_check in Hcheck. bool_facts. rewrite Hfirst in *. rewrite Hlast in *.
  unfold seen_continuous in *. simpl in *.
  unfold i64_saturating_sub, u64_try_from in Hb. case_bool_decide; simpl in Hb; lia.
Qed.

Section LoopLemmas.
Context (storage : IncidentReport → option string) (clock : CoolingClock) (grace gap : N).

Abbreviation events := (loop_events storage clock grace gap).

(** The history after the reports up to and including [r]. *)
Definition history_at (history : list cooling_event) (before : list IncidentReport)
    (r : IncidentReport) : list cooling_event :=
  history ++ events before ++ [Track (storage r) r clock grace gap].

Lemma track_second_confirmed reports : ∀ history active confirmed t active' confirmed',
  track_second storage clock grace gap (cooling_after history) active confirmed reports
    = Ok (t, active', confirmed') →
  t = cooling_after (history ++ events reports) ∧
  ∀ key, key ∈ confirmed' → key ∈ confirmed ∨
    ∃ before r after, reports = before ++ r :: after ∧ state r = Cooling ∧
      tracking_key r = key ∧ grace_elapsed (history_at history before r) r clock grace gap.
Proof.
  unfold history_at, loop_events.
  induction reports as [|r reports IH]; intros history active confirmed t active' confirmed';
    simpl.
  { intros [= <- <- <-]. rewrite app_nil_r. auto. }
  destruct (bool_decide (state r = Cooling)) eqn:Hcool; simpl.
  2: { intros (-> & Hkeys)%IH. split; [done|]. intros key [?|(b & q & af & -> & ?)]%Hkeys; [by left|].
       right. exists (r :: b), q, af. simpl. by rewrite Hcool. }
  intros ([t1 b1] & Htrack & Hrest)%result_bind_Ok. simpl in Hrest.
  assert (t1 = cooling_after (history ++ [Track (storage r) r clock grace gap])) as ->.
  { rewrite cooling_after_snoc. simpl. by rewrite Htrack. }
  apply IH in Hrest as [-> Hkeys]. rewrite <-app_assoc. split; [done|].
  intros key [Hin|(b & q & af & -> & Hq & Hkey & Hgr)]%Hkeys.
  - destruct b1; [|by left]. apply elem_of_union in Hin as [->%elem_of_singleton|?]; [|by left].
    right. exists [], r, reports. simpl. bool_facts. split_and!; try done.
    by eapply track_true_grace.
  - right. exists (r :: b), q, af. simpl. rewrite Hcool. simpl. rewrite <-app_assoc in Hgr.
    by split_and!.
Qed.
End LoopLemmas.

Lemma track_confirmed_keys history storage clock grace gap second t keys :
  confirm_abandonment storage clock grace gap (cooling_after history) second = Ok (t, keys) →
  ∀ key, key ∈ keys → ∃ before r after, second = before ++ r :: after ∧ state r = Cooling ∧
    tracking_key r = key ∧
    grace_elapsed (history_at storage clock grace gap history before r) r clock grace gap.
Proof.
  intros ([[t1 active] confirmed] & Htrack & [= _ <-])%result_bind_Ok key Hkey.
  apply track_second_confirmed in Htrack as [_ Hkeys].
  by destruct (Hkeys key Hkey) as [?%elem_of_empty|?].
Qed.

(** ** Properties *)

(** [C9] Grace is earned by watching: [track_cooling] answers that the grace elapsed
    only when the history of calls ends with sightings of that tracking key that
    are unbroken (same root identity, members, pack, boot session and epoch, both
    clocks forward and within the continuity tolerance of each other), that no
    retain, retry or arm interrupted, and that span the grace. *)
Theorem abandonment_needs_unbroken_grace history storage r clock grace gap t :
  track_cooling storage (cooling_after history) r clock grace gap = Ok (t, true) →
  grace_elapsed (history ++ [Track storage r clock grace gap]) r clock grace gap.
Proof. apply track_true_grace. Qed.

(** Tracking accepts exactly Cooling reports with named boot session and epoch
    and timestamps in [i64]: on every reachable table a call succeeds iff the
    transaction does and its inputs are these, and then it replaces the row of its
    key only; the CHECK constraints of the table are never violated. *)
Theorem tracking_accepts_iff history storage r clock grace gap :
  (is_Ok (track_cooling storage (cooling_after history) r clock grace gap) ↔
     storage = None ∧ trackable r clock = true) ∧
  (∀ t b, track_cooling storage (cooling_after history) r clock grace gap = Ok (t, b) →
     (∀ key, key ≠ tracking_key r → t !! key = cooling_after history !! key) ∧
     ∀ key row, t !! key = Some row → row_check row = true).
Proof.
  split; [split|].
  - intros [[t b] (-> & ? & _)%track_cooling_Ok]. done.
  - intros [-> Htr]. apply track_cooling_accepts; [done|]. intros row. apply cooling_after_check.
  - intros t b (_ & _ & -> & Hcheck & _)%track_cooling_Ok. split.
    + intros key Hne. by rewrite lookup_insert_ne.
    + intros key row [[_ <-]|[_ ?]]%lookup_insert_Some; [done|]. by eapply cooling_after_check.
Qed.

(** The engine confirms only watched incidents: each key that the loop over the
    second observation confirms belongs to a Cooling report of that observation
    that was watched unbroken for the grace, up to this clock sample. *)
Theorem confirmed_keys_are_watched history storage clock grace gap second t keys key :
  confirm_abandonment storage clock grace gap (cooling_after history) second = Ok (t, keys) →
  key ∈ keys →
  ∃ before r after, second = before ++ r :: after ∧ state r = Cooling ∧ tracking_key r = key ∧
    grace_elapsed (history_at storage clock grace gap history before r) r clock grace gap.
Proof. intros Hkeys. by apply (track_confirmed_keys _ _ _ _ _ _ _ _ Hkeys). Qed.

(** ** Witnesses *)

Lemma abandonment_needs_unbroken_grace_witness :
  grace_elapsed (watched_history ++ [Track None cooling_report (cooling_clock_at 120) 90000 120000])
    cooling_report (cooling_clock_at 120) 90000 120000.
Proof.
  apply (abandonment_needs_unbroken_grace watched_history None cooling_report
           (cooling_clock_at 120) 90000 120000 (table_of watched_tracking)).
  vm_compute. reflexivity.
Defined.

Lemma confirmed_keys_are_watched_witness :
  ∃ before r after, [cooling_report] = before ++ r :: after ∧ state r = Cooling ∧
    tracking_key r = "tracking" ∧
    grace_elapsed (history_at (λ _, None) (cooling_clock_at 120) 90000 120000 watched_history
                     before r) r (cooling_clock_at 120) 90000 120000.
Proof.
  apply (confirmed_keys_are_watched watched_history (λ _, None) (cooling_clock_at 120)
            90000 120000 [cooling_report] (table_of watched_tracking) {["tracking"]}).
  - vm_compute. reflexivity.
  - by apply elem_of_singleton.
Defined.
