(* ===== verification/Names.v ===== *)
(** Names: the text columns of [unlinger-daemon/src/store.rs].

    Every enumeration the store persists has a function that names its values and
    one that parses them back. [StoredText] is the interface the tables use. *)

From Stdlib Require Import Ascii.
From S2P Require Import Prelude Text Model Artifact Evidence Cleanup Cooling.

(** ** Text *)

(** The escapes of [str]'s [Debug]; the code points outside ASCII that Rust
    escapes because they are not printable are left as they are. *)
Definition escape_debug (c : ascii) : string :=
  let n := code c in
  let hex d := String (if (d <? 10)%N then ascii_of_N (48 + d) else ascii_of_N (87 + d)) "" in
  if (n =? 0)%N then "\0"
  else if (n =? 9)%N then "\t"
  else if (n =? 10)%N then "\n"
  else if (n =? 13)%N then "\r"
  else if (n =? 34)%N then "\" +:+ String c ""
  else if (n =? 92)%N then "\\"
  else if ((n <? 32) || (n =? 127))%N then
    "\u{" +:+ (if (n <? 16)%N then "" else hex (n / 16)%N) +:+ hex (n mod 16)%N +:+ "}"
  else String c "".

Fixpoint escape_debug_all (s : string) : string :=
  match s with
  | EmptyString => ""
  | String c s => escape_debug c +:+ escape_debug_all s
  end.

(** The double quote. *)
Definition quote : string := String (ascii_of_N 34) "".

(** [format!("{:?}", s)] of a string. *)
Definition debug_str (s : string) : string := quote +:+ escape_debug_all s +:+ quote.

(** A [match] on a string with literal arms. *)
Fixpoint match_text {A} (s : string) (arms : list (string * A)) : option A :=
  match arms with
  | [] => None
  | (text, a) :: arms => if bool_decide (s = text) then Some a else match_text s arms
  end.

(** [match value { <arms>, other => Err(Corrupt(format!("<what> {other:?}"))) }]. *)
Definition parse_text {A} (what : string) (arms : list (string * A)) (value : string) :
    result A StoreError :=
  match match_text value arms with
  | Some a => Ok a
  | None => Err (StoreCorrupt (what +:+ " " +:+ debug_str value))
  end.

(** ** Codecs *)

(** An enumeration stored by name. *)
Class StoredText (A : Type) : Type := {
  stored_name : A → string;
  parse_stored : string → result A StoreError;
  parse_stored_name : ∀ a, parse_stored (stored_name a) = Ok a;
  stored_name_parse : ∀ s a, parse_stored s = Ok a → s = stored_name a;
}.

Definition cleanup_stage_name (stage : CleanupStage) : string :=
  match stage with
  | PrimaryTerm => "primary_term"
  | MemberTerm => "member_term"
  | ExactKill => "exact_kill"
  end.

Definition parse_cleanup_stage : string → result CleanupStage StoreError :=
  parse_text "unknown cleanup stage"
    [("primary_term", PrimaryTerm); ("member_term", MemberTerm); ("exact_kill", ExactKill)].

Definition cleanup_signal_name (signal : CleanupSignal) : string :=
  match signal with Term => "term" | Kill => "kill" end.

Definition parse_cleanup_signal : string → result CleanupSignal StoreError :=
  parse_text "unknown cleanup signal" [("term", Term); ("kill", Kill)].

Definition signal_disposition_name (disposition : SignalDisposition) : string :=
  match disposition with
  | Delivered => "delivered"
  | AlreadyExited => "already_exited"
  | IdentityMismatch => "identity_mismatch"
  | Rejected => "rejected"
  | CancelledBeforeDelivery => "cancelled_before_delivery"
  | DeliveryUnknown => "delivery_unknown"
  end.

Definition parse_signal_disposition : string → result SignalDisposition StoreError :=
  parse_text "unknown signal disposition"
    [("delivered", Delivered); ("already_exited", AlreadyExited);
     ("identity_mismatch", IdentityMismatch); ("rejected", Rejected);
     ("cancelled_before_delivery", CancelledBeforeDelivery);
     ("delivery_unknown", DeliveryUnknown)].

Definition runtime_artifact_kind_name (kind : RuntimeArtifactKind) : string :=
  match kind with DevToolsActivePort => "dev_tools_active_port" end.

Definition parse_runtime_artifact_kind : string → result RuntimeArtifactKind StoreError :=
  parse_text "unknown runtime artifact kind" [("dev_tools_active_port", DevToolsActivePort)].

Definition artifact_disposition_name (disposition : ArtifactDisposition) : string :=
  match disposition with
  | Removed => "removed"
  | AlreadyAbsent => "already_absent"
  | ArtIdentityMismatch => "identity_mismatch"
  | Referenced => "referenced"
  | Unsafe => "unsafe"
  | ArtRejected => "rejected"
  | ArtCancelledBeforeDelivery => "cancelled_before_delivery"
  | ArtDeliveryUnknown => "delivery_unknown"
  end.

Definition parse_artifact_disposition : string → result ArtifactDisposition StoreError :=
  parse_text "unknown artifact disposition"
    [("removed", Removed); ("already_absent", AlreadyAbsent);
     ("identity_mismatch", ArtIdentityMismatch); ("referenced", Referenced);
     ("unsafe", Unsafe); ("rejected", ArtRejected);
     ("cancelled_before_delivery", ArtCancelledBeforeDelivery);
     ("delivery_unknown", ArtDeliveryUnknown)].

Definition process_outcome_name (outcome : ProcessOutcome) : string :=
  match outcome with
  | ProcessCleared => "cleared"
  | ProcessRevived => "revived"
  | ProcessFailed => "failed"
  | ProcessDeliveryUnknown => "delivery_unknown"
  end.

Definition parse_process_outcome : string → result ProcessOutcome StoreError :=
  parse_text "unknown process outcome"
    [("cleared", ProcessCleared); ("revived", ProcessRevived); ("failed", ProcessFailed);
     ("delivery_unknown", ProcessDeliveryUnknown)].

Definition artifact_outcome_name (outcome : ArtifactOutcome) : string :=
  match outcome with
  | NotApplicable => "not_applicable"
  | Reconciled => "reconciled"
  | Residue => "residue"
  | ArtifactDeliveryUnknown => "delivery_unknown"
  end.

Definition parse_artifact_outcome : string → result ArtifactOutcome StoreError :=
  parse_text "unknown artifact outcome"
    [("not_applicable", NotApplicable); ("reconciled", Reconciled); ("residue", Residue);
     ("delivery_unknown", ArtifactDeliveryUnknown)].

Definition overall_outcome_name (outcome : OverallOutcome) : string :=
  match outcome with
  | OverallCleared => "cleared"
  | ClearedWithResidue => "cleared_with_residue"
  | OverallRevived => "revived"
  | OverallFailed => "failed"
  end.

Definition parse_overall_outcome : string → result OverallOutcome StoreError :=
  parse_text "unknown overall outcome"
    [("cleared", OverallCleared); ("cleared_with_residue", ClearedWithResidue);
     ("revived", OverallRevived); ("failed", OverallFailed)].

Definition state_name (state : IncidentState) : string :=
  match state with
  | Protected => "PROTECTED"
  | Active => "ACTIVE"
  | Cooling => "COOLING"
  | Confirmed => "CONFIRMED"
  | Ambiguous => "AMBIGUOUS"
  | Reclaiming => "RECLAIMING"
  | Cleared => "CLEARED"
  | Revived => "REVIVED"
  | Failed => "FAILED"
  end.

Definition parse_state : string → result IncidentState StoreError :=
  parse_text "unknown incident state"
    [("PROTECTED", Protected); ("ACTIVE", Active); ("COOLING", Cooling);
     ("CONFIRMED", Confirmed); ("AMBIGUOUS", Ambiguous); ("RECLAIMING", Reclaiming);
     ("CLEARED", Cleared); ("REVIVED", Revived); ("FAILED", Failed)].

Inductive EventKind : Type := KindObservation | KindCleanup.

#[export] Instance EventKind_eq_dec : EqDecision EventKind.
Proof. solve_decision. Defined.

(** [EventKind::as_str]. *)
Definition event_kind_name (kind : EventKind) : string :=
  match kind with KindObservation => "observation" | KindCleanup => "cleanup" end.

(** [EventKind::parse]. *)
Definition parse_event_kind : string → result EventKind StoreError :=
  parse_text "unknown history event kind"
    [("observation", KindObservation); ("cleanup", KindCleanup)].

Inductive ManagedStartupPhase : Type :=
| PhaseRecovering
| PhaseFirstScanReportOnly
| PhaseReadyReportOnly
| PhaseReadyEnforce
| PhaseDraining
| PhaseFailed.

#[export] Instance ManagedStartupPhase_eq_dec : EqDecision ManagedStartupPhase.
Proof. solve_decision. Defined.

Definition managed_startup_phase_name (phase : ManagedStartupPhase) : string :=
  match phase with
  | PhaseRecovering => "recovering"
  | PhaseFirstScanReportOnly => "first_scan_report_only"
  | PhaseReadyReportOnly => "ready_report_only"
  | PhaseReadyEnforce => "ready_enforce"
  | PhaseDraining => "draining"
  | PhaseFailed => "failed"
  end.

Definition parse_managed_startup_phase : string → result ManagedStartupPhase StoreError :=
  parse_text "unknown managed startup phase"
    [("recovering", PhaseRecovering); ("first_scan_report_only", PhaseFirstScanReportOnly);
     ("ready_report_only", PhaseReadyReportOnly); ("ready_enforce", PhaseReadyEnforce);
     ("draining", PhaseDraining); ("failed", PhaseFailed)].

(** ** Lemmas *)

Lemma match_text_elem {A} s (arms : list (string * A)) a :
  match_text s arms = Some a → (s, a) ∈ arms.
Proof.
  induction arms as [|[t b] arms IH]; simpl; [done|].
  case_bool_decide; [intros [= <-]; subst; left|right; auto].
Qed.

Lemma parse_text_elem {A} what s (arms : list (string * A)) a :
  parse_text what arms s = Ok a → (s, a) ∈ arms.
Proof.
  unfold parse_text. destruct (match_text s arms) eqn:E; [|done].
  intros [= <-]. by apply match_text_elem.
Qed.

Lemma parse_text_Err {A} what s (arms : list (string * A)) e :
  parse_text what arms s = Err e → s ∉ arms.*1.
Proof.
  unfold parse_text. destruct (match_text s arms) as [|] eqn:E; [done|]. intros _.
  induction arms as [|[t b] arms IH]; simpl in *; [set_solver|].
  case_bool_decide; [done|]. rewrite not_elem_of_cons. auto.
Qed.

(** Both laws of a codec, by cases on its values and its arms. *)
Ltac stored_text :=
  first
    [ by intros []
    | intros s a H; apply parse_text_elem in H;
      repeat (apply elem_of_cons in H as [H|H]; [by injection H as -> ->|]);
      by apply elem_of_nil in H ].

#[export] Instance stored_stage : StoredText CleanupStage.
Proof. exists cleanup_stage_name parse_cleanup_stage; stored_text. Defined.

#[export] Instance stored_signal : StoredText CleanupSignal.
Proof. exists cleanup_signal_name parse_cleanup_signal; stored_text. Defined.

#[export] Instance stored_disposition : StoredText SignalDisposition.
Proof. exists signal_disposition_name parse_signal_disposition; stored_text. Defined.

#[export] Instance stored_artifact_kind : StoredText RuntimeArtifactKind.
Proof. exists runtime_artifact_kind_name parse_runtime_artifact_kind; stored_text. Defined.

#[export] Instance stored_artifact_disposition : StoredText ArtifactDisposition.
Proof. exists artifact_disposition_name parse_artifact_disposition; stored_text. Defined.

#[export] Instance stored_process_outcome : StoredText ProcessOutcome.
Proof. exists process_outcome_name parse_process_outcome; stored_text. Defined.

#[export] Instance stored_artifact_outcome : StoredText ArtifactOutcome.
Proof. exists artifact_outcome_name parse_artifact_outcome; stored_text. Defined.

#[export] Instance stored_overall_outcome : StoredText OverallOutcome.
Proof. exists overall_outcome_name parse_overall_outcome; stored_text. Defined.

#[export] Instance stored_state : StoredText IncidentState.
Proof. exists state_name parse_state; stored_text. Defined.

#[export] Instance stored_event_kind : StoredText EventKind.
Proof. exists event_kind_name parse_event_kind; stored_text. Defined.

#[export] Instance stored_phase : StoredText ManagedStartupPhase.
Proof. exists managed_startup_phase_name parse_managed_startup_phase; stored_text. Defined.

Section Laws.
Context `{StoredText A}.

Lemma stored_name_inj (a b : A) : stored_name a = stored_name b → a = b.
Proof.
  intros E. pose proof (parse_stored_name a) as Ha. rewrite E, parse_stored_name in Ha.
  by injection Ha.
Qed.

Lemma parse_stored_iff s (a : A) : parse_stored s = Ok a ↔ s = stored_name a.
Proof. split; [apply stored_name_parse|intros ->; apply parse_stored_name]. Qed.
End Laws.

(** The texts the store writes for its enumerations are read back, and nothing
    else is: each parser accepts exactly the names of its enumeration, one text for
    each value, so no value can be stored under the name of another. *)
Theorem stored_names_roundtrip s :
  (∀ a, parse_cleanup_stage s = Ok a ↔ s = cleanup_stage_name a) ∧
  (∀ a, parse_cleanup_signal s = Ok a ↔ s = cleanup_signal_name a) ∧
  (∀ a, parse_signal_disposition s = Ok a ↔ s = signal_disposition_name a) ∧
  (∀ a, parse_runtime_artifact_kind s = Ok a ↔ s = runtime_artifact_kind_name a) ∧
  (∀ a, parse_artifact_disposition s = Ok a ↔ s = artifact_disposition_name a) ∧
  (∀ a, parse_process_outcome s = Ok a ↔ s = process_outcome_name a) ∧
  (∀ a, parse_artifact_outcome s = Ok a ↔ s = artifact_outcome_name a) ∧
  (∀ a, parse_overall_outcome s = Ok a ↔ s = overall_outcome_name a) ∧
  (∀ a, parse_state s = Ok a ↔ s = state_name a) ∧
  (∀ a, parse_event_kind s = Ok a ↔ s = event_kind_name a) ∧
  (∀ a, parse_managed_startup_phase s = Ok a ↔ s = managed_startup_phase_name a).
Proof.
  split_and!; intros a;
    [apply (parse_stored_iff (H:=stored_stage))|apply (parse_stored_iff (H:=stored_signal))
    |apply (parse_stored_iff (H:=stored_disposition))
    |apply (parse_stored_iff (H:=stored_artifact_kind))
    |apply (parse_stored_iff (H:=stored_artifact_disposition))
    |apply (parse_stored_iff (H:=stored_process_outcome))
    |apply (parse_stored_iff (H:=stored_artifact_outcome))
    |apply (parse_stored_iff (H:=stored_overall_outcome))|apply (parse_stored_iff (H:=stored_state))
    |apply (parse_stored_iff (H:=stored_event_kind))|apply (parse_stored_iff (H:=stored_phase))].
Qed.
