(* ===== verification/Store.v ===== *)
(** Store: the database of [unlinger-daemon/src/store.rs].

    The tables are maps from primary keys to rows with the column types of
    [SCHEMA_SQL] (an INTEGER is a [Z] in the range of [i64], TEXT a [string], a
    nullable column an [option]); each row type has its CHECK constraints as a
    boolean. An operation takes a database and gives the committed database and
    its answer, or an error, after which the caller's database is unchanged: the
    transaction was rolled back. Its argument [io] is what opening the connection
    and SQLite's own work answer: [Some e] if they fail. *)

From S2P Require Import Prelude Text Model Artifact Evidence Cleanup Cooling Names.
From coqutil Require Datatypes.RecordSettersUsingExistingGetters.
Export RecordSettersUsingExistingGetters.RecordSetNotations1.
Export RecordSettersUsingExistingGetters(set, const).
#[global] Arguments const {E} newValue _ /.

(** ** JSON *)

(** [serde_json] on a type whose [Serialize] and [Deserialize] are derived; an
    error is its text. *)
Class Json (A : Type) : Type := {
  json_to_string : A → string;
  json_from_str : string → result A string;
}.

(** What the store relies on: a value it wrote is read back. *)
Class JsonRoundTrip (A : Type) `{Json A} : Prop :=
  json_round_trip : ∀ a, json_from_str (json_to_string a) = Ok a.

(** [serde_json::from_str(..)?]. *)
Definition from_json {A} `{Json A} (text : string) : result A StoreError :=
  map_err StoreJson (json_from_str text).

(** ** Tables *)

(** A table with an AUTOINCREMENT key: its rows and the largest key ever used. *)
Record table (V : Type) : Type := mkTable {
  rows : gmap Z V;
  last_rowid : Z;
}.
Arguments mkTable {V}.
Arguments rows {V} _.
Arguments last_rowid {V} _.

Definition empty_table {V} : table V := mkTable ∅ 0.

(** The rows in the order of their keys. *)
Definition table_entries {V} (t : table V) : list (Z * V) := btree_entries Z.le (rows t).

(** INSERT with the next key. *)
Definition table_insert {V} (name : string) (check : V → bool) (v : V) (t : table V) :
    result (table V * Z) StoreError :=
  guard? bool_decide (last_rowid t < 2 ^ 63 - 1)%Z
    else StoreSqlite "database or disk is full" in
  guard? check v else StoreSqlite ("CHECK constraint failed: " +:+ name) in
  let id := (last_rowid t + 1)%Z in
  Ok (mkTable (<[id := v]> (rows t)) id, id).

(** UPDATE of the rows that satisfy a condition. *)
Definition table_update {V} (name : string) (check : V → bool) (P : Z → V → bool) (f : V → V)
    (t : table V) : result (table V) StoreError :=
  let updated := map_imap (λ id v, Some (if P id v then f v else v)) (rows t) in
  guard? forallb (λ entry, if P entry.1 entry.2 then check (f entry.2) else true)
           (map_to_list (rows t))
    else StoreSqlite ("CHECK constraint failed: " +:+ name) in
  Ok (mkTable updated (last_rowid t)).

(** DELETE of the rows that satisfy a condition. *)
Definition table_delete {V} (P : Z → V → bool) (t : table V) : table V :=
  mkTable (filter (λ entry, P entry.1 entry.2 = false) (rows t)) (last_rowid t).

(** Some row satisfies a condition: [SELECT 1 .. LIMIT 1]. *)
Definition table_exists {V} (P : Z → V → bool) (t : table V) : bool :=
  existsb (λ entry, P entry.1 entry.2) (table_entries t).

(** [SELECT COUNT( * )]. *)
Definition table_count {V} (P : Z → V → bool) (t : table V) : Z :=
  Z.of_nat (length (List.filter (λ entry, P entry.1 entry.2) (table_entries t))).

(** ** Rows *)

(** [x >= y] on a nullable column: NULL passes a CHECK. *)
Definition null_or (p : Z → bool) (o : option Z) : bool :=
  match o with Some z => p z | None => true end.

(** Two nullable columns are NULL together. *)
Definition null_together {A B} (a : option A) (b : option B) : bool :=
  match a, b with None, None | Some _, Some _ => true | _, _ => false end.

(** A nullable TEXT column with a CHECK on its values. *)
Definition null_or_in (names : list string) (o : option string) : bool :=
  match o with Some s => bool_decide (s ∈ names) | None => true end.

(** [cleanup_attempts]. *)
Record attempt_row : Type := mkAttemptRow {
  attempt_incident_id : string;
  attempt_tracking_key : string;
  attempt_root_identity : string;
  attempt_members : string;
  attempt_epoch : string;
  started_at_ms : Z;
  attempt_completed_at_ms : option Z;
  attempt_terminal_state : option string;
  attempt_reason_id : option string;
  survivor_pids_json : option string;
  attempt_revival_checks : Z;
  resources_json : option string;
  attempt_pack : option string;
  attempt_version : option string;
  observed_process_count : option Z;
  observed_resident_memory_bytes : option Z;
}.

(** The states in which an attempt can be terminal. *)
Definition terminal_state_names : list string := ["CLEARED"; "FAILED"; "REVIVED"].

Definition attempt_check (r : attempt_row) : bool :=
  bool_decide (0 ≤ started_at_ms r)%Z
  && null_or (λ z, bool_decide (started_at_ms r ≤ z)%Z) (attempt_completed_at_ms r)
  && null_or_in terminal_state_names (attempt_terminal_state r)
  && bool_decide (0 ≤ attempt_revival_checks r)%Z
  && null_or (λ z, bool_decide (0 ≤ z)%Z) (observed_process_count r)
  && null_or (λ z, bool_decide (0 ≤ z)%Z) (observed_resident_memory_bytes r)
  && null_together (attempt_completed_at_ms r) (attempt_terminal_state r).

(** [cleanup_attempts_one_open] indexes these rows. *)
Definition attempt_open (r : attempt_row) : bool := bool_decide (attempt_completed_at_ms r = None).

(** The columns [cleanup_actions] and [cleanup_artifact_actions] share, and what
    the action is about. *)
Record journal_row (S : Type) : Type := mkJournalRow {
  row_attempt : Z;
  row_sequence : Z;
  row_prepared_at_ms : Z;
  row_completed_at_ms : option Z;
  row_subject : S;
  row_disposition : option string;
}.
Arguments mkJournalRow {S}.
Arguments row_attempt {S} _.
Arguments row_sequence {S} _.
Arguments row_prepared_at_ms {S} _.
Arguments row_completed_at_ms {S} _.
Arguments row_subject {S} _.
Arguments row_disposition {S} _.

(** The subject of a row of [cleanup_actions]. *)
Record action_subject : Type := mkActionSubject {
  subject_stage : string;
  subject_pid : Z;
  subject_identity : string;
  subject_signal : string;
}.

(** The subject of a row of [cleanup_artifact_actions]. *)
Record artifact_subject : Type := mkArtifactSubject {
  subject_kind : string;
  subject_artifact : string;
}.

Definition action_subject_check (s : action_subject) : bool :=
  bool_decide (subject_stage s ∈ ["primary_term"; "member_term"; "exact_kill"])
  && bool_decide (0 < subject_pid s)%Z
  && bool_decide (subject_signal s ∈ ["term"; "kill"]).

Definition artifact_subject_check (s : artifact_subject) : bool :=
  bool_decide (subject_kind s ∈ ["dev_tools_active_port"]).

Definition signal_disposition_names : list string :=
  ["delivered"; "already_exited"; "identity_mismatch"; "rejected";
   "cancelled_before_delivery"; "delivery_unknown"].

Definition artifact_disposition_names : list string :=
  ["removed"; "already_absent"; "identity_mismatch"; "referenced"; "unsafe"; "rejected";
   "cancelled_before_delivery"; "delivery_unknown"].

(** The CHECK constraints of both action tables. *)
Definition journal_check {S} (subject_check : S → bool) (dispositions : list string)
    (r : journal_row S) : bool :=
  bool_decide (0 ≤ row_sequence r)%Z
  && bool_decide (0 ≤ row_prepared_at_ms r)%Z
  && null_or (λ z, bool_decide (row_prepared_at_ms r ≤ z)%Z) (row_completed_at_ms r)
  && subject_check (row_subject r)
  && null_or_in dispositions (row_disposition r)
  && null_together (row_completed_at_ms r) (row_disposition r).

Definition action_check : journal_row action_subject → bool :=
  journal_check action_subject_check signal_disposition_names.

Definition artifact_check : journal_row artifact_subject → bool :=
  journal_check artifact_subject_check artifact_disposition_names.

(** [cleanup_retry_blocks]. *)
Record block_row : Type := mkBlockRow {
  block_tracking_key : string;
  blocked_at_ms : Z;
  block_reason_id : option string;
  block_source_attempt : Z;
  block_last_exact_observed_at_ms : option Z;
  block_absence_since_ms : option Z;
}.

Definition block_check (r : block_row) : bool :=
  bool_decide (0 ≤ blocked_at_ms r)%Z
  && null_or (λ z, bool_decide (blocked_at_ms r ≤ z)%Z) (block_last_exact_observed_at_ms r)
  && null_or (λ z, bool_decide (blocked_at_ms r ≤ z)%Z) (block_absence_since_ms r).

(** [events]. *)
Record event_row : Type := mkEventRow {
  event_incident_id : string;
  event_first_occurred_at_ms : Z;
  event_occurred_at_ms : Z;
  event_observation_count : Z;
  event_kind : string;
  event_state : string;
  event_payload_json : string;
  event_attempt : option Z;
}.

Definition event_check (r : event_row) : bool :=
  bool_decide (0 ≤ event_first_occurred_at_ms r)%Z
  && bool_decide (0 ≤ event_occurred_at_ms r)%Z
  && bool_decide (1 ≤ event_observation_count r)%Z
  && bool_decide (event_kind r ∈ ["observation"; "cleanup"])
  && bool_decide (event_first_occurred_at_ms r ≤ event_occurred_at_ms r)%Z
  && (bool_decide (event_kind r = "observation")
      || bool_decide (event_first_occurred_at_ms r = event_occurred_at_ms r)
         && bool_decide (event_observation_count r = 1)%Z).

(** [cleanup_impacts]. *)
Record impact_row : Type := mkImpactRow {
  impact_attempt : Z;
  impact_event : Z;
  impact_incident_id : string;
  impact_family : string;
  impact_family_version : string;
  impact_occurred_at_ms : Z;
  impact_state : string;
  impact_process_outcome : string;
  impact_artifact_outcome : string;
  impact_overall_outcome : string;
  impact_process_count : option Z;
  impact_estimated_memory : option Z;
  impact_revival_checks : Z;
}.

Definition impact_check (r : impact_row) : bool :=
  bool_decide (0 ≤ impact_occurred_at_ms r)%Z
  && bool_decide (impact_state r ∈ terminal_state_names)
  && bool_decide (impact_process_outcome r ∈
                    ["cleared"; "revived"; "failed"; "delivery_unknown"])
  && bool_decide (impact_artifact_outcome r ∈
                    ["not_applicable"; "reconciled"; "residue"; "delivery_unknown"])
  && bool_decide (impact_overall_outcome r ∈
                    ["cleared"; "cleared_with_residue"; "revived"; "failed"])
  && null_or (λ z, bool_decide (0 ≤ z)%Z) (impact_process_count r)
  && null_or (λ z, bool_decide (0 ≤ z)%Z) (impact_estimated_memory r)
  && bool_decide (0 ≤ impact_revival_checks r)%Z.

(** The counters of the row of [impact_authority]. *)
Record impact_authority : Type := mkImpactAuthority {
  terminal_cleanup_count : Z;
  proved_reclaim_count : Z;
  reclaimed_process_count : Z;
  reclaimed_process_measurement_count : Z;
  reclaimed_memory_bytes : Z;
  reclaimed_memory_measurement_count : Z;
}.

Definition impact_authority_start : impact_authority := mkImpactAuthority 0 0 0 0 0 0.

(** [incident_protections]. *)
Record protection_row : Type := mkProtectionRow {
  protection_root_identity : string;
  protection_members : string;
  protected_at_ms : Z;
  protection_last_exact_observed_at_ms : option Z;
  protection_absence_since_ms : option Z;
}.

Definition protection_check (r : protection_row) : bool :=
  bool_decide (0 ≤ protected_at_ms r)%Z
  && null_or (λ z, bool_decide (protected_at_ms r ≤ z)%Z) (protection_last_exact_observed_at_ms r)
  && null_or (λ z, bool_decide (protected_at_ms r ≤ z)%Z) (protection_absence_since_ms r).

(** The row of [managed_lifecycle]; booleans are 0 and 1. *)
Record lifecycle_row : Type := mkLifecycleRow {
  lc_generation : Z;
  lc_instance_id : string;
  lc_requested_enforce : Z;
  lc_effective_enforce : Z;
  lc_armed_generation : option Z;
  lc_enforcement_epoch : option string;
  lc_ready : Z;
  lc_draining : Z;
  lc_startup_phase : string;
  lc_updated_at_ms : Z;
}.

Definition lifecycle_check (r : lifecycle_row) : bool :=
  bool_decide (0 < lc_generation r)%Z
  && bool_decide (lc_requested_enforce r ∈ [0; 1]%Z)
  && bool_decide (lc_effective_enforce r ∈ [0; 1]%Z)
  && null_or (λ z, bool_decide (0 < z)%Z) (lc_armed_generation r)
  && bool_decide (lc_ready r ∈ [0; 1]%Z)
  && bool_decide (lc_draining r ∈ [0; 1]%Z)
  && bool_decide (lc_startup_phase r ∈
       ["recovering"; "first_scan_report_only"; "ready_report_only"; "ready_enforce";
        "draining"; "failed"])
  && bool_decide (0 ≤ lc_updated_at_ms r)%Z
  && (bool_decide (lc_effective_enforce r = 0)%Z
      && bool_decide (lc_armed_generation r = None)
      && bool_decide (lc_enforcement_epoch r = None)
      || bool_decide (lc_effective_enforce r = 1)%Z
         && bool_decide (lc_requested_enforce r = 1)%Z
         && bool_decide (lc_armed_generation r = Some (lc_generation r))
         && bool_decide (lc_enforcement_epoch r ≠ None)
         && bool_decide (lc_ready r = 1)%Z
         && bool_decide (lc_draining r = 0)%Z).

(** [ordinary_mutation_receipts]. *)
Record receipt_row : Type := mkReceiptRow {
  rr_canonical_version : Z;
  rr_command_json : string;
  rr_receipt_json : string;
  rr_committed_at_ms : Z;
  rr_retain_until_ms : Z;
}.

Definition receipt_check (r : receipt_row) : bool :=
  bool_decide (rr_canonical_version r = 1)%Z
  && bool_decide (0 ≤ rr_committed_at_ms r)%Z
  && bool_decide (rr_committed_at_ms r ≤ rr_retain_until_ms r)%Z.

(** The tables the model covers. [settings] holds the key [pause_until_ms] only;
    [tokens] is [public_event_tokens]. *)
Record database : Type := mkDatabase {
  attempts : table attempt_row;
  action_rows : table (journal_row action_subject);
  artifact_rows : table (journal_row artifact_subject);
  retry_blocks : gmap string block_row;
  events : table event_row;
  tokens : gmap Z string;
  impacts : table impact_row;
  authority : impact_authority;
  cooling : cooling_table;
  settings : gmap string (option Z);
  protections : gmap string protection_row;
  lifecycle : option lifecycle_row;
  mutation_namespace : string;
  policy_revision : Z;
  mutation_receipts : gmap (string * string) receipt_row;
}.

(** A database as [SCHEMA_SQL] creates it, with its random namespace. *)
Definition new_database (namespace : string) : database :=
  mkDatabase empty_table empty_table empty_table ∅ empty_table ∅ empty_table
    impact_authority_start ∅ ∅ ∅ None namespace 1 ∅.

(** [self.connection()?] and SQLite's work on a transaction. *)
Definition with_connection {A} (io : option StoreError) (k : result A StoreError) :
    result A StoreError :=
  match io with Some e => Err e | None => k end.

(** [sqlite_u64], [sqlite_usize]: as [sqlite_millis]. *)
Definition sqlite_u64 : N → string → result Z StoreError := sqlite_millis.

(** [i64::try_from(..).map_err(|_| Range(message))]. *)
Definition i64_or_range (value : N) (message : string) : result Z StoreError :=
  if bool_decide (Z.of_N value < 2 ^ 63)%Z then Ok (Z.of_N value) else Err (StoreRange message).

(** [u64::try_from(..).map_err(|_| Corrupt(message))]. *)
Definition u64_or_corrupt (value : Z) (message : string) : result N StoreError :=
  ok_or (u64_try_from value) (StoreCorrupt message).

(** [parse_nonnegative_millis]. *)
Definition parse_nonnegative_millis (value : Z) (label : string) : result N StoreError :=
  u64_or_corrupt value (label +:+ " is negative").

(** [option.map(f).transpose()]. *)
Definition option_transpose {A B E} (f : A → result B E) (o : option A) : result (option B) E :=
  match o with
  | None => Ok None
  | Some a => let? b := f a in Ok (Some b)
  end.

(** [iter.map(f).collect::<Result<Vec<_>, _>>()]. *)
Fixpoint collect_results {A B E} (f : A → result B E) (l : list A) : result (list B) E :=
  match l with
  | [] => Ok []
  | a :: l => let? b := f a in let? bs := collect_results f l in Ok (b :: bs)
  end.

(** ** Lemmas on tables *)

(** Every key was drawn from the sequence. *)
Definition table_wf {V} (t : table V) : Prop :=
  ∀ k v, rows t !! k = Some v → (0 < k ≤ last_rowid t)%Z.

Definition key_lt {V} : relation (Z * V) := λ a b, (a.1 < b.1)%Z.

#[export] Instance key_le_transitive {V} : Transitive (key_le (V:=V) Z.le).
Proof. intros [a ?] [b ?] [c ?]; unfold key_le; simpl; lia. Qed.

#[export] Instance key_le_total {V} : Total (key_le (V:=V) Z.le).
Proof. intros [a ?] [b ?]; unfold key_le; simpl; lia. Qed.

Lemma empty_table_wf {V} : table_wf (@empty_table V).
Proof. intros k v. simpl. by rewrite lookup_empty. Qed.

Lemma table_entries_elem {V} (t : table V) k v :
  (k, v) ∈ table_entries t ↔ rows t !! k = Some v.
Proof. apply elem_of_btree_entries. Qed.

Lemma table_entries_sorted {V} (t : table V) : StronglySorted key_lt (table_entries t).
Proof.
  assert (NoDup (table_entries t).*1) as Hnd.
  { unfold table_entries, btree_entries. rewrite merge_sort_Permutation.
    apply NoDup_fst_map_to_list. }
  assert (StronglySorted (key_le Z.le) (table_entries t)) as Hs.
  { apply (StronglySorted_merge_sort (key_le Z.le)). }
  induction Hs as [|e l Hs IH Hall]; [constructor|].
  apply NoDup_cons in Hnd as [Hnin Hnd]. constructor; [auto|].
  apply Forall_forall. intros e' He'. rewrite Forall_forall in Hall.
  specialize (Hall e' He'). unfold key_le, key_lt in *.
  assert (e.1 ≠ e'.1); [|lia].
  intros Heq. apply Hnin. rewrite Heq. by apply list_elem_of_fmap_2.
Qed.

(** A sorted list of the rows is the list of the entries. *)
Lemma table_entries_unique {V} (t : table V) l :
  StronglySorted key_lt l → (∀ k v, (k, v) ∈ l ↔ rows t !! k = Some v) → l = table_entries t.
Proof.
  intros Hl Hin.
  assert (∀ l : list (Z * V), StronglySorted key_lt l → NoDup l) as Hnd.
  { clear. induction 1 as [|e l Hs IH Hall]; constructor; [|done].
    intros He. rewrite Forall_forall in Hall. specialize (Hall e He).
    unfold key_lt in Hall. lia. }
  apply (StronglySorted_unique_strong key_lt); [|done|apply table_entries_sorted|].
  - unfold key_lt. intros; lia.
  - apply NoDup_Permutation; [by apply Hnd|apply Hnd, table_entries_sorted|].
    intros [k v]. by rewrite Hin, table_entries_elem.
Qed.

Lemma table_insert_Ok {V} name check (v : V) t t' id :
  table_insert name check v t = Ok (t', id) →
  check v = true ∧ id = (last_rowid t + 1)%Z ∧ t' = mkTable (<[id := v]> (rows t)) id ∧
  (id < 2 ^ 63)%Z.
Proof.
  unfold table_insert. case_bool_decide as Hlt; [|done].
  destruct (check v); [|done]. intros [= <- <-]. split_and!; [done..|lia].
Qed.

Lemma table_insert_entries {V} name check (v : V) t t' id :
  table_wf t → table_insert name check v t = Ok (t', id) →
  table_entries t' = table_entries t ++ [(id, v)].
Proof.
  intros Hwf (_ & Hid & -> & _)%table_insert_Ok. symmetry. apply table_entries_unique.
  - apply StronglySorted_app_2; [|apply table_entries_sorted|by repeat constructor].
    intros [k w] e Hk ->%list_elem_of_singleton.
    apply table_entries_elem, Hwf in Hk. unfold key_lt. simpl. lia.
  - intros k w. rewrite elem_of_app, list_elem_of_singleton, table_entries_elem. simpl.
    rewrite lookup_insert_Some. split.
    + intros [Hk|[= -> ->]]; [right|by left]. split; [|done].
      apply Hwf in Hk. lia.
    + intros [[-> ->]|[_ Hk]]; auto.
Qed.

Lemma table_insert_wf {V} name check (v : V) t t' id :
  table_wf t → (0 ≤ last_rowid t)%Z → table_insert name check v t = Ok (t', id) →
  table_wf t' ∧ (0 ≤ last_rowid t')%Z ∧ rows t !! id = None.
Proof.
  intros Hwf H0 (_ & Hid & -> & _)%table_insert_Ok. split_and!; simpl; [|lia|].
  - intros k w. simpl. intros [[<- <-]|[_ Hk]]%lookup_insert_Some; [lia|]. apply Hwf in Hk. lia.
  - destruct (rows t !! id) eqn:Hk; [|done]. apply Hwf in Hk. lia.
Qed.

(** UPDATE keeps the keys and changes the matching rows. *)
Lemma table_update_Ok {V} name check P (f : V → V) t t' :
  table_update name check P f t = Ok t' ↔
  (∀ k v, rows t !! k = Some v → P k v = true → check (f v) = true) ∧
  t' = mkTable (map_imap (λ id v, Some (if P id v then f v else v)) (rows t)) (last_rowid t).
Proof.
  unfold table_update.
  destruct (forallb _ _) eqn:Hall.
  - rewrite forallb_forall in Hall. split.
    + intros [= <-]. split; [|done]. intros k v Hk HP.
      specialize (Hall (k, v)). simpl in Hall. rewrite HP in Hall. apply Hall.
      by apply list_elem_of_In, elem_of_map_to_list.
    + by intros [_ ->].
  - split; [done|]. intros [Hchk _]. exfalso. apply not_true_iff_false in Hall.
    apply Hall, forallb_forall. intros [k v] Hk%list_elem_of_In%elem_of_map_to_list. simpl.
    destruct (P k v) eqn:HP; eauto.
Qed.

Lemma table_update_lookup {V} name check P (f : V → V) t t' k :
  table_update name check P f t = Ok t' →
  rows t' !! k = (λ v, if P k v then f v else v) <$> rows t !! k.
Proof.
  intros [_ ->]%table_update_Ok. simpl. rewrite map_lookup_imap. by destruct (rows t !! k).
Qed.

Lemma table_update_wf {V} name check P (f : V → V) t t' :
  table_wf t → table_update name check P f t = Ok t' → table_wf t' ∧ last_rowid t' = last_rowid t.
Proof.
  intros Hwf Hu. pose proof (λ k, table_update_lookup _ _ _ _ _ _ k Hu) as Hl.
  apply table_update_Ok in Hu as [_ Ht]. assert (last_rowid t' = last_rowid t) as Hlast by by subst t'.
  split; [|done]. intros k v Hk. rewrite Hlast. rewrite Hl in Hk.
  destruct (rows t !! k) eqn:E; [by eapply Hwf|done].
Qed.

Lemma table_update_entries {V} name check P (f : V → V) t t' :
  table_update name check P f t = Ok t' →
  table_entries t' = (λ e, (e.1, if P e.1 e.2 then f e.2 else e.2)) <$> table_entries t.
Proof.
  intros Hu. symmetry. apply table_entries_unique.
  - pose proof (table_entries_sorted t) as Hs.
    induction Hs as [|e l Hs IH Hall]; simpl; [constructor|]. constructor; [done|].
    apply Forall_fmap. eapply Forall_impl; [exact Hall|]. done.
  - intros k v. rewrite (table_update_lookup _ _ _ _ _ _ _ Hu), list_elem_of_fmap. split.
    + intros ([k' v'] & [= -> ->] & Hin%table_entries_elem). simpl in *. by rewrite Hin.
    + destruct (rows t !! k) as [w|] eqn:Hk; [|done]. intros [= <-].
      exists (k, w). split; [done|]. by apply table_entries_elem.
Qed.

Lemma table_delete_lookup {V} P (t : table V) k v :
  rows (table_delete P t) !! k = Some v ↔ rows t !! k = Some v ∧ P k v = false.
Proof. unfold table_delete. simpl. by rewrite map_lookup_filter_Some. Qed.

Lemma table_delete_wf {V} P (t : table V) : table_wf t → table_wf (table_delete P t).
Proof. intros Hwf k v [Hk _]%table_delete_lookup. by apply Hwf in Hk. Qed.

Lemma table_exists_iff {V} P (t : table V) :
  table_exists P t = true ↔ ∃ k v, rows t !! k = Some v ∧ P k v = true.
Proof.
  unfold table_exists. rewrite existsb_elem. split.
  - intros ([k v] & Hin%table_entries_elem & HP). eauto.
  - intros (k & v & Hk & HP). exists (k, v). by rewrite table_entries_elem.
Qed.

Lemma table_exists_false {V} P (t : table V) :
  table_exists P t = false ↔ ∀ k v, rows t !! k = Some v → P k v = false.
Proof.
  rewrite <-not_true_iff_false, table_exists_iff. split.
  - intros Hn k v Hk. destruct (P k v) eqn:HP; [|done]. exfalso. eauto.
  - intros Hall (k & v & Hk & HP). rewrite (Hall k v Hk) in HP. done.
Qed.

Lemma table_count_pos {V} P (t : table V) : (0 < table_count P t)%Z ↔ table_exists P t = true.
Proof.
  unfold table_count, table_exists. rewrite existsb_elem. split.
  - intros Hlen. destruct (List.filter _ _) as [|e l] eqn:Hf; [simpl in Hlen; lia|].
    exists e. assert (In e (e :: l)) as Hin by (by left). rewrite <-Hf in Hin.
    apply filter_In in Hin as [Hin HP].
    split; [by apply list_elem_of_In|done].
  - intros (e & Hin & HP). destruct (List.filter _ _) as [|e' l] eqn:Hf; [|simpl; lia].
    assert (In e []) as []. rewrite <-Hf. apply filter_In.
    split; [by apply list_elem_of_In|done].
Qed.

Lemma table_count_zero {V} P (t : table V) : (table_count P t ≤ 0)%Z ↔ table_exists P t = false.
Proof. rewrite <-not_true_iff_false, <-table_count_pos. lia. Qed.
