(* ===== verification/Journal.v ===== *)
(** Journal: cleanup attempts and their durable journal, from
    [unlinger-daemon/src/store.rs].

    An attempt is opened, its actions are prepared before and completed after the
    side effect, and it is completed with a terminal receipt, or recovered after a
    crash. [JournalFacts.v] proves what the tables then say. *)

From S2P Require Import Prelude Text Model Artifact Evidence Cleanup Executor Analyzer Cooling.
From S2P Require Import Names Store.
From Stdlib Require Import Ascii.

(** ** Data *)

Record ObservationRecord : Type := mkObservationRecord {
  obs_incident_id : string;
  obs_signature_pack : string;
  obs_signature_version : string;
  obs_state : IncidentState;
  obs_root : RootSummary;
  obs_member_count : N;
  obs_resident_memory_bytes : N;
  obs_member_fingerprint : string;
  obs_roles : list ProcessRoleCount;
  obs_evidence : list EvidenceItem;
  obs_gates : GateLedger;
}.

(** [ObservationRecord::from]. *)
Definition observation_record (report : IncidentReport) : ObservationRecord :=
  mkObservationRecord (incident_id report) (signature_pack report) (signature_version report)
    (state report) (root report) (member_count report) (report_resident_memory_bytes report)
    (member_fingerprint report) (roles report) (evidence report) (gates report).

Inductive EventPayload : Type :=
| PayloadObservation (report : ObservationRecord)
| PayloadCleanup (receipt : CleanupReceipt).

Record CleanupAttemptHandle : Type := mkCleanupAttemptHandle {
  attempt_id : Z;
  attempt_incident : string;
}.

(** [PreparedActionHandle] and [PreparedArtifactActionHandle]. *)
Record PreparedActionHandle : Type := mkPreparedActionHandle {
  prepared_id : Z;
  prepared_attempt_id : Z;
  prepared_sequence : N;
}.

Definition MAX_RESOURCE_RECEIPT_BYTES : nat := 4 * 1024.

Definition MAX_REDACTED_IDENTIFIER_CHARS : nat := 192.

Definition redacted_byte (c : ascii) : bool :=
  is_ascii_alphanumeric c || bool_decide (c ∈ ["."; "_"; "-"]%char).

Definition valid_artifact_fingerprint (value : string) : bool :=
  starts_with "art-" value
  && bool_decide (String.length value ≤ MAX_REDACTED_IDENTIFIER_CHARS)
  && all_bytes redacted_byte value.

(** [project_identifier]. *)
Definition project_identifier (value fallback : string) : string :=
  if negb (is_empty value)
     && bool_decide (String.length value ≤ MAX_REDACTED_IDENTIFIER_CHARS)
     && all_bytes redacted_byte value
  then value else fallback.

(** The two action tables differ in what they are about and in the words of their
    errors; [journal_table] names the differences. *)

Record journal_table (S D : Type) : Type := mkJournalTable {
  jt_rows : database → table (journal_row S);
  jt_set : table (journal_row S) → database → database;
  jt_check : journal_row S → bool;
  jt_name : string;
  jt_what : string;
  jt_prepared_label : string;
  jt_disposition_label : string;
}.
Arguments mkJournalTable {S D}.
Arguments jt_rows {S D} _.
Arguments jt_set {S D} _.
Arguments jt_check {S D} _.
Arguments jt_name {S D} _.
Arguments jt_what {S D} _.
Arguments jt_prepared_label {S D} _.
Arguments jt_disposition_label {S D} _.

(** The random token of an event, [lower(hex(randomblob(16)))], by the event it is
    drawn for. *)
Abbreviation token_source := (Z → string).

Section Journal.
Context `{Json EventPayload, Json CleanupResources, Json (list N)}.
Context (random : token_source).

(** ** Events *)

(** [insert_public_event_token]. *)
Definition insert_public_event_token (event_id : Z) (db : database) : result database StoreError :=
  let token := random event_id in
  guard? bool_decide (String.length token = 32)
    else StoreSqlite "CHECK constraint failed: public_event_tokens" in
  guard? negb (existsb (λ entry, bool_decide (entry.2 = token)) (map_to_list (tokens db)))
    else StoreSqlite "UNIQUE constraint failed: public_event_tokens.event_token" in
  Ok (db <| tokens ::= <[event_id := token]> |>).

(** [insert_event_transaction]. *)
Definition insert_event_transaction (attempt : option Z) (occurred_at_unix_millis : N)
    (incident : string) (kind : EventKind) (st : IncidentState) (payload : EventPayload)
    (db : database) : result (database * Z) StoreError :=
  let? occurred_at := sqlite_millis occurred_at_unix_millis "event timestamp" in
  let row :=
    mkEventRow incident occurred_at occurred_at 1 (event_kind_name kind) (state_name st)
      (json_to_string payload) attempt in
  let? inserted := table_insert "events" event_check row (events db) in
  let '(events', event_id) := inserted in
  let? db := insert_public_event_token event_id (db <| events := events' |>) in
  Ok (db, event_id).

(** ** Attempts *)

(** [SELECT incident_id FROM cleanup_attempts WHERE completed_at_ms IS NULL LIMIT 1]. *)
Definition open_incident (db : database) : option string :=
  attempt_incident_id ∘ snd <$> head (List.filter (attempt_open ∘ snd) (table_entries (attempts db))).

(** The receipt [begin_cleanup_attempt] logs. *)
Definition started_receipt (incident : string) : CleanupReceipt :=
  mkCleanupReceipt incident Reclaiming None [] [] [] 0 default_resources.

(** [HistoryStore::begin_cleanup_attempt]. *)
Definition begin_cleanup_attempt (io : option StoreError) (occurred_at_unix_millis : N)
    (report : IncidentReport) (enforcement_epoch : string) (db : database) :
    result (database * CleanupAttemptHandle) StoreError :=
  guard? bool_decide (state report = Confirmed) && cleanup_eligible (gates report)
    else StoreInvalid "cleanup attempts require an eligible CONFIRMED incident" in
  guard? negb (is_empty (trim enforcement_epoch))
    else StoreInvalid "cleanup attempts require a non-empty enforcement epoch" in
  let? occurred_at := sqlite_millis occurred_at_unix_millis "cleanup attempt timestamp" in
  with_connection io (
  guard? bool_decide (retry_blocks db !! incident_id report = None)
    else StoreInvalid ("cleanup retry is blocked for incident " +:+ debug_str (incident_id report)) in
  match open_incident db with
  | Some incident =>
      Err (StoreInvalid ("cleanup attempt for incident " +:+ debug_str incident
                         +:+ " is already open"))
  | None =>
      let? process_count :=
        i64_or_range (member_count report) "cleanup process count overflowed i64" in
      let? memory :=
        sqlite_u64 (report_resident_memory_bytes report) "cleanup observed resident memory" in
      let row :=
        mkAttemptRow (incident_id report) (tracking_key report)
          (root_identity_fingerprint (root report)) (member_fingerprint report)
          enforcement_epoch occurred_at None None None None 0 None
          (Some (signature_pack report)) (Some (signature_version report))
          (Some process_count) (Some memory) in
      let? inserted := table_insert "cleanup_attempts" attempt_check row (attempts db) in
      let '(attempts', id) := inserted in
      let? logged :=
        insert_event_transaction (Some id) occurred_at_unix_millis (incident_id report)
          KindCleanup Reclaiming (PayloadCleanup (started_receipt (incident_id report)))
          (db <| attempts := attempts' |>) in
      Ok (logged.1, mkCleanupAttemptHandle id (incident_id report))
  end).

(** The attempt a handle names, if it is the handle's and satisfies [P]. *)
Definition handle_attempt (db : database) (attempt : CleanupAttemptHandle) :
    result attempt_row StoreError :=
  let? row :=
    ok_or (rows (attempts db) !! attempt_id attempt)
      (StoreInvalid "cleanup attempt does not exist") in
  guard? bool_decide (attempt_incident_id row = attempt_incident attempt)
    else StoreInvalid "cleanup attempt handle incident does not match storage" in
  Ok row.

(** ** Actions *)

Definition process_journal : journal_table action_subject SignalDisposition :=
  mkJournalTable action_rows (λ t db, db <| action_rows := t |>) action_check
    "cleanup_actions" "cleanup action" "action preparation timestamp"
    "action disposition timestamp".

Definition artifact_journal : journal_table artifact_subject ArtifactDisposition :=
  mkJournalTable artifact_rows (λ t db, db <| artifact_rows := t |>) artifact_check
    "cleanup_artifact_actions" "cleanup artifact action" "artifact action preparation timestamp"
    "artifact action disposition timestamp".

(** The part [prepare_cleanup_action] and [prepare_cleanup_artifact_action] share:
    the open attempt of the handle gets a row without a disposition. *)
Definition prepare_row {S D} (jt : journal_table S D) (io : option StoreError)
    (attempt : CleanupAttemptHandle) (sequence : N) (occurred_at_unix_millis : N) (subject : S)
    (db : database) : result (database * PreparedActionHandle) StoreError :=
  let? sequence_i64 := i64_or_range sequence (jt_what jt +:+ " sequence overflowed i64") in
  let? occurred_at := sqlite_millis occurred_at_unix_millis (jt_prepared_label jt) in
  with_connection io (
  let? stored := handle_attempt db attempt in
  guard? attempt_open stored else StoreInvalid "cleanup attempt is already terminal" in
  let row := mkJournalRow (attempt_id attempt) sequence_i64 occurred_at None subject None in
  guard? negb (table_exists (λ _ r, bool_decide (row_attempt r = attempt_id attempt)
                                     && bool_decide (row_sequence r = sequence_i64)) (jt_rows jt db))
    else StoreSqlite ("UNIQUE constraint failed: " +:+ jt_name jt) in
  let? inserted := table_insert (jt_name jt) (jt_check jt) row (jt_rows jt db) in
  let '(t, id) := inserted in
  Ok (jt_set jt t db, mkPreparedActionHandle id (attempt_id attempt) sequence)).

(** The part [complete_cleanup_action] and [complete_cleanup_artifact_action]
    share: the row of the handle gets its disposition, once. *)
Definition complete_row {S D} `{EqDecision D, StoredText D} (jt : journal_table S D)
    (io : option StoreError) (prepared : PreparedActionHandle) (occurred_at_unix_millis : N)
    (disposition : D) (db : database) : result database StoreError :=
  let? occurred_at := sqlite_millis occurred_at_unix_millis (jt_disposition_label jt) in
  let? sequence :=
    i64_or_range (prepared_sequence prepared) (jt_what jt +:+ " sequence overflowed i64") in
  with_connection io (
  let? stored :=
    ok_or (rows (jt_rows jt db) !! prepared_id prepared)
      (StoreInvalid ("prepared " +:+ jt_what jt +:+ " does not exist")) in
  guard? bool_decide (row_attempt stored = prepared_attempt_id prepared)
         && bool_decide (row_sequence stored = sequence)
    else StoreInvalid ("prepared " +:+ jt_what jt +:+ " handle does not match storage") in
  match row_disposition stored with
  | Some existing =>
      let? existing := parse_stored (A:=D) existing in
      guard? bool_decide (existing = disposition)
        else StoreInvalid (jt_what jt +:+ " has conflicting disposition: stored "
               +:+ stored_name existing +:+ ", requested " +:+ stored_name disposition) in
      Ok db
  | None =>
      let? t :=
        table_update (jt_name jt) (jt_check jt)
          (λ id r, bool_decide (id = prepared_id prepared)
                   && bool_decide (row_disposition r = None))
          (λ r, mkJournalRow (row_attempt r) (row_sequence r) (row_prepared_at_ms r)
                  (Some occurred_at) (row_subject r) (Some (stored_name disposition)))
          (jt_rows jt db) in
      Ok (jt_set jt t db)
  end).

(** [HistoryStore::prepare_cleanup_action]. *)
Definition prepare_cleanup_action (io : option StoreError) (attempt : CleanupAttemptHandle)
    (sequence occurred_at_unix_millis : N) (intent : CleanupActionIntent) (db : database) :
    result (database * PreparedActionHandle) StoreError :=
  guard? negb (is_empty (trim (intent_identity_fingerprint intent)))
    else StoreInvalid "cleanup action requires a redacted identity fingerprint" in
  prepare_row process_journal io attempt sequence occurred_at_unix_millis
    (mkActionSubject (cleanup_stage_name (intent_stage intent)) (Z.of_N (intent_pid intent))
       (intent_identity_fingerprint intent) (cleanup_signal_name (intent_signal intent))) db.

(** [HistoryStore::complete_cleanup_action]. *)
Definition complete_cleanup_action : option StoreError → PreparedActionHandle → N →
    SignalDisposition → database → result database StoreError :=
  complete_row process_journal.

(** [HistoryStore::prepare_cleanup_artifact_action]. *)
Definition prepare_cleanup_artifact_action (io : option StoreError)
    (attempt : CleanupAttemptHandle) (sequence occurred_at_unix_millis : N)
    (intent : ArtifactActionIntent) (db : database) :
    result (database * PreparedActionHandle) StoreError :=
  guard? valid_artifact_fingerprint (intent_artifact_fingerprint intent)
    else StoreInvalid "artifact action requires a bounded redacted artifact fingerprint" in
  prepare_row artifact_journal io attempt sequence occurred_at_unix_millis
    (mkArtifactSubject (runtime_artifact_kind_name (intent_kind intent))
       (intent_artifact_fingerprint intent)) db.

(** [HistoryStore::complete_cleanup_artifact_action]. *)
Definition complete_cleanup_artifact_action : option StoreError → PreparedActionHandle → N →
    ArtifactDisposition → database → result database StoreError :=
  complete_row artifact_journal.

Definition sequence_le {S} : relation (journal_row S) := λ a b, (row_sequence a ≤ row_sequence b)%Z.

#[export] Instance sequence_le_dec {S} : RelDecision (sequence_le (S:=S)) :=
  λ a b, decide (row_sequence a ≤ row_sequence b)%Z.

(** The rows of an attempt, in the order of their sequence. *)
Definition rows_for_attempt {S} (attempt : Z) (t : table (journal_row S)) : list (journal_row S) :=
  merge_sort sequence_le
    (List.filter (λ r, bool_decide (row_attempt r = attempt)) (table_entries t).*2).

(** One row of [actions_for_attempt]. *)
Definition stored_action (r : journal_row action_subject) : result CleanupAction StoreError :=
  let? disposition :=
    ok_or (row_disposition r)
      (StoreCorrupt ("cleanup attempt " +:+ pretty (row_attempt r)
                     +:+ " still contains a PREPARED action")) in
  let? stage := parse_cleanup_stage (subject_stage (row_subject r)) in
  let? pid :=
    (if bool_decide (0 ≤ subject_pid (row_subject r) < 2 ^ 32)%Z
     then Ok (Z.to_N (subject_pid (row_subject r)))
     else Err (StoreCorrupt "cleanup action PID is invalid")) in
  let? signal := parse_cleanup_signal (subject_signal (row_subject r)) in
  let? disposition := parse_signal_disposition disposition in
  Ok (mkCleanupAction stage pid (subject_identity (row_subject r)) signal disposition).

Definition actions_for_attempt (db : database) (attempt : Z) :
    result (list CleanupAction) StoreError :=
  collect_results stored_action (rows_for_attempt attempt (action_rows db)).

(** One row of [artifact_actions_for_attempt]. *)
Definition stored_artifact_action (r : journal_row artifact_subject) :
    result ArtifactAction StoreError :=
  let? disposition :=
    ok_or (row_disposition r)
      (StoreCorrupt ("cleanup attempt " +:+ pretty (row_attempt r)
                     +:+ " still contains a PREPARED artifact action")) in
  guard? valid_artifact_fingerprint (subject_artifact (row_subject r))
    else StoreCorrupt ("cleanup attempt " +:+ pretty (row_attempt r)
                       +:+ " contains an invalid artifact fingerprint") in
  let? kind := parse_runtime_artifact_kind (subject_kind (row_subject r)) in
  let? disposition := parse_artifact_disposition disposition in
  Ok (mkArtifactAction kind (subject_artifact (row_subject r)) disposition).

Definition artifact_actions_for_attempt (db : database) (attempt : Z) :
    result (list ArtifactAction) StoreError :=
  collect_results stored_artifact_action (rows_for_attempt attempt (artifact_rows db)).

(** ** Completion *)

(** [terminal_receipt_for_attempt]: the last terminal event of the attempt, with the
    actions of the journal and the resources of the attempt. *)
Definition terminal_receipt_for_attempt (db : database) (attempt : Z) :
    result CleanupReceipt StoreError :=
  let missing :=
    StoreCorrupt ("terminal cleanup attempt " +:+ pretty attempt +:+ " has no terminal event") in
  let? event :=
    ok_or (last (List.filter
                   (λ e, bool_decide (event_attempt e = Some attempt)
                         && bool_decide (event_state e ∈ terminal_state_names))
                   (table_entries (events db)).*2)) missing in
  let? row := ok_or (rows (attempts db) !! attempt) missing in
  let? payload := from_json (event_payload_json event) in
  match payload with
  | PayloadCleanup receipt =>
      let? actions := actions_for_attempt db attempt in
      let? artifact_actions := artifact_actions_for_attempt db attempt in
      let? stored :=
        match resources_json row with
        | Some text =>
            guard? bool_decide (String.length text ≤ MAX_RESOURCE_RECEIPT_BYTES)
              else StoreCorrupt "persisted cleanup resource receipt exceeds its bound" in
            from_json text
        | None => Ok (resources receipt)
        end in
      Ok (mkCleanupReceipt (receipt_incident_id receipt) (receipt_state receipt)
            (reason_id receipt) actions artifact_actions (survivor_pids receipt)
            (revival_checks_completed receipt) stored)
  | PayloadObservation _ =>
      Err (StoreCorrupt ("terminal cleanup attempt " +:+ pretty attempt
                         +:+ " points to an observation"))
  end.

(** [insert_retry_block]. *)
Definition insert_retry_block (incident tracking_key : string) (blocked_at : Z)
    (reason : option string) (source_attempt : Z) (db : database) : database :=
  db <| retry_blocks ::=
    <[incident := mkBlockRow tracking_key blocked_at reason source_attempt None None]> |>.

(** The PREPARED rows of an attempt. *)
Definition is_prepared {S} (attempt : Z) (r : journal_row S) : bool :=
  bool_decide (row_attempt r = attempt) && bool_decide (row_disposition r = None).

(** The rows of an attempt with a disposition. *)
Definition has_stored_disposition {S} (name : string) (attempt : Z) (r : journal_row S) : bool :=
  bool_decide (row_attempt r = attempt) && bool_decide (row_disposition r = Some name).

(** [COALESCE(NULLIF(text, ''), 'unknown')]. *)
Definition or_unknown (text : option string) : string :=
  match text with
  | Some text => if is_empty text then "unknown" else text
  | None => "unknown"
  end.

(** [insert_cleanup_impact_transaction]. *)
Definition insert_cleanup_impact_transaction (attempt event_id : Z) (occurred_at_unix_millis : N)
    (receipt : CleanupReceipt) (db : database) : result database StoreError :=
  let? row :=
    ok_or (rows (attempts db) !! attempt) (StoreSqlite "Query returned no rows") in
  let found := outcome receipt in
  let attributed :=
    bool_decide (process_outcome found = ProcessCleared)
    && table_exists (λ _, has_stored_disposition "delivered" attempt) (action_rows db) in
  let? process_count :=
    (if attributed then
       let? counted :=
         option_transpose (λ r, i64_or_range (rs_process_count r)
                                  "cleanup impact process count overflowed i64")
           (before (resources receipt)) in
       Ok (match counted with Some n => Some n | None => observed_process_count row end)
     else Ok None) in
  let? estimated_memory :=
    (if attributed then
       option_transpose (λ value, sqlite_u64 value "cleanup impact reclaimed memory")
         (estimated_reclaimed_memory_bytes (resources receipt))
     else Ok None) in
  let? occurred_at := sqlite_millis occurred_at_unix_millis "cleanup impact timestamp" in
  let? checks :=
    i64_or_range (revival_checks_completed receipt) "cleanup impact revival count overflowed i64" in
  guard? negb (table_exists (λ _ r, bool_decide (impact_attempt r = attempt)
                                     || bool_decide (impact_event r = event_id)) (impacts db))
    else StoreSqlite "UNIQUE constraint failed: cleanup_impacts" in
  let? inserted :=
    table_insert "cleanup_impacts" impact_check
      (mkImpactRow attempt event_id (receipt_incident_id receipt) (or_unknown (attempt_pack row))
         (or_unknown (attempt_version row)) occurred_at (state_name (receipt_state receipt))
         (process_outcome_name (process_outcome found))
         (artifact_outcome_name (artifact_outcome found))
         (overall_outcome_name (overall_outcome found)) process_count estimated_memory checks)
      (impacts db) in
  let one {A} (o : option A) := (if o then 1 else 0)%Z in
  let a := authority db in
  Ok (db <| impacts := inserted.1 |>
         <| authority :=
              mkImpactAuthority (terminal_cleanup_count a + 1)
                (proved_reclaim_count a + (if attributed then 1 else 0))
                (reclaimed_process_count a + default 0%Z process_count)
                (reclaimed_process_measurement_count a + one process_count)
                (reclaimed_memory_bytes a + default 0%Z estimated_memory)
                (reclaimed_memory_measurement_count a + one estimated_memory) |>).

(** The terminal UPDATE of an open attempt. *)
Definition close_attempt (attempt : Z) (completed_at : Z) (st : IncidentState)
    (reason : option string) (survivors : string) (checks : Z) (stored_resources : string)
    (db : database) : result database StoreError :=
  let? t :=
    table_update "cleanup_attempts" attempt_check
      (λ id r, bool_decide (id = attempt) && attempt_open r)
      (λ r, r <| attempt_completed_at_ms := Some completed_at |>
              <| attempt_terminal_state := Some (state_name st) |>
              <| attempt_reason_id := reason |>
              <| survivor_pids_json := Some survivors |>
              <| attempt_revival_checks := checks |>
              <| resources_json := Some stored_resources |>) (attempts db) in
  Ok (db <| attempts := t |>).

(** The receipt [complete_cleanup_attempt] persists: the caller's receipt with the
    actions of the journal; an incident that ended by itself is said to have. *)
Definition projected_receipt (attempt : CleanupAttemptHandle) (terminal : CleanupReceipt)
    (acts : list CleanupAction) (artifact_acts : list ArtifactAction)
    (stored : CleanupResources) : CleanupReceipt :=
  let projected :=
    mkCleanupReceipt (attempt_incident attempt) (receipt_state terminal) (reason_id terminal)
      acts artifact_acts (survivor_pids terminal) (revival_checks_completed terminal) stored in
  if ended_without_intervention projected then
    mkCleanupReceipt (receipt_incident_id projected) (receipt_state projected)
      (Some "cleanup.tree_gone_without_signal") acts artifact_acts (survivor_pids projected)
      (revival_checks_completed projected)
      (mkCleanupResources (before stored) (after stored) None)
  else projected.

(** The part of [complete_cleanup_attempt] that writes the terminal state. *)
Definition write_terminal_state (attempt : CleanupAttemptHandle) (tracking_key : string)
    (occurred_at : Z) (occurred_at_unix_millis : N) (projected : CleanupReceipt)
    (db : database) : result database StoreError :=
  let? checks :=
    i64_or_range (revival_checks_completed projected) "revival check count overflowed i64" in
  let? db :=
    close_attempt (attempt_id attempt) occurred_at (receipt_state projected)
      (reason_id projected) (json_to_string (survivor_pids projected)) checks
      (json_to_string (resources projected)) db in
  let db :=
    if bool_decide (receipt_state projected ∈ [Failed; Revived])
    then insert_retry_block (receipt_incident_id projected) tracking_key occurred_at
           (reason_id projected) (attempt_id attempt) db
    else db in
  let? logged :=
    insert_event_transaction (Some (attempt_id attempt)) occurred_at_unix_millis
      (receipt_incident_id projected) KindCleanup (receipt_state projected)
      (PayloadCleanup projected) db in
  insert_cleanup_impact_transaction (attempt_id attempt) logged.2 occurred_at_unix_millis
    projected logged.1.

(** [HistoryStore::complete_cleanup_attempt]. *)
Definition complete_cleanup_attempt (io : option StoreError) (attempt : CleanupAttemptHandle)
    (occurred_at_unix_millis : N) (terminal : CleanupReceipt) (db : database) :
    result (database * CleanupReceipt) StoreError :=
  guard? bool_decide (receipt_state terminal ∈ [Cleared; Failed; Revived])
    else StoreInvalid "cleanup attempt terminal state must be CLEARED, FAILED, or REVIVED" in
  guard? bool_decide (receipt_incident_id terminal = attempt_incident attempt)
    else StoreInvalid "cleanup receipt incident does not match attempt handle" in
  let? occurred_at := sqlite_millis occurred_at_unix_millis "attempt completion timestamp" in
  with_connection io (
  let? stored := handle_attempt db attempt in
  match attempt_terminal_state stored with
  | Some stored_state =>
      let? stored_state := parse_state stored_state in
      guard? bool_decide (stored_state = receipt_state terminal)
        else StoreInvalid ("cleanup attempt is already terminal as " +:+ state_name stored_state) in
      let? receipt := terminal_receipt_for_attempt db (attempt_id attempt) in
      Ok (db, receipt)
  | None =>
      let prepared_count := table_count (λ _, is_prepared (attempt_id attempt)) (action_rows db) in
      let prepared_artifact_count :=
        table_count (λ _, is_prepared (attempt_id attempt)) (artifact_rows db) in
      guard? bool_decide (prepared_count ≤ 0)%Z && bool_decide (prepared_artifact_count ≤ 0)%Z
        else StoreInvalid ("cleanup attempt " +:+ pretty (attempt_id attempt) +:+ " still has "
               +:+ pretty prepared_count +:+ " PREPARED process action(s) and "
               +:+ pretty prepared_artifact_count
               +:+ " PREPARED artifact action(s); startup recovery must resolve delivery uncertainty") in
      let? acts := actions_for_attempt db (attempt_id attempt) in
      let? artifact_acts := artifact_actions_for_attempt db (attempt_id attempt) in
      let text := json_to_string (resources terminal) in
      guard? bool_decide (String.length text ≤ MAX_RESOURCE_RECEIPT_BYTES)
        else StoreInvalid "cleanup resource receipt exceeds its storage bound" in
      let? stored_resources := from_json text in
      let projected := projected_receipt attempt terminal acts artifact_acts stored_resources in
      let? db :=
        write_terminal_state attempt (attempt_tracking_key stored) occurred_at
          occurred_at_unix_millis projected db in
      Ok (db, projected)
  end).

(** ** Recovery *)

(** Every PREPARED row of the attempt becomes delivery-unknown. *)
Definition resolve_prepared {S D} (jt : journal_table S D) (attempt occurred_at : Z)
    (db : database) : result database StoreError :=
  let? t :=
    table_update (jt_name jt) (jt_check jt) (λ _, is_prepared attempt)
      (λ r, mkJournalRow (row_attempt r) (row_sequence r) (row_prepared_at_ms r)
              (Some occurred_at) (row_subject r) (Some "delivery_unknown"))
      (jt_rows jt db) in
  Ok (jt_set jt t db).

(** The reason [recover_incomplete_attempts] gives. *)
Definition interruption_reason (attempt : Z) (db : database) : string :=
  let count {S} name (t : table (journal_row S)) :=
    table_count (λ _, has_stored_disposition name attempt) t in
  if bool_decide (0 < table_count (λ _, is_prepared attempt) (action_rows db))%Z
     || bool_decide (0 < table_count (λ _, is_prepared attempt) (artifact_rows db))%Z
     || bool_decide (0 < count "delivery_unknown" (action_rows db)
                         + count "delivery_unknown" (artifact_rows db))%Z
  then "cleanup.interrupted_delivery_unknown"
  else if bool_decide (0 < count "delivered" (action_rows db)
                           + count "removed" (artifact_rows db))%Z
  then "cleanup.interrupted_after_delivery"
  else "cleanup.interrupted_before_signal".

(** The body of the loop of [recover_incomplete_attempts]. *)
Definition recover_attempt (occurred_at : Z) (occurred_at_unix_millis : N) (id : Z)
    (row : attempt_row) (db : database) : result (database * CleanupReceipt) StoreError :=
  let incident := attempt_incident_id row in
  let reason := interruption_reason id db in
  let? db := resolve_prepared process_journal id occurred_at db in
  let? db := resolve_prepared artifact_journal id occurred_at db in
  let? acts := actions_for_attempt db id in
  let? artifact_acts := artifact_actions_for_attempt db id in
  let receipt :=
    mkCleanupReceipt incident Failed (Some reason) acts artifact_acts [] 0 default_resources in
  let? db :=
    close_attempt id occurred_at Failed (Some reason) "[]" 0
      (json_to_string default_resources) db in
  let db :=
    insert_retry_block incident (attempt_tracking_key row) occurred_at (Some reason) id db in
  let? logged :=
    insert_event_transaction (Some id) occurred_at_unix_millis incident KindCleanup Failed
      (PayloadCleanup receipt) db in
  let? db :=
    insert_cleanup_impact_transaction id logged.2 occurred_at_unix_millis receipt logged.1 in
  Ok (db, receipt).

(** The loop over the open attempts. *)
Fixpoint recover_attempts (occurred_at : Z) (occurred_at_unix_millis : N)
    (open : list (Z * attempt_row)) (db : database) :
    result (database * list CleanupReceipt) StoreError :=
  match open with
  | [] => Ok (db, [])
  | (id, row) :: open =>
      let? one := recover_attempt occurred_at occurred_at_unix_millis id row db in
      let? rest := recover_attempts occurred_at occurred_at_unix_millis open one.1 in
      Ok (rest.1, one.2 :: rest.2)
  end.

(** [HistoryStore::recover_incomplete_attempts]. *)
Definition recover_incomplete_attempts (io : option StoreError) (occurred_at_unix_millis : N)
    (db : database) : result (database * list CleanupReceipt) StoreError :=
  let? occurred_at := sqlite_millis occurred_at_unix_millis "attempt recovery timestamp" in
  with_connection io (
    recover_attempts occurred_at occurred_at_unix_millis
      (List.filter (attempt_open ∘ snd) (table_entries (attempts db))) db).
End Journal.

(** ** Retry blocks *)

(** [HistoryStore::cleanup_blocked] of [store.rs]. *)
Definition incident_cleanup_blocked (io : option StoreError) (incident : string) (db : database) :
    result bool StoreError :=
  with_connection io (Ok (bool_decide (is_Some (retry_blocks db !! incident)))).

(** [HistoryStore::authorize_retry]. *)
Definition authorize_retry (io : option StoreError) (incident : string)
    (occurred_at_unix_millis : N) (db : database) : result (database * bool) StoreError :=
  let? _ := sqlite_millis occurred_at_unix_millis "retry authorization timestamp" in
  with_connection io (
  match retry_blocks db !! incident with
  | None => Ok (db, false)
  | Some block =>
      Ok (db <| retry_blocks ::= delete incident |>
             <| cooling ::= forget_cooling (block_tracking_key block) |>, true)
  end).

(** ** The journal of the executor *)

(** [Display] of [StoreError]; foreign errors carry their text. *)
Definition display_store_error (e : StoreError) : string :=
  match e with
  | StoreIo error => "history I/O failed: " +:+ error
  | StoreSqlite error => error
  | StoreJson error => "history JSON failed: " +:+ error
  | StoreCorrupt message => "history data is corrupt: " +:+ message
  | StoreRange message => "history value is out of range: " +:+ message
  | StoreInvalid message => "invalid history operation: " +:+ message
  | StoreConflict message => "history operation conflicts: " +:+ message
  | StoreAuthorityLost message => "mutation receipt authority was lost: " +:+ message
  | StoreNotFound message => "history target was not found: " +:+ message
  | StoreCapacity message => "history capacity is unavailable: " +:+ message
  | StoreUnsupportedSchema message => "unsupported history schema: " +:+ message
  | StoreUnsafePath message => "unsafe history path: " +:+ message
  end.

(** [RuntimeFailure::new(error.to_string())]. *)
Definition store_failure (e : StoreError) : RuntimeFailure :=
  mkRuntimeFailure (display_store_error e).

Record CleanupAttemptJournal : Type := mkCleanupAttemptJournal {
  journal_attempt : CleanupAttemptHandle;
  next_sequence : N;
  prepared_actions : gmap string PreparedActionHandle;
  next_artifact_sequence : N;
  prepared_artifacts : gmap string PreparedActionHandle;
}.

(** [HistoryStore::journal_for]. *)
Definition journal_for (attempt : CleanupAttemptHandle) : CleanupAttemptJournal :=
  mkCleanupAttemptJournal attempt 0 ∅ 0 ∅.

(** [usize::checked_add(1)]. *)
Definition checked_succ (n : N) : option N :=
  if bool_decide (n + 1 < u64_bound)%N then Some (n + 1)%N else None.

Definition action_key (id : Z) : string := "sqlite-action:" +:+ pretty id.

Definition artifact_action_key (id : Z) : string := "sqlite-artifact-action:" +:+ pretty id.

(** A journal with the database it writes to. *)
Abbreviation journal_state := (CleanupAttemptJournal * database)%type.

(** [CleanupAttemptJournal::prepare_action]. *)
Definition journal_prepare_action (io : option StoreError) (intent : CleanupActionIntent)
    (prepared_at : N) (s : journal_state) : result (journal_state * string) RuntimeFailure :=
  let '(j, db) := s in
  let? next :=
    ok_or (checked_succ (next_sequence j))
      (mkRuntimeFailure "cleanup journal action sequence overflowed usize") in
  let? prepared :=
    map_err store_failure
      (prepare_cleanup_action io (journal_attempt j) (next_sequence j) prepared_at intent db) in
  let action_id := action_key (prepared_id prepared.2) in
  Ok (j <| next_sequence := next |>
        <| prepared_actions ::= <[action_id := prepared.2]> |>, prepared.1, action_id).

(** [CleanupAttemptJournal::complete_action]. *)
Definition journal_complete_action (io : option StoreError) (action_id : string)
    (disposition : SignalDisposition) (completed_at : N) (s : journal_state) :
    result journal_state RuntimeFailure :=
  let '(j, db) := s in
  let? prepared :=
    ok_or (prepared_actions j !! action_id)
      (mkRuntimeFailure ("cleanup journal action " +:+ debug_str action_id
                         +:+ " is not prepared")) in
  let? db :=
    map_err store_failure (complete_cleanup_action io prepared completed_at disposition db) in
  Ok (j, db).

(** [CleanupAttemptJournal::prepare_artifact_action]. *)
Definition journal_prepare_artifact_action (io : option StoreError) (intent : ArtifactActionIntent)
    (prepared_at : N) (s : journal_state) : result (journal_state * string) RuntimeFailure :=
  let '(j, db) := s in
  let? next :=
    ok_or (checked_succ (next_artifact_sequence j))
      (mkRuntimeFailure "cleanup journal artifact sequence overflowed usize") in
  let? prepared :=
    map_err store_failure
      (prepare_cleanup_artifact_action io (journal_attempt j) (next_artifact_sequence j)
         prepared_at intent db) in
  let action_id := artifact_action_key (prepared_id prepared.2) in
  Ok (j <| next_artifact_sequence := next |>
        <| prepared_artifacts ::= <[action_id := prepared.2]> |>, prepared.1, action_id).

(** [CleanupAttemptJournal::complete_artifact_action]. *)
Definition journal_complete_artifact_action (io : option StoreError) (action_id : string)
    (disposition : ArtifactDisposition) (completed_at : N) (s : journal_state) :
    result journal_state RuntimeFailure :=
  let '(j, db) := s in
  let? prepared :=
    ok_or (prepared_artifacts j !! action_id)
      (mkRuntimeFailure ("cleanup journal artifact action " +:+ debug_str action_id
                         +:+ " is not prepared")) in
  let? db :=
    map_err store_failure
      (complete_cleanup_artifact_action io prepared completed_at disposition db) in
  Ok (j, db).
