(* ===== verification/JournalFacts.v ===== *)
(** JournalFacts: what the durable journal of [Journal.v] guarantees.

    The action rows of an attempt mirror what the executor did: [mirrors] relates a
    table to the ghost state of [ExecutorSafety]. The file then follows a whole
    execution on the durable journal, whatever the other threads of the daemon
    write in between. *)

From S2P Require Import Prelude Text Model Artifact Evidence Cleanup Effects Executor.
From S2P Require Import ExecutorSafety ExecutorGuarantees Analyzer Cooling Names Store Journal.

(** ** Inversion of the operations *)

Lemma with_connection_Ok {A} io (k : result A StoreError) a :
  with_connection io k = Ok a ↔ io = None ∧ k = Ok a.
Proof. destruct io; naive_solver. Qed.

Lemma guard_Ok {A E} (b : bool) (e : E) (k : result A E) a :
  (guard? b else e in k) = Ok a ↔ b = true ∧ k = Ok a.
Proof. destruct b; naive_solver. Qed.

Lemma ok_or_Ok {T E} (o : option T) (e : E) t : ok_or o e = Ok t ↔ o = Some t.
Proof. destruct o; naive_solver. Qed.

Lemma i64_or_range_Ok value message z :
  i64_or_range value message = Ok z ↔ z = Z.of_N value ∧ (Z.of_N value < 2 ^ 63)%Z.
Proof. unfold i64_or_range. case_bool_decide; naive_solver. Qed.

(** Takes a successful sequence of calls and guards apart. *)
Ltac inv_ok H :=
  repeat first
    [ apply result_bind_Ok in H as (? & ?Hstep & H)
    | apply with_connection_Ok in H as [-> H]
    | apply guard_Ok in H as [?Hguard H] ].

Lemma handle_attempt_Ok db attempt row :
  handle_attempt db attempt = Ok row ↔
  rows (attempts db) !! attempt_id attempt = Some row ∧
  attempt_incident_id row = attempt_incident attempt.
Proof.
  unfold handle_attempt. rewrite result_bind_Ok. split.
  - intros (r & ?%ok_or_Ok & [Hb [= <-]]%guard_Ok). by apply bool_decide_eq_true in Hb.
  - intros [Hr Hi]. exists row. rewrite ok_or_Ok, guard_Ok, bool_decide_eq_true. done.
Qed.

Lemma attempt_open_iff row : attempt_open row = true ↔ attempt_completed_at_ms row = None.
Proof. apply bool_decide_eq_true. Qed.

Section Rows.
Context {S D : Type} `{EqDecision D, StoredText D} (jt : journal_table S D).
Context (jt_get_set : ∀ t db, jt_rows jt (jt_set jt t db) = t).

Lemma prepare_row_Ok io attempt sequence at_ subject db db' h :
  prepare_row jt io attempt sequence at_ subject db = Ok (db', h) →
  (∃ stored, rows (attempts db) !! attempt_id attempt = Some stored ∧
     attempt_completed_at_ms stored = None) ∧
  (∀ k r, rows (jt_rows jt db) !! k = Some r → row_attempt r = attempt_id attempt →
     row_sequence r ≠ Z.of_N sequence) ∧
  ∃ t, table_insert (jt_name jt) (jt_check jt)
         (mkJournalRow (attempt_id attempt) (Z.of_N sequence) (Z.of_N at_) None subject None)
         (jt_rows jt db) = Ok (t, prepared_id h) ∧
       db' = jt_set jt t db ∧ prepared_attempt_id h = attempt_id attempt ∧
       prepared_sequence h = sequence.
Proof.
  unfold prepare_row. intros Hp. inv_ok Hp.
  apply i64_or_range_Ok in Hstep as [-> _]. apply sqlite_millis_Ok in Hstep0 as [-> _].
  apply handle_attempt_Ok in Hstep1 as [Hst _]. apply attempt_open_iff in Hguard.
  apply negb_true_iff in Hguard0. rewrite table_exists_false in Hguard0.
  destruct x2 as [t id]. injection Hp as <- <-. simpl. split_and!; [eauto| |eauto].
  intros k r Hk Ha Hs. specialize (Hguard0 k r Hk). simpl in Hguard0.
  rewrite !bool_decide_eq_true_2 in Hguard0 by done. done.
Qed.

Lemma complete_row_Ok io prepared at_ (d : D) db db' :
  complete_row jt io prepared at_ d db = Ok db' →
  ∃ stored, rows (jt_rows jt db) !! prepared_id prepared = Some stored ∧
    row_attempt stored = prepared_attempt_id prepared ∧
    row_sequence stored = Z.of_N (prepared_sequence prepared) ∧
    match row_disposition stored with
    | Some text => text = stored_name d ∧ db' = db
    | None =>
        ∃ t, table_update (jt_name jt) (jt_check jt)
               (λ id r, bool_decide (id = prepared_id prepared)
                        && bool_decide (row_disposition r = None))
               (λ r, mkJournalRow (row_attempt r) (row_sequence r) (row_prepared_at_ms r)
                       (Some (Z.of_N at_)) (row_subject r) (Some (stored_name d)))
               (jt_rows jt db) = Ok t ∧ db' = jt_set jt t db
    end.
Proof.
  unfold complete_row. intros Hp. inv_ok Hp.
  apply sqlite_millis_Ok in Hstep as [-> _]. apply i64_or_range_Ok in Hstep0 as [-> _].
  apply ok_or_Ok in Hstep1. apply andb_true_iff in Hguard as [Ha Hs].
  apply bool_decide_eq_true in Ha, Hs. exists x1. split_and!; [done..|].
  destruct (row_disposition x1) as [text|].
  - inv_ok Hp. apply stored_name_parse in Hstep. apply bool_decide_eq_true in Hguard.
    injection Hp as <-. by subst.
  - inv_ok Hp. injection Hp as <-. eauto.
Qed.
End Rows.

(** ** The rows of an attempt *)

Section AttemptRows.
Context {S : Type}.
Implicit Types t : table (journal_row S).

#[local] Instance sequence_le_trans : Transitive (sequence_le (S:=S)).
Proof. unfold sequence_le. intros a b c. lia. Qed.

#[local] Instance sequence_le_total : Total (sequence_le (S:=S)).
Proof. unfold sequence_le. intros a b. lia. Qed.

(** The rows of an attempt in the order of their keys. *)
Definition keyed_rows (attempt : Z) t : list (Z * journal_row S) :=
  List.filter (λ e, bool_decide (row_attempt e.2 = attempt)) (table_entries t).

Lemma rows_for_attempt_keyed attempt t :
  rows_for_attempt attempt t = merge_sort sequence_le (keyed_rows attempt t).*2.
Proof.
  unfold rows_for_attempt, keyed_rows. f_equal.
  generalize (table_entries t) as l. induction l as [|[k r] l IH]; [done|].
  rewrite fmap_cons. simpl List.filter. case_bool_decide; [rewrite fmap_cons|]; by rewrite IH.
Qed.

Lemma elem_of_rows_for_attempt attempt t r :
  r ∈ rows_for_attempt attempt t ↔ ∃ k, rows t !! k = Some r ∧ row_attempt r = attempt.
Proof.
  rewrite rows_for_attempt_keyed, merge_sort_Permutation, list_elem_of_fmap. unfold keyed_rows.
  split.
  - intros ([k r'] & -> & [Hin%list_elem_of_In Hb]%list_elem_of_In%filter_In).
    exists k. by rewrite <-table_entries_elem, bool_decide_eq_true in *.
  - intros (k & Hk & Hr). exists (k, r). split; [done|].
    apply list_elem_of_In, filter_In. simpl. rewrite bool_decide_eq_true.
    split; [|done]. by apply list_elem_of_In, table_entries_elem.
Qed.

Lemma NoDup_fmap_elem {A B} (f : A → B) l x y :
  NoDup (f <$> l) → x ∈ l → y ∈ l → f x = f y → x = y.
Proof.
  intros Hnd [i Hi]%list_elem_of_lookup [j Hj]%list_elem_of_lookup E.
  assert (i = j) as ->; [|congruence].
  eapply NoDup_lookup; [exact Hnd|by rewrite list_lookup_fmap, Hi|].
  by rewrite list_lookup_fmap, Hj, E.
Qed.

(** Sorted lists with distinct sequence numbers are equal when permuted. *)
Lemma sorted_rows_unique (l1 l2 : list (journal_row S)) :
  StronglySorted sequence_le l1 → StronglySorted sequence_le l2 → l1 ≡ₚ l2 →
  NoDup (row_sequence <$> l2) → l1 = l2.
Proof.
  intros H1 H2 Hp Hnd. apply (StronglySorted_unique_strong sequence_le); [|done..].
  intros x y Hx Hy Hxy Hyx. rewrite Hp in Hx.
  apply (NoDup_fmap_elem row_sequence l2); [done..|]. unfold sequence_le in *. lia.
Qed.

Lemma rows_for_attempt_sorted attempt t :
  StronglySorted sequence_le (rows_for_attempt attempt t).
Proof. apply (StronglySorted_merge_sort sequence_le). Qed.

(** A row with a larger sequence number comes last. *)
Lemma rows_for_attempt_insert name check attempt t t' id (r : journal_row S) :
  table_wf t → table_insert name check r t = Ok (t', id) →
  NoDup (row_sequence <$> rows_for_attempt attempt t) → row_attempt r = attempt →
  Forall (λ r', (row_sequence r' < row_sequence r)%Z) (rows_for_attempt attempt t) →
  rows_for_attempt attempt t' = rows_for_attempt attempt t ++ [r].
Proof.
  intros Hwf Hins Hnd Ha Hlt. apply sorted_rows_unique.
  - apply rows_for_attempt_sorted.
  - apply StronglySorted_app_2; [|apply rows_for_attempt_sorted|by repeat constructor].
    intros x y Hx ->%list_elem_of_singleton. rewrite Forall_forall in Hlt.
    specialize (Hlt x Hx). unfold sequence_le. lia.
  - rewrite !rows_for_attempt_keyed, !merge_sort_Permutation. unfold keyed_rows.
    rewrite (table_insert_entries _ _ _ _ _ _ Hwf Hins), List.filter_app. simpl.
    rewrite bool_decide_eq_true_2 by done. by rewrite fmap_app.
  - rewrite fmap_app. apply NoDup_app. split_and!; [done| |apply NoDup_singleton].
    intros z (x & -> & Hx)%list_elem_of_fmap Hz%list_elem_of_singleton.
    rewrite Forall_forall in Hlt. specialize (Hlt x Hx). lia.
Qed.

(** An UPDATE that keeps attempts and sequence numbers acts on each row. *)
Lemma rows_for_attempt_update name check attempt t t' P Q f :
  table_update name check P f t = Ok t' →
  (∀ r, row_attempt (f r) = row_attempt r ∧ row_sequence (f r) = row_sequence r) →
  (∀ k r, rows t !! k = Some r → row_attempt r = attempt → P k r = Q r) →
  NoDup (row_sequence <$> rows_for_attempt attempt t) →
  rows_for_attempt attempt t' = (λ r, if Q r then f r else r) <$> rows_for_attempt attempt t.
Proof.
  intros Hu Hf HPQ Hnd.
  assert (∀ l : list (journal_row S),
    row_sequence <$> ((λ r, if Q r then f r else r) <$> l) = row_sequence <$> l) as Hseq.
  { intros l. rewrite <-list_fmap_compose. apply list_fmap_ext. intros i r _. simpl.
    destruct (Q r); [apply Hf|done]. }
  apply sorted_rows_unique; [apply rows_for_attempt_sorted| | |by rewrite Hseq].
  - pose proof (rows_for_attempt_sorted attempt t) as Hs.
    induction Hs as [|r l Hs IH Hall]; simpl; [constructor|]. constructor.
    { apply IH. by apply NoDup_cons in Hnd as [_ Hnd]. }
    apply Forall_fmap. eapply Forall_impl; [exact Hall|]. intros x Hx.
    unfold sequence_le in *. simpl.
    assert (∀ r, row_sequence (if Q r then f r else r) = row_sequence r) as E.
    { intros r'. destruct (Q r'); [apply Hf|done]. }
    by rewrite !E.
  - rewrite !rows_for_attempt_keyed, !merge_sort_Permutation. unfold keyed_rows.
    rewrite (table_update_entries _ _ _ _ _ _ Hu).
    assert (∀ k r, (k, r) ∈ table_entries t → row_attempt r = attempt → P k r = Q r) as HPQ'.
    { intros k r Hk%table_entries_elem. eauto. }
    clear HPQ Hu Hnd. revert HPQ'.
    induction (table_entries t) as [|[k r] l IH]; simpl; intros HPQ; [done|].
    replace (row_attempt (if P k r then f r else r)) with (row_attempt r)
      by (destruct (P k r); [by rewrite (proj1 (Hf r))|done]).
    case_bool_decide as Ha; simpl; rewrite IH by set_solver; [|done].
    by rewrite (HPQ k r) by (set_solver || done).
Qed.

Lemma filter_sorted {A} (R : relation A) (p : A → bool) l :
  StronglySorted R l → StronglySorted R (List.filter p l).
Proof.
  induction 1 as [|a l Hs IH Hall]; simpl; [constructor|].
  destruct (p a); [|done]. constructor; [done|].
  rewrite Forall_forall in *. intros x [Hx _]%list_elem_of_In%filter_In.
  apply Hall. by apply list_elem_of_In.
Qed.

Lemma elem_of_keyed_rows attempt t k r :
  (k, r) ∈ keyed_rows attempt t ↔ rows t !! k = Some r ∧ row_attempt r = attempt.
Proof.
  unfold keyed_rows. rewrite list_elem_of_In, filter_In, <-list_elem_of_In, table_entries_elem.
  simpl. by rewrite bool_decide_eq_true.
Qed.

(** Distinct sequence numbers have distinct keys. *)
Lemma rows_key_unique attempt t k k' r r' :
  NoDup (row_sequence <$> rows_for_attempt attempt t) →
  rows t !! k = Some r → rows t !! k' = Some r' → row_attempt r = attempt →
  row_attempt r' = attempt → row_sequence r = row_sequence r' → k = k'.
Proof.
  intros Hnd Hk Hk' Hr Hr' Hs.
  assert ((k, r) = (k', r')) as E; [|congruence].
  apply (NoDup_fmap_elem (row_sequence ∘ snd) (keyed_rows attempt t));
    [|by apply elem_of_keyed_rows..|done].
  rewrite list_fmap_compose.
  by rewrite rows_for_attempt_keyed, merge_sort_Permutation in Hnd.
Qed.

Lemma key_lt_NoDup {V} (l : list (Z * V)) : StronglySorted key_lt l → NoDup l.
Proof.
  induction 1 as [|e l Hs IH Hall]; constructor; [|done].
  intros He. rewrite Forall_forall in Hall. specialize (Hall e He). unfold key_lt in Hall. lia.
Qed.

(** The rows of an attempt depend on no other row. *)
Lemma rows_for_attempt_agree attempt t t' :
  (∀ k r, row_attempt r = attempt → rows t !! k = Some r ↔ rows t' !! k = Some r) →
  rows_for_attempt attempt t' = rows_for_attempt attempt t.
Proof.
  intros Hag. rewrite !rows_for_attempt_keyed. do 2 f_equal.
  assert (∀ t, StronglySorted key_lt (keyed_rows attempt t)) as Hs.
  { intros t0. apply filter_sorted, table_entries_sorted. }
  apply (StronglySorted_unique_strong key_lt); [|done..|].
  - unfold key_lt. intros; lia.
  - apply NoDup_Permutation; [apply key_lt_NoDup, Hs..|].
    intros [k r]. rewrite !elem_of_keyed_rows. naive_solver.
Qed.
End AttemptRows.

(** ** The journal mirrors the execution *)

(** An action table as the executor's journal uses it: how an intent is stored, how
    a completed row is read, and that reading gives back what was stored. *)
Class JournalCodec (S D I A : Type) `{EqDecision D, StoredText D} : Type := {
  codec_table : journal_table S D;
  codec_subject : I → S;
  codec_read : journal_row S → result A StoreError;
  codec_completed : I → D → A;
  codec_valid : I → Prop;
  codec_get_set : ∀ t db, jt_rows codec_table (jt_set codec_table t db) = t;
  codec_round_trip : ∀ i d attempt sequence prepared completed, codec_valid i →
    codec_read (mkJournalRow attempt sequence prepared (Some completed) (codec_subject i)
                  (Some (stored_name d))) = Ok (codec_completed i d);
}.

Section Mirror.
Context {S D I A : Type} `{EqDecision D, StoredText D, !JournalCodec S D I A}.

(** The rows of [attempt] are the completed actions [done], then the open one; the
    journal's handles and its next sequence number agree with them. *)
Record mirrors (attempt : Z) (next : N) (prepared : gmap string PreparedActionHandle)
    (t : table (journal_row S)) (done : list A) (open : option (string * I)) : Prop := {
  mirrors_wf : table_wf t ∧ (0 ≤ last_rowid t)%Z;
  mirrors_next : row_sequence <$> rows_for_attempt attempt t = seqZ 0 (Z.of_N next);
  mirrors_rows : ∃ closed tail, rows_for_attempt attempt t = closed ++ tail ∧
    collect_results codec_read closed = Ok done ∧
    Forall (λ r, row_disposition r ≠ None) closed ∧
    match open with
    | None => tail = []
    | Some (key, i) => ∃ h row, prepared !! key = Some h ∧ tail = [row] ∧
        rows t !! prepared_id h = Some row ∧ row_attempt row = attempt ∧
        prepared_attempt_id h = attempt ∧
        row_sequence row = Z.of_N (prepared_sequence h) ∧
        row_subject row = codec_subject i ∧ row_disposition row = None ∧ codec_valid i
    end;
}.

Lemma collect_results_app {X Y E} (f : X → result Y E) l l' ys y :
  collect_results f l = Ok ys → collect_results f l' = Ok y →
  collect_results f (l ++ l') = Ok (ys ++ y).
Proof.
  revert ys. induction l as [|x l IH]; simpl; intros ys.
  - by intros [= <-].
  - intros (z & Hz & (zs & Hzs & [= <-])%result_bind_Ok)%result_bind_Ok Hl'.
    rewrite Hz. simpl. by rewrite (IH zs Hzs Hl').
Qed.

Lemma mirrors_NoDup attempt next prepared t done open :
  mirrors attempt next prepared t done open →
  NoDup (row_sequence <$> rows_for_attempt attempt t).
Proof. intros Hm. rewrite (mirrors_next _ _ _ _ _ _ Hm). apply NoDup_seqZ. Qed.

Lemma mirrors_prepare attempt next prepared done io at_ i db db' h key handle :
  mirrors attempt next prepared (jt_rows codec_table db) done None →
  attempt_id handle = attempt → codec_valid i →
  prepare_row codec_table io handle next at_ (codec_subject i) db = Ok (db', h) →
  mirrors attempt (next + 1) (<[key := h]> prepared) (jt_rows codec_table db') done (Some (key, i)).
Proof.
  intros Hm Hid Hv Hp. pose proof (mirrors_NoDup _ _ _ _ _ _ Hm) as Hnd.
  destruct Hm as [[Hwf H0] Hnext (closed & tail & Hrows & Hread & Hcl & ->)].
  apply prepare_row_Ok in Hp as (_ & _ & t & Hins & -> & Hha & Hhs).
  rewrite codec_get_set. subst attempt.
  pose proof (table_insert_wf _ _ _ _ _ _ Hwf H0 Hins) as (Hwf' & H0' & _).
  assert (rows_for_attempt (attempt_id handle) t =
    rows_for_attempt (attempt_id handle) (jt_rows codec_table db) ++
    [mkJournalRow (attempt_id handle) (Z.of_N next) (Z.of_N at_) None (codec_subject i) None])
    as Hrows'.
  { eapply rows_for_attempt_insert; [done..|].
    apply Forall_forall. intros r Hr. simpl.
    assert (row_sequence r ∈ seqZ 0 (Z.of_N next)) as Hin%elem_of_seqZ; [|lia].
    rewrite <-Hnext. by apply list_elem_of_fmap_2. }
  split; [done| |].
  - rewrite Hrows', fmap_app, Hnext. simpl.
    replace (Z.of_N (next + 1)) with (Z.of_N next + 1)%Z by lia.
    rewrite seqZ_app by lia. done.
  - exists closed, [mkJournalRow (attempt_id handle) (Z.of_N next) (Z.of_N at_) None
                      (codec_subject i) None].
    rewrite Hrows', Hrows, app_nil_r. split_and!; [done..|].
    eexists h, _. rewrite lookup_insert_eq, Hhs. split_and!; try done.
    apply table_insert_Ok in Hins as (_ & _ & -> & _). simpl. by rewrite lookup_insert_eq.
Qed.

Lemma mirrors_complete attempt next prepared done io at_ i d db db' h key :
  mirrors attempt next prepared (jt_rows codec_table db) done (Some (key, i)) →
  prepared !! key = Some h → complete_row codec_table io h at_ d db = Ok db' →
  mirrors attempt next prepared (jt_rows codec_table db') (done ++ [codec_completed i d]) None.
Proof.
  intros Hm Hh Hc. pose proof (mirrors_NoDup _ _ _ _ _ _ Hm) as Hnd.
  destruct Hm as [[Hwf H0] Hnext (closed & tail & Hrows & Hread & Hcl & Hopen)].
  destruct Hopen as (h' & row & Hh' & -> & Hrow & Ha & Hha & Hs & Hsub & Hd & Hv).
  assert (h' = h) as -> by congruence.
  apply complete_row_Ok in Hc as (stored & Hst & _ & _ & Hc).
  assert (stored = row) as -> by congruence. rewrite Hd in Hc.
  destruct Hc as (t & Hu & ->). rewrite codec_get_set.
  pose proof (table_update_wf _ _ _ _ _ _ Hwf Hu) as [Hwf' Hlast].
  set (f := λ r : journal_row S, mkJournalRow (row_attempt r) (row_sequence r)
              (row_prepared_at_ms r) (Some (Z.of_N at_)) (row_subject r)
              (Some (stored_name d))) in *.
  assert (rows_for_attempt attempt t = closed ++ [f row]) as Hrows'.
  { rewrite (rows_for_attempt_update _ _ attempt _ _ _
               (λ r, bool_decide (row_disposition r = None)) f Hu); [|done| |done].
    - rewrite Hrows, fmap_app. simpl. rewrite bool_decide_eq_true_2 by done. f_equal.
      transitivity (id <$> closed); [|by rewrite list_fmap_id].
      apply list_fmap_ext. intros n r Hr. rewrite bool_decide_eq_false_2; [done|].
      rewrite Forall_forall in Hcl. apply Hcl. by eapply list_elem_of_lookup_2.
    - intros k r Hk Hra. simpl.
      destruct (bool_decide (row_disposition r = None)) eqn:Hdec; [|apply andb_false_r].
      rewrite andb_true_r. apply bool_decide_eq_true. apply bool_decide_eq_true in Hdec.
      assert (r ∈ rows_for_attempt attempt (jt_rows codec_table db)) as Hin
        by (apply elem_of_rows_for_attempt; eauto).
      rewrite Hrows, elem_of_app, list_elem_of_singleton in Hin.
      destruct Hin as [Hin| ->]; [rewrite Forall_forall in Hcl; by destruct (Hcl r Hin)|].
      by apply (rows_key_unique attempt (jt_rows codec_table db) _ _ row row). }
  split; [by rewrite Hlast| |].
  - rewrite Hrows', <-Hnext, Hrows, !fmap_app. done.
  - exists (closed ++ [f row]), []. rewrite app_nil_r. split_and!; [done| | |done].
    + eapply collect_results_app; [done|]. simpl. destruct row as [a s p c sub disp]. simpl in *.
      unfold f; simpl. subst sub. by rewrite codec_round_trip.
    + apply Forall_app. by repeat constructor.
Qed.

Lemma mirrors_env attempt next prepared t t' done open :
  mirrors attempt next prepared t done open →
  table_wf t' → (0 ≤ last_rowid t')%Z →
  (∀ k r, row_attempt r = attempt → rows t !! k = Some r ↔ rows t' !! k = Some r) →
  mirrors attempt next prepared t' done open.
Proof.
  intros [Hwf Hnext (closed & tail & Hrows & Hread & Hcl & Hopen)] Hwf' H0' Hag.
  pose proof (rows_for_attempt_agree _ _ _ Hag) as E.
  split; [done|by rewrite E|]. exists closed, tail. rewrite E. split_and!; [done..|].
  destruct open as [[key i]|]; [|done].
  destruct Hopen as (h & row & ? & ? & Hrow & ? & ? & ? & ? & ? & ?).
  exists h, row. split_and!; try done. by apply Hag.
Qed.

(** An attempt without rows. *)
Lemma mirrors_start attempt t :
  table_wf t → (0 ≤ last_rowid t)%Z → (∀ k r, rows t !! k = Some r → row_attempt r ≠ attempt) →
  mirrors attempt 0 ∅ t [] None.
Proof.
  intros Hwf H0 Hno.
  assert (rows_for_attempt attempt t = []) as E.
  { apply elem_of_nil_inv. intros r (k & Hk & Hr)%elem_of_rows_for_attempt. by apply (Hno k r). }
  split; [done|by rewrite E|]. exists [], []. rewrite E. by split_and!.
Qed.
End Mirror.
