(* ===== verification/DurableRun.v ===== *)
(** DurableRun: an execution on the durable journal.

    The executor of [Executor.v] writes its journal through [CleanupAttemptJournal]
    into the database while the other threads of the daemon write theirs. Whatever
    they do outside the attempt, the attempt's rows are what the executor's
    receipt says. *)

From S2P Require Import Prelude Text Model Artifact Evidence Cleanup Effects Executor.
From S2P Require Import ExecutorSafety ExecutorGuarantees Analyzer Cooling Names Store Journal.
From S2P Require Import JournalFacts.

(** ** The database during an execution *)

Definition tables_wf (db : database) : Prop :=
  (table_wf (attempts db) ∧ 0 ≤ last_rowid (attempts db))%Z ∧
  (table_wf (action_rows db) ∧ 0 ≤ last_rowid (action_rows db))%Z ∧
  (table_wf (artifact_rows db) ∧ 0 ≤ last_rowid (artifact_rows db))%Z ∧
  (table_wf (events db) ∧ 0 ≤ last_rowid (events db))%Z.

(** Two tables have the same rows of an attempt. *)
Definition same_rows {S} (attempt : Z) (t t' : table (journal_row S)) : Prop :=
  ∀ k r, row_attempt r = attempt → rows t !! k = Some r ↔ rows t' !! k = Some r.

(** What another thread may do during an attempt: anything but write its rows. *)
Definition keeps_attempt (attempt : Z) (db db' : database) : Prop :=
  (tables_wf db → tables_wf db') ∧
  rows (attempts db') !! attempt = rows (attempts db) !! attempt ∧
  same_rows attempt (action_rows db) (action_rows db') ∧
  same_rows attempt (artifact_rows db) (artifact_rows db').

(** The journal answers an event of the executor; SQLite may fail at any call. *)
Definition journal_answers (s : journal_state) (o : obs CleanupE) (s' : journal_state) : Prop :=
  let prepared (x : result string RuntimeFailure)
      (answer : result (journal_state * string) RuntimeFailure) :=
    match answer with
    | Ok (s1, key) => x = Ok key ∧ s' = s1
    | Err e => x = Err e ∧ s' = s
    end in
  let completed (x : result unit RuntimeFailure) (answer : result journal_state RuntimeFailure) :=
    match answer with
    | Ok s1 => x = Ok tt ∧ s' = s1
    | Err e => x = Err e ∧ s' = s
    end in
  match o with
  | @Obs _ _ e x =>
      match e in CleanupE X return X → Prop with
      | PrepareAction i at_ => λ x, ∃ io, prepared x (journal_prepare_action io i at_ s)
      | CompleteAction id d at_ => λ x, ∃ io, completed x (journal_complete_action io id d at_ s)
      | PrepareArtifactAction i at_ => λ x,
          ∃ io, prepared x (journal_prepare_artifact_action io i at_ s)
      | CompleteArtifactAction id d at_ => λ x,
          ∃ io, completed x (journal_complete_artifact_action io id d at_ s)
      | _ => λ _, s' = s
      end x
  end.

(** The events of a trace on the durable journal, interleaved with the steps of other
    threads. *)
Inductive journalled (attempt : Z) :
  journal_state → list (obs CleanupE) → journal_state → Prop :=
| journalled_nil s : journalled attempt s [] s
| journalled_other j db db' tr s' :
    keeps_attempt attempt db db' →
    journalled attempt (j, db') tr s' → journalled attempt (j, db) tr s'
| journalled_event s o s' tr s'' :
    journal_answers s o s' →
    journalled attempt s' tr s'' → journalled attempt s (o :: tr) s''.

(** ** The mirror *)

#[export] Program Instance process_codec :
  JournalCodec action_subject SignalDisposition CleanupActionIntent CleanupAction := {|
  codec_table := process_journal;
  codec_subject i :=
    mkActionSubject (cleanup_stage_name (intent_stage i)) (Z.of_N (intent_pid i))
      (intent_identity_fingerprint i) (cleanup_signal_name (intent_signal i));
  codec_read := stored_action;
  codec_completed := completed_action;
  codec_valid i := (intent_pid i < 2 ^ 32)%N;
|}.
Next Obligation. done. Qed.
Next Obligation.
  intros [stage p f s] d a q t c Hp. unfold stored_action. simpl.
  rewrite (@parse_stored_name _ stored_stage stage : parse_cleanup_stage (cleanup_stage_name stage) = Ok stage).
  simpl in *. rewrite bool_decide_eq_true_2 by lia. simpl.
  rewrite (@parse_stored_name _ stored_signal s : parse_cleanup_signal (cleanup_signal_name s) = Ok s). simpl.
  rewrite (@parse_stored_name _ stored_disposition d : parse_signal_disposition (signal_disposition_name d) = Ok d).
  simpl. by rewrite N2Z.id.
Qed.

#[export] Program Instance artifact_codec :
  JournalCodec artifact_subject ArtifactDisposition ArtifactActionIntent ArtifactAction := {|
  codec_table := artifact_journal;
  codec_subject i :=
    mkArtifactSubject (runtime_artifact_kind_name (intent_kind i)) (intent_artifact_fingerprint i);
  codec_read := stored_artifact_action;
  codec_completed := completed_artifact;
  codec_valid i := valid_artifact_fingerprint (intent_artifact_fingerprint i) = true;
|}.
Next Obligation. done. Qed.
Next Obligation.
  intros [k f] d a q t c Hf. unfold stored_artifact_action. simpl in *. rewrite Hf.
  rewrite (@parse_stored_name _ stored_artifact_kind k : parse_runtime_artifact_kind (runtime_artifact_kind_name k) = Ok k).
  simpl.
  by rewrite (@parse_stored_name _ stored_artifact_disposition d : parse_artifact_disposition (artifact_disposition_name d) = Ok d).
Qed.

(** The database mirrors the ghost state of the execution. *)
Record mirrored (handle : CleanupAttemptHandle) (g : ghost) (s : journal_state) : Prop := {
  mirrored_handle : journal_attempt s.1 = handle;
  mirrored_wf : tables_wf s.2;
  mirrored_actions :
    mirrors (attempt_id handle) (next_sequence s.1) (prepared_actions s.1) (action_rows s.2)
      (g_actions g) (g_open g);
  mirrored_artifacts :
    mirrors (attempt_id handle) (next_artifact_sequence s.1) (prepared_artifacts s.1)
      (artifact_rows s.2) (g_artifact_actions g) (g_open_artifact g);
}.

Lemma mirrored_other handle g j db db' :
  keeps_attempt (attempt_id handle) db db' → mirrored handle g (j, db) → mirrored handle g (j, db').
Proof.
  intros (Hwf & _ & Ha & Haa) [Hh Hw Hm Hma]. simpl in *.
  pose proof (Hwf Hw) as Hw'. destruct Hw' as (? & [? ?] & [? ?] & ?).
  split; simpl; [done|by apply Hwf|..]; by eapply mirrors_env.
Qed.

Lemma checked_succ_Some n m : checked_succ n = Some m → m = (n + 1)%N.
Proof. unfold checked_succ. case_bool_decide; naive_solver. Qed.

Lemma map_err_Ok {T E F} (f : E → F) (m : result T E) t : map_err f m = Ok t ↔ m = Ok t.
Proof. destruct m; naive_solver. Qed.

(** ** The steps of the journal *)

Section Steps.
Context {S D I A : Type} `{EqDecision D, StoredText D, jc : !JournalCodec S D I A}.

Lemma prepare_row_wf io handle next at_ (i : I) db db' h :
  (table_wf (jt_rows codec_table db) ∧ 0 ≤ last_rowid (jt_rows codec_table db))%Z →
  prepare_row codec_table io handle next at_ (codec_subject i) db = Ok (db', h) →
  (table_wf (jt_rows codec_table db') ∧ 0 ≤ last_rowid (jt_rows codec_table db'))%Z.
Proof.
  intros [Hwf H0] (_ & _ & t & Hins & -> & _)%prepare_row_Ok. rewrite codec_get_set.
  by pose proof (table_insert_wf _ _ _ _ _ _ Hwf H0 Hins) as (? & ? & _).
Qed.

Lemma complete_row_wf io h at_ (d : D) db db' :
  (table_wf (jt_rows codec_table db) ∧ 0 ≤ last_rowid (jt_rows codec_table db))%Z →
  complete_row codec_table io h at_ d db = Ok db' →
  (table_wf (jt_rows codec_table db') ∧ 0 ≤ last_rowid (jt_rows codec_table db'))%Z.
Proof.
  intros [Hwf H0] (stored & _ & _ & _ & Hc)%complete_row_Ok.
  destruct (row_disposition stored); [by destruct Hc as [_ ->]|].
  destruct Hc as (t & Hu & ->). rewrite codec_get_set.
  by pose proof (table_update_wf _ _ _ _ _ _ Hwf Hu) as [? ->].
Qed.

Lemma complete_row_frame io h at_ (d : D) db db' :
  complete_row codec_table io h at_ d db = Ok db' → db' = db ∨ ∃ t, db' = jt_set codec_table t db.
Proof.
  intros (stored & _ & _ & _ & Hc)%complete_row_Ok.
  destruct (row_disposition stored); [left; apply Hc|right]. destruct Hc as (t & _ & ->). eauto.
Qed.

Lemma prepare_row_frame io handle next at_ subject db db' h :
  prepare_row codec_table io handle next at_ subject db = Ok (db', h) →
  ∃ t, db' = jt_set codec_table t db.
Proof. intros (_ & _ & t & _ & -> & _)%prepare_row_Ok. eauto. Qed.
End Steps.

Section Mirrored.
Context {V : Type} `{!IncidentRevalidator V} (revalidator : V) (plan : CleanupPlan).
Context (handle : CleanupAttemptHandle).
Context (pids_u32 : Forall (λ t, (target_pid t < 2 ^ 32)%N) (plan_targets plan)).

Lemma mirrored_prepare g j db io i at_ j' db' key :
  event_ok revalidator plan g _ (PrepareAction i at_) →
  journal_prepare_action io i at_ (j, db) = Ok (j', db', key) →
  mirrored handle g (j, db) → mirrored handle (upd g (Obs (PrepareAction i at_) (Ok key))) (j', db').
Proof.
  intros ([Hopen _] & _ & t & Ht & Hi) Hp [Hh Hw Hm Hma]. simpl in *.
  unfold journal_prepare_action in Hp.
  apply result_bind_Ok in Hp as (next & Hnext%ok_or_Ok%checked_succ_Some & Hp).
  apply result_bind_Ok in Hp as ([db1 h] & Hp%map_err_Ok & [= <- <- <-]).
  unfold prepare_cleanup_action in Hp. apply guard_Ok in Hp as [_ Hp].
  assert (intent_pid i < 2 ^ 32)%N as Hpid.
  { rewrite Forall_forall in pids_u32. specialize (pids_u32 t Ht). by rewrite Hi. }
  pose proof (prepare_row_wf (jc:=process_codec) io _ _ at_ i db db1 h (proj1 (proj2 Hw)) Hp) as Hwf'.
  pose proof (prepare_row_frame (jc:=process_codec) _ _ _ _ _ _ _ _ Hp) as [t1 Ht1].
  rewrite Hopen in Hm.
  pose proof (mirrors_prepare (JournalCodec0:=process_codec) _ _ _ _ _ _ _ _ _ _ (action_key (prepared_id h)) _ Hm
    (f_equal attempt_id Hh) Hpid Hp) as Hm'.
  destruct g as [st lg ws lk op fr de oa rm fz ac aa]. simpl in *. subst op.
  split; simpl; [done| | |].
  - subst db1. unfold tables_wf in *. simpl in *. tauto.
  - rewrite Hnext. exact Hm'.
  - subst db1. exact Hma.
Qed.

Lemma mirrored_complete g j db io id d at_ j' db' :
  event_ok revalidator plan g _ (CompleteAction id d at_) →
  journal_complete_action io id d at_ (j, db) = Ok (j', db') →
  mirrored handle g (j, db) →
  mirrored handle (upd g (Obs (CompleteAction id d at_) (Ok tt))) (j', db').
Proof.
  intros [[i Hopen] _] Hp [Hh Hw Hm Hma]. simpl in *.
  unfold journal_complete_action in Hp.
  apply result_bind_Ok in Hp as (h & Hkey%ok_or_Ok & Hp).
  apply result_bind_Ok in Hp as (db1 & Hp%map_err_Ok & [= <- <-]).
  pose proof (complete_row_wf (jc:=process_codec) io h at_ d db db1 (proj1 (proj2 Hw)) Hp) as Hwf'.
  pose proof (complete_row_frame (jc:=process_codec) _ _ _ _ _ _ Hp) as Hframe.
  rewrite Hopen in Hm.
  pose proof (mirrors_complete (JournalCodec0:=process_codec) _ _ _ _ _ _ _ _ _ _ _ _ Hm Hkey Hp)
    as Hm'.
  destruct g as [st lg ws lk op fr de oa rm fz ac aa]. simpl in *. subst op.
  split; simpl; [done| |done|].
  - destruct Hframe as [->|[t1 ->]]; [done|]. unfold tables_wf in *. simpl in *. tauto.
  - by destruct Hframe as [->|[t1 ->]].
Qed.

Lemma mirrored_prepare_artifact g j db io i at_ j' db' key :
  event_ok revalidator plan g _ (PrepareArtifactAction i at_) →
  journal_prepare_artifact_action io i at_ (j, db) = Ok (j', db', key) →
  mirrored handle g (j, db) →
  mirrored handle (upd g (Obs (PrepareArtifactAction i at_) (Ok key))) (j', db').
Proof.
  intros ([_ Hopen] & _) Hp [Hh Hw Hm Hma]. simpl in *.
  unfold journal_prepare_artifact_action in Hp.
  apply result_bind_Ok in Hp as (next & Hnext%ok_or_Ok%checked_succ_Some & Hp).
  apply result_bind_Ok in Hp as ([db1 h] & Hp%map_err_Ok & [= <- <- <-]).
  unfold prepare_cleanup_artifact_action in Hp. apply guard_Ok in Hp as [Hvalid Hp].
  pose proof (prepare_row_wf (jc:=artifact_codec) io _ _ at_ i db db1 h
                (proj1 (proj2 (proj2 Hw))) Hp) as Hwf'.
  pose proof (prepare_row_frame (jc:=artifact_codec) _ _ _ _ _ _ _ _ Hp) as [t1 Ht1].
  rewrite Hopen in Hma.
  pose proof (mirrors_prepare (JournalCodec0:=artifact_codec) _ _ _ _ _ _ _ _ _ _
    (artifact_action_key (prepared_id h)) _ Hma (f_equal attempt_id Hh) Hvalid Hp) as Hm'.
  destruct g as [st lg ws lk op fr de oa rm fz ac aa]. simpl in *. subst oa.
  split; simpl; [done| | |].
  - subst db1. unfold tables_wf in *. simpl in *. tauto.
  - subst db1. exact Hm.
  - rewrite Hnext. exact Hm'.
Qed.

Lemma mirrored_complete_artifact g j db io id d at_ j' db' :
  event_ok revalidator plan g _ (CompleteArtifactAction id d at_) →
  journal_complete_artifact_action io id d at_ (j, db) = Ok (j', db') →
  mirrored handle g (j, db) →
  mirrored handle (upd g (Obs (CompleteArtifactAction id d at_) (Ok tt))) (j', db').
Proof.
  intros [[i Hopen] _] Hp [Hh Hw Hm Hma]. simpl in *.
  unfold journal_complete_artifact_action in Hp.
  apply result_bind_Ok in Hp as (h & Hkey%ok_or_Ok & Hp).
  apply result_bind_Ok in Hp as (db1 & Hp%map_err_Ok & [= <- <-]).
  pose proof (complete_row_wf (jc:=artifact_codec) io h at_ d db db1
                (proj1 (proj2 (proj2 Hw))) Hp) as Hwf'.
  pose proof (complete_row_frame (jc:=artifact_codec) _ _ _ _ _ _ Hp) as Hframe.
  rewrite Hopen in Hma.
  pose proof (mirrors_complete (JournalCodec0:=artifact_codec) _ _ _ _ _ _ _ _ _ _ _ _ Hma Hkey Hp)
    as Hm'.
  destruct g as [st lg ws lk op fr de oa rm fz ac aa]. simpl in *. subst oa.
  split; simpl; [done| | |done].
  - destruct Hframe as [->|[t1 ->]]; [done|]. unfold tables_wf in *. simpl in *. tauto.
  - by destruct Hframe as [->|[t1 ->]].
Qed.

(** Events outside the journal change neither side's rows. *)
Lemma upd_rows g X (e : CleanupE X) x :
  match e with
  | PrepareAction _ _ | CompleteAction _ _ _ | PrepareArtifactAction _ _
  | CompleteArtifactAction _ _ _ => False
  | _ => True
  end →
  g_actions (upd g (Obs e x)) = g_actions g ∧ g_open (upd g (Obs e x)) = g_open g ∧
  g_artifact_actions (upd g (Obs e x)) = g_artifact_actions g ∧
  g_open_artifact (upd g (Obs e x)) = g_open_artifact g.
Proof.
  destruct g as [st lg ws lk op fr de oa rm fz ac aa].
  destruct e; intros []; simpl; repeat case_match; done.
Qed.

Lemma mirrored_step g s X (e : CleanupE X) x s' :
  event_ok revalidator plan g X e → journal_answers s (Obs e x) s' →
  mirrored handle g s → mirrored handle (upd g (Obs e x)) s'.
Proof.
  intros Hok Hans Hm. destruct s as [j db].
  destruct e; unfold journal_answers in Hans; cbn beta iota zeta in Hans;
    try (subst s';
         match goal with
         | |- mirrored _ (upd ?g (Obs ?e ?x)) _ =>
             destruct (upd_rows g _ e x I) as (Ha & Ho & Haa & Hoa)
         end;
         destruct Hm as [Hh Hw Hma Hmaa]; by split; rewrite ?Ha, ?Ho, ?Haa, ?Hoa).
  - destruct Hans as [io Hans].
    destruct (journal_prepare_action _ _ _ _) as [[[j' db'] key]|err] eqn:Hp; destruct Hans as [-> ->].
    + by eapply mirrored_prepare.
    + by destruct g.
  - destruct Hans as [io Hans].
    destruct (journal_complete_action _ _ _ _ _) as [[j' db']|err] eqn:Hp; destruct Hans as [-> ->].
    + by eapply mirrored_complete.
    + by destruct g.
  - destruct Hans as [io Hans].
    destruct (journal_prepare_artifact_action _ _ _ _) as [[[j' db'] key]|err] eqn:Hp;
      destruct Hans as [-> ->].
    + by eapply mirrored_prepare_artifact.
    + by destruct g.
  - destruct Hans as [io Hans].
    destruct (journal_complete_artifact_action _ _ _ _ _) as [[j' db']|err] eqn:Hp;
      destruct Hans as [-> ->].
    + by eapply mirrored_complete_artifact.
    + by destruct g.
Qed.

Lemma mirrored_run s tr s' :
  journalled (attempt_id handle) s tr s' →
  ∀ g, accepts upd (event_ok revalidator plan) g tr → mirrored handle g s →
       mirrored handle (fold_left upd tr g) s'.
Proof.
  induction 1 as [s|j db db' tr s' Hkeep Hj IH|s o s' tr s'' Hans Hj IH]; intros g Hacc Hm; [done| |].
  - apply IH; [done|]. by eapply mirrored_other.
  - destruct o as [X e x]. destruct Hacc as [Hok Hacc].
    cbn [fold_left]. apply IH; [done|]. by eapply mirrored_step.
Qed.
End Mirrored.

(** ** The beginning of an attempt *)

(** The open attempt of a handle has no rows yet. *)
Record attempt_begun (handle : CleanupAttemptHandle) (db : database) : Prop := {
  begun_wf : tables_wf db;
  begun_actions : ∀ k r, rows (action_rows db) !! k = Some r → row_attempt r ≠ attempt_id handle;
  begun_artifacts :
    ∀ k r, rows (artifact_rows db) !! k = Some r → row_attempt r ≠ attempt_id handle;
}.

Lemma mirrored_start handle db :
  attempt_begun handle db → mirrored handle ghost0 (journal_for handle, db).
Proof.
  intros [Hwf Ha Haa]. pose proof Hwf as (_ & [? ?] & [? ?] & _).
  split; simpl; [done|done| |]; by apply mirrors_start.
Qed.

(** ** The durable receipt *)

(** A row of the attempt without a disposition. *)
Definition has_prepared (attempt : Z) (db : database) : Prop :=
  (∃ k r, rows (action_rows db) !! k = Some r ∧ row_attempt r = attempt ∧
     row_disposition r = None) ∨
  (∃ k r, rows (artifact_rows db) !! k = Some r ∧ row_attempt r = attempt ∧
     row_disposition r = None).

Lemma mirrors_closed {S D I A : Type} `{EqDecision D, StoredText D, !JournalCodec S D I A}
    attempt next prepared t done :
  mirrors attempt next prepared t done None →
  collect_results codec_read (rows_for_attempt attempt t) = Ok done ∧
  ∀ k r, rows t !! k = Some r → row_attempt r = attempt → row_disposition r ≠ None.
Proof.
  intros [_ _ (closed & tail & Hrows & Hread & Hcl & ->)]. rewrite app_nil_r in Hrows.
  split; [by rewrite Hrows|]. intros k r Hk Ha.
  rewrite Forall_forall in Hcl. apply Hcl. rewrite <-Hrows. apply elem_of_rows_for_attempt. eauto.
Qed.

Lemma mirrors_open {S D I A : Type} `{EqDecision D, StoredText D, !JournalCodec S D I A}
    attempt next prepared t done key i :
  mirrors attempt next prepared t done (Some (key, i)) →
  ∃ k r, rows t !! k = Some r ∧ row_attempt r = attempt ∧ row_disposition r = None.
Proof.
  intros [_ _ (closed & tail & _ & _ & _ & h & row & _ & _ & Hrow & Ha & _ & _ & _ & Hd & _)].
  eauto.
Qed.

(** The durable journal agrees with the executor, whatever other threads write in
    between: after an execution on the journal of an attempt, its rows read back as
    exactly the actions and artifact actions of the receipt, in order, and none is
    left PREPARED, unless the execution ended with an action open; then a PREPARED
    row of the attempt is left for recovery. *)
Lemma durable_journal `{!IncidentRevalidator V} (revalidator : V) plan policy
    handle db tr res j db' :
  Forall (λ t, (target_pid t < 2 ^ 32)%N) (plan_targets plan) →
  runs (execute revalidator plan policy) tr res →
  attempt_begun handle db →
  journalled (attempt_id handle) (journal_for handle, db) tr (j, db') →
  match res with
  | Err (AttemptOpen _ _ _) => has_prepared (attempt_id handle) db'
  | _ => ¬ has_prepared (attempt_id handle) db' ∧
      actions_for_attempt db' (attempt_id handle) = Ok (actions (execution_receipt res)) ∧
      artifact_actions_for_attempt db' (attempt_id handle) =
        Ok (artifact_actions (execution_receipt res))
  end.
Proof.
  intros Hpids Hruns Hbegun Hj. apply mirrored_start in Hbegun.
  destruct (execution_sound _ _ _ _ _ Hruns) as [Hacc Hpost].
  pose proof (mirrored_run _ _ _ Hpids _ _ _ Hj _ Hacc Hbegun) as [_ _ Hm Hma].
  change (fold_left upd tr ghost0) with (ghost_of tr) in *. simpl in Hm, Hma.
  assert (∀ r, settled (ghost_of tr) r →
    ¬ has_prepared (attempt_id handle) db' ∧
    actions_for_attempt db' (attempt_id handle) = Ok (actions r) ∧
    artifact_actions_for_attempt db' (attempt_id handle) = Ok (artifact_actions r)) as Hsettled.
  { intros r [[Ha Haa] [Ho Hoa]]. rewrite Ho in Hm. rewrite Hoa in Hma.
    apply mirrors_closed in Hm as [Hread Hno], Hma as [Hread' Hno'].
    rewrite Ha, Haa. split_and!; [|exact Hread|exact Hread'].
    intros [(k & r' & Hk & Hr & Hd)|(k & r' & Hk & Hr & Hd)];
      [by apply (Hno k r')|by apply (Hno' k r')]. }
  destruct res as [r|[err r|err r id]]; simpl in Hpost |- *.
  - apply Hsettled, Hpost.
  - apply Hsettled, Hpost.
  - destruct Hpost as [_ [[i Ho]|[i Ho]]].
    + left. rewrite Ho in Hm. by eapply mirrors_open.
    + right. rewrite Ho in Hma. by eapply mirrors_open.
Qed.
