(* ===== verification/StoreSafety.v ===== *)
(** StoreSafety: the invariant of the cleanup tables and what recovery leaves behind.

    [store_wf] holds of the empty database and of every database the operations of
    [Journal.v] commit: at most one attempt is open, only its rows can be PREPARED,
    every row belongs to an attempt, every row satisfies its CHECK constraints and
    a retry block points at an attempt that ended badly. *)

From S2P Require Import Prelude Text Model Artifact Evidence Cleanup Effects Executor.
From S2P Require Import ExecutorSafety ExecutorGuarantees Analyzer Cooling Names Store Journal.
From S2P Require Import JournalFacts DurableRun.

(** ** The invariant *)

(** The rows of an action table against the attempts. *)
Record rows_wf {S} (check : journal_row S → bool) (attempts : table attempt_row)
    (t : table (journal_row S)) : Prop := {
  rows_wf_attempt : ∀ k r, rows t !! k = Some r → is_Some (rows attempts !! row_attempt r);
  rows_wf_prepared : ∀ k r a, rows t !! k = Some r → row_disposition r = None →
    rows attempts !! row_attempt r = Some a → attempt_completed_at_ms a = None;
  rows_wf_check : ∀ k r, rows t !! k = Some r → check r = true;
}.

Record store_wf (db : database) : Prop := {
  store_wf_tables : tables_wf db;
  store_wf_one_open : ∀ i j a b, rows (attempts db) !! i = Some a →
    rows (attempts db) !! j = Some b → attempt_completed_at_ms a = None →
    attempt_completed_at_ms b = None → i = j;
  store_wf_attempts : ∀ i a, rows (attempts db) !! i = Some a → attempt_check a = true;
  store_wf_actions : rows_wf action_check (attempts db) (action_rows db);
  store_wf_artifacts : rows_wf artifact_check (attempts db) (artifact_rows db);
  store_wf_blocks : ∀ incident b, retry_blocks db !! incident = Some b →
    ∃ a, rows (attempts db) !! block_source_attempt b = Some a ∧
      attempt_incident_id a = incident ∧
      (attempt_terminal_state a = Some "FAILED" ∨ attempt_terminal_state a = Some "REVIVED");
}.

Lemma new_database_wf namespace : store_wf (new_database namespace).
Proof.
  assert (∀ V, (table_wf (@empty_table V) ∧ 0 ≤ last_rowid (@empty_table V))%Z) as Ht.
  { intros V. split; [apply empty_table_wf|done]. }
  split; simpl.
  - repeat split; try apply empty_table_wf; done.
  - intros i j a b Hi. by rewrite lookup_empty in Hi.
  - intros i a Hi. by rewrite lookup_empty in Hi.
  - split; intros k r; simpl; by rewrite lookup_empty.
  - split; intros k r; simpl; by rewrite lookup_empty.
  - intros i b Hi. by rewrite lookup_empty in Hi.
Qed.

(** An attempt is open exactly while it has no terminal state. *)
Lemma attempt_open_terminal a :
  attempt_check a = true → attempt_terminal_state a = None ↔ attempt_completed_at_ms a = None.
Proof.
  unfold attempt_check. rewrite !andb_true_iff. intros (_ & Htog). unfold null_together in Htog.
  by destruct (attempt_completed_at_ms a), (attempt_terminal_state a).
Qed.

(** ** Frames *)

Section Frames.
Context `{JE : Json EventPayload, JR : Json CleanupResources, JP : Json (list N)} (random : token_source).

(** The tables the invariant is about. *)
Definition same_cleanup_tables (db db' : database) : Prop :=
  attempts db' = attempts db ∧ action_rows db' = action_rows db ∧
  artifact_rows db' = artifact_rows db ∧ retry_blocks db' = retry_blocks db.

Lemma insert_event_frame attempt at_ incident kind st payload db db' id :
  insert_event_transaction random attempt at_ incident kind st payload db = Ok (db', id) →
  same_cleanup_tables db db' ∧
  cooling db' = cooling db ∧ lifecycle db' = lifecycle db ∧
  (∃ row, table_insert "events" event_check row (events db) = Ok (events db', id) ∧
     row = mkEventRow incident (Z.of_N at_) (Z.of_N at_) 1 (event_kind_name kind) (state_name st)
             (json_to_string payload) attempt) ∧
  tokens db' = <[id := random id]> (tokens db).
Proof.
  unfold insert_event_transaction. intros He. inv_ok He. apply sqlite_millis_Ok in Hstep as [-> _].
  destruct x0 as [ev eid]. inv_ok He. unfold insert_public_event_token in Hstep. inv_ok Hstep.
  injection Hstep as <-. injection He as <- <-. simpl.
  split_and!; [done|done|done| |done]. eexists. split; [exact Hstep0|done].
Qed.

Lemma insert_impact_frame attempt event_id at_ receipt db db' :
  insert_cleanup_impact_transaction attempt event_id at_ receipt db = Ok db' →
  same_cleanup_tables db db' ∧ cooling db' = cooling db ∧ lifecycle db' = lifecycle db ∧
  events db' = events db ∧ tokens db' = tokens db.
Proof.
  unfold insert_cleanup_impact_transaction. intros He. inv_ok He.
  by injection He as <-.
Qed.

Lemma same_tables_wf db db' :
  same_cleanup_tables db db' →
  (table_wf (events db') ∧ 0 ≤ last_rowid (events db'))%Z → store_wf db → store_wf db'.
Proof.
  intros (Ha & Hac & Haa & Hb) Hev [Ht Ho Hat Hact Hart Hbl].
  split; rewrite ?Ha, ?Hac, ?Haa, ?Hb; try done.
  unfold tables_wf in *. rewrite Ha, Hac, Haa. tauto.
Qed.

Lemma insert_event_wf attempt at_ incident kind st payload db db' id :
  insert_event_transaction random attempt at_ incident kind st payload db = Ok (db', id) →
  store_wf db → store_wf db'.
Proof.
  intros (Hsame & _ & _ & (row & Hins & _) & _)%insert_event_frame Hwf.
  eapply same_tables_wf; [done| |done].
  destruct (store_wf_tables _ Hwf) as (_ & _ & _ & [Hw H0]).
  by pose proof (table_insert_wf _ _ _ _ _ _ Hw H0 Hins) as (? & ? & _).
Qed.

Lemma insert_impact_wf attempt event_id at_ receipt db db' :
  insert_cleanup_impact_transaction attempt event_id at_ receipt db = Ok db' →
  store_wf db → store_wf db'.
Proof.
  intros (Hsame & _ & _ & Hev & _)%insert_impact_frame Hwf.
  eapply same_tables_wf; [done| |done]. rewrite Hev. apply (store_wf_tables _ Hwf).
Qed.
End Frames.

(** ** Opening an attempt *)

Lemma open_incident_None db :
  open_incident db = None ↔
  ∀ i a, rows (attempts db) !! i = Some a → attempt_completed_at_ms a ≠ None.
Proof.
  unfold open_incident. split.
  - intros Hn i a Hi Hc.
    destruct (List.filter _ _) as [|e l] eqn:Hf; [|done].
    assert (In (i, a) []) as []. rewrite <-Hf. apply filter_In.
    split; [by apply list_elem_of_In, table_entries_elem|]. by apply attempt_open_iff.
  - intros Hall. destruct (List.filter _ _) as [|[i a] l] eqn:Hf; [done|].
    assert (In (i, a) ((i, a) :: l)) as Hin by (by left). rewrite <-Hf in Hin.
    apply filter_In in Hin as [Hin%list_elem_of_In%table_entries_elem Ho].
    apply attempt_open_iff in Ho. by destruct (Hall i a Hin).
Qed.

Section Operations.
Context `{JE : Json EventPayload, JR : Json CleanupResources, JP : Json (list N)}.
Context (random : token_source).

Lemma begin_Ok io at_ report epoch db db' h :
  begin_cleanup_attempt random io at_ report epoch db = Ok (db', h) →
  (state report = Confirmed ∧ cleanup_eligible (gates report) = true) ∧
  retry_blocks db !! incident_id report = None ∧ open_incident db = None ∧
  attempt_incident h = incident_id report ∧
  ∃ row t event_id,
    table_insert "cleanup_attempts" attempt_check row (attempts db) = Ok (t, attempt_id h) ∧
    attempt_incident_id row = incident_id report ∧
    attempt_tracking_key row = tracking_key report ∧
    started_at_ms row = Z.of_N at_ ∧
    attempt_completed_at_ms row = None ∧ attempt_terminal_state row = None ∧
    insert_event_transaction random (Some (attempt_id h)) at_ (incident_id report) KindCleanup
      Reclaiming (PayloadCleanup (started_receipt (incident_id report))) (db <| attempts := t |>) =
      Ok (db', event_id).
Proof.
  unfold begin_cleanup_attempt. intros Hb. inv_ok Hb.
  apply sqlite_millis_Ok in Hstep as [-> _].
  apply bool_decide_eq_true in Hguard1. apply andb_true_iff in Hguard as [Hst Hel].
  apply bool_decide_eq_true in Hst.
  destruct (open_incident db) eqn:Ho; [done|]. inv_ok Hb. destruct x1 as [t id].
  inv_ok Hb. destruct x1 as [db1 ev]. injection Hb as <- <-. simpl in *.
  split_and!; [done..|]. eexists _, t, ev. by split_and!.
Qed.

Lemma rows_wf_grow {S} check (t : table (journal_row S)) ats ats' :
  rows_wf check ats t →
  (∀ i a, rows ats !! i = Some a → rows ats' !! i = Some a) → rows_wf check ats' t.
Proof.
  intros [Hfk Hprep Hchk] Hgrow. split; [| |done].
  - intros k r Hk. destruct (Hfk k r Hk) as [a Ha]. eauto.
  - intros k r a Hk Hd Ha. destruct (Hfk k r Hk) as [a' Ha'].
    pose proof (Hgrow _ _ Ha'). assert (a' = a) as -> by congruence. eauto.
Qed.

Lemma begin_wf io at_ report epoch db db' h :
  begin_cleanup_attempt random io at_ report epoch db = Ok (db', h) → store_wf db → store_wf db'.
Proof.
  intros (_ & _ & Ho & _ & row & t & ev & Hins & _ & _ & _ & Hopen & _ & Hev)%begin_Ok Hwf.
  eapply insert_event_wf; [exact Hev|].
  destruct (store_wf_tables _ Hwf) as ([Hw H0] & Hw2 & Hw3 & Hw4).
  pose proof (table_insert_wf _ _ _ _ _ _ Hw H0 Hins) as (Hw' & H0' & Hfresh).
  apply table_insert_Ok in Hins as (Hchk & Hid & -> & _).
  pose proof (proj1 (open_incident_None db) Ho) as Hnone.
  assert (∀ i a, rows (attempts db) !! i = Some a →
    <[attempt_id h := row]> (rows (attempts db)) !! i = Some a) as Hgrow.
  { intros i a Hi. rewrite lookup_insert_ne; [done|]. intros <-. congruence. }
  destruct Hwf as [_ Hone Hat Hact Hart Hbl]. split; simpl.
  - unfold tables_wf. simpl in *. tauto.
  - intros i j a b [[<- <-]|[Hi Ha]]%lookup_insert_Some [[<- <-]|[Hj Hb]]%lookup_insert_Some
      Hca Hcb; [done|by apply Hnone in Hb|by apply Hnone in Ha|eauto].
  - intros i a [[<- <-]|[_ Ha]]%lookup_insert_Some; [done|eauto].
  - by eapply rows_wf_grow.
  - by eapply rows_wf_grow.
  - intros incident b Hb. destruct (Hbl incident b Hb) as (a & Ha & Hrest). eauto.
Qed.

(** The handle of a new attempt is fresh. *)
Lemma begin_begun io at_ report epoch db db' h :
  begin_cleanup_attempt random io at_ report epoch db = Ok (db', h) → store_wf db →
  attempt_begun h db'.
Proof.
  intros Hb Hwf. pose proof (begin_wf _ _ _ _ _ _ _ Hb Hwf) as Hwf'.
  apply begin_Ok in Hb as (_ & _ & _ & _ & row & t & ev & Hins & _ & _ & _ & _ & _ & Hev).
  apply insert_event_frame in Hev as ((_ & Hac & Haa & _) & _). simpl in Hac, Haa.
  destruct (store_wf_tables _ Hwf) as ([Hw H0] & _).
  pose proof (table_insert_wf _ _ _ _ _ _ Hw H0 Hins) as (_ & _ & Hfresh).
  split; [apply store_wf_tables, Hwf'| |]; rewrite ?Hac, ?Haa; intros k r Hk Ha.
  - destruct (rows_wf_attempt _ _ _ (store_wf_actions _ Hwf) k r Hk) as [a Hat]. congruence.
  - destruct (rows_wf_attempt _ _ _ (store_wf_artifacts _ Hwf) k r Hk) as [a Hat]. congruence.
Qed.
End Operations.

(** ** Actions *)

Section ActionRows.
Context {S D : Type} `{EqDecision D, StoredText D} (jt : journal_table S D).
Context (jt_get_set : ∀ t db, jt_rows jt (jt_set jt t db) = t).

Lemma prepare_row_rows_wf io handle sequence at_ subject db db' h :
  table_wf (jt_rows jt db) → (0 ≤ last_rowid (jt_rows jt db))%Z →
  rows_wf (jt_check jt) (attempts db) (jt_rows jt db) →
  prepare_row jt io handle sequence at_ subject db = Ok (db', h) →
  rows_wf (jt_check jt) (attempts db) (jt_rows jt db').
Proof.
  intros Hw H0 [Hfk Hprep Hchk] ((stored & Hst & Hopen) & _ & t & Hins & -> & _)%prepare_row_Ok.
  rewrite jt_get_set. apply table_insert_Ok in Hins as (Hc & _ & -> & _).
  split; simpl; intros k r.
  - intros [[<- <-]|[_ Hk]]%lookup_insert_Some; [by eexists|eauto].
  - intros a [[<- <-]|[_ Hk]]%lookup_insert_Some Hd Ha; [simpl in Ha; congruence|eauto].
  - intros [[<- <-]|[_ Hk]]%lookup_insert_Some; [done|eauto].
Qed.

(** An UPDATE that keeps attempts and adds dispositions. *)
Lemma update_rows_wf name P f ats t t' :
  rows_wf (jt_check jt) ats t → table_update name (jt_check jt) P f t = Ok t' →
  (∀ r, row_attempt (f r) = row_attempt r ∧ row_disposition (f r) ≠ None) →
  rows_wf (jt_check jt) ats t'.
Proof.
  intros [Hfk Hprep Hchk] Hu Hf.
  pose proof (λ k, table_update_lookup _ _ _ _ _ _ k Hu) as Hl.
  apply table_update_Ok in Hu as [Hc _].
  assert (∀ k r, rows t' !! k = Some r → ∃ r0, rows t !! k = Some r0 ∧
    (r = r0 ∨ P k r0 = true ∧ r = f r0)) as Hinv.
  { intros k r. rewrite Hl. destruct (rows t !! k) as [r0|] eqn:E; [|done].
    intros [= <-]. exists r0. split; [done|]. destruct (P k r0); auto. }
  split; intros k r.
  - intros (r0 & Hk & [->|[_ ->]])%Hinv; [eauto|]. rewrite (proj1 (Hf r0)). eauto.
  - intros a (r0 & Hk & [->|[_ ->]])%Hinv; [eauto|]. intros Hd. by destruct (proj2 (Hf r0)).
  - intros (r0 & Hk & [->|[HP ->]])%Hinv; eauto.
Qed.

Lemma complete_row_rows_wf io h at_ (d : D) ats db db' :
  rows_wf (jt_check jt) ats (jt_rows jt db) →
  complete_row jt io h at_ d db = Ok db' → rows_wf (jt_check jt) ats (jt_rows jt db').
Proof.
  intros Hwf (stored & _ & _ & _ & Hc)%complete_row_Ok.
  destruct (row_disposition stored); [by destruct Hc as [_ ->]|].
  destruct Hc as (t & Hu & ->). rewrite jt_get_set. by eapply update_rows_wf.
Qed.
End ActionRows.

Lemma prepare_action_wf io handle sequence at_ intent db db' h :
  prepare_cleanup_action io handle sequence at_ intent db = Ok (db', h) →
  store_wf db → store_wf db'.
Proof.
  unfold prepare_cleanup_action. intros [_ Hp]%guard_Ok [Ht Hone Hat Hact Hart Hbl].
  pose proof Ht as (Ht1 & [Hw H0] & Ht3).
  pose proof (prepare_row_rows_wf process_journal (λ _ _, eq_refl) _ _ _ _ _ _ _ _ Hw H0 Hact Hp).
  pose proof (prepare_row_wf (jc:=process_codec) _ _ _ _ intent _ _ _ (conj Hw H0) Hp).
  apply (prepare_row_frame (jc:=process_codec)) in Hp as [t ->]. simpl in *.
  by split; simpl; try done; unfold tables_wf; simpl; tauto.
Qed.

Lemma complete_action_wf io h at_ d db db' :
  complete_cleanup_action io h at_ d db = Ok db' → store_wf db → store_wf db'.
Proof.
  unfold complete_cleanup_action. intros Hp [Ht Hone Hat Hact Hart Hbl].
  pose proof Ht as (Ht1 & [Hw H0] & Ht3).
  pose proof (complete_row_rows_wf process_journal (λ _ _, eq_refl) _ _ _ _ _ _ _ Hact Hp).
  pose proof (complete_row_wf (jc:=process_codec) _ _ _ _ _ _ (conj Hw H0) Hp).
  apply (complete_row_frame (jc:=process_codec)) in Hp as [->|[t ->]]; [done|]. simpl in *.
  by split; simpl; try done; unfold tables_wf; simpl; tauto.
Qed.

Lemma prepare_artifact_wf io handle sequence at_ intent db db' h :
  prepare_cleanup_artifact_action io handle sequence at_ intent db = Ok (db', h) →
  store_wf db → store_wf db'.
Proof.
  unfold prepare_cleanup_artifact_action. intros [_ Hp]%guard_Ok [Ht Hone Hat Hact Hart Hbl].
  pose proof Ht as (Ht1 & Ht2 & [Hw H0] & Ht4).
  pose proof (prepare_row_rows_wf artifact_journal (λ _ _, eq_refl) _ _ _ _ _ _ _ _ Hw H0 Hart Hp).
  pose proof (prepare_row_wf (jc:=artifact_codec) _ _ _ _ intent _ _ _ (conj Hw H0) Hp).
  apply (prepare_row_frame (jc:=artifact_codec)) in Hp as [t ->]. simpl in *.
  by split; simpl; try done; unfold tables_wf; simpl; tauto.
Qed.

Lemma complete_artifact_wf io h at_ d db db' :
  complete_cleanup_artifact_action io h at_ d db = Ok db' → store_wf db → store_wf db'.
Proof.
  unfold complete_cleanup_artifact_action. intros Hp [Ht Hone Hat Hact Hart Hbl].
  pose proof Ht as (Ht1 & Ht2 & [Hw H0] & Ht4).
  pose proof (complete_row_rows_wf artifact_journal (λ _ _, eq_refl) _ _ _ _ _ _ _ Hart Hp).
  pose proof (complete_row_wf (jc:=artifact_codec) _ _ _ _ _ _ (conj Hw H0) Hp).
  apply (complete_row_frame (jc:=artifact_codec)) in Hp as [->|[t ->]]; [done|]. simpl in *.
  by split; simpl; try done; unfold tables_wf; simpl; tauto.
Qed.

Lemma authorize_retry_wf io incident at_ db db' b :
  authorize_retry io incident at_ db = Ok (db', b) → store_wf db → store_wf db'.
Proof.
  unfold authorize_retry. intros Ha [Ht Hone Hat Hact Hart Hbl]. inv_ok Ha.
  destruct (retry_blocks db !! incident) as [blk|]; injection Ha as <- <-; [|done].
  split; simpl; try done. intros i b [_ Hb]%lookup_delete_Some. eauto.
Qed.

(** ** Closing an attempt *)

(** The terminal form of an attempt. *)
Definition closed_row (completed_at : Z) (st : IncidentState) (reason : option string)
    (survivors : string) (checks : Z) (stored_resources : string) (r : attempt_row) : attempt_row :=
  r <| attempt_completed_at_ms := Some completed_at |>
    <| attempt_terminal_state := Some (state_name st) |>
    <| attempt_reason_id := reason |>
    <| survivor_pids_json := Some survivors |>
    <| attempt_revival_checks := checks |>
    <| resources_json := Some stored_resources |>.

Lemma close_attempt_Ok id at_ st reason survivors checks res db db' :
  close_attempt id at_ st reason survivors checks res db = Ok db' →
  ∃ t, db' = db <| attempts := t |> ∧ last_rowid t = last_rowid (attempts db) ∧
    (∀ i, rows t !! i = (λ a, if bool_decide (i = id) && attempt_open a
                              then closed_row at_ st reason survivors checks res a else a)
                        <$> rows (attempts db) !! i) ∧
    (∀ a, rows (attempts db) !! id = Some a → attempt_open a = true →
       attempt_check (closed_row at_ st reason survivors checks res a) = true).
Proof.
  unfold close_attempt. intros Hc. inv_ok Hc. injection Hc as <-.
  pose proof (λ i, table_update_lookup _ _ _ _ _ _ i Hstep) as Hl.
  apply table_update_Ok in Hstep as [Hchk Ht]. exists x.
  split_and!; [done|by subst x|done|]. intros a Ha Ho. apply (Hchk id a Ha).
  by rewrite bool_decide_eq_true_2, Ho.
Qed.

(** The rows of the attempt all have a disposition. *)
Definition settled_rows (attempt : Z) (db : database) : Prop := ¬ has_prepared attempt db.

Lemma close_attempt_wf id at_ st reason survivors checks res db db' :
  close_attempt id at_ st reason survivors checks res db = Ok db' →
  settled_rows id db → store_wf db → store_wf db'.
Proof.
  intros (t & -> & Hlast & Hl & Hchk)%close_attempt_Ok Hset [Ht Hone Hat Hact Hart Hbl].
  assert (∀ i a, rows t !! i = Some a → attempt_completed_at_ms a = None →
    rows (attempts db) !! i = Some a) as Hopen.
  { intros i a. rewrite Hl. destruct (rows (attempts db) !! i) as [a0|] eqn:E; [|done].
    simpl. intros [= <-]. destruct (_ && _); [done|]. done. }
  assert (∀ i a, rows t !! i = Some a → ∃ a0, rows (attempts db) !! i = Some a0 ∧
    attempt_incident_id a = attempt_incident_id a0 ∧
    (a = a0 ∨ i = id ∧ attempt_open a0 = true ∧
              a = closed_row at_ st reason survivors checks res a0)) as Hinv.
  { intros i a. rewrite Hl. destruct (rows (attempts db) !! i) as [a0|] eqn:E; [|done].
    simpl. intros [= <-]. exists a0. split; [done|].
    destruct (bool_decide (i = id)) eqn:Hi; simpl; [|auto].
    destruct (attempt_open a0) eqn:Ho; simpl; [|auto].
    apply bool_decide_eq_true in Hi. auto. }
  assert (∀ S check (tb : table (journal_row S)), rows_wf check (attempts db) tb →
    (∀ k r, rows tb !! k = Some r → row_attempt r = id → row_disposition r ≠ None) →
    rows_wf check t tb) as Hrows.
  { intros S check tb [Hfk Hprep Hc] Hno. split; [| |done].
    - intros k r Hk. rewrite Hl. destruct (Hfk k r Hk) as [a ->]. simpl. eauto.
    - intros k r a Hk Hd Ha. destruct (Hinv _ _ Ha) as (a0 & Ha0 & _ & [->|(Hi & _ & _)]).
      + eauto.
      + by destruct (Hno k r Hk Hi). }
  split; simpl.
  - assert (table_wf t) as Hwt.
    { intros i a (a0 & Ha0 & _)%Hinv. rewrite Hlast. destruct Ht as ([Hw _] & _). eauto. }
    unfold tables_wf in *. simpl. rewrite Hlast. tauto.
  - intros i j a b Ha Hb Hca Hcb. eauto.
  - intros i a (a0 & Ha0 & _ & [->|(-> & Ho & ->)])%Hinv; eauto.
  - apply Hrows; [done|]. intros k r Hk Hr Hd. apply Hset. left. eauto.
  - apply Hrows; [done|]. intros k r Hk Hr Hd. apply Hset. right. eauto.
  - intros incident b Hb. destruct (Hbl incident b Hb) as (a & Ha & Hinc & Hterm).
    exists a. split; [|done]. rewrite Hl, Ha. simpl.
    destruct (attempt_open a) eqn:Ho; [|by rewrite andb_false_r].
    apply attempt_open_iff, (attempt_open_terminal a (Hat _ _ Ha)) in Ho.
    rewrite Ho in Hterm. naive_solver.
Qed.

(** The attempt that was open is closed. *)
Lemma close_attempt_closes id at_ st reason survivors checks res db db' a :
  close_attempt id at_ st reason survivors checks res db = Ok db' →
  rows (attempts db) !! id = Some a → attempt_completed_at_ms a = None →
  rows (attempts db') !! id = Some (closed_row at_ st reason survivors checks res a).
Proof.
  intros (t & -> & _ & Hl & _)%close_attempt_Ok Ha Ho%attempt_open_iff. simpl.
  rewrite Hl, Ha. simpl. by rewrite bool_decide_eq_true_2, Ho.
Qed.

Lemma insert_retry_block_wf incident key at_ reason id a db :
  rows (attempts db) !! id = Some a → attempt_incident_id a = incident →
  (attempt_terminal_state a = Some "FAILED" ∨ attempt_terminal_state a = Some "REVIVED") →
  store_wf db → store_wf (insert_retry_block incident key at_ reason id db).
Proof.
  intros Ha Hinc Hterm [Ht Hone Hat Hact Hart Hbl]. split; simpl; try done.
  intros i b [[<- <-]|[_ Hb]]%lookup_insert_Some; [|eauto]. simpl. eauto.
Qed.

(** No PREPARED row is counted. *)
Lemma prepared_count_settled attempt db :
  (table_count (λ _, is_prepared attempt) (action_rows db) ≤ 0)%Z →
  (table_count (λ _, is_prepared attempt) (artifact_rows db) ≤ 0)%Z →
  settled_rows attempt db.
Proof.
  rewrite !table_count_zero, !table_exists_false.
  intros Ha Haa [(k & r & Hk & Hr & Hd)|(k & r & Hk & Hr & Hd)].
  - specialize (Ha k r Hk). unfold is_prepared in Ha.
    by rewrite !bool_decide_eq_true_2 in Ha.
  - specialize (Haa k r Hk). unfold is_prepared in Haa.
    by rewrite !bool_decide_eq_true_2 in Haa.
Qed.

(** ** Completing an attempt *)

Section Completion.
Context `{JE : Json EventPayload, JR : Json CleanupResources, JP : Json (list N)}.
Context (random : token_source).

(** The states [complete_cleanup_attempt] accepts. *)
Definition terminal_state (st : IncidentState) : Prop := st ∈ [Cleared; Failed; Revived].

Lemma write_terminal_Ok handle key at_ at_ms projected db db' :
  write_terminal_state random handle key at_ at_ms projected db = Ok db' →
  ∃ checks db1 db2 event_id,
    close_attempt (attempt_id handle) at_ (receipt_state projected) (reason_id projected)
      (json_to_string (survivor_pids projected)) checks (json_to_string (resources projected)) db =
      Ok db1 ∧
    insert_event_transaction random (Some (attempt_id handle)) at_ms
      (receipt_incident_id projected) KindCleanup (receipt_state projected)
      (PayloadCleanup projected)
      (if bool_decide (receipt_state projected ∈ [Failed; Revived])
       then insert_retry_block (receipt_incident_id projected) key at_ (reason_id projected)
              (attempt_id handle) db1
       else db1) = Ok (db2, event_id) ∧
    insert_cleanup_impact_transaction (attempt_id handle) event_id at_ms projected db2 = Ok db'.
Proof.
  unfold write_terminal_state.
  intros (x & _ & (db1 & Hclose & ([db2 ev] & Hev & Hw)%result_bind_Ok)%result_bind_Ok)%result_bind_Ok.
  by exists x, db1, db2, ev.
Qed.

Lemma projected_receipt_fields handle terminal acts aacts stored :
  let r := projected_receipt handle terminal acts aacts stored in
  receipt_incident_id r = attempt_incident handle ∧ receipt_state r = receipt_state terminal ∧
  actions r = acts ∧ artifact_actions r = aacts ∧ survivor_pids r = survivor_pids terminal ∧
  revival_checks_completed r = revival_checks_completed terminal ∧
  (resources r = stored ∨ resources r = mkCleanupResources (before stored) (after stored) None).
Proof. unfold projected_receipt. destruct (ended_without_intervention _); naive_solver. Qed.

Lemma complete_Ok io handle at_ terminal db db' receipt :
  complete_cleanup_attempt random io handle at_ terminal db = Ok (db', receipt) →
  terminal_state (receipt_state terminal) ∧ receipt_incident_id terminal = attempt_incident handle ∧
  ∃ stored, rows (attempts db) !! attempt_id handle = Some stored ∧
    attempt_incident_id stored = attempt_incident handle ∧
    match attempt_terminal_state stored with
    | Some name =>
        name = state_name (receipt_state terminal) ∧ db' = db ∧
        terminal_receipt_for_attempt db (attempt_id handle) = Ok receipt
    | None =>
        settled_rows (attempt_id handle) db ∧
        ∃ acts aacts stored_resources,
          actions_for_attempt db (attempt_id handle) = Ok acts ∧
          artifact_actions_for_attempt db (attempt_id handle) = Ok aacts ∧
          String.length (json_to_string (resources terminal)) ≤ MAX_RESOURCE_RECEIPT_BYTES ∧
          json_from_str (json_to_string (resources terminal)) = Ok stored_resources ∧
          receipt = projected_receipt handle terminal acts aacts stored_resources ∧
          write_terminal_state random handle (attempt_tracking_key stored) (Z.of_N at_) at_
            receipt db = Ok db'
    end.
Proof.
  unfold complete_cleanup_attempt. intros Hc. inv_ok Hc.
  apply bool_decide_eq_true in Hguard, Hguard0. apply sqlite_millis_Ok in Hstep as [-> _].
  apply handle_attempt_Ok in Hstep0 as [Hst Hinc].
  split_and!; [done|done|]. exists x0. split_and!; [done..|].
  destruct (attempt_terminal_state x0) as [name|].
  - inv_ok Hc. apply (@stored_name_parse _ stored_state) in Hstep.
    apply bool_decide_eq_true in Hguard1. subst. by injection Hc as <- <-.
  - apply guard_Ok in Hc as [[H1%bool_decide_eq_true H2%bool_decide_eq_true]%andb_true_iff Hc].
    apply result_bind_Ok in Hc as (acts & Hacts & (aacts & Haacts & Hc)%result_bind_Ok).
    apply guard_Ok in Hc as [Hlen%bool_decide_eq_true Hc].
    apply result_bind_Ok in Hc as (res & Hres%map_err_Ok & (db1 & Hw & [= <- <-])%result_bind_Ok).
    split; [by apply prepared_count_settled|]. exists acts, aacts, res. by split_and!.
Qed.

Lemma write_terminal_wf handle key at_ at_ms projected db db' a :
  write_terminal_state random handle key at_ at_ms projected db = Ok db' →
  rows (attempts db) !! attempt_id handle = Some a → attempt_completed_at_ms a = None →
  attempt_incident_id a = receipt_incident_id projected →
  settled_rows (attempt_id handle) db → store_wf db → store_wf db'.
Proof.
  intros (checks & db1 & db2 & ev & Hclose & Hev & Himp)%write_terminal_Ok Ha Hopen Hinc Hset Hwf.
  eapply insert_impact_wf; [exact Himp|]. eapply insert_event_wf; [exact Hev|].
  pose proof (close_attempt_closes _ _ _ _ _ _ _ _ _ _ Hclose Ha Hopen) as Ha'.
  apply close_attempt_wf in Hclose; [|done..].
  case_bool_decide as Hbad; [|done]. eapply insert_retry_block_wf; [exact Ha'|done| |done].
  simpl. apply elem_of_cons in Hbad as [-> | ->%list_elem_of_singleton]; auto.
Qed.

Lemma complete_wf io handle at_ terminal db db' receipt :
  complete_cleanup_attempt random io handle at_ terminal db = Ok (db', receipt) →
  store_wf db → store_wf db'.
Proof.
  intros (_ & _ & stored & Hst & Hinc & Hc)%complete_Ok Hwf.
  destruct (attempt_terminal_state stored) eqn:Hterm; [by destruct Hc as (_ & -> & _)|].
  destruct Hc as (Hset & acts & aacts & res & _ & _ & _ & _ & -> & Hw).
  apply attempt_open_terminal in Hterm; [|by eapply store_wf_attempts].
  eapply write_terminal_wf; [exact Hw|done|done| |done|done].
  rewrite Hinc. symmetry. apply projected_receipt_fields.
Qed.
End Completion.

(** ** Recovery *)

(** A PREPARED row of the attempt is resolved as delivery-unknown; nothing else
    changes. *)
Definition resolved_row {S} (attempt at_ : Z) (r : journal_row S) : journal_row S :=
  if is_prepared attempt r
  then mkJournalRow (row_attempt r) (row_sequence r) (row_prepared_at_ms r) (Some at_)
         (row_subject r) (Some "delivery_unknown")
  else r.

Section Resolve.
Context {S D : Type} (jt : journal_table S D).

Lemma resolve_prepared_Ok attempt at_ db db' :
  resolve_prepared jt attempt at_ db = Ok db' →
  ∃ t, db' = jt_set jt t db ∧ last_rowid t = last_rowid (jt_rows jt db) ∧
    (∀ k, rows t !! k = resolved_row attempt at_ <$> rows (jt_rows jt db) !! k) ∧
    (table_wf (jt_rows jt db) → table_wf t) ∧
    (∀ ats, rows_wf (jt_check jt) ats (jt_rows jt db) → rows_wf (jt_check jt) ats t).
Proof.
  unfold resolve_prepared. intros (t & Hu & [= <-])%result_bind_Ok. exists t.
  split_and!; [done| | | |].
  - by apply table_update_Ok in Hu as [_ ->].
  - intros k. by rewrite (table_update_lookup _ _ _ _ _ _ k Hu).
  - intros Hw. by apply (table_update_wf _ _ _ _ _ _ Hw Hu).
  - intros ats Hwf. by eapply update_rows_wf.
Qed.
End Resolve.

Lemma resolved_not_prepared {S} attempt at_ (r : journal_row S) :
  is_prepared attempt (resolved_row attempt at_ r) = false.
Proof.
  unfold resolved_row. destruct (is_prepared attempt r) eqn:E; [|done].
  unfold is_prepared. simpl. by rewrite andb_false_r.
Qed.

Section Recovery.
Context `{JE : Json EventPayload, JR : Json CleanupResources, JP : Json (list N)}.
Context (random : token_source).

(** What recovering one attempt does to the tables. *)
Record recovers (id at_ : Z) (a : attempt_row) (db db' : database) : Prop := {
  recovers_actions :
    ∀ k, rows (action_rows db') !! k = resolved_row id at_ <$> rows (action_rows db) !! k;
  recovers_artifacts :
    ∀ k, rows (artifact_rows db') !! k = resolved_row id at_ <$> rows (artifact_rows db) !! k;
  recovers_attempt : ∃ a', rows (attempts db') !! id = Some a' ∧
    attempt_incident_id a' = attempt_incident_id a ∧
    attempt_terminal_state a' = Some "FAILED" ∧ attempt_completed_at_ms a' = Some at_;
  recovers_others : ∀ i, i ≠ id → rows (attempts db') !! i = rows (attempts db) !! i;
  recovers_blocks : retry_blocks db' =
    <[attempt_incident_id a :=
        mkBlockRow (attempt_tracking_key a) at_ (Some (interruption_reason id db)) id None None]>
      (retry_blocks db);
}.

Lemma recover_attempt_Ok at_ at_ms id a db db' receipt :
  recover_attempt random at_ at_ms id a db = Ok (db', receipt) →
  rows (attempts db) !! id = Some a → attempt_completed_at_ms a = None → store_wf db →
  store_wf db' ∧ recovers id at_ a db db' ∧ receipt_state receipt = Failed ∧
  receipt_incident_id receipt = attempt_incident_id a ∧
  reason_id receipt = Some (interruption_reason id db).
Proof.
  unfold recover_attempt. intros Hr Ha Hopen Hwf.
  apply result_bind_Ok in Hr as (db1 & H1 & (db2 & H2 & Hr)%result_bind_Ok).
  apply result_bind_Ok in Hr as (acts & _ & (aacts & _ & Hr)%result_bind_Ok).
  apply result_bind_Ok in Hr as (db3 & Hclose & ([db4 ev] & Hev & Hr)%result_bind_Ok).
  apply result_bind_Ok in Hr as (db5 & Himp & [= <- <-]).
  apply (resolve_prepared_Ok process_journal) in H1
    as (t1 & -> & Hl1 & Hk1 & Hw1 & Hr1).
  apply (resolve_prepared_Ok artifact_journal) in H2
    as (t2 & -> & Hl2 & Hk2 & Hw2 & Hr2). simpl in *.
  assert (store_wf (db <| action_rows := t1 |> <| artifact_rows := t2 |>)) as Hwf2.
  { destruct Hwf as [Ht Hone Hat Hact Hart Hbl]. unfold tables_wf in Ht.
    split; simpl; try done; [|by apply Hr1|by apply Hr2].
    unfold tables_wf. simpl. rewrite Hl1, Hl2. tauto. }
  assert (settled_rows id (db <| action_rows := t1 |> <| artifact_rows := t2 |>)) as Hset.
  { intros [(k & r & Hk & Hr & Hd)|(k & r & Hk & Hr & Hd)]; simpl in Hk.
    - rewrite Hk1 in Hk. destruct (rows (action_rows db) !! k) as [r0|]; [|done].
      injection Hk as <-. pose proof (resolved_not_prepared id at_ r0) as Hp.
      unfold is_prepared in Hp. by rewrite !bool_decide_eq_true_2 in Hp.
    - rewrite Hk2 in Hk. destruct (rows (artifact_rows db) !! k) as [r0|]; [|done].
      injection Hk as <-. pose proof (resolved_not_prepared id at_ r0) as Hp.
      unfold is_prepared in Hp. by rewrite !bool_decide_eq_true_2 in Hp. }
  pose proof (close_attempt_closes _ _ _ _ _ _ _ _ _ a Hclose Ha Hopen) as Ha'.
  pose proof (close_attempt_wf _ _ _ _ _ _ _ _ _ Hclose Hset Hwf2) as Hwf3.
  pose proof (insert_retry_block_wf (attempt_incident_id a) (attempt_tracking_key a) at_
    (Some (interruption_reason id db)) id _ _ Ha' eq_refl (or_introl eq_refl) Hwf3) as Hwf4.
  pose proof (insert_event_wf _ _ _ _ _ _ _ _ _ _ Hev Hwf4) as Hwf5.
  pose proof (insert_impact_wf _ _ _ _ _ _ Himp Hwf5) as Hwf6.
  apply insert_event_frame in Hev as ((Hea & Heac & Heaa & Heb) & _).
  apply insert_impact_frame in Himp as ((Hia & Hiac & Hiaa & Hib) & _). simpl in *.
  apply close_attempt_Ok in Hclose as (t3 & -> & _ & Hl3 & _). simpl in *.
  split_and!; try done. split; rewrite ?Hiac, ?Hiaa, ?Hia, ?Hib, ?Heac, ?Heaa, ?Hea, ?Heb;
    simpl; try done.
  - eexists. split; [exact Ha'|done].
  - intros i Hi. rewrite Hl3. destruct (rows (attempts db) !! i); [|done]. simpl.
    by rewrite bool_decide_eq_false_2.
Qed.

(** At most one attempt has to be recovered. *)
Lemma open_attempts_cases db :
  store_wf db →
  (List.filter (attempt_open ∘ snd) (table_entries (attempts db)) = [] ∧
   ∀ i a, rows (attempts db) !! i = Some a → attempt_completed_at_ms a ≠ None) ∨
  ∃ id a, List.filter (attempt_open ∘ snd) (table_entries (attempts db)) = [(id, a)] ∧
    rows (attempts db) !! id = Some a ∧ attempt_completed_at_ms a = None ∧
    ∀ i b, rows (attempts db) !! i = Some b → attempt_completed_at_ms b = None → i = id.
Proof.
  intros Hwf.
  assert (∀ e, e ∈ List.filter (attempt_open ∘ snd) (table_entries (attempts db)) ↔
    rows (attempts db) !! e.1 = Some e.2 ∧ attempt_completed_at_ms e.2 = None) as Hin.
  { intros [i a]. rewrite list_elem_of_In, filter_In, <-list_elem_of_In, table_entries_elem.
    simpl. by rewrite attempt_open_iff. }
  assert (StronglySorted key_lt (List.filter (attempt_open ∘ snd) (table_entries (attempts db))))
    as Hs by apply filter_sorted, table_entries_sorted.
  destruct (List.filter _ _) as [|[id a] l].
  - left. split; [done|]. intros i a Ha Hc. assert ((i, a) ∈ []) as []%elem_of_nil. by apply Hin.
  - right. exists id, a. destruct (proj1 (Hin (id, a))) as [Ha Hc]; [by left|]. simpl in *.
    split_and!; try done.
    + destruct l as [|[j b] l]; [done|]. destruct (proj1 (Hin (j, b))) as [Hb Hcb]; [by right; left|].
      apply StronglySorted_cons in Hs as [Hall _]. apply Forall_cons in Hall as [Hlt _].
      unfold key_lt in Hlt. simpl in *. rewrite (store_wf_one_open _ Hwf _ _ _ _ Ha Hb Hc Hcb) in Hlt.
      lia.
    + intros i b Hb Hcb. by eapply store_wf_one_open.
Qed.

(** The attempts that were open are closed as Failed, with a retry block. *)
Definition closed_by_recovery (at_ : Z) (db db' : database) : Prop :=
  ∀ id a, rows (attempts db) !! id = Some a → attempt_completed_at_ms a = None →
    (∃ a', rows (attempts db') !! id = Some a' ∧ attempt_terminal_state a' = Some "FAILED" ∧
       attempt_completed_at_ms a' = Some at_) ∧
    ∃ b, retry_blocks db' !! attempt_incident_id a = Some b ∧ block_source_attempt b = id ∧
      block_reason_id b = Some (interruption_reason id db).

(** A row keeps what it is about and its disposition; without one it is now
    delivery-unknown. *)
Definition rows_resolved {S} (t t' : table (journal_row S)) : Prop :=
  ∀ k r, rows t !! k = Some r → ∃ r', rows t' !! k = Some r' ∧
    row_attempt r' = row_attempt r ∧ row_sequence r' = row_sequence r ∧
    row_subject r' = row_subject r ∧
    row_disposition r' = match row_disposition r with
                         | Some d => Some d
                         | None => Some "delivery_unknown"
                         end.

Lemma recover_Ok io now db db' receipts :
  recover_incomplete_attempts random io now db = Ok (db', receipts) → store_wf db →
  (db' = db ∧ receipts = [] ∧
   ∀ i a, rows (attempts db) !! i = Some a → attempt_completed_at_ms a ≠ None) ∨
  ∃ id a receipt, receipts = [receipt] ∧ rows (attempts db) !! id = Some a ∧
    attempt_completed_at_ms a = None ∧
    (∀ i b, rows (attempts db) !! i = Some b → attempt_completed_at_ms b = None → i = id) ∧
    recover_attempt random (Z.of_N now) now id a db = Ok (db', receipt).
Proof.
  unfold recover_incomplete_attempts. intros Hr Hwf.
  apply result_bind_Ok in Hr as (z & [-> _]%sqlite_millis_Ok & [_ Hr]%with_connection_Ok).
  destruct (open_attempts_cases db Hwf) as [[Hnil Hnone]|(id & a & Hone & Ha & Hc & Huniq)].
  - rewrite Hnil in Hr. injection Hr as <- <-. auto.
  - rewrite Hone in Hr. cbn [recover_attempts] in Hr.
    apply result_bind_Ok in Hr as ([db1 receipt] & Hrec & (rest & [= <-] & [= <- <-])%result_bind_Ok).
    right. by exists id, a, receipt.
Qed.

Lemma recover_wf io now db db' receipts :
  recover_incomplete_attempts random io now db = Ok (db', receipts) → store_wf db → store_wf db'.
Proof.
  intros Hr Hwf. destruct (recover_Ok _ _ _ _ _ Hr Hwf)
    as [(-> & _)|(id & a & receipt & _ & Ha & Hc & _ & Hrec)]; [done|].
  by eapply recover_attempt_Ok.
Qed.

Lemma resolved_rows {S} check ats id at_ (t t' : table (journal_row S)) :
  rows_wf check ats t →
  (∀ i a, rows ats !! i = Some a → attempt_completed_at_ms a = None → i = id) →
  (∀ k, rows t' !! k = resolved_row id at_ <$> rows t !! k) → rows_resolved t t'.
Proof.
  intros [Hfk Hprep _] Huniq Hl k r Hk. rewrite Hl, Hk. simpl. eexists. split; [done|].
  unfold resolved_row, is_prepared.
  destruct (row_disposition r) as [d|] eqn:Hd.
  { rewrite (bool_decide_eq_false_2 (Some d = None)), andb_false_r by done. by rewrite Hd. }
  destruct (Hfk k r Hk) as [a Ha].
  rewrite bool_decide_eq_true_2 by (eapply Huniq; eauto). done.
Qed.

Lemma same_rows_resolved {S} check ats (t : table (journal_row S)) :
  rows_wf check ats t →
  (∀ i a, rows ats !! i = Some a → attempt_completed_at_ms a ≠ None) → rows_resolved t t.
Proof.
  intros [Hfk Hprep _] Hnone k r Hk. exists r. split_and!; try done.
  destruct (row_disposition r) eqn:Hd; [done|]. destruct (Hfk k r Hk) as [a Ha].
  by destruct (Hnone _ _ Ha); eauto.
Qed.

(** What recovery makes of the rows and of the open attempt. *)
Lemma recover_rows io now db db' receipts :
  recover_incomplete_attempts random io now db = Ok (db', receipts) → store_wf db →
  open_incident db' = None ∧
  rows_resolved (action_rows db) (action_rows db') ∧
  rows_resolved (artifact_rows db) (artifact_rows db') ∧
  closed_by_recovery (Z.of_N now) db db'.
Proof.
  intros Hr Hwf.
  destruct (recover_Ok _ _ _ _ _ Hr Hwf)
    as [(-> & -> & Hnone)|(id & a & receipt & -> & Ha & Hc & Huniq & Hrec)].
  - split_and!; [by apply open_incident_None| | |intros i b Hb Hcb; by destruct (Hnone i b)].
    + eapply same_rows_resolved; [apply store_wf_actions, Hwf|done].
    + eapply same_rows_resolved; [apply store_wf_artifacts, Hwf|done].
  - destruct (recover_attempt_Ok _ _ _ _ _ _ _ Hrec Ha Hc Hwf) as (_ & Hrecs & _).
    destruct Hrecs as [Hac Haa (a' & Ha' & Hinc & Hterm & Hcomp) Hoth Hbl].
    split_and!.
    + apply open_incident_None. intros i b Hb Hcb. destruct (decide (i = id)) as [->|Hne].
      * rewrite Ha' in Hb. injection Hb as <-. congruence.
      * rewrite (Hoth i Hne) in Hb. by apply Hne, (Huniq i b).
    + eapply resolved_rows; [apply store_wf_actions, Hwf|done|done].
    + eapply resolved_rows; [apply store_wf_artifacts, Hwf|done|done].
    + intros i b Hb Hcb. assert (i = id) as -> by eauto.
      assert (b = a) as -> by congruence. split; [eauto|].
      rewrite Hbl, lookup_insert_eq. by eexists.
Qed.

(** Without an open attempt no row is PREPARED. *)
Lemma nothing_open_settled db :
  store_wf db → open_incident db = None → ∀ id, settled_rows id db.
Proof.
  intros Hwf Ho id. rewrite open_incident_None in Ho.
  intros [(k & r & Hk & Hi & Hd)|(k & r & Hk & Hi & Hd)].
  - destruct (rows_wf_attempt _ _ _ (store_wf_actions _ Hwf) k r Hk) as [a Ha].
    apply (Ho _ _ Ha). by eapply (rows_wf_prepared _ _ _ (store_wf_actions _ Hwf)).
  - destruct (rows_wf_attempt _ _ _ (store_wf_artifacts _ Hwf) k r Hk) as [a Ha].
    apply (Ho _ _ Ha). by eapply (rows_wf_prepared _ _ _ (store_wf_artifacts _ Hwf)).
Qed.

(** [C20] Recovery after a crash leaves nothing open and hides nothing: no attempt is
    open and no row PREPARED; a row keeps its disposition, and a PREPARED one becomes
    delivery-unknown; the interrupted attempt is Failed and its incident blocked from
    another cleanup by a retry block that says how it was interrupted. *)
Theorem recovery_resolves io now db db' receipts :
  recover_incomplete_attempts random io now db = Ok (db', receipts) → store_wf db →
  open_incident db' = None ∧
  (∀ id, settled_rows id db') ∧
  rows_resolved (action_rows db) (action_rows db') ∧
  rows_resolved (artifact_rows db) (artifact_rows db') ∧
  closed_by_recovery (Z.of_N now) db db' ∧
  Forall (λ r, receipt_state r = Failed) receipts ∧
  length receipts = match open_incident db with Some _ => 1 | None => 0 end.
Proof.
  intros Hr Hwf. pose proof (recover_wf _ _ _ _ _ Hr Hwf) as Hwf'.
  destruct (recover_rows _ _ _ _ _ Hr Hwf) as (Ho & Ha & Haa & Hclosed).
  split_and!; [done|by apply nothing_open_settled|done..| |];
    destruct (recover_Ok _ _ _ _ _ Hr Hwf)
      as [(-> & -> & Hnone)|(id & a & receipt & -> & Hat & Hc & Huniq & Hrec)].
  - constructor.
  - constructor; [|constructor]. by apply (recover_attempt_Ok _ _ _ _ _ _ _ Hrec Hat Hc Hwf).
  - by rewrite (proj2 (open_incident_None db) Hnone).
  - destruct (open_incident db) eqn:E; [done|].
    rewrite open_incident_None in E. by destruct (E id a).
Qed.
End Recovery.
