(* ===== verification/DurableCleanup.v ===== *)
(** DurableCleanup: an attempt from its opening to its persisted receipt.

    The receipt that is persisted is the one the executor returned; completing an
    attempt again answers the persisted receipt; recovery needs a clock that did
    not run back. *)

From S2P Require Import Prelude Text Model Artifact Evidence Cleanup Effects Executor.
From S2P Require Import ExecutorSafety ExecutorGuarantees Analyzer Decisions Cooling Names Store.
From S2P Require Import Journal JournalFacts DurableRun StoreSafety.

Section DurableCleanup.
Context `{JE : Json EventPayload, JR : Json CleanupResources, JP : Json (list N)}.
Context (random : token_source).

(** ** The attempt during an execution *)

Lemma complete_row_attempts {S D I A : Type} `{EqDecision D, StoredText D, jc : !JournalCodec S D I A}
    io h at_ (d : D) db db' :
  (∀ t, attempts (jt_set codec_table t db) = attempts db) →
  complete_row codec_table io h at_ d db = Ok db' → attempts db' = attempts db.
Proof. intros Hs [->|[t ->]]%complete_row_frame; auto. Qed.

Lemma journal_answers_attempts j db o j' db' :
  journal_answers (j, db) o (j', db') → attempts db' = attempts db.
Proof.
  destruct o as [X e x]. unfold journal_answers.
  destruct e; cbn beta iota zeta; try by intros [= -> ->].
  - intros [io Ha]. destruct (journal_prepare_action _ _ _ _) as [[[j1 db1] key]|err] eqn:Hp;
      destruct Ha as [_ [= -> ->]]; [|done].
    unfold journal_prepare_action in Hp.
    apply result_bind_Ok in Hp as (? & _ & ([db2 h] & Hp%map_err_Ok & [= _ <- _])%result_bind_Ok).
    unfold prepare_cleanup_action in Hp. apply guard_Ok in Hp as [_ Hp].
    by apply (prepare_row_frame (jc:=process_codec)) in Hp as [t ->].
  - intros [io Ha]. destruct (journal_complete_action _ _ _ _ _) as [[j1 db1]|err] eqn:Hp;
      destruct Ha as [_ [= -> ->]]; [|done].
    unfold journal_complete_action in Hp.
    apply result_bind_Ok in Hp as (h & _ & (db2 & Hp%map_err_Ok & [= _ <-])%result_bind_Ok).
    by eapply (complete_row_attempts (jc:=process_codec)).
  - intros [io Ha]. destruct (journal_prepare_artifact_action _ _ _ _) as [[[j1 db1] key]|err] eqn:Hp;
      destruct Ha as [_ [= -> ->]]; [|done].
    unfold journal_prepare_artifact_action in Hp.
    apply result_bind_Ok in Hp as (? & _ & ([db2 h] & Hp%map_err_Ok & [= _ <- _])%result_bind_Ok).
    unfold prepare_cleanup_artifact_action in Hp. apply guard_Ok in Hp as [_ Hp].
    by apply (prepare_row_frame (jc:=artifact_codec)) in Hp as [t ->].
  - intros [io Ha]. destruct (journal_complete_artifact_action _ _ _ _ _) as [[j1 db1]|err] eqn:Hp;
      destruct Ha as [_ [= -> ->]]; [|done].
    unfold journal_complete_artifact_action in Hp.
    apply result_bind_Ok in Hp as (h & _ & (db2 & Hp%map_err_Ok & [= _ <-])%result_bind_Ok).
    by eapply (complete_row_attempts (jc:=artifact_codec)).
Qed.

Lemma journalled_attempt id s tr s' :
  journalled id s tr s' → rows (attempts s'.2) !! id = rows (attempts s.2) !! id.
Proof.
  induction 1 as [s|j db db' tr s' (_ & Ha & _) Hj IH|[j db] o [j1 db1] tr s'' Hans Hj IH];
    [done|by rewrite IH|].
  rewrite IH. simpl. by rewrite (journal_answers_attempts _ _ _ _ _ Hans).
Qed.

(** An opened attempt, as its handle names it. *)
Lemma begin_attempt_row io at_ report epoch db db' h :
  begin_cleanup_attempt random io at_ report epoch db = Ok (db', h) →
  attempt_incident h = incident_id report ∧
  ∃ a, rows (attempts db') !! attempt_id h = Some a ∧ attempt_terminal_state a = None ∧
    attempt_completed_at_ms a = None.
Proof.
  intros (_ & _ & _ & Hinc & row & t & ev & Hins & _ & _ & _ & Hopen & Hterm & Hev)%begin_Ok.
  split; [done|]. apply insert_event_frame in Hev as ((-> & _) & _).
  apply table_insert_Ok in Hins as (_ & _ & -> & _). simpl. rewrite lookup_insert_eq. eauto.
Qed.

Lemma receipt_gate_ext r r' :
  actions r' = actions r → artifact_actions r' = artifact_actions r →
  receipt_state r' = receipt_state r → reason_id r' = reason_id r →
  receipt_requires_global_fail_close r' = receipt_requires_global_fail_close r.
Proof.
  destruct r, r'. simpl. intros -> -> -> ->.
  unfold receipt_requires_global_fail_close, outcome, has_disposition. done.
Qed.

(** A persisted receipt against the executor's. *)
Record persists (r persisted : CleanupReceipt) : Prop := {
  persists_incident : receipt_incident_id persisted = receipt_incident_id r;
  persists_state : receipt_state persisted = receipt_state r;
  persists_actions : actions persisted = actions r;
  persists_artifacts : artifact_actions persisted = artifact_actions r;
  persists_survivors : survivor_pids persisted = survivor_pids r;
  persists_checks : revival_checks_completed persisted = revival_checks_completed r;
  persists_reason : reason_id persisted = reason_id r ∨
    reason_id persisted = Some "cleanup.tree_gone_without_signal" ∧
    receipt_state r = Cleared ∧ has_disposition Delivered r = false ∧ artifact_actions r = [];
}.

(** The impact is of the receipt. *)
Definition impact_of (at_ : N) (r : CleanupReceipt) (i : impact_row) : Prop :=
  impact_incident_id i = receipt_incident_id r ∧ impact_occurred_at_ms i = Z.of_N at_ ∧
  impact_state i = state_name (receipt_state r) ∧
  impact_process_outcome i = process_outcome_name (process_outcome (outcome r)) ∧
  impact_artifact_outcome i = artifact_outcome_name (artifact_outcome (outcome r)) ∧
  impact_overall_outcome i = overall_outcome_name (overall_outcome (outcome r)) ∧
  impact_revival_checks i = Z.of_N (revival_checks_completed r).

(** What completing an open attempt with a receipt leaves in the database: the attempt closed
    with the receipt's state, reason, survivors, checks and resources, next to the journal
    rows that are its actions; one new event with its token, the whole receipt, and its
    impact with the receipt's outcomes, counted in the totals; a retry block exactly if the
    incident failed or revived; and everything else as it was. *)
Record stores (handle : CleanupAttemptHandle) (at_ : N) (r : CleanupReceipt) (db db' : database) :
    Prop := {
  stores_attempt : ∃ a, rows (attempts db) !! attempt_id handle = Some a ∧
    attempt_completed_at_ms a = None ∧ attempt_incident_id a = receipt_incident_id r ∧
    rows (attempts db') =
      <[attempt_id handle := closed_row (Z.of_N at_) (receipt_state r) (reason_id r)
          (json_to_string (survivor_pids r)) (Z.of_N (revival_checks_completed r))
          (json_to_string (resources r)) a]> (rows (attempts db)) ∧
    retry_blocks db' =
      if decide (receipt_state r = Failed ∨ receipt_state r = Revived)
      then <[receipt_incident_id r := mkBlockRow (attempt_tracking_key a) (Z.of_N at_) (reason_id r)
               (attempt_id handle) None None]> (retry_blocks db)
      else retry_blocks db;
  stores_journal : action_rows db' = action_rows db ∧ artifact_rows db' = artifact_rows db ∧
    actions_for_attempt db' (attempt_id handle) = Ok (actions r) ∧
    artifact_actions_for_attempt db' (attempt_id handle) = Ok (artifact_actions r);
  stores_event : ∃ k i token, let id := (last_rowid (events db) + 1)%Z in
    rows (events db') =
      <[id := mkEventRow (receipt_incident_id r) (Z.of_N at_) (Z.of_N at_) 1 "cleanup"
               (state_name (receipt_state r)) (json_to_string (PayloadCleanup r))
               (Some (attempt_id handle))]> (rows (events db)) ∧
    tokens db' = <[id := token]> (tokens db) ∧
    rows (impacts db') = <[k := i]> (rows (impacts db)) ∧
    impact_attempt i = attempt_id handle ∧ impact_event i = id ∧ impact_of at_ r i;
  stores_rest : lifecycle db' = lifecycle db ∧ cooling db' = cooling db ∧
    settings db' = settings db ∧ protections db' = protections db ∧
    policy_revision db' = policy_revision db ∧ mutation_receipts db' = mutation_receipts db ∧
    mutation_namespace db' = mutation_namespace db ∧
    terminal_cleanup_count (authority db') = (terminal_cleanup_count (authority db) + 1)%Z;
}.

Lemma impact_row_inserted attempt event_id at_ receipt db db' :
  insert_cleanup_impact_transaction attempt event_id at_ receipt db = Ok db' →
  ∃ k i a, db' = db <| impacts := mkTable (<[k := i]> (rows (impacts db))) k |> <| authority := a |> ∧
    terminal_cleanup_count a = (terminal_cleanup_count (authority db) + 1)%Z ∧
    impact_attempt i = attempt ∧ impact_event i = event_id ∧ impact_of at_ receipt i.
Proof.
  unfold insert_cleanup_impact_transaction. intros He. inv_ok He. injection He as <-.
  repeat match goal with
    | H : i64_or_range _ _ = Ok _ |- _ => apply i64_or_range_Ok in H as [-> _]
    | H : sqlite_millis _ _ = Ok _ |- _ => apply sqlite_millis_Ok in H as [-> _]
    end.
  match goal with H : table_insert _ _ _ _ = Ok ?p |- _ =>
    destruct p as [t k]; apply table_insert_Ok in H as (_ & -> & -> & _) end.
  eexists _, _, _. split; [reflexivity|]. done.
Qed.

Lemma write_terminal_stores handle key at_ r db db' a :
  write_terminal_state random handle key (Z.of_N at_) at_ r db = Ok db' →
  rows (attempts db) !! attempt_id handle = Some a → attempt_completed_at_ms a = None →
  attempt_incident_id a = receipt_incident_id r → attempt_tracking_key a = key →
  actions_for_attempt db (attempt_id handle) = Ok (actions r) →
  artifact_actions_for_attempt db (attempt_id handle) = Ok (artifact_actions r) →
  stores handle at_ r db db'.
Proof.
  intros Hw Ha Hopen Hinc Hkey Hacts Haacts. unfold write_terminal_state in Hw.
  apply result_bind_Ok in Hw as (checks & [-> _]%i64_or_range_Ok & Hw).
  apply result_bind_Ok in Hw as (db1 & Hclose & Hw).
  apply result_bind_Ok in Hw as ([db2 ev] & Hev & Hw). cbn [fst snd] in Hw.
  apply impact_row_inserted in Hw as (k & i & auth & -> & Hauth & Hia & Hie & Hi).
  pose proof (close_attempt_closes _ _ _ _ _ _ _ _ _ _ Hclose Ha Hopen) as Hrow.
  apply close_attempt_Ok in Hclose as (t & -> & _ & Hall & _).
  assert (rows t = <[attempt_id handle := closed_row (Z.of_N at_) (receipt_state r) (reason_id r)
    (json_to_string (survivor_pids r)) (Z.of_N (revival_checks_completed r))
    (json_to_string (resources r)) a]> (rows (attempts db))) as Ht.
  { apply map_eq. intros j. destruct (decide (attempt_id handle = j)) as [<-|Hne].
    - by rewrite lookup_insert_eq.
    - rewrite lookup_insert_ne, Hall by done. destruct (rows (attempts db) !! j); [|done].
      simpl. by rewrite bool_decide_eq_false_2. }
  unfold insert_event_transaction in Hev.
  apply result_bind_Ok in Hev as (at' & [-> _]%sqlite_millis_Ok & Hev).
  apply result_bind_Ok in Hev as ([t' id] & (_ & -> & -> & _)%table_insert_Ok & Hev).
  apply result_bind_Ok in Hev as (db3 & Htok & [= <- <-]).
  unfold insert_public_event_token in Htok. inv_ok Htok. injection Htok as <-.
  assert (bool_decide (receipt_state r ∈ [Failed; Revived]) =
    bool_decide (receipt_state r = Failed ∨ receipt_state r = Revived)) as Hst.
  { apply bool_decide_ext. rewrite !elem_of_cons, elem_of_nil. naive_solver. }
  rewrite Hst in *. clear Hst.
  split.
  - exists a. split_and!; try done; subst key; case_bool_decide; by rewrite ?decide_True, ?decide_False by done.
  - subst. split_and!; case_bool_decide; done.
  - eexists k, i, _. split_and!; try done; by case_bool_decide.
  - split_and!; by case_bool_decide.
Qed.

Lemma projected_reason handle terminal acts aacts stored :
  acts = actions terminal → aacts = artifact_actions terminal →
  reason_id (projected_receipt handle terminal acts aacts stored) = reason_id terminal ∨
  reason_id (projected_receipt handle terminal acts aacts stored) =
    Some "cleanup.tree_gone_without_signal" ∧
  receipt_state terminal = Cleared ∧ has_disposition Delivered terminal = false ∧
  artifact_actions terminal = [].
Proof.
  intros -> ->. unfold projected_receipt. destruct (ended_without_intervention _) eqn:He; [|by left].
  right. simpl. unfold ended_without_intervention in He. rewrite !andb_true_iff in He.
  destruct He as [[[Hst Hov] Hre] Haa]. cbn [receipt_state artifact_actions] in *.
  apply bool_decide_eq_true in Hst, Hov. split_and!; [done|done| |by destruct (artifact_actions terminal)].
  apply negb_true_iff in Hre. unfold proves_process_reclaim in Hre.
  apply andb_false_iff in Hre as [Hre|Hre]; [|exact Hre].
  apply bool_decide_eq_false in Hre. exfalso. apply Hre.
  unfold outcome in Hov |- *. cbn [overall_outcome process_outcome] in *.
  by repeat case_match.
Qed.

(** [C21] The receipt the store persists is the executor's. An attempt is opened and
    the plan executed on its journal, while other threads write to the database and
    any call of the journal may fail. If the execution ended with an action open, the
    attempt cannot be completed and is left for recovery. Otherwise completing it with
    the executor's receipt persists the same incident, state, actions, artifact
    actions, survivors and revival checks; only an incident that ended without a signal
    gets its own reason. That receipt, and nothing else, is what the database then holds:
    the attempt is closed with it, its journal rows are its actions, one event carries it
    whole and one impact counts it, the incident is blocked exactly if it failed or revived,
    and every other table and row is as it was. *)
Theorem persisted_receipt_is_the_executors `{!IncidentRevalidator V} (revalidator : V)
    report plan policy io at_ epoch db db0 h tr res j db1 :
  store_wf db →
  begin_cleanup_attempt random io at_ report epoch db = Ok (db0, h) →
  Forall (λ t, (target_pid t < 2 ^ 32)%N) (plan_targets plan) →
  runs (execute revalidator plan policy) tr res →
  journalled (attempt_id h) (journal_for h, db0) tr (j, db1) →
  match res with
  | Err (AttemptOpen _ _ _) =>
      ∀ io at_ terminal, ¬ is_Ok (complete_cleanup_attempt random io h at_ terminal db1)
  | _ => ∀ io at_ db2 persisted,
      complete_cleanup_attempt random io h at_ (execution_receipt res) db1 =
        Ok (db2, persisted) →
      persists (execution_receipt res) persisted ∧ stores h at_ persisted db1 db2
  end.
Proof.
  intros Hwf Hb Hpids Hruns Hj.
  pose proof (durable_journal _ _ _ _ _ _ _ _ _ Hpids Hruns (begin_begun _ _ _ _ _ _ _ _ Hb Hwf) Hj)
    as Hdur.
  apply begin_attempt_row in Hb as (_ & a & Ha & Hterm & Hopen).
  apply journalled_attempt in Hj. simpl in Hj. rewrite Ha in Hj.
  assert (∀ r, ¬ has_prepared (attempt_id h) db1 ∧
      actions_for_attempt db1 (attempt_id h) = Ok (actions r) ∧
      artifact_actions_for_attempt db1 (attempt_id h) = Ok (artifact_actions r) →
    ∀ io at_ db2 persisted, complete_cleanup_attempt random io h at_ r db1 = Ok (db2, persisted) →
      persists r persisted ∧ stores h at_ persisted db1 db2) as Hcase.
  { intros r (_ & Hacts & Haacts) io' at' db2 persisted
      (_ & Hinc & stored & Hst & Hsi & Hc)%complete_Ok.
    pose proof Hst as Hst'. rewrite Hj in Hst. injection Hst as <-. rewrite Hterm in Hc.
    destruct Hc as (_ & acts & aacts & res' & Ha1 & Ha2 & _ & _ & -> & Hw).
    rewrite Hacts in Ha1. rewrite Haacts in Ha2. injection Ha1 as <-. injection Ha2 as <-.
    destruct (projected_receipt_fields h r (actions r) (artifact_actions r) res')
      as (H1 & H2 & H3 & H4 & H5 & H6 & _).
    split; [split; [by rewrite H1|done..|by apply projected_reason]|].
    eapply write_terminal_stores; [exact Hw|exact Hst'|exact Hopen|by rewrite H1|done| |];
      by rewrite ?H3, ?H4. }
  destruct res as [r|[err r|err r id]]; [by apply Hcase|by apply Hcase|].
  intros io' at' terminal [[db2 persisted] Hc].
  apply complete_Ok in Hc as (_ & _ & stored & Hst & _ & Hc).
  rewrite Hj in Hst. injection Hst as <-. rewrite Hterm in Hc. by destruct Hc as [Hset _].
Qed.

(** ** Completing again *)

Lemma last_filter_snoc {A} (p : A → bool) l x :
  p x = true → last (List.filter p (l ++ [x])) = Some x.
Proof. intros Hp. rewrite List.filter_app. simpl. rewrite Hp. apply last_snoc. Qed.

Lemma actions_for_attempt_ext db db' attempt :
  action_rows db' = action_rows db → actions_for_attempt db' attempt = actions_for_attempt db attempt.
Proof. unfold actions_for_attempt. by intros ->. Qed.

Lemma artifact_actions_for_attempt_ext db db' attempt :
  artifact_rows db' = artifact_rows db →
  artifact_actions_for_attempt db' attempt = artifact_actions_for_attempt db attempt.
Proof. unfold artifact_actions_for_attempt. by intros ->. Qed.

(** The attempt and the last event after the terminal write. *)
Lemma write_terminal_state_writes handle key at_ at_ms projected db db' a :
  write_terminal_state random handle key at_ at_ms projected db = Ok db' →
  terminal_state (receipt_state projected) →
  table_wf (events db) → rows (attempts db) !! attempt_id handle = Some a →
  attempt_completed_at_ms a = None →
  action_rows db' = action_rows db ∧ artifact_rows db' = artifact_rows db ∧
  (∃ checks, rows (attempts db') !! attempt_id handle =
     Some (closed_row at_ (receipt_state projected) (reason_id projected)
             (json_to_string (survivor_pids projected)) checks
             (json_to_string (resources projected)) a)) ∧
  ∃ event, last (List.filter
      (λ e, bool_decide (event_attempt e = Some (attempt_id handle))
            && bool_decide (event_state e ∈ terminal_state_names))
      (table_entries (events db')).*2) = Some event ∧
    event_payload_json event = json_to_string (PayloadCleanup projected).
Proof.
  intros (checks & db1 & db2 & ev & Hclose & Hev & Himp)%write_terminal_Ok Hst Hw Ha Hopen.
  apply insert_impact_frame in Himp as ((Hia & Hiac & Hiaa & _) & _ & _ & Hie & _).
  apply insert_event_frame in Hev as ((Hea & Heac & Heaa & _) & _ & _ & (row & Hins & Hrow) & _).
  assert (∀ b : bool, attempts (if b then insert_retry_block (receipt_incident_id projected) key at_
            (reason_id projected) (attempt_id handle) db1 else db1) = attempts db1 ∧
     action_rows (if b then insert_retry_block (receipt_incident_id projected) key at_
            (reason_id projected) (attempt_id handle) db1 else db1) = action_rows db1 ∧
     artifact_rows (if b then insert_retry_block (receipt_incident_id projected) key at_
            (reason_id projected) (attempt_id handle) db1 else db1) = artifact_rows db1 ∧
     events (if b then insert_retry_block (receipt_incident_id projected) key at_
            (reason_id projected) (attempt_id handle) db1 else db1) = events db1) as Hblock
    by by intros [].
  specialize (Hblock (bool_decide (receipt_state projected ∈ [Failed; Revived]))).
  destruct Hblock as (Hba & Hbac & Hbaa & Hbe).
  rewrite Hba in Hea. rewrite Hbac in Heac. rewrite Hbaa in Heaa. rewrite Hbe in Hins.
  pose proof (close_attempt_closes _ _ _ _ _ _ _ _ _ _ Hclose Ha Hopen) as Hclosed.
  apply close_attempt_Ok in Hclose as (t & -> & _). simpl in *.
  split_and!; [congruence|congruence| |].
  - exists checks. rewrite Hia, Hea. exact Hclosed.
  - exists row. rewrite Hie, (table_insert_entries _ _ _ _ _ _ Hw Hins), fmap_app. split.
    + apply last_filter_snoc. subst row. simpl. rewrite bool_decide_eq_true_2 by done.
      apply bool_decide_eq_true. unfold terminal_state, terminal_state_names in *.
      apply elem_of_cons in Hst as [-> | [-> | ->%list_elem_of_singleton]%elem_of_cons];
        simpl; set_solver.
    + by subst row.
Qed.

(** Completing an attempt is idempotent: a second completion with the same state,
    at any time and with any receipt of the incident, answers the persisted receipt,
    read back from its event, the journal rows and the resources column, and writes
    nothing. *)
Theorem completion_is_idempotent `{!JsonRoundTrip EventPayload, !JsonRoundTrip CleanupResources}
    io h at_ terminal db db' persisted at' terminal' :
  (∀ r : CleanupResources,
     String.length (json_to_string (mkCleanupResources (before r) (after r) None)) ≤
     String.length (json_to_string r)) →
  store_wf db →
  complete_cleanup_attempt random io h at_ terminal db = Ok (db', persisted) →
  receipt_state terminal' = receipt_state terminal →
  receipt_incident_id terminal' = receipt_incident_id terminal →
  (Z.of_N at' < 2 ^ 63)%Z →
  complete_cleanup_attempt random None h at' terminal' db' = Ok (db', persisted).
Proof.
  intros Hsmaller Hwf Hc Hst' Hinc' Hat'.
  apply complete_Ok in Hc as (Hterm & Hinc & stored & Hstored & Hsi & Hc).
  assert (∃ stored', rows (attempts db') !! attempt_id h = Some stored' ∧
    attempt_incident_id stored' = attempt_incident h ∧
    attempt_terminal_state stored' = Some (state_name (receipt_state terminal)) ∧
    terminal_receipt_for_attempt db' (attempt_id h) = Ok persisted)
    as (stored' & Hrow & Hri & Hrt & Hread).
  { destruct (attempt_terminal_state stored) as [name|] eqn:Hname.
    { destruct Hc as (-> & -> & Hread). exists stored. by split_and!. }
    destruct Hc as (_ & acts & aacts & res & Hacts & Haacts & Hlen & Hres & -> & Hw).
    destruct (projected_receipt_fields h terminal acts aacts res)
      as (Hp1 & Hp2 & Hp3 & Hp4 & Hp5 & Hp6 & Hp7).
    rewrite json_round_trip in Hres. injection Hres as <-.
    set (r := projected_receipt h terminal acts aacts (resources terminal)) in *.
    assert (attempt_completed_at_ms stored = None) as Hopen.
    { apply attempt_open_terminal; [by eapply store_wf_attempts|done]. }
    assert (terminal_state (receipt_state r)) as Hrst by by rewrite Hp2.
    destruct (write_terminal_state_writes _ _ _ _ _ _ _ stored Hw Hrst
                (proj1 (proj2 (proj2 (proj2 (store_wf_tables _ Hwf))))) Hstored Hopen)
      as (Hac & Haa & [checks Hrow] & event & Hlast & Hpay).
    eexists. split_and!; [exact Hrow|done|simpl; by rewrite Hp2|].
    unfold terminal_receipt_for_attempt. rewrite Hlast, Hrow. simpl. rewrite Hpay.
    unfold from_json. rewrite json_round_trip. simpl.
    rewrite (actions_for_attempt_ext db), (artifact_actions_for_attempt_ext db), Hacts, Haacts by done.
    simpl. rewrite bool_decide_eq_true_2.
    - rewrite json_round_trip. simpl. rewrite <-Hp3, <-Hp4. by destruct r.
    - destruct Hp7 as [-> | ->]; [done|]. etransitivity; [apply Hsmaller|done]. }
  unfold complete_cleanup_attempt. rewrite Hst', Hinc'.
  rewrite bool_decide_eq_true_2 by done. rewrite bool_decide_eq_true_2 by done.
  rewrite (proj2 (sqlite_millis_Ok at' _ _) (conj eq_refl Hat')). simpl.
  rewrite (proj2 (handle_attempt_Ok db' h stored') (conj Hrow Hri)). simpl. rewrite Hrt.
  rewrite (@parse_stored_name _ stored_state (receipt_state terminal) :
    parse_state (state_name (receipt_state terminal)) = Ok (receipt_state terminal)). simpl.
  rewrite bool_decide_eq_true_2 by done. by rewrite Hread.
Qed.

(** ** The clock of a recovery *)

(** Recovery stamps the rows it resolves with its own time, and a row completed before
    it was prepared violates its CHECK: if the wall clock was set back behind a
    PREPARED row, recovery refuses, and leaves the attempt open. *)
Theorem recovery_needs_the_clock io now db k row :
  store_wf db → rows (action_rows db) !! k = Some row → row_disposition row = None →
  (Z.of_N now < row_prepared_at_ms row)%Z →
  ¬ is_Ok (recover_incomplete_attempts random io now db).
Proof.
  intros Hwf Hk Hd Hnow [[db' receipts] Hr].
  destruct (rows_wf_attempt _ _ _ (store_wf_actions _ Hwf) k row Hk) as [a Ha].
  pose proof (rows_wf_prepared _ _ _ (store_wf_actions _ Hwf) k row a Hk Hd Ha) as Hopen.
  destruct (recover_Ok _ _ _ _ _ _ Hr Hwf)
    as [(_ & _ & Hnone)|(id & a' & receipt & _ & Ha' & Hc & Huniq & Hrec)].
  { by destruct (Hnone _ _ Ha). }
  destruct (recover_attempt_Ok _ _ _ _ _ _ _ _ Hrec Ha' Hc Hwf) as (Hwf' & [Hact _ _ _ _] & _).
  specialize (Hact k). rewrite Hk in Hact. simpl in Hact.
  apply (rows_wf_check _ _ _ (store_wf_actions _ Hwf')) in Hact.
  unfold resolved_row, is_prepared in Hact.
  rewrite !bool_decide_eq_true_2 in Hact by first [done|by apply (Huniq _ a)].
  unfold action_check, journal_check in Hact. rewrite !andb_true_iff in Hact.
  destruct Hact as [[[[_ Hle%bool_decide_eq_true] _] _] _]. simpl in Hle. lia.
Qed.
End DurableCleanup.
