(* ===== verification/Lifecycle.v ===== *)
(** Lifecycle: the managed service lifecycle of [unlinger-daemon/src/store.rs].

    One row of [managed_lifecycle] says which daemon instance of which activation
    generation owns the service, whether enforcement is requested and effective, and
    how far its startup got. Arming is refused while a cleanup is open or its effect
    uncertain. *)

From S2P Require Import Prelude Text Model Artifact Evidence Cleanup Executor Analyzer Cooling.
From S2P Require Import Names Store Journal.
From Stdlib Require Import Ascii.

(** ** Data *)

Record ManagedLifecycle : Type := mkManagedLifecycle {
  ml_activation_generation : N;
  ml_instance_id : string;
  ml_requested_enforce : bool;
  ml_effective_enforce : bool;
  ml_armed_generation : option N;
  ml_enforcement_epoch : option string;
  ml_ready : bool;
  ml_draining : bool;
  ml_startup_phase : ManagedStartupPhase;
  ml_updated_at_unix_millis : N;
}.

(** [value.chars().any(char::is_control)]: the code points below 32 and from 127 to
    159, the latter half encoded as 194 followed by a byte below 160. *)
Fixpoint has_control (s : string) : bool :=
  match s with
  | EmptyString => false
  | String c rest =>
      ((code c <? 32) || (code c =? 127))%N
      || match rest with
         | String d _ => ((code c =? 194) && (128 <=? code d) && (code d <=? 159))%N
         | EmptyString => false
         end
      || has_control rest
  end.

Definition validate_managed_identity (activation_generation : N) (instance_id : string) :
    result unit StoreError :=
  guard? negb (bool_decide (activation_generation = 0)%N)
    else StoreInvalid "managed activation generation must be greater than zero" in
  guard? negb (is_empty (trim instance_id) || bool_decide (192 < String.length instance_id)
               || has_control instance_id)
    else StoreInvalid "managed instance ID must contain 1 to 192 printable bytes" in
  Ok tt.

Definition validate_enforcement_epoch (enforcement_epoch : string) : result unit StoreError :=
  guard? negb (is_empty (trim enforcement_epoch)
               || bool_decide (192 < String.length enforcement_epoch))
    else StoreInvalid "managed arm requires a bounded non-empty enforcement epoch" in
  Ok tt.

Definition sqlite_generation (value : N) : result Z StoreError :=
  i64_or_range value "activation generation overflowed i64".

Definition parse_sqlite_bool (value : Z) (field : string) : result bool StoreError :=
  if bool_decide (value = 0)%Z then Ok false
  else if bool_decide (value = 1)%Z then Ok true
  else Err (StoreCorrupt ("managed lifecycle field " +:+ debug_str field +:+ " is not boolean")).

(** [i64::from(bool)]. *)
Definition sqlite_bool (b : bool) : Z := if b then 1 else 0.

(** [managed_lifecycle_connection]: the row, parsed. *)
Definition parse_lifecycle_row (r : lifecycle_row) : result ManagedLifecycle StoreError :=
  let? generation :=
    u64_or_corrupt (lc_generation r) "managed activation generation is invalid" in
  let? armed :=
    option_transpose (λ g, u64_or_corrupt g "managed armed generation is invalid")
      (lc_armed_generation r) in
  let? updated_at :=
    u64_or_corrupt (lc_updated_at_ms r) "managed lifecycle timestamp is invalid" in
  let? requested := parse_sqlite_bool (lc_requested_enforce r) "requested_enforce" in
  let? effective := parse_sqlite_bool (lc_effective_enforce r) "effective_enforce" in
  let? ready := parse_sqlite_bool (lc_ready r) "ready" in
  let? draining := parse_sqlite_bool (lc_draining r) "draining" in
  let? phase := parse_managed_startup_phase (lc_startup_phase r) in
  Ok (mkManagedLifecycle generation (lc_instance_id r) requested effective armed
        (lc_enforcement_epoch r) ready draining phase updated_at).

Definition managed_lifecycle_connection (db : database) :
    result (option ManagedLifecycle) StoreError :=
  option_transpose parse_lifecycle_row (lifecycle db).

Definition require_exact_managed_identity (l : ManagedLifecycle) (activation_generation : N)
    (instance_id : string) : result unit StoreError :=
  guard? bool_decide (ml_activation_generation l = activation_generation)
    else StoreInvalid ("managed activation generation mismatch: active "
           +:+ pretty (ml_activation_generation l) +:+ ", requested "
           +:+ pretty activation_generation) in
  guard? bool_decide (ml_instance_id l = instance_id)
    else StoreInvalid "managed instance ID does not match the active daemon" in
  Ok tt.

(** ** The blockers of arming *)

(** A retry block whose attempt has an action with this disposition. *)
Definition block_with_disposition (signal_name artifact_name : string) (db : database) : bool :=
  existsb (λ entry : string * block_row,
    table_exists (λ _, has_stored_disposition signal_name (block_source_attempt entry.2))
      (action_rows db)
    || table_exists (λ _, has_stored_disposition artifact_name (block_source_attempt entry.2))
         (artifact_rows db))
    (map_to_list (retry_blocks db)).

Definition persistent_enforcement_blocker (db : database) : option string :=
  if block_with_disposition "delivery_unknown" "delivery_unknown" db
  then Some "managed arm is blocked by unresolved delivery-unknown cleanup"
  else if block_with_disposition "delivered" "removed" db
  then Some "managed arm is blocked by cleanup interrupted after a delivered side effect"
  else None.

Definition managed_arm_blocker (db : database) : option string :=
  if table_exists (λ _, attempt_open) (attempts db)
  then Some "managed arm is blocked by an incomplete cleanup attempt"
  else persistent_enforcement_blocker db.

(** [HistoryStore::automatic_enforcement_blocked]. *)
Definition automatic_enforcement_blocked (io : option StoreError) (db : database) :
    result bool StoreError :=
  with_connection io (Ok (bool_decide (is_Some (persistent_enforcement_blocker db)))).

(** ** Transitions of the row *)

(** [UPDATE managed_lifecycle SET .. WHERE singleton = 1]. *)
Definition update_lifecycle (f : lifecycle_row → lifecycle_row) (db : database) :
    result database StoreError :=
  match lifecycle db with
  | Some r =>
      guard? lifecycle_check (f r)
        else StoreSqlite "CHECK constraint failed: managed_lifecycle" in
      Ok (db <| lifecycle := Some (f r) |>)
  | None => Ok db
  end.

(** [effective_enforce = 0, armed_generation = NULL, enforcement_epoch = NULL]. *)
Definition disarmed_row (r : lifecycle_row) : lifecycle_row :=
  r <| lc_effective_enforce := 0%Z |> <| lc_armed_generation := None |>
    <| lc_enforcement_epoch := None |>.

(** [apply_managed_arm]. *)
Definition apply_managed_arm (enforcement_epoch : string) (occurred_at : Z) (db : database) :
    result database StoreError :=
  update_lifecycle (λ r,
    r <| lc_requested_enforce := 1%Z |> <| lc_effective_enforce := 1%Z |>
      <| lc_armed_generation := Some (lc_generation r) |>
      <| lc_enforcement_epoch := Some enforcement_epoch |> <| lc_ready := 1%Z |>
      <| lc_draining := 0%Z |> <| lc_startup_phase := "ready_enforce" |>
      <| lc_updated_at_ms := occurred_at |>)
    (db <| cooling ::= reset_cooling |>).

(** [apply_managed_report_only_ready]. *)
Definition apply_managed_report_only_ready (occurred_at : Z) (clear_requested_enforce : bool)
    (db : database) : result database StoreError :=
  update_lifecycle (λ r,
    (disarmed_row r)
      <| lc_requested_enforce :=
           if clear_requested_enforce then 0%Z else lc_requested_enforce r |>
      <| lc_ready := 1%Z |> <| lc_draining := 0%Z |>
      <| lc_startup_phase := "ready_report_only" |> <| lc_updated_at_ms := occurred_at |>) db.

(** [transition_managed]: only the exact daemon instance changes its row. *)
Definition transition_managed (io : option StoreError) (activation_generation : N)
    (instance_id : string) (occurred_at_unix_millis : N)
    (transition : ManagedLifecycle → Z → database → result database StoreError)
    (db : database) : result (database * ManagedLifecycle) StoreError :=
  let? _ := validate_managed_identity activation_generation instance_id in
  let? occurred_at := sqlite_millis occurred_at_unix_millis "managed lifecycle timestamp" in
  with_connection io (
  let? current := managed_lifecycle_connection db in
  let? current := ok_or current (StoreInvalid "managed lifecycle has not begun") in
  let? _ := require_exact_managed_identity current activation_generation instance_id in
  let? db := transition current occurred_at db in
  let? stored := managed_lifecycle_connection db in
  let? stored :=
    ok_or stored (StoreCorrupt "managed lifecycle disappeared during transition") in
  Ok (db, stored)).

(** ** Operations *)

(** A restart of the same generation keeps a request that was effective, or that a
    graceful shutdown before readiness preserved. *)
Definition carries_request (activation_generation : N) (l : ManagedLifecycle) : bool :=
  let ready_enforce_restart :=
    bool_decide (ml_startup_phase l = PhaseReadyEnforce) && ml_effective_enforce l in
  let graceful_pre_ready_restart :=
    bool_decide (ml_startup_phase l = PhaseReadyReportOnly)
    && negb (ml_ready l) && negb (ml_effective_enforce l)
    && bool_decide (ml_armed_generation l = None)
    && bool_decide (ml_enforcement_epoch l = None) in
  bool_decide (ml_activation_generation l = activation_generation)
  && ml_requested_enforce l
  && (ready_enforce_restart || graceful_pre_ready_restart).

(** [HistoryStore::begin_managed_boot]. *)
Definition begin_managed_boot (io : option StoreError) (activation_generation : N)
    (instance_id : string) (occurred_at_unix_millis : N) (db : database) :
    result (database * ManagedLifecycle) StoreError :=
  let? _ := validate_managed_identity activation_generation instance_id in
  let? generation := sqlite_generation activation_generation in
  let? occurred_at := sqlite_millis occurred_at_unix_millis "managed boot timestamp" in
  with_connection io (
  let? current := managed_lifecycle_connection db in
  let carry :=
    match current with Some l => carries_request activation_generation l | None => false end in
  let row :=
    mkLifecycleRow generation instance_id (sqlite_bool carry) 0 None None 0 0 "recovering"
      occurred_at in
  guard? lifecycle_check row else StoreSqlite "CHECK constraint failed: managed_lifecycle" in
  let db := db <| lifecycle := Some row |> in
  let? stored := managed_lifecycle_connection db in
  let? stored := ok_or stored (StoreCorrupt "managed boot did not create lifecycle state") in
  Ok (db, stored)).

(** [HistoryStore::finish_managed_recovery]. *)
Definition finish_managed_recovery (io : option StoreError) (activation_generation : N)
    (instance_id : string) (occurred_at_unix_millis : N) :
    database → result (database * ManagedLifecycle) StoreError :=
  transition_managed io activation_generation instance_id occurred_at_unix_millis
    (λ l occurred_at db,
      guard? negb (ml_draining l) else StoreInvalid "managed daemon is already draining" in
      update_lifecycle (λ r,
        (disarmed_row r) <| lc_ready := 0%Z |> <| lc_startup_phase := "first_scan_report_only" |>
          <| lc_updated_at_ms := occurred_at |>) db).

(** [HistoryStore::preserve_managed_pre_ready_restart_intent]. *)
Definition preserve_managed_pre_ready_restart_intent (io : option StoreError)
    (activation_generation : N) (instance_id : string) (occurred_at_unix_millis : N) :
    database → result (database * ManagedLifecycle) StoreError :=
  transition_managed io activation_generation instance_id occurred_at_unix_millis
    (λ l occurred_at db,
      guard? negb (ml_draining l)
        else StoreInvalid "draining managed daemon cannot preserve restart intent" in
      guard? negb (ml_ready l)
             && bool_decide (ml_startup_phase l ∈ [PhaseRecovering; PhaseFirstScanReportOnly])
        else StoreInvalid "managed daemon is not in pre-ready startup" in
      update_lifecycle (λ r,
        (disarmed_row r) <| lc_ready := 0%Z |> <| lc_draining := 0%Z |>
          <| lc_startup_phase := "ready_report_only" |>
          <| lc_updated_at_ms := occurred_at |>) db).

(** [HistoryStore::complete_managed_first_scan]. *)
Definition complete_managed_first_scan (io : option StoreError) (activation_generation : N)
    (instance_id enforcement_epoch : string) (occurred_at_unix_millis : N) (db : database) :
    result (database * ManagedLifecycle) StoreError :=
  let? _ := validate_enforcement_epoch enforcement_epoch in
  transition_managed io activation_generation instance_id occurred_at_unix_millis
    (λ l occurred_at db,
      guard? negb (ml_draining l) else StoreInvalid "managed daemon is already draining" in
      guard? bool_decide (ml_startup_phase l = PhaseFirstScanReportOnly)
        else StoreInvalid "managed daemon is not awaiting its first report-only scan" in
      if ml_requested_enforce l then
        match managed_arm_blocker db with
        | Some _ => apply_managed_report_only_ready occurred_at true db
        | None => apply_managed_arm enforcement_epoch occurred_at db
        end
      else apply_managed_report_only_ready occurred_at false db) db.

(** [HistoryStore::arm_managed]. *)
Definition arm_managed (io : option StoreError) (activation_generation : N)
    (instance_id enforcement_epoch : string) (occurred_at_unix_millis : N) (db : database) :
    result (database * ManagedLifecycle) StoreError :=
  let? _ := validate_enforcement_epoch enforcement_epoch in
  transition_managed io activation_generation instance_id occurred_at_unix_millis
    (λ l occurred_at db,
      if ml_effective_enforce l
         && bool_decide (ml_armed_generation l = Some activation_generation)
         && bool_decide (ml_enforcement_epoch l ≠ None)
      then Ok db
      else
        guard? negb (ml_draining l)
          else StoreInvalid "managed daemon is draining and cannot arm" in
        guard? ml_ready l else StoreInvalid "managed daemon is not ready for enforcement" in
        match managed_arm_blocker db with
        | Some blocker => Err (StoreInvalid blocker)
        | None => apply_managed_arm enforcement_epoch occurred_at db
        end) db.

(** [HistoryStore::clear_managed_enforce_request_offline]. *)
Definition clear_managed_enforce_request_offline (io : option StoreError)
    (activation_generation : N) (occurred_at_unix_millis : N) (db : database) :
    result (database * ManagedLifecycle) StoreError :=
  guard? negb (bool_decide (activation_generation = 0)%N)
    else StoreInvalid "managed activation generation must be greater than zero" in
  let? generation := sqlite_generation activation_generation in
  let? occurred_at :=
    sqlite_millis occurred_at_unix_millis "offline managed report-only recovery timestamp" in
  with_connection io (
  let? current := managed_lifecycle_connection db in
  let? current := ok_or current (StoreInvalid "managed lifecycle has not begun") in
  guard? bool_decide (ml_activation_generation current = activation_generation)
    else StoreInvalid ("managed activation generation mismatch: expected "
           +:+ pretty (ml_activation_generation current) +:+ ", got "
           +:+ pretty activation_generation) in
  let? db :=
    update_lifecycle (λ r,
      (disarmed_row r) <| lc_requested_enforce := 0%Z |> <| lc_ready := 0%Z |>
        <| lc_draining := 0%Z |> <| lc_startup_phase := "recovering" |>
        <| lc_updated_at_ms := occurred_at |>) db in
  let? stored := managed_lifecycle_connection db in
  let? stored :=
    ok_or stored (StoreCorrupt
      "managed lifecycle disappeared during offline report-only recovery") in
  Ok (db, stored)).

(** [HistoryStore::disarm_managed]. *)
Definition disarm_managed (io : option StoreError) (activation_generation : N)
    (instance_id : string) (occurred_at_unix_millis : N) :
    database → result (database * ManagedLifecycle) StoreError :=
  transition_managed io activation_generation instance_id occurred_at_unix_millis
    (λ l occurred_at db,
      let phase :=
        if ml_draining l then "draining"
        else if ml_ready l then "ready_report_only"
        else managed_startup_phase_name (ml_startup_phase l) in
      update_lifecycle (λ r,
        (disarmed_row r) <| lc_requested_enforce := 0%Z |> <| lc_startup_phase := phase |>
          <| lc_updated_at_ms := occurred_at |>) db).

(** [HistoryStore::begin_managed_drain]. *)
Definition begin_managed_drain (io : option StoreError) (activation_generation : N)
    (instance_id : string) (occurred_at_unix_millis : N) :
    database → result (database * ManagedLifecycle) StoreError :=
  transition_managed io activation_generation instance_id occurred_at_unix_millis
    (λ _ occurred_at db,
      update_lifecycle (λ r,
        (disarmed_row r) <| lc_requested_enforce := 0%Z |> <| lc_ready := 0%Z |>
          <| lc_draining := 1%Z |> <| lc_startup_phase := "draining" |>
          <| lc_updated_at_ms := occurred_at |>) db).

(** [HistoryStore::fail_managed]. *)
Definition fail_managed (io : option StoreError) (activation_generation : N)
    (instance_id : string) (occurred_at_unix_millis : N) :
    database → result (database * ManagedLifecycle) StoreError :=
  transition_managed io activation_generation instance_id occurred_at_unix_millis
    (λ l occurred_at db,
      let '(phase, draining) :=
        if ml_draining l then ("draining", 1%Z) else ("failed", 0%Z) in
      update_lifecycle (λ r,
        (disarmed_row r) <| lc_requested_enforce := 0%Z |> <| lc_ready := 0%Z |>
          <| lc_draining := draining |> <| lc_startup_phase := phase |>
          <| lc_updated_at_ms := occurred_at |>) db).
