(* ===== verification/LifecycleFacts.v ===== *)
(** LifecycleFacts: the managed lifecycle as a state machine.

    [service] is the abstract state of a managed daemon and [service_next] its
    transitions. The rows the store writes are exactly the images of abstract states,
    and every call of [Lifecycle.v] is the transition of the same name, or refused
    where the machine has none. *)

From S2P Require Import Prelude Text Model Artifact Evidence Cleanup Executor Analyzer Cooling.
From S2P Require Import Names Store Journal JournalFacts DurableRun StoreSafety Lifecycle.

(** ** The abstract machine *)

(** What a managed daemon is doing; [requested] is the durable wish to enforce. *)
Inductive service : Type :=
| Starting (requested : bool)
| Scanning (requested : bool)
| Waiting (requested : bool)
| Reporting
| Enforcing (epoch : string)
| Drained
| Broken.

#[export] Instance service_eq_dec : EqDecision service.
Proof. solve_decision. Defined.

Definition requested (s : service) : bool :=
  match s with
  | Starting r | Scanning r | Waiting r => r
  | Enforcing _ => true
  | Reporting | Drained | Broken => false
  end.

(** The calls the daemon makes on its own row. *)
Inductive lifecycle_call : Type :=
| CallRecovered
| CallPreserve
| CallScanned (epoch : string)
| CallArm (epoch : string)
| CallDisarm
| CallDrain
| CallFail.

(** The transitions; [blocked] says that arming is blocked, [None] that the call is
    refused. *)
Definition service_next (call : lifecycle_call) (blocked : bool) (s : service) : option service :=
  match call, s with
  | CallRecovered, Drained => None
  | CallRecovered, s => Some (Scanning (requested s))
  | CallPreserve, (Starting r | Scanning r) => Some (Waiting r)
  | CallPreserve, _ => None
  | CallScanned epoch, Scanning r => Some (if r && negb blocked then Enforcing epoch else Reporting)
  | CallScanned _, _ => None
  | CallArm _, Enforcing epoch => Some (Enforcing epoch)
  | CallArm epoch, Reporting => if blocked then None else Some (Enforcing epoch)
  | CallArm _, _ => None
  | CallDisarm, Starting _ => Some (Starting false)
  | CallDisarm, Scanning _ => Some (Scanning false)
  | CallDisarm, Waiting _ => Some (Waiting false)
  | CallDisarm, (Reporting | Enforcing _) => Some Reporting
  | CallDisarm, s => Some s
  | CallDrain, _ => Some Drained
  | CallFail, Drained => Some Drained
  | CallFail, _ => Some Broken
  end.

(** What a restart keeps of the request. *)
Definition restart_keeps (s : service) : bool :=
  match s with Enforcing _ => true | Waiting r => r | _ => false end.

(** ** Representation *)

Definition service_phase (s : service) : ManagedStartupPhase :=
  match s with
  | Starting _ => PhaseRecovering
  | Scanning _ => PhaseFirstScanReportOnly
  | Waiting _ | Reporting => PhaseReadyReportOnly
  | Enforcing _ => PhaseReadyEnforce
  | Drained => PhaseDraining
  | Broken => PhaseFailed
  end.

Definition service_epoch (s : service) : option string :=
  match s with Enforcing epoch => Some epoch | _ => None end.

Definition service_ready (s : service) : bool :=
  match s with Reporting | Enforcing _ => true | _ => false end.

Definition enforcing (s : service) : bool := match s with Enforcing _ => true | _ => false end.

Definition drained (s : service) : bool := match s with Drained => true | _ => false end.

(** The row of a generation, an instance and an abstract state. *)
Definition row_of (generation : N) (instance_id : string) (s : service) (updated_at : N) :
    lifecycle_row :=
  mkLifecycleRow (Z.of_N generation) instance_id (sqlite_bool (requested s))
    (sqlite_bool (enforcing s))
    (if enforcing s then Some (Z.of_N generation) else None) (service_epoch s)
    (sqlite_bool (service_ready s)) (sqlite_bool (drained s))
    (managed_startup_phase_name (service_phase s)) (Z.of_N updated_at).

(** The lifecycle a call answers with. *)
Definition lifecycle_of (generation : N) (instance_id : string) (s : service) (updated_at : N) :
    ManagedLifecycle :=
  mkManagedLifecycle generation instance_id (requested s) (enforcing s)
    (if enforcing s then Some generation else None) (service_epoch s) (service_ready s) (drained s)
    (service_phase s) updated_at.

(** The database holds a managed lifecycle in this abstract state. *)
Definition represents (db : database) (generation : N) (instance_id : string) (s : service)
    (updated_at : N) : Prop :=
  lifecycle db = Some (row_of generation instance_id s updated_at) ∧ (0 < generation)%N.

(** The step begins to enforce. *)
Definition begins_to_enforce (s s' : service) : bool :=
  match s, s' with
  | Enforcing _, _ => false
  | _, Enforcing _ => true
  | _, _ => false
  end.

(** Nothing but the lifecycle changed; with [reset], the abandonment clocks are cleared. *)
Definition only_lifecycle (reset : bool) (db db' : database) : Prop :=
  ∃ r, db' = db <| lifecycle := r |> <| cooling := if reset then ∅ else cooling db |>.

(** The call of the source. *)
Definition run_call (io : option StoreError) (call : lifecycle_call) (generation : N)
    (instance_id : string) (now : N) (db : database) :
    result (database * ManagedLifecycle) StoreError :=
  match call with
  | CallRecovered => finish_managed_recovery io generation instance_id now db
  | CallPreserve => preserve_managed_pre_ready_restart_intent io generation instance_id now db
  | CallScanned epoch => complete_managed_first_scan io generation instance_id epoch now db
  | CallArm epoch => arm_managed io generation instance_id epoch now db
  | CallDisarm => disarm_managed io generation instance_id now db
  | CallDrain => begin_managed_drain io generation instance_id now db
  | CallFail => fail_managed io generation instance_id now db
  end.

(** The arguments the validators accept. *)
Definition valid_call (call : lifecycle_call) (instance_id : string) (now : N) : Prop :=
  validate_managed_identity 1 instance_id = Ok tt ∧ (Z.of_N now < 2 ^ 63)%Z ∧
  match call with
  | CallScanned epoch | CallArm epoch => validate_enforcement_epoch epoch = Ok tt
  | _ => True
  end.

(** ** Lemmas *)

Lemma parse_sqlite_bool_of b field : parse_sqlite_bool (sqlite_bool b) field = Ok b.
Proof. by destruct b. Qed.

Lemma u64_of_N n message : u64_or_corrupt (Z.of_N n) message = Ok n.
Proof.
  unfold u64_or_corrupt, u64_try_from. rewrite bool_decide_eq_true_2 by lia. simpl.
  by rewrite N2Z.id.
Qed.

(** Reading back a row gives its lifecycle. *)
Lemma parse_row_of generation instance_id s at_ :
  parse_lifecycle_row (row_of generation instance_id s at_) =
    Ok (lifecycle_of generation instance_id s at_).
Proof.
  unfold parse_lifecycle_row, row_of. cbn [lc_generation lc_instance_id lc_requested_enforce
    lc_effective_enforce lc_armed_generation lc_enforcement_epoch lc_ready lc_draining
    lc_startup_phase lc_updated_at_ms].
  rewrite !u64_of_N, !parse_sqlite_bool_of.
  rewrite (@parse_stored_name _ stored_phase (service_phase s) :
    parse_managed_startup_phase (managed_startup_phase_name (service_phase s)) =
      Ok (service_phase s)).
  by destruct s; simpl; rewrite ?u64_of_N.
Qed.

(** The rows of abstract states satisfy the constraints of the table. *)
Lemma row_of_check generation instance_id s at_ :
  (0 < generation)%N → lifecycle_check (row_of generation instance_id s at_) = true.
Proof.
  intros Hg. unfold lifecycle_check, row_of. simpl.
  rewrite (bool_decide_eq_true_2 (0 < Z.of_N generation)%Z) by lia.
  rewrite (bool_decide_eq_true_2 (0 ≤ Z.of_N at_)%Z) by lia.
  destruct s as [[]|[]|[]| | | |]; simpl; try reflexivity.
  by repeat (case_bool_decide; [|lia || naive_solver]).
Qed.

Lemma read_represented db generation instance_id s at_ :
  represents db generation instance_id s at_ →
  managed_lifecycle_connection db = Ok (Some (lifecycle_of generation instance_id s at_)).
Proof.
  intros [Hl _]. unfold managed_lifecycle_connection. rewrite Hl. simpl.
  by rewrite parse_row_of.
Qed.

Lemma valid_identity_iff generation instance_id :
  validate_managed_identity 1 instance_id = Ok tt → (0 < generation)%N →
  validate_managed_identity generation instance_id = Ok tt.
Proof.
  unfold validate_managed_identity. intros [_ H]%guard_Ok Hg. apply guard_Ok. split; [|exact H].
  rewrite bool_decide_eq_false_2 by lia. done.
Qed.

Lemma transition_represented db generation instance_id s at_ now tr :
  represents db generation instance_id s at_ →
  validate_managed_identity 1 instance_id = Ok tt → (Z.of_N now < 2 ^ 63)%Z →
  transition_managed None generation instance_id now tr db =
    (let? db' := tr (lifecycle_of generation instance_id s at_) (Z.of_N now) db in
     let? stored := managed_lifecycle_connection db' in
     let? stored :=
       ok_or stored (StoreCorrupt "managed lifecycle disappeared during transition") in
     Ok (db', stored)).
Proof.
  intros Hrep Hid Hnow. unfold transition_managed.
  rewrite (valid_identity_iff generation instance_id Hid (proj2 Hrep)). simpl.
  rewrite (proj2 (sqlite_millis_Ok now _ _) (conj eq_refl Hnow)). simpl.
  rewrite (read_represented _ _ _ _ _ Hrep). simpl.
  unfold require_exact_managed_identity. by rewrite !bool_decide_eq_true_2.
Qed.

Lemma update_represented db generation instance_id s at_ s' now f :
  represents db generation instance_id s at_ →
  f (row_of generation instance_id s at_) = row_of generation instance_id s' now →
  update_lifecycle f db = Ok (db <| lifecycle := Some (row_of generation instance_id s' now) |>).
Proof.
  intros [Hl Hg] Hf. unfold update_lifecycle. by rewrite Hl, Hf, row_of_check.
Qed.

(** A successful call ends in the next state and answers it. *)
Definition reaches (reset : bool) (db : database) (generation : N) (instance_id : string) (s : service)
    (answer : result (database * ManagedLifecycle) StoreError) : Prop :=
  ∃ db' at_, answer = Ok (db', lifecycle_of generation instance_id s at_) ∧
    represents db' generation instance_id s at_ ∧ only_lifecycle reset db db'.

Lemma transition_reaches reset db generation instance_id s at_ s' now tr db1 :
  represents db generation instance_id s at_ →
  validate_managed_identity 1 instance_id = Ok tt → (Z.of_N now < 2 ^ 63)%Z →
  tr (lifecycle_of generation instance_id s at_) (Z.of_N now) db = Ok db1 →
  (∃ at', represents db1 generation instance_id s' at') → only_lifecycle reset db db1 →
  reaches reset db generation instance_id s' (transition_managed None generation instance_id now tr db).
Proof.
  intros Hrep Hid Hnow Htr [at' Hrep'] Honly.
  rewrite (transition_represented _ _ _ _ _ _ _ Hrep Hid Hnow), Htr. simpl.
  rewrite (read_represented _ _ _ _ _ Hrep'). simpl. by exists db1, at'.
Qed.

Lemma represents_set db generation instance_id s s0 at_ at0 :
  represents db generation instance_id s0 at0 →
  represents (db <| lifecycle := Some (row_of generation instance_id s at_) |>)
    generation instance_id s at_.
Proof. intros [_ Hg]. by split. Qed.

Lemma only_lifecycle_set db r : only_lifecycle false db (db <| lifecycle := r |>).
Proof. exists r. by destruct db. Qed.

(** The update of a row in one state to the row of another. *)
Ltac reach Hrep :=
  lazymatch goal with
  | |- reaches _ _ _ _ ?s' (transition_managed _ _ _ ?now _ _) =>
      eapply transition_reaches;
        [exact Hrep|done|done
        |cbn beta; eapply (update_represented _ _ _ _ _ s' now _ Hrep); reflexivity
        |eexists; eapply represents_set; exact Hrep|apply only_lifecycle_set]
  end.

(** The call is refused. *)
Ltac refuse Hrep :=
  solve [eexists; rewrite (transition_represented _ _ _ _ _ _ _ Hrep) by done; reflexivity].

Lemma arm_reaches db generation instance_id s at_ now tr epoch :
  represents db generation instance_id s at_ →
  validate_managed_identity 1 instance_id = Ok tt → (Z.of_N now < 2 ^ 63)%Z →
  tr (lifecycle_of generation instance_id s at_) (Z.of_N now) db =
    apply_managed_arm epoch (Z.of_N now) db →
  reaches true db generation instance_id (Enforcing epoch)
    (transition_managed None generation instance_id now tr db).
Proof.
  intros Hrep Hid Hnow Htr.
  eapply (transition_reaches _ _ _ _ _ _ _ _ _
    (db <| cooling ::= reset_cooling |>
        <| lifecycle := Some (row_of generation instance_id (Enforcing epoch) now) |>) Hrep Hid Hnow).
  - rewrite Htr. unfold apply_managed_arm.
    eapply (update_represented (db <| cooling ::= reset_cooling |>) generation instance_id s at_).
    + destruct Hrep as [Hl Hg]. by split.
    + done.
  - exists now. destruct Hrep as [_ Hg]. by split.
  - exists (Some (row_of generation instance_id (Enforcing epoch) now)). by destruct db.
Qed.

(** On a row of any abstract state, a call with valid arguments by the exact instance
    is its transition, or refused where the machine has none. *)
Lemma call_refines call db generation instance_id s at_ now :
  represents db generation instance_id s at_ → valid_call call instance_id now →
  match service_next call (bool_decide (is_Some (managed_arm_blocker db))) s with
  | Some s' =>
      reaches (begins_to_enforce s s') db generation instance_id s'
        (run_call None call generation instance_id now db)
  | None => ∃ message,
      run_call None call generation instance_id now db = Err (StoreInvalid message)
  end.
Proof.
  intros Hrep (Hid & Hnow & Hepoch).
  destruct call; cbn [service_next run_call] in *;
    unfold complete_managed_first_scan, arm_managed, finish_managed_recovery,
      preserve_managed_pre_ready_restart_intent, disarm_managed, begin_managed_drain, fail_managed;
    rewrite ?Hepoch; cbn [result_bind].
  - destruct s as [r|r|r| |e| |]; cbn match; try refuse Hrep; reach Hrep.
  - destruct s as [r|r|r| |e| |]; cbn match; try refuse Hrep; reach Hrep.
  - destruct s as [r|r|r| |e| |]; cbn match; try refuse Hrep.
    destruct (managed_arm_blocker db) as [m|] eqn:Hb; simpl.
    + rewrite andb_false_r. destruct r.
      * eapply transition_reaches; [exact Hrep|done|done|cbn; rewrite Hb| |].
        -- eapply (update_represented _ _ _ _ _ Reporting now _ Hrep). reflexivity.
        -- eexists. eapply represents_set, Hrep.
        -- apply only_lifecycle_set.
      * reach Hrep.
    + destruct r; simpl; [|reach Hrep].
      eapply arm_reaches; [exact Hrep|done|done|]. cbn. by rewrite Hb.
  - destruct s as [r|r|r| |e| |]; cbn match; try refuse Hrep.
    + destruct (managed_arm_blocker db) as [m|] eqn:Hb; simpl.
      * rewrite (transition_represented _ _ _ _ _ _ _ Hrep) by done. cbn. rewrite Hb. eauto.
      * eapply arm_reaches; [exact Hrep|done|done|]. cbn. by rewrite Hb.
    + eapply transition_reaches; [exact Hrep|done|done| | |].
      * cbn. by rewrite bool_decide_eq_true_2.
      * eauto.
      * exists (lifecycle db). by destruct db.
  - destruct s as [r|r|r| |e| |]; cbn match; reach Hrep.
  - destruct s as [r|r|r| |e| |]; reach Hrep.
  - destruct s as [r|r|r| |e| |]; cbn match; reach Hrep.
Qed.

(** ** Boots and other instances *)

(** What a boot keeps of the row of any earlier instance. *)
Lemma boot_carries generation generation' i s at_ :
  carries_request generation (lifecycle_of generation' i s at_) =
    bool_decide (generation' = generation) && restart_keeps s.
Proof.
  unfold carries_request. simpl. case_bool_decide; [|done]. simpl.
  by destruct s as [[]|[]|[]| | | |].
Qed.

Lemma begin_boot_represents generation instance_id now db :
  validate_managed_identity generation instance_id = Ok tt →
  (Z.of_N generation < 2 ^ 63)%Z → (Z.of_N now < 2 ^ 63)%Z →
  (lifecycle db = None ∨ ∃ g i s at_, represents db g i s at_) →
  reaches false db generation instance_id
    (Starting match lifecycle db with
              | Some r => bool_decide (lc_generation r = Z.of_N generation) &&
                  match parse_lifecycle_row r with
                  | Ok l => carries_request generation l
                  | Err _ => false
                  end
              | None => false
              end)
    (begin_managed_boot None generation instance_id now db).
Proof.
  intros Hid Hg Hnow Hdb. unfold begin_managed_boot. rewrite Hid. cbn [result_bind].
  unfold sqlite_generation. rewrite (proj2 (i64_or_range_Ok generation _ _) (conj eq_refl Hg)).
  cbn [result_bind]. rewrite (proj2 (sqlite_millis_Ok now _ _) (conj eq_refl Hnow)).
  cbn [result_bind with_connection].
  assert (0 < generation)%N as Hpos.
  { unfold validate_managed_identity in Hid. apply guard_Ok in Hid as [Hz _].
    apply negb_true_iff, bool_decide_eq_false in Hz. lia. }
  set (carry := match lifecycle db with Some r => _ | None => _ end).
  assert (managed_lifecycle_connection db =
    Ok (match lifecycle db with
        | Some r => match parse_lifecycle_row r with Ok l => Some l | Err _ => None end
        | None => None
        end)) as ->.
  { unfold managed_lifecycle_connection. destruct Hdb as [->|(g & i & s & at_ & [-> _])]; [done|].
    simpl. by rewrite parse_row_of. }
  cbn [result_bind].
  set (c' := match match lifecycle db with Some _ => _ | None => _ end with
             | Some l => _ | None => _ end).
  assert (c' = carry) as ->.
  { unfold c', carry. destruct Hdb as [->|(g & i & s & at_ & [-> Hg0])]; [done|].
    rewrite parse_row_of. cbn [lc_generation row_of].
    destruct (decide (g = generation)) as [-> |Hne].
    - by rewrite (bool_decide_eq_true_2 (Z.of_N generation = Z.of_N generation)%Z).
    - rewrite boot_carries, (bool_decide_eq_false_2 (g = generation)) by done.
      by rewrite andb_false_r. }
  change (mkLifecycleRow (Z.of_N generation) instance_id (sqlite_bool carry) 0 None None 0 0
            "recovering" (Z.of_N now)) with (row_of generation instance_id (Starting carry) now).
  rewrite row_of_check by done.
  assert (represents (db <| lifecycle := Some (row_of generation instance_id (Starting carry) now) |>)
            generation instance_id (Starting carry) now) as Hrep by by split.
  rewrite (read_represented _ _ _ _ _ Hrep). cbn [result_bind ok_or].
  eexists _, now. split_and!; [done|done|apply only_lifecycle_set].
Qed.

(** A call by anyone but the exact instance is refused. *)
Lemma other_instance_refused io call db generation instance_id s at_ generation' instance_id' now :
  represents db generation instance_id s at_ →
  (generation', instance_id') ≠ (generation, instance_id) →
  ¬ is_Ok (run_call io call generation' instance_id' now db).
Proof.
  intros Hrep Hne.
  assert (∀ tr, ¬ is_Ok (transition_managed io generation' instance_id' now tr db)) as Htr.
  { intros tr [x Hx]. unfold transition_managed in Hx.
    apply result_bind_Ok in Hx as (? & _ & (z & _ & Hx)%result_bind_Ok).
    apply with_connection_Ok in Hx as [_ Hx]. rewrite (read_represented _ _ _ _ _ Hrep) in Hx.
    cbn [result_bind ok_or] in Hx. apply result_bind_Ok in Hx as (? & Hx & _).
    unfold require_exact_managed_identity in Hx.
    apply guard_Ok in Hx as [Hg%bool_decide_eq_true Hx].
    apply guard_Ok in Hx as [Hi%bool_decide_eq_true _]. simpl in *. by subst. }
  destruct call; cbn [run_call]; try apply Htr.
  - intros [x Hx]. unfold complete_managed_first_scan in Hx.
    apply result_bind_Ok in Hx as (? & _ & Hx). by eapply Htr; eexists.
  - intros [x Hx]. unfold arm_managed in Hx.
    apply result_bind_Ok in Hx as (? & _ & Hx). by eapply Htr; eexists.
Qed.

(** [C22] The durable lifecycle refines the abstract machine. On a row of any abstract
    state, a call with valid arguments by the exact instance is its transition — it
    commits the row of the next state, answers that state and touches nothing else but
    the abandonment clocks, which are cleared by the step that begins to enforce and by no
    other — and is refused exactly where the machine has no transition. Any other instance
    or generation is always refused. *)
Theorem lifecycle_refines_service call db generation instance_id s at_ caller now :
  represents db generation instance_id s at_ → valid_call call caller.2 now →
  match
    if decide (caller = (generation, instance_id))
    then service_next call (bool_decide (is_Some (managed_arm_blocker db))) s else None
  with
  | Some s' => reaches (begins_to_enforce s s') db generation instance_id s'
      (run_call None call caller.1 caller.2 now db)
  | None => ∃ e, run_call None call caller.1 caller.2 now db = Err e
  end.
Proof.
  intros Hrep Hvalid. destruct (decide _) as [-> |Hne].
  - pose proof (call_refines call db generation instance_id s at_ now Hrep Hvalid) as H.
    destruct (service_next _ _ _); [exact H|]. destruct H as [message H]. eauto.
  - destruct caller as [generation' instance_id'].
    pose proof (other_instance_refused None call db generation instance_id s at_ generation'
                  instance_id' now Hrep Hne) as H.
    cbn [fst snd]. destruct (run_call _ _ _ _ _ _) as [x|e]; [|eauto].
    destruct H. by exists x.
Qed.

(** ** Every row is a service

    Boots, calls and the offline command, by anyone, in any order, between which
    everything else writes what it likes but the row. *)

Inductive lifecycle_history : database → Prop :=
| history_new namespace : lifecycle_history (new_database namespace)
| history_other db db' :
    lifecycle_history db → lifecycle db' = lifecycle db → lifecycle_history db'
| history_boot io generation instance_id now db db' l :
    lifecycle_history db →
    begin_managed_boot io generation instance_id now db = Ok (db', l) → lifecycle_history db'
| history_call io call generation instance_id now db db' l :
    lifecycle_history db →
    run_call io call generation instance_id now db = Ok (db', l) → lifecycle_history db'
| history_offline io generation now db db' l :
    lifecycle_history db →
    clear_managed_enforce_request_offline io generation now db = Ok (db', l) →
    lifecycle_history db'.

Definition some_service (db : database) : Prop :=
  lifecycle db = None ∨
  ∃ generation instance_id s at_, represents db generation instance_id s at_.

Lemma validate_identity_Ok generation instance_id :
  validate_managed_identity generation instance_id = Ok tt →
  validate_managed_identity 1 instance_id = Ok tt.
Proof.
  unfold validate_managed_identity. intros [_ H]%guard_Ok. apply guard_Ok. by split.
Qed.

Lemma transition_Ok io generation instance_id now tr db x :
  transition_managed io generation instance_id now tr db = Ok x →
  io = None ∧ validate_managed_identity 1 instance_id = Ok tt ∧ (Z.of_N now < 2 ^ 63)%Z ∧
  lifecycle db ≠ None.
Proof.
  unfold transition_managed. intros ([] & Hv%validate_identity_Ok & H)%result_bind_Ok.
  apply result_bind_Ok in H as (z & [_ Hz]%sqlite_millis_Ok & H).
  apply with_connection_Ok in H as [-> H]. split_and!; [done|done|done|].
  intros E. unfold managed_lifecycle_connection in H. by rewrite E in H.
Qed.

Lemma run_call_Ok io call generation instance_id now db x :
  run_call io call generation instance_id now db = Ok x →
  io = None ∧ valid_call call instance_id now ∧ lifecycle db ≠ None.
Proof.
  unfold valid_call. destruct call; cbn [run_call]; intros H;
    try (apply transition_Ok in H; tauto).
  - unfold complete_managed_first_scan in H. apply result_bind_Ok in H as ([] & He & H).
    apply transition_Ok in H. tauto.
  - unfold arm_managed in H. apply result_bind_Ok in H as ([] & He & H).
    apply transition_Ok in H. tauto.
Qed.

Lemma offline_represents io generation now db db' l g i s at_ :
  represents db g i s at_ →
  clear_managed_enforce_request_offline io generation now db = Ok (db', l) →
  represents db' g i (Starting false) now.
Proof.
  intros Hrep H. unfold clear_managed_enforce_request_offline in H.
  apply guard_Ok in H as [_ H]. apply result_bind_Ok in H as (gz & _ & H).
  apply result_bind_Ok in H as (z & [-> _]%sqlite_millis_Ok & H).
  apply with_connection_Ok in H as [_ H]. rewrite (read_represented _ _ _ _ _ Hrep) in H.
  cbn [result_bind ok_or] in H. apply guard_Ok in H as [_ H].
  erewrite (update_represented _ _ _ _ _ (Starting false) now _ Hrep) in H by reflexivity.
  cbn [result_bind] in H. apply result_bind_Ok in H as (? & _ & H).
  apply result_bind_Ok in H as (? & _ & [= <- _]). by eapply represents_set.
Qed.

(** A boot that succeeded started its instance. *)
Lemma boot_represents io g i now db db' l :
  begin_managed_boot io g i now db = Ok (db', l) → some_service db →
  ∃ carry at_, represents db' g i (Starting carry) at_ ∧ l = lifecycle_of g i (Starting carry) at_.
Proof.
  intros Hb Hdb. unfold begin_managed_boot in Hb. pose proof Hb as Hb'.
  apply result_bind_Ok in Hb as ([] & Hv & Hb).
  apply result_bind_Ok in Hb as (gz & [_ Hg]%i64_or_range_Ok & Hb).
  apply result_bind_Ok in Hb as (z & [_ Hz]%sqlite_millis_Ok & Hb).
  apply with_connection_Ok in Hb as [-> _].
  destruct (begin_boot_represents g i now db Hv Hg Hz Hdb) as (db2 & at_ & Hb2 & Hrep & _).
  unfold begin_managed_boot in Hb2. rewrite Hb' in Hb2. injection Hb2 as -> ->. eauto.
Qed.

(** A call that succeeded was made by the instance of the row. *)
Lemma call_represents io call g i now db db' l :
  run_call io call g i now db = Ok (db', l) → some_service db →
  ∃ s at_, represents db' g i s at_.
Proof.
  intros Hc Hdb. pose proof (run_call_Ok _ _ _ _ _ _ _ Hc) as (-> & Hvalid & Hsome).
  destruct Hdb as [Hn|(g0 & i0 & s & at_ & Hrep)]; [done|].
  destruct (decide ((g, i) = (g0, i0))) as [[= -> ->]|Hne].
  - pose proof (call_refines call db g0 i0 s at_ now Hrep Hvalid) as H.
    destruct (service_next _ _ _) as [s'|].
    + destruct H as (db2 & at' & H & Hrep' & _). rewrite Hc in H. injection H as -> _. eauto.
    + destruct H as [message H]. congruence.
  - destruct (other_instance_refused None call db g0 i0 s at_ g i now Hrep Hne). by eexists.
Qed.

Lemma history_service db : lifecycle_history db → some_service db.
Proof.
  intros Hh. induction Hh as [ns|db db' Hh IH E|io g i now db db' l Hh IH Hb
                             |io call g i now db db' l Hh IH Hc|io g now db db' l Hh IH Ho].
  - by left.
  - unfold some_service, represents. by rewrite E.
  - right. destruct (boot_represents _ _ _ _ _ _ _ Hb IH) as (carry & at_ & Hrep & _). eauto.
  - right. destruct (call_represents _ _ _ _ _ _ _ _ Hc IH) as (s & at_ & Hrep). eauto.
  - destruct IH as [Hn|(g0 & i0 & s & at_ & Hrep)].
    + unfold clear_managed_enforce_request_offline in Ho. apply guard_Ok in Ho as [_ Ho].
      apply result_bind_Ok in Ho as (? & _ & Ho). apply result_bind_Ok in Ho as (? & _ & Ho).
      apply with_connection_Ok in Ho as [_ Ho]. unfold managed_lifecycle_connection in Ho.
      by rewrite Hn in Ho.
    + right. eapply offline_represents in Ho; eauto.
Qed.

(** [C39] The row always decodes: whatever boots, calls and offline recoveries wrote the
    lifecycle, in whatever order and by whichever instance, the row is that of exactly
    one state of the abstract machine, and reading it back never reports corruption.
    In particular no row says ready or enforcing in a phase that is not. *)
Theorem every_row_is_a_service db :
  lifecycle_history db →
  (lifecycle db = None ∧ managed_lifecycle_connection db = Ok None) ∨
  ∃ generation instance_id s at_,
    lifecycle db = Some (row_of generation instance_id s at_) ∧ (0 < generation)%N ∧
    managed_lifecycle_connection db = Ok (Some (lifecycle_of generation instance_id s at_)).
Proof.
  intros [Hn|(g & i & s & at_ & Hrep)]%history_service.
  - left. split; [done|]. unfold managed_lifecycle_connection. by rewrite Hn.
  - right. exists g, i, s, at_. split_and!; [apply Hrep|apply Hrep|by apply read_represented].
Qed.

(** ** Uncertain cleanups *)

Lemma block_with_disposition_true db incident b s a k r :
  retry_blocks db !! incident = Some b → rows (action_rows db) !! k = Some r →
  row_attempt r = block_source_attempt b → row_disposition r = Some s →
  block_with_disposition s a db = true.
Proof.
  intros Hb Hk Hr Hd. unfold block_with_disposition. apply existsb_elem. exists (incident, b).
  split; [by apply elem_of_map_to_list|]. apply orb_true_iff. left. simpl.
  rewrite table_exists_iff. exists k, r. split; [done|]. unfold has_stored_disposition.
  by rewrite !bool_decide_eq_true_2.
Qed.

Lemma block_with_artifact_true db incident b s a k r :
  retry_blocks db !! incident = Some b → rows (artifact_rows db) !! k = Some r →
  row_attempt r = block_source_attempt b → row_disposition r = Some a →
  block_with_disposition s a db = true.
Proof.
  intros Hb Hk Hr Hd. unfold block_with_disposition. apply existsb_elem. exists (incident, b).
  split; [by apply elem_of_map_to_list|]. apply orb_true_iff. right. simpl.
  rewrite table_exists_iff. exists k, r. split; [done|]. unfold has_stored_disposition.
  by rewrite !bool_decide_eq_true_2.
Qed.

Lemma blocker_of_disposition db d :
  (d = ("delivery_unknown", "delivery_unknown") ∨ d = ("delivered", "removed")) →
  block_with_disposition d.1 d.2 db = true → is_Some (managed_arm_blocker db).
Proof.
  intros Hd Hb. unfold managed_arm_blocker, persistent_enforcement_blocker.
  destruct (table_exists _ _); [done|].
  destruct (block_with_disposition "delivery_unknown" _ db) eqn:E; [done|].
  destruct Hd as [-> | ->]; simpl in Hb; [congruence|]. by rewrite Hb.
Qed.

(** An action of an attempt may have had an effect. *)
Definition may_have_acted (attempt : Z) (db : database) : Prop :=
  (∃ k r, rows (action_rows db) !! k = Some r ∧ row_attempt r = attempt ∧
     (row_disposition r = None ∨ row_disposition r = Some "delivery_unknown" ∨
      row_disposition r = Some "delivered")) ∨
  (∃ k r, rows (artifact_rows db) !! k = Some r ∧ row_attempt r = attempt ∧
     (row_disposition r = None ∨ row_disposition r = Some "delivery_unknown" ∨
      row_disposition r = Some "removed")).

(** An interrupted cleanup that may have had an effect keeps the daemon from
    enforcing: if the attempt that recovery closes has an action that was PREPARED,
    delivery-unknown or delivered (or an artifact removed), then in every later
    database that still has the block of its incident and its rows, arming is blocked:
    neither the first scan nor an explicit arm reaches enforcement. *)
Theorem uncertain_cleanup_blocks_arming
    `{JE : Json EventPayload, JR : Json CleanupResources, JP : Json (list N)}
    random io now db db' receipts id a db'' call generation instance_id s at_ epoch :
  store_wf db → recover_incomplete_attempts random io now db = Ok (db', receipts) →
  rows (attempts db) !! id = Some a → attempt_completed_at_ms a = None →
  may_have_acted id db →
  retry_blocks db'' !! attempt_incident_id a = retry_blocks db' !! attempt_incident_id a →
  same_rows id (action_rows db') (action_rows db'') →
  same_rows id (artifact_rows db') (artifact_rows db'') →
  represents db'' generation instance_id s at_ → enforcing s = false →
  call = CallScanned epoch ∨ call = CallArm epoch →
  service_next call (bool_decide (is_Some (managed_arm_blocker db''))) s ≠ Some (Enforcing epoch).
Proof.
  intros Hwf Hrec Ha Hopen Hacted Hblocks Hact Hart Hrep Hs Hcall.
  destruct (recover_rows _ _ _ _ _ _ Hrec Hwf) as (_ & Hra & Hraa & Hclosed).
  destruct (Hclosed id a Ha Hopen) as [_ (b & Hb & Hsrc & _)]. rewrite Hb in Hblocks.
  assert (is_Some (managed_arm_blocker db'')) as Hblocker.
  { destruct Hacted as [(k & r & Hk & Hr & Hd)|(k & r & Hk & Hr & Hd)].
    - destruct (Hra k r Hk) as (r' & Hk' & Hr' & _ & _ & Hd').
      assert (rows (action_rows db'') !! k = Some r') as Hk'' by (apply Hact; congruence).
      destruct Hd as [Hd|[Hd|Hd]]; rewrite Hd in Hd';
        [apply (blocker_of_disposition _ ("delivery_unknown", "delivery_unknown"))
        |apply (blocker_of_disposition _ ("delivery_unknown", "delivery_unknown"))
        |apply (blocker_of_disposition _ ("delivered", "removed"))];
        auto; eapply block_with_disposition_true; eauto; congruence.
    - destruct (Hraa k r Hk) as (r' & Hk' & Hr' & _ & _ & Hd').
      assert (rows (artifact_rows db'') !! k = Some r') as Hk'' by (apply Hart; congruence).
      destruct Hd as [Hd|[Hd|Hd]]; rewrite Hd in Hd';
        [apply (blocker_of_disposition _ ("delivery_unknown", "delivery_unknown"))
        |apply (blocker_of_disposition _ ("delivery_unknown", "delivery_unknown"))
        |apply (blocker_of_disposition _ ("delivered", "removed"))];
        auto; eapply block_with_artifact_true; eauto; congruence. }
  rewrite bool_decide_eq_true_2 by done.
  destruct Hcall as [-> | ->]; destruct s as [[]|[]|[]| | | |]; done.
Qed.
