(* ===== verification/Protocol.v ===== *)
(** Protocol: the part of [unlinger-protocol/src/lib.rs] that the store and the control
    plane decide with: mutation requests, their receipts, and the identifiers a client
    may choose. *)

From S2P Require Import Prelude Text.
From Stdlib Require Import Ascii.

(** ** Data *)

Record MutationContext : Type := mkMutationContext {
  context_namespace_token : string;
  context_mutation_id : string;
}.

Inductive MutationKind : Type :=
| KindPause
| KindResume
| KindRetryFailedCleanup
| KindProtectIncident
| KindUnprotectIncident.

#[export] Instance MutationKind_eq_dec : EqDecision MutationKind.
Proof. solve_decision. Defined.

(** [ProtectionSummary]; the store's [ProtectedIncidentSummary] has the same fields. *)
Record ProtectionSummary : Type := mkProtectionSummary {
  summary_incident_id : string;
  protected_at_unix_millis : N;
  last_exact_observed_at_unix_millis : option N;
  exact_absence_since_unix_millis : option N;
}.

#[export] Instance ProtectionSummary_eq_dec : EqDecision ProtectionSummary.
Proof. solve_decision. Defined.

Inductive MutationResult : Type :=
| Paused (until_unix_millis : N)
| Resumed
| RetryScheduled (incident_id : string)
| IncidentProtected (protection : ProtectionSummary)
| IncidentUnprotected (incident_id : string).

#[export] Instance MutationResult_eq_dec : EqDecision MutationResult.
Proof. solve_decision. Defined.

Inductive MutationOutcome : Type :=
| Applied (result : MutationResult)
| OutcomeNoChange (reason_id : string)
| OutcomeRejected (reason_id : string).

#[export] Instance MutationOutcome_eq_dec : EqDecision MutationOutcome.
Proof. solve_decision. Defined.

Record MutationReceipt : Type := mkMutationReceipt {
  mr_namespace_token : string;
  mr_mutation_id : string;
  mr_kind : MutationKind;
  mr_committed_at_unix_millis : N;
  mr_retain_until_unix_millis : N;
  mr_policy_revision_after : N;
  mr_outcome : MutationOutcome;
}.

#[export] Instance MutationReceipt_eq_dec : EqDecision MutationReceipt.
Proof. solve_decision. Defined.

(** ** Identifiers *)

(** [value.bytes().enumerate().all(p)]. *)
Fixpoint all_indexed (p : nat → ascii → bool) (i : nat) (s : string) : bool :=
  match s with
  | EmptyString => true
  | String c s => p i c && all_indexed p (S i) s
  end.

(** A mutation ID has the shape of a UUID; a byte that passes is ASCII. *)
Definition is_valid_mutation_id (value : string) : bool :=
  bool_decide (String.length value = 36)
  && all_indexed (λ i c, if bool_decide (i ∈ [8; 13; 18; 23]) then Ascii.eqb c "-"
                         else is_ascii_hexdigit c) 0 value.

Definition is_valid_namespace_token (value : string) : bool :=
  bool_decide (String.length value = 32)
  && all_bytes (λ c, is_ascii_digit c || is_lower_hex_letter c) value.

(** ** Producer caches *)

Inductive ToolCacheAvailability : Type :=
| CacheAvailable
| CacheAbsent
| CacheUnsupported
| CacheUnavailable.

Inductive ToolCacheKind : Type :=
| NpmDownloadCache
| UvCache
| NodeCompileCache.

#[export] Instance ToolCacheKind_eq_dec : EqDecision ToolCacheKind.
Proof. solve_decision. Defined.

Inductive ToolCacheOutcome : Type :=
| CacheRunning
| CacheNoOp
| CacheCompleted
| CacheBusy
| CacheFailed
| CacheDeliveryUnknown.

#[export] Instance ToolCacheOutcome_eq_dec : EqDecision ToolCacheOutcome.
Proof. solve_decision. Defined.

Record ToolCacheAttemptSummary : Type := mkToolCacheAttemptSummary {
  tc_outcome : ToolCacheOutcome;
  tc_prepared_at_unix_millis : N;
  tc_completed_at_unix_millis : option N;
  tc_native_removed_entry_count : option N;
  tc_native_removed_logical_bytes : option N;
}.

(** [NodeCompileCacheAttemptSummary]. *)
Record NodeCompileCacheAttemptSummary : Type := mkNodeCompileCacheAttemptSummary {
  nc_outcome : ToolCacheOutcome;
  nc_prepared_at_unix_millis : N;
  nc_completed_at_unix_millis : option N;
  nc_removed_entry_count : option N;
  nc_removed_logical_bytes : option N;
}.

(** [ToolCacheMaintenanceSummary] and [NodeCompileCacheMaintenanceSummary], which
    differ in the type of the attempt. *)
Record CacheMaintenanceSummary (A : Type) : Type := mkCacheMaintenanceSummary {
  cm_kind : ToolCacheKind;
  cm_observed_at_unix_millis : N;
  cm_availability : ToolCacheAvailability;
  cm_automatic_maintenance_eligible : bool;
  cm_last_attempt : option A;
}.
Arguments mkCacheMaintenanceSummary {A}.
