(* ===== verification/Mutations.v ===== *)
(** Mutations: the owner's ordinary mutations in [unlinger-daemon/src/store.rs].

    A mutation is decided by the policy of [Decisions.v] on facts read in its own
    transaction, applied to the pause, the retry blocks or the protections, and
    recorded with a receipt under the client's mutation ID, so that a request that is
    sent again answers the first receipt. *)

From S2P Require Import Prelude Text Model Artifact Evidence Cleanup Executor Analyzer Decisions.
From S2P Require Import Cooling Names Store Journal Protocol.
From Stdlib Require Import Ascii.

(** ** Data *)

Definition MAX_MUTATION_RECEIPTS : Z := 10000.

Definition MUTATION_RECONCILIATION_WINDOW_MILLIS : N := 14 * 24 * 60 * 60 * 1000.

(** [OrdinaryMutation::kind]. *)
Definition mutation_kind (m : OrdinaryMutation) : MutationKind :=
  match m with
  | Pause _ => KindPause
  | Resume => KindResume
  | RetryFailedCleanup _ => KindRetryFailedCleanup
  | ProtectIncident _ => KindProtectIncident
  | UnprotectIncident _ => KindUnprotectIncident
  end.

Record MutationCommit : Type := mkMutationCommit {
  commit_receipt : MutationReceipt;
  newly_committed : bool;
  state_changed : bool;
}.

Inductive MutationLookup : Type :=
| LookupCommitted (receipt : MutationReceipt)
| LookupNotFound
| LookupAuthorityLost.

(** The key of the receipt of a request. *)
Definition receipt_key (context : MutationContext) : string * string :=
  (context_namespace_token context, context_mutation_id context).

(** ** Facts *)

(** [settings] holds the deadline of a pause under this key. *)
Definition pause_key : string := "pause_until_ms".

(** [current_mutation_namespace]. *)
Definition current_mutation_namespace (db : database) : result string StoreError :=
  if is_valid_namespace_token (mutation_namespace db) then Ok (mutation_namespace db)
  else Err (StoreCorrupt "mutation authority namespace has an invalid shape").

(** [cleanup_policy_revision_connection]. *)
Definition cleanup_policy_revision_connection (db : database) : result N StoreError :=
  u64_or_corrupt (policy_revision db) "cleanup policy revision is negative".

(** [reserve_mutation_receipt_slot]. *)
Definition reserve_mutation_receipt_slot (db : database) : result unit StoreError :=
  guard? bool_decide (Z.of_nat (size (mutation_receipts db)) < MAX_MUTATION_RECEIPTS)%Z
    else StoreCapacity ("the mutation receipt authority has reached its "
           +:+ pretty MAX_MUTATION_RECEIPTS +:+ "-receipt admission limit") in
  Ok tt.

(** [SELECT 1 FROM events WHERE incident_id = ?1 AND kind = 'observation']. *)
Definition observed (incident : string) (db : database) : bool :=
  table_exists (λ _ e, bool_decide (event_incident_id e = incident)
                       && bool_decide (event_kind e = "observation")) (events db).

(** The incident a mutation is about. *)
Definition mutation_incident (m : OrdinaryMutation) : option string :=
  match m with
  | Pause _ | Resume => None
  | RetryFailedCleanup incident | ProtectIncident incident | UnprotectIncident incident =>
      Some incident
  end.

(** [store_policy_facts_connection]. *)
Definition store_policy_facts_connection (mutation : OrdinaryMutation) (now_unix_millis : N)
    (db : database) : result StorePolicyFacts StoreError :=
  let? now := sqlite_millis now_unix_millis "policy evaluation timestamp" in
  let paused :=
    match settings db !! pause_key with
    | Some (Some deadline) => bool_decide (now < deadline)%Z
    | _ => false
    end in
  match mutation_incident mutation with
  | None => Ok (mkStorePolicyFacts paused false false false)
  | Some incident =>
      Ok (mkStorePolicyFacts paused (bool_decide (is_Some (retry_blocks db !! incident)))
            (observed incident db) (bool_decide (is_Some (protections db !! incident))))
  end.

(** [HistoryStore::incident_has_observation]. *)
Definition incident_has_observation (io : option StoreError) (incident : string) (db : database) :
    result bool StoreError :=
  with_connection io (Ok (observed incident db)).

(** [HistoryStore::mutation_namespace_token]. *)
Definition mutation_namespace_token (io : option StoreError) (db : database) :
    result string StoreError :=
  with_connection io (current_mutation_namespace db).

(** [HistoryStore::cleanup_policy_revision]. *)
Definition cleanup_policy_revision (io : option StoreError) (db : database) :
    result N StoreError :=
  with_connection io (cleanup_policy_revision_connection db).

(** [HistoryStore::public_action_store_facts]. *)
Definition public_action_store_facts (io : option StoreError) (mutation : OrdinaryMutation)
    (now_unix_millis : N) (db : database) : result StorePolicyFacts StoreError :=
  with_connection io (store_policy_facts_connection mutation now_unix_millis db).

(** [projected_protection_summary]. *)
Definition projected_protection_summary (incident : string) (r : protection_row) :
    result ProtectionSummary StoreError :=
  let? protected_at :=
    parse_nonnegative_millis (protected_at_ms r) "incident protection timestamp" in
  let? last_observed :=
    option_transpose (λ v, parse_nonnegative_millis v "last protected root observation")
      (protection_last_exact_observed_at_ms r) in
  let? absence :=
    option_transpose (λ v, parse_nonnegative_millis v "protected root absence timestamp")
      (protection_absence_since_ms r) in
  Ok (mkProtectionSummary (project_identifier incident "redacted-incident") protected_at
        last_observed absence).

(** [protection_summary_transaction]. *)
Definition protection_summary_transaction (incident : string) (db : database) :
    result (option ProtectionSummary) StoreError :=
  option_transpose (projected_protection_summary incident) (protections db !! incident).

(** ** Applying a mutation *)

(** SQLite's [length] of a TEXT: the bytes that start a character. *)
Fixpoint sqlite_length (s : string) : nat :=
  match s with
  | EmptyString => 0
  | String c s => (if is_cont c then 0 else 1) + sqlite_length s
  end.

(** [ORDER BY occurred_at_ms DESC, id DESC LIMIT 1] over the observations of an
    incident: the entries come in the order of their keys. *)
Definition latest_observation (incident : string) (db : database) : option event_row :=
  fold_left (λ best entry,
    let e := entry.2 in
    if bool_decide (event_incident_id e = incident) && bool_decide (event_kind e = "observation")
    then match best with
         | Some b =>
             if bool_decide (event_occurred_at_ms b ≤ event_occurred_at_ms e)%Z then Some e else best
         | None => Some e
         end
    else best) (table_entries (events db)) None.

Section Mutations.
Context `{JE : Json EventPayload, JM : Json OrdinaryMutation, JR : Json MutationReceipt}.

(** [validate_stored_mutation_receipt]. *)
Definition validate_stored_mutation_receipt (receipt : MutationReceipt) (context : MutationContext)
    (expected_kind : MutationKind) : result unit StoreError :=
  guard? bool_decide (mr_namespace_token receipt = context_namespace_token context)
         && bool_decide (mr_mutation_id receipt = context_mutation_id context)
         && bool_decide (mr_kind receipt = expected_kind)
         && bool_decide (mr_committed_at_unix_millis receipt ≤ mr_retain_until_unix_millis receipt)%N
    else StoreCorrupt
           "stored mutation receipt disagrees with its durable index or canonical request" in
  Ok tt.

(** [mutation_receipt_connection]. *)
Definition mutation_receipt_connection (context : MutationContext) (db : database) :
    result (option MutationReceipt) StoreError :=
  option_transpose (λ row,
    let? receipt := from_json (rr_receipt_json row) in
    let? _ := validate_stored_mutation_receipt receipt context (mr_kind receipt) in
    Ok receipt) (mutation_receipts db !! receipt_key context).

(** [HistoryStore::mutation_lookup]. *)
Definition mutation_lookup (io : option StoreError) (context : MutationContext) (db : database) :
    result MutationLookup StoreError :=
  with_connection io (
  let? found := mutation_receipt_connection context db in
  match found with
  | Some receipt => Ok (LookupCommitted receipt)
  | None =>
      let? current := current_mutation_namespace db in
      Ok (if bool_decide (current = context_namespace_token context)
          then LookupNotFound else LookupAuthorityLost)
  end).

(** The protection [apply_ordinary_mutation] inserts: of the report of the latest
    observation. *)
Definition protection_of (incident : string) (protected_at : Z) (e : event_row) :
    result protection_row StoreError :=
  let? payload := from_json (event_payload_json e) in
  match payload with
  | PayloadObservation report =>
      guard? bool_decide (obs_incident_id report = incident)
        else StoreCorrupt "observation incident ID disagrees with its index" in
      Ok (mkProtectionRow (root_identity_fingerprint (obs_root report))
            (obs_member_fingerprint report) protected_at None None)
  | PayloadCleanup _ =>
      Err (StoreCorrupt "observation index selected a non-observation payload")
  end.

(** [apply_ordinary_mutation]. *)
Definition apply_ordinary_mutation (mutation : OrdinaryMutation) (committed_at_unix_millis : N)
    (db : database) : result (database * MutationResult) StoreError :=
  let? committed_at := sqlite_millis committed_at_unix_millis "mutation timestamp" in
  match mutation with
  | Pause duration_millis =>
      let? deadline :=
        ok_or (checked_add committed_at_unix_millis duration_millis)
          (StoreRange "pause deadline overflowed u64") in
      let? deadline_sqlite := sqlite_millis deadline "pause deadline" in
      Ok (db <| settings ::= <[pause_key := Some deadline_sqlite]> |>, Paused deadline)
  | Resume =>
      guard? bool_decide (is_Some (settings db !! pause_key))
        else StoreCorrupt "resume policy allowed without an exact durable pause" in
      Ok (db <| settings ::= delete pause_key |>, Resumed)
  | RetryFailedCleanup incident =>
      let? block :=
        ok_or (retry_blocks db !! incident)
          (StoreCorrupt "retry policy allowed without an exact cleanup block") in
      Ok (db <| retry_blocks ::= delete incident |>
             <| cooling ::= forget_cooling (block_tracking_key block) |>, RetryScheduled incident)
  | ProtectIncident incident =>
      let? event :=
        ok_or (latest_observation incident db)
          (StoreCorrupt "protection policy allowed without an exact observation") in
      let? row := protection_of incident committed_at event in
      guard? bool_decide (protections db !! incident = None)
        else StoreSqlite "UNIQUE constraint failed: incident_protections.incident_id" in
      guard? protection_check row
        else StoreSqlite "CHECK constraint failed: incident_protections" in
      let db := db <| protections ::= <[incident := row]> |> in
      let? stored := protection_summary_transaction incident db in
      let? stored :=
        ok_or stored (StoreCorrupt "incident protection disappeared during creation") in
      Ok (db, IncidentProtected stored)
  | UnprotectIncident incident =>
      guard? bool_decide (is_Some (protections db !! incident))
        else StoreCorrupt "unprotect policy allowed without an exact protection" in
      Ok (db <| protections ::= delete incident |>, IncidentUnprotected incident)
  end.

(** ** Committing a mutation *)

(** The decided outcome of a new request, and whether it changed anything. *)
Definition decide_mutation (runtime_facts : RuntimePolicyFacts) (mutation : OrdinaryMutation)
    (committed_at_unix_millis : N) (db : database) :
    result (database * MutationOutcome * bool) StoreError :=
  let? store_facts := store_policy_facts_connection mutation committed_at_unix_millis db in
  match evaluate_action runtime_facts store_facts mutation with
  | Allow =>
      let? applied := apply_ordinary_mutation mutation committed_at_unix_millis db in
      Ok (applied.1, Applied applied.2, true)
  | NoChange reason_id => Ok (db, OutcomeNoChange reason_id, false)
  | Reject reason_id => Ok (db, OutcomeRejected reason_id, false)
  end.

(** The policy revision after a mutation. *)
Definition advance_revision (changed : bool) (db : database) : result (database * N) StoreError :=
  let? current := cleanup_policy_revision_connection db in
  if changed then
    let? next :=
      ok_or (checked_add current 1) (StoreRange "cleanup policy revision overflowed u64") in
    let? stored := sqlite_millis next "cleanup policy revision" in
    Ok (db <| policy_revision := stored |>, next)
  else Ok (db, current).

(** [INSERT INTO ordinary_mutation_receipts]. *)
Definition insert_mutation_receipt (context : MutationContext) (row : receipt_row) (db : database) :
    result database StoreError :=
  guard? bool_decide (mutation_receipts db !! receipt_key context = None)
    else StoreSqlite "UNIQUE constraint failed: ordinary_mutation_receipts" in
  guard? bool_decide (sqlite_length (context_namespace_token context) = 32)
         && bool_decide (sqlite_length (context_mutation_id context) = 36) && receipt_check row
    else StoreSqlite "CHECK constraint failed: ordinary_mutation_receipts" in
  Ok (db <| mutation_receipts ::= <[receipt_key context := row]> |>).

(** [HistoryStore::commit_public_ordinary_mutation]. *)
Definition commit_public_ordinary_mutation (io : option StoreError) (context : MutationContext)
    (mutation : OrdinaryMutation) (runtime_facts : RuntimePolicyFacts)
    (committed_at_unix_millis : N) (db : database) :
    result (database * MutationCommit) StoreError :=
  let? committed_at := sqlite_millis committed_at_unix_millis "mutation timestamp" in
  let? retain_until_unix_millis :=
    ok_or (checked_add committed_at_unix_millis MUTATION_RECONCILIATION_WINDOW_MILLIS)
      (StoreRange "mutation retention deadline overflowed u64") in
  let? retain_until := sqlite_millis retain_until_unix_millis "mutation retention deadline" in
  let command_json := json_to_string mutation in
  with_connection io (
  match mutation_receipts db !! receipt_key context with
  | Some row =>
      guard? bool_decide (rr_canonical_version row = 1)%Z
             && bool_decide (rr_command_json row = command_json)
        else StoreConflict
               "mutation ID was already committed for a different canonical request" in
      let? receipt := from_json (rr_receipt_json row) in
      let? _ := validate_stored_mutation_receipt receipt context (mutation_kind mutation) in
      Ok (db, mkMutationCommit receipt false false)
  | None =>
      let? current := current_mutation_namespace db in
      guard? bool_decide (current = context_namespace_token context)
        else StoreAuthorityLost
               "request namespace is no longer current and has no retained receipt" in
      let? _ := reserve_mutation_receipt_slot db in
      let? decided := decide_mutation runtime_facts mutation committed_at_unix_millis db in
      let '(db, outcome, changed) := decided in
      let? advanced := advance_revision changed db in
      let '(db, policy_revision_after) := advanced in
      let receipt :=
        mkMutationReceipt (context_namespace_token context) (context_mutation_id context)
          (mutation_kind mutation) committed_at_unix_millis retain_until_unix_millis
          policy_revision_after outcome in
      let? db :=
        insert_mutation_receipt context
          (mkReceiptRow 1 command_json (json_to_string receipt) committed_at retain_until) db in
      Ok (db, mkMutationCommit receipt true changed)
  end).

(** [HistoryStore::commit_ordinary_mutation]: with the default runtime facts. *)
Definition commit_ordinary_mutation (io : option StoreError) (context : MutationContext)
    (mutation : OrdinaryMutation) (committed_at_unix_millis : N) (db : database) :
    result (database * MutationCommit) StoreError :=
  commit_public_ordinary_mutation io context mutation (mkRuntimePolicyFacts false false)
    committed_at_unix_millis db.
End Mutations.
