(* ===== verification/Observations.v ===== *)
(** Observations: the observation history of [unlinger-daemon/src/store.rs], and what
    each cycle does with it: observation spans, the reconciliation of protections and
    of retry blocks with what is alive, the pause, and pruning. *)

From S2P Require Import Prelude Text Model Artifact Evidence Cleanup Executor Analyzer Cooling.
From S2P Require Import Names Store Journal Protocol Mutations.
From Stdlib Require Import Ascii.

#[export] Instance RootSummary_eq_dec : EqDecision RootSummary.
Proof. solve_decision. Defined.

#[export] Instance ProcessRoleCount_eq_dec : EqDecision ProcessRoleCount.
Proof. solve_decision. Defined.

(** ** Spans *)

(** [observations_semantically_equal]: everything but the resident memory. *)
Definition observations_semantically_equal (previous current : ObservationRecord) : bool :=
  bool_decide (obs_incident_id previous = obs_incident_id current)
  && bool_decide (obs_signature_pack previous = obs_signature_pack current)
  && bool_decide (obs_signature_version previous = obs_signature_version current)
  && bool_decide (obs_state previous = obs_state current)
  && bool_decide (obs_root previous = obs_root current)
  && bool_decide (obs_member_count previous = obs_member_count current)
  && bool_decide (obs_member_fingerprint previous = obs_member_fingerprint current)
  && bool_decide (obs_roles previous = obs_roles current)
  && bool_decide (obs_evidence previous = obs_evidence current)
  && bool_decide (obs_gates previous = obs_gates current).

(** [ORDER BY occurred_at_ms DESC, id DESC LIMIT 1] over the events of an incident. *)
Definition latest_event (incident : string) (db : database) : option (Z * event_row) :=
  fold_left (λ best entry,
    let e := entry.2 in
    if bool_decide (event_incident_id e = incident) then
      match best with
      | Some (_, b) =>
          if bool_decide (event_occurred_at_ms b ≤ event_occurred_at_ms e)%Z then Some entry
          else best
      | None => Some entry
      end
    else best) (table_entries (events db)) None.

(** A span that another sighting extends. *)
Definition extended_event (occurred_at : Z) (payload_json : string) (e : event_row) : event_row :=
  mkEventRow (event_incident_id e) (event_first_occurred_at_ms e) occurred_at
    (event_observation_count e + 1) (event_kind e) (event_state e) payload_json (event_attempt e).

Section Observations.
Context `{JE : Json EventPayload} (random : token_source).

(** [upsert_observation_span_transaction]. *)
Definition upsert_observation_span_transaction (occurred_at_unix_millis : N)
    (report : ObservationRecord) (db : database) : result (database * Z) StoreError :=
  let? occurred_at := sqlite_millis occurred_at_unix_millis "observation timestamp" in
  let insert :=
    insert_event_transaction random None occurred_at_unix_millis (obs_incident_id report)
      KindObservation (obs_state report) (PayloadObservation report) db in
  match latest_event (obs_incident_id report) db with
  | Some (event_id, e) =>
      if bool_decide (event_kind e = event_kind_name KindObservation)
         && bool_decide (event_occurred_at_ms e ≤ occurred_at)%Z
      then
        let? payload := from_json (event_payload_json e) in
        match payload with
        | PayloadObservation previous =>
            if observations_semantically_equal previous report then
              let? events' :=
                table_update "events" event_check
                  (λ id e, bool_decide (id = event_id) && bool_decide (event_kind e = "observation"))
                  (extended_event occurred_at (json_to_string (PayloadObservation report)))
                  (events db) in
              Ok (db <| events := events' |>, event_id)
            else insert
        | PayloadCleanup _ => insert
        end
      else insert
  | None => insert
  end.

(** [HistoryStore::record_observation]. *)
Definition record_observation (io : option StoreError) (occurred_at_unix_millis : N)
    (report : IncidentReport) (db : database) : result (database * Z) StoreError :=
  with_connection io
    (upsert_observation_span_transaction occurred_at_unix_millis (observation_record report) db).

(** The loop of [record_observation_batch]. *)
Fixpoint record_reports (occurred_at_unix_millis : N) (reports : list IncidentReport)
    (db : database) : result (database * list Z) StoreError :=
  match reports with
  | [] => Ok (db, [])
  | report :: reports =>
      let? one :=
        upsert_observation_span_transaction occurred_at_unix_millis (observation_record report) db in
      let? rest := record_reports occurred_at_unix_millis reports one.1 in
      Ok (rest.1, one.2 :: rest.2)
  end.

(** [HistoryStore::record_observation_batch]. *)
Definition record_observation_batch (io : option StoreError) (occurred_at_unix_millis : N)
    (reports : list IncidentReport) (db : database) : result (database * list Z) StoreError :=
  with_connection io (record_reports occurred_at_unix_millis reports db).
End Observations.

(** ** Reconciliation

    Protections and retry blocks are reconciled alike: a row whose process is seen is
    observed, a row that is not seen while absence cannot be proved restarts its
    absence, and a row proved absent for the retention is deleted. *)

(** [ProtectionReconciliation] and [RetryBlockReconciliation]. *)
Record Reconciliation : Type := mkReconciliation {
  observed_count : N;
  unproven_count : N;
  absent_count : N;
  retired_count : N;
}.

Definition default_reconciliation : Reconciliation := mkReconciliation 0 0 0 0.

(** The columns the loops write. *)
Record reconciled_table (R : Type) : Type := mkReconciledTable {
  rt_name : string;
  rt_check : R → bool;
  rt_set_observed : Z → R → R;
  rt_set_absence : option Z → R → R;
  rt_absence : R → option Z;
}.
Arguments mkReconciledTable {R}.
Arguments rt_name {R} _.
Arguments rt_check {R} _.
Arguments rt_set_observed {R} _.
Arguments rt_set_absence {R} _.
Arguments rt_absence {R} _.

(** [UPDATE .. WHERE incident_id = ?]. *)
Definition update_incident {R} (rt : reconciled_table R) (incident : string) (f : R → R)
    (t : gmap string R) : result (gmap string R) StoreError :=
  match t !! incident with
  | Some r =>
      guard? rt_check rt (f r)
        else StoreSqlite ("CHECK constraint failed: " +:+ rt_name rt) in
      Ok (<[incident := f r]> t)
  | None => Ok t
  end.

(** The body of the loop: [seen] says whether the row's process is alive. *)
Definition reconcile_row {R} (rt : reconciled_table R) (seen absence_proven : bool)
    (now retention : Z) (incident : string) (absence_since : option Z)
    (s : gmap string R * Reconciliation) :
    result (gmap string R * Reconciliation) StoreError :=
  let '(t, c) := s in
  if seen then
    let? t := update_incident rt incident (rt_set_absence rt None ∘ rt_set_observed rt now) t in
    Ok (t, mkReconciliation (observed_count c + 1) (unproven_count c) (absent_count c)
             (retired_count c))
  else if negb absence_proven then
    let? t := update_incident rt incident (rt_set_absence rt None) t in
    Ok (t, mkReconciliation (observed_count c) (unproven_count c + 1) (absent_count c)
             (retired_count c))
  else
    let c := mkReconciliation (observed_count c) (unproven_count c) (absent_count c + 1)
               (retired_count c) in
    match absence_since with
    | None =>
        let? t := update_incident rt incident (rt_set_absence rt (Some now)) t in Ok (t, c)
    | Some since =>
        if bool_decide (retention ≤ i64_saturating_sub now since)%Z
        then Ok (delete incident t,
                 mkReconciliation (observed_count c) (unproven_count c) (absent_count c)
                   (retired_count c + 1))
        else Ok (t, c)
    end.

(** The loop over the rows read at the start of the transaction. *)
Fixpoint reconcile_rows {R} (rt : reconciled_table R) (seen : string → R → bool)
    (absence_proven : bool) (now retention : Z) (read : list (string * R))
    (s : gmap string R * Reconciliation) : result (gmap string R * Reconciliation) StoreError :=
  match read with
  | [] => Ok s
  | (incident, r) :: read =>
      let? s :=
        reconcile_row rt (seen incident r) absence_proven now retention incident
          (rt_absence rt r) s in
      reconcile_rows rt seen absence_proven now retention read s
  end.

Definition protections_table : reconciled_table protection_row :=
  mkReconciledTable "incident_protections" protection_check
    (λ now r, mkProtectionRow (protection_root_identity r) (protection_members r)
                (protected_at_ms r) (Some now) (protection_absence_since_ms r))
    (λ since r, mkProtectionRow (protection_root_identity r) (protection_members r)
                  (protected_at_ms r) (protection_last_exact_observed_at_ms r) since)
    protection_absence_since_ms.

Definition retry_blocks_table : reconciled_table block_row :=
  mkReconciledTable "cleanup_retry_blocks" block_check
    (λ now b, mkBlockRow (block_tracking_key b) (blocked_at_ms b) (block_reason_id b)
                (block_source_attempt b) (Some now) (block_absence_since_ms b))
    (λ since b, mkBlockRow (block_tracking_key b) (blocked_at_ms b) (block_reason_id b)
                  (block_source_attempt b) (block_last_exact_observed_at_ms b) since)
    block_absence_since_ms.

(** [HistoryStore::reconcile_incident_protections]. *)
Definition reconcile_incident_protections (io : option StoreError)
    (live_root_identity_fingerprints : gset string) (absence_proven : bool)
    (now_unix_millis exact_absence_retention_millis : N) (db : database) :
    result (database * Reconciliation) StoreError :=
  guard? negb (bool_decide (exact_absence_retention_millis = 0)%N)
    else StoreInvalid "protection exact-absence retention must be non-zero" in
  let? now := sqlite_millis now_unix_millis "protection reconciliation timestamp" in
  let? retention :=
    sqlite_millis exact_absence_retention_millis "protection exact-absence retention" in
  with_connection io (
  let? reconciled :=
    reconcile_rows protections_table
      (λ _ r, bool_decide (protection_root_identity r ∈ live_root_identity_fingerprints))
      absence_proven now retention (map_to_list (protections db))
      (protections db, default_reconciliation) in
  Ok (db <| protections := reconciled.1 |>, reconciled.2)).

Record ObservedIncidentIdentity : Type := mkObservedIncidentIdentity {
  oi_incident_id : string;
  oi_tracking_key : string;
  oi_root_identity_fingerprint : string;
  oi_member_fingerprint : string;
}.

#[export] Instance ObservedIncidentIdentity_eq_dec : EqDecision ObservedIncidentIdentity.
Proof. solve_decision. Defined.

(** [ObservedIncidentIdentity::from]. *)
Definition observed_incident_identity (report : IncidentReport) : ObservedIncidentIdentity :=
  mkObservedIncidentIdentity (incident_id report) (tracking_key report)
    (root_identity_fingerprint (root report)) (member_fingerprint report).

(** Whether the incident of a block is alive; its identity is that of its attempt. *)
Definition block_seen (seen : list ObservedIncidentIdentity) (live : gset string)
    (db : database) (incident : string) (b : block_row) : bool :=
  match rows (attempts db) !! block_source_attempt b with
  | Some a =>
      bool_decide (mkObservedIncidentIdentity incident (block_tracking_key b)
                     (attempt_root_identity a) (attempt_members a) ∈ seen)
      || bool_decide (attempt_root_identity a ∈ live)
  | None => false
  end.

(** [HistoryStore::reconcile_retry_blocks]; the join drops a block without attempt. *)
Definition reconcile_retry_blocks (io : option StoreError)
    (seen : list ObservedIncidentIdentity) (live_root_identity_fingerprints : gset string)
    (absence_proven : bool) (now_unix_millis exact_absence_retention_millis : N)
    (db : database) : result (database * Reconciliation) StoreError :=
  guard? negb (bool_decide (exact_absence_retention_millis = 0)%N)
    else StoreInvalid "retry block exact-absence retention must be non-zero" in
  let? now := sqlite_millis now_unix_millis "retry block reconciliation timestamp" in
  let? retention :=
    sqlite_millis exact_absence_retention_millis "retry block exact-absence retention" in
  with_connection io (
  let joined :=
    List.filter (λ entry, bool_decide (is_Some (rows (attempts db) !! block_source_attempt entry.2)))
      (map_to_list (retry_blocks db)) in
  let? reconciled :=
    reconcile_rows retry_blocks_table (block_seen seen live_root_identity_fingerprints db)
      absence_proven now retention joined (retry_blocks db, default_reconciliation) in
  Ok (db <| retry_blocks := reconciled.1 |>, reconciled.2)).

(** [HistoryStore::is_incident_protected]: of the exact incident. *)
Definition is_incident_protected (io : option StoreError) (report : IncidentReport)
    (db : database) : result bool StoreError :=
  with_connection io (Ok match protections db !! incident_id report with
    | Some r => bool_decide (protection_root_identity r = root_identity_fingerprint (root report))
                && bool_decide (protection_members r = member_fingerprint report)
    | None => false
    end).

(** [HistoryStore::unprotect_incident]. *)
Definition unprotect_incident (io : option StoreError) (incident : string) (db : database) :
    result (database * bool) StoreError :=
  with_connection io
    (Ok (db <| protections ::= delete incident |>,
         bool_decide (is_Some (protections db !! incident)))).

(** The upsert of [protect_incident]: the same root and members keep their times. *)
Definition upsert_protection (excluded : protection_row) (existing : option protection_row) :
    protection_row :=
  match existing with
  | Some r =>
      if bool_decide (protection_root_identity r = protection_root_identity excluded)
         && bool_decide (protection_members r = protection_members excluded)
      then r else excluded
  | None => excluded
  end.

(** [HistoryStore::protect_incident]. *)
Definition protect_incident `{JE : Json EventPayload} (io : option StoreError) (incident : string)
    (now_unix_millis : N) (db : database) :
    result (database * option ProtectionSummary) StoreError :=
  let? now := sqlite_millis now_unix_millis "incident protection timestamp" in
  with_connection io (
  match latest_observation incident db with
  | None =>
      let? existing := protection_summary_transaction incident db in
      Ok (db, existing)
  | Some event =>
      let? excluded := protection_of incident now event in
      guard? protection_check excluded
        else StoreSqlite "CHECK constraint failed: incident_protections" in
      let db :=
        db <| protections ::= partial_alter (Some ∘ upsert_protection excluded) incident |> in
      let? stored := protection_summary_transaction incident db in
      let? stored :=
        ok_or stored (StoreCorrupt "incident protection disappeared during creation") in
      Ok (db, Some stored)
  end).

(** ** The pause *)

(** [HistoryStore::set_pause_until]. *)
Definition set_pause_until (io : option StoreError) (pause_until_unix_millis : option N)
    (db : database) : result database StoreError :=
  with_connection io
  match pause_until_unix_millis with
  | Some deadline =>
      let? deadline := i64_or_range deadline "pause deadline overflowed SQLite integer" in
      Ok (db <| settings ::= <[pause_key := Some deadline]> |>)
  | None => Ok (db <| settings ::= delete pause_key |>)
  end.

(** [HistoryStore::pause_until]: a NULL deadline is an SQLite error. *)
Definition pause_until (io : option StoreError) (db : database) : result (option N) StoreError :=
  with_connection io
  match settings db !! pause_key with
  | None => Ok None
  | Some None => Err (StoreSqlite "Invalid column type Null")
  | Some (Some value) =>
      let? deadline := u64_or_corrupt value "negative persisted pause deadline" in
      Ok (Some deadline)
  end.

(** ** Pruning *)

Record RetentionPolicy : Type := mkRetentionPolicy {
  max_age_millis : N;
  max_events : N;
}.

(** [RetentionPolicy::default]. *)
Definition default_retention : RetentionPolicy :=
  mkRetentionPolicy (14 * 24 * 60 * 60 * 1000) 10000.

Definition CLEANUP_DETAIL_RETENTION_MILLIS : N := 14 * 24 * 60 * 60 * 1000.

Record PruneResult : Type := mkPruneResult {
  removed_events : N;
  remaining_events : N;
}.

(** [event_count]. *)
Definition event_count (db : database) : N := N.of_nat (length (table_entries (events db))).

Definition is_observation (e : event_row) : bool := bool_decide (event_kind e = "observation").

(** [a] comes before [b] in [ORDER BY occurred_at_ms DESC, id DESC]. *)
Definition later_event (a b : Z * event_row) : bool :=
  bool_decide (event_occurred_at_ms b.2 < event_occurred_at_ms a.2)%Z
  || bool_decide (event_occurred_at_ms a.2 = event_occurred_at_ms b.2)
     && bool_decide (b.1 < a.1)%Z.

(** The observation is among the first [limit] of that order. *)
Definition among_latest (limit : Z) (t : table event_row) (id : Z) (e : event_row) : bool :=
  bool_decide (Z.of_nat (length (List.filter
    (λ entry, is_observation entry.2 && later_event entry (id, e)) (table_entries t))) < limit)%Z.

(** Nothing refers to the completed attempt any more. *)
Definition attempt_unreferenced (db : database) (id : Z) (a : attempt_row) : bool :=
  negb (attempt_open a)
  && negb (table_exists (λ _ e, bool_decide (event_attempt e = Some id)) (events db))
  && negb (existsb (λ entry : string * block_row, bool_decide (block_source_attempt entry.2 = id))
             (map_to_list (retry_blocks db)))
  && negb (table_exists (λ _ i, bool_decide (impact_attempt i = id)) (impacts db)).

(** The rows of an unreferenced attempt. *)
Definition row_unreferenced {S} (db : database) (r : journal_row S) : bool :=
  match rows (attempts db) !! row_attempt r with
  | Some a => attempt_unreferenced db (row_attempt r) a
  | None => false
  end.

(** The two DELETEs of observation events. *)
Definition prune_observations (cutoff limit : Z) (t : table event_row) : table event_row :=
  let t :=
    table_delete (λ _ e, is_observation e && bool_decide (event_occurred_at_ms e < cutoff)%Z) t in
  table_delete (λ id e, is_observation e && negb (among_latest limit t id e)) t.

(** The DELETE of cleanup events without an impact. *)
Definition prune_cleanup_events (cutoff : Z) (impacts' : table impact_row) (t : table event_row) :
    table event_row :=
  table_delete (λ id e,
    bool_decide (event_kind e = "cleanup") && bool_decide (event_occurred_at_ms e < cutoff)%Z
    && negb (table_exists (λ _ i, bool_decide (impact_event i = id)) impacts')) t.

(** [public_event_tokens] go with their events. *)
Definition cascade_tokens (t : table event_row) (tokens' : gmap Z string) : gmap Z string :=
  filter (λ entry, is_Some (rows t !! entry.1)) tokens'.

(** The transaction of [prune]; [namespace] is the random token of a new receipt
    authority. *)
Definition prune_transaction (namespace : string) (cutoff cleanup_cutoff limit now : Z)
    (db : database) : database :=
  let db := db <| events ::= prune_observations cutoff limit |> in
  let db :=
    db <| impacts ::= table_delete (λ _ i, bool_decide (impact_occurred_at_ms i < cleanup_cutoff)%Z) |> in
  let db := db <| events ::= prune_cleanup_events cleanup_cutoff (impacts db) |> in
  let db := db <| tokens ::= cascade_tokens (events db) |> <| cooling ::= prune_cooling cutoff |> in
  let kept := filter (λ entry, (now < rr_retain_until_ms entry.2)%Z) (mutation_receipts db) in
  let db :=
    if bool_decide (size kept < size (mutation_receipts db))
    then db <| mutation_receipts := kept |> <| mutation_namespace := namespace |>
    else db in
  let db :=
    db <| action_rows := table_delete (λ _, row_unreferenced db) (action_rows db) |>
       <| artifact_rows := table_delete (λ _, row_unreferenced db) (artifact_rows db) |> in
  db <| attempts := table_delete (attempt_unreferenced db) (attempts db) |>.

(** [HistoryStore::prune]; the counts are read outside the transaction. *)
Definition prune (namespace : string) (io : option StoreError) (now_unix_millis : N)
    (policy : RetentionPolicy) (db : database) : result (database * PruneResult) StoreError :=
  with_connection io (
  let before := event_count db in
  let? cutoff :=
    i64_or_range (now_unix_millis - max_age_millis policy) "retention cutoff overflowed i64" in
  let? cleanup_cutoff :=
    i64_or_range
      (now_unix_millis - N.max (max_age_millis policy) CLEANUP_DETAIL_RETENTION_MILLIS)
      "cleanup retention cutoff overflowed i64" in
  let? limit := i64_or_range (max_events policy) "retention event limit overflowed i64" in
  let? now := sqlite_millis now_unix_millis "mutation receipt prune timestamp" in
  let db := prune_transaction namespace cutoff cleanup_cutoff limit now db in
  Ok (db, mkPruneResult (before - event_count db) (event_count db))).
