(* ===== verification/MutationFacts.v ===== *)
(** MutationFacts: the owner's mutations, verified.

    A request whose arguments are in range is always decided, by the policy; an allowed
    mutation has the effect of the owner's direct call; and a request that is sent
    again answers the first receipt and changes nothing. *)

From S2P Require Import Prelude Text Model Artifact Evidence Cleanup Executor Analyzer Decisions.
From S2P Require Import Cooling Names Store Journal JournalFacts Protocol Mutations Observations.
From Stdlib Require Import Ascii.

#[export] Instance OrdinaryMutation_eq_dec : EqDecision OrdinaryMutation.
Proof. solve_decision. Defined.

(** ** Specification *)

(** The direct call with the effect of a mutation at time [now]. *)
Definition direct_call `{JE : Json EventPayload} (m : OrdinaryMutation) (now : N) (db : database) :
    result database StoreError :=
  match m with
  | Pause duration => set_pause_until None (Some (now + duration)%N) db
  | Resume => set_pause_until None None db
  | RetryFailedCleanup incident => let? r := authorize_retry None incident now db in Ok r.1
  | ProtectIncident incident => let? r := protect_incident None incident now db in Ok r.1
  | UnprotectIncident incident => let? r := unprotect_incident None incident db in Ok r.1
  end.

(** Every observation event holds an observation of its incident. *)
Definition observations_wf `{JE : Json EventPayload} (db : database) : Prop :=
  ∀ id e, rows (events db) !! id = Some e → event_kind e = "observation" →
    ∃ report, json_from_str (event_payload_json e) = Ok (PayloadObservation report) ∧
      obs_incident_id report = event_incident_id e.

(** The arguments of a new request are in range. *)
Record admissible (context : MutationContext) (m : OrdinaryMutation) (now : N) (db : database) :
    Prop := {
  admissible_new : mutation_receipts db !! receipt_key context = None;
  admissible_namespace : current_mutation_namespace db = Ok (context_namespace_token context);
  admissible_id : is_valid_mutation_id (context_mutation_id context) = true;
  admissible_capacity : (Z.of_nat (size (mutation_receipts db)) < MAX_MUTATION_RECEIPTS)%Z;
  admissible_time : (Z.of_N (now + MUTATION_RECONCILIATION_WINDOW_MILLIS) < 2 ^ 63)%Z;
  admissible_deadline :
    match m with Pause duration => (Z.of_N (now + duration) < 2 ^ 63)%Z | _ => True end;
  admissible_revision : (0 ≤ policy_revision db < 2 ^ 63 - 1)%Z;
}.

(** The receipt of a decided request. *)
Definition decided_receipt (context : MutationContext) (m : OrdinaryMutation) (now : N)
    (revision : N) (outcome : MutationOutcome) : MutationReceipt :=
  mkMutationReceipt (context_namespace_token context) (context_mutation_id context)
    (mutation_kind m) now (now + MUTATION_RECONCILIATION_WINDOW_MILLIS) revision outcome.

(** The database with the receipt of a request and the policy revision after it. *)
Definition recorded `{JM : Json OrdinaryMutation, JR : Json MutationReceipt}
    (context : MutationContext) (m : OrdinaryMutation) (receipt : MutationReceipt)
    (db : database) : database :=
  db <| policy_revision := Z.of_N (mr_policy_revision_after receipt) |>
     <| mutation_receipts ::=
          <[receipt_key context :=
              mkReceiptRow 1 (json_to_string m) (json_to_string receipt)
                (Z.of_N (mr_committed_at_unix_millis receipt))
                (Z.of_N (mr_retain_until_unix_millis receipt))]> |>.

(** ** Identifiers *)

Lemma sqlite_length_ascii (p : nat → ascii → bool) i s :
  (∀ i c, p i c = true → is_cont c = false) → all_indexed p i s = true →
  sqlite_length s = String.length s.
Proof.
  intros Hp. revert i. induction s as [|c s IH]; intros i; simpl; [done|].
  rewrite andb_true_iff. intros [Hc Hs]. rewrite (Hp _ _ Hc), (IH _ Hs). done.
Qed.

Lemma sqlite_length_all_bytes (p : ascii → bool) s :
  (∀ c, p c = true → is_cont c = false) → all_bytes p s = true →
  sqlite_length s = String.length s.
Proof.
  intros Hp. induction s as [|c s IH]; simpl; [done|].
  rewrite andb_true_iff. intros [Hc Hs]. by rewrite (Hp _ Hc), (IH Hs).
Qed.

Lemma mutation_id_length id : is_valid_mutation_id id = true → sqlite_length id = 36.
Proof.
  unfold is_valid_mutation_id. rewrite andb_true_iff, bool_decide_eq_true. intros [<- H].
  refine (sqlite_length_ascii _ _ _ _ H). intros i c.
  case_bool_decide; [intros ->%Ascii.eqb_eq; done|].
  by destruct c as [[] [] [] [] [] [] [] []].
Qed.

Lemma namespace_length token : is_valid_namespace_token token = true → sqlite_length token = 32.
Proof.
  unfold is_valid_namespace_token. rewrite andb_true_iff, bool_decide_eq_true. intros [<- H].
  refine (sqlite_length_all_bytes _ _ _ H). intros c. by destruct c as [[] [] [] [] [] [] [] []].
Qed.

Lemma checked_add_small a b c :
  (Z.of_N (a + b) < 2 ^ 63)%Z → c = (a + b)%N → checked_add a b = Some c.
Proof.
  intros H ->. unfold checked_add. rewrite bool_decide_eq_true_2; [done|].
  unfold u64_bound. lia.
Qed.

(** ** The latest observation *)

Definition latest_step (incident : string) (best : option event_row) (entry : Z * event_row) :
    option event_row :=
  let e := entry.2 in
  if bool_decide (event_incident_id e = incident) && bool_decide (event_kind e = "observation")
  then match best with
       | Some b =>
           if bool_decide (event_occurred_at_ms b ≤ event_occurred_at_ms e)%Z then Some e else best
       | None => Some e
       end
  else best.

Lemma latest_step_fold incident l best :
  (∀ e, fold_left (latest_step incident) l best = Some e →
     best = Some e ∨ ∃ id, (id, e) ∈ l ∧ event_incident_id e = incident ∧
       event_kind e = "observation") ∧
  (fold_left (latest_step incident) l best = None →
     best = None ∧ ∀ id e, (id, e) ∈ l → event_incident_id e = incident →
       event_kind e ≠ "observation").
Proof.
  revert best. induction l as [|[id e0] l IH]; intros best.
  { split; [auto|]. intros H. split; [done|]. intros id e Hel. by apply elem_of_nil in Hel. }
  cbn [fold_left]. destruct (IH (latest_step incident best (id, e0))) as [Hsome Hnone].
  split.
  - intros e [He|(id' & Hel & H)]%Hsome; [|right; exists id'; split; [by right|done]].
    unfold latest_step in He. cbn [snd] in He.
    destruct (bool_decide (event_incident_id e0 = incident)) eqn:Hi; [|by left].
    destruct (bool_decide (event_kind e0 = "observation")) eqn:Hk; [|by left]. simpl in He.
    apply bool_decide_eq_true in Hi, Hk.
    destruct best as [b|]; [case_bool_decide; [|by left]|]; injection He as <-;
      right; exists id; (split; [by left|done]).
  - intros H. destruct (Hnone H) as [Hstep Hrest]. unfold latest_step in Hstep. cbn [snd] in Hstep.
    destruct (bool_decide (event_incident_id e0 = incident)) eqn:Hi; simpl in Hstep;
      [destruct (bool_decide (event_kind e0 = "observation")) eqn:Hk; simpl in Hstep|].
    + destruct best; [case_bool_decide|]; done.
    + split; [done|]. apply bool_decide_eq_false in Hk.
      intros id' e [[= -> ->]|Hel]%elem_of_cons; eauto.
    + split; [done|]. apply bool_decide_eq_false in Hi.
      intros id' e [[= -> ->]|Hel]%elem_of_cons; [done|eauto].
Qed.

Lemma latest_observation_Some incident db e :
  latest_observation incident db = Some e →
  ∃ id, rows (events db) !! id = Some e ∧ event_incident_id e = incident ∧
    event_kind e = "observation".
Proof.
  intros H. destruct (latest_step_fold incident (table_entries (events db)) None) as [Hs _].
  destruct (Hs e H) as [|(id & Hel & Hi & Hk)]; [done|]. exists id.
  by rewrite <-table_entries_elem.
Qed.

Lemma observed_latest incident db :
  observed incident db = true → is_Some (latest_observation incident db).
Proof.
  unfold observed. rewrite table_exists_iff. intros (id & e & Hr & Hp).
  apply andb_true_iff in Hp as [Hi%bool_decide_eq_true Hk%bool_decide_eq_true].
  destruct (latest_observation incident db) eqn:E; [done|].
  destruct (latest_step_fold incident (table_entries (events db)) None) as [_ Hn].
  destruct (Hn E) as [_ H]. exfalso. by apply (H id e); [apply table_entries_elem|..].
Qed.

(** ** The direct calls *)

Section Facts.
Context `{JE : Json EventPayload}.

Lemma observed_protection incident now db e :
  observations_wf db → latest_observation incident db = Some e →
  ∃ report, protection_of incident now e =
    Ok (mkProtectionRow (root_identity_fingerprint (obs_root report))
          (obs_member_fingerprint report) now None None).
Proof.
  intros Hwf (id & Hr & Hi & Hk)%latest_observation_Some.
  destruct (Hwf id e Hr Hk) as (report & Hj & Hrep). exists report.
  unfold protection_of, from_json. rewrite Hj. simpl. rewrite bool_decide_eq_true_2; [done|].
  by rewrite Hrep.
Qed.

Lemma fresh_summary incident root_id members now :
  (0 ≤ now)%Z →
  projected_protection_summary incident (mkProtectionRow root_id members now None None) =
    Ok (mkProtectionSummary (project_identifier incident "redacted-incident") (Z.to_N now)
          None None).
Proof.
  intros H. unfold projected_protection_summary, parse_nonnegative_millis, u64_or_corrupt,
    u64_try_from. simpl. by rewrite bool_decide_eq_true_2.
Qed.

Lemma sqlite_millis_small n label : (Z.of_N n < 2 ^ 63)%Z → sqlite_millis n label = Ok (Z.of_N n).
Proof. intros H. by apply sqlite_millis_Ok. Qed.

(** An allowed mutation succeeds, with the effect of the direct call. *)
Lemma apply_is_direct m now db facts rf :
  observations_wf db → (Z.of_N now < 2 ^ 63)%Z →
  match m with Pause duration => (Z.of_N (now + duration) < 2 ^ 63)%Z | _ => True end →
  store_policy_facts_connection m now db = Ok facts → evaluate_action rf facts m = Allow →
  ∃ db' result, apply_ordinary_mutation m now db = Ok (db', result) ∧
    direct_call m now db = Ok db'.
Proof.
  intros Hwf Hnow Hd Hf Hallow. unfold store_policy_facts_connection in Hf.
  rewrite sqlite_millis_small in Hf by done. cbn [result_bind] in Hf.
  unfold evaluate_action in Hallow.
  destruct (draining rf); [done|]. destruct (failed rf); [done|].
  unfold apply_ordinary_mutation. rewrite (sqlite_millis_small now) by done. cbn [result_bind].
  destruct m as [d| |incident|incident|incident]; simpl in Hf; injection Hf as <-;
    cbn [paused cleanup_blocked incident_observed incident_protected] in Hallow.
  - rewrite (checked_add_small now d (now + d)) by done. cbn [ok_or result_bind].
    rewrite sqlite_millis_small by done. cbn [result_bind]. eexists _, _. split; [reflexivity|].
    unfold direct_call, set_pause_until. cbn [with_connection].
    by rewrite (proj2 (i64_or_range_Ok (now + d) _ _) (conj eq_refl Hd)).
  - destruct (settings db !! pause_key) as [[deadline|]|]; [|done|done].
    eexists _, _. split; reflexivity.
  - case_bool_decide as Hb; [|done]. destruct Hb as [block Hb]. rewrite Hb. cbn [ok_or result_bind].
    eexists _, _. split; [reflexivity|]. unfold direct_call, authorize_retry.
    rewrite sqlite_millis_small by done. simpl. by rewrite Hb.
  - destruct (observed incident db) eqn:Ho; [|done]. simpl in Hallow.
    case_bool_decide as Hp; [done|]. rewrite <-eq_None_not_Some in Hp.
    destruct (observed_latest _ _ Ho) as [e He]. rewrite He. cbn [ok_or result_bind].
    destruct (observed_protection incident (Z.of_N now) db e Hwf He) as [report Hrow].
    rewrite Hrow. cbn [result_bind]. rewrite bool_decide_eq_true_2 by done.
    assert (protection_check (mkProtectionRow (root_identity_fingerprint (obs_root report))
      (obs_member_fingerprint report) (Z.of_N now) None None) = true) as Hcheck
      by (unfold protection_check; simpl; rewrite bool_decide_eq_true_2 by lia; done).
    rewrite Hcheck. unfold direct_call, protect_incident.
    rewrite sqlite_millis_small by done. cbn [result_bind with_connection].
    rewrite He, Hrow. cbn [result_bind]. rewrite Hcheck. unfold protection_summary_transaction.
    cbn [protections set]. simpl.
    rewrite lookup_insert_eq, lookup_partial_alter_eq, Hp. simpl.
    rewrite fresh_summary by lia. simpl.
    eexists _, _. split; [reflexivity|]. f_equal. unfold set. simpl. f_equal.
    apply map_eq. intros k. destruct (decide (k = incident)) as [-> |Hne].
    + by rewrite lookup_partial_alter_eq, lookup_insert_eq, Hp.
    + by rewrite lookup_partial_alter_ne, lookup_insert_ne.
  - case_bool_decide as Hp; [|done]. simpl. eexists _, _. split; [reflexivity|].
    unfold direct_call, unprotect_incident. simpl. done.
Qed.
End Facts.

(** ** Commits *)

Section Commits.
Context `{JE : Json EventPayload, JM : Json OrdinaryMutation, JR : Json MutationReceipt}.

(** What a decided request answers, and the state its decision leaves. *)
Lemma decide_mutation_policy rf m now db facts :
  observations_wf db → (Z.of_N now < 2 ^ 63)%Z →
  match m with Pause duration => (Z.of_N (now + duration) < 2 ^ 63)%Z | _ => True end →
  store_policy_facts_connection m now db = Ok facts →
  match evaluate_action rf facts m with
  | Allow => ∃ db' result, decide_mutation rf m now db = Ok (db', Applied result, true) ∧
      direct_call m now db = Ok db'
  | NoChange r => decide_mutation rf m now db = Ok (db, OutcomeNoChange r, false)
  | Reject r => decide_mutation rf m now db = Ok (db, OutcomeRejected r, false)
  end.
Proof.
  intros Hwf Hnow Hd Hf. unfold decide_mutation. rewrite Hf. cbn [result_bind].
  destruct (evaluate_action rf facts m) eqn:Ha; [|done..].
  destruct (apply_is_direct m now db facts rf Hwf Hnow Hd Hf Ha) as (db' & result & Happ & Hdir).
  rewrite Happ. eauto.
Qed.

(** A mutation leaves the receipts and the revision to the commit. *)
Lemma direct_call_frame m now db db' :
  direct_call m now db = Ok db' →
  mutation_receipts db' = mutation_receipts db ∧ policy_revision db' = policy_revision db.
Proof.
  destruct m; simpl; intros H.
  - unfold set_pause_until in H. simpl in H. by apply result_bind_Ok in H as (? & _ & [= <-]).
  - by injection H as <-.
  - unfold authorize_retry in H. apply result_bind_Ok in H as (r & Hr & [= <-]).
    apply result_bind_Ok in Hr as (? & _ & Hr). simpl in Hr.
    destruct (retry_blocks db !! _); by injection Hr as <-.
  - unfold protect_incident in H. apply result_bind_Ok in H as (r & Hr & [= <-]).
    apply result_bind_Ok in Hr as (? & _ & Hr). simpl in Hr.
    destruct (latest_observation _ db); apply result_bind_Ok in Hr as (? & _ & Hr).
    + apply guard_Ok in Hr as [_ Hr]. apply result_bind_Ok in Hr as (? & _ & Hr).
      by apply result_bind_Ok in Hr as (? & _ & [= <-]).
    + by injection Hr as <-.
  - by injection H as <-.
Qed.

Lemma advance_revision_changed db :
  (0 ≤ policy_revision db < 2 ^ 63 - 1)%Z →
  advance_revision true db =
    Ok (db <| policy_revision := (policy_revision db + 1)%Z |>,
        Z.to_N (policy_revision db + 1)).
Proof.
  intros [H0 H1]. unfold advance_revision, cleanup_policy_revision_connection, u64_or_corrupt,
    u64_try_from. rewrite bool_decide_eq_true_2 by done. cbn [ok_or result_bind].
  rewrite (checked_add_small _ 1 (Z.to_N (policy_revision db + 1))) by lia.
  cbn [ok_or result_bind]. rewrite sqlite_millis_small by lia. cbn [result_bind].
  repeat f_equal. lia.
Qed.

Lemma advance_revision_same db :
  (0 ≤ policy_revision db)%Z →
  advance_revision false db = Ok (db, Z.to_N (policy_revision db)).
Proof.
  intros H0. unfold advance_revision, cleanup_policy_revision_connection, u64_or_corrupt,
    u64_try_from. by rewrite bool_decide_eq_true_2.
Qed.

Lemma insert_receipt_admissible context m now db db0 receipt :
  admissible context m now db → mutation_receipts db0 = mutation_receipts db →
  mr_committed_at_unix_millis receipt = now →
  mr_retain_until_unix_millis receipt = (now + MUTATION_RECONCILIATION_WINDOW_MILLIS)%N →
  policy_revision db0 = Z.of_N (mr_policy_revision_after receipt) →
  insert_mutation_receipt context
    (mkReceiptRow 1 (json_to_string m) (json_to_string receipt) (Z.of_N now)
       (Z.of_N (now + MUTATION_RECONCILIATION_WINDOW_MILLIS))) db0 =
    Ok (recorded context m receipt db0).
Proof.
  intros [Hnew Hns Hid _ Htime _ _] Hreceipts Hat Hretain Hrev. unfold insert_mutation_receipt.
  rewrite Hreceipts, Hnew. cbn beta iota.
  unfold current_mutation_namespace in Hns.
  destruct (is_valid_namespace_token _) eqn:Hv; [|done]. injection Hns as Hns. rewrite Hns in Hv.
  rewrite (namespace_length _ Hv), (mutation_id_length _ Hid).
  assert (receipt_check (mkReceiptRow 1 (json_to_string m) (json_to_string receipt) (Z.of_N now)
       (Z.of_N (now + MUTATION_RECONCILIATION_WINDOW_MILLIS))) = true) as ->.
  { unfold receipt_check. simpl. rewrite !bool_decide_eq_true_2 by lia. done. }
  rewrite !bool_decide_eq_true_2 by done. simpl. unfold recorded. rewrite Hat, Hretain.
  destruct db0. simpl in *. by rewrite <-Hrev.
Qed.

(** The commit of an admissible request. *)
Lemma commit_decides context m rf now db facts db0 outcome changed :
  admissible context m now db → store_policy_facts_connection m now db = Ok facts →
  decide_mutation rf m now db = Ok (db0, outcome, changed) →
  mutation_receipts db0 = mutation_receipts db → policy_revision db0 = policy_revision db →
  let receipt :=
    decided_receipt context m now
      (Z.to_N (if changed then policy_revision db + 1 else policy_revision db)%Z) outcome in
  commit_public_ordinary_mutation None context m rf now db =
    Ok (recorded context m receipt db0, mkMutationCommit receipt true changed).
Proof.
  intros Hadm Hf Hdec Hr0 Hp0 receipt. pose proof Hadm as [Hnew Hns Hid Hcap Htime _ Hrev].
  unfold commit_public_ordinary_mutation.
  assert (Z.of_N now < 2 ^ 63)%Z as Hnow by lia.
  rewrite sqlite_millis_small by done. cbn [result_bind].
  rewrite (checked_add_small now _ _ Htime eq_refl). cbn [ok_or result_bind].
  rewrite sqlite_millis_small by done. cbn [result_bind with_connection].
  rewrite Hnew, Hns. cbn [result_bind]. rewrite bool_decide_eq_true_2 by done.
  unfold reserve_mutation_receipt_slot. rewrite bool_decide_eq_true_2 by done.
  cbn [result_bind]. rewrite Hdec. cbn [result_bind].
  destruct changed.
  - rewrite advance_revision_changed by lia. cbn [result_bind]. rewrite Hp0.
    match goal with
    | |- context [insert_mutation_receipt _ _ ?db1] =>
        pose proof (insert_receipt_admissible context m now db db1 receipt Hadm Hr0 eq_refl eq_refl)
          as Hins
    end. unfold receipt, decided_receipt in *. cbn [mr_policy_revision_after] in Hins.
    rewrite Hins by (simpl; lia). cbn [result_bind]. unfold recorded. by destruct db0.
  - rewrite advance_revision_same by lia. cbn [result_bind]. rewrite Hp0.
    pose proof (insert_receipt_admissible context m now db db0 receipt Hadm Hr0 eq_refl eq_refl)
      as Hins. unfold receipt, decided_receipt in *. cbn [mr_policy_revision_after] in Hins.
    by rewrite Hins by (simpl; lia).
Qed.

(** [C28] A mutation is decided by the policy and applied once, with the effect of the
    owner's direct call. Every request whose arguments are in range commits: the policy
    decides it on the facts of its own transaction; if it is allowed, the state after it
    is exactly the one the direct call would have left (pausing, resuming, authorising
    the retry, protecting or unprotecting), plus one policy revision and the receipt;
    if not, nothing but the receipt is written. *)
Theorem mutation_commits_the_decision context m rf now db :
  observations_wf db → admissible context m now db →
  ∃ facts, store_policy_facts_connection m now db = Ok facts ∧
    let commits db0 outcome (changed : bool) :=
      let receipt :=
        decided_receipt context m now
          (Z.to_N (if changed then policy_revision db + 1 else policy_revision db)%Z) outcome in
      commit_public_ordinary_mutation None context m rf now db =
        Ok (recorded context m receipt db0, mkMutationCommit receipt true changed) in
    match evaluate_action rf facts m with
    | Allow => ∃ db0 result, direct_call m now db = Ok db0 ∧ commits db0 (Applied result) true
    | NoChange reason_id => commits db (OutcomeNoChange reason_id) false
    | Reject reason_id => commits db (OutcomeRejected reason_id) false
    end.
Proof.
  intros Hwf Hadm. assert (Z.of_N now < 2 ^ 63)%Z as Hnow.
  { pose proof (admissible_time _ _ _ _ Hadm). lia. }
  assert (is_Ok (store_policy_facts_connection m now db)) as [facts Hf].
  { unfold store_policy_facts_connection. rewrite sqlite_millis_small by done. cbn [result_bind].
    destruct (mutation_incident m); eexists; reflexivity. }
  exists facts. split; [done|]. intros commits.
  pose proof (decide_mutation_policy rf m now db facts Hwf Hnow (admissible_deadline _ _ _ _ Hadm) Hf)
    as Hdec.
  destruct (evaluate_action rf facts m); [|by eapply commit_decides..].
  destruct Hdec as (db0 & result & Hdec & Hdir). exists db0, result. split; [done|].
  pose proof (direct_call_frame _ _ _ _ Hdir) as [Hr Hp].
  exact (commit_decides _ _ _ _ _ _ _ _ _ Hadm Hf Hdec Hr Hp).
Qed.

(** The receipt row a commit leaves, and its answer. *)
Definition committed_row (context : MutationContext) (m : OrdinaryMutation)
    (receipt : MutationReceipt) (db : database) : Prop :=
  ∃ row, mutation_receipts db !! receipt_key context = Some row ∧
    rr_canonical_version row = 1%Z ∧ rr_command_json row = json_to_string m ∧
    json_from_str (rr_receipt_json row) = Ok receipt ∧
    validate_stored_mutation_receipt receipt context (mutation_kind m) = Ok tt.

Lemma commit_leaves_row `{!JsonRoundTrip MutationReceipt} io context m rf now db db' c :
  commit_public_ordinary_mutation io context m rf now db = Ok (db', c) →
  committed_row context m (commit_receipt c) db'.
Proof.
  unfold commit_public_ordinary_mutation.
  intros (at_ & [-> Hat]%sqlite_millis_Ok & H)%result_bind_Ok.
  apply result_bind_Ok in H as (until & Hu%ok_or_Ok & H).
  apply result_bind_Ok in H as (until_z & [-> _]%sqlite_millis_Ok & H).
  apply with_connection_Ok in H as [_ H].
  assert (until = now + MUTATION_RECONCILIATION_WINDOW_MILLIS)%N as ->.
  { unfold checked_add in Hu. case_bool_decide; congruence. }
  destruct (mutation_receipts db !! receipt_key context) as [row|] eqn:Hrow.
  - apply guard_Ok in H as [Hg H]. apply andb_true_iff in Hg as [Hv Hc].
    apply bool_decide_eq_true in Hv, Hc. apply result_bind_Ok in H as (receipt & Hj & H).
    apply result_bind_Ok in H as ([] & Hval & [= <- <-]). exists row.
    unfold from_json in Hj. destruct (json_from_str (rr_receipt_json row)) eqn:E; [|done].
    injection Hj as ->. done.
  - apply result_bind_Ok in H as (current & _ & H). apply guard_Ok in H as [_ H].
    apply result_bind_Ok in H as (? & _ & H). apply result_bind_Ok in H as ([[db1 o] ch] & _ & H).
    apply result_bind_Ok in H as ([db2 rev] & _ & H).
    apply result_bind_Ok in H as (db3 & Hins & [= <- <-]).
    unfold insert_mutation_receipt in Hins. apply guard_Ok in Hins as [_ Hins].
    apply guard_Ok in Hins as [_ [= <-]]. unfold committed_row. simpl.
    rewrite lookup_insert_eq. eexists. split_and!; [done|done|done|apply json_round_trip|].
    unfold validate_stored_mutation_receipt. simpl. rewrite !bool_decide_eq_true_2; [done|..]; lia || done.
Qed.

(** A request is decided once: after a mutation was committed under an ID, every
    request with that ID, at any time, from any state that still has the receipt and
    whatever the policy would now say, changes nothing: the same command answers the
    first receipt, and another command is a conflict. The lookup answers the receipt. *)
Theorem mutation_is_decided_once `{!JsonRoundTrip MutationReceipt, !JsonRoundTrip OrdinaryMutation}
    io context m rf now db db' c db'' m' rf' now' :
  commit_public_ordinary_mutation io context m rf now db = Ok (db', c) →
  mutation_receipts db'' !! receipt_key context = mutation_receipts db' !! receipt_key context →
  (Z.of_N (now' + MUTATION_RECONCILIATION_WINDOW_MILLIS) < 2 ^ 63)%Z →
  (commit_public_ordinary_mutation None context m' rf' now' db'' =
    if bool_decide (m' = m) then Ok (db'', mkMutationCommit (commit_receipt c) false false)
    else Err (StoreConflict
                "mutation ID was already committed for a different canonical request")) ∧
  mutation_lookup None context db'' = Ok (LookupCommitted (commit_receipt c)).
Proof.
  intros (row & Hrow & Hv & Hc & Hj & Hval)%commit_leaves_row Hkeep Hnow'. rewrite Hrow in Hkeep.
  split.
  - unfold commit_public_ordinary_mutation. rewrite sqlite_millis_small by lia. cbn [result_bind].
    rewrite (checked_add_small _ _ _ Hnow' eq_refl). cbn [ok_or result_bind].
    rewrite sqlite_millis_small by done. cbn [result_bind with_connection].
    rewrite Hkeep, Hv, Hc. destruct (decide (m' = m)) as [-> |Hm].
    + rewrite !bool_decide_eq_true_2 by done. simpl. unfold from_json. rewrite Hj.
      cbn [map_err result_bind]. by rewrite Hval.
    + rewrite (bool_decide_eq_false_2 (m' = m)) by done.
      rewrite (bool_decide_eq_false_2 (json_to_string m = json_to_string m')).
      { by rewrite andb_false_r. }
      intros E. apply Hm. pose proof (json_round_trip m') as Hm'. rewrite <-E, json_round_trip in Hm'.
      congruence.
  - unfold mutation_lookup, mutation_receipt_connection. cbn [with_connection]. rewrite Hkeep.
    cbn [option_transpose]. unfold from_json. rewrite Hj. cbn [map_err result_bind].
    assert (validate_stored_mutation_receipt (commit_receipt c) context
              (mr_kind (commit_receipt c)) = Ok tt) as ->; [|done].
    unfold validate_stored_mutation_receipt in *. apply guard_Ok in Hval as [Hg _].
    rewrite !andb_true_iff in Hg. destruct Hg as [[[-> ->] _] ->]. by rewrite bool_decide_eq_true_2.
Qed.
End Commits.
