(* ===== verification/ObservationFacts.v ===== *)
(** ObservationFacts: the observation history of [Observations.v], verified.

    A cycle's reports are recorded as spans of equal sightings; every sighting is
    counted exactly once, and the observation events stay well formed. *)

From S2P Require Import Prelude Text Model Artifact Evidence Cleanup Executor Analyzer Cooling.
From S2P Require Import Names Store Journal JournalFacts DurableRun StoreSafety Protocol Mutations.
From S2P Require Import Observations MutationFacts.
From Stdlib Require Import Ascii.

(** ** Counting *)

(** The sightings of an incident an event stands for. *)
Definition event_sightings (incident : string) (e : event_row) : Z :=
  if bool_decide (event_incident_id e = incident) && is_observation e
  then event_observation_count e else 0.

Fixpoint total (incident : string) (l : list (Z * event_row)) : Z :=
  match l with
  | [] => 0
  | (_, e) :: l => event_sightings incident e + total incident l
  end.

(** The sightings of an incident in the history. *)
Definition sightings (incident : string) (db : database) : Z :=
  total incident (table_entries (events db)).

(** The reports of a batch about an incident. *)
Definition reports_about (incident : string) (reports : list IncidentReport) : Z :=
  Z.of_nat (length (List.filter (λ r, bool_decide (incident_id r = incident)) reports)).

Lemma total_app incident l1 l2 : total incident (l1 ++ l2) = (total incident l1 + total incident l2)%Z.
Proof.
  induction l1 as [|[k e] l1 IH]; simpl; [done|]. rewrite IH. lia.
Qed.

(** Changing the row of one key changes the total by the change of that row. *)
Lemma total_update incident (f : event_row → event_row) (P : Z → event_row → bool) id e l :
  NoDup l.*1 → (id, e) ∈ l → (∀ k v, (k, v) ∈ l → P k v = bool_decide (k = id)) →
  total incident ((λ x, (x.1, if P x.1 x.2 then f x.2 else x.2)) <$> l) =
    (total incident l + (event_sightings incident (f e) - event_sightings incident e))%Z.
Proof.
  induction l as [|[k v] l IH]; intros Hnd Hin HP; [by apply elem_of_nil in Hin|].
  cbn [fmap list_fmap total fst snd].
  apply NoDup_cons in Hnd as [Hk Hnd]. rewrite (HP k v) by (by left).
  apply elem_of_cons in Hin as [[= <- <-]|Hin].
  - rewrite bool_decide_eq_true_2 by done.
    assert ((λ x, (x.1, if P x.1 x.2 then f x.2 else x.2)) <$> l = l) as ->; [|simpl; lia].
    rewrite <-(list_fmap_id l) at 2. apply list_fmap_ext. intros i [k' v'] Hi. simpl.
    apply list_elem_of_lookup_2 in Hi. rewrite HP by (by right).
    rewrite bool_decide_eq_false_2; [done|]. intros ->. apply Hk.
    apply list_elem_of_fmap. by exists (id, v').
  - rewrite bool_decide_eq_false_2.
    + rewrite IH by (done || (intros; apply HP; by right)). simpl. lia.
    + intros ->. apply Hk. apply list_elem_of_fmap. by exists (id, e).
Qed.

Lemma table_entries_NoDup {V} (t : table V) : NoDup (table_entries t).*1.
Proof.
  unfold table_entries, btree_entries. rewrite merge_sort_Permutation. apply NoDup_fst_map_to_list.
Qed.

Lemma total_table_update incident name id e check P (f : event_row → event_row) t t' :
  table_update name check P f t = Ok t' → rows t !! id = Some e →
  (∀ k v, rows t !! k = Some v → P k v = bool_decide (k = id)) →
  total incident (table_entries t') =
    (total incident (table_entries t) + (event_sightings incident (f e) - event_sightings incident e))%Z.
Proof.
  intros Hu Hr HP. rewrite (table_update_entries _ _ _ _ _ _ Hu). apply (total_update _ _ _ id).
  - apply table_entries_NoDup.
  - by apply table_entries_elem.
  - intros k v Hkv%table_entries_elem. by apply HP.
Qed.

(** ** Spans *)

Definition latest_event_step (incident : string) (best : option (Z * event_row))
    (entry : Z * event_row) : option (Z * event_row) :=
  let e := entry.2 in
  if bool_decide (event_incident_id e = incident) then
    match best with
    | Some (_, b) =>
        if bool_decide (event_occurred_at_ms b ≤ event_occurred_at_ms e)%Z then Some entry else best
    | None => Some entry
    end
  else best.

Lemma latest_event_Some incident db id e :
  latest_event incident db = Some (id, e) →
  rows (events db) !! id = Some e ∧ event_incident_id e = incident.
Proof.
  assert (∀ l best, fold_left (latest_event_step incident) l best = Some (id, e) →
    best = Some (id, e) ∨ (id, e) ∈ l ∧ event_incident_id e = incident) as H.
  { induction l as [|[k v] l IH]; intros best; [by left|]. cbn [fold_left].
    intros [Hb|[Hin Hi]]%IH; [|right; split; [by right|done]].
    unfold latest_event_step in Hb. cbn [snd] in Hb. case_bool_decide as Hk; [|by left].
    assert (Some (k, v) = Some (id, e) → (id, e) ∈ (k, v) :: l ∧ event_incident_id e = incident) as Hkv.
    { intros [= -> ->]. split; [by left|done]. }
    destruct best as [[kb b]|]; [case_bool_decide; [right; auto|by left]|right; auto]. }
  intros Hl. destruct (H _ _ Hl) as [|[Hin Hi]]; [done|]. by rewrite <-table_entries_elem.
Qed.

Section Spans.
Context `{JE : Json EventPayload, JR : Json CleanupResources, JP : Json (list N)}.
Context (random : token_source).

(** A recorded sighting extends a span or begins one. *)
Definition extends (at_ : N) (report : ObservationRecord) (db db' : database) (id : Z) : Prop :=
  ∃ e, rows (events db) !! id = Some e ∧ event_incident_id e = obs_incident_id report ∧
    event_kind e = "observation" ∧
    table_update "events" event_check
      (λ k e, bool_decide (k = id) && bool_decide (event_kind e = "observation"))
      (extended_event (Z.of_N at_) (json_to_string (PayloadObservation report))) (events db) =
      Ok (events db').

Definition begins (at_ : N) (report : ObservationRecord) (db db' : database) (id : Z) : Prop :=
  table_insert "events" event_check
    (mkEventRow (obs_incident_id report) (Z.of_N at_) (Z.of_N at_) 1 "observation"
       (state_name (obs_state report)) (json_to_string (PayloadObservation report)) None)
    (events db) = Ok (events db', id).

Lemma upsert_Ok at_ report db db' id :
  upsert_observation_span_transaction random at_ report db = Ok (db', id) →
  same_cleanup_tables db db' ∧ lifecycle db' = lifecycle db ∧
  (extends at_ report db db' id ∨ begins at_ report db db' id).
Proof.
  unfold upsert_observation_span_transaction.
  intros (z & [-> _]%sqlite_millis_Ok & H)%result_bind_Ok.
  assert (insert_event_transaction random None at_ (obs_incident_id report) KindObservation
            (obs_state report) (PayloadObservation report) db = Ok (db', id) →
    same_cleanup_tables db db' ∧ lifecycle db' = lifecycle db ∧
    (extends at_ report db db' id ∨ begins at_ report db db' id)) as Hinsert.
  { intros (Hsame & _ & Hl & (row & Hins & ->) & _)%insert_event_frame. auto. }
  destruct (latest_event _ db) as [[eid e]|] eqn:Hl; [|by apply Hinsert].
  destruct (bool_decide _ && bool_decide _) eqn:Hk; [|by apply Hinsert].
  apply andb_true_iff in Hk as [Hk%bool_decide_eq_true _].
  apply result_bind_Ok in H as ([previous|r] & _ & H); [|by apply Hinsert].
  destruct (observations_semantically_equal _ _); [|by apply Hinsert].
  apply result_bind_Ok in H as (t & Hu & [= <- <-]). split; [done|]. split; [done|]. left.
  apply latest_event_Some in Hl as [Hr Hi]. exists e. by split_and!.
Qed.

Lemma sightings_upsert at_ report db db' id incident :
  table_wf (events db) →
  upsert_observation_span_transaction random at_ report db = Ok (db', id) →
  sightings incident db' =
    (sightings incident db + if bool_decide (obs_incident_id report = incident) then 1 else 0)%Z.
Proof.
  intros Hwf (_ & _ & [(e & Hr & Hi & Hk & Hu)|Hb])%upsert_Ok.
  - unfold sightings.
    etransitivity; [eapply (total_table_update incident _ id e _ _ _ _ _ Hu Hr)|].
    + intros k v Hkv. destruct (decide (k = id)) as [-> |Hne].
      * rewrite Hr in Hkv. injection Hkv as <-. by rewrite !bool_decide_eq_true_2.
      * by rewrite !bool_decide_eq_false_2 by done.
    + unfold event_sightings, is_observation, extended_event. simpl. rewrite Hi, Hk.
      rewrite !andb_true_r. case_bool_decide; lia.
  - unfold sightings. rewrite (table_insert_entries _ _ _ _ _ _ Hwf Hb), total_app.
    simpl. unfold event_sightings, is_observation. simpl.
    rewrite !andb_true_r. case_bool_decide; lia.
Qed.

Lemma upsert_events_wf at_ report db db' id :
  table_wf (events db) → (0 ≤ last_rowid (events db))%Z →
  upsert_observation_span_transaction random at_ report db = Ok (db', id) →
  table_wf (events db') ∧ (0 ≤ last_rowid (events db'))%Z.
Proof.
  intros Hwf H0 (_ & _ & [(e & _ & _ & _ & Hu)|Hb])%upsert_Ok.
  - pose proof (table_update_wf _ _ _ _ _ _ Hwf Hu) as [? ->]. done.
  - pose proof (table_insert_wf _ _ _ _ _ _ Hwf H0 Hb) as (? & ? & _). done.
Qed.

Lemma upsert_observations_wf `{!JsonRoundTrip EventPayload} at_ report db db' id :
  observations_wf db → upsert_observation_span_transaction random at_ report db = Ok (db', id) →
  observations_wf db'.
Proof.
  intros Hwf (_ & _ & [(e & Hr & Hi & Hk & Hu)|Hb])%upsert_Ok k v.
  - rewrite (table_update_lookup _ _ _ _ _ _ _ Hu).
    destruct (rows (events db) !! k) as [w|] eqn:Hw; [|done]. simpl.
    destruct (bool_decide (k = id) && _) eqn:HP; intros [= <-] Hobs; [|by eapply Hwf].
    apply andb_true_iff in HP as [->%bool_decide_eq_true _].
    rewrite Hr in Hw. injection Hw as <-. exists report. split; [apply json_round_trip|done].
  - apply table_insert_Ok in Hb as (_ & _ & Ht & _). rewrite Ht. simpl.
    intros [[<- <-]|[_ Hw]]%lookup_insert_Some Hobs; [|by eapply Hwf].
    exists report. split; [apply json_round_trip|done].
Qed.

Lemma record_reports_wf `{!JsonRoundTrip EventPayload} at_ reports db db' ids :
  observations_wf db → record_reports random at_ reports db = Ok (db', ids) →
  observations_wf db'.
Proof.
  revert db ids. induction reports as [|r reports IH]; intros db ids Hobs H.
  { injection H as <- _. done. }
  cbn [record_reports] in H. apply result_bind_Ok in H as ([db1 id] & H1 & H).
  apply result_bind_Ok in H as ([db2 ids'] & H & [= <- _]).
  exact (IH db1 ids' (upsert_observations_wf _ _ _ _ _ Hobs H1) H).
Qed.

(** A cycle's observations are counted once each. Recording a batch either fails
    as a whole or adds, for every incident, exactly as many sightings as the batch has
    reports of it, whether they extended spans or began new ones; it touches no attempt,
    action, retry block or lifecycle, and every observation event still holds an
    observation of its incident. *)
Theorem observations_are_counted `{!JsonRoundTrip EventPayload} io at_ reports db db' ids :
  record_observation_batch random io at_ reports db = Ok (db', ids) →
  table_wf (events db) → (0 ≤ last_rowid (events db))%Z → observations_wf db →
  (∀ incident, sightings incident db' =
     (sightings incident db + reports_about incident reports)%Z) ∧
  length ids = length reports ∧ observations_wf db' ∧ table_wf (events db') ∧
  same_cleanup_tables db db' ∧ lifecycle db' = lifecycle db.
Proof.
  intros [_ H]%with_connection_Ok. revert db ids H.
  induction reports as [|r reports IH]; intros db ids H Hwf H0 Hobs.
  { injection H as <- <-. split_and!; try done. intros incident. unfold reports_about. simpl. lia. }
  cbn [record_reports] in H. apply result_bind_Ok in H as ([db1 id] & H1 & H).
  apply result_bind_Ok in H as ([db2 ids'] & H & [= <- <-]).
  pose proof (upsert_events_wf _ _ _ _ _ Hwf H0 H1) as [Hwf1 H01].
  destruct (IH db1 ids' H Hwf1 H01 (upsert_observations_wf _ _ _ _ _ Hobs H1))
    as (Hs & Hlen & Hobs' & Hwf' & Hsame & Hl).
  pose proof (upsert_Ok _ _ _ _ _ H1) as (Hsame1 & Hl1 & _).
  split_and!; [|simpl; congruence|done|done| |congruence].
  2:{ destruct Hsame as (? & ? & ? & ?), Hsame1 as (? & ? & ? & ?).
      split_and!; congruence. }
  intros incident. rewrite Hs, (sightings_upsert _ _ _ _ _ incident Hwf H1).
  unfold reports_about. simpl. case_bool_decide; simpl; lia.
Qed.
End Spans.

(** * Protections and retry blocks

    What the observation history, the protections and the retry blocks
    say after a cycle.

    Every sighting is counted exactly once; a protection or a retry block is retired
    only after an unbroken, proved absence; and the reconciliation fails when the wall
    clock ran back behind a row. *)

(** ** Reconciliation *)

(** What the loop makes of a row; [None] retires it. *)
Definition reconciled_row {R} (rt : reconciled_table R) (seen absence_proven : bool)
    (now retention : Z) (r : R) : option R :=
  if seen then Some (rt_set_absence rt None (rt_set_observed rt now r))
  else if negb absence_proven then Some (rt_set_absence rt None r)
  else match rt_absence rt r with
       | None => Some (rt_set_absence rt (Some now) r)
       | Some since =>
           if bool_decide (retention ≤ i64_saturating_sub now since)%Z then None else Some r
       end.

(** The rows the loop writes satisfy their CHECK. *)
Definition writes_ok {R} (rt : reconciled_table R) (seen absence_proven : bool)
    (now : Z) (r : R) : Prop :=
  if seen then rt_check rt (rt_set_absence rt None (rt_set_observed rt now r)) = true
  else if negb absence_proven then rt_check rt (rt_set_absence rt None r) = true
  else match rt_absence rt r with
       | None => rt_check rt (rt_set_absence rt (Some now) r) = true
       | Some _ => True
       end.

Section Reconcile.
Context {R : Type} (rt : reconciled_table R) (seen : string → R → bool).
Context (absence_proven : bool) (now retention : Z).

Lemma reconcile_row_Ok incident r t c t' c' :
  t !! incident = Some r →
  reconcile_row rt (seen incident r) absence_proven now retention incident (rt_absence rt r) (t, c) =
    Ok (t', c') →
  writes_ok rt (seen incident r) absence_proven now r ∧
  t' = partial_alter (λ _, reconciled_row rt (seen incident r) absence_proven now retention r)
         incident t.
Proof.
  intros Hr. unfold reconcile_row, writes_ok, reconciled_row, update_incident. rewrite Hr.
  destruct (seen incident r); [|destruct absence_proven; [|]]; simpl.
  - intros H. apply result_bind_Ok in H as (t1 & [Hc [= <-]]%guard_Ok & [= <- _]). done.
  - destruct (rt_absence rt r) as [since|].
    + case_bool_decide; intros [= <- _]; (split; [done|]); [done|].
      apply map_eq. intros k. destruct (decide (k = incident)) as [-> |Hne].
      * by rewrite lookup_partial_alter_eq.
      * by rewrite lookup_partial_alter_ne.
    + intros H. apply result_bind_Ok in H as (t1 & [Hc [= <-]]%guard_Ok & [= <- _]). done.
  - intros H. apply result_bind_Ok in H as (t1 & [Hc [= <-]]%guard_Ok & [= <- _]). done.
Qed.

(** The loop treats every row it read, once. *)
Lemma reconcile_rows_Ok read t c t' c' :
  NoDup read.*1 → (∀ k r, (k, r) ∈ read → t !! k = Some r) →
  reconcile_rows rt seen absence_proven now retention read (t, c) = Ok (t', c') →
  (∀ k r, (k, r) ∈ read → writes_ok rt (seen k r) absence_proven now r ∧
     t' !! k = reconciled_row rt (seen k r) absence_proven now retention r) ∧
  (∀ k, k ∉ read.*1 → t' !! k = t !! k).
Proof.
  revert t c. induction read as [|[k0 r0] read IH]; intros t c Hnd Hin H.
  { injection H as <- _. split; [|done]. intros k r Hel. by apply elem_of_nil in Hel. }
  cbn [reconcile_rows] in H. apply result_bind_Ok in H as ([t1 c1] & H1 & H).
  apply NoDup_cons in Hnd as [Hk0 Hnd].
  apply reconcile_row_Ok in H1 as [Hok ->]; [|apply Hin; left].
  apply IH in H as [Hread Hother]; [|done|].
  - split.
    + intros k r [[= -> ->]|Hel]%elem_of_cons; [|by apply Hread].
      split; [done|]. rewrite Hother by done. by rewrite lookup_partial_alter_eq.
    + intros k Hk. apply not_elem_of_cons in Hk as [Hk Hk'].
      rewrite Hother by done. by rewrite lookup_partial_alter_ne.
  - intros k r Hel. rewrite lookup_partial_alter_ne; [by apply Hin; right|].
    intros <-. apply Hk0. apply list_elem_of_fmap. by exists (k0, r).
Qed.
End Reconcile.

Lemma NoDup_filter_fst {A B} (p : A * B → bool) (l : list (A * B)) :
  NoDup l.*1 → NoDup (List.filter p l).*1.
Proof.
  induction l as [|[a b] l IH]; simpl; [done|]. intros [Ha Hl]%NoDup_cons.
  destruct (p (a, b)); [|by apply IH]. simpl. apply NoDup_cons. split; [|by apply IH].
  intros Hin. apply Ha. apply list_elem_of_fmap in Hin as ([a' b'] & -> & Hin).
  apply list_elem_of_fmap. exists (a', b'). split; [done|].
  apply list_elem_of_In, filter_In in Hin as [Hin _]. by apply list_elem_of_In.
Qed.

(** A committed reconciliation of the protections, row by row. *)
Lemma reconcile_protections_Ok io live absence_proven now retention db db' c :
  reconcile_incident_protections io live absence_proven now retention db = Ok (db', c) →
  (0 < Z.of_N retention < 2 ^ 63)%Z ∧ (Z.of_N now < 2 ^ 63)%Z ∧
  db' = db <| protections := protections db' |> ∧
  ∀ incident,
    match protections db !! incident with
    | Some r =>
        let seen := bool_decide (protection_root_identity r ∈ live) in
        writes_ok protections_table seen absence_proven (Z.of_N now) r ∧
        protections db' !! incident =
          reconciled_row protections_table seen absence_proven (Z.of_N now) (Z.of_N retention) r
    | None => protections db' !! incident = None
    end.
Proof.
  unfold reconcile_incident_protections. intros [Hz H]%guard_Ok.
  apply negb_true_iff, bool_decide_eq_false in Hz.
  apply result_bind_Ok in H as (n & [-> Hn]%sqlite_millis_Ok & H).
  apply result_bind_Ok in H as (rt & [-> Hret]%sqlite_millis_Ok & H).
  apply with_connection_Ok in H as [_ H].
  apply result_bind_Ok in H as ([t' c'] & H & [= <- _]).
  split; [lia|]. split; [done|]. split; [by destruct db|]. simpl.
  apply reconcile_rows_Ok in H as [Hread Hother];
    [|apply NoDup_fst_map_to_list|intros k r; by rewrite elem_of_map_to_list].
  intros incident. destruct (protections db !! incident) as [r|] eqn:Hr.
  - apply Hread. by apply elem_of_map_to_list.
  - rewrite Hother; [done|]. intros ([k r] & -> & Hel)%list_elem_of_fmap.
    apply elem_of_map_to_list in Hel. simpl in *. congruence.
Qed.

(** ** Retirement *)

(** What one reconciliation finds out about a row. *)
Record sighting : Type := mkSighting {
  sighting_seen : bool;
  sighting_proven : bool;
  sighting_now : Z;
}.

Definition proved_absent (s : sighting) : Prop :=
  sighting_seen s = false ∧ sighting_proven s = true.

(** The row after the reconciliations of a log. *)
Definition row_after {R} (rt : reconciled_table R) (retention : Z) (log : list sighting)
    (r : R) : option R :=
  fold_left (λ row s, row ≫= reconciled_row rt (sighting_seen s) (sighting_proven s)
                               (sighting_now s) retention) log (Some r).

(** A part of the log proves an absence for the retention. *)
Definition absence_proved (retention : Z) (log : list sighting) : Prop :=
  ∃ pre first run, log = pre ++ first :: run ∧ Forall proved_absent (first :: run) ∧
    (retention ≤ sighting_now (List.last (first :: run) first) - sighting_now first)%Z.

Class ReconciledTable {R} (rt : reconciled_table R) : Prop := {
  absence_set since r : rt_absence rt (rt_set_absence rt since r) = since;
}.

#[export] Instance protections_reconciled : ReconciledTable protections_table.
Proof. done. Qed.

#[export] Instance retry_blocks_reconciled : ReconciledTable retry_blocks_table.
Proof. done. Qed.

Section Retirement.
Context {R : Type} (rt : reconciled_table R) `{!ReconciledTable rt} (retention : Z).

(** The absence of a live row was proved since then. *)
Lemma absence_is_proved log r r' since :
  rt_absence rt r = None → row_after rt retention log r = Some r' → rt_absence rt r' = Some since →
  ∃ pre first run, log = pre ++ first :: run ∧ Forall proved_absent (first :: run) ∧
    sighting_now first = since.
Proof.
  intros Hr. revert r' since. induction log as [|s log IH] using rev_ind; intros r' since.
  { intros [= <-]. congruence. }
  unfold row_after. rewrite fold_left_app. cbn [fold_left].
  fold (row_after rt retention log r). destruct (row_after rt retention log r) as [r1|]; [|done].
  cbn [mbind option_bind]. unfold reconciled_row. destruct s as [seen proven now]. simpl.
  destruct seen; [intros [= <-]; by rewrite absence_set|].
  destruct proven; [|intros [= <-]; by rewrite absence_set]. simpl.
  destruct (rt_absence rt r1) as [since1|] eqn:Hsince.
  - case_bool_decide; [done|]. intros [= <-] Hs. rewrite Hsince in Hs. injection Hs as <-.
    destruct (IH r1 since1 eq_refl Hsince) as (pre & first & run & -> & Hrun & Hfirst).
    exists pre, first, (run ++ [mkSighting false true now]). split_and!; [|..|done].
    + by rewrite <-app_assoc.
    + rewrite app_comm_cons. apply Forall_app. split; [done|]. by constructor.
  - intros [= <-]. rewrite absence_set. intros [= <-].
    exists log, (mkSighting false true now), []. split_and!; [done| |done]. by constructor.
Qed.

Lemma last_snoc_list {A} (l : list A) (x d : A) : List.last (l ++ [x]) d = x.
Proof. apply List.last_last. Qed.

(** A retired row was proved absent for the retention. *)
Lemma retired_is_proved log r :
  rt_absence rt r = None → (0 < retention)%Z →
  (∀ s, s ∈ log → (0 ≤ sighting_now s < 2 ^ 63)%Z) →
  row_after rt retention log r = None → ∃ pre post, log = pre ++ post ∧ absence_proved retention pre.
Proof.
  intros Hr Hret Hnow. induction log as [|s log IH] using rev_ind; [done|].
  unfold row_after. rewrite fold_left_app. cbn [fold_left].
  fold (row_after rt retention log r).
  destruct (row_after rt retention log r) as [r1|] eqn:Hr1.
  2:{ intros _. destruct IH as (pre & post & -> & Hp); [|done|].
      - intros s' Hs'. apply Hnow. apply elem_of_app. by left.
      - exists pre, (post ++ [s]). split; [by rewrite app_assoc|done]. }
  cbn [mbind option_bind]. unfold reconciled_row. destruct s as [seen proven now] eqn:Hs. simpl.
  destruct seen; [done|]. destruct proven; [|done]. simpl.
  destruct (rt_absence rt r1) as [since|] eqn:Hsince; [|done].
  case_bool_decide as Hle; [|done]. intros _.
  destruct (absence_is_proved log r r1 since Hr Hr1 Hsince) as (pre & first & run & Hlog & Hrun & Hf).
  exists (log ++ [mkSighting false true now]), []. split; [by rewrite app_nil_r|].
  exists pre, first, (run ++ [mkSighting false true now]). split_and!.
  - by rewrite Hlog, <-app_assoc.
  - rewrite app_comm_cons. apply Forall_app. split; [done|]. by constructor.
  - rewrite app_comm_cons, last_snoc_list, Hf. simpl.
    pose proof (Hnow (mkSighting false true now)) as H1. pose proof (Hnow first) as H2. simpl in *.
    assert (0 ≤ since < 2 ^ 63)%Z as Hsr.
    { rewrite <-Hf. apply H2. rewrite Hlog. set_solver. }
    assert (0 ≤ now < 2 ^ 63)%Z as Hnr by (apply H1; set_solver).
    unfold i64_saturating_sub in Hle. lia.
Qed.
End Retirement.

(** ** Protections and retry blocks *)

(** The cycles of the daemon, as one row sees them: each reconciliation is a sighting,
    and everything else in between leaves the row alone. *)
Inductive cycles {R} (row : database → option R)
    (reconciles : R → sighting → database → database → Prop) :
  database → list sighting → database → Prop :=
| cycles_nil db : cycles row reconciles db [] db
| cycles_other db log db1 db2 :
    cycles row reconciles db log db1 → row db2 = row db1 → cycles row reconciles db log db2
| cycles_reconcile db log db1 db2 r s :
    cycles row reconciles db log db1 → row db1 = Some r → reconciles r s db1 db2 →
    cycles row reconciles db (log ++ [s]) db2.

(** A reconciliation of the protections, as a protection sees it. *)
Definition protection_sighting (retention : N) (r : protection_row) (s : sighting)
    (db db' : database) : Prop :=
  ∃ io live now c,
    reconcile_incident_protections io live (sighting_proven s) now retention db = Ok (db', c) ∧
    sighting_now s = Z.of_N now ∧
    sighting_seen s = bool_decide (protection_root_identity r ∈ live).

(** A reconciliation of the retry blocks, as a block sees it. *)
Definition block_sighting (retention : N) (incident : string) (b : block_row) (s : sighting)
    (db db' : database) : Prop :=
  is_Some (rows (attempts db) !! block_source_attempt b) ∧
  ∃ io seen live now c,
    reconcile_retry_blocks io seen live (sighting_proven s) now retention db = Ok (db', c) ∧
    sighting_now s = Z.of_N now ∧ sighting_seen s = block_seen seen live db incident b.

Lemma cycles_row_after {R} (rt : reconciled_table R) retention row reconciles db log db' r :
  (∀ r s db1 db2, reconciles r s db1 db2 → row db1 = Some r →
     row db2 = reconciled_row rt (sighting_seen s) (sighting_proven s) (sighting_now s) retention r) →
  cycles row reconciles db log db' → row db = Some r → row db' = row_after rt retention log r.
Proof.
  intros Hstep Hc Hr. induction Hc as [db|db log db1 db2 Hc IH Hrow|db log db1 db2 r1 s Hc IH H1 Hs].
  - done.
  - rewrite Hrow. by apply IH.
  - unfold row_after. rewrite fold_left_app. cbn [fold_left].
    fold (row_after rt retention log r). rewrite <-(IH Hr), H1. by eapply Hstep.
Qed.

Lemma protection_step retention incident r s db1 db2 :
  protection_sighting retention r s db1 db2 → protections db1 !! incident = Some r →
  protections db2 !! incident =
    reconciled_row protections_table (sighting_seen s) (sighting_proven s) (sighting_now s)
      (Z.of_N retention) r.
Proof.
  intros (io & live & now & c & H & Hn & Hs) Hr.
  apply reconcile_protections_Ok in H as (_ & _ & _ & Hrows). specialize (Hrows incident).
  rewrite Hr in Hrows. rewrite Hn, Hs. apply Hrows.
Qed.

Lemma reconcile_blocks_Ok io seen live proven now retention db db' c incident b :
  reconcile_retry_blocks io seen live proven now retention db = Ok (db', c) →
  retry_blocks db !! incident = Some b →
  is_Some (rows (attempts db) !! block_source_attempt b) →
  (0 < Z.of_N retention < 2 ^ 63)%Z ∧ (Z.of_N now < 2 ^ 63)%Z ∧
  writes_ok retry_blocks_table (block_seen seen live db incident b) proven (Z.of_N now) b ∧
  retry_blocks db' !! incident =
    reconciled_row retry_blocks_table (block_seen seen live db incident b) proven (Z.of_N now)
      (Z.of_N retention) b.
Proof.
  unfold reconcile_retry_blocks. intros [Hz H]%guard_Ok Hb Hat.
  apply negb_true_iff, bool_decide_eq_false in Hz.
  apply result_bind_Ok in H as (n & [-> Hn]%sqlite_millis_Ok & H).
  apply result_bind_Ok in H as (rt & [-> Hret]%sqlite_millis_Ok & H).
  apply with_connection_Ok in H as [_ H].
  apply result_bind_Ok in H as ([t' c'] & H & [= <- _]).
  split; [lia|]. split; [done|]. simpl.
  apply reconcile_rows_Ok in H as [Hread _].
  - apply Hread. apply list_elem_of_In, filter_In. simpl. rewrite bool_decide_eq_true.
    split; [|done]. by apply list_elem_of_In, elem_of_map_to_list.
  - apply NoDup_filter_fst, NoDup_fst_map_to_list.
  - intros k r Hel. apply list_elem_of_In, filter_In in Hel as [Hel _].
    by apply elem_of_map_to_list, list_elem_of_In.
Qed.

Lemma sighting_times {R} row (reconciles : R → sighting → database → database → Prop) db log db' :
  (∀ r s db1 db2, reconciles r s db1 db2 → row db1 = Some r → (0 ≤ sighting_now s < 2 ^ 63)%Z) →
  cycles row reconciles db log db' → ∀ s, s ∈ log → (0 ≤ sighting_now s < 2 ^ 63)%Z.
Proof.
  intros Hstep Hc. induction Hc as [db|db log db1 db2 Hc IH Hrow|db log db1 db2 r1 s Hc IH H1 Hs];
    intros s' Hel; [by apply elem_of_nil in Hel|auto|].
  apply elem_of_app in Hel as [Hel | ->%list_elem_of_singleton]; [auto|eauto].
Qed.

(** [C29] The owner's decisions outlive doubt. However many cycles run and whatever else
    is written in between, a protection and a retry block disappear through the
    reconciliations only if some run of consecutive reconciliations all proved with
    complete coverage that the exact process was gone, and the first and the last of
    them are the retention apart on the wall clock. One sighting of the process, or one
    cycle whose coverage was incomplete, starts the absence afresh. *)
Theorem retirement_needs_proved_absence retention incident db log db' :
  (0 < Z.of_N retention)%Z →
  (∀ r, protections db !! incident = Some r → protection_absence_since_ms r = None →
     cycles (λ db, protections db !! incident) (protection_sighting retention) db log db' →
     protections db' !! incident = None →
     ∃ pre post, log = pre ++ post ∧ absence_proved (Z.of_N retention) pre) ∧
  (∀ b, retry_blocks db !! incident = Some b → block_absence_since_ms b = None →
     cycles (λ db, retry_blocks db !! incident) (block_sighting retention incident) db log db' →
     retry_blocks db' !! incident = None →
     ∃ pre post, log = pre ++ post ∧ absence_proved (Z.of_N retention) pre).
Proof.
  intros Hret. split.
  - intros r Hr Ha Hc Hnone.
    apply (retired_is_proved protections_table (Z.of_N retention) log r Ha Hret).
    + eapply sighting_times; [|exact Hc]. intros r1 s db1 db2 (io & live & now & c & H & -> & _) _.
      apply reconcile_protections_Ok in H. lia.
    + rewrite <-Hnone. symmetry.
      refine (cycles_row_after _ _ (λ db, protections db !! incident) _ _ _ _ _ _ Hc Hr).
      intros r1 s db1 db2. apply protection_step.
  - intros b Hb Ha Hc Hnone.
    apply (retired_is_proved retry_blocks_table (Z.of_N retention) log b Ha Hret).
    + eapply sighting_times; [|exact Hc].
      intros r1 s db1 db2 (Hat & io & seen & live & now & c & H & -> & _) Hrow.
      eapply reconcile_blocks_Ok in H; [|done..]. lia.
    + rewrite <-Hnone. symmetry.
      refine (cycles_row_after _ _ (λ db, retry_blocks db !! incident) _ _ _ _ _ _ Hc Hb).
      intros r1 s db1 db2 (Hat & io & seen & live & now & c & H & Hn & Hs) Hrow.
      rewrite Hn, Hs. by eapply reconcile_blocks_Ok in H as (_ & _ & _ & ?).
Qed.

(** ** The clock of a reconciliation *)

(** A protection whose process is alive cannot be reconciled at a time before it was
    made: the UPDATE violates the CHECK of the table, and the whole cycle fails. *)
Theorem reconciliation_needs_the_clock io live absence_proven now retention db incident r :
  protections db !! incident = Some r → protection_root_identity r ∈ live →
  (Z.of_N now < protected_at_ms r)%Z →
  ¬ is_Ok (reconcile_incident_protections io live absence_proven now retention db).
Proof.
  intros Hr Hlive Hnow [[db' c] H]. apply reconcile_protections_Ok in H as (_ & _ & _ & H).
  specialize (H incident). rewrite Hr in H. rewrite bool_decide_eq_true_2 in H by done.
  destruct H as [Hw _]. unfold writes_ok, protections_table, protection_check in Hw. simpl in Hw.
  rewrite !andb_true_iff in Hw. destruct Hw as [[_ Hle%bool_decide_eq_true] _]. lia.
Qed.
