(* ===== verification/Views.v ===== *)
(** Views: what the store shows of its history, [unlinger-daemon/src/store.rs].

    The cleanups that need the owner's attention, the protections, the impacts of
    completed cleanups and the events. A view reads rows back and checks what it reads:
    it fails if any row it selects is inconsistent. *)

From S2P Require Import Prelude Text Model Artifact Evidence Cleanup Executor Analyzer Cooling.
From S2P Require Import Names Store Journal Protocol Mutations Observations.
From Stdlib Require Import Ascii.

Definition MAX_ATTENTION_SUMMARIES : nat := 50.

Definition MAX_REASON_ID_CHARS : nat := 128.

(** [project_reason_id]. *)
Definition project_reason_id (value : option string) : string :=
  match value with
  | None => "cleanup.unclassified_failure"
  | Some value =>
      if negb (is_empty value) && bool_decide (String.length value ≤ MAX_REASON_ID_CHARS)
         && all_bytes redacted_byte value
      then value else "cleanup.unclassified_failure"
  end.

(** ** Order *)

(** [ORDER BY time DESC, id DESC]. *)
Definition newer {V} (time : V → Z) : relation (Z * V) :=
  λ a b, (time b.2 < time a.2 ∨ (time a.2 = time b.2 ∧ b.1 ≤ a.1))%Z.

#[export] Instance newer_dec {V} (time : V → Z) : RelDecision (newer time).
Proof. unfold newer. intros a b. apply _. Defined.

(** The rows of a table that satisfy a condition, the newest first. *)
Definition newest_first {V} (time : V → Z) (P : Z → V → bool) (t : table V) : list (Z * V) :=
  merge_sort (newer time) (List.filter (λ e, P e.1 e.2) (table_entries t)).

(** [ORDER BY occurred_at_ms ASC, id ASC]. *)
Definition older : relation (Z * event_row) :=
  λ a b, (event_occurred_at_ms a.2 < event_occurred_at_ms b.2
          ∨ (event_occurred_at_ms a.2 = event_occurred_at_ms b.2 ∧ a.1 ≤ b.1))%Z.

#[export] Instance older_dec : RelDecision older.
Proof. unfold older. intros a b. apply _. Defined.

(** [ORDER BY time DESC, incident_id ASC]. *)
Definition newer_incident {V} (time : V → Z) : relation (string * V) :=
  λ a b, (time b.2 < time a.2)%Z ∨ (time a.2 = time b.2 ∧ String.le a.1 b.1).

#[export] Instance newer_incident_dec {V} (time : V → Z) : RelDecision (newer_incident time).
Proof. unfold newer_incident. intros a b. apply _. Defined.

(** ** Attention *)

Record BlockedCleanupSummary : Type := mkBlockedCleanupSummary {
  bc_event_token : option string;
  bc_incident_id : string;
  bc_state : IncidentState;
  bc_blocked_at_unix_millis : N;
  bc_reason_id : string;
  bc_outcome : CleanupOutcome;
  bc_last_exact_observed_at_unix_millis : option N;
  bc_exact_absence_since_unix_millis : option N;
}.

Record StoreAttentionProjection : Type := mkStoreAttentionProjection {
  sap_blocked_cleanup_count : N;
  sap_blocked_cleanups : list BlockedCleanupSummary;
}.

(** The cleanup events of an attempt in a state, the newest first. *)
Definition terminal_events (db : database) (attempt : Z) (terminal_state : option string) :
    list (Z * event_row) :=
  newest_first event_occurred_at_ms
    (λ _ e, bool_decide (event_attempt e = Some attempt)
            && bool_decide (event_kind e = "cleanup")
            && bool_decide (Some (event_state e) = terminal_state)) (events db).

Section Views.
Context `{JE : Json EventPayload}.

(** The loop body of [attention_projection]: a retry block with its attempt. *)
Definition blocked_cleanup (db : database) (row : string * block_row * attempt_row) :
    result BlockedCleanupSummary StoreError :=
  let '(incident, b, a) := row in
  let terminal := terminal_events db (block_source_attempt b) (attempt_terminal_state a) in
  let event_token :=
    snd <$> head (omap (λ e, pair e.1 <$> tokens db !! e.1) terminal) in
  let? state_text :=
    ok_or (attempt_terminal_state a) (StoreSqlite "Invalid column type Null") in
  let? state := parse_state state_text in
  guard? bool_decide (state ∈ [Failed; Revived])
    else StoreCorrupt ("retry block references non-blocking terminal state "
                       +:+ state_name state) in
  let? event :=
    ok_or (head terminal)
      (StoreCorrupt "retry block has no matching terminal cleanup event") in
  let? payload := from_json (event_payload_json event.2) in
  match payload with
  | PayloadObservation _ =>
      Err (StoreCorrupt "retry block selected a non-cleanup event payload")
  | PayloadCleanup receipt =>
      let? blocked_at := parse_nonnegative_millis (blocked_at_ms b) "retry block timestamp" in
      let? last_observed :=
        option_transpose (λ v, parse_nonnegative_millis v "last exact observation")
          (block_last_exact_observed_at_ms b) in
      let? absence :=
        option_transpose (λ v, parse_nonnegative_millis v "exact absence timestamp")
          (block_absence_since_ms b) in
      Ok (mkBlockedCleanupSummary event_token (project_identifier incident "redacted-incident")
            state blocked_at (project_reason_id (block_reason_id b)) (outcome receipt)
            last_observed absence)
  end.

(** [FROM cleanup_retry_blocks JOIN cleanup_attempts]. *)
Definition blocks_with_attempts (db : database) : list (string * block_row * attempt_row) :=
  omap (λ entry, pair entry <$> rows (attempts db) !! block_source_attempt entry.2)
    (merge_sort (newer_incident blocked_at_ms) (map_to_list (retry_blocks db))).

(** [HistoryStore::attention_projection]. *)
Definition attention_projection (io : option StoreError) (limit : nat) (db : database) :
    result StoreAttentionProjection StoreError :=
  with_connection io (
  let? blocked :=
    collect_results (blocked_cleanup db)
      (take (Nat.min limit MAX_ATTENTION_SUMMARIES) (blocks_with_attempts db)) in
  Ok (mkStoreAttentionProjection (N.of_nat (size (retry_blocks db))) blocked)).

(** ** Protections *)

Record ProtectionProjection : Type := mkProtectionProjection {
  pp_protected_incident_count : N;
  pp_protected_incidents : list ProtectionSummary;
}.

(** [HistoryStore::protection_for_incident]. *)
Definition protection_for_incident (io : option StoreError) (incident : string) (db : database) :
    result (option ProtectionSummary) StoreError :=
  with_connection io (protection_summary_transaction incident db).

(** [HistoryStore::protection_projection]. *)
Definition protection_projection (io : option StoreError) (limit : nat) (db : database) :
    result ProtectionProjection StoreError :=
  with_connection io (
  let? protected :=
    collect_results (λ entry, projected_protection_summary entry.1 entry.2)
      (take (Nat.min limit MAX_ATTENTION_SUMMARIES)
         (merge_sort (newer_incident protected_at_ms) (map_to_list (protections db)))) in
  Ok (mkProtectionProjection (N.of_nat (size (protections db))) protected)).

(** ** Impacts *)

Record CleanupImpact : Type := mkCleanupImpact {
  ci_event_token : string;
  ci_incident_id : string;
  ci_family : string;
  ci_family_version : string;
  ci_occurred_at_unix_millis : N;
  ci_state : IncidentState;
  ci_outcome : CleanupOutcome;
  ci_process_count : option N;
  ci_estimated_reclaimed_memory_bytes : option N;
  ci_revival_checks_completed : N;
}.

Definition is_public_token (token : string) : bool :=
  bool_decide (String.length token = 32) && all_bytes is_ascii_hexdigit token.

(** The loop body of [query_cleanup_impacts]. *)
Definition stored_impact (row : string * impact_row) : result CleanupImpact StoreError :=
  let '(token, i) := row in
  guard? is_public_token token
    else StoreCorrupt "cleanup impact has an invalid public event token" in
  let? occurred_at :=
    u64_or_corrupt (impact_occurred_at_ms i) "negative cleanup impact timestamp" in
  let? state := parse_state (impact_state i) in
  let? process := parse_process_outcome (impact_process_outcome i) in
  let? artifact := parse_artifact_outcome (impact_artifact_outcome i) in
  let? overall := parse_overall_outcome (impact_overall_outcome i) in
  let? process_count :=
    option_transpose (λ v, u64_or_corrupt v "invalid cleanup impact process count")
      (impact_process_count i) in
  let? memory :=
    option_transpose (λ v, u64_or_corrupt v "invalid cleanup impact memory value")
      (impact_estimated_memory i) in
  let? checks :=
    u64_or_corrupt (impact_revival_checks i) "invalid cleanup impact revival count" in
  Ok (mkCleanupImpact token (impact_incident_id i) (impact_family i) (impact_family_version i)
        occurred_at state
        (mkCleanupOutcome process artifact overall
           (negb (bool_decide (impact_overall_outcome i = "cleared"))))
        process_count memory checks).

(** [query_cleanup_impacts]: [P] is the predicate of the WHERE clause. *)
Definition query_cleanup_impacts (io : option StoreError) (P : Z → impact_row → bool) (limit : N)
    (db : database) : result (list CleanupImpact) StoreError :=
  if bool_decide (limit = 0)%N then Ok []
  else
    let? limit := i64_or_range limit "cleanup impact limit overflowed i64" in
    with_connection io
      (collect_results stored_impact
         (take (Z.to_nat limit)
            (omap (λ e, (λ token, (token, e.2)) <$> tokens db !! impact_event e.2)
               (newest_first impact_occurred_at_ms P (impacts db))))).

Record MostRecentReclaim : Type := mkMostRecentReclaim {
  mrr_event_token : string;
  mrr_incident_id : string;
  mrr_occurred_at_unix_millis : N;
  mrr_state : IncidentState;
  mrr_outcome : CleanupOutcome;
}.

(** A cleared impact with a delivered signal. *)
Definition is_reclaim (db : database) (_ : Z) (i : impact_row) : bool :=
  bool_decide (impact_process_outcome i = "cleared")
  && table_exists (λ _, has_stored_disposition "delivered" (impact_attempt i)) (action_rows db).

(** [HistoryStore::most_recent_reclaim]. *)
Definition most_recent_reclaim (io : option StoreError) (db : database) :
    result (option MostRecentReclaim) StoreError :=
  let? impacts := query_cleanup_impacts io (is_reclaim db) 1 db in
  Ok ((λ i, mkMostRecentReclaim (ci_event_token i)
              (project_identifier (ci_incident_id i) "redacted-incident")
              (ci_occurred_at_unix_millis i) (ci_state i) (ci_outcome i)) <$> last impacts).

(** [HistoryStore::cleanup_impact_for_event_token]; the second query is another use of
    the connection. *)
Definition cleanup_impact_for_event_token (io io' : option StoreError) (token : string)
    (db : database) : result (option CleanupImpact) StoreError :=
  let? found :=
    with_connection io (Ok (List.find
      (λ e : Z * impact_row, bool_decide (tokens db !! impact_event e.2 = Some token))
      (table_entries (impacts db)))) in
  match found with
  | None => Ok None
  | Some (id, _) =>
      let? impacts := query_cleanup_impacts io' (λ k _, bool_decide (k = id)) 1 db in
      Ok (last impacts)
  end.

(** ** Events *)

Record HistoryEvent : Type := mkHistoryEvent {
  he_event_id : Z;
  he_event_token : string;
  he_attempt_id : option Z;
  he_incident_id : string;
  he_first_occurred_at_unix_millis : N;
  he_occurred_at_unix_millis : N;
  he_observation_count : N;
  he_kind : EventKind;
  he_state : IncidentState;
  he_payload : EventPayload;
}.

Definition payload_kind (p : EventPayload) : EventKind :=
  match p with PayloadObservation _ => KindObservation | PayloadCleanup _ => KindCleanup end.

Definition payload_state (p : EventPayload) : IncidentState :=
  match p with
  | PayloadObservation report => obs_state report
  | PayloadCleanup receipt => receipt_state receipt
  end.

(** The loop body of [query_events]. *)
Definition stored_event (row : Z * event_row * string) : result HistoryEvent StoreError :=
  let '(id, e, token) := row in
  guard? is_public_token token
    else StoreCorrupt ("event " +:+ pretty id +:+ " has an invalid public token") in
  let? occurred_at := u64_or_corrupt (event_occurred_at_ms e) "negative event timestamp" in
  let? first_occurred_at :=
    u64_or_corrupt (event_first_occurred_at_ms e) "negative event start timestamp" in
  guard? bool_decide (first_occurred_at ≤ occurred_at)%N
    else StoreCorrupt ("event " +:+ pretty id +:+ " starts after its latest observation") in
  let? count := u64_or_corrupt (event_observation_count e) "invalid event observation count" in
  guard? negb (bool_decide (count = 0)%N)
    else StoreCorrupt ("event " +:+ pretty id +:+ " has an empty observation span") in
  let? kind := parse_event_kind (event_kind e) in
  let? state := parse_state (event_state e) in
  let? payload := from_json (event_payload_json e) in
  guard? bool_decide (payload_kind payload = kind) && bool_decide (payload_state payload = state)
    else StoreCorrupt ("event " +:+ pretty id +:+ " index columns disagree with payload") in
  Ok (mkHistoryEvent id token (event_attempt e) (event_incident_id e) first_occurred_at
        occurred_at count kind state payload).

(** [JOIN public_event_tokens]. *)
Definition with_token (db : database) (e : Z * event_row) : option (Z * event_row * string) :=
  pair e <$> tokens db !! e.1.

(** [HistoryStore::history]. *)
Definition history (io : option StoreError) (limit : N) (db : database) :
    result (list HistoryEvent) StoreError :=
  if bool_decide (limit = 0)%N then Ok []
  else
    with_connection io
      (collect_results stored_event
         (take (N.to_nat (N.min limit 10000))
            (omap (with_token db) (newest_first event_occurred_at_ms (λ _ _, true) (events db))))).

Record IncidentDetail : Type := mkIncidentDetail {
  detail_incident_id : string;
  detail_events : list HistoryEvent;
}.

(** [HistoryStore::explain]: the events of an incident, the oldest first. *)
Definition explain (io : option StoreError) (incident : string) (db : database) :
    result (option IncidentDetail) StoreError :=
  with_connection io (
  let? events :=
    collect_results stored_event
      (omap (with_token db)
         (merge_sort older
            (List.filter (λ e, bool_decide (event_incident_id e.2 = incident))
               (table_entries (events db))))) in
  Ok match events with
     | [] => None
     | _ => Some (mkIncidentDetail incident events)
     end).
End Views.
