(* ===== verification/PruneFacts.v ===== *)
(** PruneFacts: pruning, verified.

    Pruning leaves no dangling reference, and removes a mutation receipt only together with
    the authority under which its request could be sent again. It does remove the terminal
    event of an attempt that still blocks its incident, which the view of what needs
    attention looks for. *)

From S2P Require Import Prelude Text Model Artifact Evidence Cleanup Executor Analyzer Decisions.
From S2P Require Import Cooling Names Store Journal JournalFacts DurableRun StoreSafety Protocol.
From S2P Require Import Mutations Observations MutationFacts Views.

(** The foreign keys between attempts, events, impacts, tokens and blocks. *)
Record references_wf (db : database) : Prop := {
  event_attempts : ∀ id e a, rows (events db) !! id = Some e → event_attempt e = Some a →
    is_Some (rows (attempts db) !! a);
  impact_attempts : ∀ id i, rows (impacts db) !! id = Some i →
    is_Some (rows (attempts db) !! impact_attempt i);
  impact_events : ∀ id i, rows (impacts db) !! id = Some i →
    ∃ e, rows (events db) !! impact_event i = Some e ∧ event_kind e = "cleanup";
  token_events : ∀ id token, tokens db !! id = Some token → is_Some (rows (events db) !! id);
}.

Section Prune.
Context (namespace : string) (cutoff cleanup_cutoff limit now : Z).

(** The tables after the transaction, each from the tables before it. *)
Definition pruned_impacts (db : database) : table impact_row :=
  table_delete (λ _ i, bool_decide (impact_occurred_at_ms i < cleanup_cutoff)%Z) (impacts db).

Definition pruned_events (db : database) : table event_row :=
  prune_cleanup_events cleanup_cutoff (pruned_impacts db)
    (prune_observations cutoff limit (events db)).

(** The database the DELETEs of attempts and actions read. *)
Definition pruned_history (db : database) : database :=
  db <| events := pruned_events db |> <| impacts := pruned_impacts db |>.

Lemma attempt_unreferenced_ext db db' id a :
  events db' = events db → retry_blocks db' = retry_blocks db → impacts db' = impacts db →
  attempt_unreferenced db' id a = attempt_unreferenced db id a.
Proof. unfold attempt_unreferenced. by intros -> -> ->. Qed.

Lemma table_delete_ext {V} (P Q : Z → V → bool) t :
  (∀ k v, P k v = Q k v) → table_delete P t = table_delete Q t.
Proof.
  intros HPQ. unfold table_delete. f_equal. apply map_filter_ext. intros k v _. simpl.
  by rewrite HPQ.
Qed.

Lemma row_unreferenced_ext {S} db db' (r : journal_row S) :
  attempts db' = attempts db → events db' = events db → retry_blocks db' = retry_blocks db →
  impacts db' = impacts db → row_unreferenced db' r = row_unreferenced db r.
Proof.
  intros Ha He Hb Hi. unfold row_unreferenced. rewrite Ha.
  destruct (rows (attempts db) !! row_attempt r); [|done]. by apply attempt_unreferenced_ext.
Qed.

(** What the transaction leaves in each table. *)
Lemma prune_transaction_tables db :
  let db' := prune_transaction namespace cutoff cleanup_cutoff limit now db in
  events db' = pruned_events db ∧ impacts db' = pruned_impacts db ∧
  tokens db' = cascade_tokens (pruned_events db) (tokens db) ∧
  retry_blocks db' = retry_blocks db ∧ lifecycle db' = lifecycle db ∧
  protections db' = protections db ∧ settings db' = settings db ∧
  action_rows db' = table_delete (λ _, row_unreferenced (pruned_history db)) (action_rows db) ∧
  artifact_rows db' = table_delete (λ _, row_unreferenced (pruned_history db)) (artifact_rows db) ∧
  attempts db' = table_delete (attempt_unreferenced (pruned_history db)) (attempts db).
Proof.
  unfold prune_transaction. cbn zeta.
  assert (∀ (b : bool) (x y : database),
    attempts x = attempts y → events x = events y → impacts x = impacts y → tokens x = tokens y →
    retry_blocks x = retry_blocks y → lifecycle x = lifecycle y → protections x = protections y →
    settings x = settings y → action_rows x = action_rows y → artifact_rows x = artifact_rows y →
    ∃ z, (if b then x else y) = z ∧ attempts z = attempts y ∧ events z = events y ∧
      impacts z = impacts y ∧ tokens z = tokens y ∧ retry_blocks z = retry_blocks y ∧
      lifecycle z = lifecycle y ∧ protections z = protections y ∧ settings z = settings y ∧
      action_rows z = action_rows y ∧ artifact_rows z = artifact_rows y) as Hif.
  { intros [] x y ? ? ? ? ? ? ? ? ? ?; eexists; by split_and!. }
  match goal with
  | |- context [if ?b then ?x else ?y] =>
      destruct (Hif b x y) as (z & -> & Ha & He & Hi & Ht & Hb & Hl & Hp & Hs & Hac & Haa);
        try reflexivity
  end.
  simpl in *. rewrite He, Hi, Ht, Hb, Hl, Hp, Hs, Hac, Haa, Ha.
  split_and!; try done; apply table_delete_ext; intros k v.
  - by apply row_unreferenced_ext.
  - by apply row_unreferenced_ext.
  - by apply attempt_unreferenced_ext.
Qed.

(** The receipts after the transaction. *)
Lemma prune_transaction_receipts db :
  let db' := prune_transaction namespace cutoff cleanup_cutoff limit now db in
  let kept := filter (λ entry, (now < rr_retain_until_ms entry.2)%Z) (mutation_receipts db) in
  mutation_receipts db' = kept ∧
  (kept = mutation_receipts db ∧ mutation_namespace db' = mutation_namespace db ∨
   mutation_namespace db' = namespace).
Proof.
  unfold prune_transaction. cbn zeta.
  set (kept := filter _ _). case_bool_decide as Hsize; simpl in *; [by split; [|right]|].
  assert (kept = mutation_receipts db) as E; [|by split; [|left]].
  apply map_filter_id. intros k r Hr. destruct (decide (now < rr_retain_until_ms r)%Z); [done|].
  exfalso. apply Hsize. unfold kept.
  apply map_subset_size. split; [apply map_filter_subseteq|]. intros Hsub.
  pose proof (lookup_weaken _ _ _ _ Hr Hsub) as Hk. by apply map_lookup_filter_Some in Hk as [_ Hk].
Qed.
End Prune.

(** ** What is kept *)

Lemma prune_Ok namespace io now policy db db' r :
  prune namespace io now policy db = Ok (db', r) →
  ∃ limit, (Z.of_N now < 2 ^ 63)%Z ∧
    db' = prune_transaction namespace (Z.of_N (now - max_age_millis policy))
            (Z.of_N (now - N.max (max_age_millis policy) CLEANUP_DETAIL_RETENTION_MILLIS))
            limit (Z.of_N now) db.
Proof.
  unfold prune. intros [_ H]%with_connection_Ok.
  apply result_bind_Ok in H as (c & [-> _]%i64_or_range_Ok & H).
  apply result_bind_Ok in H as (cc & [-> _]%i64_or_range_Ok & H).
  apply result_bind_Ok in H as (limit & _ & H).
  apply result_bind_Ok in H as (n & [-> Hn]%sqlite_millis_Ok & [= <- _]). eauto.
Qed.

(** An event the transaction keeps, from the table before it. *)
Lemma pruned_events_lookup cutoff cleanup_cutoff limit db id e :
  rows (pruned_events cutoff cleanup_cutoff limit db) !! id = Some e →
  rows (events db) !! id = Some e.
Proof.
  unfold pruned_events, prune_cleanup_events, prune_observations.
  by intros [[[H _]%table_delete_lookup _]%table_delete_lookup _]%table_delete_lookup.
Qed.

(** A cleanup event goes only when it is old and has no impact. *)
Lemma pruned_cleanup_event cutoff cleanup_cutoff limit db id e :
  rows (events db) !! id = Some e → event_kind e = "cleanup" →
  (cleanup_cutoff ≤ event_occurred_at_ms e)%Z ∨
    (∃ k i, rows (pruned_impacts cleanup_cutoff db) !! k = Some i ∧ impact_event i = id) →
  rows (pruned_events cutoff cleanup_cutoff limit db) !! id = Some e.
Proof.
  intros Hr Hk Hkept. unfold pruned_events, prune_cleanup_events, prune_observations.
  assert (is_observation e = false) as Hobs.
  { unfold is_observation. rewrite Hk. by apply bool_decide_eq_false. }
  apply table_delete_lookup. split.
  - apply table_delete_lookup. split; [apply table_delete_lookup; split; [done|]|]; by rewrite Hobs.
  - destruct Hkept as [Hlate|(k & i & Hi & He)].
    + rewrite (bool_decide_eq_false_2 (event_occurred_at_ms e < cleanup_cutoff)%Z) by lia.
      by rewrite andb_false_r.
    + assert (table_exists (λ _ i, bool_decide (impact_event i = id))
                (pruned_impacts cleanup_cutoff db) = true) as ->; [|by rewrite andb_false_r].
      apply table_exists_iff. exists k, i. by rewrite bool_decide_eq_true_2.
Qed.

(** An attempt goes only when nothing refers to it. *)
Lemma pruned_attempt db id a :
  rows (table_delete (attempt_unreferenced db) (attempts db)) !! id = Some a ↔
  rows (attempts db) !! id = Some a ∧
  (attempt_completed_at_ms a = None ∨
   (∃ k e, rows (events db) !! k = Some e ∧ event_attempt e = Some id) ∨
   (∃ incident b, retry_blocks db !! incident = Some b ∧ block_source_attempt b = id) ∨
   (∃ k i, rows (impacts db) !! k = Some i ∧ impact_attempt i = id)).
Proof.
  rewrite table_delete_lookup. apply and_iff_compat_l.
  unfold attempt_unreferenced, attempt_open. rewrite !andb_false_iff, !negb_false_iff.
  rewrite bool_decide_eq_true, !table_exists_iff, existsb_elem.
  setoid_rewrite bool_decide_eq_true. split.
  - intros [[[H|H]|([incident b] & Hb & H)]|H]; [tauto|tauto| |tauto].
    right. right. left. exists incident, b. split; [by apply elem_of_map_to_list|done].
  - intros [H|[H|[(incident & b & Hb & H)|H]]]; [tauto|tauto| |tauto].
    left. right. exists (incident, b). split; [by apply elem_of_map_to_list|done].
Qed.





Lemma prune_references db cutoff cleanup_cutoff limit :
  references_wf db → store_wf db →
  let h := pruned_history cutoff cleanup_cutoff limit db in
  let db' := table_delete (attempt_unreferenced h) (attempts db) in
  (∀ id e a, rows (events h) !! id = Some e → event_attempt e = Some a → is_Some (rows db' !! a)) ∧
  (∀ id i, rows (impacts h) !! id = Some i → is_Some (rows db' !! impact_attempt i)) ∧
  (∀ id i, rows (impacts h) !! id = Some i →
     ∃ e, rows (events h) !! impact_event i = Some e ∧ event_kind e = "cleanup") ∧
  (∀ incident b, retry_blocks db !! incident = Some b →
     ∃ a, rows (attempts db) !! block_source_attempt b = Some a ∧
       rows db' !! block_source_attempt b = Some a).
Proof.
  intros [Hea Hia Hie _] Hwf h db'.
  assert (∀ id a, rows (attempts db) !! id = Some a →
    (attempt_completed_at_ms a = None ∨
     (∃ k e, rows (events h) !! k = Some e ∧ event_attempt e = Some id) ∨
     (∃ incident b, retry_blocks h !! incident = Some b ∧ block_source_attempt b = id) ∨
     (∃ k i, rows (impacts h) !! k = Some i ∧ impact_attempt i = id)) →
    rows db' !! id = Some a) as Hkeep.
  { intros id a Ha Hr. unfold db'. change (attempts db) with (attempts h).
    apply pruned_attempt. by split. }
  assert (∀ id i, rows (impacts h) !! id = Some i → rows (impacts db) !! id = Some i) as Himp.
  { intros id i Hi. by apply table_delete_lookup in Hi as [Hi _]. }
  split_and!.
  - intros id e a He Ha. destruct (Hea id e a) as [row Hrow]; [|done|].
    + eapply pruned_events_lookup. exact He.
    + exists row. apply Hkeep; [done|]. right. left. by exists id, e.
  - intros id i Hi. destruct (Hia id i (Himp _ _ Hi)) as [row Hrow]. exists row.
    apply Hkeep; [done|]. do 3 right. eauto.
  - intros id i Hi. destruct (Hie id i (Himp _ _ Hi)) as (e & He & Hk). exists e. split; [|done].
    apply pruned_cleanup_event; [done|done|]. right. eauto.
  - intros incident b Hb. destruct (store_wf_blocks _ Hwf incident b Hb) as (a & Ha & _).
    exists a. split; [done|]. apply Hkeep; [done|]. do 2 right. left. exists incident, b.
    by split.
Qed.


(** The event is older than the cleanup retention, and so is every impact of it. *)
Definition due (now : N) (policy : RetentionPolicy) (db : database) (id : Z) (e : event_row) : Prop :=
  let cutoff := Z.of_N (now - N.max (max_age_millis policy) CLEANUP_DETAIL_RETENTION_MILLIS) in
  (event_occurred_at_ms e < cutoff)%Z ∧
  ∀ k i, rows (impacts db) !! k = Some i → impact_event i = id → (impact_occurred_at_ms i < cutoff)%Z.

(** An event that is due goes. *)
Lemma due_event_goes namespace io now policy db db' r id e :
  prune namespace io now policy db = Ok (db', r) → event_kind e = "cleanup" →
  due now policy db id e → rows (events db') !! id ≠ Some e.
Proof.
  intros (limit & _ & ->)%prune_Ok Hk [Hold Hi] H.
  destruct (prune_transaction_tables namespace (Z.of_N (now - max_age_millis policy))
    (Z.of_N (now - N.max (max_age_millis policy) CLEANUP_DETAIL_RETENTION_MILLIS)) limit
    (Z.of_N now) db) as (He & _).
  rewrite He in H. apply table_delete_lookup in H as [_ H].
  rewrite !bool_decide_eq_true_2 in H by done. simpl in H. apply negb_false_iff in H.
  apply table_exists_iff in H as (k & i & [Hki Hlate]%table_delete_lookup & Hid%bool_decide_eq_true).
  apply bool_decide_eq_false in Hlate. apply Hlate. by eapply Hi.
Qed.

Lemma collect_results_all {A B E} (f : A → result B E) l :
  is_Ok (collect_results f l) → ∀ x, x ∈ l → is_Ok (f x).
Proof.
  induction l as [|y l IH]; intros [ys H] x Hx; [by apply elem_of_nil in Hx|].
  simpl in H. apply result_bind_Ok in H as (z & Hz & H). apply result_bind_Ok in H as (zs & Hzs & _).
  apply elem_of_cons in Hx as [->|Hx]; [by eexists|]. eapply IH; [by eexists|done].
Qed.

Lemma length_omap_le {A B} (f : A → option B) l : length (omap f l) ≤ length l.
Proof.
  induction l as [|x l IH]; [done|]. change (x :: l) with ([x] ++ l). rewrite omap_app, length_app.
  assert (length (omap f [x]) ≤ 1) by (cbn; destruct (f x); simpl; lia). cbn [length app]. lia.
Qed.

(** [C38] Pruning breaks the view of a block whose cleanup is old. The block stays, with
    its attempt, but once the cleanup events of that attempt are older than the cleanup
    retention pruning deletes them, and the projection of what needs attention, which
    reads the terminal event of every block it shows, fails. *)
Theorem pruned_blocks_hide_attention `{JE : Json EventPayload} namespace io now policy db db' r
    incident b io' limit :
  prune namespace io now policy db = Ok (db', r) → store_wf db → references_wf db →
  retry_blocks db !! incident = Some b →
  (∀ id e, rows (events db) !! id = Some e → event_attempt e = Some (block_source_attempt b) →
     event_kind e = "cleanup" → due now policy db id e) →
  (size (retry_blocks db) ≤ Nat.min limit MAX_ATTENTION_SUMMARIES)%nat →
  retry_blocks db' !! incident = Some b ∧
  ¬ is_Ok (attention_projection io' limit db').
Proof.
  intros Hprune Hwf Href Hb Hdue Hsize.
  assert (∀ state, terminal_events db' (block_source_attempt b) state = []) as Hnone.
  { intros state. destruct (terminal_events _ _ _) as [|[id e] l] eqn:Ht; [done|].
    assert ((id, e) ∈ terminal_events db' (block_source_attempt b) state) as Hin by (rewrite Ht; left).
    unfold terminal_events, newest_first in Hin. rewrite merge_sort_Permutation in Hin.
    apply list_elem_of_In, filter_In in Hin as [Hin Hp]. simpl in Hp.
    apply list_elem_of_In, table_entries_elem in Hin.
    rewrite !andb_true_iff, !bool_decide_eq_true in Hp. destruct Hp as [[Ha Hk] _].
    exfalso. refine (due_event_goes _ _ _ _ _ _ _ id e Hprune Hk _ Hin).
    apply Hdue; [|done..]. apply prune_Ok in Hprune as (lim & _ & ->).
    edestruct prune_transaction_tables as (He & _). rewrite He in Hin.
    by eapply pruned_events_lookup. }
  pose proof Hprune as (lim & _ & E)%prune_Ok.
  edestruct (prune_transaction_tables namespace) as (_ & _ & _ & Hblocks & _ & _ & _ & _ & _ & Hatt).
  rewrite <-E in Hblocks, Hatt.
  destruct (prune_references db (Z.of_N (now - max_age_millis policy))
    (Z.of_N (now - N.max (max_age_millis policy) CLEANUP_DETAIL_RETENTION_MILLIS)) lim Href Hwf)
    as (_ & _ & _ & Hkept).
  destruct (Hkept incident b Hb) as (a & _ & Ha). rewrite <-Hatt in Ha.
  split; [by rewrite Hblocks|]. intros [p Hp]. apply with_connection_Ok in Hp as [_ Hp].
  apply result_bind_Ok in Hp as (shown & Hshown & _).
  assert ((incident, b, a) ∈ blocks_with_attempts db') as Hin.
  { apply list_elem_of_omap. exists (incident, b). split; [|simpl; by rewrite Ha].
    rewrite merge_sort_Permutation. apply elem_of_map_to_list. by rewrite Hblocks. }
  rewrite take_ge in Hshown; [|].
  2:{ etransitivity; [|exact Hsize]. rewrite <-Hblocks. unfold blocks_with_attempts.
      etransitivity; [apply length_omap_le|]. by rewrite merge_sort_Permutation, length_map_to_list. }
  destruct (collect_results_all _ _ (ex_intro _ _ Hshown) _ Hin) as [summary Hs].
  unfold blocked_cleanup in Hs. rewrite Hnone in Hs. cbv zeta in Hs.
  apply result_bind_Ok in Hs as (text & _ & Hs). apply result_bind_Ok in Hs as (state & _ & Hs).
  apply guard_Ok in Hs as [_ Hs]. by apply result_bind_Ok in Hs as (event & [=] & _).
Qed.

(** A pruned request is never applied again. After a mutation was committed and the
    history pruned, sending the request again either answers its first receipt or, if
    the receipt's retention had passed, is refused because the authority it names is
    gone: whatever other receipts were pruned, no receipt goes without a new namespace. *)
Theorem pruned_requests_are_refused
    `{JE : Json EventPayload, JM : Json OrdinaryMutation, JR : Json MutationReceipt,
      !JsonRoundTrip MutationReceipt, !JsonRoundTrip OrdinaryMutation}
    io context m rf now db db' c namespace policy later db'' r rf' again :
  commit_public_ordinary_mutation io context m rf now db = Ok (db', c) →
  prune namespace None later policy db' = Ok (db'', r) →
  is_valid_namespace_token namespace = true → namespace ≠ context_namespace_token context →
  (Z.of_N (again + MUTATION_RECONCILIATION_WINDOW_MILLIS) < 2 ^ 63)%Z →
  commit_public_ordinary_mutation None context m rf' again db'' =
    Ok (db'', mkMutationCommit (commit_receipt c) false false) ∨
  commit_public_ordinary_mutation None context m rf' again db'' =
    Err (StoreAuthorityLost "request namespace is no longer current and has no retained receipt").
Proof.
  intros (row & Hrow & Hv & Hc & Hj & Hval)%commit_leaves_row (limit & _ & ->)%prune_Ok Hns Hne Hagain.
  pose proof (prune_transaction_receipts namespace (Z.of_N (later - max_age_millis policy))
    (Z.of_N (later - N.max (max_age_millis policy) CLEANUP_DETAIL_RETENTION_MILLIS)) limit
    (Z.of_N later) db') as [Hkept Hspace].
  generalize dependent (prune_transaction namespace (Z.of_N (later - max_age_millis policy))
    (Z.of_N (later - N.max (max_age_millis policy) CLEANUP_DETAIL_RETENTION_MILLIS)) limit
    (Z.of_N later) db'). intros db'' Hkept Hspace.
  unfold commit_public_ordinary_mutation. rewrite sqlite_millis_small by lia. cbn [result_bind].
  rewrite (checked_add_small _ _ _ Hagain eq_refl). cbn [ok_or result_bind].
  rewrite sqlite_millis_small by done. cbn [result_bind with_connection].
  destruct (mutation_receipts db'' !! receipt_key context) as [row'|] eqn:Hrow'.
  - left. rewrite Hkept in Hrow'. apply map_lookup_filter_Some in Hrow' as [Hrow' _].
    rewrite Hrow in Hrow'. injection Hrow' as <-. rewrite Hv, Hc, !bool_decide_eq_true_2 by done.
    simpl. unfold from_json. rewrite Hj. cbn [map_err result_bind]. by rewrite Hval.
  - right. destruct Hspace as [[Hsame _]|Hspace].
    { rewrite Hkept, Hsame in Hrow'. congruence. }
    unfold current_mutation_namespace. rewrite Hspace, Hns. cbn [result_bind].
    by rewrite bool_decide_eq_false_2.
Qed.
