(* ===== verification/Maintenance.v ===== *)
(** Maintenance: the storage and cache attempts of [unlinger-daemon/src/store.rs] and
    [store/tool_cache.rs].

    An attempt is PREPARED in the database before anything is removed; its result is
    recorded once, by the process that prepared it; and an attempt whose process died
    is finalized as of unknown delivery. These tables refer to no other table. *)

From S2P Require Import Prelude Text Residue Cooling Names Store Journal Protocol Mutations Views.
From Stdlib Require Import Ascii.

(** ** Tables *)

(** [storage_cleanup_attempts]. *)
Record storage_row : Type := mkStorageRow {
  st_attempt_token : string;
  st_prepared_at_ms : Z;
  st_completed_at_ms : option Z;
  st_disposition : option string;
  st_planned_candidate_count : Z;
  st_before_candidate_count : Z;
  st_before_logical_bytes : Z;
  st_removed_candidate_count : option Z;
  st_after_candidate_count : option Z;
  st_after_logical_bytes : option Z;
  st_retained_not_planned_count : option Z;
}.

Definition nonnegative (z : Z) : bool := bool_decide (0 ≤ z)%Z.

Definition storage_check (r : storage_row) : bool :=
  bool_decide (sqlite_length (st_attempt_token r) = 32)
  && nonnegative (st_prepared_at_ms r)
  && null_or (λ z, bool_decide (st_prepared_at_ms r ≤ z)%Z) (st_completed_at_ms r)
  && null_or_in ["complete"; "partial"; "failed"; "delivery_unknown"] (st_disposition r)
  && nonnegative (st_planned_candidate_count r)
  && nonnegative (st_before_candidate_count r)
  && nonnegative (st_before_logical_bytes r)
  && null_or nonnegative (st_removed_candidate_count r)
  && null_or nonnegative (st_after_candidate_count r)
  && null_or nonnegative (st_after_logical_bytes r)
  && null_or nonnegative (st_retained_not_planned_count r)
  && bool_decide (st_planned_candidate_count r ≤ st_before_candidate_count r)%Z
  && null_together (st_completed_at_ms r) (st_disposition r).

(** The row of [tool_cache_latest], [retired_npm_cache_latest] or
    [node_compile_cache_latest]. *)
Record cache_row : Type := mkCacheRow {
  cache_observed_at_ms : Z;
  cache_availability_json : string;
  cache_attempt_token : option string;
  cache_attempt_json : option string;
}.

(** [storage_recoveries]. *)
Record recovery_row : Type := mkRecoveryRow {
  rec_recovery_id : string;
  rec_public_token : string;
  rec_occurred_at_ms : Z;
  rec_reason_id : string;
  rec_quarantine_directory_name : string;
  rec_quarantined_sidecar_count : Z;
}.

Definition recovery_check (r : recovery_row) : bool :=
  bool_decide (sqlite_length (rec_public_token r) = 32)
  && nonnegative (rec_occurred_at_ms r)
  && bool_decide (rec_reason_id r ∈ ["integrity_check_failed"; "required_schema_invalid"])
  && nonnegative (rec_quarantined_sidecar_count r).

Record maintenance : Type := mkMaintenance {
  storage_attempts : table storage_row;
  storage_latest : option (Z * string);
  tool_cache_latest : option cache_row;
  retired_npm_cache_latest : option cache_row;
  node_compile_cache_latest : option cache_row;
  storage_recoveries : table recovery_row;
}.

Definition new_maintenance : maintenance :=
  mkMaintenance empty_table None None None None empty_table.

Definition MAX_STORAGE_RESIDUE_OBSERVATION_BYTES : nat := 4 * 1024.

(** ** Storage observations *)

Section Storage.
Context `{JO : Json StorageResidueObservation}.

(** The INSERT of an observation, whose text is bounded. *)
Definition record_storage_residue_observation (io : option StoreError)
    (observation : StorageResidueObservation) (db : maintenance) :
    result maintenance StoreError :=
  let payload_json := json_to_string observation in
  guard? bool_decide (String.length payload_json ≤ MAX_STORAGE_RESIDUE_OBSERVATION_BYTES)
    else StoreInvalid "storage residue observation exceeds its storage bound" in
  let? observed_at :=
    sqlite_millis (sr_observed_at_unix_millis observation)
      "storage residue observation timestamp" in
  with_connection io (Ok (db <| storage_latest := Some (observed_at, payload_json) |>)).

(** [HistoryStore::latest_storage_residue_observation]. *)
Definition latest_storage_residue_observation (io : option StoreError) (db : maintenance) :
    result (option StorageResidueObservation) StoreError :=
  with_connection io (
  option_transpose (λ row,
    guard? bool_decide (String.length row.2 ≤ MAX_STORAGE_RESIDUE_OBSERVATION_BYTES)
      else StoreCorrupt "persisted storage residue observation exceeds its bound" in
    let? observation := from_json row.2 in
    let? indexed_at :=
      parse_nonnegative_millis row.1 "storage residue observation timestamp" in
    guard? bool_decide (sr_observed_at_unix_millis observation = indexed_at)
      else StoreCorrupt "storage residue index disagrees with its typed payload" in
    Ok observation) (storage_latest db)).

(** ** Storage attempts *)

Record PreparedStorageCleanupAttempt : Type := mkPreparedStorageCleanupAttempt {
  psa_id : Z;
  psa_attempt_token : string;
}.

Record StorageCleanupAttemptRecord : Type := mkStorageCleanupAttemptRecord {
  sar_attempt_token : string;
  sar_prepared_at_unix_millis : N;
  sar_completed_at_unix_millis : option N;
  sar_disposition : option StorageCleanupDisposition;
  sar_planned_candidate_count : N;
  sar_before_candidate_count : N;
  sar_before_logical_bytes : N;
  sar_removed_candidate_count : option N;
  sar_after_candidate_count : option N;
  sar_after_logical_bytes : option N;
  sar_retained_not_planned_count : option N;
}.

Definition storage_open (_ : Z) (r : storage_row) : bool := bool_decide (st_disposition r = None).

(** An open attempt, finalized: it was not completed before it was prepared. *)
Definition unknown_row (completed_at : Z) (r : storage_row) : storage_row :=
  mkStorageRow (st_attempt_token r) (st_prepared_at_ms r)
    (Some (Z.max completed_at (st_prepared_at_ms r))) (Some "delivery_unknown")
    (st_planned_candidate_count r) (st_before_candidate_count r) (st_before_logical_bytes r)
    (st_removed_candidate_count r) (st_after_candidate_count r) (st_after_logical_bytes r)
    (st_retained_not_planned_count r).

(** [finalize_unknown_storage_cleanup_attempts]. *)
Definition finalize_unknown_storage_cleanup_attempts (completed_at : Z) (db : maintenance) :
    result (maintenance * N) StoreError :=
  let? attempts :=
    table_update "storage_cleanup_attempts" storage_check storage_open (unknown_row completed_at)
      (storage_attempts db) in
  Ok (db <| storage_attempts := attempts |>,
      N.of_nat (length (List.filter (λ e, storage_open e.1 e.2)
                          (table_entries (storage_attempts db))))).

(** [HistoryStore::begin_storage_cleanup_attempt]; [token] is the random token. *)
Definition begin_storage_cleanup_attempt (token : string) (io : option StoreError)
    (prepared_at_unix_millis : N) (facts : StorageCleanupAttemptFacts) (db : maintenance) :
    result (maintenance * PreparedStorageCleanupAttempt) StoreError :=
  guard? negb (bool_decide (sa_planned_candidate_count facts = 0)%N)
    else StoreInvalid "a storage cleanup attempt must plan at least one candidate" in
  guard? bool_decide (sa_planned_candidate_count facts ≤ sa_before_candidate_count facts)%N
    else StoreInvalid "a storage cleanup plan cannot exceed the observed candidate set" in
  let? prepared_at :=
    sqlite_millis prepared_at_unix_millis "storage cleanup preparation timestamp" in
  let? planned :=
    sqlite_u64 (sa_planned_candidate_count facts) "storage cleanup planned candidate count" in
  let? before_count :=
    sqlite_u64 (sa_before_candidate_count facts) "storage cleanup observed candidate count" in
  let? before_bytes :=
    sqlite_u64 (sa_before_logical_bytes facts) "storage cleanup observed logical bytes" in
  with_connection io (
  let? finalized := finalize_unknown_storage_cleanup_attempts prepared_at db in
  let db := finalized.1 in
  guard? negb (table_exists (λ _ r, bool_decide (st_attempt_token r = token)) (storage_attempts db))
    else StoreSqlite "UNIQUE constraint failed: storage_cleanup_attempts.attempt_token" in
  let? inserted :=
    table_insert "storage_cleanup_attempts" storage_check
      (mkStorageRow token prepared_at None None planned before_count before_bytes None None None
         None) (storage_attempts db) in
  Ok (db <| storage_attempts := inserted.1 |>,
      mkPreparedStorageCleanupAttempt inserted.2 token)).

(** The consistency of a result: [validate] is the [match disposition]. *)
Definition validate_storage_result (result_facts : StorageCleanupResultFacts) :
    result unit StoreError :=
  let inconsistent := StoreInvalid "a storage cleanup result must be internally consistent" in
  match sc_disposition result_facts with
  | DispComplete | DispPartial =>
      match sc_removed_candidate_count result_facts, sc_after_candidate_count result_facts,
            sc_after_logical_bytes result_facts, sc_retained_not_planned_count result_facts with
      | Some removed, Some after_count, Some _, Some retained_not_planned =>
          guard? bool_decide (removed = sc_planned_candidate_count result_facts)
            else StoreInvalid
                   "a complete or partial storage cleanup result must remove every planned candidate" in
          let expected_after :=
            match sc_disposition result_facts with
            | DispComplete => 0%N
            | _ => retained_not_planned
            end in
          guard? bool_decide (after_count = expected_after) else inconsistent in
          Ok tt
      | _, _, _, _ =>
          Err (StoreInvalid
                 "a complete or partial storage cleanup result requires proved counts")
      end
  | DispFailed =>
      match sc_removed_candidate_count result_facts, sc_after_candidate_count result_facts,
            sc_after_logical_bytes result_facts, sc_retained_not_planned_count result_facts with
      | Some removed, Some after_count, Some _, Some retained_not_planned =>
          let? retained_planned :=
            ok_or (checked_sub (sc_planned_candidate_count result_facts) removed)
              (StoreInvalid "a storage cleanup result cannot remove unplanned candidates") in
          guard? bool_decide (checked_sub after_count retained_planned = Some retained_not_planned)
            else inconsistent in
          Ok tt
      | _, _, _, _ => Ok tt
      end
  | DispDeliveryUnknown =>
      Err (StoreInvalid "delivery_unknown results are only recorded by recovery")
  end.

(** The counts of a result as column values. *)
Definition sqlite_counts (r : StorageCleanupResultFacts) :
    result (option Z * option Z * option Z * option Z * Z * Z * Z) StoreError :=
  let? removed :=
    option_transpose (λ v, sqlite_u64 v "storage cleanup removed candidate count")
      (sc_removed_candidate_count r) in
  let? after_count :=
    option_transpose (λ v, sqlite_u64 v "storage cleanup after candidate count")
      (sc_after_candidate_count r) in
  let? after_bytes :=
    option_transpose (λ v, sqlite_u64 v "storage cleanup after logical bytes")
      (sc_after_logical_bytes r) in
  let? retained :=
    option_transpose (λ v, sqlite_u64 v "storage cleanup retained candidate count")
      (sc_retained_not_planned_count r) in
  let? planned :=
    sqlite_u64 (sc_planned_candidate_count r) "storage cleanup planned candidate count" in
  let? before_count :=
    sqlite_u64 (sc_before_candidate_count r) "storage cleanup observed candidate count" in
  let? before_bytes :=
    sqlite_u64 (sc_before_logical_bytes r) "storage cleanup observed logical bytes" in
  Ok (removed, after_count, after_bytes, retained, planned, before_count, before_bytes).

(** The result agrees with the latest observation, if it proves an after-count. *)
Definition agrees_with_observation (r : StorageCleanupResultFacts)
    (latest : StorageResidueObservation) : bool :=
  match sc_after_candidate_count r, sc_after_logical_bytes r with
  | Some after_count, Some after_bytes =>
      bool_decide (after_count = sr_candidate_count latest)
      && bool_decide (after_bytes = sr_logical_bytes latest)
  | _, _ => true
  end.

(** [HistoryStore::complete_storage_cleanup_attempt]. *)
Definition complete_storage_cleanup_attempt (io : option StoreError)
    (prepared : PreparedStorageCleanupAttempt) (result_facts : StorageCleanupResultFacts)
    (latest : StorageResidueObservation) (db : maintenance) : result maintenance StoreError :=
  let payload_json := json_to_string latest in
  guard? bool_decide (String.length payload_json ≤ MAX_STORAGE_RESIDUE_OBSERVATION_BYTES)
    else StoreInvalid "storage residue observation exceeds its storage bound" in
  guard? bool_decide (sc_planned_candidate_count result_facts
                      ≤ sc_before_candidate_count result_facts)%N
    else StoreInvalid "a storage cleanup plan cannot exceed the observed candidate set" in
  let? _ := validate_storage_result result_facts in
  let? counts := sqlite_counts result_facts in
  let '(removed, after_count, after_bytes, retained, planned, before_count, before_bytes) :=
    counts in
  guard? agrees_with_observation result_facts latest
    else StoreInvalid "a storage cleanup result must agree with its latest residue observation" in
  let? completed_at :=
    sqlite_millis (sr_observed_at_unix_millis latest) "storage cleanup completion timestamp" in
  let? observed_at :=
    sqlite_millis (sr_observed_at_unix_millis latest) "storage residue observation timestamp" in
  with_connection io (
  let matches id r :=
    bool_decide (id = psa_id prepared)
    && bool_decide (st_attempt_token r = psa_attempt_token prepared)
    && storage_open id r
    && bool_decide (st_planned_candidate_count r = planned)
    && bool_decide (st_before_candidate_count r = before_count)
    && bool_decide (st_before_logical_bytes r = before_bytes) in
  let? attempts :=
    table_update "storage_cleanup_attempts" storage_check matches
      (λ r, mkStorageRow (st_attempt_token r) (st_prepared_at_ms r) (Some completed_at)
              (Some (disposition_as_str (sc_disposition result_facts)))
              (st_planned_candidate_count r) (st_before_candidate_count r)
              (st_before_logical_bytes r) removed after_count after_bytes retained)
      (storage_attempts db) in
  guard? table_exists matches (storage_attempts db)
    else StoreInvalid
           "storage cleanup attempt is not open or its result facts disagree with PREPARED" in
  Ok (db <| storage_attempts := attempts |>
         <| storage_latest := Some (observed_at, payload_json) |>)).

(** [HistoryStore::recover_storage_cleanup_attempts]. *)
Definition recover_storage_cleanup_attempts (io : option StoreError) (occurred_at_unix_millis : N)
    (db : maintenance) : result (maintenance * N) StoreError :=
  let? occurred_at := sqlite_millis occurred_at_unix_millis "storage cleanup recovery timestamp" in
  with_connection io (finalize_unknown_storage_cleanup_attempts occurred_at db).

(** The row of [latest_storage_cleanup_attempt], parsed. *)
Definition storage_record (r : storage_row) : result StorageCleanupAttemptRecord StoreError :=
  let? prepared_at :=
    parse_nonnegative_millis (st_prepared_at_ms r) "storage cleanup preparation timestamp" in
  let? completed_at :=
    option_transpose (λ v, parse_nonnegative_millis v "storage cleanup completion timestamp")
      (st_completed_at_ms r) in
  let? disposition :=
    option_transpose (λ v, ok_or (disposition_parse v)
      (StoreCorrupt "unknown storage cleanup disposition")) (st_disposition r) in
  let? planned :=
    parse_nonnegative_millis (st_planned_candidate_count r)
      "storage cleanup planned candidate count" in
  let? before_count :=
    parse_nonnegative_millis (st_before_candidate_count r)
      "storage cleanup observed candidate count" in
  let? before_bytes :=
    parse_nonnegative_millis (st_before_logical_bytes r)
      "storage cleanup observed logical bytes" in
  let? removed :=
    option_transpose (λ v, parse_nonnegative_millis v "removed candidate count")
      (st_removed_candidate_count r) in
  let? after_count :=
    option_transpose (λ v, parse_nonnegative_millis v "after candidate count")
      (st_after_candidate_count r) in
  let? after_bytes :=
    option_transpose (λ v, parse_nonnegative_millis v "after logical bytes")
      (st_after_logical_bytes r) in
  let? retained :=
    option_transpose (λ v, parse_nonnegative_millis v "retained not-planned candidate count")
      (st_retained_not_planned_count r) in
  Ok (mkStorageCleanupAttemptRecord (st_attempt_token r) prepared_at completed_at disposition
        planned before_count before_bytes removed after_count after_bytes retained).

(** [HistoryStore::latest_storage_cleanup_attempt]. *)
Definition latest_storage_cleanup_attempt (io : option StoreError) (db : maintenance) :
    result (option StorageCleanupAttemptRecord) StoreError :=
  with_connection io
    (option_transpose (storage_record ∘ snd) (last (table_entries (storage_attempts db)))).
End Storage.

(** ** Cache attempts *)

Record PreparedToolCacheAttempt : Type := mkPreparedToolCacheAttempt {
  pca_token : string;
  pca_prepared_at_unix_millis : N;
  pca_kind : ToolCacheKind;
}.

(** Which of the three tables an operation works on. *)
Inductive cache_table : Type := ToolCacheTable | RetiredNpmTable | NodeCacheTable.

Definition cache_latest (t : cache_table) (db : maintenance) : option cache_row :=
  match t with
  | ToolCacheTable => tool_cache_latest db
  | RetiredNpmTable => retired_npm_cache_latest db
  | NodeCacheTable => node_compile_cache_latest db
  end.

Definition set_cache (t : cache_table) (row : option cache_row) (db : maintenance) : maintenance :=
  match t with
  | ToolCacheTable => db <| tool_cache_latest := row |>
  | RetiredNpmTable => db <| retired_npm_cache_latest := row |>
  | NodeCacheTable => db <| node_compile_cache_latest := row |>
  end.

(** [UPDATE .. SET attempt_token = .., attempt_json = .. WHERE singleton = 1]. *)
Definition set_attempt (t : cache_table) (token json : option string) (db : maintenance) :
    maintenance :=
  set_cache t
    ((λ r, mkCacheRow (cache_observed_at_ms r) (cache_availability_json r) token json)
       <$> cache_latest t db) db.

(** [SELECT attempt_json .. WHERE attempt_token IS NOT NULL]: not of a NULL. *)
Definition prepared_json (t : cache_table) (db : maintenance) :
    result (option string) StoreError :=
  match cache_latest t db with
  | Some (mkCacheRow _ _ (Some _) (Some json)) => Ok (Some json)
  | Some (mkCacheRow _ _ (Some _) None) => Err (StoreSqlite "Invalid column type Null")
  | _ => Ok None
  end.

Section Caches.
Context `{JA : Json ToolCacheAvailability, JT : Json ToolCacheAttemptSummary,
          JN : Json NodeCompileCacheAttemptSummary}.

(** [record_observation] and [record_node_observation]: an upsert that keeps the attempt. *)
Definition record_cache_observation (t : cache_table) (label : string) (now : N)
    (availability : ToolCacheAvailability) (db : maintenance) : result maintenance StoreError :=
  let? now := sqlite_millis now label in
  let row :=
    match cache_latest t db with
    | Some r =>
        mkCacheRow now (json_to_string availability) (cache_attempt_token r) (cache_attempt_json r)
    | None => mkCacheRow now (json_to_string availability) None None
    end in
  Ok (set_cache t (Some row) db).

(** [HistoryStore::record_tool_cache_observation]. *)
Definition record_tool_cache_observation (io : option StoreError) (now : N)
    (availability : ToolCacheAvailability) (db : maintenance) : result maintenance StoreError :=
  with_connection io
    (record_cache_observation ToolCacheTable "cache observation" now availability db).

(** [HistoryStore::record_node_compile_cache_observation]. *)
Definition record_node_compile_cache_observation (io : option StoreError) (now : N)
    (availability : ToolCacheAvailability) (db : maintenance) : result maintenance StoreError :=
  with_connection io
    (record_cache_observation NodeCacheTable "node cache observation" now availability db).

(** [HistoryStore::latest_tool_cache_maintenance]. *)
Definition latest_tool_cache_maintenance (io : option StoreError) (db : maintenance) :
    result (option (CacheMaintenanceSummary ToolCacheAttemptSummary)) StoreError :=
  with_connection io (
  option_transpose (λ r,
    let? observed :=
      parse_nonnegative_millis (cache_observed_at_ms r) "cache observation" in
    let? availability := from_json (cache_availability_json r) in
    let? attempt := option_transpose from_json (cache_attempt_json r) in
    Ok (mkCacheMaintenanceSummary UvCache observed availability false attempt))
    (tool_cache_latest db)).

(** [HistoryStore::retired_npm_cache_maintenance]: a historical no-op says nothing
    about side effects. *)
Definition retired_npm_cache_maintenance (io : option StoreError) (db : maintenance) :
    result (option (CacheMaintenanceSummary ToolCacheAttemptSummary)) StoreError :=
  with_connection io (
  option_transpose (λ r,
    let? attempt := option_transpose from_json (cache_attempt_json r) in
    let attempt :=
      (λ a, if bool_decide (tc_outcome a = CacheNoOp)
            then mkToolCacheAttemptSummary CacheCompleted (tc_prepared_at_unix_millis a)
                   (tc_completed_at_unix_millis a) (tc_native_removed_entry_count a)
                   (tc_native_removed_logical_bytes a)
            else a) <$> attempt in
    let? observed :=
      parse_nonnegative_millis (cache_observed_at_ms r) "cache observation" in
    Ok (mkCacheMaintenanceSummary NpmDownloadCache observed CacheUnsupported false attempt))
    (retired_npm_cache_latest db)).

(** [HistoryStore::begin_tool_cache_attempt]; [token] is the random token. *)
Definition begin_tool_cache_attempt (token : string) (io : option StoreError) (now : N)
    (db : maintenance) : result (maintenance * PreparedToolCacheAttempt) StoreError :=
  with_connection io (
  let? previous :=
    option_transpose from_json (tool_cache_latest db ≫= cache_attempt_json) in
  guard? negb (match previous with
               | Some attempt => bool_decide (tc_outcome attempt = CacheRunning)
               | None => false
               end)
    else StoreInvalid "cache maintenance already prepared" in
  let? db := record_cache_observation ToolCacheTable "cache observation" now CacheAvailable db in
  let attempt := mkToolCacheAttemptSummary CacheRunning now None None None in
  Ok (set_attempt ToolCacheTable (Some token) (Some (json_to_string attempt)) db,
      mkPreparedToolCacheAttempt token now UvCache)).

(** [HistoryStore::begin_node_compile_cache_attempt]. *)
Definition begin_node_compile_cache_attempt (token : string) (io : option StoreError) (now : N)
    (db : maintenance) : result (maintenance * PreparedToolCacheAttempt) StoreError :=
  with_connection io (
  guard? negb (bool_decide (is_Some (node_compile_cache_latest db ≫= cache_attempt_token)))
    else StoreInvalid "node cache maintenance already prepared" in
  let? db :=
    record_cache_observation NodeCacheTable "node cache observation" now CacheAvailable db in
  let attempt := mkNodeCompileCacheAttemptSummary CacheRunning now None None None in
  Ok (set_attempt NodeCacheTable (Some token) (Some (json_to_string attempt)) db,
      mkPreparedToolCacheAttempt token now NodeCompileCache)).

(** The completing UPDATE: of the attempt with the token, which is then settled. *)
Definition settle_cache_attempt (t : cache_table) (missing label token json : string)
    (completed : N) (availability : ToolCacheAvailability) (db : maintenance) :
    result maintenance StoreError :=
  guard? bool_decide ((cache_latest t db ≫= cache_attempt_token) = Some token)
    else StoreInvalid missing in
  record_cache_observation t label completed availability (set_attempt t None (Some json) db).

(** [HistoryStore::complete_tool_cache_attempt]. *)
Definition complete_tool_cache_attempt (io : option StoreError)
    (prepared : PreparedToolCacheAttempt) (r : ToolCacheAttemptSummary)
    (availability : ToolCacheAvailability) (db : maintenance) : result maintenance StoreError :=
  let? completed :=
    ok_or (tc_completed_at_unix_millis r) (StoreInvalid "cache result has no completion time") in
  let success := bool_decide (tc_outcome r ∈ [CacheCompleted; CacheNoOp]) in
  guard? negb (
      negb (bool_decide (pca_kind prepared = UvCache))
      || bool_decide (tc_outcome r ∈ [CacheRunning; CacheNoOp])
      || negb (bool_decide (tc_prepared_at_unix_millis r = pca_prepared_at_unix_millis prepared))
      || bool_decide (completed < pca_prepared_at_unix_millis prepared)%N
      || negb success
         && (bool_decide (is_Some (tc_native_removed_entry_count r))
             || bool_decide (is_Some (tc_native_removed_logical_bytes r)))
      || bool_decide (tc_outcome r = CacheNoOp)
         && (negb (bool_decide (tc_native_removed_entry_count r = Some 0%N))
             || negb (bool_decide (tc_native_removed_logical_bytes r = Some 0%N))))
    else StoreInvalid "inconsistent cache result" in
  with_connection io
    (settle_cache_attempt ToolCacheTable "cache attempt is no longer prepared"
       "cache observation" (pca_token prepared) (json_to_string r) completed availability db).

(** [HistoryStore::complete_node_compile_cache_attempt]. *)
Definition complete_node_compile_cache_attempt (io : option StoreError)
    (prepared : PreparedToolCacheAttempt) (r : NodeCompileCacheAttemptSummary)
    (availability : ToolCacheAvailability) (db : maintenance) : result maintenance StoreError :=
  let? completed :=
    ok_or (nc_completed_at_unix_millis r)
      (StoreInvalid "node cache result has no completion time") in
  let is_completed := bool_decide (nc_outcome r = CacheCompleted) in
  guard? negb (
      negb (bool_decide (pca_kind prepared = NodeCompileCache))
      || bool_decide (nc_outcome r ∈ [CacheRunning; CacheNoOp])
      || negb (bool_decide (nc_prepared_at_unix_millis r = pca_prepared_at_unix_millis prepared))
      || bool_decide (completed < pca_prepared_at_unix_millis prepared)%N
      || negb is_completed
         && (bool_decide (is_Some (nc_removed_entry_count r))
             || bool_decide (is_Some (nc_removed_logical_bytes r)))
      || is_completed
         && (bool_decide (nc_removed_entry_count r = None)
             || bool_decide (nc_removed_logical_bytes r = None)))
    else StoreInvalid "inconsistent node cache result" in
  with_connection io
    (settle_cache_attempt NodeCacheTable "node cache attempt is no longer prepared"
       "node cache observation" (pca_token prepared) (json_to_string r) completed availability db).

(** [HistoryStore::recover_cache_attempt_in]: of the uv or the retired npm table. *)
Definition recover_cache_attempt_in (io : option StoreError) (t : cache_table) (now : N)
    (db : maintenance) : result (maintenance * bool) StoreError :=
  with_connection io (
  let? prepared := prepared_json t db in
  match prepared with
  | None => Ok (db, false)
  | Some json =>
      let? r := from_json json in
      let recovered :=
        mkToolCacheAttemptSummary CacheDeliveryUnknown (tc_prepared_at_unix_millis r)
          (Some (N.max now (tc_prepared_at_unix_millis r))) None None in
      Ok (set_attempt t None (Some (json_to_string recovered)) db, true)
  end).

(** [HistoryStore::recover_node_compile_cache_attempt]. *)
Definition recover_node_compile_cache_attempt (io : option StoreError) (now : N)
    (db : maintenance) : result (maintenance * bool) StoreError :=
  with_connection io (
  let? prepared := prepared_json NodeCacheTable db in
  match prepared with
  | None => Ok (db, false)
  | Some json =>
      let? r := from_json json in
      let recovered :=
        mkNodeCompileCacheAttemptSummary CacheDeliveryUnknown (nc_prepared_at_unix_millis r)
          (Some (N.max now (nc_prepared_at_unix_millis r))) None None in
      Ok (set_attempt NodeCacheTable None (Some (json_to_string recovered)) db, true)
  end).

(** [HistoryStore::latest_node_compile_cache_maintenance]. *)
Definition latest_node_compile_cache_maintenance (io : option StoreError) (db : maintenance) :
    result (option (CacheMaintenanceSummary NodeCompileCacheAttemptSummary)) StoreError :=
  with_connection io (
  option_transpose (λ r,
    let? observed :=
      parse_nonnegative_millis (cache_observed_at_ms r) "node cache observation" in
    let? availability := from_json (cache_availability_json r) in
    let? attempt := option_transpose from_json (cache_attempt_json r) in
    Ok (mkCacheMaintenanceSummary NodeCompileCache observed availability false attempt))
    (node_compile_cache_latest db)).
End Caches.

(** ** Recoveries of the database file *)

Inductive StorageRecoveryReason : Type :=
| IntegrityCheckFailed
| RequiredSchemaInvalid.

(** [StorageRecoveryReason::as_str]. *)
Definition recovery_reason_name (r : StorageRecoveryReason) : string :=
  match r with
  | IntegrityCheckFailed => "integrity_check_failed"
  | RequiredSchemaInvalid => "required_schema_invalid"
  end.

(** [StorageRecoveryReason::parse]. *)
Definition parse_recovery_reason : string → result StorageRecoveryReason StoreError :=
  parse_text "unknown storage recovery reason"
    [("integrity_check_failed", IntegrityCheckFailed);
     ("required_schema_invalid", RequiredSchemaInvalid)].

Record StorageRecoveryOccurrence : Type := mkStorageRecoveryOccurrence {
  sro_recovery_id : string;
  sro_public_token : string;
  sro_occurred_at_unix_millis : N;
  sro_reason : StorageRecoveryReason;
  sro_quarantine_directory : string;
  sro_quarantined_sidecar_count : N;
}.

(** [HistoryStore::persist_storage_recovery]; [token] is the random token. *)
Definition persist_storage_recovery (token : string) (io : option StoreError)
    (occurrence : StorageRecoveryOccurrence) (db : maintenance) : result maintenance StoreError :=
  let? occurred_at :=
    sqlite_millis (sro_occurred_at_unix_millis occurrence) "storage recovery timestamp" in
  let? sidecar_count :=
    i64_or_range (sro_quarantined_sidecar_count occurrence)
      "storage recovery sidecar count overflowed i64" in
  let? quarantine_name :=
    ok_or (file_name (sro_quarantine_directory occurrence))
      (StoreInvalid "storage recovery quarantine directory must have a UTF-8 basename") in
  with_connection io (
  guard? negb (table_exists (λ _ r,
      bool_decide (rec_recovery_id r = sro_recovery_id occurrence)
      || bool_decide (rec_public_token r = token)) (storage_recoveries db))
    else StoreSqlite "UNIQUE constraint failed: storage_recoveries" in
  let? inserted :=
    table_insert "storage_recoveries" recovery_check
      (mkRecoveryRow (sro_recovery_id occurrence) token occurred_at
         (recovery_reason_name (sro_reason occurrence)) quarantine_name sidecar_count)
      (storage_recoveries db) in
  Ok (db <| storage_recoveries := inserted.1 |>)).

(** [HistoryStore::latest_storage_recovery]; [directory] holds the database. *)
Definition latest_storage_recovery (directory : string) (io : option StoreError)
    (db : maintenance) : result (option StorageRecoveryOccurrence) StoreError :=
  with_connection io (
  option_transpose (λ e : Z * recovery_row,
    let r := e.2 in
    let? occurred_at :=
      u64_or_corrupt (rec_occurred_at_ms r) "negative storage recovery timestamp" in
    let? reason := parse_recovery_reason (rec_reason_id r) in
    let? sidecars :=
      u64_or_corrupt (rec_quarantined_sidecar_count r)
        "negative or oversized storage recovery sidecar count" in
    Ok (mkStorageRecoveryOccurrence (rec_recovery_id r) (rec_public_token r) occurred_at reason
          (path_join directory (rec_quarantine_directory_name r)) sidecars))
    (head (newest_first rec_occurred_at_ms (λ _ _, true) (storage_recoveries db)))).

(** * The storage attempts, verified

    The storage attempts, verified.

    Whatever the daemon does and whenever it dies, a recorded storage result says no
    more than was proved, at most one attempt is open, and a settled attempt never
    changes. *)

From S2P Require Import JournalFacts.

(** What the row of an attempt claims. *)
Definition storage_claim (r : storage_row) : Prop :=
  match st_disposition r with
  | None => st_removed_candidate_count r = None ∧ st_after_candidate_count r = None
  | Some d =>
      (d = "delivery_unknown" ∧ st_removed_candidate_count r = None ∧
         st_after_candidate_count r = None) ∨
      (d = "complete" ∧ st_removed_candidate_count r = Some (st_planned_candidate_count r) ∧
         st_after_candidate_count r = Some 0%Z) ∨
      (d = "partial" ∧ st_removed_candidate_count r = Some (st_planned_candidate_count r) ∧
         is_Some (st_after_candidate_count r) ∧
         st_after_candidate_count r = st_retained_not_planned_count r) ∨
      (d = "failed" ∧ ∀ removed after_count retained,
         st_removed_candidate_count r = Some removed →
         st_after_candidate_count r = Some after_count →
         st_retained_not_planned_count r = Some retained →
         is_Some (st_after_logical_bytes r) →
         (removed ≤ st_planned_candidate_count r)%Z ∧
         after_count = (st_planned_candidate_count r - removed + retained)%Z)
  end.

Record storage_wf (db : maintenance) : Prop := {
  storage_table : table_wf (storage_attempts db);
  storage_sequence : (0 ≤ last_rowid (storage_attempts db))%Z;
  storage_claims : ∀ id r, rows (storage_attempts db) !! id = Some r → storage_claim r;
  storage_one_open : ∀ id id' r r', rows (storage_attempts db) !! id = Some r →
    rows (storage_attempts db) !! id' = Some r' →
    st_disposition r = None → st_disposition r' = None → id = id';
}.

(** The settled attempts stay as they are. *)
Definition settled_stay (db db' : maintenance) : Prop :=
  ∀ id r, rows (storage_attempts db) !! id = Some r → st_disposition r ≠ None →
    rows (storage_attempts db') !! id = Some r.

Lemma new_maintenance_wf : storage_wf new_maintenance.
Proof.
  split; simpl; [apply empty_table_wf|done|..]; intros id; [intros r|intros id' r r'];
    by rewrite lookup_empty.
Qed.

(** ** Finalization *)

Lemma finalize_Ok now db db' n :
  finalize_unknown_storage_cleanup_attempts now db = Ok (db', n) → storage_wf db →
  storage_wf db' ∧ settled_stay db db' ∧
  last_rowid (storage_attempts db') = last_rowid (storage_attempts db) ∧
  (∀ id r, rows (storage_attempts db') !! id = Some r → st_disposition r ≠ None).
Proof.
  intros (t & Hu & [= <- _])%result_bind_Ok Hwf.
  assert (∀ id, rows t !! id =
    (λ r, if storage_open id r then unknown_row now r else r) <$> rows (storage_attempts db) !! id)
    as Hl by (intros id; exact (table_update_lookup _ _ _ _ _ _ id Hu)).
  pose proof (table_update_wf _ _ _ _ _ _ (storage_table _ Hwf) Hu) as [Ht Hlast].
  assert (∀ id r, rows t !! id = Some r → st_disposition r ≠ None) as Hsettled.
  { intros id r. rewrite Hl. destruct (rows (storage_attempts db) !! id) as [r0|]; [|done].
    simpl. intros [= <-]. unfold storage_open. case_bool_decide; [done|done]. }
  split_and!; simpl; [split; simpl|..]; try done.
  - rewrite Hlast. apply storage_sequence, Hwf.
  - intros id r. rewrite Hl. destruct (rows (storage_attempts db) !! id) as [r0|] eqn:Hr; [|done].
    simpl. intros [= <-]. pose proof (storage_claims _ Hwf _ _ Hr) as Hc.
    unfold storage_open. case_bool_decide as Ho; [|done]. unfold storage_claim in Hc.
    rewrite Ho in Hc. by left.
  - intros id id' r r' Hr _ Ho. by apply Hsettled in Hr.
  - intros id r Hr Hs. cbn [storage_attempts]. rewrite Hl, Hr. simpl. unfold storage_open.
    by rewrite bool_decide_eq_false_2.
Qed.

(** ** The operations *)

Section Steps.
Context `{JO : Json StorageResidueObservation}.

Lemma begin_storage_Ok token io now facts db db' p :
  begin_storage_cleanup_attempt token io now facts db = Ok (db', p) → storage_wf db →
  storage_wf db' ∧ settled_stay db db'.
Proof.
  intros [_ H]%guard_Ok Hwf. apply guard_Ok in H as [_ H].
  apply result_bind_Ok in H as (prepared & _ & H). apply result_bind_Ok in H as (planned & _ & H).
  apply result_bind_Ok in H as (count & _ & H). apply result_bind_Ok in H as (bytes & _ & H).
  apply with_connection_Ok in H as [_ H].
  apply result_bind_Ok in H as ([db1 n] & Hf & H). cbn [fst] in H. apply guard_Ok in H as [_ H].
  apply result_bind_Ok in H as ([t id] & Hi & [= <- _]). cbn [fst snd].
  destruct (finalize_Ok _ _ _ _ Hf Hwf) as (Hwf1 & Hstay & Hlast & Hsettled).
  pose proof (table_insert_wf _ _ _ _ _ _ (storage_table _ Hwf1) (storage_sequence _ Hwf1) Hi)
    as (Ht & H0 & Hfresh).
  apply table_insert_Ok in Hi as (_ & _ & -> & _). split; [split; cbn [storage_attempts]|].
  - exact Ht.
  - exact H0.
  - intros k r. simpl. intros [[<- <-]|[_ Hk]]%lookup_insert_Some; [done|].
    by apply (storage_claims _ Hwf1 k).
  - intros k k' r r'. simpl.
    intros [[<- <-]|[_ Hk]]%lookup_insert_Some [[<- <-]|[_ Hk']]%lookup_insert_Some Ho Ho'; [done|..];
      [by apply Hsettled in Hk'|by apply Hsettled in Hk..].
  - intros k r Hk Hs. cbn [storage_attempts rows]. specialize (Hstay k r Hk Hs).
    simpl. rewrite lookup_insert_ne; [done|]. intros <-. congruence.
Qed.

Lemma sqlite_count_Ok o label z :
  option_transpose (λ v, sqlite_u64 v label) o = Ok z → z = Z.of_N <$> o.
Proof.
  destruct o as [v|]; simpl; [|by intros [= <-]].
  by intros (n & [-> _]%sqlite_millis_Ok & [= <-])%result_bind_Ok.
Qed.

Lemma sqlite_counts_Ok r removed after_count after_bytes retained planned before_count before_bytes :
  sqlite_counts r =
    Ok (removed, after_count, after_bytes, retained, planned, before_count, before_bytes) →
  removed = Z.of_N <$> sc_removed_candidate_count r ∧
  after_count = Z.of_N <$> sc_after_candidate_count r ∧
  after_bytes = Z.of_N <$> sc_after_logical_bytes r ∧
  retained = Z.of_N <$> sc_retained_not_planned_count r ∧
  planned = Z.of_N (sc_planned_candidate_count r).
Proof.
  intros (a & Ha%sqlite_count_Ok & H)%result_bind_Ok.
  apply result_bind_Ok in H as (b & Hb%sqlite_count_Ok & H).
  apply result_bind_Ok in H as (c & Hc%sqlite_count_Ok & H).
  apply result_bind_Ok in H as (d & Hd%sqlite_count_Ok & H).
  apply result_bind_Ok in H as (e & [He _]%sqlite_millis_Ok & H).
  apply result_bind_Ok in H as (f & _ & H). apply result_bind_Ok in H as (g & _ & H).
  by simplify_eq.
Qed.

(** A validated result makes a justified claim. *)
Lemma validated_claim r token prepared completed before_count before_bytes :
  validate_storage_result r = Ok tt →
  storage_claim (mkStorageRow token prepared (Some completed)
    (Some (disposition_as_str (sc_disposition r))) (Z.of_N (sc_planned_candidate_count r))
    before_count before_bytes (Z.of_N <$> sc_removed_candidate_count r)
    (Z.of_N <$> sc_after_candidate_count r) (Z.of_N <$> sc_after_logical_bytes r)
    (Z.of_N <$> sc_retained_not_planned_count r)).
Proof.
  unfold validate_storage_result, storage_claim. cbn [st_disposition st_removed_candidate_count
    st_planned_candidate_count st_after_candidate_count st_retained_not_planned_count
    st_after_logical_bytes].
  destruct (sc_disposition r) eqn:Hd; [..|done].
  1,2: destruct (sc_removed_candidate_count r) as [removed|]; [|done];
    destruct (sc_after_candidate_count r) as [after_count|]; [|done];
    destruct (sc_after_logical_bytes r); [|done];
    destruct (sc_retained_not_planned_count r) as [retained|]; [|done];
    intros [Hr H]%guard_Ok; apply guard_Ok in H as [Ha _]; rewrite bool_decide_eq_true in Hr, Ha;
    subst; right.
  - by left.
  - right; left. by split_and!; try eexists.
  - intros H. do 3 right. split; [done|]. intros a b c Ha Hb Hc [? Hbytes].
    apply fmap_Some in Ha as (a' & Ha & ->), Hb as (b' & Hb & ->), Hc as (c' & Hc & ->),
      Hbytes as (d' & Hd' & _).
    rewrite Ha, Hb, Hc, Hd' in H.
    apply result_bind_Ok in H as (kept & Hk & H). apply guard_Ok in H as [H _].
    rewrite bool_decide_eq_true in H. unfold ok_or in Hk. destruct (checked_sub _ a') eqn:Hs in Hk; [|done].
    injection Hk as <-. apply checked_sub_Some in Hs, H. lia.
Qed.

Lemma complete_storage_Ok io p r latest db db' :
  complete_storage_cleanup_attempt io p r latest db = Ok db' → storage_wf db →
  storage_wf db' ∧ settled_stay db db'.
Proof.
  intros [_ H]%guard_Ok Hwf. apply guard_Ok in H as [_ H].
  apply result_bind_Ok in H as ([] & Hv & H).
  apply result_bind_Ok in H as ([[[[[[removed after_count] after_bytes] retained] planned] before]
    bytes] & Hc & H).
  apply sqlite_counts_Ok in Hc as (-> & -> & -> & -> & ->).
  apply guard_Ok in H as [_ H]. apply result_bind_Ok in H as (completed & _ & H).
  apply result_bind_Ok in H as (observed & _ & H). apply with_connection_Ok in H as [_ H].
  apply result_bind_Ok in H as (t & Hu & H). apply guard_Ok in H as [_ [= <-]].
  set (P := λ (id : Z) (r0 : storage_row), _) in Hu.
  pose proof (λ id, table_update_lookup _ _ _ _ _ _ id Hu) as Hl.
  pose proof (table_update_wf _ _ _ _ _ _ (storage_table _ Hwf) Hu) as [Ht Hlast].
  assert (∀ id r0, P id r0 = true → st_disposition r0 = None) as Hopen.
  { intros id r0 HP. unfold P, storage_open in HP. rewrite !andb_true_iff in HP.
    by destruct HP as [[[[_ HP%bool_decide_eq_true] _] _] _]. }
  assert (∀ id r0, P id r0 = true → st_planned_candidate_count r0 = Z.of_N (sc_planned_candidate_count r))
    as Hplanned.
  { intros id r0 HP. unfold P in HP. rewrite !andb_true_iff in HP.
    by destruct HP as [[[_ HP%bool_decide_eq_true] _] _]. }
  clearbody P.
  assert (∀ id r', rows t !! id = Some r' → st_disposition r' = None →
    rows (storage_attempts db) !! id = Some r') as Hstill.
  { intros id r'. rewrite Hl. destruct (rows (storage_attempts db) !! id) as [r0|]; [|done].
    simpl. intros [= <-]. by destruct (P id r0). }
  split; [split; simpl|].
  - done.
  - rewrite Hlast. apply storage_sequence, Hwf.
  - intros id r'. rewrite Hl. destruct (rows (storage_attempts db) !! id) as [r0|] eqn:Hr; [|done].
    simpl. intros [= <-]. destruct (P id r0) eqn:HP; [|by apply (storage_claims _ Hwf id)].
    rewrite (Hplanned _ _ HP). by apply validated_claim.
  - intros id id' r1 r2 H1 H2 Ho1 Ho2.
    apply (storage_one_open _ Hwf id id' r1 r2); auto.
  - intros id r0 Hr Hs. simpl. rewrite Hl, Hr. simpl.
    destruct (P id r0) eqn:HP; [|done]. by apply Hopen in HP.
Qed.

(** An operation of the daemon on the storage attempts that was committed. *)
Inductive storage_step : maintenance → maintenance → Prop :=
| step_record io observation db db' :
    record_storage_residue_observation io observation db = Ok db' → storage_step db db'
| step_begin token io now facts db db' prepared :
    begin_storage_cleanup_attempt token io now facts db = Ok (db', prepared) → storage_step db db'
| step_complete io prepared r latest db db' :
    complete_storage_cleanup_attempt io prepared r latest db = Ok db' → storage_step db db'
| step_recover io now db db' n :
    recover_storage_cleanup_attempts io now db = Ok (db', n) → storage_step db db'.

Lemma storage_step_wf db db' : storage_step db db' → storage_wf db → storage_wf db' ∧ settled_stay db db'.
Proof.
  intros [io o db1 db2 H|token io now facts db1 db2 p H|io p r latest db1 db2 H|io now db1 db2 n H] Hwf.
  - apply guard_Ok in H as [_ H]. apply result_bind_Ok in H as (at_ & _ & H).
    apply with_connection_Ok in H as [_ [= <-]]. destruct Hwf. split; [by split|by intros id r].
  - by eapply begin_storage_Ok.
  - by eapply complete_storage_Ok.
  - apply result_bind_Ok in H as (at_ & _ & H). apply with_connection_Ok in H as [_ H].
    by destruct (finalize_Ok _ _ _ _ H Hwf) as (? & ? & _).
Qed.

(** A recorded storage cleanup claims no more than was proved. After any history
    of operations, a complete attempt removed every planned candidate and left none, a
    partial one removed every planned candidate and left only what was not planned, a
    failed one never counts more than the planned removals, and an attempt of unknown
    delivery counts nothing; at most one attempt is open; and what is settled never
    changes, in particular no unknown delivery becomes a success. *)
Theorem storage_results_are_proved db :
  rtc storage_step new_maintenance db →
  (∀ id r, rows (storage_attempts db) !! id = Some r → storage_claim r) ∧
  (∀ id id' r r', rows (storage_attempts db) !! id = Some r →
     rows (storage_attempts db) !! id' = Some r' →
     st_disposition r = None → st_disposition r' = None → id = id') ∧
  (∀ db', rtc storage_step db db' → settled_stay db db').
Proof.
  intros H.
  assert (∀ db1 db2, rtc storage_step db1 db2 → storage_wf db1 →
    storage_wf db2 ∧ settled_stay db1 db2) as Hrun.
  { induction 1 as [|db1 db2 db3 Hs _ IH]; intros Hwf; [split; [done|by intros id r]|].
    destruct (storage_step_wf _ _ Hs Hwf) as [Hwf2 H12]. destruct (IH Hwf2) as [Hwf3 H23].
    split; [done|]. intros id r Hr Hd. by apply H23, Hd; apply H12. }
  destruct (Hrun _ _ H new_maintenance_wf) as [Hwf _].
  split; [apply Hwf|]. split; [apply Hwf|]. intros db' H'. by apply Hrun.
Qed.
End Steps.
