(* ===== verification/Control.v ===== *)
(** Control: the control plane of [unlinger-daemon/src/ipc.rs].

    The daemon's status, its roster of observations and its policy revision, with the
    store behind them. An operation takes the control plane and gives the control plane
    after it and its answer: an operation that fails may have changed the status. The
    status is behind a mutex, so an operation is one atomic step; [poisoned] says that a
    thread panicked with the lock held. *)

From S2P Require Import Prelude Text Model Fingerprint Artifact Evidence Cleanup Effects Executor.
From S2P Require Import Analyzer Decisions Cooling Names Store Journal Lifecycle Protocol Mutations.
From S2P Require Import Observations Views Residue Maintenance.
From Stdlib Require Import Ascii.

(** ** Data *)

Inductive DaemonMode : Type := ReportOnly | Enforce.

#[export] Instance DaemonMode_eq_dec : EqDecision DaemonMode.
Proof. solve_decision. Defined.

Inductive StartupState : Type :=
| StateLegacy
| StateBooting
| StateRecovering
| StateFirstScanReportOnly
| StateReadyReportOnly
| StateReadyEnforce
| StateDraining
| StateFailed.

#[export] Instance StartupState_eq_dec : EqDecision StartupState.
Proof. solve_decision. Defined.

Record RecentReclaim : Type := mkRecentReclaim {
  rr_event_token : option string;
  rr_incident_id : string;
  rr_occurred_at_unix_millis : N;
  rr_state : IncidentState;
  rr_outcome : option CleanupOutcome;
}.

(** [RecentReclaim::from]. *)
Definition recent_reclaim (r : MostRecentReclaim) : RecentReclaim :=
  mkRecentReclaim (Some (mrr_event_token r)) (mrr_incident_id r) (mrr_occurred_at_unix_millis r)
    (mrr_state r) (Some (mrr_outcome r)).

Inductive AttentionKind : Type :=
| AttentionCleanupFailed
| AttentionCleanupRevived
| AttentionDaemonUnhealthy
| AttentionEventSourceDegraded
| AttentionStorageRecovered.

#[export] Instance AttentionKind_eq_dec : EqDecision AttentionKind.
Proof. solve_decision. Defined.

Record AttentionItem : Type := mkAttentionItem {
  ai_event_token : option string;
  ai_outcome : option CleanupOutcome;
  ai_kind : AttentionKind;
  ai_reason_id : string;
  ai_incident_id : option string;
  ai_state : option IncidentState;
  ai_occurred_at_unix_millis : option N;
}.

Record AttentionProjection : Type := mkAttentionProjection {
  ap_blocked_cleanup_count : N;
  ap_items : list AttentionItem;
}.

Record StorageRecoveryStatus : Type := mkStorageRecoveryStatus {
  srs_recovery_id : string;
  srs_public_token : string;
  srs_occurred_at_unix_millis : N;
  srs_reason : StorageRecoveryReason;
  srs_quarantined_sidecar_count : N;
}.

(** [StorageRecoveryStatus::from]. *)
Definition storage_recovery_status (r : StorageRecoveryOccurrence) : StorageRecoveryStatus :=
  mkStorageRecoveryStatus (sro_recovery_id r) (sro_public_token r) (sro_occurred_at_unix_millis r)
    (sro_reason r) (sro_quarantined_sidecar_count r).

Record FirstFailure : Type := mkFirstFailure {
  ff_occurred_at_unix_millis : N;
  ff_message : string;
  ff_source_file : string;
  ff_source_line : N;
}.

(** [ToolCacheActivity] and [StorageActivity]: the owner of one action. *)
Record Activity : Type := mkActivity {
  activity_token : string;
  activity_epoch : string;
  cancel_requested : bool;
}.

Record DaemonStatus : Type := mkDaemonStatus {
  lifecycle_schema_version : N;
  ipc_schema_version : N;
  database_schema_version : N;
  daemon_version : string;
  managed : bool;
  status_instance_id : string;
  healthy : bool;
  ready : bool;
  startup_state : StartupState;
  mode : DaemonMode;
  requested_mode : DaemonMode;
  status_effective_mode : DaemonMode;
  activation_generation : option N;
  armed_generation : option N;
  enforcement_epoch : option string;
  status_draining : bool;
  recovered_cleanup_attempts : N;
  event_source_healthy : bool;
  last_event_source_error : option string;
  storage_recovery : option StorageRecoveryStatus;
  attention : AttentionProjection;
  protected_incident_count : N;
  protected_incidents : list ProtectionSummary;
  status_pid : N;
  scan_in_progress : bool;
  cleanup_in_progress : bool;
  cache_activity : option Activity;
  storage_activity : option Activity;
  process_activity : option string;
  paused_until_unix_millis : option N;
  cycle_started_at_unix_millis : option N;
  latest_observation_at_unix_millis : option N;
  last_scan_at_unix_millis : option N;
  confirmed_incidents : N;
  ambiguous_incidents : N;
  status_most_recent_reclaim : option RecentReclaim;
  last_error : option string;
  first_failure : option FirstFailure;
}.

Inductive RosterFreshness : Type :=
| RosterCurrent
| RosterScanInProgress
| RosterStaleAfterFailure
| RosterNeverObserved.

Record RosterState : Type := mkRosterState {
  roster_cycle_token : option string;
  roster_observed_at_unix_millis : option N;
  roster_freshness : RosterFreshness;
  roster_classification_complete : bool;
  roster_reports : list IncidentReport;
  active_cycle_token : option string;
}.

Definition default_roster : RosterState := mkRosterState None None RosterNeverObserved false [] None.

Inductive ControlError : Type :=
| CtlInvalidArgument (message : string)
| CtlConflict (message : string)
| CtlNotFound (message : string)
| CtlAuthorityLost (message : string)
| CtlStore (message : string)
| CtlUnavailable (message : string).

(** The control plane, with the process-wide counters [NEXT_ENFORCEMENT_EPOCH] and
    [NEXT_CYCLE_TOKEN]. *)
Record ControlPlane : Type := mkControlPlane {
  ctl_store : database;
  ctl_maintenance : maintenance;
  ctl_status : DaemonStatus;
  poisoned : bool;
  ctl_roster : RosterState;
  ctl_revision : N;
  next_enforcement_epoch : N;
  next_cycle_token : N;
}.

Definition SCHEMA_VERSION : N := 14.
Definition IPC_SCHEMA_VERSION : N := 1.
Definition MAX_HISTORY_LIMIT : N := 1000.
Definition MAX_PAUSE_MILLIS : N := 30 * 24 * 60 * 60 * 1000.
Definition MAX_ERROR_CHARS : nat := 512.
Definition MAX_STATUS_ATTENTION_ITEMS : nat := 16.
Definition MAX_ROSTER_ITEMS : nat := 32.
Definition EVENT_SOURCE_DEGRADED_MESSAGE : string :=
  "native event source unavailable; periodic reconciliation remains active".

(** ** Messages *)

(** [chars().take(n)]: a character is a byte and its continuation bytes. *)
Fixpoint take_chars (n : nat) (s : string) : string :=
  match s with
  | EmptyString => EmptyString
  | String c s =>
      if is_cont c then String c (take_chars n s)
      else match n with
           | O => EmptyString
           | S n => String c (take_chars n s)
           end
  end.

Definition bounded_message (message : string) : string := take_chars MAX_ERROR_CHARS message.

(** [ControlError::message]. *)
Definition control_message (e : ControlError) : string :=
  match e with
  | CtlInvalidArgument m | CtlConflict m | CtlNotFound m | CtlAuthorityLost m | CtlStore m
  | CtlUnavailable m => m
  end.

(** [ControlError::from]. *)
Definition from_store_error (e : StoreError) : ControlError :=
  CtlStore (bounded_message (display_store_error e)).

Definition map_store_error (e : StoreError) : ControlError :=
  match e with
  | StoreInvalid m | StoreRange m => CtlInvalidArgument (bounded_message m)
  | StoreConflict m => CtlConflict (bounded_message m)
  | StoreAuthorityLost m => CtlAuthorityLost (bounded_message m)
  | StoreNotFound m | StoreCapacity m => CtlUnavailable (bounded_message m)
  | e => CtlStore (bounded_message (display_store_error e))
  end.

Definition restore_state_error (surface : string) (e : StoreError) : ControlError :=
  CtlStore (bounded_message ("could not restore " +:+ surface +:+ ": " +:+ display_store_error e)).

Definition validate_incident_id (incident : string) : result unit ControlError :=
  guard? negb (is_empty incident || bool_decide (128 < String.length incident))
    else CtlInvalidArgument "incident ID must contain 1 to 128 bytes" in
  Ok tt.

(** [format!("{:?}", startup_state)]. *)
Definition startup_state_name (s : StartupState) : string :=
  match s with
  | StateLegacy => "Legacy"
  | StateBooting => "Booting"
  | StateRecovering => "Recovering"
  | StateFirstScanReportOnly => "FirstScanReportOnly"
  | StateReadyReportOnly => "ReadyReportOnly"
  | StateReadyEnforce => "ReadyEnforce"
  | StateDraining => "Draining"
  | StateFailed => "Failed"
  end.

(** ** Tokens *)

(** Hexadecimal without leading zeros, of a number below [2^128]. *)
Fixpoint strip_zeros (s : string) : string :=
  match s with
  | String c (String _ _ as rest) => if Ascii.eqb c "0" then strip_zeros rest else s
  | _ => s
  end.

(** [format!("{value:x}")]. *)
Definition lower_hex (value : N) : string := strip_zeros (hex_fixed 32 value).

(** [AtomicU64::fetch_add(1)]. *)
Definition fetch_add (n : N) : N := wrapping_add n 1.

(** [fresh_enforcement_epoch], with the value of the counter. *)
Definition fresh_enforcement_epoch (generation pid : N) (instance_id : string) (now sequence : N) :
    string :=
  "g" +:+ lower_hex generation +:+ "-p" +:+ lower_hex pid +:+ "-i" +:+ instance_id +:+ "-"
    +:+ lower_hex now +:+ "-" +:+ lower_hex sequence.

(** [fresh_instance_id], with the value of the counter and the wall clock. *)
Definition fresh_instance_id (pid now sequence wall_nanos : N) : string :=
  lower_hex pid +:+ "-" +:+ lower_hex now +:+ "-" +:+ lower_hex wall_nanos +:+ "-"
    +:+ lower_hex sequence.

(** [u64::rotate_left]. *)
Definition rotate_left (n value : N) : N :=
  N.lor (N.shiftl value n `mod` u64_bound) (N.shiftr value (64 - n)).

Definition splitmix64 (value : N) : N :=
  let value := wrapping_add value 0x9e3779b97f4a7c15 in
  let value := wrapping_mul (N.lxor value (N.shiftr value 30)) 0xbf58476d1ce4e5b9 in
  let value := wrapping_mul (N.lxor value (N.shiftr value 27)) 0x94d049bb133111eb in
  N.lxor value (N.shiftr value 31).

(** [fresh_cycle_token], with the value of the counter and the wall clock. *)
Definition fresh_cycle_token (now sequence wall_nanos : N) : string :=
  let entropy :=
    N.lxor (N.lxor (wall_nanos `mod` u64_bound) (rotate_left 17 now)) (rotate_left 41 sequence) in
  hex_fixed 16 (splitmix64 entropy)
    +:+ hex_fixed 16 (splitmix64 (N.lxor entropy 0x9e3779b97f4a7c15)).

(** ** The status *)

(** [DaemonStatus::new]. *)
Definition new_status (version : string) (mode : DaemonMode) (pid : N) (instance_id : string) :
    DaemonStatus := {|
  lifecycle_schema_version := 1;
  ipc_schema_version := IPC_SCHEMA_VERSION;
  database_schema_version := SCHEMA_VERSION;
  daemon_version := version;
  managed := false;
  status_instance_id := instance_id;
  healthy := false;
  ready := false;
  startup_state := StateBooting;
  mode := mode;
  requested_mode := mode;
  status_effective_mode := mode;
  activation_generation := None;
  armed_generation := None;
  enforcement_epoch :=
    if bool_decide (mode = Enforce) then Some "unmanaged-explicit-1" else None;
  status_draining := false;
  recovered_cleanup_attempts := 0;
  event_source_healthy := true;
  last_event_source_error := None;
  storage_recovery := None;
  attention := mkAttentionProjection 0 [];
  protected_incident_count := 0;
  protected_incidents := [];
  status_pid := pid;
  scan_in_progress := false;
  cleanup_in_progress := false;
  cache_activity := None;
  storage_activity := None;
  process_activity := None;
  paused_until_unix_millis := None;
  cycle_started_at_unix_millis := None;
  latest_observation_at_unix_millis := None;
  last_scan_at_unix_millis := None;
  confirmed_incidents := 0;
  ambiguous_incidents := 0;
  status_most_recent_reclaim := None;
  last_error := None;
  first_failure := None;
|}.

(** [DaemonStatus::effective_mode]. *)
Definition effective_mode (s : DaemonStatus) : DaemonMode :=
  if bool_decide (lifecycle_schema_version s = 0)%N then mode s else status_effective_mode s.

Definition set_effective_mode (m : DaemonMode) (s : DaemonStatus) : DaemonStatus :=
  s <| mode := m |> <| status_effective_mode := m |>.

Definition refresh_cleanup_activity (s : DaemonStatus) : DaemonStatus :=
  s <| cleanup_in_progress :=
         bool_decide (is_Some (process_activity s)) || bool_decide (is_Some (cache_activity s))
         || bool_decide (is_Some (storage_activity s)) |>.

(** [DaemonStatus::browser_cleanup_in_progress]. *)
Definition browser_cleanup_in_progress (s : DaemonStatus) : bool :=
  if bool_decide (is_Some (cache_activity s)) || bool_decide (is_Some (storage_activity s))
  then bool_decide (is_Some (process_activity s)) else cleanup_in_progress s.

Definition cancelled (a : Activity) : Activity :=
  mkActivity (activity_token a) (activity_epoch a) true.

Definition cancel_cache_activity (s : DaemonStatus) : DaemonStatus :=
  s <| cache_activity ::= fmap cancelled |>.

Definition cancel_storage_activity (s : DaemonStatus) : DaemonStatus :=
  s <| storage_activity ::= fmap cancelled |>.

Definition cancel_prompt_activities (s : DaemonStatus) : DaemonStatus :=
  cancel_storage_activity (cancel_cache_activity s).

(** [apply_protection_projection]. *)
Definition apply_protection_projection (p : ProtectionProjection) (s : DaemonStatus) :
    DaemonStatus :=
  s <| protected_incident_count := pp_protected_incident_count p |>
    <| protected_incidents := pp_protected_incidents p |>.

Definition blocked_item (b : BlockedCleanupSummary) : AttentionItem :=
  mkAttentionItem (bc_event_token b) (Some (bc_outcome b))
    (if bool_decide (bc_state b = Revived) then AttentionCleanupRevived
     else AttentionCleanupFailed)
    (bc_reason_id b) (Some (bc_incident_id b)) (Some (bc_state b))
    (Some (bc_blocked_at_unix_millis b)).

(** [apply_attention_projection]: at most three items precede the blocked cleanups. *)
Definition apply_attention_projection (p : StoreAttentionProjection) (s : DaemonStatus) :
    DaemonStatus :=
  let recovery :=
    match storage_recovery s with
    | Some r =>
        [mkAttentionItem (Some (srs_public_token r)) None AttentionStorageRecovered
           match srs_reason r with
           | IntegrityCheckFailed => "storage.integrity_recovered"
           | RequiredSchemaInvalid => "storage.schema_recovered"
           end None None (Some (srs_occurred_at_unix_millis r))]
    | None => []
    end in
  let degraded :=
    if event_source_healthy s then []
    else [mkAttentionItem None None AttentionEventSourceDegraded
            "runtime.event_source_degraded" None None None] in
  let unhealthy :=
    if healthy s then []
    else [mkAttentionItem None None AttentionDaemonUnhealthy
            (if last_error s then "daemon.runtime_error" else "daemon.not_ready")
            None None None] in
  let items := recovery ++ degraded ++ unhealthy in
  let blocked := blocked_item <$> sap_blocked_cleanups p in
  s <| attention :=
         mkAttentionProjection (sap_blocked_cleanup_count p)
           (items ++ take (MAX_STATUS_ATTENTION_ITEMS - length items) blocked) |>.

(** [managed_identity]. *)
Definition managed_identity (s : DaemonStatus) : result (N * string) ControlError :=
  guard? managed s else CtlUnavailable "daemon is not managed by an activation generation" in
  let? generation :=
    ok_or (activation_generation s)
      (CtlUnavailable "managed daemon has no activation generation") in
  guard? negb (is_empty (status_instance_id s))
    else CtlUnavailable "managed daemon has no instance identity" in
  Ok (generation, status_instance_id s).

(** [require_exact_status_identity]. *)
Definition require_exact_status_identity (s : DaemonStatus) (generation : N) (instance_id : string) :
    result unit ControlError :=
  let? active := managed_identity s in
  guard? bool_decide (active.1 = generation)
    else CtlInvalidArgument ("activation generation mismatch: active " +:+ pretty active.1
           +:+ ", requested " +:+ pretty generation) in
  guard? bool_decide (active.2 = instance_id)
    else CtlInvalidArgument "instance ID does not match the active daemon" in
  Ok tt.

Definition mode_of (enforce : bool) : DaemonMode := if enforce then Enforce else ReportOnly.

Definition state_of_phase (p : ManagedStartupPhase) : StartupState :=
  match p with
  | PhaseRecovering => StateRecovering
  | PhaseFirstScanReportOnly => StateFirstScanReportOnly
  | PhaseReadyReportOnly => StateReadyReportOnly
  | PhaseReadyEnforce => StateReadyEnforce
  | PhaseDraining => StateDraining
  | PhaseFailed => StateFailed
  end.

(** [apply_managed_lifecycle]. *)
Definition apply_managed_lifecycle (l : ManagedLifecycle) (s : DaemonStatus) : DaemonStatus :=
  let s := if ml_effective_enforce l then s else cancel_prompt_activities s in
  let s :=
    s <| managed := true |>
      <| activation_generation := Some (ml_activation_generation l) |>
      <| status_instance_id := ml_instance_id l |>
      <| requested_mode := mode_of (ml_requested_enforce l) |> in
  let s := set_effective_mode (mode_of (ml_effective_enforce l)) s in
  s <| armed_generation := ml_armed_generation l |>
    <| enforcement_epoch := ml_enforcement_epoch l |>
    <| ready := ml_ready l |>
    <| status_draining := ml_draining l |>
    <| startup_state := state_of_phase (ml_startup_phase l) |>.

(** ** Gates *)

(** [signal_gate_matches]. *)
Definition signal_gate_matches (s : DaemonStatus) (epoch : string) : bool :=
  if status_draining s || negb (bool_decide (effective_mode s = Enforce))
     || negb (bool_decide (enforcement_epoch s = Some epoch))
  then false
  else
    negb (managed s)
    || (ready s && bool_decide (is_Some (activation_generation s))
        && bool_decide (armed_generation s = activation_generation s)).

(** [storage_cleanup_gate_open]. *)
Definition storage_cleanup_gate_open (s : DaemonStatus) : bool :=
  healthy s
  && ready s
  && bool_decide (startup_state s = StateReadyEnforce)
  && bool_decide (effective_mode s = Enforce)
  && bool_decide (is_Some (enforcement_epoch s))
  && (negb (managed s)
      || (bool_decide (is_Some (activation_generation s))
          && bool_decide (armed_generation s = activation_generation s)))
  && negb (status_draining s)
  && negb (scan_in_progress s)
  && negb (cleanup_in_progress s)
  && bool_decide (paused_until_unix_millis s = None).

(** [storage_cleanup_report_only_gate_open]. *)
Definition storage_cleanup_report_only_gate_open (s : DaemonStatus) : bool :=
  healthy s
  && ready s
  && bool_decide (startup_state s = StateReadyReportOnly)
  && bool_decide (effective_mode s = ReportOnly)
  && negb (status_draining s)
  && negb (scan_in_progress s)
  && negb (cleanup_in_progress s)
  && bool_decide (paused_until_unix_millis s = None).

(** ** The lock *)

Definition poisoned_lock : ControlError := CtlUnavailable "daemon status lock is poisoned".

(** [self.lock_status()?]. *)
Definition locked {A} (c : ControlPlane)
    (k : DaemonStatus → ControlPlane * result A ControlError) :
    ControlPlane * result A ControlError :=
  if poisoned c then (c, Err poisoned_lock) else k (ctl_status c).

Definition set_status (s : DaemonStatus) (c : ControlPlane) : ControlPlane :=
  c <| ctl_status := s |>.

(** [ControlPlane::update_status]: errors are bounded and the event source's is public. *)
Definition update_status (update : DaemonStatus → DaemonStatus) (c : ControlPlane) :
    ControlPlane * result unit ControlError :=
  locked c (λ s,
    let s := update s in
    let s := s <| last_error ::= fmap bounded_message |> in
    let s :=
      if last_event_source_error s
      then s <| last_event_source_error := Some EVENT_SOURCE_DEGRADED_MESSAGE |> else s in
    (set_status s c, Ok tt)).

(** [ControlPlane::note_event_source_failure]. *)
Definition note_event_source_failure : ControlPlane → ControlPlane * result unit ControlError :=
  update_status (λ s,
    s <| event_source_healthy := false |>
      <| last_event_source_error := Some EVENT_SOURCE_DEGRADED_MESSAGE |>).

(** [ControlPlane::note_event_source_healthy]. *)
Definition note_event_source_healthy : ControlPlane → ControlPlane * result unit ControlError :=
  update_status (λ s,
    s <| event_source_healthy := true |> <| last_event_source_error := None |>).

(** ** The roster *)

(** [ControlPlane::begin_observation_cycle]. *)
Definition begin_observation_cycle (wall_nanos started_at_unix_millis : N) (c : ControlPlane) :
    ControlPlane * result string ControlError :=
  let cycle_token := fresh_cycle_token started_at_unix_millis (next_cycle_token c) wall_nanos in
  let c :=
    c <| next_cycle_token ::= fetch_add |>
      <| ctl_roster ::= λ r,
           r <| active_cycle_token := Some cycle_token |>
             <| roster_freshness := RosterScanInProgress |> |> in
  let '(c, updated) :=
    update_status (λ s,
      let s :=
        s <| scan_in_progress := true |>
          <| cycle_started_at_unix_millis := Some started_at_unix_millis |> in
      if bool_decide (startup_state s = StateFailed) then s else s <| last_error := None |>) c in
  (c, let? _ := updated in Ok cycle_token).

(** [ControlPlane::publish_roster]. *)
Definition publish_roster (cycle_token : string) (observed_at_unix_millis : N)
    (reports : list IncidentReport) (classification_complete : bool) (c : ControlPlane) :
    ControlPlane * result unit ControlError :=
  if negb (bool_decide (active_cycle_token (ctl_roster c) = Some cycle_token))
  then (c, Err (CtlUnavailable "observation cycle token is no longer active"))
  else
    let c :=
      c <| ctl_roster :=
             mkRosterState (Some cycle_token) (Some observed_at_unix_millis)
               (roster_freshness (ctl_roster c))
               (classification_complete && bool_decide (length reports ≤ MAX_ROSTER_ITEMS))
               (take MAX_ROSTER_ITEMS reports) (active_cycle_token (ctl_roster c)) |> in
    update_status (λ s,
      s <| latest_observation_at_unix_millis := Some observed_at_unix_millis |>) c.

(** [ControlPlane::finish_observation_cycle]. *)
Definition finish_observation_cycle (cycle_token : string) (succeeded : bool) (c : ControlPlane) :
    ControlPlane :=
  let r := ctl_roster c in
  if negb (bool_decide (active_cycle_token r = Some cycle_token)) then c
  else
    let replacement_completed := bool_decide (roster_cycle_token r = Some cycle_token) in
    c <| ctl_roster :=
           r <| roster_freshness :=
                  if succeeded || replacement_completed then RosterCurrent
                  else RosterStaleAfterFailure |>
             <| active_cycle_token := None |> |>.

(** ** The pause *)

(** [ControlPlane::expire_pause]. *)
Definition expire_pause (io : option StoreError) (now_unix_millis : N) (c : ControlPlane) :
    ControlPlane * result unit ControlError :=
  locked c (λ s,
    match paused_until_unix_millis s with
    | Some deadline =>
        if bool_decide (deadline ≤ now_unix_millis)%N then
          match set_pause_until io None (ctl_store c) with
          | Err e => (c, Err (from_store_error e))
          | Ok db =>
              (set_status (s <| paused_until_unix_millis := None |>) (c <| ctl_store := db |>), Ok tt)
          end
        else (c, Ok tt)
    | None => (c, Ok tt)
    end).

(** ** Mutations *)

(** The facts of the daemon that decide a mutation. *)
Definition runtime_policy_facts (s : DaemonStatus) : RuntimePolicyFacts :=
  mkRuntimePolicyFacts
    (status_draining s || bool_decide (startup_state s = StateDraining))
    (bool_decide (startup_state s = StateFailed)).

(** [ControlPlane::ordinary_mutation_unavailable_reason], at the current wall time. *)
Definition ordinary_mutation_unavailable_reason (io : option StoreError) (wall_millis : N)
    (mutation : OrdinaryMutation) (c : ControlPlane) :
    ControlPlane * result (option string) ControlError :=
  locked c (λ s,
    (c, let? store_facts :=
          map_err from_store_error
            (public_action_store_facts io mutation wall_millis (ctl_store c)) in
        Ok (unavailable_reason (evaluate_action (runtime_policy_facts s) store_facts mutation)))).

(** The attention and the protections after an applied mutation. *)
Definition apply_mutation_result (r : MutationResult) (s : DaemonStatus) : DaemonStatus :=
  match r with
  | Paused until_ =>
      cancel_prompt_activities (s <| paused_until_unix_millis := Some until_ |>)
  | Resumed => s <| paused_until_unix_millis := None |>
  | RetryScheduled incident =>
      let kept item :=
        negb (bool_decide (ai_incident_id item = Some incident))
        || negb (bool_decide (ai_kind item ∈ [AttentionCleanupFailed; AttentionCleanupRevived])) in
      s <| attention ::= λ a,
             mkAttentionProjection (ap_blocked_cleanup_count a - 1)
               (List.filter kept (ap_items a)) |>
  | IncidentProtected protection =>
      let kept item :=
        negb (bool_decide (summary_incident_id item = summary_incident_id protection)) in
      let incidents := List.filter kept (protected_incidents s) ++ [protection] in
      s <| protected_incidents := incidents |>
        <| protected_incident_count := N.of_nat (length incidents) |>
  | IncidentUnprotected incident =>
      let kept item := negb (bool_decide (summary_incident_id item = incident)) in
      let incidents := List.filter kept (protected_incidents s) in
      s <| protected_incidents := incidents |>
        <| protected_incident_count := N.of_nat (length incidents) |>
  end.

Section Mutations.
Context `{JE : Json EventPayload, JM : Json OrdinaryMutation, JR : Json MutationReceipt}.

(** [ControlPlane::mutation_lookup]. *)
Definition control_mutation_lookup (io : option StoreError) (context : MutationContext)
    (c : ControlPlane) : ControlPlane * result MutationLookup ControlError :=
  locked c (λ _, (c, map_err from_store_error (mutation_lookup io context (ctl_store c)))).

(** [ControlPlane::commit_public_mutation]. *)
Definition commit_public_mutation (io : option StoreError) (context : MutationContext)
    (mutation : OrdinaryMutation) (now_unix_millis : N) (c : ControlPlane) :
    ControlPlane * result MutationCommit ControlError :=
  locked c (λ s,
    match commit_public_ordinary_mutation io context mutation (runtime_policy_facts s)
            now_unix_millis (ctl_store c) with
    | Err e => (c, Err (map_store_error e))
    | Ok (db, commit) =>
        let c :=
          c <| ctl_store := db |>
            <| ctl_revision := mr_policy_revision_after (commit_receipt commit) |> in
        if negb (state_changed commit) then (c, Ok commit)
        else
          match mr_outcome (commit_receipt commit) with
          | Applied r => (set_status (apply_mutation_result r s) c, Ok commit)
          | _ =>
              (c, Err (CtlStore "a state-changing mutation receipt lacked an applied result"))
          end
    end).
End Mutations.

(** ** The service lifecycle *)

(** The writes of [fail_closed] and of the failed fail-closes: the volatile gate shut. *)
Definition shut (s : DaemonStatus) : DaemonStatus :=
  (set_effective_mode ReportOnly (s <| requested_mode := ReportOnly |>))
    <| armed_generation := None |> <| enforcement_epoch := None |> <| ready := false |>
    <| startup_state := StateFailed |> <| healthy := false |>.

(** [ControlPlane::finish_startup_recovery]. *)
Definition finish_startup_recovery (io : option StoreError) (recovered : N) (now_unix_millis : N)
    (c : ControlPlane) : ControlPlane * result unit ControlError :=
  locked c (λ s,
    if negb (managed s) then
      (set_status (s <| recovered_cleanup_attempts := recovered |>
                     <| startup_state := StateFirstScanReportOnly |>) c, Ok tt)
    else
      match managed_identity s with
      | Err e => (c, Err e)
      | Ok (generation, instance_id) =>
          match finish_managed_recovery io generation instance_id now_unix_millis (ctl_store c) with
          | Err e => (c, Err (map_store_error e))
          | Ok (db, l) =>
              (set_status ((apply_managed_lifecycle l s)
                 <| recovered_cleanup_attempts := recovered |> <| healthy := false |>
                 <| ready := false |> <| startup_state := StateFirstScanReportOnly |>)
                 (c <| ctl_store := db |>), Ok tt)
          end
      end).

(** A durable fail-close that keeps an error: [on_ok] is the answer if it was made
    durable, [on_err] if not. *)
Definition fail_and_keep (io : option StoreError) (generation : N) (instance_id : string)
    (now_unix_millis : N) (kept : option string) (on_ok : ControlError)
    (on_err : string → ControlError) (s : DaemonStatus) (c : ControlPlane) :
    ControlPlane * result unit ControlError :=
  match fail_managed io generation instance_id now_unix_millis (ctl_store c) with
  | Ok (db, l) =>
      (set_status ((apply_managed_lifecycle l s) <| healthy := false |> <| last_error := kept |>)
         (c <| ctl_store := db |>), Err on_ok)
  | Err e =>
      (set_status ((shut s) <| last_error := kept |>) c, Err (on_err (display_store_error e)))
  end.

(** The end of [complete_successful_cycle]. *)
Definition publish_readiness (s : DaemonStatus) : DaemonStatus :=
  s <| healthy := negb (status_draining s) |>
    <| ready := ready s || negb (managed s) |>
    <| startup_state :=
         if status_draining s then StateDraining
         else if bool_decide (effective_mode s = Enforce) then StateReadyEnforce
         else StateReadyReportOnly |>.

(** [ControlPlane::complete_successful_cycle]; [io'] is for its second use of the store. *)
Definition complete_successful_cycle (io io' : option StoreError) (now_unix_millis : N)
    (c : ControlPlane) : ControlPlane * result unit ControlError :=
  locked c (λ s,
    if negb (managed s) && bool_decide (startup_state s = StateFailed) then
      (c, Err (CtlUnavailable "daemon instance remains terminal Failed; restart is required"))
    else if managed s && bool_decide (startup_state s = StateFailed) then
      match managed_identity s with
      | Err e => (c, Err e)
      | Ok (generation, instance_id) =>
          fail_and_keep io generation instance_id now_unix_millis (last_error s)
            (CtlUnavailable "managed lifecycle is failed; exact service restart is required")
            (λ error, CtlStore (bounded_message
               ("managed lifecycle remains failed; durable fail-close retry failed: " +:+ error)))
            s c
      end
    else if managed s && negb (status_draining s) && negb (ready s) then
      match managed_identity s with
      | Err e => (c, Err e)
      | Ok (generation, instance_id) =>
          if negb (bool_decide (startup_state s = StateFirstScanReportOnly)) then
            let message :=
              bounded_message ("managed cycle completed in invalid startup state "
                +:+ startup_state_name (startup_state s)) in
            fail_and_keep io generation instance_id now_unix_millis (Some message)
              (CtlUnavailable message)
              (λ error, CtlStore (bounded_message
                 (message +:+ "; durable fail-close also failed: " +:+ error))) s c
          else
            let epoch :=
              fresh_enforcement_epoch generation (status_pid s) instance_id now_unix_millis
                (next_enforcement_epoch c) in
            let c := c <| next_enforcement_epoch ::= fetch_add |> in
            match complete_managed_first_scan io generation instance_id epoch now_unix_millis
                    (ctl_store c) with
            | Ok (db, l) =>
                (set_status (publish_readiness (apply_managed_lifecycle l s))
                   (c <| ctl_store := db |>), Ok tt)
            | Err e =>
                let completion_error := map_store_error e in
                let completion_message :=
                  bounded_message ("managed first-scan completion failed: "
                    +:+ control_message completion_error) in
                fail_and_keep io' generation instance_id now_unix_millis
                  (Some completion_message) completion_error
                  (λ error, CtlStore (bounded_message
                     (control_message completion_error
                        +:+ "; durable fail-close also failed: " +:+ error))) s c
            end
      end
    else (set_status (publish_readiness s) c, Ok tt)).

(** [rsplit(['/', '\\']).next()]: the text after the last separator. *)
Fixpoint last_piece (s : string) : string :=
  match s with
  | EmptyString => EmptyString
  | String c rest =>
      if contains "/" rest || contains "\" rest then last_piece rest
      else if Ascii.eqb c "/" || Ascii.eqb c "\" then rest else s
  end.

(** The first failure is kept; its report on stderr is not modelled. *)
Definition record_first_failure (caller : string * N) (now_unix_millis : N) (message : string)
    (s : DaemonStatus) : DaemonStatus :=
  if first_failure s then s
  else s <| first_failure :=
              Some (mkFirstFailure now_unix_millis message (last_piece caller.1) caller.2) |>.

(** [ControlPlane::fail_closed]; [caller] is the file and line of the call. *)
Definition fail_closed (caller : string * N) (io : option StoreError) (now_unix_millis : N)
    (message : string) (c : ControlPlane) : ControlPlane * result unit ControlError :=
  let message := bounded_message message in
  locked c (λ s,
    let s := cancel_prompt_activities s in
    let s := record_first_failure caller now_unix_millis message s in
    let durable :=
      if managed s then
        let? identity := managed_identity s in
        let? failed :=
          map_err map_store_error
            (fail_managed io identity.1 identity.2 now_unix_millis (ctl_store c)) in
        Ok (Some failed)
      else Ok None in
    let '(s, db) :=
      match durable with
      | Ok (Some (db, l)) => (apply_managed_lifecycle l s, db)
      | _ => (s, ctl_store c)
      end in
    (set_status ((shut s) <| last_error := Some message |>) (c <| ctl_store := db |>),
     let? _ := durable in Ok tt)).

(** [ControlPlane::preserve_managed_pre_ready_restart_intent]. *)
Definition control_preserve_restart_intent (io : option StoreError) (now_unix_millis : N)
    (c : ControlPlane) : ControlPlane * result unit ControlError :=
  locked c (λ s,
    match managed_identity s with
    | Err e => (c, Err e)
    | Ok (generation, instance_id) =>
        match preserve_managed_pre_ready_restart_intent io generation instance_id now_unix_millis
                (ctl_store c) with
        | Err e => (c, Err (map_store_error e))
        | Ok (db, l) => (set_status (apply_managed_lifecycle l s) (c <| ctl_store := db |>), Ok tt)
        end
    end).

(** [ControlPlane::is_draining]. *)
Definition is_draining (c : ControlPlane) : bool := poisoned c || status_draining (ctl_status c).

(** ** Storage and cache actions *)

(** The gate an action in progress is checked against: without the activity of the
    daemon itself. *)
Definition without_activity (storage : bool) (s : DaemonStatus) : DaemonStatus :=
  let s := if storage then s <| storage_activity := None |> else s <| cache_activity := None |> in
  refresh_cleanup_activity (s <| process_activity := None |> <| scan_in_progress := false |>).

Definition owns (token epoch : string) (a : option Activity) : bool :=
  match a with
  | Some a =>
      bool_decide (activity_token a = token) && bool_decide (activity_epoch a = epoch)
      && negb (cancel_requested a)
  | None => false
  end.

(** [ControlPlane::start_storage_cleanup_if_ready_enforce]; [token] is the random token
    of the attempt. *)
Definition start_storage_cleanup_if_ready_enforce (token : string) (io io' : option StoreError)
    (now_unix_millis : N) (facts : StorageCleanupAttemptFacts) (c : ControlPlane) :
    ControlPlane * result (option (PreparedStorageCleanupAttempt * string)) ControlError :=
  match expire_pause io now_unix_millis c with
  | (c, Err e) => (c, Err e)
  | (c, Ok _) =>
      locked c (λ s,
        if negb (storage_cleanup_gate_open s) then (c, Ok None)
        else
          let epoch := default "" (enforcement_epoch s) in
          match begin_storage_cleanup_attempt token io' now_unix_millis facts (ctl_maintenance c) with
          | Err e => (c, Err (map_store_error e))
          | Ok (db, prepared) =>
              (set_status (refresh_cleanup_activity
                 (s <| storage_activity :=
                         Some (mkActivity (psa_attempt_token prepared) epoch false) |>))
                 (c <| ctl_maintenance := db |>), Ok (Some (prepared, epoch)))
          end)
  end.

(** [ControlPlane::storage_action_may_continue]. *)
Definition storage_action_may_continue (prepared : PreparedStorageCleanupAttempt) (epoch : string)
    (c : ControlPlane) : bool :=
  let s := ctl_status c in
  negb (poisoned c)
  && owns (psa_attempt_token prepared) epoch (storage_activity s)
  && storage_cleanup_gate_open (without_activity true s)
  && bool_decide (enforcement_epoch (without_activity true s) = Some epoch).

(** [ControlPlane::finish_storage_action]. *)
Definition finish_storage_action (prepared : PreparedStorageCleanupAttempt) (c : ControlPlane) :
    ControlPlane * result unit ControlError :=
  locked c (λ s,
    let foreign :=
      match storage_activity s with
      | Some a => negb (bool_decide (activity_token a = psa_attempt_token prepared))
      | None => false
      end in
    if foreign then (c, Err (CtlUnavailable "storage activity belongs to another attempt"))
    else (set_status (refresh_cleanup_activity (s <| storage_activity := None |>)) c, Ok tt)).

(** [ControlPlane::storage_cleanup_state_at]. *)
Definition storage_cleanup_state_at (io : option StoreError) (now_unix_millis : N)
    (c : ControlPlane) : ControlPlane * result (DaemonMode * bool) ControlError :=
  match expire_pause io now_unix_millis c with
  | (c, Err e) => (c, Err e)
  | (c, Ok _) =>
      locked c (λ s,
        (c, Ok (effective_mode s,
                match effective_mode s with
                | Enforce => storage_cleanup_gate_open s
                | ReportOnly => storage_cleanup_report_only_gate_open s
                end)))
  end.

(** [ControlPlane::start_cache_if_ready_enforce]; [start] is the answer of the caller's
    factory on the token and the epoch. *)
Definition start_cache_if_ready_enforce
    `{JA : Json ToolCacheAvailability, JT : Json ToolCacheAttemptSummary,
      JN : Json NodeCompileCacheAttemptSummary} {T : Type}
    (token : string) (io io' : option StoreError) (now : N) (node : bool)
    (start : string → string → result T string) (c : ControlPlane) :
    ControlPlane * result (option (PreparedToolCacheAttempt * result T string * string))
                     ControlError :=
  match expire_pause io now c with
  | (c, Err e) => (c, Err e)
  | (c, Ok _) =>
      locked c (λ s,
        if negb (storage_cleanup_gate_open s) then (c, Ok None)
        else
          match (if node then begin_node_compile_cache_attempt token io' now (ctl_maintenance c)
                 else begin_tool_cache_attempt token io' now (ctl_maintenance c)) with
          | Err e => (c, Err (map_store_error e))
          | Ok (db, prepared) =>
              let c := c <| ctl_maintenance := db |> in
              let epoch := default "" (enforcement_epoch s) in
              let child := start (pca_token prepared) epoch in
              let s :=
                match child with
                | Ok _ =>
                    refresh_cleanup_activity
                      (s <| cache_activity := Some (mkActivity (pca_token prepared) epoch false) |>)
                | Err _ => s
                end in
              (set_status s c, Ok (Some (prepared, child, epoch)))
          end)
  end.

(** [ControlPlane::tool_cache_action_may_continue]. *)
Definition tool_cache_action_may_continue (prepared : PreparedToolCacheAttempt) (epoch : string)
    (c : ControlPlane) : bool :=
  let s := ctl_status c in
  negb (poisoned c)
  && owns (pca_token prepared) epoch (cache_activity s)
  && storage_cleanup_gate_open (without_activity false s)
  && bool_decide (enforcement_epoch (without_activity false s) = Some epoch).

(** [ControlPlane::finish_tool_cache_action]. *)
Definition finish_tool_cache_action (prepared : PreparedToolCacheAttempt) (c : ControlPlane) :
    ControlPlane * result unit ControlError :=
  locked c (λ s,
    let foreign :=
      match cache_activity s with
      | Some a => negb (bool_decide (activity_token a = pca_token prepared))
      | None => false
      end in
    if foreign then (c, Err (CtlUnavailable "cache activity belongs to another attempt"))
    else (set_status (refresh_cleanup_activity (s <| cache_activity := None |>)) c, Ok tt)).

(** ** Process cleanup *)

(** [ControlPlane::begin_process_cleanup_activity]. *)
Definition begin_process_cleanup_activity (token : string) (c : ControlPlane) :
    ControlPlane * result unit ControlError :=
  locked c (λ s,
    if process_activity s then (c, Err (CtlUnavailable "process cleanup already active"))
    else (set_status (refresh_cleanup_activity (s <| process_activity := Some token |>)) c, Ok tt)).

(** [ProcessCleanupActivity::drop]. *)
Definition drop_process_cleanup_activity (token : string) (c : ControlPlane) : ControlPlane :=
  if poisoned c then c
  else if bool_decide (process_activity (ctl_status c) = Some token)
  then set_status (refresh_cleanup_activity ((ctl_status c) <| process_activity := None |>)) c
  else c.

(** [ControlPlane::action_gate_closed]. *)
Definition action_gate_closed (epoch : string) (frozen_revision : N) (c : ControlPlane) : bool :=
  poisoned c || negb (signal_gate_matches (ctl_status c) epoch)
  || negb (bool_decide (ctl_revision c = frozen_revision)).

(** [ControlPlane::deliver_signal_if_armed]: whether [deliver] runs, under the lock. *)
Definition delivers (epoch : string) (frozen_revision : N) (c : ControlPlane) : bool :=
  negb (poisoned c) && signal_gate_matches (ctl_status c) epoch
  && bool_decide (ctl_revision c = frozen_revision).

Definition deliver_signal_if_armed (epoch : string) (frozen_revision : N)
    (deliver : unit → SignalDisposition) (c : ControlPlane) : SignalDisposition :=
  if delivers epoch frozen_revision c then deliver tt else CancelledBeforeDelivery.

(** [ControlPlane::begin_cleanup_attempt_if_armed]. *)
Definition begin_cleanup_attempt_if_armed `{JE : Json EventPayload, JR : Json CleanupResources,
      JP : Json (list N)} (random : token_source) (io : option StoreError) (now_unix_millis : N)
    (report : IncidentReport) (epoch : string) (frozen_revision : N) (c : ControlPlane) :
    ControlPlane * result (option CleanupAttemptHandle) ControlError :=
  locked c (λ s,
    if negb (signal_gate_matches s epoch)
       || negb (bool_decide (ctl_revision c = frozen_revision))
    then (c, Ok None)
    else
      match begin_cleanup_attempt random io now_unix_millis report epoch (ctl_store c) with
      | Err e => (c, Err (map_store_error e))
      | Ok (db, attempt) => (c <| ctl_store := db |>, Ok (Some attempt))
      end).

(** ** Commands *)

(** [IpcCommand]; [CmdOwnership] stands for the seven commands of tasks and session
    owners that need an authenticated peer. [TaskStatus], a read of the task table, is
    not modelled. *)
Inductive IpcCommand : Type :=
| CmdStatus
| CmdOwnership
| CmdHistory (limit : N)
| CmdExplain (incident_id : string)
| CmdPause (duration_millis : N)
| CmdResume
| CmdArm (activation_generation : N) (instance_id : string)
| CmdDisarm (activation_generation : N) (instance_id : string)
| CmdBeginDrain (activation_generation : N) (instance_id : string)
| CmdRetryFailedCleanup (incident_id : string)
| CmdProtectIncident (incident_id : string)
| CmdUnprotectIncident (incident_id : string)
| CmdExportDiagnostics (incident_id : string).

Inductive IpcPayload : Type :=
| PayStatus (status : DaemonStatus)
| PayHistory (events : list HistoryEvent)
| PayIncident (detail : IncidentDetail)
| PayPause (until_unix_millis : N)
| PayResumed
| PayLifecycle (status : DaemonStatus)
| PayRetryScheduled (incident_id : string)
| PayIncidentProtected (protection : ProtectionSummary)
| PayIncidentUnprotected (incident_id : string)
| PayDiagnostics (schema_version generated_at : N) (status : DaemonStatus)
    (incident : IncidentDetail).

(** [self.cleanup_policy_revision.fetch_add(1, ..)]. *)
Definition bump_revision (c : ControlPlane) : ControlPlane := c <| ctl_revision ::= fetch_add |>.

Section Commands.
Context `{JE : Json EventPayload}.

(** [ControlPlane::status]: the status with the store's current projections. *)
Definition control_status (io io' : option StoreError) (c : ControlPlane) :
    result DaemonStatus ControlError :=
  let? attention :=
    map_err map_store_error (attention_projection io MAX_STATUS_ATTENTION_ITEMS (ctl_store c)) in
  let? protection :=
    map_err map_store_error (protection_projection io' MAX_STATUS_ATTENTION_ITEMS (ctl_store c)) in
  guard? negb (poisoned c) else poisoned_lock in
  Ok (apply_protection_projection protection
        (apply_attention_projection attention (ctl_status c))).

(** [ControlPlane::status_at]. *)
Definition status_at (io1 io2 io3 : option StoreError) (now_unix_millis : N) (c : ControlPlane) :
    ControlPlane * result DaemonStatus ControlError :=
  match expire_pause io1 now_unix_millis c with
  | (c, Err e) => (c, Err e)
  | (c, Ok _) => (c, control_status io2 io3 c)
  end.

(** [IpcCommand::Pause]. *)
Definition handle_pause (io : option StoreError) (duration_millis now_unix_millis : N)
    (c : ControlPlane) : ControlPlane * result IpcPayload ControlError :=
  if bool_decide (duration_millis = 0)%N || bool_decide (MAX_PAUSE_MILLIS < duration_millis)%N then
    (c, Err (CtlInvalidArgument ("pause duration must be between 1 millisecond and "
               +:+ pretty MAX_PAUSE_MILLIS +:+ " milliseconds")))
  else
    match checked_add now_unix_millis duration_millis with
    | None => (c, Err (CtlInvalidArgument "pause deadline overflowed u64"))
    | Some deadline =>
        locked c (λ s,
          match set_pause_until io (Some deadline) (ctl_store c) with
          | Err e => (c, Err (from_store_error e))
          | Ok db =>
              (bump_revision (set_status
                 (cancel_prompt_activities (s <| paused_until_unix_millis := Some deadline |>))
                 (c <| ctl_store := db |>)), Ok (PayPause deadline))
          end)
    end.

(** [IpcCommand::Resume]. *)
Definition handle_resume (io : option StoreError) (c : ControlPlane) :
    ControlPlane * result IpcPayload ControlError :=
  locked c (λ s,
    match set_pause_until io None (ctl_store c) with
    | Err e => (c, Err (from_store_error e))
    | Ok db =>
        (bump_revision (set_status (s <| paused_until_unix_millis := None |>)
           (c <| ctl_store := db |>)), Ok PayResumed)
    end).

(** A lifecycle transition of the exact daemon, and the status after it. *)
Definition handle_transition
    (transition : database → result (database * ManagedLifecycle) StoreError)
    (after : DaemonStatus → DaemonStatus) (s : DaemonStatus) (c : ControlPlane) :
    ControlPlane * result IpcPayload ControlError :=
  match transition (ctl_store c) with
  | Err e => (c, Err (map_store_error e))
  | Ok (db, l) =>
      let s := after (apply_managed_lifecycle l s) in
      (set_status s (c <| ctl_store := db |>), Ok (PayLifecycle s))
  end.

Definition ready_to_arm (generation : N) (s : DaemonStatus) : bool :=
  let ready_report_only :=
    bool_decide (startup_state s = StateReadyReportOnly)
    && bool_decide (effective_mode s = ReportOnly)
    && bool_decide (armed_generation s = None) && bool_decide (enforcement_epoch s = None) in
  let already_ready_enforce :=
    bool_decide (startup_state s = StateReadyEnforce)
    && bool_decide (effective_mode s = Enforce)
    && bool_decide (armed_generation s = Some generation)
    && bool_decide (is_Some (enforcement_epoch s)) in
  healthy s && ready s && negb (status_draining s) && (ready_report_only || already_ready_enforce).

(** [IpcCommand::Arm]. *)
Definition handle_arm (io : option StoreError) (generation : N) (instance_id : string)
    (now_unix_millis : N) (c : ControlPlane) : ControlPlane * result IpcPayload ControlError :=
  locked c (λ s,
    match require_exact_status_identity s generation instance_id with
    | Err e => (c, Err e)
    | Ok _ =>
        if negb (ready_to_arm generation s) then
          (c, Err (CtlUnavailable "managed daemon lifecycle is not ready to arm"))
        else
          let epoch :=
            fresh_enforcement_epoch generation (status_pid s) (status_instance_id s)
              now_unix_millis (next_enforcement_epoch c) in
          let c := c <| next_enforcement_epoch ::= fetch_add |> in
          handle_transition (arm_managed io generation instance_id epoch now_unix_millis)
            (λ s, s <| healthy := true |> <| last_error := None |>) s c
    end).

(** [IpcCommand::Disarm]. *)
Definition handle_disarm (io : option StoreError) (generation : N) (instance_id : string)
    (now_unix_millis : N) (c : ControlPlane) : ControlPlane * result IpcPayload ControlError :=
  locked c (λ s,
    match require_exact_status_identity s generation instance_id with
    | Err e => (c, Err e)
    | Ok _ =>
        if bool_decide (startup_state s = StateFailed) then
          handle_transition (fail_managed io generation instance_id now_unix_millis)
            (λ s', s' <| healthy := false |> <| last_error := last_error s |>) s c
        else
          handle_transition (disarm_managed io generation instance_id now_unix_millis)
            (λ s', s' <| last_error := None |>) s c
    end).

(** [IpcCommand::BeginDrain]. *)
Definition handle_begin_drain (io : option StoreError) (generation : N) (instance_id : string)
    (now_unix_millis : N) (c : ControlPlane) : ControlPlane * result IpcPayload ControlError :=
  locked c (λ s,
    match require_exact_status_identity s generation instance_id with
    | Err e => (c, Err e)
    | Ok _ =>
        handle_transition (begin_managed_drain io generation instance_id now_unix_millis)
          (λ s, s <| healthy := true |> <| last_error := None |>) s c
    end).

(** [IpcCommand::RetryFailedCleanup]. *)
Definition handle_retry (io : option StoreError) (incident : string) (now_unix_millis : N)
    (c : ControlPlane) : ControlPlane * result IpcPayload ControlError :=
  match validate_incident_id incident with
  | Err e => (c, Err e)
  | Ok _ =>
      locked c (λ _,
        match authorize_retry io incident now_unix_millis (ctl_store c) with
        | Err e => (c, Err (from_store_error e))
        | Ok (db, false) =>
            (c, Err (CtlNotFound ("incident " +:+ debug_str incident
                       +:+ " has no blocked cleanup to retry")))
        | Ok (db, true) =>
            (bump_revision (c <| ctl_store := db |>), Ok (PayRetryScheduled incident))
        end)
  end.

(** [IpcCommand::ProtectIncident]. *)
Definition handle_protect (io : option StoreError) (incident : string) (now_unix_millis : N)
    (c : ControlPlane) : ControlPlane * result IpcPayload ControlError :=
  match validate_incident_id incident with
  | Err e => (c, Err e)
  | Ok _ =>
      locked c (λ _,
        match protect_incident io incident now_unix_millis (ctl_store c) with
        | Err e => (c, Err (from_store_error e))
        | Ok (db, None) =>
            (c <| ctl_store := db |>,
             Err (CtlNotFound ("incident " +:+ debug_str incident
                    +:+ " has no observation to protect")))
        | Ok (db, Some protection) =>
            (bump_revision (c <| ctl_store := db |>), Ok (PayIncidentProtected protection))
        end)
  end.

(** [IpcCommand::UnprotectIncident]. *)
Definition handle_unprotect (io : option StoreError) (incident : string) (c : ControlPlane) :
    ControlPlane * result IpcPayload ControlError :=
  match validate_incident_id incident with
  | Err e => (c, Err e)
  | Ok _ =>
      locked c (λ _,
        match unprotect_incident io incident (ctl_store c) with
        | Err e => (c, Err (from_store_error e))
        | Ok (db, false) =>
            (c <| ctl_store := db |>,
             Err (CtlNotFound ("incident " +:+ debug_str incident
                    +:+ " has no exact protection override")))
        | Ok (db, true) =>
            (bump_revision (c <| ctl_store := db |>), Ok (PayIncidentUnprotected incident))
        end)
  end.

(** The detail of a known incident. *)
Definition explained (io : option StoreError) (incident : string) (c : ControlPlane) :
    result IncidentDetail ControlError :=
  let? _ := validate_incident_id incident in
  let? detail := map_err from_store_error (explain io incident (ctl_store c)) in
  ok_or detail (CtlNotFound ("incident " +:+ debug_str incident +:+ " was not found")).

(** [ControlPlane::handle_at]; the [io]s are for the uses of the store, in order. *)
Definition handle_at (io1 io2 io3 : option StoreError) (command : IpcCommand)
    (now_unix_millis : N) (c : ControlPlane) : ControlPlane * result IpcPayload ControlError :=
  match command with
  | CmdStatus =>
      let '(c, status) := status_at io1 io2 io3 now_unix_millis c in
      (c, let? status := status in Ok (PayStatus status))
  | CmdOwnership =>
      (c, Err (CtlUnavailable "ownership registration requires an authenticated local socket"))
  | CmdHistory limit =>
      (c, guard? bool_decide (limit ≤ MAX_HISTORY_LIMIT)%N
            else CtlInvalidArgument ("history limit must not exceed " +:+ pretty MAX_HISTORY_LIMIT) in
          let? events := map_err from_store_error (history io1 limit (ctl_store c)) in
          Ok (PayHistory events))
  | CmdExplain incident => (c, let? detail := explained io1 incident c in Ok (PayIncident detail))
  | CmdPause duration_millis => handle_pause io1 duration_millis now_unix_millis c
  | CmdResume => handle_resume io1 c
  | CmdArm generation instance_id => handle_arm io1 generation instance_id now_unix_millis c
  | CmdDisarm generation instance_id => handle_disarm io1 generation instance_id now_unix_millis c
  | CmdBeginDrain generation instance_id =>
      handle_begin_drain io1 generation instance_id now_unix_millis c
  | CmdRetryFailedCleanup incident => handle_retry io1 incident now_unix_millis c
  | CmdProtectIncident incident => handle_protect io1 incident now_unix_millis c
  | CmdUnprotectIncident incident => handle_unprotect io1 incident c
  | CmdExportDiagnostics incident =>
      (c, let? incident := explained io1 incident c in
          let? status := control_status io2 io3 c in
          Ok (PayDiagnostics 1 now_unix_millis status incident))
  end.

(** ** Construction *)

Record RestoredControlState : Type := mkRestoredControlState {
  restored_pause : option N;
  restored_reclaim : option MostRecentReclaim;
  restored_attention : StoreAttentionProjection;
  restored_protection : ProtectionProjection;
  restored_recovery : option StorageRecoveryOccurrence;
  restored_revision : N;
}.

(** [RestoredControlState::load]; [io] is for each use of the store in turn. *)
Definition load_restored (directory : string) (io : nat → option StoreError) (db : database)
    (m : maintenance) : result RestoredControlState ControlError :=
  let? pause := map_err (restore_state_error "owner pause") (pause_until (io 0) db) in
  let? reclaim :=
    map_err (restore_state_error "most recent reclaim") (most_recent_reclaim (io 1) db) in
  let? attention :=
    map_err (restore_state_error "attention projection")
      (attention_projection (io 2) MAX_STATUS_ATTENTION_ITEMS db) in
  let? protection :=
    map_err (restore_state_error "protection projection")
      (protection_projection (io 3) MAX_STATUS_ATTENTION_ITEMS db) in
  let? recovery :=
    map_err (restore_state_error "storage recovery")
      (latest_storage_recovery directory (io 4) m) in
  let? revision :=
    map_err (restore_state_error "cleanup policy revision") (cleanup_policy_revision (io 5) db) in
  Ok (mkRestoredControlState pause reclaim attention protection recovery revision).

(** [ControlPlane::from_restored]; the counters are those of the process. *)
Definition from_restored (db : database) (m : maintenance) (epochs cycles : N)
    (s : DaemonStatus) (r : RestoredControlState) : ControlPlane :=
  let s :=
    s <| database_schema_version := SCHEMA_VERSION |>
      <| storage_recovery := storage_recovery_status <$> restored_recovery r |>
      <| paused_until_unix_millis := restored_pause r |>
      <| status_most_recent_reclaim := recent_reclaim <$> restored_reclaim r |> in
  let s := apply_attention_projection (restored_attention r) s in
  let s := apply_protection_projection (restored_protection r) s in
  mkControlPlane db m s false default_roster (restored_revision r) epochs cycles.

(** [ControlPlane::new]. *)
Definition new_control (directory : string) (io : nat → option StoreError) (epochs cycles : N)
    (db : database) (m : maintenance) (s : DaemonStatus) : result ControlPlane ControlError :=
  let? restored := load_restored directory io db m in
  Ok (from_restored db m epochs cycles s restored).

(** [ControlPlane::begin_managed]; [sequence] is [NEXT_INSTANCE_ID] and [wall_nanos] the
    wall clock. *)
Definition begin_managed (version directory : string) (io : nat → option StoreError)
    (epochs cycles sequence wall_nanos : N) (generation pid now_unix_millis : N) (db : database)
    (m : maintenance) : result ControlPlane ControlError :=
  let? restored := load_restored directory io db m in
  let instance_id := fresh_instance_id pid now_unix_millis sequence wall_nanos in
  let? booted :=
    map_err map_store_error (begin_managed_boot (io 6) generation instance_id now_unix_millis db) in
  let s := new_status version ReportOnly pid "" in
  let s := s <| managed := true |> <| status_instance_id := instance_id |> in
  let s := apply_managed_lifecycle booted.2 s in
  let s := s <| healthy := false |> <| ready := false |> <| startup_state := StateRecovering |> in
  Ok (from_restored booted.1 m epochs cycles s restored).
End Commands.
