(* ===== verification/ControlFacts.v ===== *)
(** ControlFacts: the control plane, verified.

    Every operation of [Control.v] keeps the status in step with the durable lifecycle
    of [LifecycleFacts.v], or shut: nothing is delivered on the status alone. *)

From S2P Require Import Prelude Text Model Fingerprint Artifact Evidence Cleanup Effects Executor.
From S2P Require Import Analyzer Decisions Cooling Names Store Journal JournalFacts DurableRun.
From S2P Require Import StoreSafety Lifecycle LifecycleFacts Protocol Mutations Observations Views.
From S2P Require Import Residue Maintenance Control.
From Stdlib Require Import Ascii.

(** ** Epochs *)

Lemma strip_zeros_cons c d s :
  strip_zeros (String c (String d s)) =
    if Ascii.eqb c "0" then strip_zeros (String d s) else String c (String d s).
Proof. done. Qed.

Lemma length_strip_zeros s : String.length (strip_zeros s) ≤ String.length s.
Proof.
  induction s as [|c [|d s] IH]; [done|done|]. rewrite strip_zeros_cons.
  destruct (Ascii.eqb c "0"); [|done].
  change (String.length (String c (String d s))) with (S (String.length (String d s))). lia.
Qed.

(** Texts of the same length are determined by what is left without their zeros. *)
Lemma strip_zeros_inj s t :
  String.length s = String.length t → strip_zeros s = strip_zeros t → s = t.
Proof.
  revert t. induction s as [|c s IH]; intros [|d t] Hlen H; [done..|].
  injection Hlen as Hlen. destruct s as [|c' s], t as [|d' t]; [done..|].
  rewrite !strip_zeros_cons in H.
  pose proof (length_strip_zeros (String c' s)). pose proof (length_strip_zeros (String d' t)).
  destruct (Ascii.eqb_spec c "0"), (Ascii.eqb_spec d "0").
  - subst. f_equal. by apply IH.
  - exfalso. apply (f_equal String.length) in H. simpl in *. lia.
  - exfalso. apply (f_equal String.length) in H. simpl in *. lia.
  - done.
Qed.

Lemma lower_hex_inj v w : (v < u64_bound)%N → (w < u64_bound)%N → lower_hex v = lower_hex w → v = w.
Proof.
  intros Hv Hw H%strip_zeros_inj; [|by rewrite !length_hex_fixed].
  apply hex_fixed_inj in H; [done|..]; (eapply N.lt_trans; [eassumption|done]).
Qed.

Lemma strip_zeros_bytes p s : all_bytes p s = true → all_bytes p (strip_zeros s) = true.
Proof.
  induction s as [|c [|d s] IH]; [done|done|]. rewrite strip_zeros_cons. intros H.
  destruct (Ascii.eqb c "0"); [|done]. apply IH. by apply andb_true_iff in H as [_ H].
Qed.

(** The text after the last occurrence of a byte. *)
Fixpoint after_last (c : ascii) (s : string) : option string :=
  match s with
  | EmptyString => None
  | String d s =>
      match after_last c s with
      | Some r => Some r
      | None => if Ascii.eqb d c then Some s else None
      end
  end.

Lemma after_last_app a c h :
  after_last c h = None → after_last c (a +:+ String c h) = Some h.
Proof.
  intros Hh. induction a as [|d a IH]; simpl.
  - by rewrite Hh, Ascii.eqb_refl.
  - by rewrite IH.
Qed.

Lemma after_last_none c s : all_bytes (λ d, negb (Ascii.eqb d c)) s = true → after_last c s = None.
Proof.
  induction s as [|d s IH]; simpl; [done|]. rewrite andb_true_iff. intros [Hd Hs].
  rewrite IH by done. by destruct (Ascii.eqb d c).
Qed.

Lemma lower_hex_dashless v : after_last "-" (lower_hex v) = None.
Proof.
  apply after_last_none, strip_zeros_bytes.
  eapply all_bytes_impl; [|apply hex_fixed_lower_hex].
  intros c. by destruct c as [[] [] [] [] [] [] [] []].
Qed.

Lemma append_assoc' a b c : a +:+ (b +:+ c) = (a +:+ b) +:+ c.
Proof.
  induction a as [|x a IH]; [done|].
  change (String x (a +:+ (b +:+ c)) = String x ((a +:+ b) +:+ c)). by rewrite IH.
Qed.

(** The epochs of different counter values differ, whatever the rest. *)
Lemma epoch_sequence g p i now n g' p' i' now' n' :
  (n < u64_bound)%N → (n' < u64_bound)%N →
  fresh_enforcement_epoch g p i now n = fresh_enforcement_epoch g' p' i' now' n' → n = n'.
Proof.
  intros Hn Hn' H. apply lower_hex_inj; [done..|].
  assert (∀ g p i now n, after_last "-" (fresh_enforcement_epoch g p i now n) = Some (lower_hex n))
    as Hlast.
  { clear. intros g p i now n. unfold fresh_enforcement_epoch.
    rewrite !append_assoc'. rewrite <-append_assoc'. apply after_last_app, lower_hex_dashless. }
  apply (f_equal (after_last "-")) in H. rewrite !Hlast in H. by injection H.
Qed.

(** The epoch was made by this process before its counter got there. *)
Definition issued (n : N) (epoch : string) : Prop :=
  ∃ g p i now k, (k < n)%N ∧ epoch = fresh_enforcement_epoch g p i now k.

(** ** The status and the durable lifecycle *)

(** The status shows the service. *)
Record mirrors (s : DaemonStatus) (g : N) (i : string) (v : service) : Prop := {
  mirrors_version : lifecycle_schema_version s ≠ 0%N;
  mirrors_managed : managed s = true;
  mirrors_generation : activation_generation s = Some g;
  mirrors_instance : status_instance_id s = i;
  mirrors_requested : requested_mode s = mode_of (requested v);
  mirrors_effective : status_effective_mode s = mode_of (enforcing v);
  mirrors_armed : armed_generation s = if enforcing v then Some g else None;
  mirrors_epoch : enforcement_epoch s = service_epoch v;
  mirrors_ready : ready s = service_ready v;
  mirrors_draining : status_draining s = drained v;
  mirrors_state : startup_state s = state_of_phase (service_phase v);
}.

(** The status is shut, whatever the durable lifecycle says. *)
Record is_shut (s : DaemonStatus) (g : N) (i : string) : Prop := {
  shut_version : lifecycle_schema_version s ≠ 0%N;
  shut_managed : managed s = true;
  shut_generation : activation_generation s = Some g;
  shut_instance : status_instance_id s = i;
  shut_effective : status_effective_mode s = ReportOnly;
  shut_epoch : enforcement_epoch s = None;
  shut_unhealthy : healthy s = false;
  shut_state : startup_state s = StateFailed;
}.

(** A managed daemon's status is in step with its row, or shut. *)
Definition tracks (c : ControlPlane) : Prop :=
  ∃ g i v at_, represents (ctl_store c) g i v at_ ∧
    (mirrors (ctl_status c) g i v ∨ is_shut (ctl_status c) g i).

(** The fields of the status that the lifecycle decides. *)
Definition same_authority (s s' : DaemonStatus) : Prop :=
  lifecycle_schema_version s' = lifecycle_schema_version s ∧
  managed s' = managed s ∧ status_instance_id s' = status_instance_id s ∧
  healthy s' = healthy s ∧ ready s' = ready s ∧ startup_state s' = startup_state s ∧
  requested_mode s' = requested_mode s ∧ status_effective_mode s' = status_effective_mode s ∧
  activation_generation s' = activation_generation s ∧
  armed_generation s' = armed_generation s ∧ enforcement_epoch s' = enforcement_epoch s ∧
  status_draining s' = status_draining s.

Lemma mirrors_same s s' g i v : same_authority s s' → mirrors s g i v → mirrors s' g i v.
Proof. intros (?&?&?&?&?&?&?&?&?&?&?&?) []. split; congruence. Qed.

Lemma shut_same s s' g i : same_authority s s' → is_shut s g i → is_shut s' g i.
Proof. intros (?&?&?&?&?&?&?&?&?&?&?&?) []. split; congruence. Qed.

(** A status that was given the lifecycle of a service shows it. *)
Lemma apply_mirrors s g i v at_ :
  lifecycle_schema_version s ≠ 0%N →
  mirrors (apply_managed_lifecycle (lifecycle_of g i v at_) s) g i v.
Proof.
  intros Hs. unfold apply_managed_lifecycle, set_effective_mode. split; simpl; try done;
    by destruct v.
Qed.

Lemma shut_is_shut s g i :
  lifecycle_schema_version s ≠ 0%N → managed s = true → activation_generation s = Some g →
  status_instance_id s = i → is_shut (shut s) g i.
Proof. intros. by split. Qed.

Lemma shut_reported s g i e :
  lifecycle_schema_version s ≠ 0%N → managed s = true → activation_generation s = Some g →
  status_instance_id s = i → is_shut ((shut s) <| last_error := e |>) g i.
Proof. intros. by split. Qed.

Lemma gate_mirrored s g i v epoch :
  mirrors s g i v → signal_gate_matches s epoch = bool_decide (service_epoch v = Some epoch).
Proof.
  intros []. unfold signal_gate_matches, effective_mode.
  rewrite (bool_decide_eq_false_2 (lifecycle_schema_version s = 0%N)) by done.
  rewrite mirrors_effective0, mirrors_managed0, mirrors_armed0, mirrors_epoch0, mirrors_ready0,
    mirrors_draining0, mirrors_generation0.
  destruct v; simpl; try done.
  rewrite (bool_decide_eq_true_2 (Some g = Some g)) by done. by case_bool_decide.
Qed.

Lemma gate_shut s g i epoch : is_shut s g i → signal_gate_matches s epoch = false.
Proof.
  intros []. unfold signal_gate_matches. rewrite shut_epoch0. simpl. by rewrite orb_true_r.
Qed.

(** ** What a step does *)

(** The epoch of the status after a step. *)
Definition epoch_step (c c' : ControlPlane) : Prop :=
  enforcement_epoch (ctl_status c') = enforcement_epoch (ctl_status c) ∨
  enforcement_epoch (ctl_status c') = None ∨
  (∃ g p i now, enforcement_epoch (ctl_status c') =
     Some (fresh_enforcement_epoch g p i now (next_enforcement_epoch c)) ∧
     next_enforcement_epoch c' = fetch_add (next_enforcement_epoch c)).

Definition advances (c c' : ControlPlane) : Prop :=
  tracks c' ∧ epoch_step c c' ∧
  (next_enforcement_epoch c' = next_enforcement_epoch c ∨
   next_enforcement_epoch c' = fetch_add (next_enforcement_epoch c)).

Lemma advances_quiet c c' :
  tracks c → same_authority (ctl_status c) (ctl_status c') →
  lifecycle (ctl_store c') = lifecycle (ctl_store c) →
  (next_enforcement_epoch c' = next_enforcement_epoch c ∨
   next_enforcement_epoch c' = fetch_add (next_enforcement_epoch c)) → advances c c'.
Proof.
  intros (g & i & v & at_ & [Hr Hg] & Hs) Hsame Hl Hn. split; [|split; [|done]].
  - exists g, i, v, at_. split; [split; [congruence|done]|].
    destruct Hs; [left; by eapply mirrors_same|right; by eapply shut_same].
  - left. by destruct Hsame as (?&?&?&?&?&?&?&?&?&?&?&?).
Qed.

Lemma advances_refl c : tracks c → advances c c.
Proof. intros H. apply advances_quiet; auto. by split_and!. Qed.

(** A call on the row succeeded: it was the transition of the machine. *)
Lemma call_answers io call g i now db db' l v at_ :
  represents db g i v at_ → run_call io call g i now db = Ok (db', l) →
  ∃ v' at', service_next call (bool_decide (is_Some (managed_arm_blocker db))) v = Some v' ∧
    l = lifecycle_of g i v' at' ∧ represents db' g i v' at'.
Proof.
  intros Hrep H. pose proof (run_call_Ok _ _ _ _ _ _ _ H) as (-> & Hvalid & _).
  pose proof (call_refines call db g i v at_ now Hrep Hvalid) as Href.
  destruct (service_next _ _ _) as [v'|].
  - destruct Href as (db2 & at' & H2 & Hrep' & _). rewrite H in H2. injection H2 as -> ->.
    by exists v', at'.
  - destruct Href as [message Href]. congruence.
Qed.

Lemma next_epoch call blocked v v' :
  service_next call blocked v = Some v' →
  service_epoch v' = None ∨
  (service_epoch v' = service_epoch v ∧ ∃ e, call = CallArm e) ∨
  ∃ e, (call = CallScanned e ∨ call = CallArm e) ∧ service_epoch v' = Some e.
Proof.
  destruct call as [| |e|e| | |], v; simpl; intros H; simplify_eq; auto;
    try (repeat case_match; simplify_eq; simpl; eauto 6).
Qed.

(** A step that made a call without a fresh epoch. *)
Lemma advances_applied c c' call g i v at_ blocked v' at' :
  represents (ctl_store c) g i v at_ → service_next call blocked v = Some v' →
  represents (ctl_store c') g i v' at' → mirrors (ctl_status c') g i v' →
  next_enforcement_epoch c' = next_enforcement_epoch c → (∀ e, call ≠ CallScanned e ∧ call ≠ CallArm e) →
  advances c c'.
Proof.
  intros Hrep Hnext Hrep' Hm Hn Hcall. split; [|split; [|by left]].
  - exists g, i, v', at'. by split; [|left].
  - right; left. rewrite (mirrors_epoch _ _ _ _ Hm).
    destruct (next_epoch _ _ _ _ Hnext) as [H|[[_ [e H]]|(e & [H|H] & _)]]; [done|..];
      by destruct (Hcall e).
Qed.

(** A step that shut the status. *)
Lemma advances_shut c c' g i v at_ :
  represents (ctl_store c') g i v at_ → is_shut (ctl_status c') g i →
  (next_enforcement_epoch c' = next_enforcement_epoch c ∨
   next_enforcement_epoch c' = fetch_add (next_enforcement_epoch c)) → advances c c'.
Proof.
  intros Hrep Hs Hn. split; [|split; [|done]].
  - exists g, i, v, at_. by split; [|right].
  - right; left. apply Hs.
Qed.

(** What a tracked status says of its daemon. *)
Lemma tracked_identity c g i v at_ :
  represents (ctl_store c) g i v at_ →
  mirrors (ctl_status c) g i v ∨ is_shut (ctl_status c) g i →
  lifecycle_schema_version (ctl_status c) ≠ 0%N ∧ managed (ctl_status c) = true ∧
  activation_generation (ctl_status c) = Some g ∧ status_instance_id (ctl_status c) = i.
Proof. intros _ [[]|[]]; split_and!; done. Qed.

Lemma managed_identity_Ok s g i x :
  managed s = true → activation_generation s = Some g → status_instance_id s = i →
  managed_identity s = Ok x → x = (g, i).
Proof.
  unfold managed_identity. intros -> -> <-. cbn [ok_or result_bind].
  by intros [_ [= <-]]%guard_Ok.
Qed.

Lemma locked_advances {A} c (k : DaemonStatus → ControlPlane * result A ControlError) :
  tracks c → (poisoned c = false → advances c (k (ctl_status c)).1) → advances c (locked c k).1.
Proof.
  intros Ht Hk. unfold locked. destruct (poisoned c); [by apply advances_refl|by apply Hk].
Qed.

(** ** The lifecycle operations *)

(** Reads the identity of a tracked daemon. *)
Ltac open_tracked Ht g i v at_ Hrep Hs :=
  destruct Ht as (g & i & v & at_ & Hrep & Hs);
  destruct (tracked_identity _ _ _ _ _ Hrep Hs) as (Hversion & Hmanaged & Hgen & Hinst).

Lemma mirrors_recovered s g i r n :
  mirrors s g i (Scanning r) →
  mirrors (s <| recovered_cleanup_attempts := n |> <| healthy := false |> <| ready := false |>
             <| startup_state := StateFirstScanReportOnly |>) g i (Scanning r).
Proof. intros []. split; simpl; assumption || reflexivity. Qed.

Lemma mirrors_report s g i v b e :
  mirrors s g i v → mirrors (s <| healthy := b |> <| last_error := e |>) g i v.
Proof. intros []. split; simpl; assumption || reflexivity. Qed.

Lemma mirrors_error s g i v e : mirrors s g i v → mirrors (s <| last_error := e |>) g i v.
Proof. intros []. split; simpl; assumption || reflexivity. Qed.

Lemma finish_startup_advances io n now c :
  tracks c → advances c (finish_startup_recovery io n now c).1.
Proof.
  intros Ht. apply locked_advances; [done|]. intros _. pose proof Ht as Ht0.
  open_tracked Ht g i v at_ Hrep Hs. rewrite Hmanaged. cbn [negb].
  destruct (managed_identity (ctl_status c)) as [[g' i']|e] eqn:Hid; [|by apply advances_refl].
  apply (managed_identity_Ok _ g i) in Hid as [= -> ->]; [|done..].
  destruct (finish_managed_recovery io g i now (ctl_store c)) as [[db l]|e] eqn:Hcall;
    [|by apply advances_refl].
  change (run_call io CallRecovered g i now (ctl_store c) = Ok (db, l)) in Hcall.
  destruct (call_answers _ _ _ _ _ _ _ _ _ _ Hrep Hcall) as (v' & at' & Hnext & -> & Hrep').
  eapply advances_applied; [exact Hrep|exact Hnext|exact Hrep'| |done|done].
  assert (∃ r, v' = Scanning r) as [r ->] by (destruct v; simpl in Hnext; simplify_eq; eauto).
  apply mirrors_recovered, apply_mirrors, Hversion.
Qed.

Lemma fail_and_keep_advances io g i v at_ now kept on_ok on_err c c0 :
  represents (ctl_store c) g i v at_ → managed (ctl_status c) = true →
  activation_generation (ctl_status c) = Some g → status_instance_id (ctl_status c) = i →
  lifecycle_schema_version (ctl_status c) ≠ 0%N → ctl_status c = ctl_status c0 →
  ctl_store c = ctl_store c0 →
  (next_enforcement_epoch c = next_enforcement_epoch c0 ∨
   next_enforcement_epoch c = fetch_add (next_enforcement_epoch c0)) →
  advances c0 (fail_and_keep io g i now kept on_ok on_err (ctl_status c) c).1.
Proof.
  intros Hrep Hm Hg Hi Hv Hst Hdb Hn. unfold fail_and_keep.
  destruct (fail_managed io g i now (ctl_store c)) as [[db l]|e] eqn:Hcall.
  - change (run_call io CallFail g i now (ctl_store c) = Ok (db, l)) in Hcall.
    destruct (call_answers _ _ _ _ _ _ _ _ _ _ Hrep Hcall) as (v' & at' & Hnext & -> & Hrep').
    pose proof (mirrors_report _ _ _ _ false kept (apply_mirrors (ctl_status c) g i v' at' Hv)) as Hmir.
    split; [|split; [|exact Hn]].
    + exists g, i, v', at'. split; [exact Hrep'|]. left. exact Hmir.
    + right; left. apply (eq_trans (mirrors_epoch _ _ _ _ Hmir)).
      destruct (next_epoch _ _ _ _ Hnext) as [H|[[_ [e H]]|(e & [H|H] & _)]]; [exact H|discriminate..].
  - eapply (advances_shut _ _ g i v at_); [exact Hrep| |done].
    by split.
Qed.

Lemma publish_mirrors s g i v :
  mirrors s g i v → status_draining s || ready s = true → mirrors (publish_readiness s) g i v.
Proof.
  intros [] H. unfold publish_readiness, effective_mode. split; simpl; try done.
  - by rewrite mirrors_managed0, orb_false_r.
  - rewrite (bool_decide_eq_false_2 (lifecycle_schema_version s = 0%N)) by done.
    rewrite mirrors_draining0, mirrors_ready0 in *. rewrite mirrors_effective0. by destruct v.
Qed.

Lemma scanned_ready e blocked v v' :
  service_next (CallScanned e) blocked v = Some v' → drained v' || service_ready v' = true.
Proof. destruct v as [|[] | | | | |], blocked; simpl; intros H; by simplify_eq. Qed.

Lemma complete_cycle_advances io io' now c :
  tracks c → advances c (complete_successful_cycle io io' now c).1.
Proof.
  intros Ht. apply locked_advances; [done|]. intros _. pose proof Ht as Ht0.
  open_tracked Ht g i v at_ Hrep Hs. rewrite Hmanaged. cbn [negb andb].
  case_bool_decide as Hfailed.
  { destruct (managed_identity (ctl_status c)) as [[g' i']|e] eqn:Hid; [|by apply advances_refl].
    apply (managed_identity_Ok _ g i) in Hid as [= -> ->]; [|done..].
    eapply fail_and_keep_advances; eauto. }
  destruct Hs as [Hs|Hs]; [|by destruct Hs].
  destruct (negb (status_draining (ctl_status c)) && negb (ready (ctl_status c))) eqn:Hunready.
  2:{ split; [|split; [by left|by left]]. exists g, i, v, at_. split; [done|]. left.
      apply publish_mirrors; [done|].
      destruct (status_draining (ctl_status c)), (ready (ctl_status c)); done. }
  destruct (managed_identity (ctl_status c)) as [[g' i']|e] eqn:Hid; [|by apply advances_refl].
  apply (managed_identity_Ok _ g i) in Hid as [= -> ->]; [|done..].
  case_bool_decide as Hscan; cbn [negb]; [|eapply fail_and_keep_advances; eauto].
  set (epoch := fresh_enforcement_epoch g (status_pid (ctl_status c)) i now
                  (next_enforcement_epoch c)).
  set (c1 := c <| next_enforcement_epoch ::= fetch_add |>).
  destruct (complete_managed_first_scan io g i epoch now (ctl_store c1)) as [[db l]|e] eqn:Hcall.
  2:{ eapply (fail_and_keep_advances _ _ _ _ _ _ _ _ _ c1 c); eauto. }
  change (run_call io (CallScanned epoch) g i now (ctl_store c) = Ok (db, l)) in Hcall.
  destruct (call_answers _ _ _ _ _ _ _ _ _ _ Hrep Hcall) as (v' & at' & Hnext & -> & Hrep').
  assert (mirrors (publish_readiness (apply_managed_lifecycle (lifecycle_of g i v' at') (ctl_status c)))
            g i v') as Hm.
  { apply publish_mirrors; [by apply apply_mirrors|].
    destruct (apply_mirrors (ctl_status c) g i v' at' Hversion).
    rewrite mirrors_draining0, mirrors_ready0. by eapply scanned_ready. }
  split; [|split; [|by right]].
  - exists g, i, v', at'. split; [exact Hrep'|by left].
  - unfold epoch_step. destruct Hm. simpl.
    destruct (next_epoch _ _ _ _ Hnext) as [H|[[_ [e H]]|(e & [[= <-]|H] & He)]]; [|done| |done].
    + right; left. simpl in mirrors_epoch0. congruence.
    + right; right. exists g, (status_pid (ctl_status c)), i, now. split; [|done].
      simpl in mirrors_epoch0. unfold epoch in He. congruence.
Qed.

Lemma fail_closed_advances caller io now message c :
  tracks c → advances c (fail_closed caller io now message c).1.
Proof.
  intros Ht. apply locked_advances; [done|]. intros _. pose proof Ht as Ht0.
  open_tracked Ht g i v at_ Hrep Hs.
  cbv zeta. set (s1 := record_first_failure _ _ _ _).
  assert (lifecycle_schema_version s1 ≠ 0%N ∧ managed s1 = true ∧ activation_generation s1 = Some g ∧
    status_instance_id s1 = i) as (Hv1 & Hm1 & Hg1 & Hi1).
  { unfold s1, record_first_failure. destruct (first_failure _); by split_and!. }
  clearbody s1. rewrite Hm1. destruct (managed_identity s1) as [[g' i']|e] eqn:Hid; cbn [result_bind].
  2:{ eapply (advances_shut _ _ g i v at_); [exact Hrep| |by left].
      exact (shut_reported s1 g i _ Hv1 Hm1 Hg1 Hi1). }
  apply (managed_identity_Ok _ g i) in Hid as [= -> ->]; [|done..]. cbn [fst snd].
  destruct (fail_managed io g i now (ctl_store c)) as [[db l]|e] eqn:Hcall; cbn [map_err result_bind].
  - change (run_call io CallFail g i now (ctl_store c) = Ok (db, l)) in Hcall.
    destruct (call_answers _ _ _ _ _ _ _ _ _ _ Hrep Hcall) as (v' & at' & Hnext & -> & Hrep').
    pose proof (apply_mirrors s1 g i v' at' Hv1) as [Hv2 Hm2 Hg2 Hi2 _ _ _ _ _ _ _].
    eapply (advances_shut _ _ g i v' at'); [exact Hrep'| |by left].
    exact (shut_reported _ g i _ Hv2 Hm2 Hg2 Hi2).
  - eapply (advances_shut _ _ g i v at_); [exact Hrep| |by left].
    exact (shut_reported s1 g i _ Hv1 Hm1 Hg1 Hi1).
Qed.

Lemma preserve_advances io now c : tracks c → advances c (control_preserve_restart_intent io now c).1.
Proof.
  intros Ht. apply locked_advances; [done|]. intros _. pose proof Ht as Ht0.
  open_tracked Ht g i v at_ Hrep Hs.
  destruct (managed_identity (ctl_status c)) as [[g' i']|e] eqn:Hid; [|by apply advances_refl].
  apply (managed_identity_Ok _ g i) in Hid as [= -> ->]; [|done..].
  destruct (preserve_managed_pre_ready_restart_intent io g i now (ctl_store c)) as [[db l]|e] eqn:Hcall;
    [|by apply advances_refl].
  change (run_call io CallPreserve g i now (ctl_store c) = Ok (db, l)) in Hcall.
  destruct (call_answers _ _ _ _ _ _ _ _ _ _ Hrep Hcall) as (v' & at' & Hnext & -> & Hrep').
  eapply advances_applied; [exact Hrep|exact Hnext|exact Hrep'| |done|done].
  by apply apply_mirrors.
Qed.

(** A transition that the owner asked for, of the exact daemon. *)
Lemma transition_advances io call after now c g i v at_ :
  represents (ctl_store c) g i v at_ → tracks c → lifecycle_schema_version (ctl_status c) ≠ 0%N →
  (∀ v' at', mirrors (after (apply_managed_lifecycle (lifecycle_of g i v' at') (ctl_status c))) g i v') →
  (∀ e, call ≠ CallScanned e ∧ call ≠ CallArm e) →
  advances c (handle_transition (run_call io call g i now) after (ctl_status c) c).1.
Proof.
  intros Hrep Ht Hv Hafter Hcall. unfold handle_transition.
  destruct (run_call io call g i now (ctl_store c)) as [[db l]|e] eqn:Hrun; [|by apply advances_refl].
  destruct (call_answers _ _ _ _ _ _ _ _ _ _ Hrep Hrun) as (v' & at' & Hnext & -> & Hrep').
  eapply advances_applied; [exact Hrep|exact Hnext|exact Hrep'|apply Hafter|done|exact Hcall].
Qed.

Lemma exact_identity s g i g' i' x :
  managed s = true → activation_generation s = Some g → status_instance_id s = i →
  require_exact_status_identity s g' i' = Ok x → g' = g ∧ i' = i.
Proof.
  intros Hm Hg Hi (y & Hy & H)%result_bind_Ok.
  apply (managed_identity_Ok _ g i) in Hy as ->; [|done..].
  apply guard_Ok in H as [H1%bool_decide_eq_true H]. apply guard_Ok in H as [H2%bool_decide_eq_true _].
  by simpl in *.
Qed.

Lemma disarm_advances io g' i' now c : tracks c → advances c (handle_disarm io g' i' now c).1.
Proof.
  intros Ht. apply locked_advances; [done|]. intros _. pose proof Ht as Ht0.
  open_tracked Ht g i v at_ Hrep Hs.
  destruct (require_exact_status_identity _ g' i') as [x|e] eqn:Hid; [|by apply advances_refl].
  apply (exact_identity _ g i) in Hid as [-> ->]; [|done..].
  case_bool_decide.
  - apply (transition_advances io CallFail _ now c g i v at_); [done..| |done].
    intros v' at'. apply mirrors_report. by apply apply_mirrors.
  - apply (transition_advances io CallDisarm _ now c g i v at_); [done..| |done].
    intros v' at'. apply mirrors_error. by apply apply_mirrors.
Qed.

Lemma drain_advances io g' i' now c : tracks c → advances c (handle_begin_drain io g' i' now c).1.
Proof.
  intros Ht. apply locked_advances; [done|]. intros _. pose proof Ht as Ht0.
  open_tracked Ht g i v at_ Hrep Hs.
  destruct (require_exact_status_identity _ g' i') as [x|e] eqn:Hid; [|by apply advances_refl].
  apply (exact_identity _ g i) in Hid as [-> ->]; [|done..].
  apply (transition_advances io CallDrain _ now c g i v at_); [done..| |done].
  intros v' at'. apply mirrors_report. by apply apply_mirrors.
Qed.

Lemma arm_advances io g' i' now c : tracks c → advances c (handle_arm io g' i' now c).1.
Proof.
  intros Ht. apply locked_advances; [done|]. intros _. pose proof Ht as Ht0.
  open_tracked Ht g i v at_ Hrep Hs.
  destruct (require_exact_status_identity _ g' i') as [x|e] eqn:Hid; [|by apply advances_refl].
  apply (exact_identity _ g i) in Hid as [-> ->]; [|done..].
  destruct (ready_to_arm g (ctl_status c)) eqn:Hready; cbn [negb]; [|by apply advances_refl].
  destruct Hs as [Hs|Hs].
  2:{ destruct Hs. unfold ready_to_arm in Hready. by rewrite shut_unhealthy0 in Hready. }
  set (epoch := fresh_enforcement_epoch g (status_pid (ctl_status c)) (status_instance_id (ctl_status c))
                  now (next_enforcement_epoch c)).
  set (c1 := c <| next_enforcement_epoch ::= fetch_add |>). unfold handle_transition.
  destruct (arm_managed io g i epoch now (ctl_store c1)) as [[db l]|e] eqn:Hcall.
  2:{ apply advances_quiet; [done|by split_and!|done|by right]. }
  change (run_call io (CallArm epoch) g i now (ctl_store c) = Ok (db, l)) in Hcall.
  destruct (call_answers _ _ _ _ _ _ _ _ _ _ Hrep Hcall) as (v' & at' & Hnext & -> & Hrep').
  pose proof (mirrors_report _ _ _ _ true None (apply_mirrors (ctl_status c) g i v' at' Hversion)) as Hm.
  split; [|split; [|by right]].
  - exists g, i, v', at'. split; [exact Hrep'|left; exact Hm].
  - destruct (next_epoch _ _ _ _ Hnext) as [H|[[H _]|(e & [H|[= <-]] & He)]]; [| |done|].
    + right; left. exact (eq_trans (mirrors_epoch _ _ _ _ Hm) H).
    + left. apply (eq_trans (mirrors_epoch _ _ _ _ Hm)). rewrite H. symmetry. apply Hs.
    + right; right. exists g, (status_pid (ctl_status c)), (status_instance_id (ctl_status c)), now.
      split; [|done]. exact (eq_trans (mirrors_epoch _ _ _ _ Hm) He).
Qed.
