(* ===== verification/ControlSafety.v ===== *)
(** ControlSafety: what the control plane of [ControlFacts.v] authorises.

    The steps of a managed daemon's control plane, from its boot, and what holds of
    every cleanup that the control plane lets through. *)

From S2P Require Import Prelude Text Model Fingerprint Artifact Evidence Cleanup Effects Executor.
From S2P Require Import Analyzer Decisions Cooling Names Store Journal JournalFacts DurableRun.
From S2P Require Import StoreSafety Lifecycle LifecycleFacts Protocol Mutations Observations Views.
From S2P Require Import Residue Maintenance Control ControlFacts.

(** ** The store's other tables *)

Section Frames.
Context `{JE : Json EventPayload}.

Lemma set_pause_lifecycle io p db db' :
  set_pause_until io p db = Ok db' → lifecycle db' = lifecycle db.
Proof.
  unfold set_pause_until. intros [_ H]%with_connection_Ok.
  destruct p; [inv_ok H|]; by injection H as <-.
Qed.

Lemma retry_lifecycle io incident now db db' b :
  authorize_retry io incident now db = Ok (db', b) → lifecycle db' = lifecycle db.
Proof.
  unfold authorize_retry. intros H. inv_ok H.
  destruct (retry_blocks db !! incident); by injection H as <- _.
Qed.

Lemma protect_lifecycle io incident now db db' o :
  protect_incident io incident now db = Ok (db', o) → lifecycle db' = lifecycle db.
Proof.
  unfold protect_incident. intros H. inv_ok H.
  destruct (latest_observation incident db); inv_ok H; by injection H as <- _.
Qed.

Lemma unprotect_lifecycle io incident db db' b :
  unprotect_incident io incident db = Ok (db', b) → lifecycle db' = lifecycle db.
Proof. unfold unprotect_incident. intros H. inv_ok H. by injection H as <- _. Qed.

Lemma applied_lifecycle m now db db' r :
  apply_ordinary_mutation m now db = Ok (db', r) → lifecycle db' = lifecycle db.
Proof.
  unfold apply_ordinary_mutation. intros H. inv_ok H.
  destruct m; inv_ok H; by injection H as <- _.
Qed.

Lemma decided_lifecycle rf m now db db' o b :
  decide_mutation rf m now db = Ok (db', o, b) → lifecycle db' = lifecycle db.
Proof.
  unfold decide_mutation. intros H. inv_ok H. destruct (evaluate_action _ _ _).
  - inv_ok H. destruct x0. apply applied_lifecycle in Hstep0. by injection H as <- _ _.
  - by injection H as <- _ _.
  - by injection H as <- _ _.
Qed.

Lemma commit_lifecycle `{JM : Json OrdinaryMutation, JR : Json MutationReceipt} io x m rf now
    db db' r :
  commit_public_ordinary_mutation io x m rf now db = Ok (db', r) → lifecycle db' = lifecycle db.
Proof.
  unfold commit_public_ordinary_mutation. intros H. inv_ok H.
  destruct (mutation_receipts db !! receipt_key x); inv_ok H; [by injection H as <- _|].
  match goal with Hd : decide_mutation _ _ _ _ = Ok ?d |- _ => destruct d as [[db1 o] b] end.
  inv_ok H.
  match goal with Hd : advance_revision _ _ = Ok ?d |- _ => destruct d as [db2 n] end.
  inv_ok H. injection H as <- _.
  match goal with
  | Hd : decide_mutation _ _ _ _ = _, Ha : advance_revision _ _ = _,
    Hi : insert_mutation_receipt _ _ _ = _ |- _ =>
      rewrite <-(decided_lifecycle _ _ _ _ _ _ _ Hd);
      unfold advance_revision in Ha; inv_ok Ha; unfold insert_mutation_receipt in Hi; inv_ok Hi;
      injection Hi as <-; destruct b; [inv_ok Ha|]; by injection Ha as <- _
  end.
Qed.

Lemma begin_attempt_lifecycle `{JR : Json CleanupResources, JP : Json (list N)} random io now
    report epoch db db' h :
  begin_cleanup_attempt random io now report epoch db = Ok (db', h) → lifecycle db' = lifecycle db.
Proof.
  unfold begin_cleanup_attempt. intros H. inv_ok H.
  destruct (open_incident db); [done|]. inv_ok H.
  match goal with Ht : table_insert _ _ _ _ = Ok ?d |- _ => destruct d as [t id] end. inv_ok H.
  injection H as <- _.
  match goal with He : insert_event_transaction _ _ _ _ _ _ _ _ = Ok ?d |- _ =>
    destruct d as [db2 e]; apply insert_event_frame in He as (_ & _ & Hl & _); exact Hl end.
Qed.
End Frames.

(** ** The operations that leave the authority alone *)

Lemma same_refl s : same_authority s s.
Proof. by split_and!. Qed.

Lemma same_trans s1 s2 s3 : same_authority s1 s2 → same_authority s2 s3 → same_authority s1 s3.
Proof.
  intros (?&?&?&?&?&?&?&?&?&?&?&?) (?&?&?&?&?&?&?&?&?&?&?&?). split_and!; etransitivity; eassumption.
Qed.

Lemma same_reclaimed s : same_authority s (refresh_cleanup_activity s).
Proof. by split_and!. Qed.

Lemma same_cancelled s : same_authority s (cancel_prompt_activities s).
Proof. by split_and!. Qed.

Lemma same_paused s p : same_authority s (s <| paused_until_unix_millis := p |>).
Proof. by split_and!. Qed.

Lemma same_storage s a : same_authority s (refresh_cleanup_activity (s <| storage_activity := a |>)).
Proof. by split_and!. Qed.

Lemma same_cache s a : same_authority s (refresh_cleanup_activity (s <| cache_activity := a |>)).
Proof. by split_and!. Qed.

Lemma same_process s a : same_authority s (refresh_cleanup_activity (s <| process_activity := a |>)).
Proof. by split_and!. Qed.

Lemma same_applied s r : same_authority s (apply_mutation_result r s).
Proof. destruct r; by split_and!. Qed.

Lemma same_bounded s :
  same_authority s (s <| last_error ::= fmap bounded_message |>).
Proof. by split_and!. Qed.

Lemma same_event_source s e : same_authority s (s <| last_event_source_error := e |>).
Proof. by split_and!. Qed.

(** A step that changed the status and tables other than the lifecycle. *)
Lemma quiet c s db c' :
  tracks c → same_authority (ctl_status c) s → lifecycle db = lifecycle (ctl_store c) →
  ctl_status c' = s → ctl_store c' = db →
  next_enforcement_epoch c' = next_enforcement_epoch c → advances c c'.
Proof.
  intros Ht Hs Hdb <- <- Hn. apply advances_quiet; [exact Ht|exact Hs|exact Hdb|by left].
Qed.

Lemma expire_advances io now c : tracks c → advances c (expire_pause io now c).1.
Proof.
  intros Ht. apply locked_advances; [exact Ht|]. intros _.
  destruct (paused_until_unix_millis _); [|by apply advances_refl].
  case_bool_decide; [|by apply advances_refl].
  destruct (set_pause_until io None (ctl_store c)) as [db|] eqn:Hp; [|by apply advances_refl].
  apply set_pause_lifecycle in Hp. eapply quiet; [exact Ht|apply same_paused|exact Hp|reflexivity..].
Qed.

Lemma advances_trans_quiet c c1 c2 :
  tracks c1 → advances c c1 → same_authority (ctl_status c1) (ctl_status c2) →
  lifecycle (ctl_store c2) = lifecycle (ctl_store c1) →
  next_enforcement_epoch c2 = next_enforcement_epoch c1 → advances c c2.
Proof.
  intros Ht1 (_ & He & Hn) Hs Hl Hn2.
  destruct (advances_quiet c1 c2 Ht1 Hs Hl (or_introl Hn2)) as (Ht2 & _ & _).
  assert (enforcement_epoch (ctl_status c2) = enforcement_epoch (ctl_status c1)) as E
    by (by destruct Hs as (?&?&?&?&?&?&?&?&?&?&?&?)).
  split; [exact Ht2|]. unfold epoch_step in *. rewrite E, Hn2. split; assumption.
Qed.

(** An operation that looks at the pause first. *)
Lemma expired_advances {A} io now (k : ControlPlane → ControlPlane * result A ControlError) c :
  tracks c →
  (∀ c1, tracks c1 → same_authority (ctl_status c1) (ctl_status (k c1).1) ∧
     lifecycle (ctl_store (k c1).1) = lifecycle (ctl_store c1) ∧
     next_enforcement_epoch (k c1).1 = next_enforcement_epoch c1) →
  advances c (match expire_pause io now c with
              | (c1, Err e) => (c1, Err e)
              | (c1, Ok _) => k c1
              end).1.
Proof.
  intros Ht Hk. pose proof (expire_advances io now c Ht) as Ha.
  destruct (expire_pause io now c) as [c1 [u|e]]; [|exact Ha]. simpl in Ha.
  pose proof Ha as (Ht1 & _). destruct (Hk c1 Ht1) as (Hs & Hl & Hn).
  eapply advances_trans_quiet; eauto.
Qed.

(** What the status or the maintenance store does under the lock. *)
Lemma locked_quiet {A} c (k : DaemonStatus → ControlPlane * result A ControlError) :
  (∀ s, s = ctl_status c → same_authority s (ctl_status (k s).1) ∧
     lifecycle (ctl_store (k s).1) = lifecycle (ctl_store c) ∧
     next_enforcement_epoch (k s).1 = next_enforcement_epoch c) →
  same_authority (ctl_status c) (ctl_status (locked c k).1) ∧
  lifecycle (ctl_store (locked c k).1) = lifecycle (ctl_store c) ∧
  next_enforcement_epoch (locked c k).1 = next_enforcement_epoch c.
Proof.
  intros Hk. unfold locked. destruct (poisoned c); [|by apply Hk]. split; [apply same_refl|done].
Qed.

(** The frame of the quiet operations. *)
Definition undisturbed (c c' : ControlPlane) : Prop :=
  same_authority (ctl_status c) (ctl_status c') ∧ lifecycle (ctl_store c') = lifecycle (ctl_store c) ∧
  next_enforcement_epoch c' = next_enforcement_epoch c.

Lemma undisturbed_refl c : undisturbed c c.
Proof. split; [apply same_refl|done]. Qed.

Lemma undisturbed_advances c c' : tracks c → undisturbed c c' → advances c c'.
Proof. intros Ht (Hs & Hl & Hn). apply advances_quiet; [exact Ht|exact Hs|exact Hl|by left]. Qed.

Lemma undisturbed_status c c' s :
  same_authority (ctl_status c) s → ctl_status c' = s → ctl_store c' = ctl_store c →
  next_enforcement_epoch c' = next_enforcement_epoch c → undisturbed c c'.
Proof. intros Hs <- Hd Hn. split; [exact Hs|]. by rewrite Hd. Qed.

Lemma undisturbed_store c c' s db :
  same_authority (ctl_status c) s → lifecycle db = lifecycle (ctl_store c) →
  ctl_status c' = s → ctl_store c' = db →
  next_enforcement_epoch c' = next_enforcement_epoch c → undisturbed c c'.
Proof. intros Hs Hl <- <- Hn. by split. Qed.

Lemma undisturbed_trans c1 c2 c3 : undisturbed c1 c2 → undisturbed c2 c3 → undisturbed c1 c3.
Proof.
  intros (Hs & Hl & Hn) (Hs' & Hl' & Hn'). split; [by eapply same_trans|]. split; congruence.
Qed.

Lemma update_quiet f c : (∀ s, same_authority s (f s)) → undisturbed c (update_status f c).1.
Proof.
  intros Hf. apply locked_quiet. intros s ->. cbv zeta.
  eapply undisturbed_status; [|reflexivity..].
  eapply same_trans; [apply Hf|]. eapply same_trans; [apply same_bounded|].
  destruct (last_event_source_error _); [apply same_event_source|apply same_refl].
Qed.

Lemma begin_cycle_quiet wall now c : undisturbed c (begin_observation_cycle wall now c).1.
Proof.
  unfold begin_observation_cycle.
  match goal with |- context [update_status ?f ?c1] =>
    assert (undisturbed c1 (update_status f c1).1) as H;
    [apply update_quiet|destruct (update_status f c1) as [c2 u]; simpl in *] end.
  - intros s. destruct (bool_decide _); by split_and!.
  - destruct H as (Hs & Hl & Hn). by split; [|split].
Qed.

Lemma publish_quiet token at_ reports complete c :
  undisturbed c (publish_roster token at_ reports complete c).1.
Proof.
  unfold publish_roster. destruct (negb _); [apply undisturbed_refl|].
  match goal with |- undisturbed _ (update_status ?f ?c1).1 =>
    assert (undisturbed c1 (update_status f c1).1) as H end.
  { apply update_quiet. intros s. by split_and!. }
  destruct H as (Hs & Hl & Hn). by split; [|split].
Qed.

Lemma finish_cycle_quiet token b c : undisturbed c (finish_observation_cycle token b c).
Proof.
  unfold finish_observation_cycle. cbv zeta. destruct (negb _); [apply undisturbed_refl|].
  eapply undisturbed_status; [apply same_refl|reflexivity..].
Qed.

Section Quiet.
Context `{JE : Json EventPayload, JM : Json OrdinaryMutation, JR : Json MutationReceipt}.

Lemma start_storage_quiet token io io' now facts c :
  tracks c → advances c (start_storage_cleanup_if_ready_enforce token io io' now facts c).1.
Proof.
  intros Ht. apply expired_advances; [exact Ht|]. clear c Ht. intros c _. apply locked_quiet.
  intros s ->. destruct (negb _); [apply undisturbed_refl|]. cbv zeta.
  destruct (begin_storage_cleanup_attempt _ _ _ _ _) as [[m p]|e]; [|apply undisturbed_refl].
  eapply undisturbed_status; [apply same_storage|reflexivity..].
Qed.

Lemma finish_storage_quiet p c : undisturbed c (finish_storage_action p c).1.
Proof.
  apply locked_quiet. intros s ->. cbv zeta. destruct (match _ with Some _ => _ | None => _ end);
    [apply undisturbed_refl|].
  eapply undisturbed_status; [apply same_storage|reflexivity..].
Qed.

Lemma storage_state_quiet io now c : tracks c → advances c (storage_cleanup_state_at io now c).1.
Proof.
  intros Ht. apply expired_advances; [exact Ht|]. clear c Ht. intros c _. apply locked_quiet.
  intros s ->. apply undisturbed_refl.
Qed.

Lemma start_cache_quiet `{JA : Json ToolCacheAvailability, JT : Json ToolCacheAttemptSummary,
      JN : Json NodeCompileCacheAttemptSummary} {T} token io io' now node
    (start : string → string → result T string) c :
  tracks c → advances c (start_cache_if_ready_enforce token io io' now node start c).1.
Proof.
  intros Ht. apply expired_advances; [exact Ht|]. clear c Ht. intros c _. apply locked_quiet.
  intros s ->. destruct (negb _); [apply undisturbed_refl|].
  destruct (if node then _ else _) as [[m p]|e]; [|apply undisturbed_refl]. cbv zeta.
  destruct (start _ _).
  - eapply undisturbed_status; [apply same_cache|reflexivity..].
  - eapply undisturbed_status; [apply same_refl|reflexivity..].
Qed.

Lemma finish_cache_quiet p c : undisturbed c (finish_tool_cache_action p c).1.
Proof.
  apply locked_quiet. intros s ->. cbv zeta. destruct (match _ with Some _ => _ | None => _ end);
    [apply undisturbed_refl|].
  eapply undisturbed_status; [apply same_cache|reflexivity..].
Qed.

Lemma begin_process_quiet token c : undisturbed c (begin_process_cleanup_activity token c).1.
Proof.
  apply locked_quiet. intros s ->. destruct (process_activity _); [apply undisturbed_refl|].
  eapply undisturbed_status; [apply same_process|reflexivity..].
Qed.

Lemma drop_process_quiet token c : undisturbed c (drop_process_cleanup_activity token c).
Proof.
  unfold drop_process_cleanup_activity. destruct (poisoned c); [apply undisturbed_refl|].
  case_bool_decide; [|apply undisturbed_refl].
  eapply undisturbed_status; [apply same_process|reflexivity..].
Qed.

Lemma begin_attempt_quiet `{JC : Json CleanupResources, JP : Json (list N)} random io now report
    epoch rev c : undisturbed c (begin_cleanup_attempt_if_armed random io now report epoch rev c).1.
Proof.
  apply locked_quiet. intros s ->. destruct (_ || _); [apply undisturbed_refl|].
  destruct (begin_cleanup_attempt _ _ _ _ _ _) as [[db h]|e] eqn:Hb; [|apply undisturbed_refl].
  apply begin_attempt_lifecycle in Hb.
  eapply undisturbed_store; [apply same_refl|exact Hb|reflexivity..].
Qed.

Lemma public_mutation_quiet io x m now c : undisturbed c (commit_public_mutation io x m now c).1.
Proof.
  apply locked_quiet. intros s ->.
  destruct (commit_public_ordinary_mutation _ _ _ _ _ _) as [[db r]|e] eqn:Hc;
    [|apply undisturbed_refl].
  apply commit_lifecycle in Hc. cbv zeta.
  destruct (negb _); [eapply undisturbed_store; [apply same_refl|exact Hc|reflexivity..]|].
  destruct (mr_outcome _);
    [eapply undisturbed_store; [apply same_applied|exact Hc|reflexivity..]|..];
    (eapply undisturbed_store; [apply same_refl|exact Hc|reflexivity..]).
Qed.

Lemma pause_quiet io d now c : undisturbed c (handle_pause io d now c).1.
Proof.
  unfold handle_pause. destruct (_ || _); [apply undisturbed_refl|].
  destruct (checked_add now d) as [deadline|]; [|apply undisturbed_refl].
  apply locked_quiet. intros s ->.
  destruct (set_pause_until _ _ _) as [db|] eqn:Hp; [|apply undisturbed_refl].
  apply set_pause_lifecycle in Hp.
  eapply undisturbed_store; [|exact Hp|reflexivity..].
  eapply same_trans; [apply same_paused|apply same_cancelled].
Qed.

Lemma resume_quiet io c : undisturbed c (handle_resume io c).1.
Proof.
  apply locked_quiet. intros s ->.
  destruct (set_pause_until _ _ _) as [db|] eqn:Hp; [|apply undisturbed_refl].
  apply set_pause_lifecycle in Hp. eapply undisturbed_store; [apply same_paused|exact Hp|reflexivity..].
Qed.

Lemma retry_quiet io incident now c : undisturbed c (handle_retry io incident now c).1.
Proof.
  unfold handle_retry. destruct (validate_incident_id incident); [|apply undisturbed_refl].
  apply locked_quiet. intros s ->.
  destruct (authorize_retry _ _ _ _) as [[db b]|] eqn:Hp; [|apply undisturbed_refl].
  apply retry_lifecycle in Hp. destruct b; [|apply undisturbed_refl].
  eapply undisturbed_store; [apply same_refl|exact Hp|reflexivity..].
Qed.

Lemma protect_quiet io incident now c : undisturbed c (handle_protect io incident now c).1.
Proof.
  unfold handle_protect. destruct (validate_incident_id incident); [|apply undisturbed_refl].
  apply locked_quiet. intros s ->.
  destruct (protect_incident _ _ _ _) as [[db o]|] eqn:Hp; [|apply undisturbed_refl].
  apply protect_lifecycle in Hp.
  destruct o; (eapply undisturbed_store; [apply same_refl|exact Hp|reflexivity..]).
Qed.

Lemma unprotect_quiet io incident c : undisturbed c (handle_unprotect io incident c).1.
Proof.
  unfold handle_unprotect. destruct (validate_incident_id incident); [|apply undisturbed_refl].
  apply locked_quiet. intros s ->.
  destruct (unprotect_incident _ _ _) as [[db b]|] eqn:Hp; [|apply undisturbed_refl].
  apply unprotect_lifecycle in Hp.
  destruct b; (eapply undisturbed_store; [apply same_refl|exact Hp|reflexivity..]).
Qed.
End Quiet.

(** ** The steps of a daemon *)

Section Steps.
Context `{JE : Json EventPayload, JM : Json OrdinaryMutation, JR : Json MutationReceipt}.
Context `{JC : Json CleanupResources, JP : Json (list N)}.
Context `{JA : Json ToolCacheAvailability, JT : Json ToolCacheAttemptSummary}.
Context `{JN : Json NodeCompileCacheAttemptSummary}.

(** One operation of the control plane of a running daemon, by whichever thread; the
    threads' other uses of the store leave the lifecycle to the control plane, and a
    panic between two operations poisons the lock. *)
Inductive ctl_step : ControlPlane → ControlPlane → Prop :=
| step_recovered io n now c : ctl_step c (finish_startup_recovery io n now c).1
| step_cycle_completed io io' now c : ctl_step c (complete_successful_cycle io io' now c).1
| step_fail_closed caller io now message c : ctl_step c (fail_closed caller io now message c).1
| step_preserve io now c : ctl_step c (control_preserve_restart_intent io now c).1
| step_command io1 io2 io3 command now c : ctl_step c (handle_at io1 io2 io3 command now c).1
| step_public io x m now c : ctl_step c (commit_public_mutation io x m now c).1
| step_update f c : (∀ s, same_authority s (f s)) → ctl_step c (update_status f c).1
| step_cycle_begun wall now c : ctl_step c (begin_observation_cycle wall now c).1
| step_published token at_ reports complete c :
    ctl_step c (publish_roster token at_ reports complete c).1
| step_cycle_finished token b c : ctl_step c (finish_observation_cycle token b c)
| step_expire io now c : ctl_step c (expire_pause io now c).1
| step_storage_started token io io' now facts c :
    ctl_step c (start_storage_cleanup_if_ready_enforce token io io' now facts c).1
| step_storage_finished p c : ctl_step c (finish_storage_action p c).1
| step_storage_state io now c : ctl_step c (storage_cleanup_state_at io now c).1
| step_cache_started {T} token io io' now node (start : string → string → result T string) c :
    ctl_step c (start_cache_if_ready_enforce token io io' now node start c).1
| step_cache_finished p c : ctl_step c (finish_tool_cache_action p c).1
| step_process_begun token c : ctl_step c (begin_process_cleanup_activity token c).1
| step_process_dropped token c : ctl_step c (drop_process_cleanup_activity token c)
| step_attempt random io now report epoch rev c :
    ctl_step c (begin_cleanup_attempt_if_armed random io now report epoch rev c).1
| step_store db c : lifecycle db = lifecycle (ctl_store c) → ctl_step c (c <| ctl_store := db |>)
| step_maintenance m c : ctl_step c (c <| ctl_maintenance := m |>)
| step_poison c : ctl_step c (c <| poisoned := true |>).

Lemma handle_advances io1 io2 io3 command now c :
  tracks c → advances c (handle_at io1 io2 io3 command now c).1.
Proof.
  intros Ht. destruct command; cbn [handle_at].
  - unfold status_at. pose proof (expire_advances io1 now c Ht) as H.
    destruct (expire_pause io1 now c) as [c1 [u|e]]; exact H.
  - by apply advances_refl.
  - by apply advances_refl.
  - by apply advances_refl.
  - apply undisturbed_advances; [exact Ht|apply pause_quiet].
  - apply undisturbed_advances; [exact Ht|apply resume_quiet].
  - by apply arm_advances.
  - by apply disarm_advances.
  - by apply drain_advances.
  - apply undisturbed_advances; [exact Ht|apply retry_quiet].
  - apply undisturbed_advances; [exact Ht|apply protect_quiet].
  - apply undisturbed_advances; [exact Ht|apply unprotect_quiet].
  - by apply advances_refl.
Qed.

Lemma step_advances c c' : tracks c → ctl_step c c' → advances c c'.
Proof.
  intros Ht Hstep. destruct Hstep.
  - by apply finish_startup_advances.
  - by apply complete_cycle_advances.
  - by apply fail_closed_advances.
  - by apply preserve_advances.
  - by apply handle_advances.
  - apply undisturbed_advances; [exact Ht|apply public_mutation_quiet].
  - apply undisturbed_advances; [exact Ht|by apply update_quiet].
  - apply undisturbed_advances; [exact Ht|apply begin_cycle_quiet].
  - apply undisturbed_advances; [exact Ht|apply publish_quiet].
  - apply undisturbed_advances; [exact Ht|apply finish_cycle_quiet].
  - by apply expire_advances.
  - by apply start_storage_quiet.
  - apply undisturbed_advances; [exact Ht|apply finish_storage_quiet].
  - by apply storage_state_quiet.
  - by apply start_cache_quiet.
  - apply undisturbed_advances; [exact Ht|apply finish_cache_quiet].
  - apply undisturbed_advances; [exact Ht|apply begin_process_quiet].
  - apply undisturbed_advances; [exact Ht|apply drop_process_quiet].
  - apply undisturbed_advances; [exact Ht|apply begin_attempt_quiet].
  - apply undisturbed_advances; [exact Ht|]. split; [apply same_refl|by split].
  - apply undisturbed_advances; [exact Ht|]. split; [apply same_refl|by split].
  - apply undisturbed_advances; [exact Ht|]. split; [apply same_refl|by split].
Qed.

Lemma steps_track c c' : rtc ctl_step c c' → tracks c → tracks c'.
Proof.
  induction 1 as [|c c1 c' Hstep _ IH]; [done|]. intros Ht. apply IH.
  by apply (step_advances c c1 Ht Hstep).
Qed.

(** ** Boot *)

Lemma mirrors_boot s g i carry :
  mirrors s g i (Starting carry) →
  mirrors (s <| healthy := false |> <| ready := false |> <| startup_state := StateRecovering |>)
    g i (Starting carry).
Proof. intros []. split; simpl; assumption || reflexivity. Qed.

Lemma restored_same db m epochs cycles s r :
  same_authority s (ctl_status (from_restored db m epochs cycles s r)).
Proof. by split_and!. Qed.

Lemma begin_managed_tracks version directory io epochs cycles sequence wall g pid now db m c :
  some_service db →
  begin_managed version directory io epochs cycles sequence wall g pid now db m = Ok c → tracks c.
Proof.
  intros Hdb H. unfold begin_managed in H. apply result_bind_Ok in H as (r & _ & H).
  apply result_bind_Ok in H as ([db1 l] & Hb & H). cbv zeta in H. injection H as <-.
  assert (begin_managed_boot (io 6) g (fresh_instance_id pid now sequence wall) now db = Ok (db1, l))
    as Hb' by (destruct (begin_managed_boot _ _ _ _ _) as [[]|]; [by injection Hb as -> ->|discriminate]).
  destruct (boot_represents _ _ _ _ _ _ _ Hb' Hdb) as (carry & at_ & Hrep & ->).
  exists g, (fresh_instance_id pid now sequence wall), (Starting carry), at_.
  split; [exact Hrep|left]. eapply mirrors_same; [apply restored_same|].
  apply mirrors_boot, apply_mirrors. discriminate.
Qed.
(** ** What is authorised *)

(** The control plane lets a cleanup of this epoch act: a signal or a removal at this
    policy revision, a removal of storage, or a prune of a cache. *)
Definition authorises (epoch : string) (revision : N) (storage : PreparedStorageCleanupAttempt)
    (cache : PreparedToolCacheAttempt) (c : ControlPlane) : bool :=
  delivers epoch revision c || storage_action_may_continue storage epoch c
  || tool_cache_action_may_continue cache epoch c.

(** The store itself holds the enforcing row of this daemon and this epoch. *)
Definition durably_enforcing (epoch : string) (c : ControlPlane) : Prop :=
  ∃ g at_, activation_generation (ctl_status c) = Some g ∧
    lifecycle (ctl_store c) =
      Some (row_of g (status_instance_id (ctl_status c)) (Enforcing epoch) at_).

(** What an attempt of the storage or the cache worker needs in order to go on: its activity,
    of its token and epoch, is registered and not cancelled, the other worker has none, and
    the daemon is ready, enforces under this epoch, is armed, and neither drains nor pauses. *)
Record goes_on (token epoch : string) (own other : option Activity) (c : ControlPlane) : Prop := {
  goes_on_sound : poisoned c = false;
  goes_on_owner : ∃ a, own = Some a ∧ activity_token a = token ∧ activity_epoch a = epoch ∧
    cancel_requested a = false;
  goes_on_alone : other = None;
  goes_on_ready : healthy (ctl_status c) = true ∧ ready (ctl_status c) = true ∧
    startup_state (ctl_status c) = StateReadyEnforce ∧ effective_mode (ctl_status c) = Enforce;
  goes_on_armed : enforcement_epoch (ctl_status c) = Some epoch ∧
    (managed (ctl_status c) = true → is_Some (activation_generation (ctl_status c)) ∧
       armed_generation (ctl_status c) = activation_generation (ctl_status c));
  goes_on_open : status_draining (ctl_status c) = false ∧
    paused_until_unix_millis (ctl_status c) = None;
}.

Lemma owns_activity token epoch activity :
  owns token epoch activity = true →
  ∃ a, activity = Some a ∧ activity_token a = token ∧ activity_epoch a = epoch ∧
    cancel_requested a = false.
Proof. destruct activity as [a|]; [|done]. unfold owns. intros H. bool_facts. by exists a. Qed.

Lemma open_gate_facts storage token epoch own c :
  poisoned c = false → owns token epoch own = true →
  storage_cleanup_gate_open (without_activity storage (ctl_status c)) = true →
  enforcement_epoch (ctl_status c) = Some epoch →
  goes_on token epoch own
    (if storage then cache_activity (ctl_status c) else storage_activity (ctl_status c)) c.
Proof.
  intros Hp Ho%owns_activity Hg He. unfold storage_cleanup_gate_open in Hg.
  rewrite !andb_true_iff, !negb_true_iff, !bool_decide_eq_true in Hg.
  destruct Hg as [[[[[[[[[H1 H2] H3] H4] H5] H6] H7] H8] H9] H10].
  assert (Hother : (if storage then cache_activity (ctl_status c) else storage_activity (ctl_status c)) = None).
  { destruct storage; cbn in H9; by destruct (cache_activity (ctl_status c)), (storage_activity (ctl_status c)). }
  destruct storage; (split; [done|done|done|done| |done]); (split; [done|]); intros Hm;
    cbn in H6; rewrite Hm in H6; simpl in H6; bool_facts; done.
Qed.

Lemma storage_goes_on prepared epoch c :
  storage_action_may_continue prepared epoch c = true →
  goes_on (psa_attempt_token prepared) epoch (storage_activity (ctl_status c))
    (cache_activity (ctl_status c)) c.
Proof.
  unfold storage_action_may_continue.
  intros [[[Hp%negb_true_iff Ho]%andb_true_iff Hg]%andb_true_iff He%bool_decide_eq_true]%andb_true_iff.
  by apply (open_gate_facts true).
Qed.

Lemma cache_goes_on prepared epoch c :
  tool_cache_action_may_continue prepared epoch c = true →
  goes_on (pca_token prepared) epoch (cache_activity (ctl_status c))
    (storage_activity (ctl_status c)) c.
Proof.
  unfold tool_cache_action_may_continue.
  intros [[[Hp%negb_true_iff Ho]%andb_true_iff Hg]%andb_true_iff He%bool_decide_eq_true]%andb_true_iff.
  by apply (open_gate_facts false).
Qed.

Lemma authorised_epoch epoch revision storage cache c :
  authorises epoch revision storage cache c = true → enforcement_epoch (ctl_status c) = Some epoch.
Proof.
  unfold authorises. rewrite !orb_true_iff. intros [[H|H]|H].
  - unfold delivers in H. apply andb_true_iff in H as [[_ H]%andb_true_iff _].
    unfold signal_gate_matches in H.
    destruct (bool_decide (enforcement_epoch _ = Some epoch)) eqn:E;
      [by apply bool_decide_eq_true in E|]. by rewrite orb_true_r in H.
  - unfold storage_action_may_continue in H. apply andb_true_iff in H as [_ H].
    by apply bool_decide_eq_true in H.
  - unfold tool_cache_action_may_continue in H. apply andb_true_iff in H as [_ H].
    by apply bool_decide_eq_true in H.
Qed.

Lemma tracked_epoch c epoch :
  tracks c → enforcement_epoch (ctl_status c) = Some epoch → durably_enforcing epoch c.
Proof.
  intros (g & i & v & at_ & [Hrep _] & [Hm|Hm]) He; [|by rewrite (shut_epoch _ _ _ Hm) in He].
  rewrite (mirrors_epoch _ _ _ _ Hm) in He. exists g, at_. split; [apply Hm|].
  rewrite Hrep, (mirrors_instance _ _ _ _ Hm). by destruct v; simplify_eq/=.
Qed.

(** [C23] Nothing is cleaned on the status alone. Boot a managed daemon on any database its
    lifecycle left behind and run it through any operations of its control plane, by the
    engine, the owner's commands and the caches, with the store failing where it fails:
    whenever the control plane lets a signal, a removal of storage or a prune of a cache
    of an epoch through, the durable row is the enforcing one of this very generation,
    instance and epoch. *)
Theorem cleanups_are_durably_armed version directory io epochs cycles sequence wall g pid now db m
    c0 c epoch revision storage cache :
  lifecycle_history db →
  begin_managed version directory io epochs cycles sequence wall g pid now db m = Ok c0 →
  rtc ctl_step c0 c → authorises epoch revision storage cache c = true →
  durably_enforcing epoch c.
Proof.
  intros Hh%history_service Hb Hsteps Ha%authorised_epoch.
  apply tracked_epoch; [|done]. eapply steps_track; [exact Hsteps|].
  eapply begin_managed_tracks; [exact Hh|exact Hb].
Qed.

(** ** Revocation *)

(** An operation that takes the authority away: a fail-close, also one the store refused
    to record, or a disarm or drain that was answered. *)
Inductive revokes : ControlPlane → ControlPlane → Prop :=
| revoked_closed caller io now message c :
    poisoned c = false → revokes c (fail_closed caller io now message c).1
| revoked_disarmed io g i now payload c c' :
    handle_disarm io g i now c = (c', Ok payload) → revokes c c'
| revoked_drained io g i now payload c c' :
    handle_begin_drain io g i now c = (c', Ok payload) → revokes c c'.

Lemma closed_epoch caller io now message c :
  poisoned c = false → enforcement_epoch (ctl_status (fail_closed caller io now message c).1) = None.
Proof.
  intros Hp. unfold fail_closed, locked. rewrite Hp. cbv zeta.
  destruct (match _ with Ok _ => _ | Err _ => _ end). reflexivity.
Qed.

(** An answered transition: the machine's, shown by the status. *)
Lemma transition_epoch io call g i now after c c' payload g0 i0 v at_ :
  represents (ctl_store c) g0 i0 v at_ →
  (∀ s, enforcement_epoch (after s) = enforcement_epoch s) → call = CallDisarm ∨ call = CallDrain ∨ call = CallFail →
  handle_transition (run_call io call g i now) after (ctl_status c) c = (c', Ok payload) →
  enforcement_epoch (ctl_status c') = None.
Proof.
  intros Hrep Hafter Hcall. unfold handle_transition.
  destruct (run_call io call g i now (ctl_store c)) as [[db l]|e] eqn:Hrun; [|discriminate].
  intros [= <- _].
  destruct (decide ((g, i) = (g0, i0))) as [[= -> ->]|Hne].
  - destruct (call_answers _ _ _ _ _ _ _ _ _ _ Hrep Hrun) as (v' & at' & Hnext & -> & _).
    apply (eq_trans (Hafter _)). change (service_epoch v' = None).
    destruct Hcall as [-> |[-> | ->]], v; simpl in Hnext; by simplify_eq.
  - destruct (other_instance_refused io call _ _ _ _ _ _ _ now Hrep Hne). rewrite Hrun. by eexists.
Qed.

Lemma revokes_advances c c' :
  tracks c → revokes c c' → advances c c' ∧ enforcement_epoch (ctl_status c') = None.
Proof.
  intros Ht Hr. pose proof Ht as (g0 & i0 & v & at_ & Hrep & _).
  destruct Hr as [caller io now message c Hp|io g i now payload c c' H|io g i now payload c c' H].
  - split; [by apply fail_closed_advances|by apply closed_epoch].
  - split; [pose proof (disarm_advances io g i now c Ht) as Ha; by rewrite H in Ha|].
    unfold handle_disarm, locked in H. destruct (poisoned c); [discriminate|].
    destruct (require_exact_status_identity _ _ _); [|discriminate].
    case_bool_decide.
    + eapply (transition_epoch io CallFail); [exact Hrep| |by auto|exact H]. done.
    + eapply (transition_epoch io CallDisarm); [exact Hrep| |by auto|exact H]. done.
  - split; [pose proof (drain_advances io g i now c Ht) as Ha; by rewrite H in Ha|].
    unfold handle_begin_drain, locked in H. destruct (poisoned c); [discriminate|].
    destruct (require_exact_status_identity _ _ _); [|discriminate].
    eapply (transition_epoch io CallDrain); [exact Hrep| |by auto|exact H]. done.
Qed.

(** Only epochs made since the counter stood at [n0] are in the status. *)
Definition renewed (n0 : N) (c : ControlPlane) : Prop :=
  tracks c ∧ (n0 ≤ next_enforcement_epoch c)%N ∧
  ∀ e, enforcement_epoch (ctl_status c) = Some e →
    ∃ g p i now k, (n0 ≤ k < next_enforcement_epoch c)%N ∧ e = fresh_enforcement_epoch g p i now k.

Lemma fetch_add_small n : (n + 1 < u64_bound)%N → fetch_add n = (n + 1)%N.
Proof. intros H. unfold fetch_add, wrapping_add. by rewrite N.mod_small. Qed.

Lemma renewed_step n0 c c' :
  (next_enforcement_epoch c + 1 < u64_bound)%N → renewed n0 c → advances c c' →
  renewed n0 c' ∧ (next_enforcement_epoch c' ≤ next_enforcement_epoch c + 1)%N.
Proof.
  intros Hb (Ht & Hn & He) (Ht' & Hstep & Hn').
  rewrite (fetch_add_small _ Hb) in Hn'.
  assert (next_enforcement_epoch c ≤ next_enforcement_epoch c' ≤ next_enforcement_epoch c + 1)%N
    as Hle by (destruct Hn' as [-> | ->]; lia).
  split; [|lia]. split; [done|split; [lia|]]. intros e E.
  destruct Hstep as [Hs|[Hs|(g & p & i & now & Hs & Hf)]]; rewrite Hs in E.
  - destruct (He e E) as (g & p & i & now & k & Hk & ->). exists g, p, i, now, k. split; [lia|done].
  - discriminate.
  - injection E as <-. rewrite (fetch_add_small _ Hb) in Hf.
    exists g, p, i, now, (next_enforcement_epoch c). split; [lia|done].
Qed.

Lemma renewed_steps n0 n c c' :
  nsteps ctl_step n c c' → (next_enforcement_epoch c + N.of_nat n < u64_bound)%N → renewed n0 c →
  renewed n0 c' ∧ (next_enforcement_epoch c' < u64_bound)%N.
Proof.
  induction 1 as [c|n c c1 c' Hstep _ IH]; intros Hb Hr; [split; [done|lia]|].
  pose proof Hr as (Ht & _).
  destruct (renewed_step n0 c c1 ltac:(lia) Hr (step_advances _ _ Ht Hstep)) as [Hr1 H1].
  apply IH; [lia|done].
Qed.

(** [C24] A revoked authority does not come back. Once a managed daemon failed closed, even
    if the store could not record it, or was disarmed or drained, nothing frozen under an
    epoch of before is let through again, whatever happens after, arming included: every
    later epoch has a number of its own, as long as the process has not issued [2^64]. *)
Theorem revoked_epochs_stay_revoked version directory io epochs cycles sequence wall g pid now db m
    c0 c1 c2 c3 n epoch revision storage cache :
  lifecycle_history db →
  begin_managed version directory io epochs cycles sequence wall g pid now db m = Ok c0 →
  rtc ctl_step c0 c1 → revokes c1 c2 → nsteps ctl_step n c2 c3 →
  (next_enforcement_epoch c2 + N.of_nat n < u64_bound)%N → issued (next_enforcement_epoch c2) epoch →
  authorises epoch revision storage cache c3 = false.
Proof.
  intros Hh%history_service Hboot Hsteps Hrevoked Hlater Hbound (g' & p & i & at_ & k & Hk & ->).
  assert (tracks c1) as Ht1.
  { eapply steps_track; [exact Hsteps|]. eapply begin_managed_tracks; [exact Hh|exact Hboot]. }
  destruct (revokes_advances _ _ Ht1 Hrevoked) as ((Ht2 & _) & Hnone).
  destruct (renewed_steps (next_enforcement_epoch c2) _ _ _ Hlater Hbound) as ((_ & _ & He) & Hb3).
  { split; [done|]. split; [done|]. rewrite Hnone. discriminate. }
  apply not_true_iff_false. intros H%authorised_epoch.
  destruct (He _ H) as (? & ? & ? & ? & k' & Hk' & E).
  apply epoch_sequence in E; [lia|lia|lia].
Qed.
End Steps.

(** ** The owner's commands *)

Section Owner.
Context `{JE : Json EventPayload, JM : Json OrdinaryMutation, JR : Json MutationReceipt}.
Context `{JC : Json CleanupResources, JP : Json (list N), JA : Json ToolCacheAvailability}.
Context `{JT : Json ToolCacheAttemptSummary}.
Context `{JN : Json NodeCompileCacheAttemptSummary}.

(** The commands that change the cleanup policy. *)
Definition policy_command (command : IpcCommand) : bool :=
  match command with
  | CmdPause _ | CmdResume | CmdRetryFailedCleanup _ | CmdProtectIncident _
  | CmdUnprotectIncident _ => true
  | _ => false
  end.

(** The step leaves the policy revision or counts it up by one. *)
Definition revises (c c' : ControlPlane) : Prop :=
  ctl_revision c' = ctl_revision c ∨ ctl_revision c' = fetch_add (ctl_revision c).

Ltac keeps_revision :=
  unfold revises, handle_transition, fail_and_keep, update_status in *;
  unfold locked, set_status, bump_revision in *;
  simpl; repeat (case_match; simpl in * ); simplify_eq; simpl in *; auto.

Lemma expire_revises io now c : revises c (expire_pause io now c).1.
Proof. unfold expire_pause. keeps_revision. Qed.

Lemma update_revises f c : revises c (update_status f c).1.
Proof. keeps_revision. Qed.

Lemma handle_revises io1 io2 io3 command now c : revises c (handle_at io1 io2 io3 command now c).1.
Proof.
  destruct command; cbn [handle_at]; try (by left).
  - unfold status_at. pose proof (expire_revises io1 now c) as H.
    by destruct (expire_pause io1 now c) as [c1 [u|e]].
  - unfold handle_pause. keeps_revision.
  - unfold handle_resume. keeps_revision.
  - unfold handle_arm. keeps_revision.
  - unfold handle_disarm. keeps_revision.
  - unfold handle_begin_drain. keeps_revision.
  - unfold handle_retry. keeps_revision.
  - unfold handle_protect. keeps_revision.
  - unfold handle_unprotect. keeps_revision.
Qed.

(** Only a public mutation installs another revision than the next. *)
Lemma step_revises c c' :
  ctl_step c c' → (∃ io x m now, c' = (commit_public_mutation io x m now c).1) ∨ revises c c'.
Proof.
  intros H. destruct H; try (by right; left).
  6:{ left. eauto. }
  all: right.
  - unfold finish_startup_recovery. keeps_revision.
  - unfold complete_successful_cycle. keeps_revision.
  - left. unfold fail_closed. keeps_revision.
  - unfold control_preserve_restart_intent. keeps_revision.
  - apply handle_revises.
  - apply update_revises.
  - unfold begin_observation_cycle. keeps_revision.
  - unfold publish_roster. keeps_revision.
  - unfold finish_observation_cycle. keeps_revision.
  - apply expire_revises.
  - unfold start_storage_cleanup_if_ready_enforce. pose proof (expire_revises io now c) as H.
    destruct (expire_pause io now c) as [c1 [u|e]]; [|exact H]. revert H. keeps_revision.
  - unfold finish_storage_action. keeps_revision.
  - unfold storage_cleanup_state_at. pose proof (expire_revises io now c) as H.
    destruct (expire_pause io now c) as [c1 [u|e]]; [|exact H]. revert H. keeps_revision.
  - unfold start_cache_if_ready_enforce. pose proof (expire_revises io now c) as H.
    destruct (expire_pause io now c) as [c1 [u|e]]; [|exact H]. revert H. keeps_revision.
  - unfold finish_tool_cache_action. keeps_revision.
  - unfold begin_process_cleanup_activity. keeps_revision.
  - unfold drop_process_cleanup_activity. keeps_revision.
  - unfold begin_cleanup_attempt_if_armed. keeps_revision.
Qed.
(** A step that is no public mutation, or one that leaves the policy revision as it was. *)
Definition unrevised_publicly (c c' : ControlPlane) : Prop :=
  ctl_step c c' ∧
  ∀ io x m now, c' = (commit_public_mutation io x m now c).1 → ctl_revision c' = ctl_revision c.

Lemma fetch_add_mod n k : fetch_add ((n + k) mod u64_bound) = ((n + (k + 1)) mod u64_bound)%N.
Proof.
  unfold fetch_add, wrapping_add. rewrite N.Div0.add_mod_idemp_l. f_equal. lia.
Qed.

Lemma mod_shifted n k : (0 < k < u64_bound)%N → ((n + k) mod u64_bound)%N ≠ n.
Proof.
  intros Hk E. pose proof (N.mod_lt (n + k) u64_bound ltac:(discriminate)) as Hn. rewrite E in Hn.
  destruct (decide (n + k < u64_bound)%N) as [H|H].
  - rewrite N.mod_small in E by done. lia.
  - assert (n + k = (n + k - u64_bound) + 1 * u64_bound)%N as Heq by lia.
    rewrite Heq, N.Div0.mod_add, N.mod_small in E by lia. lia.
Qed.

(** The revision comes round only after [2^64] steps. *)
Lemma steps_revision n c c' r k :
  nsteps unrevised_publicly n c c' → ctl_revision c = ((r + k) mod u64_bound)%N →
  ∃ j, (k ≤ j ≤ k + N.of_nat n)%N ∧ ctl_revision c' = ((r + j) mod u64_bound)%N.
Proof.
  intros H. revert k. induction H as [c|n c c1 c' [Hs Hp] _ IH]; intros k Hr.
  { exists k. split; [lia|done]. }
  destruct (step_revises _ _ Hs) as [(io & x & m & now & E)|[E|E]].
  - destruct (IH k) as (j & Hj & Hj'); [by rewrite (Hp _ _ _ _ E)|]. exists j. split; [lia|done].
  - destruct (IH k) as (j & Hj & Hj'); [by rewrite E|]. exists j. split; [lia|done].
  - destruct (IH (k + 1)%N) as (j & Hj & Hj'); [by rewrite E, Hr, fetch_add_mod|].
    exists j. split; [lia|done].
Qed.

Lemma locked_Ok {A} c (k : DaemonStatus → ControlPlane * result A ControlError) c' a :
  locked c k = (c', Ok a) → k (ctl_status c) = (c', Ok a).
Proof. unfold locked. by destruct (poisoned c). Qed.

Lemma policy_command_revision io1 io2 io3 command now c c' payload :
  policy_command command = true → handle_at io1 io2 io3 command now c = (c', Ok payload) →
  ctl_revision c' = fetch_add (ctl_revision c).
Proof.
  intros Hp H. destruct command; try discriminate Hp; cbn [handle_at] in H.
  - unfold handle_pause in H. destruct (_ || _); [discriminate|].
    destruct (checked_add now _); [|discriminate]. apply locked_Ok in H.
    destruct (set_pause_until _ _ _); [|discriminate]. by injection H as <- _.
  - apply locked_Ok in H. destruct (set_pause_until _ _ _); [|discriminate]. by injection H as <- _.
  - unfold handle_retry in H. destruct (validate_incident_id _); [|discriminate].
    apply locked_Ok in H. destruct (authorize_retry _ _ _ _) as [[db []]|]; [|discriminate..].
    by injection H as <- _.
  - unfold handle_protect in H. destruct (validate_incident_id _); [|discriminate].
    apply locked_Ok in H. destruct (protect_incident _ _ _ _) as [[db [x|]]|]; [|discriminate..].
    by injection H as <- _.
  - unfold handle_unprotect in H. destruct (validate_incident_id _); [|discriminate].
    apply locked_Ok in H. destruct (unprotect_incident _ _ _) as [[db []]|]; [|discriminate..].
    by injection H as <- _.
Qed.

Lemma pause_stops io d now c c' payload :
  handle_pause io d now c = (c', Ok payload) →
  is_Some (paused_until_unix_millis (ctl_status c')) ∧
  ∀ a, storage_activity (ctl_status c') = Some a ∨ cache_activity (ctl_status c') = Some a →
    cancel_requested a = true.
Proof.
  unfold handle_pause. destruct (_ || _); [discriminate|].
  destruct (checked_add now d) as [deadline|]; [|discriminate]. intros H%locked_Ok.
  destruct (set_pause_until _ _ _); [|discriminate]. injection H as <- _. split; [by eexists|].
  intros a. cbn. by intros [(a0 & _ & ->)%fmap_Some|(a0 & _ & ->)%fmap_Some].
Qed.

Lemma paused_gate s deadline :
  paused_until_unix_millis s = Some deadline → storage_cleanup_gate_open s = false.
Proof. intros H. unfold storage_cleanup_gate_open. rewrite H. by rewrite andb_false_r. Qed.

(** [C25] An owner's command stops the cleanups in flight. When the daemon has answered a
    pause, a resume, a retry or a change of a protection, a process cleanup that was
    frozen at the policy revision of before delivers nothing more and finds its gate
    closed, whatever the daemon's threads and its owner do then, up to [2^64] steps, unless
    a public mutation sets the revision back. After a pause the activities of the storage
    and the cache worker are cancelled, and none of the two may continue while a pause
    stands. *)
Theorem owner_commands_stop_cleanups io1 io2 io3 command now c c' payload epoch storage cache :
  policy_command command = true → handle_at io1 io2 io3 command now c = (c', Ok payload) →
  (∀ n later, nsteps unrevised_publicly n c' later → (N.of_nat n < u64_bound - 1)%N →
     delivers epoch (ctl_revision c) later = false ∧
     action_gate_closed epoch (ctl_revision c) later = true) ∧
  ((∃ duration, command = CmdPause duration) →
     is_Some (paused_until_unix_millis (ctl_status c')) ∧
     (∀ a, storage_activity (ctl_status c') = Some a ∨ cache_activity (ctl_status c') = Some a →
        cancel_requested a = true) ∧
     ∀ later, rtc ctl_step c' later → is_Some (paused_until_unix_millis (ctl_status later)) →
       storage_action_may_continue storage epoch later = false ∧
       tool_cache_action_may_continue cache epoch later = false).
Proof.
  intros Hp H. split.
  - intros n later Hsteps Hn. pose proof (policy_command_revision _ _ _ _ _ _ _ _ Hp H) as Hrev.
    destruct (steps_revision n c' later (ctl_revision c) 1 Hsteps Hrev) as (j & Hj & E).
    assert (bool_decide (ctl_revision later = ctl_revision c) = false) as Hne.
    { apply bool_decide_eq_false_2. rewrite E. apply mod_shifted. lia. }
    split; [unfold delivers; by rewrite Hne, andb_false_r|].
    unfold action_gate_closed. by rewrite Hne, orb_true_r.
  - intros [duration ->]. cbn [handle_at] in H. apply pause_stops in H as [Hd Ha].
    split; [done|]. split; [done|]. intros later _ [deadline Hl].
    unfold storage_action_may_continue, tool_cache_action_may_continue.
    rewrite !(paused_gate (without_activity _ (ctl_status later)) deadline) by exact Hl.
    by rewrite !andb_false_r.
Qed.

Lemma applied_revision m now db db' r :
  apply_ordinary_mutation m now db = Ok (db', r) → policy_revision db' = policy_revision db.
Proof.
  unfold apply_ordinary_mutation. intros H. inv_ok H.
  destruct m; inv_ok H; by injection H as <- _.
Qed.

Lemma advanced_revision (changed : bool) db db' n :
  advance_revision changed db = Ok (db', n) →
  (0 ≤ policy_revision db)%Z ∧ policy_revision db' = Z.of_N n ∧
  Z.of_N n = (policy_revision db + Z.b2z changed)%Z.
Proof.
  unfold advance_revision, cleanup_policy_revision_connection, u64_or_corrupt, u64_try_from.
  intros (current & Hc & H)%result_bind_Ok.
  case_bool_decide as Hn; [|discriminate Hc]. injection Hc as <-.
  destruct changed; [|injection H as <- <-; simpl; lia].
  apply result_bind_Ok in H as (next & Hnext%ok_or_Ok & H).
  apply result_bind_Ok in H as (stored & [-> _]%sqlite_millis_Ok & [= <- <-]).
  unfold checked_add in Hnext. case_bool_decide; [injection Hnext as <-|done]. simpl. lia.
Qed.

(** A commit that changed something counts the store's policy revision up. *)
Lemma commit_counts io x m rf now db db' commit :
  commit_public_ordinary_mutation io x m rf now db = Ok (db', commit) →
  state_changed commit = true →
  policy_revision db' = Z.of_N (mr_policy_revision_after (commit_receipt commit)) ∧
  policy_revision db' = (policy_revision db + 1)%Z.
Proof.
  unfold commit_public_ordinary_mutation. intros H Hch. inv_ok H.
  destruct (mutation_receipts db !! receipt_key x); inv_ok H; [by injection H as _ <-|].
  match goal with Hd : decide_mutation _ _ _ _ = Ok ?d |- _ => destruct d as [[db1 o] b] end.
  inv_ok H.
  match goal with Hd : advance_revision _ _ = Ok ?d |- _ => destruct d as [db2 n] end.
  inv_ok H. injection H as <- <-. simpl in Hch. subst b.
  match goal with
  | Hd : decide_mutation _ _ _ _ = _, Ha : advance_revision _ _ = _,
    Hi : insert_mutation_receipt _ _ _ = _ |- _ =>
      destruct (advanced_revision _ _ _ _ Ha) as (_ & H1 & H2);
      unfold insert_mutation_receipt in Hi; inv_ok Hi; injection Hi as <-;
      unfold decide_mutation in Hd; inv_ok Hd
  end.
  simpl in *.
  destruct (evaluate_action _ _ _); [|discriminate..].
  match goal with
  | Hd : context [apply_ordinary_mutation] |- _ => inv_ok Hd; injection Hd as <- _
  end.
  match goal with
  | Hm : apply_ordinary_mutation _ _ _ = Ok ?y |- _ =>
      destruct y; apply applied_revision in Hm; simpl in *; rewrite H1; split; [done|lia]
  end.
Qed.

(** [C37] A public mutation stops the cleanups in flight by the store's count of the policy
    revisions. After a commit was answered, a process cleanup that could deliver before
    goes on delivering exactly if the revision of the receipt is the one it was frozen at,
    and otherwise finds its gate closed. For a mutation that changed something, a pause
    included, that is exactly if the revision in memory was ahead of the store's count by
    one, as an owner's command leaves it: only while the two agree does every applied
    mutation stop every cleanup. *)
Theorem public_mutations_stop_by_the_stored_count io x m now c c' commit epoch r :
  commit_public_mutation io x m now c = (c', Ok commit) → delivers epoch r c = true →
  ctl_revision c = r ∧
  delivers epoch r c' = bool_decide (mr_policy_revision_after (commit_receipt commit) = r) ∧
  action_gate_closed epoch r c' = negb (delivers epoch r c') ∧
  (state_changed commit = true →
     policy_revision (ctl_store c') = (policy_revision (ctl_store c) + 1)%Z ∧
     delivers epoch r c' =
       bool_decide (Z.of_N (ctl_revision c) = policy_revision (ctl_store c) + 1)%Z).
Proof.
  intros H%locked_Ok Hd. unfold delivers in Hd. rewrite !andb_true_iff in Hd.
  destruct Hd as [[Hp%negb_true_iff Hs] Hr%bool_decide_eq_true].
  destruct (commit_public_ordinary_mutation _ _ _ _ _ _) as [[db k]|] eqn:Hc; [|discriminate H].
  assert (commit = k ∧ poisoned c' = false ∧ signal_gate_matches (ctl_status c') epoch = true ∧
    ctl_store c' = db ∧ ctl_revision c' = mr_policy_revision_after (commit_receipt k))
    as (-> & Hp' & Hs' & Hdb & Hr').
  { cbv zeta in H. destruct (negb (state_changed k)); [by injection H as <- <-|].
    destruct (mr_outcome _) as [result| |]; [|discriminate H..]. injection H as <- <-.
    split_and!; try done. simpl. by destruct result. }
  assert (delivers epoch r c' = bool_decide (mr_policy_revision_after (commit_receipt k) = r)) as Hd'.
  { unfold delivers. by rewrite Hp', Hs', Hr'. }
  split; [done|]. split; [done|]. split.
  { unfold action_gate_closed, delivers. rewrite Hp', Hs'. done. }
  intros Hch. destruct (commit_counts _ _ _ _ _ _ _ _ Hc Hch) as [H1 H2]. rewrite Hdb.
  split; [done|]. rewrite Hd', Hr. apply bool_decide_ext. rewrite H1 in H2. lia.
Qed.
End Owner.
