(* ===== verification/DurableExamples.v ===== *)
(** DurableExamples: the store and the lifecycle on concrete databases.

    A JSON codec made from countable encodings, an event-token source, and the
    example machine of [ExecutorGuarantees.v] run on the durable journal: an attempt
    opened, executed and completed, and one interrupted and recovered. The theorems
    of [StoreSafety.v], [DurableCleanup.v] and [LifecycleFacts.v] are applied to them. *)

From S2P Require Import Prelude Text Model Fingerprint Artifact Evidence Cleanup Effects Executor.
From S2P Require Import ExecutorSafety ExecutorGuarantees Analyzer Cooling Names Store Journal.
From S2P Require Import JournalFacts DurableRun StoreSafety DurableCleanup Lifecycle LifecycleFacts.
From Stdlib Require Import Ascii.

(** ** A JSON codec

    A prefix code: a value is written before what follows it and read back from it. *)

#[local] Obligation Tactic := idtac.

Class Wire (A : Type) : Type := {
  put : A → string → string;
  get : string → option (A * string);
  get_put : ∀ a s, get (put a s) = Some (a, s);
  put_length : ∀ a s s', String.length s ≤ String.length s' →
    String.length (put a s) ≤ String.length (put a s');
}.

Fixpoint put_positive (p : positive) (s : string) : string :=
  match p with
  | xH => String "," s
  | xO p => String "0" (put_positive p s)
  | xI p => String "1" (put_positive p s)
  end.

Fixpoint get_positive (s : string) : option (positive * string) :=
  match s with
  | EmptyString => None
  | String c s =>
      if Ascii.eqb c "," then Some (1%positive, s)
      else prod_map (if Ascii.eqb c "1" then xI else xO) id <$> get_positive s
  end.

#[export] Program Instance positive_wire : Wire positive :=
  {| put := put_positive; get := get_positive |}.
Next Obligation. intros p s. induction p as [p IH|p IH|]; simpl; by rewrite ?IH. Qed.
Next Obligation. intros p s s' Hs. induction p; simpl; lia. Qed.

Fixpoint put_string (t s : string) : string :=
  match t with
  | EmptyString => String "." s
  | String c t => String "'" (String c (put_string t s))
  end.

Fixpoint get_string (s : string) : option (string * string) :=
  match s with
  | String q s1 =>
      if Ascii.eqb q "." then Some ("", s1)
      else match s1 with
           | String c s2 => prod_map (String c) id <$> get_string s2
           | EmptyString => None
           end
  | EmptyString => None
  end.

#[export] Program Instance string_wire : Wire string := {| put := put_string; get := get_string |}.
Next Obligation. intros t s. induction t as [|c t IH]; simpl; by rewrite ?IH. Qed.
Next Obligation. intros t s s' Hs. induction t; simpl; lia. Qed.

(** A value written as another. *)
Program Definition wire_via {A B} `{!Wire B} (f : A → B) (g : B → A)
    (cancel : ∀ a, g (f a) = a) : Wire A := {|
  put a := put (f a);
  get s := prod_map g id <$> get s;
|}.
Next Obligation. intros A B W f g cancel a s. simpl. rewrite get_put. simpl. by rewrite cancel. Qed.
Next Obligation. intros A B W f g cancel a s s' Hs. simpl. by apply put_length. Qed.

#[export] Program Instance N_wire : Wire N := wire_via N.succ_pos Pos.pred_N _.
Next Obligation. intros n. simpl. destruct n; simpl; [done|]. apply Pos.pred_N_succ. Qed.

Definition get_pair {A B} `{!Wire A, !Wire B} (s : string) : option (A * B * string) :=
  '(a, s) ← get s; '(b, s) ← get s; Some (a, b, s).

#[export] Program Instance pair_wire {A B} `{!Wire A, !Wire B} : Wire (A * B) := {|
  put p s := put p.1 (put p.2 s);
  get := get_pair;
|}.
Next Obligation. intros A B WA WB [a b] s. unfold get_pair. rewrite get_put. simpl. by rewrite get_put. Qed.
Next Obligation. intros A B WA WB [a b] s s' Hs. simpl. by apply put_length, put_length. Qed.

Fixpoint get_many {A} `{!Wire A} (n : nat) (s : string) : option (list A * string) :=
  match n with
  | O => Some ([], s)
  | S n => '(a, s) ← get s; '(l, s) ← get_many n s; Some (a :: l, s)
  end.

Definition get_list {A} `{!Wire A} (s : string) : option (list A * string) :=
  '(n, s) ← get s; get_many (N.to_nat n) s.

#[export] Program Instance list_wire {A} `{!Wire A} : Wire (list A) := {|
  put l s := put (N.of_nat (length l)) (foldr put s l);
  get := get_list;
|}.
Next Obligation.
  intros A W l s. unfold get_list. rewrite get_put. cbn [mbind option_bind]. rewrite Nat2N.id.
  induction l as [|a l IH]; [done|]. simpl. rewrite get_put. simpl. by rewrite IH.
Qed.
Next Obligation.
  intros A W l s s' Hs. apply put_length. induction l; simpl; [done|]. by apply put_length.
Qed.

#[export] Program Instance option_wire {A} `{!Wire A} : Wire (option A) :=
  wire_via (λ o, match o with Some a => [a] | None => [] end) head _.
Next Obligation. by intros A W [a|]. Qed.

#[export] Program Instance bool_wire : Wire bool :=
  wire_via (λ b : bool, if b then 1%N else 0%N) (λ n, bool_decide (n = 1%N)) _.
Next Obligation. by intros []. Qed.

(** Enumerations, by the position of a value. *)
Program Definition enum_wire {A} `{EqDecision A} (all : list A) (a0 : A)
    (complete : ∀ a, default a0 (all !! default 0 (fst <$> list_find (eq a) all)) = a) : Wire A :=
  wire_via (λ a, N.of_nat (default 0 (fst <$> list_find (eq a) all)))
    (λ n, default a0 (all !! N.to_nat n)) _.
Next Obligation. intros A ED all a0 complete a. simpl. by rewrite Nat2N.id. Qed.

#[export] Program Instance family_wire : Wire EvidenceFamily :=
  enum_wire [AutomationProvenance; Abandonment; Isolation; Protection] Protection _.
Next Obligation. by intros []. Qed.

#[export] Program Instance incident_state_wire : Wire IncidentState :=
  enum_wire [Protected; Active; Cooling; Confirmed; Ambiguous; Reclaiming; Cleared; Revived;
                  Failed] Failed _.
Next Obligation. by intros []. Qed.

#[export] Program Instance stage_wire : Wire CleanupStage :=
  enum_wire [PrimaryTerm; MemberTerm; ExactKill] ExactKill _.
Next Obligation. by intros []. Qed.

#[export] Program Instance signal_wire : Wire CleanupSignal :=
  enum_wire [Term; Kill] Kill _.
Next Obligation. by intros []. Qed.

#[export] Program Instance disposition_wire : Wire SignalDisposition :=
  enum_wire [Delivered; AlreadyExited; IdentityMismatch; Rejected; CancelledBeforeDelivery;
                  DeliveryUnknown] Rejected _.
Next Obligation. by intros []. Qed.

#[export] Program Instance kind_wire : Wire RuntimeArtifactKind :=
  enum_wire [DevToolsActivePort] DevToolsActivePort _.
Next Obligation. by intros []. Qed.

#[export] Program Instance artifact_disposition_wire : Wire ArtifactDisposition :=
  enum_wire [Removed; AlreadyAbsent; ArtIdentityMismatch; Referenced; Unsafe; ArtRejected;
                  ArtCancelledBeforeDelivery; ArtDeliveryUnknown] Unsafe _.
Next Obligation. by intros []. Qed.

#[export] Program Instance evidence_wire : Wire EvidenceItem :=
  wire_via (λ e, (ev_id e, ev_family e, ev_source_pid e))
    (λ '(i, f, p), mkEvidenceItem i f p) _.
Next Obligation. by intros []. Qed.

#[export] Program Instance gates_wire : Wire GateLedger :=
  wire_via (λ g, (same_user g, strong_automation_provenance g, confirmed_abandonment g,
      isolated_session g, stable_across_two_observations g, process_identity_unchanged g,
      no_protection_rule g))
    (λ '(a, b, c, d, e, f, g), mkGateLedger a b c d e f g) _.
Next Obligation. by intros []. Qed.

#[export] Program Instance root_wire : Wire RootSummary :=
  wire_via (λ r, (root_pid r, root_started_at_unix_micros r, root_executable_basename r,
      root_identity_fingerprint r)) (λ '(a, b, c, d), mkRootSummary a b c d) _.
Next Obligation. by intros []. Qed.

#[export] Program Instance role_wire : Wire ProcessRole :=
  enum_wire all_roles IncidentMember _.
Next Obligation. by intros []. Qed.

#[export] Program Instance role_count_wire : Wire ProcessRoleCount :=
  wire_via (λ r, (counted_role r, role_count r)) (λ '(a, b), mkProcessRoleCount a b) _.
Next Obligation. by intros []. Qed.

#[export] Program Instance action_wire : Wire CleanupAction :=
  wire_via (λ a, (action_stage a, action_pid a, action_identity_fingerprint a,
      action_signal a, action_disposition a)) (λ '(a, b, c, d, e), mkCleanupAction a b c d e) _.
Next Obligation. by intros []. Qed.

#[export] Program Instance artifact_action_wire : Wire ArtifactAction :=
  wire_via (λ a, (act_kind a, act_artifact_fingerprint a, act_disposition a))
    (λ '(a, b, c), mkArtifactAction a b c) _.
Next Obligation. by intros []. Qed.

#[export] Program Instance resource_snapshot_wire : Wire ResourceSnapshot :=
  wire_via (λ r, (rs_process_count r, rs_resident_memory_bytes r))
    (λ '(a, b), mkResourceSnapshot a b) _.
Next Obligation. by intros []. Qed.

#[export] Program Instance resources_wire : Wire CleanupResources :=
  wire_via (λ r, (before r, after r, estimated_reclaimed_memory_bytes r))
    (λ '(a, b, c), mkCleanupResources a b c) _.
Next Obligation. by intros []. Qed.

#[export] Program Instance receipt_wire : Wire CleanupReceipt :=
  wire_via (λ r, (receipt_incident_id r, receipt_state r, reason_id r, actions r,
      artifact_actions r, survivor_pids r, revival_checks_completed r, resources r))
    (λ '(a, b, c, d, e, f, g, h), mkCleanupReceipt a b c d e f g h) _.
Next Obligation. by intros []. Qed.

#[export] Program Instance observation_wire : Wire ObservationRecord :=
  wire_via (λ r, (obs_incident_id r, obs_signature_pack r, obs_signature_version r,
      obs_state r, obs_root r, obs_member_count r, obs_resident_memory_bytes r,
      obs_member_fingerprint r, obs_roles r, obs_evidence r, obs_gates r))
    (λ '(a, b, c, d, e, f, g, h, i, j, k), mkObservationRecord a b c d e f g h i j k) _.
Next Obligation. by intros []. Qed.

Definition put_payload (p : EventPayload) (s : string) : string :=
  match p with
  | PayloadObservation r => put true (put r s)
  | PayloadCleanup r => put false (put r s)
  end.

Definition get_payload (s : string) : option (EventPayload * string) :=
  '(b, s) ← get s;
  if b : bool then prod_map PayloadObservation id <$> get s
  else prod_map PayloadCleanup id <$> get s.

#[export] Program Instance payload_wire : Wire EventPayload :=
  {| put := put_payload; get := get_payload |}.
Next Obligation.
  intros [r|r] s; unfold get_payload, put_payload; rewrite get_put; cbn [mbind option_bind];
    by rewrite get_put.
Qed.
Next Obligation. intros [r|r] s s' Hs; unfold put_payload; by apply put_length, put_length. Qed.

(** A value as a whole text. *)
Definition wire_json {A} `{!Wire A} : Json A := {|
  json_to_string a := put a "";
  json_from_str s := match get s with Some (a, _) => Ok a | None => Err "not a value" end;
|}.

#[export] Instance payload_json : Json EventPayload := wire_json.

#[export] Instance pids_json : Json (list N) := wire_json.

(** The estimate of the resources comes last, and only if there is one. *)
#[export] Instance resources_json_example : Json CleanupResources := {|
  json_to_string r :=
    put (before r, after r)
      match estimated_reclaimed_memory_bytes r with Some n => put n "" | None => "" end;
  json_from_str s :=
    match get s with
    | Some (b, a, rest) =>
        match get rest with
        | Some (n, _) => Ok (mkCleanupResources b a (Some n))
        | None => Ok (mkCleanupResources b a None)
        end
    | None => Err "not a value"
    end;
|}.

#[export] Instance payload_round_trip : JsonRoundTrip EventPayload.
Proof.
  intros p. unfold json_from_str, json_to_string. cbn [payload_json wire_json].
  by rewrite get_put.
Qed.

#[export] Instance resources_round_trip : JsonRoundTrip CleanupResources.
Proof.
  intros [b a e]. unfold json_from_str, json_to_string. cbn [resources_json_example before after
    estimated_reclaimed_memory_bytes]. rewrite get_put.
  destruct e as [n|]; [by rewrite get_put|done].
Qed.

(** A resource text does not grow when its estimate is dropped. *)
Lemma resources_shrink (r : CleanupResources) :
  String.length (json_to_string (mkCleanupResources (before r) (after r) None)) ≤
  String.length (json_to_string r).
Proof.
  unfold json_to_string. cbn [resources_json_example before after
    estimated_reclaimed_memory_bytes].
  destruct (estimated_reclaimed_memory_bytes r) as [n|]; [|done].
  apply put_length. simpl. lia.
Qed.

(** ** An attempt on the durable journal *)

(** Thirty-two digits that end in the event. *)
Definition example_random : token_source := λ event, pretty (10 ^ 31 + event)%Z.

Definition durable_report : IncidentReport :=
  mkIncidentReport "incident" "tracking" "session" "pack" "1" Confirmed
    (mkRootSummary 10 7 "node" "root") 2 4096 "members" [] []
    (mkGateLedger true true true true true true true) default_compatibility [] [].

Definition durable_begin : result (database * CleanupAttemptHandle) StoreError :=
  begin_cleanup_attempt example_random None 1000 durable_report "epoch" (new_database "namespace").

Definition begun_database : database :=
  match durable_begin with Ok (db, _) => db | Err _ => new_database "namespace" end.

Definition begun_handle : CleanupAttemptHandle :=
  match durable_begin with Ok (_, h) => h | Err _ => mkCleanupAttemptHandle 0 "" end.

Lemma durable_begins :
  begin_cleanup_attempt example_random None 1000 durable_report "epoch" (new_database "namespace") =
    Ok (begun_database, begun_handle).
Proof. vm_compute. reflexivity. Qed.

(** The example machine, with its journal in the database. *)
Definition durable_handle (X : Type) (e : CleanupE X) (w : machine * journal_state) :
    machine * journal_state * X :=
  let '(m, s) := w in
  match e in CleanupE X return machine * journal_state * X with
  | PrepareAction i at_ =>
      match journal_prepare_action None i at_ s with
      | Ok (s', key) => (m, s', Ok key)
      | Err f => (m, s, Err f)
      end
  | CompleteAction id d at_ =>
      match journal_complete_action None id d at_ s with
      | Ok s' => (m, s', Ok tt)
      | Err f => (m, s, Err f)
      end
  | PrepareArtifactAction i at_ =>
      match journal_prepare_artifact_action None i at_ s with
      | Ok (s', key) => (m, s', Ok key)
      | Err f => (m, s, Err f)
      end
  | CompleteArtifactAction id d at_ =>
      match journal_complete_artifact_action None id d at_ s with
      | Ok s' => (m, s', Ok tt)
      | Err f => (m, s, Err f)
      end
  | e => let '(m', x) := machine_handle _ e m in (m', s, x)
  end.

Lemma durable_answers X (e : CleanupE X) m s :
  journal_answers s (Obs e (durable_handle X e (m, s)).2) (durable_handle X e (m, s)).1.2.
Proof.
  destruct e; unfold journal_answers, durable_handle; cbn beta iota zeta;
    try (destruct (machine_handle _ _ _); reflexivity); exists None.
  - by destruct (journal_prepare_action _ _ _ _) as [[s' key]|].
  - by destruct (journal_complete_action _ _ _ _ _).
  - by destruct (journal_prepare_artifact_action _ _ _ _) as [[s' key]|].
  - by destruct (journal_complete_artifact_action _ _ _ _ _).
Qed.

Lemma durable_journalled {A} (p : prog CleanupE A) attempt m s :
  journalled attempt s (run durable_handle p (m, s)).1.2 (run durable_handle p (m, s)).1.1.2.
Proof.
  revert m s. induction p as [a|X e k IH]; intros m s; [constructor|]. cbn [run].
  pose proof (durable_answers X e m s) as Ha.
  destruct (durable_handle X e (m, s)) as [[m' s'] x]. cbn [fst snd] in *.
  specialize (IH x m' s').
  destruct (run durable_handle (k x) (m', s')) as [[w tr] a]. cbn [fst snd] in *.
  by eapply journalled_event.
Qed.

(** The execution of the example plan, and its completion. *)
Definition durable_run :
    machine * journal_state * list (obs CleanupE) * result CleanupReceipt CleanupError :=
  run durable_handle (execute Trusting example_plan example_policy)
    (example_machine, (journal_for begun_handle, begun_database)).

Abbreviation durable_receipt := (execution_receipt durable_run.2).

Definition executed_database : database := durable_run.1.1.2.2.

Definition durable_completion : result (database * CleanupReceipt) StoreError :=
  complete_cleanup_attempt example_random None begun_handle 90000 durable_receipt
    executed_database.

Definition completed_database : database :=
  match durable_completion with Ok (db, _) => db | Err _ => begun_database end.

Definition persisted_receipt : CleanupReceipt :=
  match durable_completion with Ok (_, r) => r | Err _ => durable_receipt end.

Lemma durable_completes :
  complete_cleanup_attempt example_random None begun_handle 90000 durable_receipt
    executed_database = Ok (completed_database, persisted_receipt).
Proof. vm_compute. reflexivity. Qed.

Lemma durable_handle_wf X (e : CleanupE X) m s :
  store_wf s.2 → store_wf (durable_handle X e (m, s)).1.2.2.
Proof.
  destruct s as [j db]. intros Hwf. destruct e; unfold durable_handle;
    try (destruct (machine_handle _ _ _); exact Hwf).
  - destruct (journal_prepare_action _ _ _ _) as [[[j' db'] key]|] eqn:Hp; [|done].
    unfold journal_prepare_action in Hp.
    apply result_bind_Ok in Hp as (? & _ & ([db2 h] & Hp%map_err_Ok & [= _ <- _])%result_bind_Ok).
    by eapply prepare_action_wf.
  - destruct (journal_complete_action _ _ _ _ _) as [[j' db']|] eqn:Hp; [|done].
    unfold journal_complete_action in Hp.
    apply result_bind_Ok in Hp as (? & _ & (db2 & Hp%map_err_Ok & [= _ <-])%result_bind_Ok).
    by eapply complete_action_wf.
  - destruct (journal_prepare_artifact_action _ _ _ _) as [[[j' db'] key]|] eqn:Hp; [|done].
    unfold journal_prepare_artifact_action in Hp.
    apply result_bind_Ok in Hp as (? & _ & ([db2 h] & Hp%map_err_Ok & [= _ <- _])%result_bind_Ok).
    by eapply prepare_artifact_wf.
  - destruct (journal_complete_artifact_action _ _ _ _ _) as [[j' db']|] eqn:Hp; [|done].
    unfold journal_complete_artifact_action in Hp.
    apply result_bind_Ok in Hp as (? & _ & (db2 & Hp%map_err_Ok & [= _ <-])%result_bind_Ok).
    by eapply complete_artifact_wf.
Qed.

Lemma durable_run_wf {A} (p : prog CleanupE A) m s :
  store_wf s.2 → store_wf (run durable_handle p (m, s)).1.1.2.2.
Proof.
  revert m s. induction p as [a|X e k IH]; intros m s Hwf; [done|]. cbn [run].
  pose proof (durable_handle_wf X e m s Hwf) as Hwf'.
  destruct (durable_handle X e (m, s)) as [[m' s'] x]. cbn [fst snd] in *.
  specialize (IH x m' s' Hwf').
  by destruct (run durable_handle (k x) (m', s')) as [[w tr] a].
Qed.

Lemma begun_database_wf : store_wf begun_database.
Proof. eapply begin_wf; [apply durable_begins|apply new_database_wf]. Qed.

Lemma executed_wf : store_wf executed_database.
Proof. apply (durable_run_wf _ _ (journal_for begun_handle, begun_database)), begun_database_wf. Qed.

(** The two targets are signalled and the artifact removed, and the attempt says so. *)
Example durable_actions :
  (action_pid <$> actions persisted_receipt) = [10%N; 11%N; 11%N] ∧
  (act_disposition <$> artifact_actions persisted_receipt) = [Removed] ∧
  receipt_state persisted_receipt = Cleared.
Proof. vm_compute. done. Qed.

(** ** Witnesses *)

Lemma durable_runs :
  runs (execute Trusting example_plan example_policy) durable_run.1.2 durable_run.2.
Proof. unfold durable_run. apply run_runs. Qed.

Lemma durable_result : is_Ok durable_run.2.
Proof. vm_compute. eauto. Qed.

Lemma executed_journalled :
  journalled (attempt_id begun_handle) (journal_for begun_handle, begun_database)
    durable_run.1.2 (durable_run.1.1.2.1, executed_database).
Proof.
  unfold executed_database. rewrite <-(surjective_pairing durable_run.1.1.2).
  unfold durable_run. apply durable_journalled.
Qed.

Lemma persisted_receipt_is_the_executors_witness :
  match durable_run.2 with
  | Ok r => persists (execution_receipt (Ok r)) persisted_receipt ∧
      stores begun_handle 90000 persisted_receipt executed_database completed_database
  | Err _ => False
  end.
Proof.
  pose proof (persisted_receipt_is_the_executors example_random Trusting durable_report example_plan
    example_policy None 1000 "epoch" (new_database "namespace") begun_database begun_handle
    durable_run.1.2 durable_run.2 durable_run.1.1.2.1 executed_database
    (new_database_wf "namespace") durable_begins) as H.
  specialize (H ltac:(repeat constructor) durable_runs executed_journalled).
  pose proof durable_completes as Hc. pose proof durable_result as Hr. revert H Hc Hr.
  generalize durable_run.2. intros [r|e]; [|by intros _ _ [r Hr]]. intros H Hc _.
  exact (H None 90000%N completed_database persisted_receipt Hc).
Defined.

Lemma completion_is_idempotent_witness :
  complete_cleanup_attempt example_random None begun_handle 123456 machine_receipt
    completed_database = Ok (completed_database, persisted_receipt).
Proof.
  apply (completion_is_idempotent example_random None begun_handle 90000 durable_receipt
           executed_database).
  - exact resources_shrink.
  - exact executed_wf.
  - exact durable_completes.
  - vm_compute. reflexivity.
  - vm_compute. reflexivity.
  - reflexivity.
Defined.

(** ** An interrupted attempt *)

(** The daemon dies after the TERM intent was journalled. *)
Definition interrupted : result (database * PreparedActionHandle) StoreError :=
  prepare_cleanup_action None begun_handle 0 2000
    (mkCleanupActionIntent PrimaryTerm 10 "identity" Term) begun_database.

Definition interrupted_database : database :=
  match interrupted with Ok (db, _) => db | Err _ => begun_database end.

Definition interrupted_handle : PreparedActionHandle :=
  match interrupted with Ok (_, h) => h | Err _ => mkPreparedActionHandle 0 0 0 end.

Lemma interrupted_prepares :
  prepare_cleanup_action None begun_handle 0 2000
    (mkCleanupActionIntent PrimaryTerm 10 "identity" Term) begun_database =
    Ok (interrupted_database, interrupted_handle).
Proof. vm_compute. reflexivity. Qed.

Lemma interrupted_wf : store_wf interrupted_database.
Proof. eapply prepare_action_wf; [apply interrupted_prepares|apply begun_database_wf]. Qed.

Lemma interrupted_open :
  ∃ a, rows (attempts interrupted_database) !! 1%Z = Some a ∧ attempt_incident_id a = "incident" ∧
    attempt_completed_at_ms a = None.
Proof. eexists. split_and!; vm_compute; reflexivity. Qed.

Lemma interrupted_prepared :
  ∃ r, rows (action_rows interrupted_database) !! 1%Z = Some r ∧ row_attempt r = 1%Z ∧
    row_disposition r = None.
Proof. eexists. split_and!; vm_compute; reflexivity. Qed.

Definition recovery : result (database * list CleanupReceipt) StoreError :=
  recover_incomplete_attempts example_random None 3000 interrupted_database.

Definition recovered_database : database :=
  match recovery with Ok (db, _) => db | Err _ => interrupted_database end.

Definition recovered_receipts : list CleanupReceipt :=
  match recovery with Ok (_, receipts) => receipts | Err _ => [] end.

Lemma recovery_recovers :
  recover_incomplete_attempts example_random None 3000 interrupted_database =
    Ok (recovered_database, recovered_receipts).
Proof. vm_compute. reflexivity. Qed.

Example recovered_reasons :
  (receipt_state <$> recovered_receipts) = [Failed] ∧
  (reason_id <$> recovered_receipts) = [Some "cleanup.interrupted_delivery_unknown"] ∧
  retry_blocks recovered_database !! "incident" ≠ None.
Proof. vm_compute. done. Qed.

Lemma recovery_resolves_witness :
  open_incident interrupted_database = Some "incident" ∧ open_incident recovered_database = None.
Proof.
  split; [vm_compute; reflexivity|].
  apply (recovery_resolves example_random None 3000 interrupted_database recovered_database
           recovered_receipts); [apply recovery_recovers|apply interrupted_wf].
Defined.

(** ** The lifecycle of a daemon *)

(** A daemon that asked to enforce and was restarted, with the interrupted attempt
    recovered: it awaits its first scan. *)
Definition restarted_database : database :=
  recovered_database <| lifecycle := Some (row_of 1 "daemon" (Scanning true) 3000) |>.

Definition quiet_database : database :=
  completed_database <| lifecycle := Some (row_of 1 "daemon" (Scanning true) 3000) |>.

Lemma lifecycle_refines_service_witness :
  reaches true quiet_database 1 "daemon" (Enforcing "epoch")
    (run_call None (CallScanned "epoch") 1 "daemon" 4000 quiet_database).
Proof.
  assert (bool_decide (is_Some (managed_arm_blocker quiet_database)) = false) as Hb
    by (vm_compute; reflexivity).
  pose proof (lifecycle_refines_service (CallScanned "epoch") quiet_database 1 "daemon"
                (Scanning true) 3000 (1%N, "daemon") 4000) as H.
  rewrite Hb in H. apply H; [by split|]. split_and!; vm_compute; reflexivity.
Defined.

Lemma set_lifecycle_rows db l id :
  retry_blocks (db <| lifecycle := l |>) !! "incident" = retry_blocks db !! "incident" ∧
  same_rows id (action_rows db) (action_rows (db <| lifecycle := l |>)) ∧
  same_rows id (artifact_rows db) (artifact_rows (db <| lifecycle := l |>)).
Proof. done. Qed.

Lemma uncertain_cleanup_blocks_arming_witness :
  service_next (CallScanned "epoch")
    (bool_decide (is_Some (managed_arm_blocker restarted_database))) (Scanning true) ≠
    Some (Enforcing "epoch").
Proof.
  destruct interrupted_open as (a & Ha & Hi & Ho), interrupted_prepared as (r & Hr & Hd1 & Hd2).
  apply (uncertain_cleanup_blocks_arming example_random None 3000 interrupted_database
           recovered_database recovered_receipts 1 a restarted_database (CallScanned "epoch")
           1 "daemon" (Scanning true) 3000 "epoch").
  - exact interrupted_wf.
  - exact recovery_recovers.
  - exact Ha.
  - exact Ho.
  - left. exists 1%Z, r. auto.
  - rewrite Hi. apply (set_lifecycle_rows recovered_database _ 1).
  - apply (set_lifecycle_rows recovered_database _ 1).
  - apply (set_lifecycle_rows recovered_database _ 1).
  - by split.
  - reflexivity.
  - by left.
Defined.

Definition booted : result (database * ManagedLifecycle) StoreError :=
  begin_managed_boot None 7 "daemon" 1000 (new_database "namespace").

Definition booted_database : database :=
  match booted with Ok (db, _) => db | Err _ => new_database "namespace" end.

Definition booted_lifecycle : option ManagedLifecycle :=
  match booted with Ok (_, l) => Some l | Err _ => None end.

Lemma every_row_is_a_service_witness :
  (lifecycle booted_database = None ∧ managed_lifecycle_connection booted_database = Ok None) ∨
  ∃ generation instance_id s at_,
    lifecycle booted_database = Some (row_of generation instance_id s at_) ∧ (0 < generation)%N ∧
    managed_lifecycle_connection booted_database =
      Ok (Some (lifecycle_of generation instance_id s at_)).
Proof.
  apply every_row_is_a_service.
  destruct booted_lifecycle as [l|] eqn:E; [|vm_compute in E; discriminate].
  apply (history_boot None 7 "daemon" 1000 (new_database "namespace") _ l); [constructor|].
  vm_compute in E. injection E as <-. vm_compute. reflexivity.
Defined.
