(* ===== verification/MutationExamples.v ===== *)
(** MutationExamples: the owner's mutations, the observations and the pruning on
    concrete databases, in the JSON codec of [DurableExamples.v].

    An observed incident is protected by a request, the request is repeated, its
    process disappears for the retention, and the receipt is pruned. *)

From S2P Require Import Prelude Text Model Artifact Evidence Cleanup Executor ExecutorSafety.
From S2P Require Import Analyzer Decisions Cooling Names Store Journal JournalFacts StoreSafety.
From S2P Require Import Protocol Mutations Observations MutationFacts ObservationFacts PruneFacts.
From S2P Require Import DurableExamples Views.
From Stdlib Require Import Ascii.

(** ** Requests and receipts as JSON *)

#[export] Instance mutation_wire : Wire OrdinaryMutation :=
  wire_via (λ m, match m with
    | Pause duration => (0%N, (duration, ""))
    | Resume => (1%N, (0%N, ""))
    | RetryFailedCleanup incident => (2%N, (0%N, incident))
    | ProtectIncident incident => (3%N, (0%N, incident))
    | UnprotectIncident incident => (4%N, (0%N, incident))
    end)
  (λ p, match p with
    | (0%N, (duration, _)) => Pause duration
    | (1%N, _) => Resume
    | (2%N, (_, incident)) => RetryFailedCleanup incident
    | (3%N, (_, incident)) => ProtectIncident incident
    | (_, (_, incident)) => UnprotectIncident incident
    end) ltac:(by intros []).

#[export] Instance mutation_kind_wire : Wire MutationKind :=
  enum_wire [KindPause; KindResume; KindRetryFailedCleanup; KindProtectIncident;
             KindUnprotectIncident] KindPause ltac:(by intros []).

#[export] Instance protection_summary_wire : Wire ProtectionSummary :=
  wire_via (λ p, (summary_incident_id p, protected_at_unix_millis p,
      last_exact_observed_at_unix_millis p, exact_absence_since_unix_millis p))
    (λ '(a, b, c, d), mkProtectionSummary a b c d) ltac:(by intros []).

#[export] Instance mutation_result_wire : Wire MutationResult :=
  wire_via (λ r, match r with
    | Paused until => (0%N, (until, (None, "")))
    | Resumed => (1%N, (0%N, (None, "")))
    | RetryScheduled incident => (2%N, (0%N, (None, incident)))
    | IncidentProtected summary => (3%N, (0%N, (Some summary, "")))
    | IncidentUnprotected incident => (4%N, (0%N, (None, incident)))
    end)
  (λ p, match p with
    | (0%N, (until, _)) => Paused until
    | (1%N, _) => Resumed
    | (2%N, (_, (_, incident))) => RetryScheduled incident
    | (_, (_, (Some summary, _))) => IncidentProtected summary
    | (_, (_, (None, incident))) => IncidentUnprotected incident
    end) ltac:(by intros []).

#[export] Instance mutation_outcome_wire : Wire MutationOutcome :=
  wire_via (λ o, match o with
    | Applied r => (Some r, (false, ""))
    | OutcomeNoChange reason => (None, (false, reason))
    | OutcomeRejected reason => (None, (true, reason))
    end)
  (λ p, match p with
    | (Some r, _) => Applied r
    | (None, (false, reason)) => OutcomeNoChange reason
    | (None, (true, reason)) => OutcomeRejected reason
    end) ltac:(by intros []).

#[export] Instance mutation_receipt_wire : Wire MutationReceipt :=
  wire_via (λ r, (mr_namespace_token r, mr_mutation_id r, mr_kind r,
      mr_committed_at_unix_millis r, mr_retain_until_unix_millis r, mr_policy_revision_after r,
      mr_outcome r))
    (λ '(a, b, c, d, e, f, g), mkMutationReceipt a b c d e f g) ltac:(by intros []).

#[export] Instance mutation_json : Json OrdinaryMutation := wire_json.

#[export] Instance mutation_receipt_json : Json MutationReceipt := wire_json.

#[export] Instance mutation_round_trip : JsonRoundTrip OrdinaryMutation.
Proof.
  intros m. unfold json_from_str, json_to_string. cbn [mutation_json wire_json].
  by rewrite get_put.
Qed.

#[export] Instance mutation_receipt_round_trip : JsonRoundTrip MutationReceipt.
Proof.
  intros r. unfold json_from_str, json_to_string. cbn [mutation_receipt_json wire_json].
  by rewrite get_put.
Qed.

(** ** An observed incident *)

Definition example_namespace : string := "0123456789abcdef0123456789abcdef".

Definition next_namespace : string := "fedcba9876543210fedcba9876543210".

Definition example_context : MutationContext :=
  mkMutationContext example_namespace "01234567-89ab-cdef-0123-456789abcdef".

Definition observed_twice : result (database * list Z) StoreError :=
  record_observation_batch example_random None 500 [durable_report; durable_report]
    (new_database example_namespace).

Definition observed_database : database :=
  match observed_twice with Ok (db, _) => db | Err _ => new_database example_namespace end.

Lemma observation_records :
  record_observation_batch example_random None 500 [durable_report; durable_report]
    (new_database example_namespace) = Ok (observed_database, [1%Z; 1%Z]).
Proof. vm_compute. reflexivity. Qed.

Lemma new_database_observations : observations_wf (new_database example_namespace).
Proof. intros id e H. simpl in H. by rewrite lookup_empty in H. Qed.

Lemma new_database_events :
  table_wf (events (new_database example_namespace)) ∧
  (0 ≤ last_rowid (events (new_database example_namespace)))%Z.
Proof. by destruct (new_database_wf example_namespace) as [(? & ? & ? & ?) _ _ _ _ _]. Qed.

Lemma observations_are_counted_witness :
  (∀ incident, sightings incident observed_database =
     (sightings incident (new_database example_namespace) +
      reports_about incident [durable_report; durable_report])%Z) ∧
  reports_about "incident" [durable_report; durable_report] = 2%Z.
Proof.
  split; [|vm_compute; reflexivity].
  destruct new_database_events as [Hwf H0].
  exact (proj1 (observations_are_counted example_random None 500 _ _ _ _ observation_records
                  Hwf H0 new_database_observations)).
Defined.

Lemma observed_wf : observations_wf observed_database.
Proof.
  apply (record_reports_wf example_random 500 [durable_report; durable_report] _ _ [1%Z; 1%Z]
           new_database_observations).
  exact (proj2 (proj1 (with_connection_Ok None _ _) observation_records)).
Qed.

(** ** A request *)

Definition running : RuntimePolicyFacts := mkRuntimePolicyFacts false false.

Definition protect_request : OrdinaryMutation := ProtectIncident "incident".

Definition request_commit : result (database * MutationCommit) StoreError :=
  commit_public_ordinary_mutation None example_context protect_request running 1000
    observed_database.

Definition protected_database : database :=
  match request_commit with Ok (db, _) => db | Err _ => observed_database end.

Definition request_answer : MutationCommit :=
  match request_commit with
  | Ok (_, c) => c
  | Err _ =>
      mkMutationCommit (mkMutationReceipt "" "" KindPause 0 0 0 (OutcomeRejected "")) false false
  end.

Lemma request_commits :
  commit_public_ordinary_mutation None example_context protect_request running 1000
    observed_database = Ok (protected_database, request_answer).
Proof. vm_compute. reflexivity. Qed.

Example request_applied :
  newly_committed request_answer = true ∧ mr_policy_revision_after (commit_receipt request_answer) = 2%N ∧
  mr_outcome (commit_receipt request_answer) =
    Applied (IncidentProtected (mkProtectionSummary "incident" 1000 None None)).
Proof. vm_compute. done. Qed.

Lemma request_admissible : admissible example_context protect_request 1000 observed_database.
Proof. split; vm_compute; try reflexivity; try split; discriminate || reflexivity || done. Qed.

Lemma request_facts :
  store_policy_facts_connection protect_request 1000 observed_database =
    Ok (mkStorePolicyFacts false false true false).
Proof. vm_compute. reflexivity. Qed.

Lemma mutation_commits_the_decision_witness :
  ∃ db0 result, direct_call protect_request 1000 observed_database = Ok db0 ∧
    commit_public_ordinary_mutation None example_context protect_request running 1000
      observed_database =
      Ok (recorded example_context protect_request
            (decided_receipt example_context protect_request 1000 2 (Applied result)) db0,
          mkMutationCommit
            (decided_receipt example_context protect_request 1000 2 (Applied result)) true true).
Proof.
  destruct (mutation_commits_the_decision example_context protect_request running 1000
              observed_database observed_wf request_admissible) as (facts & Hf & H).
  rewrite request_facts in Hf. injection Hf as <-. exact H.
Defined.

Lemma mutation_is_decided_once_witness :
  commit_public_ordinary_mutation None example_context Resume running 2000 protected_database =
    Err (StoreConflict "mutation ID was already committed for a different canonical request") ∧
  mutation_lookup None example_context protected_database =
    Ok (LookupCommitted (commit_receipt request_answer)).
Proof.
  apply (mutation_is_decided_once None example_context protect_request running 1000
           observed_database protected_database request_answer protected_database Resume running
           2000 request_commits); [done|]. vm_compute. reflexivity.
Defined.

(** ** The process of a protected incident disappears *)

Definition reconcile_at (now : N) (db : database) : result (database * Reconciliation) StoreError :=
  reconcile_incident_protections None ∅ true now 10000 db.

Definition absent_database : database :=
  match reconcile_at 2000 protected_database with Ok (db, _) => db | Err _ => protected_database end.

Definition retired_database : database :=
  match reconcile_at 12000 absent_database with Ok (db, _) => db | Err _ => absent_database end.

Definition example_protection : protection_row := mkProtectionRow "root" "members" 1000 None None.

Definition absent_protection : protection_row :=
  mkProtectionRow "root" "members" 1000 None (Some 2000%Z).

Lemma protection_rows :
  protections protected_database !! "incident" = Some example_protection ∧
  protections absent_database !! "incident" = Some absent_protection ∧
  protections retired_database !! "incident" = None.
Proof. vm_compute. done. Qed.

Lemma protection_sightings :
  protection_sighting 10000 example_protection (mkSighting false true 2000)
    protected_database absent_database ∧
  protection_sighting 10000 absent_protection (mkSighting false true 12000)
    absent_database retired_database.
Proof.
  split; exists None, ∅; [exists 2000%N|exists 12000%N]; eexists;
    (split; [vm_compute; reflexivity|done]).
Qed.

Lemma retirement_needs_proved_absence_witness :
  ∃ pre post, [mkSighting false true 2000; mkSighting false true 12000] = pre ++ post ∧
    absence_proved 10000 pre.
Proof.
  destruct protection_rows as (H0 & H1 & H2), protection_sightings as [S1 S2].
  refine (proj1 (retirement_needs_proved_absence 10000 "incident" protected_database
            [mkSighting false true 2000; mkSighting false true 12000] retired_database _)
            example_protection H0 eq_refl _ H2); [done|].
  apply (cycles_reconcile _ _ _ [mkSighting false true 2000] absent_database _ absent_protection);
    [|exact H1|exact S2].
  apply (cycles_reconcile _ _ _ [] protected_database _ example_protection);
    [apply cycles_nil|exact H0|exact S1].
Defined.

(** ** Pruning *)

(** [references_wf], decided. *)
Definition references_check (db : database) : bool :=
  forallb (λ entry : Z * event_row,
    match event_attempt entry.2 with
    | Some a => bool_decide (is_Some (rows (attempts db) !! a))
    | None => true
    end) (map_to_list (rows (events db)))
  && forallb (λ entry : Z * impact_row,
       bool_decide (is_Some (rows (attempts db) !! impact_attempt entry.2))
       && match rows (events db) !! impact_event entry.2 with
          | Some e => bool_decide (event_kind e = "cleanup")
          | None => false
          end) (map_to_list (rows (impacts db)))
  && forallb (λ entry : Z * string, bool_decide (is_Some (rows (events db) !! entry.1)))
       (map_to_list (tokens db)).

Lemma forallb_lookup {A} (p : Z * A → bool) (m : gmap Z A) k a :
  forallb p (map_to_list m) = true → m !! k = Some a → p (k, a) = true.
Proof.
  rewrite forallb_forall. intros H Hka. apply H, list_elem_of_In. by apply elem_of_map_to_list.
Qed.

Lemma references_check_wf db : references_check db = true → references_wf db.
Proof.
  unfold references_check. rewrite !andb_true_iff. intros [[He Hi] Ht]. split.
  - intros id e a H Ha. pose proof (forallb_lookup _ _ _ _ He H) as Hp. simpl in Hp.
    rewrite Ha in Hp. by apply bool_decide_eq_true in Hp.
  - intros id i H. pose proof (forallb_lookup _ _ _ _ Hi H) as Hp. simpl in Hp.
    apply andb_true_iff in Hp as [Hp _]. by apply bool_decide_eq_true in Hp.
  - intros id i H. pose proof (forallb_lookup _ _ _ _ Hi H) as Hp. simpl in Hp.
    apply andb_true_iff in Hp as [_ Hp].
    destruct (rows (events db) !! impact_event i) as [e|]; [|done].
    exists e. split; [done|]. by apply bool_decide_eq_true in Hp.
  - intros id token H. pose proof (forallb_lookup _ _ _ _ Ht H) as Hp. simpl in Hp.
    by apply bool_decide_eq_true in Hp.
Qed.

(** Three weeks after the recovery of the interrupted attempt, which still blocks. *)
Definition three_weeks : N := 21 * 24 * 60 * 60 * 1000.

Definition pruned : result (database * PruneResult) StoreError :=
  prune next_namespace None three_weeks default_retention recovered_database.

Definition pruned_database : database :=
  match pruned with Ok (db, _) => db | Err _ => recovered_database end.

Definition pruned_counts : PruneResult :=
  match pruned with Ok (_, r) => r | Err _ => mkPruneResult 0 0 end.

Lemma history_prunes :
  prune next_namespace None three_weeks default_retention recovered_database =
    Ok (pruned_database, pruned_counts).
Proof. vm_compute. reflexivity. Qed.


Lemma recovered_wf : store_wf recovered_database.
Proof. eapply recover_wf; [apply recovery_recovers|apply interrupted_wf]. Qed.

Lemma recovered_references : references_wf recovered_database.
Proof. apply references_check_wf. vm_compute. reflexivity. Qed.

Lemma recovered_blocks :
  ∃ a b, rows (attempts recovered_database) !! 1%Z = Some a ∧
    retry_blocks recovered_database !! "incident" = Some b ∧ block_source_attempt b = 1%Z.
Proof. eexists _, _. split_and!; vm_compute; reflexivity. Qed.


Definition retained_from : Z :=
  Z.of_N (three_weeks - N.max (max_age_millis default_retention) CLEANUP_DETAIL_RETENTION_MILLIS).

Lemma recovered_events_due id e :
  rows (events recovered_database) !! id = Some e →
  due three_weeks default_retention recovered_database id e.
Proof.
  intros He. split.
  - assert (forallb (λ entry : Z * event_row,
        bool_decide (event_occurred_at_ms entry.2 < retained_from)%Z)
      (map_to_list (rows (events recovered_database))) = true) as Hall by (vm_compute; reflexivity).
    exact (proj1 (bool_decide_eq_true _) (forallb_lookup _ _ _ _ Hall He)).
  - intros k i Hi _.
    assert (forallb (λ entry : Z * impact_row,
        bool_decide (impact_occurred_at_ms entry.2 < retained_from)%Z)
      (map_to_list (rows (impacts recovered_database))) = true) as Hall by (vm_compute; reflexivity).
    exact (proj1 (bool_decide_eq_true _) (forallb_lookup _ _ _ _ Hall Hi)).
Qed.

(** The block of the recovered attempt is shown before the pruning, and no more after. *)
Lemma pruned_blocks_hide_attention_witness :
  is_Ok (attention_projection None 16 recovered_database) ∧
  is_Some (retry_blocks pruned_database !! "incident") ∧
  ¬ is_Ok (attention_projection None 16 pruned_database).
Proof.
  split; [vm_compute; eauto|]. destruct recovered_blocks as (a & b & _ & Hb & _).
  destruct (pruned_blocks_hide_attention next_namespace None three_weeks default_retention
    recovered_database pruned_database pruned_counts "incident" b None 16 history_prunes
    recovered_wf recovered_references Hb) as [H1 H2].
  - intros id e He _ _. exact (recovered_events_due id e He).
  - vm_compute. lia.
  - split; [exists b; exact H1|exact H2].
Defined.

(** Three weeks after the request, its receipt is gone, and so is its authority. *)
Definition requests_pruned : result (database * PruneResult) StoreError :=
  prune next_namespace None three_weeks default_retention protected_database.

Definition forgotten_database : database :=
  match requests_pruned with Ok (db, _) => db | Err _ => protected_database end.

Lemma requests_prune :
  prune next_namespace None three_weeks default_retention protected_database =
    Ok (forgotten_database, mkPruneResult 1 0).
Proof. vm_compute. reflexivity. Qed.

Lemma next_namespace_differs : next_namespace ≠ context_namespace_token example_context.
Proof. intros E. apply (f_equal (String.get 0)) in E. vm_compute in E. discriminate E. Qed.

Lemma resent_request_fails :
  commit_public_ordinary_mutation None example_context protect_request running three_weeks
    forgotten_database ≠
    Ok (forgotten_database, mkMutationCommit (commit_receipt request_answer) false false).
Proof.
  intros H. apply (f_equal (λ r, match r with Ok _ => true | Err _ => false end)) in H.
  vm_compute in H. discriminate H.
Qed.

Lemma next_namespace_valid : is_valid_namespace_token next_namespace = true.
Proof. vm_compute. reflexivity. Qed.

Lemma pruned_requests_are_refused_witness :
  commit_public_ordinary_mutation None example_context protect_request running three_weeks
    forgotten_database =
    Err (StoreAuthorityLost "request namespace is no longer current and has no retained receipt").
Proof.
  destruct (pruned_requests_are_refused None example_context protect_request running 1000
              observed_database protected_database request_answer next_namespace default_retention
              three_weeks forgotten_database (mkPruneResult 1 0) running three_weeks
              request_commits requests_prune next_namespace_valid next_namespace_differs)
    as [H|H]; [vm_compute; reflexivity|by apply resent_request_fails in H|exact H].
Defined.
