(* ===== verification/ControlExamples.v ===== *)
(** ControlExamples: the control plane and the maintenance on concrete runs, in the
    JSON codec of [DurableExamples.v] and [MutationExamples.v].

    A managed daemon boots on a new store, is armed, cleans, is paused and disarmed; a
    storage attempt is prepared and completed. *)

From S2P Require Import Prelude Text Model Fingerprint Artifact Evidence Cleanup Effects Executor.
From S2P Require Import Analyzer Decisions Cooling Names Store Journal Lifecycle LifecycleFacts.
From S2P Require Import Residue Protocol Mutations Observations Views Maintenance Control.
From S2P Require Import ControlFacts ControlSafety DurableExamples MutationExamples.
From Stdlib Require Import Ascii.

(** ** The maintenance records as JSON *)

#[export] Instance residue_kind_wire : Wire StorageResidueKind :=
  wire_via (λ _, 0%N) (λ _, ChromeCodeSignClone) ltac:(by intros []).

#[export] Instance residue_status_wire : Wire StorageResidueStatus :=
  wire_via (λ s, match s with
    | ResidueClear => 0%N | ResidueDetected => 1%N | ResidueUnavailable => 2%N end)
  (λ n, match n with 0%N => ResidueClear | 1%N => ResidueDetected | _ => ResidueUnavailable end)
  ltac:(by intros []).

#[export] Instance reference_check_wire : Wire StorageResidueReferenceCheck :=
  wire_via (λ s, match s with
    | Incomplete => 0%N | CompleteNoReferences => 1%N | Referenced_ => 2%N end)
  (λ n, match n with 0%N => Incomplete | 1%N => CompleteNoReferences | _ => Referenced_ end)
  ltac:(by intros []).

#[export] Instance residue_wire : Wire StorageResidueObservation :=
  wire_via (λ r, (sr_kind r, sr_status r, sr_observed_at_unix_millis r, sr_candidate_count r,
      sr_logical_bytes r, sr_shape_complete r, sr_reference_check r,
      sr_automatic_cleanup_eligible r, sr_reason_ids r))
    (λ '(a, b, c, d, e, f, g, h, i), mkStorageResidueObservation a b c d e f g h i)
    ltac:(by intros []).

#[export] Instance availability_wire : Wire ToolCacheAvailability :=
  wire_via (λ a, match a with
    | CacheAvailable => 0%N | CacheAbsent => 1%N | CacheUnsupported => 2%N
    | CacheUnavailable => 3%N end)
  (λ n, match n with
    | 0%N => CacheAvailable | 1%N => CacheAbsent | 2%N => CacheUnsupported
    | _ => CacheUnavailable end) ltac:(by intros []).

#[export] Instance cache_outcome_wire : Wire ToolCacheOutcome :=
  enum_wire [CacheRunning; CacheNoOp; CacheCompleted; CacheBusy; CacheFailed; CacheDeliveryUnknown]
    CacheFailed ltac:(by intros []).

#[export] Instance tool_attempt_wire : Wire ToolCacheAttemptSummary :=
  wire_via (λ a, (tc_outcome a, tc_prepared_at_unix_millis a, tc_completed_at_unix_millis a,
      tc_native_removed_entry_count a, tc_native_removed_logical_bytes a))
    (λ '(a, b, c, d, e), mkToolCacheAttemptSummary a b c d e) ltac:(by intros []).

#[export] Instance node_attempt_wire : Wire NodeCompileCacheAttemptSummary :=
  wire_via (λ a, (nc_outcome a, nc_prepared_at_unix_millis a, nc_completed_at_unix_millis a,
      nc_removed_entry_count a, nc_removed_logical_bytes a))
    (λ '(a, b, c, d, e), mkNodeCompileCacheAttemptSummary a b c d e) ltac:(by intros []).

#[export] Instance residue_json : Json StorageResidueObservation := wire_json.

#[export] Instance availability_json : Json ToolCacheAvailability := wire_json.

#[export] Instance tool_attempt_json : Json ToolCacheAttemptSummary := wire_json.

#[export] Instance node_attempt_json : Json NodeCompileCacheAttemptSummary := wire_json.

(** ** A storage cleanup *)

Definition clear_residue : StorageResidueObservation :=
  mkStorageResidueObservation ChromeCodeSignClone ResidueClear 2000 0 0 true CompleteNoReferences
    false [].

Definition storage_begun : result (maintenance * PreparedStorageCleanupAttempt) StoreError :=
  begin_storage_cleanup_attempt "0123456789abcdef0123456789abcdef" None 1000 (mkStorageCleanupAttemptFacts 2 2 700)
    new_maintenance.

Definition storage_prepared : PreparedStorageCleanupAttempt := mkPreparedStorageCleanupAttempt 1 "0123456789abcdef0123456789abcdef".

Definition storage_open_db : maintenance :=
  match storage_begun with Ok (db, _) => db | Err _ => new_maintenance end.

Definition storage_complete : result maintenance StoreError :=
  complete_storage_cleanup_attempt None storage_prepared
    (mkStorageCleanupResultFacts DispComplete 2 2 700 (Some 2%N) (Some 0%N) (Some 0%N) (Some 0%N))
    clear_residue storage_open_db.

Definition storage_done_db : maintenance :=
  match storage_complete with Ok db => db | Err _ => new_maintenance end.

Lemma storage_begins :
  begin_storage_cleanup_attempt "0123456789abcdef0123456789abcdef" None 1000 (mkStorageCleanupAttemptFacts 2 2 700)
    new_maintenance = Ok (storage_open_db, storage_prepared).
Proof. vm_compute. reflexivity. Qed.

Lemma storage_completes :
  complete_storage_cleanup_attempt None storage_prepared
    (mkStorageCleanupResultFacts DispComplete 2 2 700 (Some 2%N) (Some 0%N) (Some 0%N) (Some 0%N))
    clear_residue storage_open_db = Ok storage_done_db.
Proof. vm_compute. reflexivity. Qed.

Lemma storage_results_are_proved_witness :
  (∀ id r, rows (storage_attempts storage_done_db) !! id = Some r → storage_claim r) ∧
  st_disposition <$> rows (storage_attempts storage_done_db) !! 1%Z = Some (Some "complete") ∧
  ∀ db', rtc storage_step storage_done_db db' → settled_stay storage_done_db db'.
Proof.
  assert (rtc storage_step new_maintenance storage_done_db) as H.
  { eapply rtc_l; [exact (step_begin _ _ _ _ _ _ _ storage_begins)|].
    eapply rtc_once. exact (step_complete _ _ _ _ _ _ storage_completes). }
  destruct (storage_results_are_proved storage_done_db H) as (H1 & _ & H3).
  split; [exact H1|]. split; [vm_compute; reflexivity|exact H3].
Defined.

(** ** A daemon's run *)

Definition no_fault : nat → option StoreError := λ _, None.

(** A managed daemon boots on a new store. *)
Definition boot_run : result ControlPlane ControlError :=
  begin_managed "1.0" "/state" no_fault 1 1 1 7 1 42 100 (new_database example_namespace)
    new_maintenance.

Definition booted : ControlPlane :=
  match boot_run with
  | Ok c => c
  | Err _ =>
      from_restored (new_database "") new_maintenance 1 1 (new_status "" ReportOnly 0 "")
        (mkRestoredControlState None None (mkStoreAttentionProjection 0 [])
           (mkProtectionProjection 0 []) None 0)
  end.

Definition instance : string := status_instance_id (ctl_status booted).

Definition recovered : ControlPlane := (finish_startup_recovery None 0 110 booted).1.

Definition scanned : ControlPlane := (complete_successful_cycle None None 120 recovered).1.

Definition armed : ControlPlane := (handle_at None None None (CmdArm 1 instance) 130 scanned).1.

Definition first_epoch : string := default "" (enforcement_epoch (ctl_status armed)).

Lemma boots :
  begin_managed "1.0" "/state" no_fault 1 1 1 7 1 42 100 (new_database example_namespace)
    new_maintenance = Ok booted.
Proof. vm_compute. reflexivity. Qed.

Lemma boot_arms : rtc ctl_step booted armed.
Proof.
  eapply rtc_l; [exact (step_recovered None 0 110 booted)|].
  eapply rtc_l; [exact (step_cycle_completed None None 120 recovered)|].
  eapply rtc_once. exact (step_command None None None (CmdArm 1 instance) 130 scanned).
Qed.

Lemma armed_delivers : delivers first_epoch (ctl_revision armed) armed = true.
Proof. vm_compute. reflexivity. Qed.

Definition no_cache : PreparedToolCacheAttempt := mkPreparedToolCacheAttempt "" 0 UvCache.

Lemma armed_authorises :
  authorises first_epoch (ctl_revision armed) storage_prepared no_cache armed = true.
Proof. vm_compute. reflexivity. Qed.

Lemma cleanups_are_durably_armed_witness :
  durably_enforcing first_epoch armed ∧ delivers first_epoch (ctl_revision armed) armed = true.
Proof.
  split; [|exact armed_delivers].
  exact (cleanups_are_durably_armed "1.0" "/state" no_fault 1 1 1 7 1 42 100 _ new_maintenance
           booted armed first_epoch (ctl_revision armed) storage_prepared no_cache
           (history_new example_namespace) boots boot_arms armed_authorises).
Defined.

(** ** Revocation *)

Definition disarmed : ControlPlane :=
  (handle_at None None None (CmdDisarm 1 instance) 140 armed).1.

Definition rearmed : ControlPlane :=
  (handle_at None None None (CmdArm 1 instance) 150 disarmed).1.

Definition second_epoch : string := default "" (enforcement_epoch (ctl_status rearmed)).

Lemma disarm_answered :
  handle_disarm None 1 instance 140 armed = (disarmed, Ok (PayLifecycle (ctl_status disarmed))).
Proof. vm_compute. reflexivity. Qed.

Lemma rearms : nsteps ctl_step 1 disarmed rearmed.
Proof. apply nsteps_once. exact (step_command None None None (CmdArm 1 instance) 150 disarmed). Qed.

Lemma first_epoch_issued : issued (next_enforcement_epoch disarmed) first_epoch.
Proof.
  exists 1%N, 42%N, instance, 130%N, 2%N. split; [vm_compute; reflexivity|vm_compute; reflexivity].
Qed.

Lemma revoked_epochs_stay_revoked_witness :
  authorises first_epoch (ctl_revision armed) storage_prepared no_cache rearmed = false ∧
  delivers second_epoch (ctl_revision rearmed) rearmed = true.
Proof.
  split; [|vm_compute; reflexivity].
  apply (revoked_epochs_stay_revoked "1.0" "/state" no_fault 1 1 1 7 1 42 100 _ new_maintenance
           booted armed disarmed rearmed 1 first_epoch (ctl_revision armed) storage_prepared no_cache
           (history_new example_namespace) boots boot_arms
           (revoked_disarmed _ _ _ _ _ _ _ disarm_answered) rearms);
    [vm_compute; reflexivity|exact first_epoch_issued].
Defined.

(** ** The owner's commands *)

Definition paused_control : ControlPlane := (handle_at None None None (CmdPause 60000) 140 armed).1.

Lemma pause_answered :
  handle_at None None None (CmdPause 60000) 140 armed = (paused_control, Ok (PayPause 60140)).
Proof. vm_compute. reflexivity. Qed.

(** The next cycle begins; the cleanup that was frozen before the pause stays stopped. *)
Definition cycle_later : ControlPlane := (begin_observation_cycle 1 150 paused_control).1.

Lemma public_keeps_cycles io x m now c :
  next_cycle_token (commit_public_mutation io x m now c).1 = next_cycle_token c.
Proof.
  unfold commit_public_mutation, locked, set_status. by repeat (case_match; simpl in * ); simplify_eq.
Qed.

Lemma cycle_begins_later : nsteps unrevised_publicly 1 paused_control cycle_later.
Proof.
  apply nsteps_once. split; [exact (step_cycle_begun 1 150 paused_control)|].
  intros io x m now E. exfalso. apply (f_equal next_cycle_token) in E.
  rewrite public_keeps_cycles in E. vm_compute in E. discriminate E.
Qed.

Lemma owner_commands_stop_cleanups_witness :
  delivers first_epoch (ctl_revision armed) armed = true ∧
  delivers first_epoch (ctl_revision armed) cycle_later = false ∧
  action_gate_closed first_epoch (ctl_revision armed) cycle_later = true ∧
  storage_action_may_continue storage_prepared first_epoch paused_control = false.
Proof.
  split; [exact armed_delivers|].
  destruct (owner_commands_stop_cleanups None None None (CmdPause 60000) 140 armed paused_control
    (PayPause 60140) first_epoch storage_prepared no_cache eq_refl pause_answered) as (H1 & H2).
  destruct (H1 1%nat cycle_later cycle_begins_later) as [H3 H4]; [reflexivity|].
  split; [exact H3|split; [exact H4|]].
  destruct (H2 (ex_intro _ 60000%N eq_refl)) as (Hd & _ & H5).
  exact (proj1 (H5 paused_control (rtc_refl _ _) Hd)).
Defined.

(** The public interface counts policy revisions in the store, the owner's commands in
    memory, and a public mutation writes the store's count over the memory's. *)

Definition resumed_control : ControlPlane := (handle_at None None None CmdResume 140 armed).1.

Definition publicly_paused :=
  commit_public_mutation None example_context (Pause 60000) 150 resumed_control.

Definition no_commit : MutationCommit :=
  mkMutationCommit (mkMutationReceipt "" "" KindPause 0 0 0 (OutcomeRejected "")) false false.

Definition public_commit : MutationCommit :=
  match publicly_paused.2 with Ok commit => commit | Err _ => no_commit end.

Lemma public_pause_commits :
  commit_public_mutation None example_context (Pause 60000) 150 resumed_control =
    (publicly_paused.1, Ok public_commit).
Proof.
  assert (publicly_paused.2 = Ok public_commit) as <- by (vm_compute; reflexivity).
  apply surjective_pairing.
Qed.

Lemma public_pause_changes : state_changed public_commit = true.
Proof. vm_compute. reflexivity. Qed.

Lemma resumed_delivers :
  delivers first_epoch (ctl_revision resumed_control) resumed_control = true.
Proof. vm_compute. reflexivity. Qed.

(** The owner resumes by a command, a cleanup is frozen at the revision of after, and then
    a client of the public interface pauses the daemon. The pause is applied and answered
    as applied, yet the frozen cleanup goes on delivering. *)
Lemma public_mutations_stop_by_the_stored_count_witness :
  mr_outcome (commit_receipt public_commit) = Applied (Paused 60150) ∧
  paused_until_unix_millis (ctl_status publicly_paused.1) = Some 60150%N ∧
  delivers first_epoch (ctl_revision resumed_control) publicly_paused.1 = true.
Proof.
  split; [vm_compute; reflexivity|]. split; [vm_compute; reflexivity|].
  destruct (public_mutations_stop_by_the_stored_count None example_context (Pause 60000) 150
    resumed_control publicly_paused.1 public_commit first_epoch (ctl_revision resumed_control)
    public_pause_commits resumed_delivers) as (_ & _ & _ & H).
  destruct (H public_pause_changes) as [_ ->]. vm_compute. reflexivity.
Defined.
