(* ===== verification/System.v ===== *)
(** System: the cleanup execution composed with its revalidator, and an incident
    followed from two observations to the signals it causes.

    [signals_spare_untouchable] holds for every revalidator that satisfies the
    interface [Revalidates]; the other theorems are about the analyzer. The
    witnesses of the analysis theorems are here too, on one concrete incident. *)

From S2P Require Import Prelude Text Model Fingerprint Artifact Graph Evidence Task Pack.
From S2P Require Import Cleanup Effects Executor ExecutorSafety ExecutorGuarantees.
From S2P Require Import Matching Candidates Classify Analyzer Cooling.

(** ** A concrete incident

    An orphaned headless browser of a disposable profile, whose parent is init. *)

Definition orphan_browser : ProcessRecord :=
  mkProcessRecord (mkProcessIdentity 10 7 (Some 1%N) (Some 10%N)) 1 10 501 None
    "Google Chrome for Testing"
    (Some "/Applications/Google Chrome for Testing.app/Contents/MacOS/Google Chrome for Testing")
    (mkExecutableIdentity (Some 1%N) (Some 10%N) None None)
    (Some ["chrome"; "--headless"; "--remote-debugging-pipe";
           "--user-data-dir=/tmp/agent-browser-profile"])
    4096 Running
    (mkProcessRuntimeFacts 0 0 true true [] [] 0 false
       (Some (mkAppBundleVersion "com.google.chrome.for.testing" "151.0.7922.34")) None None true
       [] [] None).

Definition orphan_renderer : ProcessRecord :=
  mkProcessRecord (mkProcessIdentity 11 8 (Some 1%N) (Some 11%N)) 10 10 501 None
    "Google Chrome Helper"
    (Some "/Applications/Google Chrome for Testing.app/Contents/Helper")
    (mkExecutableIdentity (Some 1%N) (Some 11%N) None None)
    (Some ["helper"; "--type=renderer"]) 1024 Running default_runtime_facts.

Definition orphan_machine : machine :=
  mkMachine [orphan_browser; orphan_renderer] [11%N] 0 [] None.

Definition orphan_snapshot : Snapshot := machine_snapshot orphan_machine.

Definition orphan_analyzer : Analyzer :=
  mkAnalyzer (mkRuleSet embedded_packs) (mkAnalyzerContext (Some 999%N) {[998%N]} [] []).

Definition orphan_reports : list IncidentReport :=
  match observe orphan_analyzer orphan_snapshot with Ok reports => reports | Err _ => [] end.

Definition orphan_keys : gset string := list_to_set (tracking_key <$> orphan_reports).

Definition confirmed_orphans : list IncidentReport :=
  reconcile_with_abandonment orphan_reports orphan_reports orphan_keys.

Definition orphan_plan : CleanupPlan :=
  match from_confirmed <$> head confirmed_orphans with
  | Some (Ok plan) => plan
  | _ => example_plan
  end.

Definition orphan_graph : ProcessGraph :=
  match from_snapshot orphan_snapshot with
  | Ok g => g
  | Err _ => mkProcessGraph 0 ∅ ∅
  end.

Definition orphan_candidate : Candidate :=
  mkCandidate agent_browser_pack 10 None [10%N] [10%N; 11%N] 2.

Definition orphan_run : machine * list (obs CleanupE) * result CleanupReceipt CleanupError :=
  run machine_handle (execute orphan_analyzer orphan_plan default_policy) orphan_machine.

Definition orphan_trace : list (obs CleanupE) := orphan_run.1.2.

Definition orphan_receipt : CleanupReceipt := execution_receipt orphan_run.2.

(** The incident as observed once and after two observations. *)
Definition orphan_report : IncidentReport := default witness_report (head orphan_reports).

Definition confirmed_orphan : IncidentReport := default witness_report (head confirmed_orphans).

(** The same candidate under a pack that allows the artifact. *)
Definition artifact_candidate : Candidate :=
  mkCandidate
    (mkSignaturePack 2 "agent-browser" "0.4.0" (supported_versions agent_browser_pack) None None
       (controller_markers agent_browser_pack) (framework_markers agent_browser_pack)
       (ephemeral_profile_markers agent_browser_pack)
       (browser_executable_markers agent_browser_pack)
       (recorder_executable_basenames agent_browser_pack) OsTermOnly
       (version_policy agent_browser_pack) (mkArtifactPolicy true))
    10 None [10%N] [10%N; 11%N] 2.

Definition artifact_report : IncidentReport :=
  default witness_report (classify orphan_analyzer orphan_graph artifact_candidate 1000000000).

(** The orphan tracked since two minutes before. *)
Definition orphan_clock (second : N) : CoolingClock :=
  mkCoolingClock (1000000 + second * 1000) (second * 1000) "boot" "epoch".

Definition orphan_history : list cooling_event :=
  [Track None orphan_report (orphan_clock 0) 90000 120000;
   Track None orphan_report (orphan_clock 105) 90000 120000].

Definition orphan_tracking : result (cooling_table * gset string) StoreError :=
  confirm_abandonment (λ _, None) (orphan_clock 120) 90000 120000 (cooling_after orphan_history)
    orphan_reports.

Example orphan_is_cleared :
  state <$> confirmed_orphans = [Confirmed] ∧
  deliveries orphan_trace = [(10%N, Term); (11%N, Term); (11%N, Kill)] ∧
  receipt_state orphan_receipt = Cleared.
Proof. vm_compute. done. Qed.

(** ** Lemmas *)

Lemma by_pid_Some s k p : by_pid s !! k = Some p → p ∈ processes s ∧ process_pid p = k.
Proof. intros Hp%collect_map_Some. apply list_elem_of_fmap in Hp as (q & [= -> ->] & Hq). done. Qed.

Lemma by_pid_None s k : by_pid s !! k = None ↔ k ∉ process_pid <$> processes s.
Proof.
  unfold by_pid. rewrite collect_map_None, <-list_fmap_compose.
  by change (fst ∘ (λ p, (process_pid p, p))) with process_pid.
Qed.

Section Interface.
Context {V : Type} `{!IncidentRevalidator V, !Revalidates V} (revalidator : V) (plan : CleanupPlan).

(** A signalled identity is a planned target's, live and touchable in the latest
    snapshot. *)
Record touches (g : ghost) (i : ProcessIdentity) (t : ProcessTarget) (snap : Snapshot)
    (p : ProcessRecord) : Prop := {
  touches_planned : t ∈ plan_targets plan ∧ target_identity t = i;
  touches_latest : last_snapshot g = Some snap;
  touches_listed : p ∈ processes snap;
  touches_exact : exact_match i (identity p) = true;
  touches_allowed : ¬ untouchable revalidator snap p;
  touches_eligible :
    revalidation_status (revalidate revalidator snap plan BeforeSignal) = Eligible;
}.

Lemma signal_ok_touches g i s :
  signal_ok revalidator plan g i s → ∃ t snap p, touches g i t snap p.
Proof.
  intros [(t & _ & _ & Ht & <- & _ & snap & Hsnap & p & Hp & Hexact) _ _ (s' & Hs' & _ & Hel) _ _].
  assert (s' = snap) as -> by congruence.
  apply by_pid_Some in Hp as [Hp Hpid]. exists t, snap, p. split; try done.
  eapply eligible_touchable; [done..|]. rewrite Hpid. by apply list_elem_of_fmap_2.
Qed.
End Interface.

(** A signal under a plan of a reconciled report goes to a member of the report it
    was reconciled from, which is confirmable. *)
Lemma planned_member (a : Analyzer) s2 first second keys r plan i sg g :
  observe a s2 = Ok second → r ∈ second →
  from_confirmed (reconcile_report (collect_map ((λ r, (tracking_key r, r)) <$> first)) keys r)
    = Ok plan →
  signal_ok a plan g i sg →
  confirmable first keys r ∧ i ∈ target_identity <$> targets r.
Proof.
  intros Hobs Hr Hplan Hok. pose proof (observe_not_confirmed _ _ _ _ Hobs Hr) as Hnot.
  apply from_confirmed_plannable in Hplan as ([Hst _ _ _ _ _ _ _ _ _] & rt & _ & _ & Heq).
  split; [by apply (reconcile_report_confirmed first keys r Hnot)|].
  destruct (signal_ok_target _ _ _ _ _ Hok) as (t & _ & _ & Ht & <- & _).
  destruct (reconcile_report_fields (collect_map ((λ r, (tracking_key r, r)) <$> first)) keys r)
    as (st & gs & ev & Hfields).
  rewrite Heq, Hfields in Ht. by apply list_elem_of_fmap_2.
Qed.

(** The identity of a report's target is that of an observed process. *)
Lemma observed_member (a : Analyzer) s second r i :
  observe a s = Ok second → r ∈ second → i ∈ target_identity <$> targets r →
  ∃ p, p ∈ processes s ∧ identity p = i.
Proof.
  intros Hobs Hr (t & -> & Ht)%list_elem_of_fmap.
  apply (elem_of_observe _ _ _ _ Hobs) in Hr as (g & c & Hg & _ & Hcl).
  apply classify_Some in Hcl as (root & _ & ->).
  apply list_elem_of_fmap in Ht as (q & -> & Hq). apply list_elem_of_omap in Hq as (k & _ & Hk).
  destruct (from_snapshot_get _ _ _ _ Hg Hk) as [Hq _]. by exists q.
Qed.

(** ** Properties *)

(** No revalidator's protected process is ever signalled: with any revalidator
    that satisfies the interface, every signal goes to a planned target that the
    latest snapshot lists with the exact identity and that the revalidator does
    not hold untouchable there. *)
Theorem signals_spare_untouchable `{!IncidentRevalidator V, !Revalidates V} (revalidator : V)
    plan policy tr res pre i s d post :
  runs (execute revalidator plan policy) tr res →
  tr = pre ++ Obs (SignalExact i s) d :: post →
  ∃ t snap p, touches revalidator plan (ghost_of pre) i t snap p.
Proof.
  intros Hr Htr. pose proof (execution_event_ok _ _ _ _ _ _ _ _ _ _ Hr Htr) as Hok.
  by apply (signal_ok_touches revalidator plan _ _ s).
Qed.

(** Cleared means absent: when an execution by the analyzer ends Cleared, the
    last snapshot of the run lists no process with a planned PID, and observing
    it gives reports, none of which is of the plan's session. *)
Theorem cleared_means_absent (a : Analyzer) plan policy tr r :
  runs (execute a plan policy) tr (Ok r) → receipt_state r = Cleared →
  ∃ snap reports, last_snapshot (ghost_of tr) = Some snap ∧
    (∀ p t, p ∈ processes snap → t ∈ plan_targets plan → process_pid p ≠ target_pid t) ∧
    observe a snap = Ok reports ∧
    ∀ report, report ∈ reports → session_fingerprint report ≠ plan_session_fingerprint plan.
Proof.
  intros [_ [_ [[_ Hproof]|Hst]]]%execution_sound Hc; [|rewrite Hc in Hst; by destruct Hst].
  destruct (cleared_gone _ _ _ _ _ Hproof) as (snap & Hsnap & Hall & Hgone).
  apply gone_invisible in Hgone. simpl in Hgone. unfold analyzer_session_visible in Hgone.
  destruct (observe a snap) as [reports|] eqn:Hobs; [|by destruct Hgone].
  exists snap, reports. split_and!; [done| |done|].
  - intros p t Hp Ht Hpid. rewrite Forall_forall in Hall.
    destruct (Hall t Ht) as [Hnone%by_pid_None _]. apply Hnone. rewrite <-Hpid.
    by apply list_elem_of_fmap_2.
  - intros report Hr Hs. apply Hgone. eauto.
Qed.

(** From observation to signal: when a report that reconciliation returned for
    two observations is frozen into a plan and the plan is executed by the
    analyzer, every process signalled was a member of a Cooling incident of the
    second observation whose root and members the first one saw unchanged and
    whose abandonment key was confirmed; and the latest snapshot before the
    signal lists it with the same identity, owned by the current, non-root user,
    with complete facts, and neither Unlinger itself nor an ancestor of it. *)
Theorem signals_hit_confirmed_orphans (a : Analyzer) s2 first second keys report plan policy
    tr res pre i sg d post :
  observe a s2 = Ok second →
  report ∈ reconcile_with_abandonment first second keys → from_confirmed report = Ok plan →
  runs (execute a plan policy) tr res → tr = pre ++ Obs (SignalExact i sg) d :: post →
  (∃ r p, r ∈ second ∧ confirmable first keys r ∧ p ∈ processes s2 ∧ identity p = i ∧
     i ∈ target_identity <$> targets r) ∧
  (∃ snap p, last_snapshot (ghost_of pre) = Some snap ∧ p ∈ processes snap ∧
     exact_match i (identity p) = true ∧ uid p = current_uid snap ∧ uid p ≠ 0%N ∧
     has_complete_classification_facts p = true ∧
     self_pid (context a) ≠ Some (process_pid p) ∧
     process_pid p ∉ context_ancestor_pids (context a)).
Proof.
  intros Hobs (r & -> & Hr)%list_elem_of_fmap Hplan Hrun Htr.
  pose proof (execution_event_ok _ _ _ _ _ _ _ _ _ _ Hrun Htr) as Hok. split.
  - destruct (planned_member a s2 first second keys r plan i sg (ghost_of pre) Hobs Hr Hplan Hok)
      as [Hconf Hmember].
    destruct (observed_member a s2 second r i Hobs Hr Hmember) as (p & Hp & Hi).
    by exists r, p.
  - apply signal_ok_touches in Hok as (t & snap & p & [[Ht <-] Hsnap Hp Hexact _ Hel]).
    exists snap, p. destruct (eligible_targets _ _ _ (revalidate_eligible_facts _ _ _ Hel) p Hp)
      as (_ & Hfacts).
    + apply list_elem_of_fmap. exists t. split; [|done].
      apply exact_match_eq in Hexact. unfold process_pid, target_pid. by rewrite Hexact.
    + by destruct Hfacts as (? & ? & ? & ? & ?); eauto 10.
Qed.

(** [C2] Nothing is signalled before its grace: when the keys of the reconciliation
    are those the engine confirms while tracking the second observation, every
    process signalled was a member of a Cooling incident of that observation, and
    an incident with its tracking key was watched, unchanged and without a break,
    for at least the grace period. *)
Theorem signals_wait_for_grace (a : Analyzer) s2 first second storage clock grace gap history t
    keys report plan policy tr res pre i sg d post :
  observe a s2 = Ok second →
  confirm_abandonment storage clock grace gap (cooling_after history) second = Ok (t, keys) →
  report ∈ reconcile_with_abandonment first second keys → from_confirmed report = Ok plan →
  runs (execute a plan policy) tr res → tr = pre ++ Obs (SignalExact i sg) d :: post →
  ∃ r before watched_report after,
    r ∈ second ∧ state r = Cooling ∧ i ∈ target_identity <$> targets r ∧
    second = before ++ watched_report :: after ∧ tracking_key watched_report = tracking_key r ∧
    grace_elapsed (history_at storage clock grace gap history before watched_report)
      watched_report clock grace gap.
Proof.
  intros Hobs Hkeys (r & -> & Hr)%list_elem_of_fmap Hplan Hrun Htr.
  pose proof (execution_event_ok _ _ _ _ _ _ _ _ _ _ Hrun Htr) as Hok.
  destruct (planned_member a s2 first second keys r plan i sg (ghost_of pre) Hobs Hr Hplan Hok)
    as ([Hcool _ Hin _] & Hmember).
  destruct (track_confirmed_keys _ _ _ _ _ _ _ _ Hkeys _ Hin) as (b & w & af & ? & ? & ? & ?).
  exists r, b, w, af. by split_and!.
Qed.

(** ** Witnesses *)

Lemma orphan_runs :
  runs (execute orphan_analyzer orphan_plan default_policy) orphan_trace orphan_run.2.
Proof. apply run_runs. Qed.

Lemma orphan_observed : observe orphan_analyzer orphan_snapshot = Ok orphan_reports.
Proof. vm_compute. reflexivity. Qed.

Lemma orphan_graph_built : from_snapshot orphan_snapshot = Ok orphan_graph.
Proof. vm_compute. reflexivity. Qed.

Lemma orphan_reported : orphan_report ∈ orphan_reports.
Proof. vm_compute. left. Qed.

Lemma orphan_classified :
  classify orphan_analyzer orphan_graph orphan_candidate 1000000000 = Some orphan_report.
Proof. vm_compute. reflexivity. Qed.

Lemma orphan_proposed : orphan_candidate ∈ candidates orphan_analyzer orphan_graph.
Proof. vm_compute. left. Qed.

Lemma orphan_signal_8 :
  orphan_trace = take 8 orphan_trace ++
    Obs (SignalExact (identity orphan_browser) Term) Delivered :: drop 9 orphan_trace.
Proof. apply split_at. vm_compute. reflexivity. Qed.

Lemma signals_spare_untouchable_witness :
  ∃ t snap p, touches orphan_analyzer orphan_plan (ghost_of (take 8 orphan_trace))
    (identity orphan_browser) t snap p.
Proof.
  apply (signals_spare_untouchable orphan_analyzer orphan_plan default_policy orphan_trace _
           _ _ Term _ _ orphan_runs orphan_signal_8).
Defined.

Lemma cleared_means_absent_witness :
  ∃ snap reports, last_snapshot (ghost_of orphan_trace) = Some snap ∧
    (∀ p t, p ∈ processes snap → t ∈ plan_targets orphan_plan → process_pid p ≠ target_pid t) ∧
    observe orphan_analyzer snap = Ok reports ∧
    ∀ report, report ∈ reports →
      session_fingerprint report ≠ plan_session_fingerprint orphan_plan.
Proof.
  apply (cleared_means_absent orphan_analyzer orphan_plan default_policy _ orphan_receipt);
    [|vm_compute; reflexivity].
  replace (Ok orphan_receipt) with orphan_run.2 by (vm_compute; reflexivity).
  apply orphan_runs.
Defined.

Lemma signals_hit_confirmed_orphans_witness :
  ∃ r p, r ∈ orphan_reports ∧ confirmable orphan_reports orphan_keys r ∧
    p ∈ processes orphan_snapshot ∧ identity p = identity orphan_browser ∧
    identity orphan_browser ∈ target_identity <$> targets r.
Proof.
  refine (proj1 (signals_hit_confirmed_orphans orphan_analyzer orphan_snapshot orphan_reports
    orphan_reports orphan_keys confirmed_orphan orphan_plan default_policy orphan_trace _
    (take 8 orphan_trace) (identity orphan_browser) Term _ _ orphan_observed _ _ orphan_runs
    orphan_signal_8)).
  - vm_compute. left.
  - vm_compute. reflexivity.
Defined.

Lemma candidates_well_formed_witness :
  NoDup (candidate_root_pid <$> candidates orphan_analyzer orphan_graph) ∧
  ∃ pack, pack ∈ packs (rules orphan_analyzer) ∧ candidate_wf orphan_graph pack orphan_candidate.
Proof.
  destruct (candidates_well_formed orphan_analyzer orphan_snapshot orphan_graph
              orphan_graph_built) as [Hnd Hwf].
  split; [exact Hnd|]. apply Hwf, orphan_proposed.
Defined.

Lemma selection_complete_witness :
  ∃ c, c ∈ candidates orphan_analyzer orphan_graph ∧ candidate_root_pid c = 10%N.
Proof.
  destruct (selection_complete orphan_analyzer orphan_snapshot orphan_graph agent_browser_pack
              orphan_graph_built) as (_ & _ & Hbest); [vm_compute; left|].
  destruct (Hbest orphan_candidate) as (c & Hc & Hroot & _); [vm_compute; left|].
  exists c. split; [exact Hc|exact Hroot].
Defined.

Lemma one_observation_never_confirms_witness :
  state orphan_report = Cooling ∧ cleanup_eligible (gates orphan_report) = false.
Proof.
  split; [vm_compute; reflexivity|].
  apply (one_observation_never_confirms _ _ _ _ _ orphan_classified).
Defined.

Lemma cooling_is_justified_witness :
  ∃ root, get orphan_graph 10 = Some root ∧
    cooling_facts orphan_analyzer orphan_graph orphan_candidate 1000000000 root.
Proof.
  apply (cooling_is_justified _ _ _ _ _ orphan_classified). vm_compute. reflexivity.
Defined.

Lemma report_accounts_for_members_witness :
  target_pid <$> targets orphan_report = [10%N; 11%N] ∧ member_count orphan_report = 2%N.
Proof.
  destruct (report_accounts_for_members _ _ _ _ _ _ orphan_graph_built orphan_proposed
              orphan_classified) as (Hpids & Hcount & _).
  split; [exact Hpids|exact Hcount].
Defined.

Lemma report_artifacts_bound_witness :
  profile_path <$> runtime_artifacts artifact_report = ["/tmp/agent-browser-profile"] ∧
  length (runtime_artifacts artifact_report) ≤ 1.
Proof.
  split; [vm_compute; reflexivity|].
  apply (report_artifacts_bound orphan_analyzer orphan_graph artifact_candidate 1000000000).
  vm_compute. reflexivity.
Defined.

Lemma confirmation_iff_witness :
  state (reconcile_report (collect_map ((λ r, (tracking_key r, r)) <$> orphan_reports))
           orphan_keys orphan_report) = Confirmed ∧
  confirmable orphan_reports orphan_keys orphan_report.
Proof.
  assert (Hst : state (reconcile_report
    (collect_map ((λ r, (tracking_key r, r)) <$> orphan_reports)) orphan_keys orphan_report)
    = Confirmed) by (vm_compute; reflexivity).
  split; [exact Hst|].
  apply (confirmation_iff _ _ _ _ orphan_keys _ orphan_observed orphan_reported), Hst.
Defined.

Lemma reconcile_keeps_incidents_witness :
  ∃ r, confirmed_orphans !! 0 = Some r ∧
    (∃ st gs ev, r = with_verdict orphan_report st gs ev) ∧
    (state r = Confirmed → gates r = all_gates).
Proof.
  apply (reconcile_keeps_incidents orphan_reports orphan_reports orphan_keys 0 orphan_report);
    vm_compute; [reflexivity|discriminate].
Defined.

Lemma confirmed_reports_yield_plans_witness : is_Ok (from_confirmed confirmed_orphan).
Proof.
  apply (confirmed_reports_yield_plans _ _ orphan_reports _ orphan_keys _ orphan_observed);
    vm_compute; [left|reflexivity].
Defined.

Lemma eligible_means_unchanged_witness :
  eligible_facts orphan_analyzer orphan_snapshot orphan_plan.
Proof. apply eligible_means_unchanged. vm_compute. reflexivity. Defined.

Lemma signals_wait_for_grace_witness :
  ∃ r before watched_report after,
    r ∈ orphan_reports ∧ state r = Cooling ∧
    identity orphan_browser ∈ target_identity <$> targets r ∧
    orphan_reports = before ++ watched_report :: after ∧
    tracking_key watched_report = tracking_key r ∧
    grace_elapsed (history_at (λ _, None) (orphan_clock 120) 90000 120000 orphan_history before
                     watched_report) watched_report (orphan_clock 120) 90000 120000.
Proof.
  refine (signals_wait_for_grace orphan_analyzer orphan_snapshot orphan_reports orphan_reports
    (λ _, None) (orphan_clock 120) 90000 120000 orphan_history
    (table_of orphan_tracking) orphan_keys confirmed_orphan
    orphan_plan default_policy orphan_trace _ (take 8 orphan_trace) (identity orphan_browser)
    Term _ _ orphan_observed _ _ _ orphan_runs orphan_signal_8).
  all: vm_compute; first [reflexivity|left].
Defined.
