(* ===== verification/Owners.v ===== *)
(** Owners: the leases of tasks and of session owners, [unlinger-daemon/src/store/tasks.rs]
    and [unlinger-daemon/src/store/session_owners.rs].

    A host reserves (or declares) a lease, names the process that owns it, and releases
    it. The engine binds to the lease the controllers it observes. The tables are maps
    by primary key; a SELECT without ORDER BY reads them in an unspecified order. *)

From S2P Require Import Prelude Text Model Fingerprint Task Cooling Names Store.
From S2P Require Import Evidence Cleanup Executor Analyzer Journal Protocol Mutations.
From Stdlib Require Import Ascii.

(** ** Tables *)

(** The columns that [task_scopes] and [session_owner_leases] share. *)
Record grant : Type := mkGrant {
  g_capability : string;
  g_registrar_json : string;
  g_owner_json : option string;
  g_created_at_ms : Z;
  g_activated_at_us : option Z;
  g_released_at_us : option Z;
  g_release_reason : option string;
}.

#[export] Instance grant_eq_dec : EqDecision grant.
Proof. solve_decision. Defined.

(** [session_owner_leases]. *)
Record session_row : Type := mkSessionRow {
  sl_selector : string;
  sl_session_name : string;
  sl_version : string;
  sl_generation : Z;
  sl_grant : grant;
}.

#[export] Instance session_row_eq_dec : EqDecision session_row.
Proof. solve_decision. Defined.

(** [task_controllers] and [session_owner_controllers], by [identity_key]. *)
Record controller_row : Type := mkControllerRow {
  cr_lease : string;
  cr_identity_json : string;
  cr_incident_id : string;
}.

#[export] Instance controller_row_eq_dec : EqDecision controller_row.
Proof. solve_decision. Defined.

Record ownership : Type := mkOwnership {
  task_rows : gmap string grant;
  task_controller_rows : gmap string controller_row;
  session_rows : gmap string session_row;
  session_controller_rows : gmap string controller_row;
}.

Definition new_ownership : ownership := mkOwnership ∅ ∅ ∅ ∅.

Definition task_check (task : string) (g : grant) : bool :=
  bool_decide (sqlite_length task = 32) && bool_decide (sqlite_length (g_capability g) = 32).

Definition session_check (lease : string) (r : session_row) : bool :=
  bool_decide (sqlite_length lease = 32)
  && bool_decide (sqlite_length (g_capability (sl_grant r)) = 32)
  && bool_decide (sqlite_length (sl_selector r) = 16)
  && bool_decide (1 ≤ sqlite_length (sl_session_name r) ≤ 64)
  && bool_decide (1 ≤ sqlite_length (sl_version r) ≤ 64)
  && bool_decide (1 ≤ sl_generation r)%Z.

(** [u64::saturating_sub]. *)
Definition saturating_sub (a b : N) : N := a - b.

(** ** What both lanes do with a lease *)

Inductive TaskPhase : Type := Reserved | ActivePhase | Released.

#[export] Instance TaskPhase_eq_dec : EqDecision TaskPhase.
Proof. solve_decision. Defined.

Definition grant_phase (g : grant) : TaskPhase :=
  if g_released_at_us g then Released
  else if g_activated_at_us g then ActivePhase else Reserved.

Section Grants.
Context `{JT : Json TaskOwnerIdentity, JI : Json ProcessIdentity}.

Definition new_grant (capability : string) (registrar : TaskOwnerIdentity) (created_at : Z) : grant :=
  mkGrant capability (json_to_string registrar) None created_at None None None.

(** The activation of [activate_task] and [activate_session_owner]. *)
Definition activate_grant (released replaced label : string) (owner : TaskOwnerIdentity) (now : N)
    (g : grant) : result grant StoreError :=
  guard? negb (bool_decide (is_Some (g_released_at_us g))) else StoreInvalid released in
  match g_owner_json g with
  | Some prior =>
      let? prior := from_json prior in
      guard? bool_decide (prior = owner) else StoreInvalid replaced in
      Ok g
  | None =>
      let? activated := sqlite_u64 (saturating_mul now 1000) label in
      Ok (mkGrant (g_capability g) (g_registrar_json g) (Some (json_to_string owner))
            (g_created_at_ms g) (Some activated) (g_released_at_us g) (g_release_reason g))
  end.

(** [WHERE released_at_us IS NULL AND owner_json IS ?4]. *)
Definition releasable (owner : option TaskOwnerIdentity) (g : grant) : bool :=
  bool_decide (g_released_at_us g = None)
  && bool_decide (g_owner_json g = json_to_string <$> owner).

(** The UPDATE of [release_task] and [release_session_owner]. *)
Definition release_grant (released_at : Z) (reason : string) (owner : option TaskOwnerIdentity)
    (g : grant) : grant :=
  if releasable owner g then
    mkGrant (g_capability g) (g_registrar_json g) (g_owner_json g) (g_created_at_ms g)
      (g_activated_at_us g) (Some released_at) (Some reason)
  else g.

(** The registrar, the owner and the times of a row, read back. *)
Record granted : Type := mkGranted {
  gr_registrar : TaskOwnerIdentity;
  gr_owner : option TaskOwnerIdentity;
  gr_activated_at_us : option N;
  gr_released_at_us : option N;
}.

Definition read_grant (activation release : string) (g : grant) : result granted StoreError :=
  let? registrar := from_json (g_registrar_json g) in
  let? owner := option_transpose from_json (g_owner_json g) in
  let? activated :=
    option_transpose (λ v, parse_nonnegative_millis v activation) (g_activated_at_us g) in
  let? released :=
    option_transpose (λ v, parse_nonnegative_millis v release) (g_released_at_us g) in
  Ok (mkGranted registrar owner activated released).

(** The process was born while the lease was held, by the registrar's user. *)
Definition born_in (g : granted) (activated : N) (p : ProcessRecord) : bool :=
  let birth := started_at_unix_micros (identity p) in
  bool_decide (uid p = owner_uid_ (gr_registrar g))
  && bool_decide (activated ≤ birth)%N
  && match gr_released_at_us g with
     | Some cutoff => bool_decide (birth ≤ cutoff)%N
     | None => true
     end.

Definition incident_of (p : ProcessRecord) : string :=
  "inc-" +:+ fingerprint_parts
    ["playwright:" +:+ show_N (process_pid p) +:+ ":" +:+ fingerprint_process_identity (identity p)].

(** [INSERT INTO .. ON CONFLICT(identity_key) DO NOTHING], of a lease that exists. *)
Definition bind_controller (exists_lease : bool) (lease : string) (p : ProcessRecord)
    (t : gmap string controller_row) : result (gmap string controller_row) StoreError :=
  let key := fingerprint_process_identity (identity p) in
  match t !! key with
  | Some _ => Ok t
  | None =>
      guard? exists_lease else StoreSqlite "FOREIGN KEY constraint failed" in
      Ok (<[key := mkControllerRow lease (json_to_string (identity p)) (incident_of p)]> t)
  end.

(** [ON DELETE CASCADE]. *)
Definition cascade_controllers (lease : string) (t : gmap string controller_row) :
    gmap string controller_row := filter (λ e, cr_lease e.2 ≠ lease) t.

(** The incident IDs of a lease, in order. *)
Definition lease_incidents (lease : string) (t : gmap string controller_row) : list string :=
  merge_sort String.le
    (cr_incident_id ∘ snd <$>
       List.filter (λ e, bool_decide (cr_lease e.2 = lease)) (map_to_list t)).
End Grants.

(** ** Tasks *)

Record TaskLease : Type := mkTaskLease {
  tl_task_id : string;
  tl_session_name : string;
  tl_capability : string;
}.

Record TaskStatus : Type := mkTaskStatus {
  ts_task_id : string;
  ts_session_name : string;
  ts_phase : TaskPhase;
  ts_release_reason : option string;
  ts_incident_ids : list string;
}.

Record TaskScope : Type := mkTaskScope {
  scope_task_id : string;
  scope_granted : granted;
}.

Definition MAX_TASK_SCOPES : nat := 4096.

Definition RETENTION_MILLIS : N := 14 * 24 * 60 * 60 * 1000.

Section Tasks.
Context `{JT : Json TaskOwnerIdentity, JI : Json ProcessIdentity}.

(** [HistoryStore::reserve_task]; [token] is the random capability. *)
Definition reserve_task (token : string) (io : option StoreError) (task : string)
    (registrar : TaskOwnerIdentity) (now : N) (db : ownership) :
    result (ownership * TaskLease) StoreError :=
  guard? valid_task_id task else StoreInvalid "invalid task identifier" in
  with_connection io (
  let? found :=
    match task_rows db !! task with
    | Some g =>
        let? prior := from_json (g_registrar_json g) in
        guard? bool_decide (prior = registrar)
          else StoreInvalid "task belongs to another registrar" in
        Ok (db, g_capability g)
    | None =>
        guard? bool_decide (size (task_rows db) < MAX_TASK_SCOPES)
          else StoreInvalid "task registry capacity reached" in
        let? created := sqlite_millis now "task creation" in
        let g := new_grant token registrar created in
        guard? task_check task g else StoreSqlite "CHECK constraint failed: task_scopes" in
        Ok (db <| task_rows ::= <[task := g]> |>, token)
    end in
  Ok (found.1, mkTaskLease task (session_name_from_id task) found.2)).

Definition task_scope (entry : string * grant) : result TaskScope StoreError :=
  let? granted := read_grant "task activation" "task release" entry.2 in
  Ok (mkTaskScope entry.1 granted).

(** [HistoryStore::task_scopes]. *)
Definition task_scopes (io : option StoreError) (db : ownership) :
    result (list TaskScope) StoreError :=
  with_connection io (collect_results task_scope (map_to_list (task_rows db))).

Definition scope_of (task : string) : list TaskScope → option TaskScope :=
  List.find (λ s, bool_decide (scope_task_id s = task)).

(** [HistoryStore::authorize_task]; [io'] is for its second use of the connection. *)
Definition authorize_task (io io' : option StoreError) (task capability : string)
    (db : ownership) : result TaskScope StoreError :=
  let? matches :=
    with_connection io
      (Ok (bool_decide ((g_capability <$> task_rows db !! task) = Some capability))) in
  guard? matches else StoreInvalid "task capability does not match" in
  let? scopes := task_scopes io' db in
  ok_or (scope_of task scopes) (StoreInvalid "task is unavailable").

(** [HistoryStore::activate_task]. *)
Definition activate_task (io : option StoreError) (task : string) (owner : TaskOwnerIdentity)
    (now : N) (db : ownership) : result ownership StoreError :=
  with_connection io (
  let? g := ok_or (task_rows db !! task) (StoreSqlite "Query returned no rows") in
  let? g :=
    activate_grant "released tasks cannot be activated" "task command owner cannot be replaced"
      "task activation" owner now g in
  Ok (db <| task_rows ::= <[task := g]> |>)).

(** [HistoryStore::release_task]. *)
Definition release_task (io : option StoreError) (task : string) (now : N) (reason : string)
    (owner : option TaskOwnerIdentity) (db : ownership) : result ownership StoreError :=
  with_connection io (
  let? released := sqlite_u64 (saturating_mul (saturating_add now 1) 1000) "task release" in
  Ok (db <| task_rows ::= alter (release_grant released reason owner) task |>)).

(** The task a process of the snapshot is bound to. *)
Definition task_of (scopes : list TaskScope) (p : ProcessRecord) : option TaskScope :=
  cli ← playwright_cli (runtime p);
  task ← task_id_from_session (cli_session_name cli);
  scope ← scope_of task scopes;
  activated ← gr_activated_at_us (scope_granted scope);
  if born_in (scope_granted scope) activated p && exact_match (identity p) (identity p)
  then Some scope else None.

(** The loop over the processes, in one transaction. *)
Fixpoint bind_tasks (scopes : list TaskScope) (processes : list ProcessRecord) (db : ownership) :
    result ownership StoreError :=
  match processes with
  | [] => Ok db
  | p :: processes =>
      match task_of scopes p with
      | None => bind_tasks scopes processes db
      | Some scope =>
          let task := scope_task_id scope in
          let? t :=
            bind_controller (bool_decide (is_Some (task_rows db !! task))) task p
              (task_controller_rows db) in
          bind_tasks scopes processes (db <| task_controller_rows := t |>)
      end
  end.

Definition task_binding (db : ownership) (row : controller_row) :
    option (result TaskControllerBinding StoreError) :=
  g ← task_rows db !! cr_lease row;
  Some (let? controller := from_json (cr_identity_json row) in
        Ok (mkTaskControllerBinding (cr_lease row) controller
              (bool_decide (is_Some (g_released_at_us g))))).

(** [HistoryStore::task_controller_bindings]: the controllers joined to their tasks. *)
Definition task_controller_bindings (io : option StoreError) (db : ownership) :
    result (list TaskControllerBinding) StoreError :=
  with_connection io
    (collect_results id (omap (λ e, task_binding db e.2) (map_to_list (task_controller_rows db)))).

Definition retention_cutoff (observed_at : N) : N :=
  saturating_mul (saturating_sub observed_at RETENTION_MILLIS) 1000.

(** A process of the snapshot that still names the task, or is bound to it. *)
Definition names_task (bindings : list TaskControllerBinding) (task : string)
    (p : ProcessRecord) : bool :=
  bool_decide ((task_session_name (runtime p) ≫= task_id_from_session) = Some task)
  || existsb (λ b, bool_decide (Task.task_id b = task)
                   && exact_match (task_controller b) (identity p)) bindings.

Definition task_expired (cutoff : N) (bindings : list TaskControllerBinding) (s : Snapshot)
    (scope : TaskScope) : bool :=
  match gr_released_at_us (scope_granted scope) with
  | Some released => bool_decide (released < cutoff)%N
  | None => false
  end
  && negb (existsb (names_task bindings (scope_task_id scope)) (processes s)).

Definition delete_task (task : string) (db : ownership) : ownership :=
  db <| task_rows ::= delete task |> <| task_controller_rows ::= cascade_controllers task |>.

(** The loop of DELETEs; each [io] is for one of them. *)
Fixpoint expire_tasks (io : nat → option StoreError) (cutoff : N)
    (bindings : list TaskControllerBinding) (s : Snapshot) (scopes : list TaskScope)
    (db : ownership) : ownership * result unit StoreError :=
  match scopes with
  | [] => (db, Ok tt)
  | scope :: scopes =>
      if task_expired cutoff bindings s scope then
        match io (length scopes) with
        | Some e => (db, Err e)
        | None => expire_tasks io cutoff bindings s scopes (delete_task (scope_task_id scope) db)
        end
      else expire_tasks io cutoff bindings s scopes db
  end.
(** [HistoryStore::bind_task_controllers]: what it wrote before an error stays. The
    source takes the connection for each of its uses; here no other thread writes between
    them. The [io]s are for its uses of the connection in turn, the DELETEs being the last ones. *)
Definition bind_task_controllers (io1 io2 io3 : option StoreError) (io : nat → option StoreError)
    (s : Snapshot) (db : ownership) : ownership * result unit StoreError :=
  match task_scopes io1 db with
  | Err e => (db, Err e)
  | Ok scopes =>
      match with_connection io2 (bind_tasks scopes (processes s) db) with
      | Err e => (db, Err e)
      | Ok db =>
          if negb (proves_complete_exact_identity_coverage s) then (db, Ok tt)
          else
            match task_controller_bindings io3 db with
            | Err e => (db, Err e)
            | Ok bindings =>
                expire_tasks io (retention_cutoff (observed_at_unix_millis s)) bindings s scopes db
            end
      end
  end.

(** [HistoryStore::task_status]. *)
Definition task_status (io : option StoreError) (task : string) (db : ownership) :
    result (option TaskStatus) StoreError :=
  with_connection io (Ok (
    (λ g, mkTaskStatus task (session_name_from_id task) (grant_phase g) (g_release_reason g)
            (lease_incidents task (task_controller_rows db))) <$> task_rows db !! task)).
End Tasks.

(** ** Session owners *)

Record SessionOwnerLease : Type := mkSessionOwnerLease {
  sol_lease_id : string;
  sol_session_name : string;
  sol_selector_fingerprint : string;
  sol_generation : N;
  sol_capability : string;
}.

Record SessionOwnerStatus : Type := mkSessionOwnerStatus {
  sos_lease_id : string;
  sos_session_name : string;
  sos_selector_fingerprint : string;
  sos_generation : N;
  sos_controller_version : string;
  sos_phase : TaskPhase;
  sos_release_reason : option string;
  sos_controller_bound : bool;
  sos_incident_ids : list string;
}.

Record SessionOwnerScope : Type := mkSessionOwnerScope {
  so_lease_id : string;
  so_selector_fingerprint : string;
  so_session_name : string;
  so_controller_version : string;
  so_generation : N;
  so_granted : granted;
}.

Definition MAX_SESSION_OWNER_LEASES : nat := 4096.

(** [u64::try_from(generation).unwrap_or(1)]. *)
Definition public_generation (generation : Z) : N := default 1%N (u64_try_from generation).

(** A row replaces the best so far if it satisfies the condition and is of a higher
    generation. *)
Definition newer_lease (P : session_row → bool) (selector : string)
    (best : option (string * session_row)) (e : string * session_row) :
    option (string * session_row) :=
  if bool_decide (sl_selector e.2 = selector) && P e.2 then
    match best with
    | Some b => if bool_decide (sl_generation b.2 < sl_generation e.2)%Z then Some e else best
    | None => Some e
    end
  else best.

(** [WHERE selector_fingerprint = ?1 AND .. ORDER BY generation DESC LIMIT 1]. *)
Definition latest_lease (P : session_row → bool) (selector : string)
    (t : gmap string session_row) : option (string * session_row) :=
  fold_left (newer_lease P selector) (map_to_list t) None.

Section Sessions.
Context `{JT : Json TaskOwnerIdentity, JI : Json ProcessIdentity}.

Definition unreleased (r : session_row) : bool := bool_decide (g_released_at_us (sl_grant r) = None).

(** The selector is 16 lowercase hexadecimal digits. *)
Definition valid_selector (selector : string) : bool :=
  bool_decide (String.length selector = 16)
  && all_bytes (λ b, is_ascii_digit b || is_lower_hex_letter b) selector.

(** The declaration of a new generation; [lease] and [capability] are random. *)
Definition insert_lease (lease capability selector session version : string)
    (registrar : TaskOwnerIdentity) (now : N) (db : ownership) :
    result (ownership * SessionOwnerLease) StoreError :=
  guard? bool_decide (size (session_rows db) < MAX_SESSION_OWNER_LEASES)
    else StoreInvalid "session-owner registry capacity reached" in
  let generation :=
    (from_option (sl_generation ∘ snd) 0 (latest_lease (λ _, true) selector (session_rows db)) + 1)%Z in
  let? created := sqlite_millis now "session-owner declaration" in
  let row :=
    mkSessionRow selector session version generation (new_grant capability registrar created) in
  guard? bool_decide (session_rows db !! lease = None)
    else StoreSqlite "UNIQUE constraint failed: session_owner_leases.lease_id" in
  guard? session_check lease row
    else StoreSqlite "CHECK constraint failed: session_owner_leases" in
  Ok (db <| session_rows ::= <[lease := row]> |>,
      mkSessionOwnerLease lease session selector (public_generation generation) capability).

(** [HistoryStore::declare_session_owner]; the second read of the row in the same
    transaction repeats the comparison of its facts. *)
Definition declare_session_owner (lease capability : string) (io : option StoreError)
    (selector session version : string) (registrar : TaskOwnerIdentity) (now : N)
    (db : ownership) : result (ownership * SessionOwnerLease) StoreError :=
  guard? valid_selector selector
    else StoreInvalid "invalid session-owner selector fingerprint" in
  guard? valid_ordinary_session_name session else StoreInvalid "invalid ordinary session name" in
  guard? negb (is_empty version) && bool_decide (String.length version ≤ 64)
    else StoreInvalid "session-owner controller version must be 1..=64 bytes" in
  with_connection io (
  match latest_lease unreleased selector (session_rows db) with
  | Some (current, r) =>
      let? prior := from_json (g_registrar_json (sl_grant r)) in
      guard? bool_decide (prior = registrar)
        else StoreInvalid "session owner belongs to another registrar" in
      guard? bool_decide (sl_session_name r = session) && bool_decide (sl_version r = version)
        else StoreInvalid "active session-owner selector facts cannot be replaced" in
      Ok (db, mkSessionOwnerLease current session selector (public_generation (sl_generation r))
                (g_capability (sl_grant r)))
  | None => insert_lease lease capability selector session version registrar now db
  end).

Definition session_scope (entry : string * session_row) : result SessionOwnerScope StoreError :=
  let r := entry.2 in
  let? granted := read_grant "session-owner activation" "session-owner release" (sl_grant r) in
  Ok (mkSessionOwnerScope entry.1 (sl_selector r) (sl_session_name r) (sl_version r)
        (public_generation (sl_generation r)) granted).

(** [HistoryStore::session_owner_scopes]. *)
Definition session_owner_scopes (io : option StoreError) (db : ownership) :
    result (list SessionOwnerScope) StoreError :=
  with_connection io (collect_results session_scope (map_to_list (session_rows db))).

(** [HistoryStore::authorize_session_owner]; [io'] is for its second use of the connection. *)
Definition authorize_session_owner (io io' : option StoreError) (lease capability : string)
    (db : ownership) : result SessionOwnerScope StoreError :=
  let? matches :=
    with_connection io
      (Ok (bool_decide ((g_capability ∘ sl_grant <$> session_rows db !! lease) = Some capability))) in
  guard? matches else StoreInvalid "session-owner capability does not match" in
  let? scopes := session_owner_scopes io' db in
  ok_or (List.find (λ s, bool_decide (so_lease_id s = lease)) scopes)
    (StoreInvalid "session owner is unavailable").

Definition with_grant (f : grant → grant) (r : session_row) : session_row :=
  mkSessionRow (sl_selector r) (sl_session_name r) (sl_version r) (sl_generation r)
    (f (sl_grant r)).

(** [HistoryStore::activate_session_owner]. *)
Definition activate_session_owner (io : option StoreError) (lease : string)
    (owner : TaskOwnerIdentity) (now : N) (db : ownership) : result ownership StoreError :=
  with_connection io (
  let? r := ok_or (session_rows db !! lease) (StoreSqlite "Query returned no rows") in
  let? g :=
    activate_grant "released session owners cannot be activated" "session owner cannot be replaced"
      "session-owner activation" owner now (sl_grant r) in
  Ok (db <| session_rows ::= <[lease := with_grant (λ _, g) r]> |>)).

(** [HistoryStore::release_session_owner]. *)
Definition release_session_owner (io : option StoreError) (lease : string) (now : N)
    (reason : string) (owner : option TaskOwnerIdentity) (db : ownership) :
    result ownership StoreError :=
  with_connection io (
  let? released :=
    sqlite_u64 (saturating_mul (saturating_add now 1) 1000) "session-owner release" in
  Ok (db <| session_rows ::= alter (with_grant (release_grant released reason owner)) lease |>)).

(** The loop of [current_session_owner_scopes]: of each selector the scope of the
    highest generation. *)
Definition keep_newest (current : gmap string SessionOwnerScope) (scope : SessionOwnerScope) :
    gmap string SessionOwnerScope :=
  match current !! so_selector_fingerprint scope with
  | Some existing =>
      if bool_decide (so_generation existing < so_generation scope)%N
      then <[so_selector_fingerprint scope := scope]> current else current
  | None => <[so_selector_fingerprint scope := scope]> current
  end.

(** [HistoryStore::current_session_owner_scopes]. *)
Definition current_session_owner_scopes (io : option StoreError) (db : ownership) :
    result (list SessionOwnerScope) StoreError :=
  let? scopes := session_owner_scopes io db in
  Ok (btree_values String.le (fold_left keep_newest scopes ∅)).

(** The declared facts of a scope are those of the controller. *)
Definition selects (cli : PlaywrightCliRuntime) (selector : string) (s : SessionOwnerScope) : bool :=
  bool_decide (so_selector_fingerprint s = selector)
  && bool_decide (so_session_name s = cli_session_name cli)
  && bool_decide (so_controller_version s = cli_version cli).

(** The session owner a process of the snapshot is bound to. *)
Definition session_of (scopes : list SessionOwnerScope) (p : ProcessRecord) :
    option SessionOwnerScope :=
  cli ← playwright_cli (runtime p);
  if task_id_from_session (cli_session_name cli) then None else
  selector ← cli_selector_fingerprint cli;
  scope ← List.find (selects cli selector) scopes;
  activated ← gr_activated_at_us (so_granted scope);
  if born_in (so_granted scope) activated p
     && bool_decide (is_Some (executable_device (identity p)))
     && bool_decide (is_Some (executable_inode (identity p)))
  then Some scope else None.

(** The loop over the processes, in one transaction. *)
Fixpoint bind_sessions (scopes : list SessionOwnerScope) (processes : list ProcessRecord)
    (db : ownership) : result ownership StoreError :=
  match processes with
  | [] => Ok db
  | p :: processes =>
      match session_of scopes p with
      | None => bind_sessions scopes processes db
      | Some scope =>
          let lease := so_lease_id scope in
          let? t :=
            bind_controller (bool_decide (is_Some (session_rows db !! lease))) lease p
              (session_controller_rows db) in
          bind_sessions scopes processes (db <| session_controller_rows := t |>)
      end
  end.

(** The controller of a current lease. *)
Definition session_binding (current : gmap string SessionOwnerScope) (row : controller_row) :
    option (result SessionOwnerBinding StoreError) :=
  scope ← current !! cr_lease row;
  Some (let? controller := from_json (cr_identity_json row) in
        Ok (mkSessionOwnerBinding (cr_lease row) (so_selector_fingerprint scope)
              (so_session_name scope) (so_controller_version scope) controller
              (bool_decide (is_Some (gr_released_at_us (so_granted scope)))))).

Definition by_lease : relation controller_row := λ a b, String.le (cr_lease a) (cr_lease b).

#[export] Instance by_lease_dec : RelDecision by_lease.
Proof. unfold by_lease. intros a b. apply _. Defined.

(** [HistoryStore::session_owner_bindings]. *)
Definition session_owner_bindings (io io' : option StoreError) (db : ownership) :
    result (list SessionOwnerBinding) StoreError :=
  let? scopes := current_session_owner_scopes io db in
  let current := collect_map ((λ s, (so_lease_id s, s)) <$> scopes) in
  with_connection io'
    (collect_results id (omap (session_binding current)
       (merge_sort by_lease (map_to_list (session_controller_rows db)).*2))).

(** [HistoryStore::session_owner_status]. *)
Definition session_owner_status (io : option StoreError) (lease : string) (db : ownership) :
    result (option SessionOwnerStatus) StoreError :=
  with_connection io (Ok (
    (λ r,
      let incidents := lease_incidents lease (session_controller_rows db) in
      mkSessionOwnerStatus lease (sl_session_name r) (sl_selector r)
        (public_generation (sl_generation r)) (sl_version r) (grant_phase (sl_grant r))
        (g_release_reason (sl_grant r)) (negb (bool_decide (incidents = []))) incidents)
      <$> session_rows db !! lease)).

Definition names_selector (selector : string) (p : ProcessRecord) : bool :=
  bool_decide ((playwright_cli (runtime p) ≫= cli_selector_fingerprint) = Some selector).

Definition session_expired (cutoff : N) (s : Snapshot) (scope : SessionOwnerScope) : bool :=
  match gr_released_at_us (so_granted scope) with
  | Some released => bool_decide (released < cutoff)%N
  | None => false
  end
  && negb (existsb (names_selector (so_selector_fingerprint scope)) (processes s)).

Definition delete_lease (lease : string) (db : ownership) : ownership :=
  db <| session_rows ::= delete lease |> <| session_controller_rows ::= cascade_controllers lease |>.

(** The loop of DELETEs; each [io] is for one of them. *)
Fixpoint expire_sessions (io : nat → option StoreError) (cutoff : N) (s : Snapshot)
    (scopes : list SessionOwnerScope) (db : ownership) : ownership * result unit StoreError :=
  match scopes with
  | [] => (db, Ok tt)
  | scope :: scopes =>
      if session_expired cutoff s scope then
        match io (length scopes) with
        | Some e => (db, Err e)
        | None => expire_sessions io cutoff s scopes (delete_lease (so_lease_id scope) db)
        end
      else expire_sessions io cutoff s scopes db
  end.

(** [HistoryStore::prune_session_owner_leases]. *)
Definition prune_session_owner_leases (io3 : option StoreError) (io : nat → option StoreError)
    (s : Snapshot) (db : ownership) : ownership * result unit StoreError :=
  if negb (proves_complete_exact_identity_coverage s) then (db, Ok tt)
  else
    match session_owner_scopes io3 db with
    | Err e => (db, Err e)
    | Ok scopes =>
        expire_sessions io (retention_cutoff (observed_at_unix_millis s)) s scopes db
    end.

(** [HistoryStore::bind_session_owner_controllers]: what it wrote before an error stays. The
    source takes the connection for each of its uses; here no other thread writes between
    them. *)
Definition bind_session_owner_controllers (io1 io2 io3 : option StoreError)
    (io : nat → option StoreError) (s : Snapshot) (db : ownership) :
    ownership * result unit StoreError :=
  match current_session_owner_scopes io1 db with
  | Err e => (db, Err e)
  | Ok scopes =>
      match with_connection io2 (bind_sessions scopes (processes s) db) with
      | Err e => (db, Err e)
      | Ok db => prune_session_owner_leases io3 io s db
      end
  end.
End Sessions.
