(* ===== verification/OwnersFacts.v ===== *)
(** OwnersFacts: the leases, verified.

    A lease evolves: what it was given for never changes, its owner is named once, its
    release is final. It disappears only when it expired, its time served and no process
    left that names it. *)

From S2P Require Import Prelude Text Model Fingerprint Task Cooling Names Store.
From S2P Require Import Evidence Cleanup Executor Analyzer Journal Effects ExecutorSafety.
From S2P Require Import ExecutorGuarantees JournalFacts Protocol Mutations Owners.

(** ** Evolution *)

(** What an operation may have made of a grant. *)
Record evolves (g g' : grant) : Prop := {
  evolves_capability : g_capability g' = g_capability g;
  evolves_registrar : g_registrar_json g' = g_registrar_json g;
  evolves_created : g_created_at_ms g' = g_created_at_ms g;
  evolves_owner : is_Some (g_owner_json g) →
    g_owner_json g' = g_owner_json g ∧ g_activated_at_us g' = g_activated_at_us g;
  evolves_released : is_Some (g_released_at_us g) → g' = g;
}.

#[export] Instance evolves_refl : Reflexive evolves.
Proof. intros g. by split. Qed.

#[export] Instance evolves_trans : Transitive evolves.
Proof.
  intros g1 g2 g3 [] []. split; [congruence..| |].
  - intros Ho. destruct (evolves_owner0 Ho) as [Ho2 Ha2].
    destruct evolves_owner1 as [Ho3 Ha3]; [by rewrite Ho2|]. split; congruence.
  - intros Hr. rewrite (evolves_released0 Hr) in *. by apply evolves_released1.
Qed.

Section Grants.
Context `{JT : Json TaskOwnerIdentity, JI : Json ProcessIdentity}.

Lemma activate_evolves released replaced label owner now g g' :
  activate_grant released replaced label owner now g = Ok g' →
  evolves g g' ∧ g_released_at_us g = None ∧
  (g' = g ∨ g_owner_json g = None ∧ g_owner_json g' = Some (json_to_string owner)).
Proof.
  unfold activate_grant. intros [Hr H]%guard_Ok.
  apply negb_true_iff, bool_decide_eq_false in Hr. rewrite <-eq_None_not_Some in Hr.
  destruct (g_owner_json g) as [prior|] eqn:Ho.
  - apply result_bind_Ok in H as (p & _ & H). apply guard_Ok in H as [_ [= <-]].
    split; [done|]. split; [done|]. by left.
  - apply result_bind_Ok in H as (a & _ & [= <-]). split; [|split; [done|right; by split]].
    split; simpl; [done..| |]; rewrite ?Ho, ?Hr; by intros [].
Qed.

Lemma release_evolves at_ reason owner g : evolves g (release_grant at_ reason owner g).
Proof.
  unfold release_grant. destruct (releasable owner g) eqn:Hr; [|done].
  unfold releasable in Hr. apply andb_true_iff in Hr as [Hr%bool_decide_eq_true _].
  split; simpl; [done..|]. rewrite Hr. by intros [].
Qed.
End Grants.

(** ** Tables *)

(** The rows of a table that are still there evolved. *)
Definition rows_evolve {K V} `{Countable K} (grant_of : V → grant) (t t' : gmap K V) : Prop :=
  ∀ k v, t !! k = Some v → ∃ v', t' !! k = Some v' ∧ evolves (grant_of v) (grant_of v').

Lemma rows_evolve_refl {K V} `{Countable K} (grant_of : V → grant) (t : gmap K V) :
  rows_evolve grant_of t t.
Proof. intros k v Hv. by exists v. Qed.

Lemma rows_evolve_insert {K V} `{Countable K} (grant_of : V → grant) (t : gmap K V) k v :
  (∀ v0, t !! k = Some v0 → evolves (grant_of v0) (grant_of v)) →
  rows_evolve grant_of t (<[k := v]> t).
Proof.
  intros Hv k' v' Hk'. destruct (decide (k = k')) as [<-|Hne].
  - exists v. rewrite lookup_insert_eq. split; [done|]. by apply Hv.
  - exists v'. by rewrite lookup_insert_ne.
Qed.

Lemma rows_evolve_alter {K V} `{Countable K} (grant_of : V → grant) (t : gmap K V) f k :
  (∀ v, evolves (grant_of v) (grant_of (f v))) → rows_evolve grant_of t (alter f k t).
Proof.
  intros Hf k' v Hv. destruct (decide (k = k')) as [<-|Hne].
  - exists (f v). by rewrite lookup_alter_eq, Hv.
  - exists v. by rewrite lookup_alter_ne.
Qed.

(** ** Reading the rows *)

Section Facts.
Context `{JT : Json TaskOwnerIdentity, JI : Json ProcessIdentity}.

Lemma collect_results_Ok {A B E} (f : A → result B E) l bs :
  collect_results f l = Ok bs → Forall2 (λ a b, f a = Ok b) l bs.
Proof.
  revert bs. induction l as [|a l IH]; simpl; intros bs H; [by injection H as <-|].
  apply result_bind_Ok in H as (b & Hb & H). apply result_bind_Ok in H as (bs' & Hl & [= <-]).
  constructor; [done|]. by apply IH.
Qed.

Lemma collect_results_elem {A B E} (f : A → result B E) l bs b :
  collect_results f l = Ok bs → b ∈ bs → ∃ a, a ∈ l ∧ f a = Ok b.
Proof.
  intros H%collect_results_Ok (i & Hi)%list_elem_of_lookup.
  destruct (Forall2_lookup_r _ _ _ _ _ H Hi) as (a & Ha & Hf).
  exists a. split; [by eapply list_elem_of_lookup_2|done].
Qed.

Lemma read_grant_Ok activation release g x :
  read_grant activation release g = Ok x →
  from_json (g_registrar_json g) = Ok (gr_registrar x) ∧
  option_transpose from_json (g_owner_json g) = Ok (gr_owner x) ∧
  (Z.of_N <$> gr_activated_at_us x) = g_activated_at_us g ∧
  (Z.of_N <$> gr_released_at_us x) = g_released_at_us g.
Proof.
  assert (∀ o label y, option_transpose (λ v, parse_nonnegative_millis v label) o = Ok y →
    (Z.of_N <$> y) = o) as Htime.
  { intros [v|] label y H; simpl in H; [|by injection H as <-].
    apply result_bind_Ok in H as (n & Hn & [= <-]).
    unfold parse_nonnegative_millis, u64_or_corrupt, u64_try_from in Hn.
    case_bool_decide; [|done]. injection Hn as <-. simpl. f_equal. lia. }
  unfold read_grant. intros H.
  apply result_bind_Ok in H as (registrar & Hr & H). apply result_bind_Ok in H as (owner & Ho & H).
  apply result_bind_Ok in H as (a & Ha & H). apply result_bind_Ok in H as (r & Hrel & [= <-]).
  simpl. split; [done|]. split; [done|]. split; by eapply Htime.
Qed.

Lemma task_scopes_elem io db scopes scope :
  task_scopes io db = Ok scopes → scope ∈ scopes →
  ∃ g, task_rows db !! scope_task_id scope = Some g ∧
    read_grant "task activation" "task release" g = Ok (scope_granted scope).
Proof.
  intros [_ H]%with_connection_Ok Hin.
  destruct (collect_results_elem _ _ _ _ H Hin) as ([t g] & He & Hs).
  apply result_bind_Ok in Hs as (x & Hx & [= <-]). simpl in *.
  exists g. split; [by apply elem_of_map_to_list in He|done].
Qed.

Lemma session_scopes_elem io db scopes scope :
  session_owner_scopes io db = Ok scopes → scope ∈ scopes →
  ∃ r, session_rows db !! so_lease_id scope = Some r ∧ session_scope (so_lease_id scope, r) = Ok scope.
Proof.
  intros [_ H]%with_connection_Ok Hin.
  destruct (collect_results_elem _ _ _ _ H Hin) as ([l r] & He & Hs).
  pose proof Hs as Hs'. apply result_bind_Ok in Hs' as (x & Hx & [= <-]). simpl in *.
  exists r. split; [by apply elem_of_map_to_list in He|done].
Qed.

(** ** Expiry *)

(** A lease that was released long ago and that nothing of a complete snapshot names. *)
Definition served (s : Snapshot) (g : grant) (names : ProcessRecord → Prop) : Prop :=
  proves_complete_exact_identity_coverage s = true ∧
  (∃ r, g_released_at_us g = Some r ∧
     (r < Z.of_N (retention_cutoff (observed_at_unix_millis s)))%Z) ∧
  ∀ p, p ∈ processes s → ¬ names p.

Definition task_named (task : string) (p : ProcessRecord) : Prop :=
  (task_session_name (runtime p) ≫= task_id_from_session) = Some task.

Definition selector_named (selector : string) (p : ProcessRecord) : Prop :=
  (playwright_cli (runtime p) ≫= cli_selector_fingerprint) = Some selector.

Lemma expire_tasks_rows io cutoff bindings s scopes db db' r t g :
  expire_tasks io cutoff bindings s scopes db = (db', r) → task_rows db !! t = Some g →
  task_rows db' !! t = Some g ∨
  ∃ scope, scope ∈ scopes ∧ scope_task_id scope = t ∧ task_expired cutoff bindings s scope = true.
Proof.
  revert db. induction scopes as [|scope scopes IH]; simpl; intros db H Hg.
  { injection H as <- _. by left. }
  destruct (task_expired cutoff bindings s scope) eqn:He.
  - destruct (io (length scopes)); [injection H as <- _; by left|].
    destruct (decide (scope_task_id scope = t)) as [Ht|Ht].
    + right. exists scope. split; [by constructor|done].
    + destruct (IH (delete_task (scope_task_id scope) db) H) as [?|(x & Hx & ?)];
        [simpl; by rewrite lookup_delete_ne|by left|].
      right. exists x. split; [by constructor|done].
  - destruct (IH db H Hg) as [?|(x & Hx & ?)]; [by left|].
    right. exists x. split; [by constructor|done].
Qed.

Lemma expire_sessions_rows io cutoff s scopes db db' r l row :
  expire_sessions io cutoff s scopes db = (db', r) → session_rows db !! l = Some row →
  session_rows db' !! l = Some row ∨
  ∃ scope, scope ∈ scopes ∧ so_lease_id scope = l ∧ session_expired cutoff s scope = true.
Proof.
  revert db. induction scopes as [|scope scopes IH]; simpl; intros db H Hg.
  { injection H as <- _. by left. }
  destruct (session_expired cutoff s scope) eqn:He.
  - destruct (io (length scopes)); [injection H as <- _; by left|].
    destruct (decide (so_lease_id scope = l)) as [Ht|Ht].
    + right. exists scope. split; [by constructor|done].
    + destruct (IH (delete_lease (so_lease_id scope) db) H) as [?|(x & Hx & ?)];
        [simpl; by rewrite lookup_delete_ne|by left|].
      right. exists x. split; [by constructor|done].
  - destruct (IH db H Hg) as [?|(x & Hx & ?)]; [by left|].
    right. exists x. split; [by constructor|done].
Qed.

(** The DELETEs only delete. *)
Lemma expire_tasks_subset io cutoff bindings s scopes db db' r :
  expire_tasks io cutoff bindings s scopes db = (db', r) → task_rows db' ⊆ task_rows db.
Proof.
  revert db. induction scopes as [|scope scopes IH]; simpl; intros db H; [by injection H as <- _|].
  destruct (task_expired cutoff bindings s scope); [|by apply IH].
  destruct (io (length scopes)); [by injection H as <- _|].
  etransitivity; [by eapply IH|]. simpl. apply delete_subseteq.
Qed.

Lemma expire_sessions_subset io cutoff s scopes db db' r :
  expire_sessions io cutoff s scopes db = (db', r) → session_rows db' ⊆ session_rows db.
Proof.
  revert db. induction scopes as [|scope scopes IH]; simpl; intros db H; [by injection H as <- _|].
  destruct (session_expired cutoff s scope); [|by apply IH].
  destruct (io (length scopes)); [by injection H as <- _|].
  etransitivity; [by eapply IH|]. simpl. apply delete_subseteq.
Qed.

Lemma existsb_false_elem {A} (f : A → bool) l x : existsb f l = false → x ∈ l → f x = false.
Proof. rewrite existsb_false. auto. Qed.

Lemma bind_tasks_rows scopes ps db db' :
  bind_tasks scopes ps db = Ok db' → task_rows db' = task_rows db ∧
    session_rows db' = session_rows db ∧ session_controller_rows db' = session_controller_rows db.
Proof.
  revert db. induction ps as [|p ps IH]; simpl; intros db H; [by injection H as <-|].
  destruct (task_of scopes p) as [scope|]; [|by apply IH].
  apply result_bind_Ok in H as (t & _ & H). by apply IH in H.
Qed.

Lemma bind_controller_subset b lease p t t' : bind_controller b lease p t = Ok t' → t ⊆ t'.
Proof.
  unfold bind_controller. destruct (t !! _) eqn:E; [by intros [= <-]|].
  intros [_ [= <-]]%guard_Ok. by apply insert_subseteq.
Qed.

Lemma bind_tasks_subset scopes ps db db' :
  bind_tasks scopes ps db = Ok db' → task_controller_rows db ⊆ task_controller_rows db'.
Proof.
  revert db. induction ps as [|p ps IH]; simpl; intros db H; [by injection H as <-|].
  destruct (task_of scopes p) as [scope|]; [|by apply IH].
  apply result_bind_Ok in H as (t & Ht%bind_controller_subset & H).
  etransitivity; [exact Ht|]. by apply IH in H.
Qed.

(** Every controller of a task that is there is read. *)
Lemma bindings_read io db bindings key row g :
  task_controller_bindings io db = Ok bindings → task_controller_rows db !! key = Some row →
  task_rows db !! cr_lease row = Some g →
  ∃ b, b ∈ bindings ∧ Task.task_id b = cr_lease row ∧
    from_json (cr_identity_json row) = Ok (task_controller b).
Proof.
  intros [_ H%collect_results_Ok]%with_connection_Ok Hrow Hg.
  set (b := let? controller := from_json (cr_identity_json row) in
            Ok (mkTaskControllerBinding (cr_lease row) controller
                  (bool_decide (is_Some (g_released_at_us g)))) : result TaskControllerBinding StoreError).
  assert (b ∈ omap (λ e : string * controller_row, task_binding db e.2)
    (map_to_list (task_controller_rows db))) as Hin.
  { apply list_elem_of_omap. exists (key, row). split; [by apply elem_of_map_to_list|].
    unfold task_binding. simpl. by rewrite Hg. }
  apply list_elem_of_lookup in Hin as [i Hi].
  destruct (Forall2_lookup_l _ _ _ _ _ H Hi) as (x & Hx & Hbx). unfold b in Hbx. simpl in Hbx.
  apply result_bind_Ok in Hbx as (c & Hc & [= <-]).
  eexists. split; [by eapply list_elem_of_lookup_2|done].
Qed.

Lemma bind_sessions_rows scopes ps db db' :
  bind_sessions scopes ps db = Ok db' → session_rows db' = session_rows db ∧
    task_rows db' = task_rows db ∧ task_controller_rows db' = task_controller_rows db.
Proof.
  revert db. induction ps as [|p ps IH]; simpl; intros db H; [by injection H as <-|].
  destruct (session_of scopes p) as [scope|]; [|by apply IH].
  apply result_bind_Ok in H as (t & _ & H). by apply IH in H.
Qed.

Lemma expire_tasks_sessions io cutoff bindings s scopes db db' r :
  expire_tasks io cutoff bindings s scopes db = (db', r) →
  session_rows db' = session_rows db ∧ session_controller_rows db' = session_controller_rows db.
Proof.
  revert db. induction scopes as [|scope scopes IH]; simpl; intros db H; [by injection H as <- _|].
  destruct (task_expired cutoff bindings s scope); [|by apply IH].
  destruct (io (length scopes)); [by injection H as <- _|]. by apply IH in H.
Qed.

Lemma expire_sessions_tasks io cutoff s scopes db db' r :
  expire_sessions io cutoff s scopes db = (db', r) →
  task_rows db' = task_rows db ∧ task_controller_rows db' = task_controller_rows db.
Proof.
  revert db. induction scopes as [|scope scopes IH]; simpl; intros db H; [by injection H as <- _|].
  destruct (session_expired cutoff s scope); [|by apply IH].
  destruct (io (length scopes)); [by injection H as <- _|]. by apply IH in H.
Qed.
End Facts.

(** ** Steps *)

Section Steps.
Context `{JT : Json TaskOwnerIdentity, JI : Json ProcessIdentity}.

Lemma released_before g x cutoff :
  (Z.of_N <$> gr_released_at_us x) = g_released_at_us g →
  match gr_released_at_us x with Some r => bool_decide (r < cutoff)%N | None => false end = true →
  ∃ r, g_released_at_us g = Some r ∧ (r < Z.of_N cutoff)%Z.
Proof.
  intros <-. destruct (gr_released_at_us x) as [r|]; [|done].
  intros H%bool_decide_eq_true. exists (Z.of_N r). split; [done|lia].
Qed.

(** No process of the snapshot is one that the task has bound. *)
Definition unbound (s : Snapshot) (task : string) (db : ownership) : Prop :=
  ∀ key row i p, task_controller_rows db !! key = Some row → cr_lease row = task →
    from_json (cr_identity_json row) = Ok i → p ∈ processes s → exact_match i (identity p) = false.

Lemma bind_tasks_expire io1 io2 io3 io s db db' r :
  bind_task_controllers io1 io2 io3 io s db = (db', r) →
  session_rows db' = session_rows db ∧ task_rows db' ⊆ task_rows db ∧
  ∀ t g, task_rows db !! t = Some g →
    task_rows db' !! t = Some g ∨ served s g (task_named t) ∧ unbound s t db.
Proof.
  unfold bind_task_controllers. intros H.
  destruct (task_scopes io1 db) as [scopes|e] eqn:Hs; [|injection H as <- _; auto].
  destruct (with_connection io2 _) as [db1|e] eqn:Hb; [|injection H as <- _; auto].
  apply with_connection_Ok in Hb as [_ Hb]. pose proof (bind_tasks_subset _ _ _ _ Hb) as Hsub.
  apply bind_tasks_rows in Hb as (Hrows & Hsess & _).
  destruct (proves_complete_exact_identity_coverage s) eqn:Hc; simpl in H;
    [|injection H as <- _; rewrite Hrows, Hsess; auto].
  destruct (task_controller_bindings io3 db1) as [bindings|e] eqn:Hbind;
    [|injection H as <- _; rewrite Hrows, Hsess; auto].
  split; [by apply expire_tasks_sessions in H as [-> _]|].
  split; [rewrite <-Hrows; by eapply expire_tasks_subset|]. intros t g Hg. rewrite <-Hrows in Hg.
  destruct (expire_tasks_rows _ _ _ _ _ _ _ _ _ _ H Hg) as [?|(scope & Hin & <- & He)]; [by left|right].
  destruct (task_scopes_elem _ _ _ _ Hs Hin) as (g0 & Hg0 & Hread).
  assert (g0 = g) as -> by congruence. apply read_grant_Ok in Hread as (_ & _ & _ & Hrel).
  unfold task_expired in He. apply andb_true_iff in He as [He Hn%negb_true_iff].
  split; [split; [done|]; split; [by eapply released_before|]|].
  - intros p Hp Hname. apply (existsb_false_elem _ _ p) in Hn; [|done].
    unfold names_task in Hn. apply orb_false_iff in Hn as [Hn _]. unfold task_named in Hname.
    by rewrite bool_decide_eq_true_2 in Hn.
  - intros key row i p Hrow Hlease Hi Hp. apply (existsb_false_elem _ _ p) in Hn; [|done].
    unfold names_task in Hn. apply orb_false_iff in Hn as [_ Hn].
    destruct (bindings_read _ _ _ key row g Hbind) as (b & Hb & Hid & Hb');
      [by eapply lookup_weaken|by rewrite Hlease|].
    apply (existsb_false_elem _ _ b) in Hn; [|done]. cbn beta in Hn.
    rewrite bool_decide_eq_true_2 in Hn by (by rewrite Hid). rewrite Hb' in Hi. by injection Hi as <-.
Qed.

Lemma current_scopes_elem io db scopes scope :
  current_session_owner_scopes io db = Ok scopes → scope ∈ scopes →
  ∃ all, session_owner_scopes io db = Ok all ∧ fold_left keep_newest all ∅ !! so_selector_fingerprint scope = Some scope
    ∧ scope ∈ all.
Proof.
  intros H Hin. apply result_bind_Ok in H as (all & Hall & [= <-]). exists all. split; [done|].
  assert (∀ l m, (∀ k x, m !! k = Some x → so_selector_fingerprint x = k) →
    (∀ k x, fold_left keep_newest l m !! k = Some x → so_selector_fingerprint x = k ∧ (x ∈ l ∨ m !! k = Some x)))
    as Hfold.
  { clear. induction l as [|y l IH]; simpl; intros m Hm k x Hx; [split; [by apply Hm|by right]|].
    destruct (IH (keep_newest m y)) with (k := k) (x := x) as [Hk Hor]; [|done|].
    - intros k' x'. unfold keep_newest.
      destruct (m !! so_selector_fingerprint y) as [e|]; [case_bool_decide; [|apply Hm]|];
        (intros [[<- <-]|[_ Hin]]%lookup_insert_Some; [done|by apply Hm]).
    - split; [done|]. destruct Hor as [Hl|Hm']; [left; by constructor|].
      unfold keep_newest in Hm'.
      destruct (m !! so_selector_fingerprint y) as [e|]; [case_bool_decide|];
        try apply lookup_insert_Some in Hm' as [[_ <-]|[_ Hm']]; auto; left; by constructor. }
  apply elem_of_btree_values in Hin as [k Hk].
  destruct (Hfold all ∅ ltac:(intros ?? Hx; by rewrite lookup_empty in Hx) k scope Hk) as [<- [Hl|H0]]; [by split|].
  by rewrite lookup_empty in H0.
Qed.

Lemma bind_sessions_expire io1 io2 io3 io s db db' r :
  bind_session_owner_controllers io1 io2 io3 io s db = (db', r) →
  task_rows db' = task_rows db ∧ session_rows db' ⊆ session_rows db ∧
  ∀ l row, session_rows db !! l = Some row →
    session_rows db' !! l = Some row ∨ served s (sl_grant row) (selector_named (sl_selector row)).
Proof.
  unfold bind_session_owner_controllers. intros H.
  destruct (current_session_owner_scopes io1 db) as [scopes|e]; [|injection H as <- _; auto].
  destruct (with_connection io2 _) as [db1|e] eqn:Hb; [|injection H as <- _; auto].
  apply with_connection_Ok in Hb as [_ Hb]. apply bind_sessions_rows in Hb as (Hrows & Htasks & _).
  unfold prune_session_owner_leases in H.
  destruct (proves_complete_exact_identity_coverage s) eqn:Hc; simpl in H;
    [|injection H as <- _; rewrite Hrows, Htasks; auto].
  destruct (session_owner_scopes io3 db1) as [all|e] eqn:Hs; [|injection H as <- _; rewrite Hrows, Htasks; auto].
  split; [by apply expire_sessions_tasks in H as [-> _]|].
  split; [rewrite <-Hrows; by eapply expire_sessions_subset|]. intros l row Hg. rewrite <-Hrows in Hg.
  destruct (expire_sessions_rows _ _ _ _ _ _ _ _ _ H Hg) as [?|(scope & Hin & <- & He)]; [by left|right].
  destruct (session_scopes_elem _ _ _ _ Hs Hin) as (row0 & Hg0 & Hread).
  assert (row0 = row) as -> by congruence. apply result_bind_Ok in Hread as (x & Hread & Hx).
  apply read_grant_Ok in Hread as (_ & _ & _ & Hrel). simpl in Hx.
  injection Hx as Hx.
  unfold session_expired in He. rewrite <-Hx in He. simpl in He.
  apply andb_true_iff in He as [He Hn%negb_true_iff].
  split; [done|]. split; [by eapply released_before|]. intros p Hp Hname.
  apply (existsb_false_elem _ _ p) in Hn; [|done]. unfold names_selector in Hn.
  by rewrite bool_decide_eq_true_2 in Hn.
Qed.
End Steps.

(** ** Permanence *)

Section Permanence.
Context `{JT : Json TaskOwnerIdentity, JI : Json ProcessIdentity}.

(** An operation on the leases that was committed, with what a binding wrote before an
    error; the random texts are whatever they are. *)
Inductive lease_step : ownership → ownership → Prop :=
| step_reserve token io task registrar now db db' lease :
    reserve_task token io task registrar now db = Ok (db', lease) → lease_step db db'
| step_activate io task owner now db db' :
    activate_task io task owner now db = Ok db' → lease_step db db'
| step_release io task now reason owner db db' :
    release_task io task now reason owner db = Ok db' → lease_step db db'
| step_bind io1 io2 io3 io s db :
    lease_step db (bind_task_controllers io1 io2 io3 io s db).1
| step_declare lease capability io selector session version registrar now db db' given :
    declare_session_owner lease capability io selector session version registrar now db =
      Ok (db', given) → lease_step db db'
| step_activate_session io lease owner now db db' :
    activate_session_owner io lease owner now db = Ok db' → lease_step db db'
| step_release_session io lease now reason owner db db' :
    release_session_owner io lease now reason owner db = Ok db' → lease_step db db'
| step_bind_session io1 io2 io3 io s db :
    lease_step db (bind_session_owner_controllers io1 io2 io3 io s db).1.

(** Every row of a table evolved, or was deleted by a step that may. *)
Definition rows_last {V} (evo : V → V → Prop) (may_delete : ownership → ownership → string → V → Prop)
    (rows : ownership → gmap string V) (db db' : ownership) : Prop :=
  ∀ k v, rows db !! k = Some v →
    (∃ v', rows db' !! k = Some v' ∧ evo v v') ∨ rows db' !! k = None ∧ may_delete db db' k v.

(** The binding of a snapshot deletes a task: it was released before the retention, and no
    process of the complete snapshot names it or is bound to it. *)
Definition deletes_task (db db' : ownership) (task : string) (g : grant) : Prop :=
  ∃ io1 io2 io3 io s, db' = (bind_task_controllers io1 io2 io3 io s db).1 ∧
    served s g (task_named task) ∧ unbound s task db.

(** The binding of a snapshot deletes a session owner: it was released before the retention,
    and no process of the complete snapshot names its selector. *)
Definition deletes_session (db db' : ownership) (lease : string) (r : session_row) : Prop :=
  ∃ io1 io2 io3 io s, db' = (bind_session_owner_controllers io1 io2 io3 io s db).1 ∧
    served s (sl_grant r) (selector_named (sl_selector r)).

(** A session owner keeps its selector, too. *)
Definition session_evolves (r r' : session_row) : Prop :=
  evolves (sl_grant r) (sl_grant r') ∧ sl_selector r' = sl_selector r.

#[export] Instance session_evolves_refl : Reflexive session_evolves.
Proof. by intros r. Qed.

#[export] Instance session_evolves_trans : Transitive session_evolves.
Proof. intros r1 r2 r3 [? ?] [? ?]. split; [by etransitivity|congruence]. Qed.

Definition tasks_last : ownership → ownership → Prop := rows_last evolves deletes_task task_rows.

Definition sessions_last : ownership → ownership → Prop :=
  rows_last session_evolves deletes_session session_rows.

Lemma tasks_last_same db db' : task_rows db' = task_rows db → tasks_last db db'.
Proof. intros E k v Hv. left. exists v. by rewrite E. Qed.

Lemma sessions_last_same db db' : session_rows db' = session_rows db → sessions_last db db'.
Proof. intros E k v Hv. left. exists v. by rewrite E. Qed.

Lemma tasks_last_evolve db db' : rows_evolve id (task_rows db) (task_rows db') → tasks_last db db'.
Proof. intros He k v Hv. left. by apply He. Qed.

(** Nothing but a deletion, of rows that may be deleted. *)
Lemma rows_last_delete {V} evo `{!Reflexive evo} may_delete (rows : ownership → gmap string V) db db' :
  rows db' ⊆ rows db →
  (∀ k v, rows db !! k = Some v → rows db' !! k = Some v ∨ may_delete db db' k v) →
  rows_last evo may_delete rows db db'.
Proof.
  intros Hsub H k v Hv. destruct (rows db' !! k) as [v'|] eqn:E.
  - left. exists v'. pose proof (lookup_weaken _ _ _ _ E Hsub) as Hv'. split; [done|].
    rewrite Hv in Hv'. by injection Hv' as ->.
  - right. split; [done|]. destruct (H k v Hv); [congruence|done].
Qed.

(** A session row whose grant was changed. *)
Lemma sessions_last_alter db db' f lease :
  session_rows db' = alter (with_grant f) lease (session_rows db) → (∀ g, evolves g (f g)) →
  sessions_last db db'.
Proof.
  intros E Hf k v Hv. left. rewrite E. destruct (decide (lease = k)) as [->|Hne].
  - exists (with_grant f v). rewrite lookup_alter_eq, Hv. split; [done|]. split; [apply Hf|done].
  - exists v. by rewrite lookup_alter_ne.
Qed.

(** A session row that is new, or that evolved. *)
Lemma sessions_last_insert db db' lease r :
  session_rows db' = <[lease := r]> (session_rows db) →
  (∀ r0, session_rows db !! lease = Some r0 → session_evolves r0 r) → sessions_last db db'.
Proof.
  intros E Hr k v Hv. left. rewrite E. destruct (decide (lease = k)) as [->|Hne].
  - exists r. rewrite lookup_insert_eq. split; [done|]. by apply Hr.
  - exists v. by rewrite lookup_insert_ne.
Qed.

Lemma step_lasts db db' : lease_step db db' → tasks_last db db' ∧ sessions_last db db'.
Proof.
  intros [token io task registrar now db1 db2 lease H|io task owner now db1 db2 H
         |io task now reason owner db1 db2 H|io1 io2 io3 io s db1
         |lease capability io selector session version registrar now db1 db2 given H
         |io lease owner now db1 db2 H|io lease now reason owner db1 db2 H|io1 io2 io3 io s db1].
  - unfold reserve_task in H. inv_ok H. injection H as <- _. destruct (task_rows db1 !! task) eqn:Ht.
    + inv_ok Hstep. injection Hstep as <-. split; [by apply tasks_last_same|by apply sessions_last_same].
    + inv_ok Hstep. injection Hstep as <-. split; [|by apply sessions_last_same].
      apply tasks_last_evolve, rows_evolve_insert. simpl. congruence.
  - unfold activate_task in H. inv_ok H. apply ok_or_Ok in Hstep. injection H as <-.
    apply activate_evolves in Hstep0 as (He & _). split; [|by apply sessions_last_same].
    apply tasks_last_evolve, rows_evolve_insert. simpl. congruence.
  - unfold release_task in H. inv_ok H. injection H as <-. split; [|by apply sessions_last_same].
    apply tasks_last_evolve, rows_evolve_alter. intros g. apply release_evolves.
  - destruct (bind_task_controllers io1 io2 io3 io s db1) as [db2 r] eqn:H.
    apply bind_tasks_expire in H as H'. destruct H' as (Hs & Hsub & Ht).
    split; [|by apply sessions_last_same]. apply rows_last_delete; [apply _|done|].
    intros k g Hg. destruct (Ht k g Hg) as [?|[? ?]]; [by left|right].
    exists io1, io2, io3, io, s. by rewrite H.
  - unfold declare_session_owner in H. inv_ok H.
    destruct (latest_lease unreleased selector (session_rows db1)) as [[cur r]|].
    + inv_ok H. injection H as <- _. split; [by apply tasks_last_same|by apply sessions_last_same].
    + unfold insert_lease in H. inv_ok H. injection H as <- _. split; [by apply tasks_last_same|].
      repeat match goal with Hb : bool_decide (session_rows _ !! _ = None) = true |- _ =>
        apply bool_decide_eq_true in Hb end.
      assert (session_rows db1 !! lease = None) as Hnone by assumption.
      eapply sessions_last_insert; [reflexivity|]. intros r0 Hr0. congruence.
  - unfold activate_session_owner in H. inv_ok H. apply ok_or_Ok in Hstep. injection H as <-.
    apply activate_evolves in Hstep0 as (He & _). split; [by apply tasks_last_same|].
    eapply sessions_last_insert; [reflexivity|]. intros r0 Hr0. simplify_eq. by split.
  - unfold release_session_owner in H. inv_ok H. injection H as <-. split; [by apply tasks_last_same|].
    eapply sessions_last_alter; [reflexivity|]. intros g. apply release_evolves.
  - destruct (bind_session_owner_controllers io1 io2 io3 io s db1) as [db2 r] eqn:H.
    apply bind_sessions_expire in H as H'. destruct H' as (Hs & Hsub & Ht).
    split; [by apply tasks_last_same|]. apply rows_last_delete; [apply _|done|].
    intros k v Hv. destruct (Ht k v Hv) as [?|?]; [by left|right].
    exists io1, io2, io3, io, s. by rewrite H.
Qed.

(** The row lasted through a run, or one of its steps deleted it. *)
Lemma run_lasts {V} evo `{!PreOrder evo} may_delete (rows : ownership → gmap string V) db db' k v :
  (∀ db1 db2, lease_step db1 db2 → rows_last evo may_delete rows db1 db2) →
  rtc lease_step db db' → rows db !! k = Some v →
  (∃ v', rows db' !! k = Some v' ∧ evo v v') ∨
  ∃ dbm dbn vm, rtc lease_step db dbm ∧ rtc lease_step dbn db' ∧
    rows dbm !! k = Some vm ∧ evo v vm ∧ rows dbn !! k = None ∧ may_delete dbm dbn k vm.
Proof.
  intros Hlast Hrun. revert v. induction Hrun as [db|db db1 db' Hs Hrun IH]; intros v Hv.
  { left. by exists v. }
  destruct (Hlast _ _ Hs k v Hv) as [(v1 & Hv1 & He)|[Hnone Hdel]].
  - destruct (IH v1 Hv1) as [(v' & Hv' & He')|(dbm & dbn & vm & Hr & Hr' & Hm & He' & Hn)].
    + left. exists v'. split; [done|]. by etransitivity.
    + right. exists dbm, dbn, vm. split; [by eapply rtc_l|]. do 2 (split; [done|]).
      split; [by etransitivity|done].
  - right. exists db, db1, v. by split_and!.
Qed.

(** [C26] A lease is permanent. Whatever the hosts, the engine and the store do, a task or
    a session owner that was once registered keeps its capability and its registrar, a
    session owner its selector; it is owned by the first process it was activated for and
    by no other, and once released stays released at that time for that reason. Its row is
    deleted only by the binding of a complete snapshot, taken when the retention after its
    release was over, in which no process names it; a task, only if no process of the
    snapshot is one that is bound to it either. *)
Theorem leases_are_permanent db db' :
  rtc lease_step db db' →
  (∀ task g, task_rows db !! task = Some g →
     (∃ g', task_rows db' !! task = Some g' ∧ evolves g g') ∨
     ∃ dbm dbn gm, rtc lease_step db dbm ∧ rtc lease_step dbn db' ∧
       task_rows dbm !! task = Some gm ∧ evolves g gm ∧ task_rows dbn !! task = None ∧
       deletes_task dbm dbn task gm) ∧
  (∀ lease r, session_rows db !! lease = Some r →
     (∃ r', session_rows db' !! lease = Some r' ∧ session_evolves r r') ∨
     ∃ dbm dbn rm, rtc lease_step db dbm ∧ rtc lease_step dbn db' ∧
       session_rows dbm !! lease = Some rm ∧ session_evolves r rm ∧ session_rows dbn !! lease = None ∧
       deletes_session dbm dbn lease rm).
Proof.
  intros Hrun. split; intros k v Hv; (eapply run_lasts; [split; apply _| |exact Hrun|exact Hv]);
    intros db1 db2 Hs; by apply step_lasts.
Qed.
End Permanence.
