(* ===== verification/OwnersBinding.v ===== *)
(** OwnersBinding: the generations of a session selector, and the controllers that bind it.

    Of every selector one lease at most is unreleased, the newest; only the newest
    lease supplies evidence. *)

From S2P Require Import Prelude Text Model Fingerprint Task Cooling Names Store.
From S2P Require Import Evidence Cleanup Executor Analyzer Journal Effects ExecutorSafety.
From S2P Require Import ExecutorGuarantees JournalFacts Protocol Mutations Owners OwnersFacts.

(** ** The newest lease *)

Lemma latest_lease_fold P selector (l : list (string * session_row)) best :
  match fold_left (newer_lease P selector) l best with
  | Some b =>
      (best = Some b ∨ b ∈ l ∧ sl_selector b.2 = selector ∧ P b.2 = true) ∧
      (∀ e, e ∈ l → sl_selector e.2 = selector → P e.2 = true →
         (sl_generation e.2 ≤ sl_generation b.2)%Z) ∧
      (∀ b0, best = Some b0 → (sl_generation b0.2 ≤ sl_generation b.2)%Z)
  | None => best = None ∧ ∀ e, e ∈ l → sl_selector e.2 = selector → P e.2 = true → False
  end.
Proof.
  revert best. induction l as [|e l IH]; intros best; cbn [fold_left].
  { destruct best; [|split; [done|by intros e ?%elem_of_nil]].
    split; [by left|]. split; [by intros e ?%elem_of_nil|]. by intros b0 [= ->]. }
  set (best' := newer_lease P selector best e). specialize (IH best').
  assert ((∀ b, best' = Some b → best = Some b ∨ b = e ∧ sl_selector e.2 = selector ∧ P e.2 = true) ∧
    (sl_selector e.2 = selector → P e.2 = true →
       ∃ b, best' = Some b ∧ (sl_generation e.2 ≤ sl_generation b.2)%Z) ∧
    (∀ b0, best = Some b0 → ∃ b, best' = Some b ∧ (sl_generation b0.2 ≤ sl_generation b.2)%Z))
    as (Hfrom & Hnew & Hold).
  { unfold best', newer_lease. clear. destruct (bool_decide (sl_selector e.2 = selector) && P e.2) eqn:He.
    - apply andb_true_iff in He as [Hs%bool_decide_eq_true Hp]. destruct best as [b|].
      + case_bool_decide as Hlt.
        * split; [intros ? [= <-]; by right|]. split; [by exists e|].
          intros ? [= <-]. exists e. split; [done|lia].
        * split; [intros ? [= <-]; by left|]. split; [intros; exists b; split; [done|lia]|].
          intros ? [= <-]. by exists b.
      + split; [intros ? [= <-]; by right|]. split; [by exists e|]. done.
    - split; [by left|]. split; [|intros b0 ->; by exists b0].
      intros Hs Hp. by rewrite bool_decide_eq_true_2, Hp in He. }
  clearbody best'. destruct (fold_left _ l best') as [b|].
  - destruct IH as (Hb & Hmax & Hge). split; [|split].
    + destruct Hb as [Hb|(Hin & Hs & Hp)]; [|right; split; [by constructor|done]].
      destruct (Hfrom b Hb) as [?|(-> & Hs & Hp)]; [by left|]. right. split; [constructor|done].
    + intros x [->|Hin]%elem_of_cons Hs Hp; [|by apply Hmax].
      destruct (Hnew Hs Hp) as (b1 & Hb1 & Hle). specialize (Hge b1 Hb1). lia.
    + intros b0 Hb0. destruct (Hold b0 Hb0) as (b1 & Hb1 & Hle). specialize (Hge b1 Hb1). lia.
  - destruct IH as (Hnone & Hl). split.
    + destruct best as [b|]; [|done]. destruct (Hold b eq_refl) as (b1 & Hb1 & _). congruence.
    + intros x [->|Hin]%elem_of_cons Hs Hp; [|by eapply Hl].
      destruct (Hnew Hs Hp) as (b1 & Hb1 & _). congruence.
Qed.

Lemma latest_lease_Some P selector t k r :
  latest_lease P selector t = Some (k, r) →
  t !! k = Some r ∧ sl_selector r = selector ∧ P r = true ∧
  ∀ k' r', t !! k' = Some r' → sl_selector r' = selector → P r' = true →
    (sl_generation r' ≤ sl_generation r)%Z.
Proof.
  unfold latest_lease. intros H.
  pose proof (latest_lease_fold P selector (map_to_list t) None) as Hf.
  rewrite H in Hf. destruct Hf as ([Hf|(Hin & Hs & Hp)] & Hmax & _); [done|].
  apply elem_of_map_to_list in Hin. split; [done|]. split; [done|]. split; [done|].
  intros k' r' Hr' Hs' Hp'. apply (Hmax (k', r')); [by apply elem_of_map_to_list|done..].
Qed.

Lemma latest_lease_None P selector t :
  latest_lease P selector t = None →
  ∀ k r, t !! k = Some r → sl_selector r = selector → P r = true → False.
Proof.
  unfold latest_lease. intros H.
  pose proof (latest_lease_fold P selector (map_to_list t) None) as Hf.
  rewrite H in Hf. destruct Hf as (_ & Hf). intros k r Hr. apply (Hf (k, r)).
  by apply elem_of_map_to_list.
Qed.

(** ** The invariant *)

Record generations_wf (t : gmap string session_row) : Prop := {
  generation_positive : ∀ l r, t !! l = Some r → (1 ≤ sl_generation r)%Z;
  generation_unique : ∀ l l' r r', t !! l = Some r → t !! l' = Some r' →
    sl_selector r = sl_selector r' → sl_generation r = sl_generation r' → l = l';
  unreleased_newest : ∀ l l' r r', t !! l = Some r → t !! l' = Some r' →
    sl_selector r = sl_selector r' → unreleased r = true →
    (sl_generation r' ≤ sl_generation r)%Z;
}.

Lemma empty_generations : generations_wf ∅.
Proof. split; intros *; by rewrite lookup_empty. Qed.

(** Rows that were deleted, or whose grants were changed but not un-released. *)
Lemma generations_sub t t' :
  (∀ l r', t' !! l = Some r' → ∃ r, t !! l = Some r ∧ sl_selector r' = sl_selector r ∧
     sl_generation r' = sl_generation r ∧ (unreleased r' = true → unreleased r = true)) →
  generations_wf t → generations_wf t'.
Proof.
  intros Hsub [Hp Hu Hn]. split.
  - intros l r' H. destruct (Hsub l r' H) as (r & Hr & _ & -> & _). by eapply Hp.
  - intros l l' r r' H H' Hs Hg. destruct (Hsub _ _ H) as (r0 & Hr & Hs0 & Hg0 & _).
    destruct (Hsub _ _ H') as (r0' & Hr' & Hs0' & Hg0' & _). apply (Hu l l' r0 r0'); congruence.
  - intros l l' r r' H H' Hs Hun. destruct (Hsub _ _ H) as (r0 & Hr & Hs0 & Hg0 & Hun0).
    destruct (Hsub _ _ H') as (r0' & Hr' & Hs0' & Hg0' & _). rewrite Hg0, Hg0'.
    apply (Hn l l' r0 r0'); [done|done|congruence|auto].
Qed.

Section Generations.
Context `{JT : Json TaskOwnerIdentity, JI : Json ProcessIdentity}.

Definition next_generation (selector : string) (t : gmap string session_row) : Z :=
  (from_option (sl_generation ∘ snd) 0 (latest_lease (λ _, true) selector t) + 1)%Z.

Lemma next_generation_above selector t l r :
  t !! l = Some r → sl_selector r = selector → (sl_generation r < next_generation selector t)%Z.
Proof.
  intros Hr Hs. unfold next_generation.
  destruct (latest_lease (λ _, true) selector t) as [[k r0]|] eqn:Hl; simpl.
  - apply latest_lease_Some in Hl as (_ & _ & _ & Hmax). specialize (Hmax l r Hr Hs eq_refl). lia.
  - by destruct (latest_lease_None _ _ _ Hl l r Hr Hs eq_refl).
Qed.

Lemma next_generation_positive selector t : generations_wf t → (1 ≤ next_generation selector t)%Z.
Proof.
  intros Hwf. unfold next_generation.
  destruct (latest_lease (λ _, true) selector t) as [[k r0]|] eqn:Hl; simpl; [|lia].
  apply latest_lease_Some in Hl as (Hk & _). pose proof (generation_positive _ Hwf _ _ Hk). lia.
Qed.

Lemma generations_insert t l r :
  generations_wf t → t !! l = None → sl_generation r = next_generation (sl_selector r) t →
  latest_lease unreleased (sl_selector r) t = None → generations_wf (<[l := r]> t).
Proof.
  intros Hwf Hl Hg Hnone.
  assert (∀ k x, t !! k = Some x → sl_selector x = sl_selector r →
    (sl_generation x < sl_generation r)%Z ∧ unreleased x = false) as Hold.
  { intros k x Hx Hs. split; [rewrite Hg; by eapply next_generation_above|].
    destruct (unreleased x) eqn:Hu; [|done]. by destruct (latest_lease_None _ _ _ Hnone k x Hx Hs Hu). }
  split.
  - intros k x [[_ <-]|[_ Hx]]%lookup_insert_Some; [|by eapply (generation_positive _ Hwf)].
    rewrite Hg. by apply next_generation_positive.
  - intros k k' x x' [[<- <-]|[Hk Hx]]%lookup_insert_Some [[<- <-]|[Hk' Hx']]%lookup_insert_Some Hs Hge;
      [done|..|by eapply (generation_unique _ Hwf)].
    + destruct (Hold k' x' Hx') as [? _]; [done|lia].
    + destruct (Hold k x Hx Hs) as [? _]. lia.
  - intros k k' x x' [[<- <-]|[Hk Hx]]%lookup_insert_Some [[<- <-]|[Hk' Hx']]%lookup_insert_Some Hs Hu;
      [lia|..|by eapply (unreleased_newest _ Hwf)].
    + destruct (Hold k' x' Hx') as [? _]; [done|lia].
    + destruct (Hold k x Hx Hs) as [_ ?]. congruence.
Qed.

(** What a declaration answers: the current lease, to its own registrar and with its own
    facts, or a new generation where all the earlier ones are released. *)
Definition declared (lease : string) (selector session version : string)
    (registrar : TaskOwnerIdentity) (db db' : ownership) (given : SessionOwnerLease) : Prop :=
  (db' = db ∧ ∃ r, session_rows db !! sol_lease_id given = Some r ∧ unreleased r = true ∧
     sl_selector r = selector ∧ sl_session_name r = session ∧ sl_version r = version ∧
     from_json (g_registrar_json (sl_grant r)) = Ok registrar ∧
     sol_capability given = g_capability (sl_grant r) ∧
     sol_generation given = public_generation (sl_generation r)) ∨
  (latest_lease unreleased selector (session_rows db) = None ∧ session_rows db !! lease = None ∧
   sol_lease_id given = lease ∧
   sol_generation given = public_generation (next_generation selector (session_rows db)) ∧
   ∃ r, db' = db <| session_rows ::= <[lease := r]> |> ∧ sl_selector r = selector ∧
     sl_session_name r = session ∧ sl_version r = version ∧
     sl_generation r = next_generation selector (session_rows db) ∧
     g_registrar_json (sl_grant r) = json_to_string registrar ∧
     g_capability (sl_grant r) = sol_capability given ∧ unreleased r = true).

Lemma declare_Ok lease capability io selector session version registrar now db db' given :
  declare_session_owner lease capability io selector session version registrar now db =
    Ok (db', given) → declared lease selector session version registrar db db' given.
Proof.
  unfold declare_session_owner. intros H. inv_ok H.
  destruct (latest_lease unreleased selector (session_rows db)) as [[cur r]|] eqn:Hl.
  - apply latest_lease_Some in Hl as (Hr & Hs & Hu & _).
    apply result_bind_Ok in H as (prior & Hp & H). apply guard_Ok in H as [Hreg%bool_decide_eq_true H].
    apply guard_Ok in H as [Hf H]. apply andb_true_iff in Hf as [Hn%bool_decide_eq_true Hv%bool_decide_eq_true].
    injection H as <- <-. left. split; [done|]. exists r. simpl. rewrite Hp, Hreg. by repeat split.
  - unfold insert_lease in H. apply guard_Ok in H as [_ H].
    apply result_bind_Ok in H as (created & _ & H).
    apply guard_Ok in H as [Hnone%bool_decide_eq_true H]. apply guard_Ok in H as [_ H].
    injection H as <- <-. right. split; [done|]. split; [done|]. split; [done|]. split; [done|].
    eexists. split; [reflexivity|]. simpl. by repeat split.
Qed.
End Generations.

(** ** Along a run *)

Section Runs.
Context `{JT : Json TaskOwnerIdentity, JI : Json ProcessIdentity}.

Lemma expire_sessions_sub io cutoff s scopes db db' r l row :
  expire_sessions io cutoff s scopes db = (db', r) → session_rows db' !! l = Some row →
  session_rows db !! l = Some row.
Proof.
  revert db. induction scopes as [|scope scopes IH]; simpl; intros db H Hr; [by injection H as <- _|].
  destruct (session_expired cutoff s scope); [|by eapply IH].
  destruct (io (length scopes)); [by injection H as <- _|].
  apply (IH _ H) in Hr. simpl in Hr. by apply lookup_delete_Some in Hr as [_ ?].
Qed.

Lemma bind_session_owners_sub io1 io2 io3 io s db l row :
  session_rows (bind_session_owner_controllers io1 io2 io3 io s db).1 !! l = Some row →
  session_rows db !! l = Some row.
Proof.
  unfold bind_session_owner_controllers.
  destruct (current_session_owner_scopes io1 db) as [scopes|e]; [|done].
  destruct (with_connection io2 _) as [db1|e] eqn:Hb; [|done].
  apply with_connection_Ok in Hb as [_ Hb]. apply bind_sessions_rows in Hb as (Hrows & _).
  unfold prune_session_owner_leases. destruct (negb _); [by rewrite <-Hrows|].
  destruct (session_owner_scopes io3 db1) as [all|e]; [|by rewrite <-Hrows].
  destruct (expire_sessions _ _ _ _ _) as [db2 r] eqn:He. rewrite <-Hrows.
  by eapply expire_sessions_sub.
Qed.

Lemma generations_alter (f : grant → grant) lease t :
  (∀ g, is_Some (g_released_at_us g) → is_Some (g_released_at_us (f g))) →
  generations_wf t → generations_wf (alter (with_grant f) lease t).
Proof.
  intros Hf. apply generations_sub. intros l r' [[-> (r & Hr & ->)]|[_ Hr]]%lookup_alter_Some.
  - exists r. split; [done|]. split; [done|]. split; [done|]. unfold unreleased; simpl.
    rewrite !bool_decide_eq_true. intros Hnone. apply eq_None_not_Some. intros Hs.
    apply Hf in Hs. rewrite Hnone in Hs. by destruct Hs.
  - by exists r'.
Qed.

Lemma evolves_keeps_release g g' :
  evolves g g' → is_Some (g_released_at_us g) → is_Some (g_released_at_us g').
Proof. intros He Hr. by rewrite (evolves_released _ _ He Hr). Qed.

Lemma step_generations db db' :
  lease_step db db' → generations_wf (session_rows db) → generations_wf (session_rows db').
Proof.
  intros Hstep Hwf.
  destruct Hstep as [token io task registrar now db1 db2 lease H|io task owner now db1 db2 H
         |io task now reason owner db1 db2 H|io1 io2 io3 io s db1
         |lease capability io selector session version registrar now db1 db2 given H
         |io lease owner now db1 db2 H|io lease now reason owner db1 db2 H|io1 io2 io3 io s db1].
  - unfold reserve_task in H. inv_ok H. injection H as <- _. destruct (task_rows db1 !! task);
      inv_ok Hstep; by injection Hstep as <-.
  - unfold activate_task in H. inv_ok H. by injection H as <-.
  - unfold release_task in H. inv_ok H. by injection H as <-.
  - destruct (bind_task_controllers io1 io2 io3 io s db1) as [db2 r] eqn:H.
    apply bind_tasks_expire in H as (Hs & _). simpl. by rewrite Hs.
  - apply declare_Ok in H as [[-> _]|(Hnone & Hl & _ & _ & r & -> & <- & _ & _ & Hg & _)]; [done|].
    simpl. by apply generations_insert.
  - unfold activate_session_owner in H. inv_ok H. apply ok_or_Ok in Hstep. injection H as <-.
    apply activate_evolves in Hstep0 as (He & Hun & _).
    eapply generations_sub; [|exact Hwf]. simpl.
    intros l r' [[<- <-]|[_ Hr]]%lookup_insert_Some; [|by exists r'].
    eexists. split; [exact Hstep|]. split; [done|]. split; [done|]. intros _.
    unfold unreleased. by apply bool_decide_eq_true.
  - unfold release_session_owner in H. inv_ok H. injection H as <-. simpl.
    apply generations_alter; [|done]. intros g. apply evolves_keeps_release, release_evolves.
  - eapply generations_sub; [|exact Hwf]. intros l r' Hr. apply bind_session_owners_sub in Hr. by exists r'.
Qed.

Lemma run_generations db db' :
  rtc lease_step db db' → generations_wf (session_rows db) → generations_wf (session_rows db').
Proof. induction 1 as [|? ? ? Hs _ IH]; [done|]. intros Hwf. apply IH. by eapply step_generations. Qed.
End Runs.

(** ** Evidence *)

Lemma public_generation_N g : (1 ≤ g < Z.of_N u64_bound)%Z → Z.of_N (public_generation g) = g.
Proof.
  intros Hg. unfold public_generation, u64_try_from. rewrite bool_decide_eq_true_2 by lia.
  simpl. lia.
Qed.

(** What is kept for a selector is a scope of it, of the highest generation. *)
Lemma keep_newest_max l m k x :
  (∀ k x, m !! k = Some x → so_selector_fingerprint x = k) →
  fold_left keep_newest l m !! k = Some x →
  (∀ y, y ∈ l → so_selector_fingerprint y = k → (so_generation y ≤ so_generation x)%N) ∧
  (∀ y, m !! k = Some y → (so_generation y ≤ so_generation x)%N).
Proof.
  revert m. induction l as [|z l IH]; simpl; intros m Hm Hx.
  { split; [by intros y ?%elem_of_nil|]. intros y Hy. by simplify_eq. }
  set (m' := keep_newest m z) in *.
  assert ((∀ k x, m' !! k = Some x → so_selector_fingerprint x = k) ∧
    (so_selector_fingerprint z = k → ∃ y, m' !! k = Some y ∧ (so_generation z ≤ so_generation y)%N) ∧
    (∀ y, m !! k = Some y → ∃ y', m' !! k = Some y' ∧ (so_generation y ≤ so_generation y')%N))
    as (Hm' & Hz & Hold).
  { unfold m', keep_newest. clear -Hm. split; [|split].
    - intros k' x'. destruct (m !! so_selector_fingerprint z) as [e|]; [case_bool_decide; [|apply Hm]|];
        (intros [[<- <-]|[_ Hin]]%lookup_insert_Some; [done|by apply Hm]).
    - intros <-. destruct (m !! so_selector_fingerprint z) as [e|] eqn:He; [case_bool_decide|].
      + exists z. by rewrite lookup_insert_eq.
      + exists e. split; [done|lia].
      + exists z. by rewrite lookup_insert_eq.
    - intros y Hy. destruct (decide (so_selector_fingerprint z = k)) as [<-|Hne].
      + rewrite Hy. case_bool_decide; [|by exists y]. exists z. rewrite lookup_insert_eq. split; [done|lia].
      + exists y. destruct (m !! so_selector_fingerprint z) as [e|]; [case_bool_decide|];
          rewrite ?lookup_insert_ne by done; by split. }
  clearbody m'. destruct (IH m' Hm' Hx) as [Hl Hge]. split.
  - intros y [->|Hy]%elem_of_cons Hs; [|by apply Hl].
    destruct (Hz Hs) as (y' & Hy' & ?). specialize (Hge y' Hy'). lia.
  - intros y Hy. destruct (Hold y Hy) as (y' & Hy' & ?). specialize (Hge y' Hy'). lia.
Qed.

Section Evidence.
Context `{JT : Json TaskOwnerIdentity, JI : Json ProcessIdentity}.

(** A row is of its selector's newest lease. *)
Definition newest_lease (t : gmap string session_row) (r : session_row) : Prop :=
  ∀ l' r', t !! l' = Some r' → sl_selector r' = sl_selector r →
    (sl_generation r' ≤ sl_generation r)%Z.

Definition generations_fit (t : gmap string session_row) : Prop :=
  ∀ l r, t !! l = Some r → (sl_generation r < Z.of_N u64_bound)%Z.

Lemma session_scope_Ok l r s :
  session_scope (l, r) = Ok s →
  so_lease_id s = l ∧ so_selector_fingerprint s = sl_selector r ∧ so_session_name s = sl_session_name r ∧
  so_controller_version s = sl_version r ∧ so_generation s = public_generation (sl_generation r) ∧
  read_grant "session-owner activation" "session-owner release" (sl_grant r) = Ok (so_granted s).
Proof. intros H. by apply result_bind_Ok in H as (x & Hx & [= <-]). Qed.

Lemma current_scopes_newest io db scopes s :
  generations_wf (session_rows db) → generations_fit (session_rows db) →
  current_session_owner_scopes io db = Ok scopes → s ∈ scopes →
  ∃ r, session_rows db !! so_lease_id s = Some r ∧ newest_lease (session_rows db) r ∧
    session_scope (so_lease_id s, r) = Ok s.
Proof.
  intros Hwf Hfit H Hs. destruct (current_scopes_elem _ _ _ _ H Hs) as (all & Hall & Hkept & Hin).
  destruct (session_scopes_elem _ _ _ _ Hall Hin) as (r & Hr & Hrs). exists r.
  split; [done|]. split; [|done]. intros l' r' Hr' Hsel.
  apply with_connection_Ok in Hall as [_ Hall]. pose proof Hall as Hall'%collect_results_Ok.
  assert ((l', r') ∈ map_to_list (session_rows db)) as (i & Hi)%list_elem_of_lookup
    by by apply elem_of_map_to_list.
  destruct (Forall2_lookup_l _ _ _ _ _ Hall' Hi) as (y & Hy & Hys).
  apply session_scope_Ok in Hrs as (_ & Hsr & _ & _ & Hgr & _).
  apply session_scope_Ok in Hys as (_ & Hsy & _ & _ & Hgy & _).
  assert (so_generation y ≤ so_generation s)%N as Hle.
  { eapply (proj1 (keep_newest_max all ∅ _ s ltac:(intros ?? Hx; by rewrite lookup_empty in Hx) Hkept)).
    - by eapply list_elem_of_lookup_2.
    - congruence. }
  rewrite Hgr, Hgy in Hle. apply N2Z.inj_le in Hle.
  rewrite !public_generation_N in Hle; [done|..];
    (split; [by eapply generation_positive|by eapply Hfit]).
Qed.

(** The controller of a binding was bound to the lease, and the lease's row is [r]. *)
Definition evidence_of (db : ownership) (b : SessionOwnerBinding) (r : session_row) : Prop :=
  session_rows db !! lease_id b = Some r ∧ owner_selector_fingerprint b = sl_selector r ∧
  owner_session_name b = sl_session_name r ∧ owner_controller_version b = sl_version r ∧
  owner_released b = negb (unreleased r) ∧
  ∃ key c, session_controller_rows db !! key = Some c ∧ cr_lease c = lease_id b ∧
    from_json (cr_identity_json c) = Ok (owner_controller b).

Lemma session_bindings_newest io io' db bindings b :
  generations_wf (session_rows db) → generations_fit (session_rows db) →
  session_owner_bindings io io' db = Ok bindings → b ∈ bindings →
  ∃ r, evidence_of db b r ∧ newest_lease (session_rows db) r.
Proof.
  intros Hwf Hfit H Hb. apply result_bind_Ok in H as (scopes & Hs & H).
  apply with_connection_Ok in H as [_ H].
  destruct (collect_results_elem _ _ _ _ H Hb) as (x & Hx & Hid). unfold id in Hid. subst x.
  apply list_elem_of_omap in Hx as (c & Hc & Hbind).
  apply bind_Some in Hbind as (scope & Hscope & [= Hbind]).
  apply collect_map_Some, list_elem_of_fmap in Hscope as (s & [= Hlease ->] & Hin).
  apply result_bind_Ok in Hbind as (controller & Hjson & [= <-]).
  destruct (current_scopes_newest _ _ _ _ Hwf Hfit Hs Hin) as (r & Hr & Hnew & Hscope).
  exists r. split; [|done]. apply session_scope_Ok in Hscope as (_ & Hsel & Hname & Hver & _ & Hread).
  apply read_grant_Ok in Hread as (_ & _ & _ & Hrel).
  unfold evidence_of. simpl. rewrite Hlease. split; [done|]. split; [done|]. split; [done|].
  split; [done|]. split.
  { unfold unreleased. rewrite <-Hrel. by destruct (gr_released_at_us (so_granted s)). }
  rewrite merge_sort_Permutation in Hc.
  apply list_elem_of_fmap in Hc as ([key c'] & -> & Hc%elem_of_map_to_list).
  exists key, c'. by rewrite <-Hlease.
Qed.
End Evidence.

(** * Controllers

    Which controllers a lease owns.

    A controller is bound to the lease it was born under, by its exact identity, and
    stays bound to it. *)

Section Binding.
Context `{JT : Json TaskOwnerIdentity, JI : Json ProcessIdentity}.

(** ** One controller table *)

Definition process_key (p : ProcessRecord) : string := fingerprint_process_identity (identity p).

(** The row a binding of the process to the lease writes. *)
Definition binding_row (lease : string) (p : ProcessRecord) : controller_row :=
  mkControllerRow lease (json_to_string (identity p)) (incident_of p).

(** Every new row binds a process of the list to its lease; no old row is changed. *)
Definition table_grows (owner : ProcessRecord → option string) (ps : list ProcessRecord)
    (t t' : gmap string controller_row) : Prop :=
  (∀ key row, t !! key = Some row → t' !! key = Some row) ∧
  (∀ key row, t' !! key = Some row → t !! key = Some row ∨
     ∃ p lease, p ∈ ps ∧ owner p = Some lease ∧ key = process_key p ∧ row = binding_row lease p) ∧
  (∀ p, p ∈ ps → is_Some (owner p) → is_Some (t' !! process_key p)).

Lemma table_grows_nil owner t : table_grows owner [] t t.
Proof. split; [done|]. split; [by left|]. by intros p ?%elem_of_nil. Qed.

Lemma table_grows_skip owner p ps t t' :
  owner p = None → table_grows owner ps t t' → table_grows owner (p :: ps) t t'.
Proof.
  intros Hp (Hk & Hn & Hb). split; [done|]. split.
  - intros key row H. destruct (Hn key row H) as [?|(q & l & Hq & ?)]; [by left|].
    right. exists q, l. split; [by constructor|done].
  - intros q [->|Hq]%elem_of_cons Ho; [|by apply Hb]. rewrite Hp in Ho. by destruct Ho.
Qed.

Lemma table_grows_bind owner p lease exists_lease ps t t1 t' :
  owner p = Some lease → bind_controller exists_lease lease p t = Ok t1 →
  table_grows owner ps t1 t' → table_grows owner (p :: ps) t t'.
Proof.
  unfold bind_controller. fold (process_key p). intros Hp H (Hk & Hn & Hb).
  assert (t1 = t ∧ is_Some (t !! process_key p) ∨
    t !! process_key p = None ∧ t1 = <[process_key p := binding_row lease p]> t) as Ht1.
  { destruct (t !! process_key p) as [row|] eqn:Hrow.
    - injection H as <-. left. split; [done|]. by exists row.
    - apply guard_Ok in H as [_ [= <-]]. by right. }
  assert (∀ key row, t !! key = Some row → t1 !! key = Some row) as Hkeep.
  { intros key row Hrow. destruct Ht1 as [[-> _]|[Hnone ->]]; [done|].
    rewrite lookup_insert_ne; [done|]. congruence. }
  split; [auto|]. split.
  - intros key row Hr. destruct (Hn key row Hr) as [Hr1|(q & l & Hq & ?)].
    + destruct Ht1 as [[-> _]|[_ ->]]; [by left|].
      apply lookup_insert_Some in Hr1 as [[<- <-]|[_ Hr1]]; [|by left].
      right. exists p, lease. split; [by constructor|done].
    + right. exists q, l. split; [by constructor|done].
  - intros q [->|Hq]%elem_of_cons Ho; [|by apply Hb].
    destruct Ht1 as [[-> [row Hrow]]|[_ ->]]; [exists row; by apply Hk|].
    exists (binding_row lease p). apply Hk. by rewrite lookup_insert_eq.
Qed.

(** ** The loops *)

Lemma bind_tasks_grows scopes ps db db' :
  bind_tasks scopes ps db = Ok db' →
  table_grows (λ p, scope_task_id <$> task_of scopes p) ps
    (task_controller_rows db) (task_controller_rows db').
Proof.
  revert db. induction ps as [|p ps IH]; simpl; intros db H.
  { injection H as <-. apply table_grows_nil. }
  destruct (task_of scopes p) as [scope|] eqn:Hp.
  - apply result_bind_Ok in H as (t & Ht & H). apply IH in H.
    eapply table_grows_bind; [by rewrite Hp|exact Ht|exact H].
  - apply table_grows_skip; [by rewrite Hp|]. by apply IH.
Qed.

Lemma bind_sessions_grows scopes ps db db' :
  bind_sessions scopes ps db = Ok db' →
  table_grows (λ p, so_lease_id <$> session_of scopes p) ps
    (session_controller_rows db) (session_controller_rows db').
Proof.
  revert db. induction ps as [|p ps IH]; simpl; intros db H.
  { injection H as <-. apply table_grows_nil. }
  destruct (session_of scopes p) as [scope|] eqn:Hp.
  - apply result_bind_Ok in H as (t & Ht & H). apply IH in H.
    eapply table_grows_bind; [by rewrite Hp|exact Ht|exact H].
  - apply table_grows_skip; [by rewrite Hp|]. by apply IH.
Qed.

Lemma cascade_Some lease t key row :
  cascade_controllers lease t !! key = Some row ↔ t !! key = Some row ∧ cr_lease row ≠ lease.
Proof. unfold cascade_controllers. by rewrite map_lookup_filter_Some. Qed.

Lemma expire_tasks_controllers io cutoff bindings s scopes db db' r :
  expire_tasks io cutoff bindings s scopes db = (db', r) →
  (∀ key row, task_controller_rows db' !! key = Some row → task_controller_rows db !! key = Some row) ∧
  (∀ key row, task_controller_rows db !! key = Some row →
     task_controller_rows db' !! key = Some row ∨ task_rows db' !! cr_lease row = None) ∧
  (∀ t, task_rows db !! t = None → task_rows db' !! t = None).
Proof.
  revert db. induction scopes as [|scope scopes IH]; simpl; intros db H.
  { injection H as <- _. by split_and!; auto. }
  destruct (task_expired cutoff bindings s scope); [|by apply IH].
  destruct (io (length scopes)); [injection H as <- _; by split_and!; auto|].
  destruct (IH _ H) as (Hsub & Hkeep & Hnone). simpl in *. split; [|split].
  - intros key row Hr. apply Hsub, cascade_Some in Hr. by destruct Hr.
  - intros key row Hr. destruct (decide (cr_lease row = scope_task_id scope)) as [He|He].
    + right. apply Hnone. by rewrite He, lookup_delete_eq.
    + apply Hkeep. by apply cascade_Some.
  - intros t Ht. apply Hnone. apply lookup_delete_None. by right.
Qed.

Lemma expire_sessions_controllers io cutoff s scopes db db' r :
  expire_sessions io cutoff s scopes db = (db', r) →
  (∀ key row, session_controller_rows db' !! key = Some row → session_controller_rows db !! key = Some row) ∧
  (∀ key row, session_controller_rows db !! key = Some row →
     session_controller_rows db' !! key = Some row ∨ session_rows db' !! cr_lease row = None) ∧
  (∀ t, session_rows db !! t = None → session_rows db' !! t = None).
Proof.
  revert db. induction scopes as [|scope scopes IH]; simpl; intros db H.
  { injection H as <- _. by split_and!; auto. }
  destruct (session_expired cutoff s scope); [|by apply IH].
  destruct (io (length scopes)); [injection H as <- _; by split_and!; auto|].
  destruct (IH _ H) as (Hsub & Hkeep & Hnone). simpl in *. split; [|split].
  - intros key row Hr. apply Hsub, cascade_Some in Hr. by destruct Hr.
  - intros key row Hr. destruct (decide (cr_lease row = so_lease_id scope)) as [He|He].
    + right. apply Hnone. by rewrite He, lookup_delete_eq.
    + apply Hkeep. by apply cascade_Some.
  - intros t Ht. apply Hnone. apply lookup_delete_None. by right.
Qed.

(** ** What a binding proves *)

(** The process was born while the lease was active, of its registrar's user. *)
Definition held_at_birth (g : grant) (p : ProcessRecord) : Prop :=
  let birth := Z.of_N (started_at_unix_micros (identity p)) in
  ∃ registrar a, from_json (g_registrar_json g) = Ok registrar ∧ owner_uid_ registrar = uid p ∧
    g_activated_at_us g = Some a ∧ (a ≤ birth)%Z ∧
    ∀ r, g_released_at_us g = Some r → (birth ≤ r)%Z.

Lemma born_in_held activation release g x a p :
  read_grant activation release g = Ok x → gr_activated_at_us x = Some a →
  born_in x a p = true → held_at_birth g p.
Proof.
  intros (Hreg & _ & Ha & Hr)%read_grant_Ok Hx Hb. unfold born_in in Hb.
  apply andb_true_iff in Hb as [[Hu%bool_decide_eq_true Hle%bool_decide_eq_true]%andb_true_iff Hcut].
  exists (gr_registrar x), (Z.of_N a). split; [done|]. split; [done|].
  split; [by rewrite <-Ha, Hx|]. split; [lia|]. intros r Hrel. rewrite <-Hr in Hrel.
  destruct (gr_released_at_us x) as [cut|]; [|done]. injection Hrel as <-.
  apply bool_decide_eq_true in Hcut. lia.
Qed.

(** The process runs the task's session, and was born under its lease. *)
Definition runs_task (db : ownership) (task : string) (p : ProcessRecord) : Prop :=
  (cli_session_name <$> playwright_cli (runtime p)) = Some (session_name_from_id task) ∧
  exact_match (identity p) (identity p) = true ∧
  ∃ g, task_rows db !! task = Some g ∧ held_at_birth g p.

Lemma task_of_runs io db scopes p scope :
  task_scopes io db = Ok scopes → task_of scopes p = Some scope →
  runs_task db (scope_task_id scope) p.
Proof.
  intros Hs H. unfold task_of in H. apply bind_Some in H as (cli & Hcli & H).
  apply bind_Some in H as (task & Htask & H). apply bind_Some in H as (sc & Hsc & H).
  apply bind_Some in H as (a & Ha & H).
  destruct (born_in (scope_granted sc) a p) eqn:Hborn; [|done].
  destruct (exact_match (identity p) (identity p)) eqn:Hex; [|done]. simpl in H. injection H as ->.
  apply find_some in Hsc as [Hin Hid%bool_decide_eq_true]. apply list_elem_of_In in Hin.
  apply task_id_from_session_Some in Htask as [Htask _].
  destruct (task_scopes_elem _ _ _ _ Hs Hin) as (g & Hg & Hread).
  split; [by rewrite Hcli, Hid; simpl; rewrite Htask|]. split; [done|].
  exists g. split; [done|]. by eapply born_in_held.
Qed.

(** The process is a controller of the declared session, and was born under the newest
    lease of its selector. *)
Definition runs_session (db : ownership) (lease : string) (p : ProcessRecord) : Prop :=
  is_Some (executable_device (identity p)) ∧ is_Some (executable_inode (identity p)) ∧
  ∃ cli r, playwright_cli (runtime p) = Some cli ∧ session_rows db !! lease = Some r ∧
    task_id_from_session (cli_session_name cli) = None ∧
    cli_selector_fingerprint cli = Some (sl_selector r) ∧
    cli_session_name cli = sl_session_name r ∧ cli_version cli = sl_version r ∧
    newest_lease (session_rows db) r ∧ held_at_birth (sl_grant r) p.

Lemma session_of_runs io db scopes p scope :
  generations_wf (session_rows db) → generations_fit (session_rows db) →
  current_session_owner_scopes io db = Ok scopes → session_of scopes p = Some scope →
  runs_session db (so_lease_id scope) p.
Proof.
  intros Hwf Hfit Hs H. unfold session_of in H. apply bind_Some in H as (cli & Hcli & H).
  destruct (task_id_from_session (cli_session_name cli)) as [t|] eqn:Hlane; [done|].
  apply bind_Some in H as (selector & Hsel & H). apply bind_Some in H as (sc & Hsc & H).
  apply bind_Some in H as (a & Ha & H).
  destruct (born_in (so_granted sc) a p) eqn:Hborn; [|done].
  case_bool_decide as Hdev; [|done]. case_bool_decide as Hino; [|done]. injection H as ->.
  apply find_some in Hsc as [Hin Hfacts]. apply list_elem_of_In in Hin.
  unfold selects in Hfacts. rewrite !andb_true_iff, !bool_decide_eq_true in Hfacts.
  destruct Hfacts as [[Hf1 Hf2] Hf3].
  destruct (current_scopes_newest _ _ _ _ Hwf Hfit Hs Hin) as (r & Hr & Hnew & Hscope).
  apply session_scope_Ok in Hscope as (_ & Hs1 & Hs2 & Hs3 & _ & Hread).
  split; [done|]. split; [done|]. exists cli, r. rewrite Hsel, <-Hf1, <-Hs1, <-Hs2, <-Hs3.
  do 3 (split; [done|]). do 3 (split; [done|]). split; [done|]. by eapply born_in_held.
Qed.

(** Every controller that the table gained is of a process of the snapshot that owes it
    to the lease; none was reassigned, and none was lost but with its lease. *)
Definition binds_at_birth (owes : string → ProcessRecord → Prop) (leases' : string → Prop)
    (s : Snapshot) (t t' : gmap string controller_row) : Prop :=
  (∀ key row, t' !! key = Some row → t !! key = Some row ∨
     ∃ p lease, p ∈ processes s ∧ key = process_key p ∧ row = binding_row lease p ∧ owes lease p) ∧
  (∀ key row, t !! key = Some row → t' !! key = Some row ∨ ¬ leases' (cr_lease row)).

Lemma binds_at_birth_same owes leases' s t : binds_at_birth owes leases' s t t.
Proof. split; by left. Qed.

Lemma binds_at_birth_grows (owner : ProcessRecord → option string) owes leases' s t t1 t' :
  table_grows owner (processes s) t t1 → (∀ p lease, owner p = Some lease → owes lease p) →
  (∀ key row, t' !! key = Some row → t1 !! key = Some row) →
  (∀ key row, t1 !! key = Some row → t' !! key = Some row ∨ ¬ leases' (cr_lease row)) →
  binds_at_birth owes leases' s t t'.
Proof.
  intros (Hk & Hn & _) Ho Hsub Hkeep. split.
  - intros key row Hr%Hsub. destruct (Hn key row Hr) as [?|(p & l & Hp & Hl & Hkey & Hrow)]; [by left|].
    right. exists p, l. by split_and!; [..|apply Ho].
  - intros key row Hr. by apply Hkeep, Hk.
Qed.

Lemma task_binding_at_birth io1 io2 io3 io s db db' r :
  bind_task_controllers io1 io2 io3 io s db = (db', r) →
  binds_at_birth (runs_task db) (λ t, is_Some (task_rows db' !! t)) s
    (task_controller_rows db) (task_controller_rows db').
Proof.
  unfold bind_task_controllers. intros H.
  destruct (task_scopes io1 db) as [scopes|e] eqn:Hs; [|injection H as <- _; apply binds_at_birth_same].
  destruct (with_connection io2 _) as [db1|e] eqn:Hb; [|injection H as <- _; apply binds_at_birth_same].
  apply with_connection_Ok in Hb as [_ Hb%bind_tasks_grows].
  assert (∀ p lease, scope_task_id <$> task_of scopes p = Some lease → runs_task db lease p) as Howes.
  { intros p l (sc & Hsc & ->)%fmap_Some. by eapply task_of_runs. }
  destruct (negb _).
  { injection H as <- _. eapply binds_at_birth_grows; [exact Hb|done|done|by left]. }
  destruct (task_controller_bindings io3 db1) as [bindings|e].
  - apply expire_tasks_controllers in H as (Hsub & Hkeep & _).
    eapply binds_at_birth_grows; [exact Hb|done|done|].
    intros key row Hr. destruct (Hkeep key row Hr) as [?|Hnone]; [by left|right].
    rewrite Hnone. by intros [].
  - injection H as <- _. eapply binds_at_birth_grows; [exact Hb|done|done|by left].
Qed.

Lemma session_binding_at_birth io1 io2 io3 io s db db' r :
  generations_wf (session_rows db) → generations_fit (session_rows db) →
  bind_session_owner_controllers io1 io2 io3 io s db = (db', r) →
  binds_at_birth (runs_session db) (λ l, is_Some (session_rows db' !! l)) s
    (session_controller_rows db) (session_controller_rows db').
Proof.
  unfold bind_session_owner_controllers. intros Hwf Hfit H.
  destruct (current_session_owner_scopes io1 db) as [scopes|e] eqn:Hs;
    [|injection H as <- _; apply binds_at_birth_same].
  destruct (with_connection io2 _) as [db1|e] eqn:Hb; [|injection H as <- _; apply binds_at_birth_same].
  apply with_connection_Ok in Hb as [_ Hb%bind_sessions_grows].
  assert (∀ p lease, so_lease_id <$> session_of scopes p = Some lease → runs_session db lease p) as Howes.
  { intros p l (sc & Hsc & ->)%fmap_Some. by eapply session_of_runs. }
  unfold prune_session_owner_leases in H. destruct (negb _).
  { injection H as <- _. eapply binds_at_birth_grows; [exact Hb|done|done|by left]. }
  destruct (session_owner_scopes io3 db1) as [all|e].
  - apply expire_sessions_controllers in H as (Hsub & Hkeep & _).
    eapply binds_at_birth_grows; [exact Hb|done|done|].
    intros key row Hr. destruct (Hkeep key row Hr) as [?|Hnone]; [by left|right].
    rewrite Hnone. by intros [].
  - injection H as <- _. eapply binds_at_birth_grows; [exact Hb|done|done|by left].
Qed.

(** [C27] A controller belongs to the lease it was born under. When the engine binds the
    controllers of a snapshot, every new row is of a process that runs the session the
    lease was given for, whose user registered it, and that was born after the lease was
    activated and not after it was released; of a declared session the lease is the
    newest of its selector. A controller that was bound before keeps its lease, and is
    lost only when the lease expires. *)
Theorem controllers_are_bound_at_birth io1 io2 io3 io s db0 db db' r :
  session_rows db0 = ∅ → rtc lease_step db0 db → generations_fit (session_rows db) →
  (bind_task_controllers io1 io2 io3 io s db = (db', r) →
   binds_at_birth (runs_task db) (λ t, is_Some (task_rows db' !! t)) s
     (task_controller_rows db) (task_controller_rows db')) ∧
  (bind_session_owner_controllers io1 io2 io3 io s db = (db', r) →
   binds_at_birth (runs_session db) (λ l, is_Some (session_rows db' !! l)) s
     (session_controller_rows db) (session_controller_rows db')).
Proof.
  intros H0 Hrun Hfit. split.
  - apply task_binding_at_birth.
  - apply session_binding_at_birth; [|done]. apply (run_generations db0 db Hrun).
    rewrite H0. apply empty_generations.
Qed.

(** Of every selector at most one lease is unreleased, the newest, and its generations
    are counted up: a declaration gives its own registrar the current lease, or makes a
    newer generation after all the earlier ones were released. Only the newest lease of a
    selector is ever evidence of an owner. *)
Theorem selectors_have_one_owner db0 db :
  session_rows db0 = ∅ → rtc lease_step db0 db → generations_fit (session_rows db) →
  generations_wf (session_rows db) ∧
  (∀ lease capability io selector session version registrar now db' given,
     declare_session_owner lease capability io selector session version registrar now db =
       Ok (db', given) → declared lease selector session version registrar db db' given) ∧
  (∀ io io' bindings b, session_owner_bindings io io' db = Ok bindings → b ∈ bindings →
     ∃ r, evidence_of db b r ∧ newest_lease (session_rows db) r).
Proof.
  intros H0 Hrun Hfit.
  assert (generations_wf (session_rows db)) as Hwf.
  { apply (run_generations db0 db Hrun). rewrite H0. apply empty_generations. }
  split; [done|]. split; intros *; [apply declare_Ok|by apply session_bindings_newest].
Qed.
End Binding.
