(* ===== verification/OwnerCommands.v ===== *)
(** OwnerCommands: the commands of tasks and session owners,
    [ControlPlane::handle_owner_peer_at] of [unlinger-daemon/src/ipc.rs].

    The peer of the socket registers leases as itself. The operating system is asked
    which process the peer and a named owner are: [look] answers for the peer, [look']
    for the owner. The [io]s are for the uses of the store, in turn. *)

From S2P Require Import Prelude Text Model Fingerprint Task Cooling Names Store.
From S2P Require Import Evidence Cleanup Executor Analyzer Journal Lifecycle Protocol Mutations.
From S2P Require Import Observations Views Maintenance Control Owners.

(** ** Data *)

(** [IpcCommand]: the commands that need an authenticated peer, and the others. *)
Inductive OwnerCommand : Type :=
| TaskReserve (task : string)
| TaskActivate (task capability : string) (owner : N)
| TaskFinish (task capability : string)
| SessionOwnerDeclare (session namespace version : string)
| SessionOwnerActivate (lease capability : string) (owner : N)
| SessionOwnerRelease (lease capability : string)
| SessionOwnerStatusOf (lease : string)
| TaskStatusOf (task : string)
| OtherCommand (command : IpcCommand).

Inductive OwnerPayload : Type :=
| PayTaskLease (lease : TaskLease)
| PayTaskStatus (status : TaskStatus)
| PaySessionOwnerLease (lease : SessionOwnerLease)
| PaySessionOwnerStatus (status : SessionOwnerStatus)
| PayOther (payload : IpcPayload).

(** [MacosSnapshotter::lookup], at one moment. *)
Definition native_lookup : Type := N → result (option ProcessRecord) RuntimeFailure.

(** ** Checks *)

Definition ready_for_ownership (s : DaemonStatus) : bool :=
  healthy s && ready s && negb (status_draining s)
  && negb (bool_decide (startup_state s = StateFailed)).

(** [ControlPlane::require_ready_for_ownership]. *)
Definition require_ready_for_ownership (what : string) (c : ControlPlane) :
    result unit ControlError :=
  guard? negb (poisoned c) else poisoned_lock in
  guard? ready_for_ownership (ctl_status c)
    else CtlUnavailable (what +:+ " requires a healthy ready daemon") in
  Ok tt.

(** The identity of the peer. *)
Definition peer_identity (look : native_lookup) (peer : N) :
    result TaskOwnerIdentity ControlError :=
  let? found :=
    map_err (λ _, CtlUnavailable "task registrar identity unavailable") (look peer) in
  let? p := ok_or found (CtlUnavailable "task registrar has exited") in
  ok_or (owner_from_process p) (CtlInvalidArgument "invalid task registrar identity").

(** The owner that an activation names: a live child of the peer, of the same user. *)
Definition exact_child (kind : string) (look : native_lookup) (peer owner : N)
    (registrar : TaskOwnerIdentity) : result TaskOwnerIdentity ControlError :=
  let? found :=
    map_err (λ _, CtlUnavailable (kind +:+ " identity unavailable")) (look owner) in
  let? p := ok_or found (CtlConflict (kind +:+ " has exited")) in
  guard? negb (negb (bool_decide (parent_pid p = peer)) || negb (bool_decide (uid p = owner_uid_ registrar)))
    else CtlConflict (kind +:+ " must be the registrar's exact child") in
  ok_or (owner_from_process p) (CtlInvalidArgument ("invalid " +:+ kind +:+ " identity")).

(** A release waits until the owner is gone. *)
Definition owner_gone (kind : string) (look : native_lookup) (owner : option TaskOwnerIdentity) :
    result unit ControlError :=
  match owner with
  | None => Ok tt
  | Some owner =>
      match look (owner_pid owner) with
      | Ok (Some p) =>
          guard? negb (owner_matches owner p)
            else CtlConflict (kind +:+ " is still running") in Ok tt
      | Err _ => Err (CtlUnavailable (kind +:+ " absence is unproved"))
      | Ok None => Ok tt
      end
  end.

Definition release_reason (owner : option TaskOwnerIdentity) : string :=
  if owner then "reported_exit" else "never_started".

(** ** The commands *)

Section Commands.
Context `{JE : Json EventPayload, JT : Json TaskOwnerIdentity, JI : Json ProcessIdentity}.

(** The status of a lease, which must exist. *)
Definition task_status_of (io : option StoreError) (task : string) (o : ownership) :
    result OwnerPayload ControlError :=
  let? status := map_err map_store_error (task_status io task o) in
  let? status := ok_or status (CtlNotFound "task not found") in
  Ok (PayTaskStatus status).

Definition session_owner_status_of (io : option StoreError) (lease : string) (o : ownership) :
    result OwnerPayload ControlError :=
  let? status := map_err map_store_error (session_owner_status io lease o) in
  let? status := ok_or status (CtlNotFound "session owner not found") in
  Ok (PaySessionOwnerStatus status).

(** [IpcCommand::TaskReserve]. *)
Definition handle_task_reserve (token : string) (io : nat → option StoreError) (task : string)
    (registrar : TaskOwnerIdentity) (now : N) (c : ControlPlane) (o : ownership) :
    result (ownership * OwnerPayload) ControlError :=
  let? _ := require_ready_for_ownership "task registration" c in
  let? reserved := map_err map_store_error (reserve_task token (io 0) task registrar now o) in
  Ok (reserved.1, PayTaskLease reserved.2).

(** What was committed, and the answer; an answer may fail after the commit. *)
Definition committed {A B E} (done : result A E) (before : A) (answer : A → result B E) :
    A * result B E :=
  match done with
  | Ok after => (after, answer after)
  | Err e => (before, Err e)
  end.

(** [IpcCommand::TaskActivate]. *)
Definition handle_task_activate (io : nat → option StoreError) (look' : native_lookup)
    (task capability : string) (peer owner : N) (registrar : TaskOwnerIdentity) (now : N)
    (c : ControlPlane) (o : ownership) : ownership * result OwnerPayload ControlError :=
  committed (
    let? _ := require_ready_for_ownership "task activation" c in
    let? scope := map_err map_store_error (authorize_task (io 0) (io 1) task capability o) in
    guard? bool_decide (gr_registrar (scope_granted scope) = registrar)
      else CtlConflict "task activation belongs to its original registrar" in
    let? identity := exact_child "command owner" look' peer owner registrar in
    map_err map_store_error (activate_task (io 2) task identity now o))
    o (task_status_of (io 3) task).

(** [IpcCommand::TaskFinish]. *)
Definition handle_task_finish (io : nat → option StoreError) (look' : native_lookup)
    (task capability : string) (now : N) (o : ownership) :
    ownership * result OwnerPayload ControlError :=
  committed (
    let? scope := map_err map_store_error (authorize_task (io 0) (io 1) task capability o) in
    let g := scope_granted scope in
    if bool_decide (is_Some (gr_released_at_us g)) then Ok o else
    let? _ := owner_gone "command owner" look' (gr_owner g) in
    map_err map_store_error
      (release_task (io 2) task now (release_reason (gr_owner g)) (gr_owner g) o))
    o (task_status_of (io 3) task).

(** [IpcCommand::SessionOwnerDeclare]. *)
Definition handle_session_owner_declare (lease capability : string) (io : nat → option StoreError)
    (session namespace version : string) (registrar : TaskOwnerIdentity) (now : N)
    (c : ControlPlane) (o : ownership) : result (ownership * OwnerPayload) ControlError :=
  let? _ := require_ready_for_ownership "session-owner declaration" c in
  guard? valid_registry_namespace namespace
    else CtlInvalidArgument "session-owner registry namespace must be 16 lowercase hex bytes" in
  let? declared :=
    map_err map_store_error
      (declare_session_owner lease capability (io 0)
         (ordinary_selector_fingerprint namespace session) session version registrar now o) in
  Ok (declared.1, PaySessionOwnerLease declared.2).

(** [IpcCommand::SessionOwnerActivate]. *)
Definition handle_session_owner_activate (io : nat → option StoreError) (look' : native_lookup)
    (lease capability : string) (peer owner : N) (registrar : TaskOwnerIdentity) (now : N)
    (c : ControlPlane) (o : ownership) : ownership * result OwnerPayload ControlError :=
  committed (
    let? _ := require_ready_for_ownership "session-owner activation" c in
    let? scope :=
      map_err map_store_error (authorize_session_owner (io 0) (io 1) lease capability o) in
    guard? bool_decide (gr_registrar (so_granted scope) = registrar)
      else CtlConflict "session-owner activation belongs to its original registrar" in
    let? identity := exact_child "session owner" look' peer owner registrar in
    map_err map_store_error (activate_session_owner (io 2) lease identity now o))
    o (session_owner_status_of (io 3) lease).

(** [IpcCommand::SessionOwnerRelease]. *)
Definition handle_session_owner_release (io : nat → option StoreError) (look' : native_lookup)
    (lease capability : string) (now : N) (o : ownership) :
    ownership * result OwnerPayload ControlError :=
  committed (
    let? scope :=
      map_err map_store_error (authorize_session_owner (io 0) (io 1) lease capability o) in
    let g := so_granted scope in
    if bool_decide (is_Some (gr_released_at_us g)) then Ok o else
    let? _ := owner_gone "session owner" look' (gr_owner g) in
    map_err map_store_error
      (release_session_owner (io 2) lease now (release_reason (gr_owner g)) (gr_owner g) o))
    o (session_owner_status_of (io 3) lease).

(** The answer of a command that commits with its answer. *)
Definition answered {A B E} (before : A) (r : result (A * B) E) : A * result B E :=
  match r with
  | Ok r => (r.1, Ok r.2)
  | Err e => (before, Err e)
  end.

(** [ControlPlane::handle_owner_peer_at]; [token] and [capability] are random. *)
Definition handle_owner_peer_at (token capability' : string) (io : nat → option StoreError)
    (look look' : native_lookup) (command : OwnerCommand) (peer now : N)
    (c : ControlPlane) (o : ownership) :
    ControlPlane * (ownership * result OwnerPayload ControlError) :=
  match peer_identity look peer with
  | Err e => (c, (o, Err e))
  | Ok registrar =>
      match command with
      | TaskReserve task =>
          (c, answered o (handle_task_reserve token io task registrar now c o))
      | TaskActivate task capability owner =>
          (c, handle_task_activate io look' task capability peer owner registrar now c o)
      | TaskFinish task capability => (c, handle_task_finish io look' task capability now o)
      | SessionOwnerDeclare session namespace version =>
          (c, answered o
                (handle_session_owner_declare token capability' io session namespace version
                   registrar now c o))
      | SessionOwnerActivate lease capability owner =>
          (c, handle_session_owner_activate io look' lease capability peer owner registrar now c o)
      | SessionOwnerRelease lease capability =>
          (c, handle_session_owner_release io look' lease capability now o)
      | SessionOwnerStatusOf lease => (c, (o, session_owner_status_of (io 0) lease o))
      | TaskStatusOf task => (c, (o, task_status_of (io 0) task o))
      | OtherCommand command =>
          let '(c, payload) := handle_at (io 0) (io 1) (io 2) command now c in
          (c, (o, let? payload := payload in Ok (PayOther payload)))
      end
  end.
End Commands.

(** * The commands, verified

    The commands of the leases, verified.

    What a peer changes in the leases is its own: it registers itself, it names a live
    child of its own, and it releases only what nobody runs any more. *)

From S2P Require Import JournalFacts OwnersFacts OwnersBinding DurableRun.

Section Facts.
Context `{JE : Json EventPayload, JT : Json TaskOwnerIdentity, JI : Json ProcessIdentity}.

(** ** Authority *)

Lemma authorize_task_Ok io io' task capability o scope :
  authorize_task io io' task capability o = Ok scope →
  ∃ g, task_rows o !! task = Some g ∧ g_capability g = capability ∧
    read_grant "task activation" "task release" g = Ok (scope_granted scope).
Proof.
  unfold authorize_task. intros H. apply result_bind_Ok in H as (b & Hb & H).
  apply with_connection_Ok in Hb as [_ [= <-]]. apply guard_Ok in H as [Hcap%bool_decide_eq_true H].
  apply result_bind_Ok in H as (scopes & Hs & H%ok_or_Ok).
  apply find_some in H as [Hin Hid%bool_decide_eq_true]. apply list_elem_of_In in Hin.
  destruct (task_scopes_elem _ _ _ _ Hs Hin) as (g & Hg & Hread). rewrite Hid in Hg.
  rewrite Hg in Hcap. exists g. split; [done|]. split; [by injection Hcap|done].
Qed.

Lemma authorize_session_Ok io io' lease capability o scope :
  authorize_session_owner io io' lease capability o = Ok scope →
  ∃ r, session_rows o !! lease = Some r ∧ g_capability (sl_grant r) = capability ∧
    read_grant "session-owner activation" "session-owner release" (sl_grant r) = Ok (so_granted scope).
Proof.
  unfold authorize_session_owner. intros H. apply result_bind_Ok in H as (b & Hb & H).
  apply with_connection_Ok in Hb as [_ [= <-]]. apply guard_Ok in H as [Hcap%bool_decide_eq_true H].
  apply result_bind_Ok in H as (scopes & Hs & H%ok_or_Ok).
  apply find_some in H as [Hin Hid%bool_decide_eq_true]. apply list_elem_of_In in Hin.
  destruct (session_scopes_elem _ _ _ _ Hs Hin) as (r & Hr & Hread). rewrite Hid in Hr, Hread.
  apply session_scope_Ok in Hread as (_ & _ & _ & _ & _ & Hread).
  rewrite Hr in Hcap. exists r. split; [done|]. split; [by injection Hcap|done].
Qed.

Lemma require_ready_Ok what c :
  require_ready_for_ownership what c = Ok tt → ready_for_ownership (ctl_status c) = true.
Proof. unfold require_ready_for_ownership. by intros [_ [H _]%guard_Ok]%guard_Ok. Qed.

(** A live child of the peer, of its user. *)
Definition live_child (look : native_lookup) (peer owner : N) (registrar identity : TaskOwnerIdentity) :
    Prop :=
  ∃ p, look owner = Ok (Some p) ∧ parent_pid p = peer ∧ uid p = owner_uid_ registrar ∧
    owner_from_process p = Some identity.

Lemma exact_child_Ok kind look peer owner registrar identity :
  exact_child kind look peer owner registrar = Ok identity →
  live_child look peer owner registrar identity.
Proof.
  unfold exact_child. intros H. apply result_bind_Ok in H as (found & Hf%map_err_Ok & H).
  apply result_bind_Ok in H as (p & ->%ok_or_Ok & H). apply guard_Ok in H as [Hg H%ok_or_Ok].
  apply negb_true_iff, orb_false_iff in Hg as [Hp%negb_false_iff Hu%negb_false_iff].
  exists p. rewrite bool_decide_eq_true in Hp, Hu. done.
Qed.

(** The operating system says that the process is gone, or that its PID is another's. *)
Definition gone (look : native_lookup) (owner : option TaskOwnerIdentity) : Prop :=
  ∀ i, owner = Some i →
    look (owner_pid i) = Ok None ∨ ∃ p, look (owner_pid i) = Ok (Some p) ∧ owner_matches i p = false.

Lemma owner_gone_Ok kind look owner : owner_gone kind look owner = Ok tt → gone look owner.
Proof.
  intros H i ->. simpl in H. destruct (look (owner_pid i)) as [[p|]|e]; [|by left|done].
  apply guard_Ok in H as [H%negb_true_iff _]. right. by exists p.
Qed.

(** ** The changes *)

(** A grant was given to the owner: it had none and was not released. *)
Definition activated (identity : TaskOwnerIdentity) (g g' : grant) : Prop :=
  g_owner_json g = None ∧ g_released_at_us g = None ∧
  g_owner_json g' = Some (json_to_string identity) ∧ evolves g g'.

(** A grant was released, of the owner it had. *)
Definition ended (look : native_lookup) (g g' : grant) : Prop :=
  g_released_at_us g = None ∧ is_Some (g_released_at_us g') ∧ g_owner_json g' = g_owner_json g ∧
  evolves g g' ∧ ∃ owner, option_transpose from_json (g_owner_json g) = Ok owner ∧ gone look owner.

Lemma activate_changes released replaced label owner now g g' :
  activate_grant released replaced label owner now g = Ok g' → g' ≠ g → activated owner g g'.
Proof. intros (He & Hr & [->|[Ho Ho']])%activate_evolves Hne; [done|by split_and!]. Qed.

Lemma release_changes look activation release x at_ reason g :
  read_grant activation release g = Ok x → gone look (gr_owner x) →
  release_grant at_ reason (gr_owner x) g ≠ g →
  ended look g (release_grant at_ reason (gr_owner x) g).
Proof.
  intros (_ & Ho & _ & _)%read_grant_Ok Hgone Hne.
  pose proof (release_evolves at_ reason (gr_owner x) g) as He.
  unfold ended, release_grant in *. destruct (releasable (gr_owner x) g) eqn:Hr; [|done].
  apply andb_true_iff in Hr as [Hr%bool_decide_eq_true _].
  split; [done|]. split; [by eexists|]. split; [done|]. split; [done|]. by exists (gr_owner x).
Qed.

(** What the command did to the leases, by the registrar's own authority. *)
Definition own_change (c : ControlPlane) (look' : native_lookup) (peer : N)
    (registrar : TaskOwnerIdentity) (command : OwnerCommand) (o o' : ownership) : Prop :=
  match command with
  | TaskReserve task =>
      ready_for_ownership (ctl_status c) = true ∧ task_rows o !! task = None ∧
      ∃ capability at_, o' = o <| task_rows ::= <[task := new_grant capability registrar at_]> |>
  | TaskActivate task capability owner =>
      ready_for_ownership (ctl_status c) = true ∧
      ∃ g g' identity, task_rows o !! task = Some g ∧ g_capability g = capability ∧
        from_json (g_registrar_json g) = Ok registrar ∧
        live_child look' peer owner registrar identity ∧ activated identity g g' ∧
        o' = o <| task_rows ::= <[task := g']> |>
  | TaskFinish task capability =>
      ∃ g g', task_rows o !! task = Some g ∧ g_capability g = capability ∧ ended look' g g' ∧
        o' = o <| task_rows ::= <[task := g']> |>
  | SessionOwnerDeclare session namespace version =>
      ready_for_ownership (ctl_status c) = true ∧
      ∃ lease r, session_rows o !! lease = None ∧
        sl_selector r = ordinary_selector_fingerprint namespace session ∧
        sl_session_name r = session ∧ sl_version r = version ∧
        g_registrar_json (sl_grant r) = json_to_string registrar ∧
        latest_lease unreleased (sl_selector r) (session_rows o) = None ∧
        o' = o <| session_rows ::= <[lease := r]> |>
  | SessionOwnerActivate lease capability owner =>
      ready_for_ownership (ctl_status c) = true ∧
      ∃ r g' identity, session_rows o !! lease = Some r ∧ g_capability (sl_grant r) = capability ∧
        from_json (g_registrar_json (sl_grant r)) = Ok registrar ∧
        live_child look' peer owner registrar identity ∧ activated identity (sl_grant r) g' ∧
        o' = o <| session_rows ::= <[lease := with_grant (λ _, g') r]> |>
  | SessionOwnerRelease lease capability =>
      ∃ r g', session_rows o !! lease = Some r ∧ g_capability (sl_grant r) = capability ∧
        ended look' (sl_grant r) g' ∧
        o' = o <| session_rows ::= <[lease := with_grant (λ _, g') r]> |>
  | _ => False
  end.

Lemma task_unchanged o task g :
  task_rows o !! task = Some g → o <| task_rows ::= <[task := g]> |> = o.
Proof. intros H. destruct o; unfold set; simpl in *. by rewrite insert_id. Qed.

Lemma session_unchanged o lease r :
  session_rows o !! lease = Some r → o <| session_rows ::= <[lease := with_grant (λ _, sl_grant r) r]> |> = o.
Proof. intros H. destruct o; unfold set; simpl in *. rewrite insert_id; [done|]. rewrite H. by destruct r. Qed.

Lemma alter_row {V} (f : V → V) (t : gmap string V) k v :
  t !! k = Some v → alter f k t = <[k := f v]> t.
Proof.
  intros Hv. apply map_eq. intros k'. destruct (decide (k = k')) as [<-|Hne].
  - by rewrite lookup_alter_eq, lookup_insert_eq, Hv.
  - by rewrite lookup_alter_ne, lookup_insert_ne.
Qed.

Lemma committed_change {A E F} (done : result ownership E) o (answer : ownership → result A E) o' (r : result A F) :
  (committed done o answer).1 = o' → o' ≠ o → done = Ok o'.
Proof. destruct done as [o1|e]; simpl; congruence. Qed.

Lemma task_activate_change io look' task capability peer owner registrar now c o o' :
  (handle_task_activate io look' task capability peer owner registrar now c o).1 = o' → o' ≠ o →
  own_change c look' peer registrar (TaskActivate task capability owner) o o'.
Proof.
  intros H Hne. apply (committed_change _ _ _ _ (Err tt)) in H; [|done].
  apply result_bind_Ok in H as ([] & Hready%require_ready_Ok & H). split; [done|].
  apply result_bind_Ok in H as (scope & (g & Hg & Hcap & Hread)%map_err_Ok%authorize_task_Ok & H).
  apply guard_Ok in H as [Hreg%bool_decide_eq_true H].
  apply result_bind_Ok in H as (identity & Hchild%exact_child_Ok & H%map_err_Ok).
  unfold activate_task in H. apply with_connection_Ok in H as [_ H].
  apply result_bind_Ok in H as (g0 & Hg0%ok_or_Ok & H). assert (g0 = g) as -> by congruence.
  apply result_bind_Ok in H as (g' & Hact & [= <-]).
  exists g, g', identity. pose proof (read_grant_Ok _ _ _ _ Hread) as (Hr & _).
  do 2 (split; [done|]). split; [by rewrite <-Hreg|]. split; [done|]. split; [|done].
  eapply activate_changes; [exact Hact|]. intros ->. by apply Hne, task_unchanged.
Qed.

Lemma session_activate_change io look' lease capability peer owner registrar now c o o' :
  (handle_session_owner_activate io look' lease capability peer owner registrar now c o).1 = o' →
  o' ≠ o → own_change c look' peer registrar (SessionOwnerActivate lease capability owner) o o'.
Proof.
  intros H Hne. apply (committed_change _ _ _ _ (Err tt)) in H; [|done].
  apply result_bind_Ok in H as ([] & Hready%require_ready_Ok & H). split; [done|].
  apply result_bind_Ok in H as (scope & (r & Hrow & Hcap & Hread)%map_err_Ok%authorize_session_Ok & H).
  apply guard_Ok in H as [Hreg%bool_decide_eq_true H].
  apply result_bind_Ok in H as (identity & Hchild%exact_child_Ok & H%map_err_Ok).
  unfold activate_session_owner in H. apply with_connection_Ok in H as [_ H].
  apply result_bind_Ok in H as (r0 & Hr0%ok_or_Ok & H). assert (r0 = r) as -> by congruence.
  apply result_bind_Ok in H as (g' & Hact & [= <-]).
  exists r, g', identity. pose proof (read_grant_Ok _ _ _ _ Hread) as (Hr & _).
  do 2 (split; [done|]). split; [by rewrite <-Hreg|]. split; [done|]. split; [|done].
  eapply activate_changes; [exact Hact|]. intros ->. by apply Hne, session_unchanged.
Qed.

Lemma task_finish_change c io look' peer registrar task capability now o o' :
  (handle_task_finish io look' task capability now o).1 = o' → o' ≠ o →
  own_change c look' peer registrar (TaskFinish task capability) o o'.
Proof.
  intros H Hne. apply (committed_change _ _ _ _ (Err tt)) in H; [|done].
  apply result_bind_Ok in H as (scope & (g & Hg & Hcap & Hread)%map_err_Ok%authorize_task_Ok & H).
  cbv zeta in H. destruct (bool_decide _) in H; [congruence|].
  apply result_bind_Ok in H as ([] & Hgone%owner_gone_Ok & H%map_err_Ok).
  unfold release_task in H. apply with_connection_Ok in H as [_ H].
  apply result_bind_Ok in H as (at_ & _ & [= <-]).
  exists g. eexists. split; [done|]. split; [done|].
  split; [|unfold set; simpl; by rewrite (alter_row _ _ _ _ Hg)].
  eapply release_changes; [exact Hread|done|]. intros He. apply Hne.
  destruct o as [t tc s sc]. unfold set; simpl in *. rewrite (alter_row _ _ _ _ Hg), He. by rewrite insert_id.
Qed.

Lemma session_release_change c io look' peer registrar lease capability now o o' :
  (handle_session_owner_release io look' lease capability now o).1 = o' → o' ≠ o →
  own_change c look' peer registrar (SessionOwnerRelease lease capability) o o'.
Proof.
  intros H Hne. apply (committed_change _ _ _ _ (Err tt)) in H; [|done].
  apply result_bind_Ok in H as (scope & (r & Hr & Hcap & Hread)%map_err_Ok%authorize_session_Ok & H).
  cbv zeta in H. destruct (bool_decide _) in H; [congruence|].
  apply result_bind_Ok in H as ([] & Hgone%owner_gone_Ok & H%map_err_Ok).
  unfold release_session_owner in H. apply with_connection_Ok in H as [_ H].
  apply result_bind_Ok in H as (at_ & _ & [= <-]).
  exists r. eexists. split; [done|]. split; [done|]. split.
  - eapply release_changes; [exact Hread|done|]. intros He. apply Hne.
    destruct o as [t tc s sc]. unfold set; simpl in *. rewrite (alter_row _ _ _ _ Hr). unfold with_grant.
    rewrite He, insert_id; [done|]. rewrite Hr. by destruct r.
  - unfold set; simpl. by rewrite (alter_row _ _ _ _ Hr).
Qed.

Lemma reserve_change c io look' peer registrar token task now o o' answer :
  handle_task_reserve token io task registrar now c o = Ok (o', answer) → o' ≠ o →
  own_change c look' peer registrar (TaskReserve task) o o'.
Proof.
  intros H Hne. apply result_bind_Ok in H as ([] & Hready%require_ready_Ok & H). split; [done|].
  apply result_bind_Ok in H as ([o1 l] & H%map_err_Ok & [= -> _]). unfold reserve_task in H.
  apply guard_Ok in H as [_ H]. apply with_connection_Ok in H as [_ H].
  apply result_bind_Ok in H as ([o2 cap] & H & [= -> _]).
  destruct (task_rows o !! task) as [g|].
  - apply result_bind_Ok in H as (prior & _ & H). apply guard_Ok in H as [_ [= -> _]]. done.
  - split; [done|]. apply guard_Ok in H as [_ H]. apply result_bind_Ok in H as (created & _ & H).
    apply guard_Ok in H as [_ [= <- _]]. by exists token, created.
Qed.

Lemma declare_change c io look' peer registrar lease capability session namespace version now o o' answer :
  handle_session_owner_declare lease capability io session namespace version registrar now c o =
    Ok (o', answer) → o' ≠ o →
  own_change c look' peer registrar (SessionOwnerDeclare session namespace version) o o'.
Proof.
  intros H Hne. apply result_bind_Ok in H as ([] & Hready%require_ready_Ok & H). split; [done|].
  apply guard_Ok in H as [_ H]. apply result_bind_Ok in H as ([o1 l] & H%map_err_Ok & [= -> _]).
  apply declare_Ok in H as [[-> _]|(Hnone & Hl & _ & _ & r & -> & Hs & Hn & Hv & _ & Hreg & _)]; [done|].
  exists lease, r. by rewrite Hs.
Qed.

(** The peer's own leases. Whatever command a peer sends, the leases change only by
    its own authority. A reservation or a declaration registers the peer itself, in a
    healthy ready daemon; an activation names a live child of the registrar, with the
    registrar's user, knows the capability, and fills an empty place; a release knows the
    capability, and is of an owner that the operating system says is gone. Every refused
    command leaves the leases as they were. *)
Theorem owner_commands_are_exact token capability io look look' command peer now c c' o o' answer :
  handle_owner_peer_at token capability io look look' command peer now c o = (c', (o', answer)) →
  o' ≠ o →
  c' = c ∧ ∃ registrar, peer_identity look peer = Ok registrar ∧
    own_change c look' peer registrar command o o'.
Proof.
  unfold handle_owner_peer_at.
  destruct (peer_identity look peer) as [registrar|e]; [|by intros [= _ <- _]].
  destruct command as [task|task cap owner|task cap|session namespace version|lease cap owner|lease cap
    |lease|task|command].
  - unfold answered. destruct (handle_task_reserve _ _ _ _ _ _ _) as [[o1 a]|e] eqn:H;
      [|by intros [= _ <- _]].
    intros [= <- <- _] Hne. split; [done|]. exists registrar. split; [done|]. by eapply reserve_change.
  - destruct (handle_task_activate _ _ _ _ _ _ _ _ _ _) as [o1 a] eqn:H. intros [= <- <- _] Hne.
    split; [done|]. exists registrar. split; [done|]. eapply task_activate_change; [|done]. by rewrite H.
  - destruct (handle_task_finish _ _ _ _ _ _) as [o1 a] eqn:H. intros [= <- <- _] Hne.
    split; [done|]. exists registrar. split; [done|]. eapply task_finish_change; [|done]. by rewrite H.
  - unfold answered.
    destruct (handle_session_owner_declare _ _ _ _ _ _ _ _ _ _) as [[o1 a]|e] eqn:H;
      [|by intros [= _ <- _]].
    intros [= <- <- _] Hne. split; [done|]. exists registrar. split; [done|]. by eapply declare_change.
  - destruct (handle_session_owner_activate _ _ _ _ _ _ _ _ _ _) as [o1 a] eqn:H. intros [= <- <- _] Hne.
    split; [done|]. exists registrar. split; [done|]. eapply session_activate_change; [|done]. by rewrite H.
  - destruct (handle_session_owner_release _ _ _ _ _ _) as [o1 a] eqn:H. intros [= <- <- _] Hne.
    split; [done|]. exists registrar. split; [done|]. eapply session_release_change; [|done]. by rewrite H.
  - by intros [= _ <- _].
  - by intros [= _ <- _].
  - destruct (handle_at _ _ _ _ _ _). by intros [= _ <- _].
Qed.
End Facts.
