(* ===== verification/OwnersExamples.v ===== *)
(** OwnersExamples: the leases and their commands on concrete runs, in the JSON codec of
    [DurableExamples.v].

    A host reserves a task, activates it for its child and releases it after the child is
    gone; another declares a session owner in the same way. *)

From S2P Require Import Prelude Text Model Fingerprint Task Artifact Evidence Cleanup Cooling.
From S2P Require Import Names Store Executor Analyzer Journal Lifecycle Protocol Mutations.
From S2P Require Import Observations Views Maintenance Control Owners OwnersFacts OwnersBinding.
From S2P Require Import OwnerCommands DurableExamples MutationExamples ControlExamples.

#[export] Instance task_owner_wire : Wire TaskOwnerIdentity :=
  wire_via (λ o, (owner_pid o, owner_started_at_unix_micros o, owner_uid_ o))
    (λ '(a, b, c), mkTaskOwnerIdentity a b c) ltac:(by intros []).

#[export] Instance identity_wire : Wire ProcessIdentity :=
  wire_via (λ i, (pid i, started_at_unix_micros i, executable_device i, executable_inode i))
    (λ '(a, b, c, d), mkProcessIdentity a b c d) ltac:(by intros []).

#[export] Instance task_owner_json : Json TaskOwnerIdentity := wire_json.

#[export] Instance identity_json : Json ProcessIdentity := wire_json.

(** ** A host, its child and two controllers *)

Definition example_task : string := "0123456789abcdef0123456789abcdef".

Definition example_token : string := "fedcba9876543210fedcba9876543210".

Definition native_process (p parent started : N) (cli : option PlaywrightCliRuntime) : ProcessRecord :=
  mkProcessRecord (mkProcessIdentity p started (Some 1%N) (Some p)) parent p 501 None "node" None
    (mkExecutableIdentity (Some 1%N) (Some p) None None) None 10 Running
    (default_runtime_facts <| playwright_cli := cli |>).

Definition host : ProcessRecord := native_process 50 1 100000 None.

Definition child : ProcessRecord := native_process 60 50 900000 None.

Definition example_selector : string := ordinary_selector_fingerprint "0123456789abcdef" "work".

Definition task_controller : ProcessRecord :=
  native_process 70 60 3000000
    (Some (mkPlaywrightCliRuntime (session_name_from_id example_task) "1.0" true false None)).

Definition session_controller : ProcessRecord :=
  native_process 71 60 3500000 (Some (mkPlaywrightCliRuntime "work" "1.0" true false (Some example_selector))).

Definition host_running : native_lookup := λ p,
  Ok (List.find (λ r, bool_decide (process_pid r = p)) [host; child]).

Definition child_gone : native_lookup := λ p,
  Ok (List.find (λ r, bool_decide (process_pid r = p)) [host]).

Definition controllers_seen : Snapshot :=
  mkSnapshot 4000 501 [host; child; task_controller; session_controller]
    (mkSnapshotCoverage 4 4 0 0 0 0 0 0 0).

(** ** The run *)

(** A command of the host, and the leases after it. *)
Definition commanded (look' : native_lookup) (command : OwnerCommand) (now : N) (o : ownership) :
    ControlPlane * (ownership * result OwnerPayload ControlError) :=
  handle_owner_peer_at example_token example_task no_fault host_running look' command 50 now armed o.

Definition leases_reserved : ownership := (commanded host_running (TaskReserve example_task) 1000 new_ownership).2.1.

Definition leases_active : ownership :=
  (commanded host_running (TaskActivate example_task example_token 60) 2000 leases_reserved).2.1.

Definition leases_bound : ownership :=
  (bind_task_controllers None None None no_fault controllers_seen leases_active).1.

Definition leases_ended : ownership :=
  (commanded child_gone (TaskFinish example_task example_token) 5000 leases_bound).2.1.

Definition session_declared : ownership :=
  (commanded host_running (SessionOwnerDeclare "work" "0123456789abcdef" "1.0") 1000 new_ownership).2.1.

Definition session_active : ownership :=
  (commanded host_running (SessionOwnerActivate example_token example_task 60) 2000 session_declared).2.1.

Definition session_bound : ownership :=
  (bind_session_owner_controllers None None None no_fault controllers_seen session_active).1.

(** ** The steps of the run *)

Definition host_owner : TaskOwnerIdentity := mkTaskOwnerIdentity 50 100000 501.

Definition child_owner : TaskOwnerIdentity := mkTaskOwnerIdentity 60 900000 501.

Definition example_lease : TaskLease :=
  mkTaskLease example_task (session_name_from_id example_task) example_token.

Definition example_session_lease : SessionOwnerLease :=
  mkSessionOwnerLease example_token "work" example_selector 1 example_task.

Lemma task_reserved :
  reserve_task example_token None example_task host_owner 1000 new_ownership =
    Ok (leases_reserved, example_lease).
Proof. vm_compute. reflexivity. Qed.

Lemma task_activated :
  activate_task None example_task child_owner 2000 leases_reserved = Ok leases_active.
Proof. vm_compute. reflexivity. Qed.

Lemma task_released :
  release_task None example_task 5000 "reported_exit" (Some child_owner) leases_bound = Ok leases_ended.
Proof. vm_compute. reflexivity. Qed.

Lemma task_bound :
  bind_task_controllers None None None no_fault controllers_seen leases_active = (leases_bound, Ok tt).
Proof. vm_compute. reflexivity. Qed.

Lemma session_declares :
  declare_session_owner example_token example_task None example_selector "work" "1.0" host_owner 1000
    new_ownership = Ok (session_declared, example_session_lease).
Proof. vm_compute. reflexivity. Qed.

Lemma session_activates :
  activate_session_owner None example_token child_owner 2000 session_declared = Ok session_active.
Proof. vm_compute. reflexivity. Qed.

Lemma session_binds :
  bind_session_owner_controllers None None None no_fault controllers_seen session_active =
    (session_bound, Ok tt).
Proof. vm_compute. reflexivity. Qed.

Lemma task_run : rtc lease_step leases_reserved leases_ended.
Proof.
  eapply rtc_l; [exact (step_activate _ _ _ _ _ _ task_activated)|].
  eapply rtc_l; [exact (step_bind None None None no_fault controllers_seen leases_active)|].
  eapply rtc_once. exact (step_release _ _ _ _ _ _ _ task_released).
Qed.

Lemma session_run : rtc lease_step new_ownership session_active.
Proof.
  eapply rtc_l; [exact (step_declare _ _ _ _ _ _ _ _ _ _ _ session_declares)|].
  eapply rtc_once. exact (step_activate_session _ _ _ _ _ _ session_activates).
Qed.

Lemma generations_fit_decided t :
  forallb (λ e : string * session_row, bool_decide (sl_generation e.2 < Z.of_N u64_bound)%Z)
    (map_to_list t) = true → generations_fit t.
Proof.
  rewrite forallb_forall. intros H l r Hr. apply (bool_decide_eq_true_1 _), (H (l, r)).
  by apply list_elem_of_In, elem_of_map_to_list.
Qed.

Lemma session_generations_fit : generations_fit (session_rows session_active).
Proof. apply generations_fit_decided. vm_compute. reflexivity. Qed.

Lemma session_bound_fit : generations_fit (session_rows session_bound).
Proof. apply generations_fit_decided. vm_compute. reflexivity. Qed.

Lemma session_bound_run : rtc lease_step new_ownership session_bound.
Proof.
  eapply rtc_r; [exact session_run|].
  exact (step_bind_session None None None no_fault controllers_seen session_active).
Qed.

(** ** The witnesses *)

Lemma leases_are_permanent_witness :
  ∃ g, task_rows leases_reserved !! example_task = Some g ∧ g_owner_json g = None ∧
    ((∃ g', task_rows leases_ended !! example_task = Some g' ∧ evolves g g') ∨
     ∃ dbm dbn gm, rtc lease_step leases_reserved dbm ∧ rtc lease_step dbn leases_ended ∧
       task_rows dbm !! example_task = Some gm ∧ evolves g gm ∧ task_rows dbn !! example_task = None ∧
       deletes_task dbm dbn example_task gm).
Proof.
  exists (new_grant example_token host_owner 1000).
  split; [vm_compute; reflexivity|]. split; [vm_compute; reflexivity|].
  apply (proj1 (leases_are_permanent leases_reserved leases_ended task_run)).
  vm_compute. reflexivity.
Defined.

Lemma controllers_are_bound_at_birth_witness :
  size (task_controller_rows leases_bound) = 1 ∧
  binds_at_birth (runs_task leases_active) (λ t, is_Some (task_rows leases_bound !! t))
    controllers_seen (task_controller_rows leases_active) (task_controller_rows leases_bound) ∧
  size (session_controller_rows session_bound) = 1 ∧
  binds_at_birth (runs_session session_active) (λ l, is_Some (session_rows session_bound !! l))
    controllers_seen (session_controller_rows session_active) (session_controller_rows session_bound).
Proof.
  split; [vm_compute; reflexivity|]. split.
  - refine (proj1 (controllers_are_bound_at_birth None None None no_fault controllers_seen
      new_ownership leases_active leases_bound (Ok tt) eq_refl _ _) task_bound).
    + eapply rtc_l; [exact (step_reserve _ _ _ _ _ _ _ _ task_reserved)|].
      eapply rtc_once. exact (step_activate _ _ _ _ _ _ task_activated).
    + apply generations_fit_decided. vm_compute. reflexivity.
  - split; [vm_compute; reflexivity|].
    exact (proj2 (controllers_are_bound_at_birth None None None no_fault controllers_seen
      new_ownership session_active session_bound (Ok tt) eq_refl session_run
      session_generations_fit) session_binds).
Defined.

Definition example_binding : SessionOwnerBinding :=
  mkSessionOwnerBinding example_token example_selector "work" "1.0" (identity session_controller) false.

Lemma session_evidence : session_owner_bindings None None session_bound = Ok [example_binding].
Proof. vm_compute. reflexivity. Qed.

Lemma selectors_have_one_owner_witness :
  generations_wf (session_rows session_bound) ∧
  ∃ r, evidence_of session_bound example_binding r ∧ newest_lease (session_rows session_bound) r.
Proof.
  destruct (selectors_have_one_owner new_ownership session_bound eq_refl session_bound_run
              session_bound_fit) as (Hwf & _ & Hev).
  split; [exact Hwf|]. exact (Hev None None _ _ session_evidence (list_elem_of_here _ _)).
Defined.

Lemma host_reserves :
  commanded host_running (TaskReserve example_task) 1000 new_ownership =
    (armed, (leases_reserved, Ok (PayTaskLease example_lease))).
Proof. vm_compute. reflexivity. Qed.

Lemma owner_commands_are_exact_witness :
  own_change armed host_running 50 host_owner (TaskReserve example_task) new_ownership leases_reserved.
Proof.
  destruct (owner_commands_are_exact _ _ _ _ _ _ _ _ _ _ _ _ _ host_reserves) as (_ & r & Hr & H).
  - intros Heq%(f_equal (λ o, size (task_rows o))). vm_compute in Heq. discriminate.
  - vm_compute in Hr. injection Hr as <-. exact H.
Defined.
