(* ===== verification/Engine.v ===== *)
(** Engine: the reconciliation cycle of [unlinger-daemon/src/engine.rs].

    The engine is a program over the events of [EngineE]: a call on the runtime, on the
    daemon's shared state, a stop flag, or an operation on the background worker. A
    call on the shared state is one atomic step of it, [daemon_call]; between two of them
    other threads may have taken theirs. The executor of [Executor.v] runs inside the
    program, its events interpreted by [gated]. *)

From S2P Require Import Prelude Text Model Fingerprint Task Artifact Graph Evidence Cleanup.
From S2P Require Import Effects Executor Pack Matching Candidates Classify Analyzer Decisions.
From S2P Require Import Cooling Names Store Journal Lifecycle Protocol Mutations Observations.
From S2P Require Import Views Maintenance Control Owners.

(** ** Data *)

Record EngineConfig : Type := mkEngineConfig {
  observation_gap : Duration;
  abandonment_grace : Duration;
  cooling_continuity_gap : Duration;
  exact_absence_retention : Duration;
  cleanup_policy : CleanupPolicy;
  retention_policy : RetentionPolicy;
}.

(** [EngineConfig::default]. *)
Definition default_config : EngineConfig :=
  mkEngineConfig (from_secs 15) (from_secs 90) (from_secs 120) (from_secs (14 * 24 * 60 * 60))
    default_policy default_retention.

Record CycleReport : Type := mkCycleReport {
  cycle_schema_version : N;
  observed_twice : bool;
  incidents : list IncidentReport;
  cleanup_receipts : list CleanupReceipt;
}.

Inductive EngineError : Type :=
| EngineRuntime (error : RuntimeFailure)
| EngineRules (error : RuleError)
| EngineGraph (message : string)
| EngineStore (error : StoreError)
| EngineControl (error : ControlError)
| EnginePlan (error : CleanupPlanError)
| EngineCleanup (error : CleanupError)
| EnginePostDeliveryFailure (incident : string)
| EngineConfigError (message : string)
| EngineWorker (message : string).

(** [CleanupPlanError] as text. *)
Definition display_plan_error (e : CleanupPlanError) : string :=
  match e with
  | NotConfirmed => "incident is not cleanup-eligible CONFIRMED"
  | NoTargets => "incident has no frozen targets"
  | MissingSessionFingerprint => "incident has no revival/session fingerprint"
  | DuplicateTarget pid => "duplicate target PID " +:+ show_N pid
  | IncompleteIdentity pid => "target PID " +:+ show_N pid +:+ " has incomplete identity"
  | RootMissing => "incident root is missing from frozen targets"
  | NoPrimaryTarget => "incident has no controller or browser root target"
  | TooManyArtifacts => "incident has more than one 0.1 runtime artifact"
  | DuplicateArtifact => "incident has a duplicate artifact"
  | ArtifactSessionMismatch => "runtime artifact does not belong to the incident session"
  end.

(** [RuleError] as text. *)
Definition display_rule_error (e : RuleError) : string :=
  match e with
  | ParseError m => "could not parse signature pack: " +:+ m
  | InvalidPack m => "invalid signature pack: " +:+ m
  | InvalidGraph m => "invalid process graph: " +:+ m
  end.

(** [CleanupError] as text. *)
Definition display_cleanup_error (e : CleanupError) : string :=
  match e with
  | RuntimeError e _ => "cleanup runtime failed: " +:+ failure_message e
  | AttemptOpen e _ _ => "cleanup action remains open: " +:+ failure_message e
  end.

(** [EngineError] as text. *)
Definition display_engine_error (e : EngineError) : string :=
  match e with
  | EngineRuntime e => "snapshot runtime failed: " +:+ failure_message e
  | EngineRules e => "classification failed: " +:+ display_rule_error e
  | EngineGraph m => "process graph failed: " +:+ m
  | EngineStore e => "history store failed: " +:+ display_store_error e
  | EngineControl e => "daemon control failed: " +:+ control_message e
  | EnginePlan e => "cleanup plan failed: " +:+ display_plan_error e
  | EngineCleanup e => "cleanup execution failed: " +:+ display_cleanup_error e
  | EnginePostDeliveryFailure incident =>
      "cleanup " +:+ incident
        +:+ " ended with an uncertain or incomplete delivered side effect"
  | EngineConfigError m => "engine configuration failed: " +:+ m
  | EngineWorker m => "cleanup worker failed: " +:+ m
  end.

(** What a cleanup is executed from. *)
Record FrozenCleanup : Type := mkFrozenCleanup {
  frozen_analyzer : Analyzer;
  frozen_attempt : CleanupAttemptHandle;
  frozen_plan : CleanupPlan;
  frozen_policy : CleanupPolicy;
  frozen_epoch : string;
  frozen_revision : N;
  frozen_started_at : N;
}.

Record CleanupCompletion : Type := mkCleanupCompletion {
  completed_at_unix_millis : N;
  completion_result : result CleanupReceipt EngineError;
}.

(** [ReconciliationEngine]: its settings; [with_factory] says that a background runtime
    factory was given. The time its background worker started is threaded through. *)
Record ReconciliationEngine : Type := mkReconciliationEngine {
  engine_rules : RuleSet;
  engine_config : EngineConfig;
  engine_self_pid : option N;
  with_factory : bool;
}.

(** ** The shared state *)

Record daemon : Type := mkDaemon {
  d_control : ControlPlane;
  d_ownership : ownership;
}.

(** What a call on the shared state meets: the failure of each use of the store, random
    texts and the wall clock. *)
Record call_env : Type := mkCallEnv {
  ce_io : nat → option StoreError;
  ce_random : token_source;
  ce_namespace : string;
  ce_wall_nanos : N;
}.

(** The calls of the engine on the control plane and the store. *)
Inductive DaemonE : Type → Type :=
| BeginCycle (now : N) : DaemonE (result string ControlError)
| FinishCycle (token : string) (succeeded : bool) : DaemonE unit
| UpdateStatus (update : DaemonStatus → DaemonStatus) : DaemonE (result unit ControlError)
| CompleteCycle (now : N) : DaemonE (result unit ControlError)
| FailClosed (line now : N) (message : string) : DaemonE (result unit ControlError)
| StatusAt (now : N) : DaemonE (result DaemonStatus ControlError)
| PolicyRevision : DaemonE N
| PublishRoster (token : string) (observed_at : N) (reports : list IncidentReport)
    (complete : bool) : DaemonE (result unit ControlError)
| BeginAttempt (now : N) (report : IncidentReport) (epoch : string) (revision : N) :
    DaemonE (result (option CleanupAttemptHandle) ControlError)
| BeginActivity (token : string) : DaemonE (result unit ControlError)
| DropActivity (token : string) : DaemonE unit
| GateClosed (epoch : string) (revision : N) : DaemonE bool
| TrackCooling (report : IncidentReport) (clock : CoolingClock) (grace gap : N) :
    DaemonE (result bool StoreError)
| RetainCooling (keys : gset string) : DaemonE (result unit StoreError)
| ReconcileBlocks (seen : list ObservedIncidentIdentity) (live : gset string) (proven : bool)
    (now retention : N) : DaemonE (result Reconciliation StoreError)
| ReconcileProtections (live : gset string) (proven : bool) (now retention : N) :
    DaemonE (result Reconciliation StoreError)
| IsProtected (report : IncidentReport) : DaemonE (result bool StoreError)
| RecordBatch (observed_at : N) (reports : list IncidentReport) : DaemonE (result unit StoreError)
| CleanupBlocked (incident : string) : DaemonE (result bool StoreError)
| RecoverAttempts (now : N) : DaemonE (result (list CleanupReceipt) StoreError)
| CompleteAttempt (attempt : CleanupAttemptHandle) (now : N) (receipt : CleanupReceipt) :
    DaemonE (result CleanupReceipt StoreError)
| MostRecentReclaimOf : DaemonE (result (option MostRecentReclaim) StoreError)
| PruneHistory (now : N) (policy : RetentionPolicy) : DaemonE (result PruneResult StoreError)
| TaskScopes : DaemonE (result (list TaskScope) StoreError)
| ReleaseTask (task : string) (now : N) (reason : string) (owner : option TaskOwnerIdentity) :
    DaemonE (result unit StoreError)
| BindTasks (s : Snapshot) : DaemonE (result unit StoreError)
| TaskBindings : DaemonE (result (list TaskControllerBinding) StoreError)
| SessionScopes : DaemonE (result (list SessionOwnerScope) StoreError)
| ReleaseSession (lease : string) (now : N) (reason : string) (owner : option TaskOwnerIdentity) :
    DaemonE (result unit StoreError)
| BindSessions (s : Snapshot) : DaemonE (result unit StoreError)
| SessionBindings : DaemonE (result (list SessionOwnerBinding) StoreError)
| JournalPrepare (j : CleanupAttemptJournal) (intent : CleanupActionIntent) (at_ : N) :
    DaemonE (CleanupAttemptJournal * result string RuntimeFailure)
| JournalComplete (j : CleanupAttemptJournal) (id : string) (d : SignalDisposition) (at_ : N) :
    DaemonE (CleanupAttemptJournal * result unit RuntimeFailure)
| JournalPrepareArtifact (j : CleanupAttemptJournal) (intent : ArtifactActionIntent) (at_ : N) :
    DaemonE (CleanupAttemptJournal * result string RuntimeFailure)
| JournalCompleteArtifact (j : CleanupAttemptJournal) (id : string) (d : ArtifactDisposition)
    (at_ : N) : DaemonE (CleanupAttemptJournal * result unit RuntimeFailure).

Section Calls.
Context `{JE : Json EventPayload, JR : Json CleanupResources, JP : Json (list N),
  JT : Json TaskOwnerIdentity, JI : Json ProcessIdentity}.

(** A call that writes the database of the control plane, or fails. *)
Definition writes {A B} (r : result (database * A) StoreError) (answer : A → B) (d : daemon) :
    daemon * result B StoreError :=
  match r with
  | Ok (db, a) => (d <| d_control ::= λ c, c <| ctl_store := db |> |>, Ok (answer a))
  | Err e => (d, Err e)
  end.

(** A call on the control plane. *)
Definition controls {A} (r : ControlPlane * A) (d : daemon) : daemon * A :=
  (d <| d_control := r.1 |>, r.2).

(** A call on the leases. *)
Definition leases (r : result ownership StoreError) (d : daemon) : daemon * result unit StoreError :=
  match r with
  | Ok o => (d <| d_ownership := o |>, Ok tt)
  | Err e => (d, Err e)
  end.

(** A journal call: its journal and the database move together. *)
Definition journals {A B} (j : CleanupAttemptJournal)
    (r : result A RuntimeFailure) (after : A → journal_state * B) (d : daemon) :
    daemon * (CleanupAttemptJournal * result B RuntimeFailure) :=
  match r with
  | Ok a =>
      let '((j, db), b) := after a in
      (d <| d_control ::= λ c, c <| ctl_store := db |> |>, (j, Ok b))
  | Err e => (d, (j, Err e))
  end.

Definition engine_file : string := "crates/unlinger-daemon/src/engine.rs".

(** What a call does. *)
Definition daemon_call {X} (e : DaemonE X) (v : call_env) (d : daemon) : daemon * X :=
  let io := ce_io v in
  let c := d_control d in
  let db := ctl_store c in
  let o := d_ownership d in
  match e in DaemonE X return daemon * X with
  | BeginCycle now => controls (begin_observation_cycle (ce_wall_nanos v) now c) d
  | FinishCycle token succeeded => controls (finish_observation_cycle token succeeded c, tt) d
  | UpdateStatus update => controls (update_status update c) d
  | CompleteCycle now => controls (complete_successful_cycle (io 0) (io 1) now c) d
  | FailClosed line now message =>
      controls (fail_closed (engine_file, line) (io 0) now message c) d
  | StatusAt now => controls (status_at (io 0) (io 1) (io 2) now c) d
  | PolicyRevision => (d, ctl_revision c)
  | PublishRoster token at_ reports complete => controls (publish_roster token at_ reports complete c) d
  | BeginAttempt now report epoch revision =>
      controls (begin_cleanup_attempt_if_armed (ce_random v) (io 0) now report epoch revision c) d
  | BeginActivity token => controls (begin_process_cleanup_activity token c) d
  | DropActivity token => controls (drop_process_cleanup_activity token c, tt) d
  | GateClosed epoch revision => (d, action_gate_closed epoch revision c)
  | TrackCooling report clock grace gap =>
      let storage := display_store_error <$> io 0 in
      writes (let? t := track_cooling storage (cooling db) report clock grace gap in
              Ok (db <| cooling := t.1 |>, t.2)) id d
  | RetainCooling keys =>
      writes (with_connection (io 0) (Ok (db <| cooling ::= retain_cooling keys |>, tt))) id d
  | ReconcileBlocks seen live proven now retention =>
      writes (reconcile_retry_blocks (io 0) seen live proven now retention db) id d
  | ReconcileProtections live proven now retention =>
      writes (reconcile_incident_protections (io 0) live proven now retention db) id d
  | IsProtected report => (d, is_incident_protected (io 0) report db)
  | RecordBatch at_ reports =>
      writes (record_observation_batch (ce_random v) (io 0) at_ reports db) (λ _, tt) d
  | CleanupBlocked incident => (d, incident_cleanup_blocked (io 0) incident db)
  | RecoverAttempts now => writes (recover_incomplete_attempts (ce_random v) (io 0) now db) id d
  | CompleteAttempt attempt now receipt =>
      writes (complete_cleanup_attempt (ce_random v) (io 0) attempt now receipt db) id d
  | MostRecentReclaimOf => (d, most_recent_reclaim (io 0) db)
  | PruneHistory now policy => writes (prune (ce_namespace v) (io 0) now policy db) id d
  | TaskScopes => (d, task_scopes (io 0) o)
  | ReleaseTask task now reason owner => leases (release_task (io 0) task now reason owner o) d
  | BindTasks s =>
      let '(o, r) := bind_task_controllers (io 0) (io 1) (io 2) (λ n, io (3 + n)) s o in
      (d <| d_ownership := o |>, r)
  | TaskBindings => (d, task_controller_bindings (io 0) o)
  | SessionScopes => (d, session_owner_scopes (io 0) o)
  | ReleaseSession lease now reason owner =>
      leases (release_session_owner (io 0) lease now reason owner o) d
  | BindSessions s =>
      let '(o, r) := bind_session_owner_controllers (io 0) (io 1) (io 2) (λ n, io (3 + n)) s o in
      (d <| d_ownership := o |>, r)
  | SessionBindings => (d, session_owner_bindings (io 0) (io 1) o)
  | JournalPrepare j intent at_ =>
      journals j (journal_prepare_action (io 0) intent at_ (j, db)) id d
  | JournalComplete j id_ disposition at_ =>
      journals j (journal_complete_action (io 0) id_ disposition at_ (j, db)) (λ s, (s, tt)) d
  | JournalPrepareArtifact j intent at_ =>
      journals j (journal_prepare_artifact_action (io 0) intent at_ (j, db)) id d
  | JournalCompleteArtifact j id_ disposition at_ =>
      journals j (journal_complete_artifact_action (io 0) id_ disposition at_ (j, db)) (λ s, (s, tt)) d
  end.
End Calls.

(** ** Events *)

(** The events of the engine and of its worker. A gated operation answers [None] if the
    gate was shut or the cleanup cancelled; [cancellable] says that its flag is shared. *)
Inductive EngineE : Type → Type :=
| Runtime {X : Type} (e : CleanupE X) : EngineE X
| Gated {X : Type} (cancellable : bool) (epoch : string) (revision : N) (e : CleanupE X) :
    EngineE (option X)
| Call {X : Type} (e : DaemonE X) : EngineE X
| StopRequested : EngineE bool
| CancelRequested : EngineE bool
| Spawn (frozen : FrozenCleanup) (activity : string) : EngineE (result unit string)
| CancelWorker : EngineE unit
| WorkerFinished : EngineE bool
| JoinWorker : EngineE (option CleanupCompletion).

(** A step of the cycle: the start of the background worker, if there is one, is passed
    on; an error ends the cycle. *)
Abbreviation engine A := (option N → prog EngineE (option N * result A EngineError)).

Definition ret {A} (a : A) : engine A := λ w, Ret (w, Ok a).

Definition fail_with {A} (e : EngineError) : engine A := λ w, Ret (w, Err e).

Definition engine_bind {A B} (m : engine A) (k : A → engine B) : engine B := λ w,
  do* r := m w in
  match r with
  | (w, Ok a) => k a w
  | (w, Err e) => Ret (w, Err e)
  end.

Notation "'let!' x ':=' m 'in' k" := (engine_bind m (λ x, k))
  (at level 10, x name, m at level 200, k at level 200) : unlinger_scope.

(** An event that cannot fail. *)
Definition event {X} (e : EngineE X) : engine X := λ w, do* x := trigger e in Ret (w, Ok x).

Definition attempt {A} (r : result A EngineError) : engine A := λ w, Ret (w, r).

(** [self.runtime.method()?]. *)
Definition runtime_call {A} (e : CleanupE (result A RuntimeFailure)) : engine A :=
  let! r := event (Runtime e) in attempt (map_err EngineRuntime r).

(** [self.control.store().method()?]. *)
Definition store_call {A} (e : DaemonE (result A StoreError)) : engine A :=
  let! r := event (Call e) in attempt (map_err EngineStore r).

(** [self.control.method()?]. *)
Definition control_call {A} (e : DaemonE (result A ControlError)) : engine A :=
  let! r := event (Call e) in attempt (map_err EngineControl r).

(** ** The gated runtime *)

(** The executor's events in the engine, with the journal of the attempt: [GatedRuntime]
    and [cleanup_should_stop] of [execute_cleanup]. A gated operation that panics answers
    [DeliveryUnknown]. *)
Definition gated (frozen : FrozenCleanup) (cancellable stoppable : bool) {X} (e : CleanupE X)
    (j : CleanupAttemptJournal) : prog EngineE (CleanupAttemptJournal * X) :=
  let epoch := frozen_epoch frozen in
  let revision := frozen_revision frozen in
  match e in CleanupE X return prog EngineE (CleanupAttemptJournal * X) with
  | SignalExact i s =>
      do* d := trigger (Gated cancellable epoch revision (SignalExact i s)) in
      Ret (j, default CancelledBeforeDelivery d)
  | RemoveArtifactExact a =>
      do* d := trigger (Gated cancellable epoch revision (RemoveArtifactExact a)) in
      Ret (j, default ArtCancelledBeforeDelivery d)
  | PrepareAction i at_ => trigger (Call (JournalPrepare j i at_))
  | CompleteAction id d at_ => trigger (Call (JournalComplete j id d at_))
  | PrepareArtifactAction i at_ => trigger (Call (JournalPrepareArtifact j i at_))
  | CompleteArtifactAction id d at_ => trigger (Call (JournalCompleteArtifact j id d at_))
  | ShouldStop =>
      do* stop := (if stoppable then trigger StopRequested else Ret false) in
      if stop then Ret (j, true) else
      do* cancelled := (if cancellable then trigger CancelRequested else Ret false) in
      if cancelled then Ret (j, true) else
      do* closed := trigger (Call (GateClosed epoch revision)) in
      Ret (j, closed)
  | e => do* x := trigger (Runtime e) in Ret (j, x)
  end.

(** ** The execution of a cleanup *)

Definition terminal_time (started_at : N) : prog EngineE N :=
  do* clock := trigger (Runtime SampleClock) in Ret (terminal_timestamp clock started_at).

(** The end of [execute_cleanup], on the executor's answer. *)
Definition conclude_cleanup (frozen : FrozenCleanup) (completed_at : N)
    (execution : result CleanupReceipt CleanupError) : engine CleanupReceipt :=
  match execution with
  | Err error =>
      let! _ :=
        match terminal_receipt error with
        | Some terminal =>
            let! _ := store_call (CompleteAttempt (frozen_attempt frozen) completed_at terminal) in
            ret tt
        | None => control_call (FailClosed 787 completed_at (display_cleanup_error error))
        end in
      fail_with (EngineCleanup error)
  | Ok receipt =>
      let! receipt := store_call (CompleteAttempt (frozen_attempt frozen) completed_at receipt) in
      if receipt_requires_global_fail_close receipt
      then fail_with (EnginePostDeliveryFailure (receipt_incident_id receipt)) else
      if bool_decide (process_outcome (outcome receipt) = ProcessCleared) then
        let! reclaim := store_call MostRecentReclaimOf in
        let! _ :=
          control_call (UpdateStatus (λ s,
            s <| status_most_recent_reclaim := recent_reclaim <$> reclaim |>)) in
        ret receipt
      else ret receipt
  end.

(** [execute_cleanup]. *)
Definition execute_cleanup (frozen : FrozenCleanup) (cancellable stoppable : bool) :
    engine CleanupReceipt := λ w,
  do* execution :=
    interpret (@gated frozen cancellable stoppable)
      (execute (frozen_analyzer frozen) (frozen_plan frozen) (frozen_policy frozen))
      (journal_for (frozen_attempt frozen)) in
  do* completed_at := terminal_time (frozen_started_at frozen) in
  conclude_cleanup frozen completed_at execution.2 w.

(** The thread of a background cleanup; its activity is dropped when it ends. A panic of
    the thread is the answer [None] of [JoinWorker], or an error of the same text. *)
Definition worker (frozen : FrozenCleanup) (activity : string) : prog EngineE CleanupCompletion :=
  do* executed := execute_cleanup frozen true false None in
  do* completed_at := terminal_time (frozen_started_at frozen) in
  do* _ :=
    match executed.2 with
    | Err e => trigger (Call (FailClosed 585 completed_at (display_engine_error e)))
    | Ok _ => Ret (Ok tt)
    end in
  do* _ := trigger (Call (DropActivity activity)) in
  Ret (mkCleanupCompletion completed_at executed.2).

(** The worker is joined; only then is what it left in the journal recovered. *)
Definition join_worker (started_at : N) : engine (option CleanupReceipt) := λ _,
  do* joined := trigger JoinWorker in
  let completion :=
    default (mkCleanupCompletion started_at (Err (EngineWorker "thread panicked"))) joined in
  match completion_result completion with
  | Ok receipt => Ret (None, Ok (Some receipt))
  | Err error =>
      (let! _ :=
         event (Call (FailClosed 194 (completed_at_unix_millis completion)
                              (display_engine_error error))) in
       let! _ := store_call (RecoverAttempts (completed_at_unix_millis completion)) in
       fail_with error) None
  end.

(** [ReconciliationEngine::collect_background_cleanup]. *)
Definition collect_background_cleanup (wait : bool) : engine (option CleanupReceipt) := λ w,
  match w with
  | None => Ret (None, Ok None)
  | Some started_at =>
      do* finished := (if wait then Ret true else trigger WorkerFinished) in
      if finished then join_worker started_at w else Ret (w, Ok None)
  end.

(** [ReconciliationEngine::shutdown_background_cleanup]. *)
Definition shutdown_background_cleanup : engine unit := λ w,
  (let! _ := (if w then event CancelWorker else ret tt) in
   let! _ := collect_background_cleanup true in
   ret tt) w.

(** ** Ownership *)

(** The loops of [release_absent_task_owners] and [release_absent_session_owners], over
    the leases read before: a lease is released when its owner, or the registrar before
    there is an owner, is absent. *)
Fixpoint release_absent {S} (granted_of : S → granted)
    (release : S → N → string → option TaskOwnerIdentity → DaemonE (result unit StoreError))
    (scopes : list S) : engine unit :=
  match scopes with
  | [] => ret tt
  | scope :: scopes =>
      let g := granted_of scope in
      if bool_decide (is_Some (gr_released_at_us g)) then release_absent granted_of release scopes
      else
        let owner := default (gr_registrar g) (gr_owner g) in
        let! found := event (Runtime (LookupProcess (owner_pid owner))) in
        if owner_is_absent found owner then
          let! clock := runtime_call SampleClock in
          let reason := if gr_owner g then "owner_disappeared" else "never_started" in
          let! _ := store_call (release scope (wall_unix_millis clock) reason (gr_owner g)) in
          release_absent granted_of release scopes
        else release_absent granted_of release scopes
  end.

Definition release_absent_task_owners : engine unit :=
  let! scopes := store_call TaskScopes in
  release_absent scope_granted (λ s, ReleaseTask (scope_task_id s)) scopes.

Definition release_absent_session_owners : engine unit :=
  let! scopes := store_call SessionScopes in
  release_absent so_granted (λ s, ReleaseSession (so_lease_id s)) scopes.

(** [ReconciliationEngine::refresh_task_ownership]. *)
Definition refresh_task_ownership (s : Snapshot) : engine unit :=
  let! _ := release_absent_task_owners in
  let! _ := store_call (BindTasks s) in
  let! _ := release_absent_session_owners in
  let! _ := store_call (BindSessions s) in
  ret tt.

(** [ReconciliationEngine::analyzer_for]. *)
Definition analyzer_for (e : ReconciliationEngine) (s : Snapshot) : engine Analyzer :=
  let! graph := attempt (map_err (EngineGraph ∘ graph_error_message) (from_snapshot s)) in
  let ancestors := from_option (λ pid, list_to_set (ancestor_pids graph pid)) ∅ (engine_self_pid e) in
  let! tasks := store_call TaskBindings in
  let! sessions := store_call SessionBindings in
  ret (mkAnalyzer (engine_rules e)
         (mkAnalyzerContext (engine_self_pid e) ancestors tasks sessions)).

(** ** Observation *)

(** The reports of the incidents that cool. *)
Definition cooling_reports (reports : list IncidentReport) : list IncidentReport :=
  List.filter (λ r, bool_decide (state r = Cooling)) reports.

Fixpoint track_each (clock : CoolingClock) (grace gap : N) (reports : list IncidentReport) :
    engine (list (string * bool)) :=
  match reports with
  | [] => ret []
  | report :: reports =>
      let! elapsed := store_call (TrackCooling report clock grace gap) in
      let! rest := track_each clock grace gap reports in
      ret ((tracking_key report, elapsed) :: rest)
  end.

(** What a cycle observed: its incidents, whether it observed twice, the last snapshot
    and its time. *)
Record observation : Type := mkObservation {
  observed_incidents : list IncidentReport;
  observed_again : bool;
  observed_snapshot : Snapshot;
  observed_time : N;
}.

(** The second observation, once the observation gap has passed. *)
Definition observe_again (a : Analyzer) (epoch : string) (grace gap : N)
    (first_reports : list IncidentReport) : engine observation :=
  let! s := runtime_call TakeSnapshot in
  let! sample := runtime_call SampleClock in
  let clock := cooling_clock sample epoch in
  let! second_reports := attempt (map_err EngineRules (observe a s)) in
  let! tracked := track_each clock grace gap (cooling_reports second_reports) in
  let! _ := store_call (RetainCooling (list_to_set tracked.*1)) in
  let confirmed := list_to_set (List.filter snd tracked).*1 in
  ret (mkObservation (reconcile_with_abandonment first_reports second_reports confirmed) true s
         (clock_wall clock)).

(** The observations of a cycle, with the analyzer they were made by. *)
Definition observe_twice (e : ReconciliationEngine) (epoch : string) :
    engine (Analyzer * observation) :=
  let cfg := engine_config e in
  let! s := runtime_call TakeSnapshot in
  let! _ := refresh_task_ownership s in
  let! sample := runtime_call SampleClock in
  let clock := cooling_clock sample epoch in
  let! a := analyzer_for e s in
  let! reports := attempt (map_err EngineRules (observe a s)) in
  let! grace := attempt (map_err EngineConfigError (duration_millis (abandonment_grace cfg))) in
  let! gap := attempt (map_err EngineConfigError (duration_millis (cooling_continuity_gap cfg))) in
  let! _ := track_each clock grace gap (cooling_reports reports) in
  let once := mkObservation reports false s (clock_wall clock) in
  if negb (existsb (λ r, bool_decide (state r = Cooling)) reports) then
    let! _ := store_call (RetainCooling ∅) in
    ret (a, once)
  else
    let! waited := runtime_call (WaitUntil (observation_gap cfg)) in
    match waited with
    | Interrupted => ret (a, once)
    | DeadlineReached =>
        let! twice := observe_again a epoch grace gap reports in
        ret (a, twice)
    end.

(** ** Publication *)

(** The loop that protects what the owner protected. *)
Fixpoint protect_each (reports : list IncidentReport) : engine (list IncidentReport) :=
  match reports with
  | [] => ret []
  | report :: reports =>
      let! protected := store_call (IsProtected report) in
      let! rest := protect_each reports in
      ret ((if protected then apply_owner_protection report else report) :: rest)
  end.

(** The incidents that were observed, reconciled with the store, protected, recorded and
    published. *)
Definition publish_observation (e : ReconciliationEngine) (now : N) (token : string)
    (o : observation) : engine (list IncidentReport) :=
  let s := observed_snapshot o in
  let live := exact_live_identity_fingerprints s in
  let proven := proves_complete_exact_identity_coverage s in
  let! retention :=
    attempt (map_err EngineConfigError (duration_millis (exact_absence_retention (engine_config e)))) in
  let! _ :=
    store_call (ReconcileBlocks (observed_incident_identity <$> observed_incidents o) live proven
                  now retention) in
  let! _ := store_call (ReconcileProtections live proven now retention) in
  let! incidents := protect_each (observed_incidents o) in
  let! _ := store_call (RecordBatch (observed_time o) incidents) in
  let! _ :=
    control_call (PublishRoster token (observed_time o) incidents
                    (proves_complete_classification_coverage s)) in
  ret incidents.

(** ** Dispatch *)

(** What a cycle was authorised by: the status at its start, with the epoch and the policy
    revision of then. *)
Record authority : Type := mkAuthority {
  authority_status : DaemonStatus;
  authority_epoch : string;
  authority_revision : N;
}.

(** [lifecycle_still_authorizes_cleanup], on the status and the revision of now. *)
Definition still_authorizes_cleanup (a : authority) (s : DaemonStatus) (revision : N) : bool :=
  bool_decide (effective_mode (authority_status a) = Enforce)
  && bool_decide (enforcement_epoch (authority_status a) = Some (authority_epoch a))
  && bool_decide (effective_mode s = Enforce)
  && bool_decide (enforcement_epoch s = Some (authority_epoch a))
  && bool_decide (revision = authority_revision a).

(** The start of the background worker of a cleanup. *)
Definition spawn_failed (now : N) (activity error : string) : engine unit :=
  let! _ := event (Call (DropActivity activity)) in
  let! _ := control_call (FailClosed 602 now error) in
  let! _ := store_call (RecoverAttempts now) in
  fail_with (EngineWorker error).

Definition spawn_cleanup (frozen : FrozenCleanup) (now : N) (activity : string) : engine unit := λ w,
  do* spawned := trigger (Spawn frozen activity) in
  match spawned with
  | Ok _ => Ret (Some now, Ok tt)
  | Err error => spawn_failed now activity error w
  end.

(** A synchronous cleanup: its activity is dropped before its error is looked at. *)
Definition end_activity (activity : string) (executed : result CleanupReceipt EngineError) :
    engine CleanupReceipt :=
  let! _ := event (Call (DropActivity activity)) in attempt executed.

Definition run_cleanup (frozen : FrozenCleanup) (activity : string) : engine CleanupReceipt := λ w,
  do* executed := execute_cleanup frozen false true w in
  end_activity activity executed.2 executed.1.

(** The loop over the confirmed incidents. *)
Fixpoint dispatch (e : ReconciliationEngine) (a : Analyzer) (auth : authority) (now : N)
    (token : string) (reports : list IncidentReport) (receipts : list CleanupReceipt) :
    engine (list CleanupReceipt) :=
  match reports with
  | [] => ret receipts
  | report :: reports =>
      let! stop := event StopRequested in
      if stop then ret receipts else
      let! blocked := store_call (CleanupBlocked (incident_id report)) in
      if blocked then dispatch e a auth now token reports receipts else
      let! plan := attempt (map_err EnginePlan (from_confirmed report)) in
      let! begun :=
        control_call (BeginAttempt now report (authority_epoch auth) (authority_revision auth)) in
      match begun with
      | None => ret receipts
      | Some handle =>
          let! _ := control_call (BeginActivity token) in
          let frozen :=
            mkFrozenCleanup a handle plan (cleanup_policy (engine_config e)) (authority_epoch auth)
              (authority_revision auth) now in
          if with_factory e then
            let! _ := spawn_cleanup frozen now token in
            ret receipts
          else
            let! receipt := run_cleanup frozen token in
            dispatch e a auth now token reports (receipts ++ [receipt])
      end
  end.

(** The dispatch, if the cleanup is still authorised and no worker is running. *)
Definition dispatch_if_authorized_at (e : ReconciliationEngine) (a : Analyzer) (auth : authority)
    (now : N) (token : string) (incidents : list IncidentReport) (receipts : list CleanupReceipt)
    (running : option N) : engine (list CleanupReceipt) :=
  let! s := control_call (StatusAt now) in
  let paused :=
    match paused_until_unix_millis s with
    | Some deadline => bool_decide (now < deadline)%N
    | None => false
    end in
  let! revision :=
    if bool_decide (effective_mode (authority_status auth) = Enforce)
       && bool_decide (enforcement_epoch (authority_status auth) = Some (authority_epoch auth))
       && bool_decide (effective_mode s = Enforce)
       && bool_decide (enforcement_epoch s = Some (authority_epoch auth))
    then event (Call PolicyRevision) else ret 0%N in
  if negb (still_authorizes_cleanup auth s revision) || paused then ret receipts else
  let! stop := event StopRequested in
  if stop || bool_decide (is_Some running) then ret receipts else
  dispatch e a auth now token
    (List.filter (λ r, bool_decide (state r = Confirmed)) incidents) receipts.

Definition dispatch_if_authorized (e : ReconciliationEngine) (a : Analyzer) (auth : authority)
    (now : N) (token : string) (incidents : list IncidentReport) (receipts : list CleanupReceipt) :
    engine (list CleanupReceipt) := λ w,
  dispatch_if_authorized_at e a auth now token incidents receipts w w.

(** ** The cycle *)

(** The counts a cycle shows: confirmed incidents without a receipt, ambiguous ones. *)
Definition confirmed_count (incidents : list IncidentReport) (receipts : list CleanupReceipt) : N :=
  N.of_nat (length (List.filter (λ r,
    bool_decide (state r = Confirmed)
    && negb (bool_decide (incident_id r ∈ receipt_incident_id <$> receipts))) incidents)).

Definition ambiguous_count (incidents : list IncidentReport) : N :=
  N.of_nat (length (List.filter (λ r, bool_decide (state r = Ambiguous)) incidents)).

(** [ReconciliationEngine::run_cycle_inner]. *)
Definition run_cycle_inner (e : ReconciliationEngine) (now : N) (token : string) :
    engine CycleReport :=
  let! collected := collect_background_cleanup false in
  let! lifecycle := control_call (StatusAt now) in
  let! revision := event (Call PolicyRevision) in
  let auth := mkAuthority lifecycle (default "disarmed" (enforcement_epoch lifecycle)) revision in
  let! observed := observe_twice e (authority_epoch auth) in
  let! incidents := publish_observation e now token observed.2 in
  let! receipts :=
    dispatch_if_authorized e observed.1 auth now token incidents (option_list collected) in
  let! _ :=
    control_call (UpdateStatus (λ s,
      s <| confirmed_incidents := confirmed_count incidents receipts |>
        <| ambiguous_incidents := ambiguous_count incidents |>)) in
  let! _ := store_call (PruneHistory now (retention_policy (engine_config e))) in
  ret (mkCycleReport 1 (observed_again observed.2) incidents receipts).

(** The end of a successful cycle. *)
Definition finish_cycle (now : N) (token : string) : engine unit :=
  let! completed_at := λ w, do* t := terminal_time now in Ret (w, Ok t) in
  let! _ := event (Call (FinishCycle token true)) in
  let! _ :=
    control_call (UpdateStatus (λ s,
      let s := s <| scan_in_progress := false |> <| last_scan_at_unix_millis := Some completed_at |> in
      if bool_decide (startup_state s = StateFailed) then s else s <| last_error := None |>)) in
  control_call (CompleteCycle completed_at).

(** The end of a failed cycle: its own errors are ignored. *)
Definition abandon_cycle (now : N) (token : string) (error : EngineError) : prog EngineE unit :=
  let message := display_engine_error error in
  do* failed_at := terminal_time now in
  do* _ := trigger (Call (FinishCycle token false)) in
  do* _ := trigger (Call (FailClosed 361 failed_at message)) in
  do* _ :=
    trigger (Call (UpdateStatus (λ s,
      s <| scan_in_progress := false |> <| last_error := Some message |>))) in
  Ret tt.

(** The end of a cycle, on what it returned. *)
Definition end_cycle (now : N) (token : string) (returned : result CycleReport EngineError) :
    engine CycleReport :=
  match returned with
  | Ok report => let! _ := finish_cycle now token in ret report
  | Err error => λ w, do* _ := abandon_cycle now token error in Ret (w, Err error)
  end.

(** [ReconciliationEngine::run_cycle_at_until]. *)
Definition run_cycle_at_until (e : ReconciliationEngine) (now : N) : engine CycleReport :=
  let! token := control_call (BeginCycle now) in
  λ w, do* r := run_cycle_inner e now token w in end_cycle now token r.2 r.1.
