(* ===== verification/EngineFacts.v ===== *)
(** EngineFacts: the reconciliation cycle, verified on its traces.

    The answers to the events are arbitrary; every event of a cycle is checked against
    the answers before it. *)

From S2P Require Import Prelude Text Model Fingerprint Task Artifact Graph Evidence Cleanup.
From S2P Require Import Effects Executor Pack Matching Candidates Classify Analyzer Decisions.
From S2P Require Import Cooling Names Store Journal JournalFacts DurableRun StoreSafety Lifecycle.
From S2P Require Import LifecycleFacts Protocol Mutations Observations Views Maintenance Control.
From S2P Require Import ControlFacts ControlSafety Owners Engine ExecutorSafety ExecutorGuarantees.
From S2P Require Import System.

(** ** Traces *)

Abbreviation trace := (list (obs EngineE)).

Definition answered {X} (g : trace) (e : EngineE X) (x : X) : Prop := Obs e x ∈ g.

Definition called {X} (g : trace) (e : DaemonE X) (x : X) : Prop := answered g (Call e) x.

(** The worker: whether it is running after the event. *)
Definition worker_step (live : bool) (o : obs EngineE) : bool :=
  match o with
  | @Obs _ X e x =>
      match e in EngineE X return X → bool with
      | Spawn _ _ => λ r, if r then true else live
      | JoinWorker => λ _, false
      | _ => λ _, live
      end x
  end.

Definition worker_live (live : bool) (g : trace) : bool := fold_left worker_step g live.

(** The event starts or joins no worker. *)
Definition plain (o : obs EngineE) : Prop := ∀ live, worker_step live o = live.

(** The trace went on without starting or joining a worker. *)
Definition grows (g g' : trace) : Prop := ∃ l, g' = g ++ l ∧ Forall plain l.

#[export] Instance grows_refl : Reflexive grows.
Proof. intros g. exists []. by rewrite app_nil_r. Qed.

#[export] Instance grows_trans : Transitive grows.
Proof.
  intros g1 g2 g3 (l1 & -> & H1) (l2 & -> & H2). exists (l1 ++ l2).
  rewrite (assoc_L (++)). split; [done|]. by apply Forall_app.
Qed.

Lemma grows_event g o : plain o → grows g (g ++ [o]).
Proof. intros Ho. exists [o]. split; [done|]. by repeat constructor. Qed.

Lemma grows_live live g g' : grows g g' → worker_live live g' = worker_live live g.
Proof.
  intros (l & -> & Hl). unfold worker_live. rewrite fold_left_app.
  generalize (fold_left worker_step g live). clear g. intros b. revert b.
  induction Hl as [|o l Ho _ IH]; intros b; [done|]. simpl. by rewrite Ho, IH.
Qed.

Lemma answered_grows {X} g g' (e : EngineE X) x : grows g g' → answered g e x → answered g' e x.
Proof. intros (l & -> & _) H. apply elem_of_app. by left. Qed.

Lemma answered_last {X} g (e : EngineE X) x : answered (g ++ [Obs e x]) e x.
Proof. apply elem_of_app. right. by apply list_elem_of_singleton. Qed.

(** [growing] proves that a trace grew step by step; [carry] takes an answer along. *)
Ltac growing :=
  first [assumption | reflexivity |
    match goal with
    | |- grows ?a ?b =>
        multimatch goal with H : grows a ?c |- _ => apply (transitivity (y := c) H); growing end
    end].

Ltac carry H := refine (answered_grows _ _ _ _ _ H); growing.

(** ** The calculus *)

Definition extend (g : trace) (o : obs EngineE) : trace := g ++ [o].

Lemma extend_fold g tr : fold_left extend tr g = g ++ tr.
Proof.
  revert g. induction tr as [|o tr IH]; intros g; simpl; [by rewrite app_nil_r|].
  rewrite IH. unfold extend. by rewrite <-(assoc_L (++)).
Qed.

Section Calculus.
Context (ok : trace → ∀ X, EngineE X → Prop).

(** From the trace [g], every event of the step is as it should be, and if the step
    succeeds, [Q] holds of the trace, the worker and the answer. *)
Definition ens {A} (g : trace) (m : engine A) (w : option N)
    (Q : trace → option N → A → Prop) : Prop :=
  safe extend ok g (m w) (λ g' r, match r.2 with Ok a => Q g' r.1 a | Err _ => True end).

Lemma ens_mono {A} g (m : engine A) w (Q Q' : trace → option N → A → Prop) :
  ens g m w Q → (∀ g' w' a, Q g' w' a → Q' g' w' a) → ens g m w Q'.
Proof.
  intros Hm HQ. eapply safe_mono; [|exact Hm]. intros g' [w' [a|e]]; simpl; [apply HQ|done].
Qed.

Lemma ens_bind {A B} g (m : engine A) (k : A → engine B) w Q :
  ens g m w (λ g' w' a, ens g' (k a) w' Q) → ens g (engine_bind m k) w Q.
Proof.
  intros Hm. unfold ens, engine_bind. apply safe_bind. eapply safe_mono; [|exact Hm].
  intros g' [w' [a|e]]; simpl; done.
Qed.

Lemma ens_ret {A} g (a : A) w (Q : trace → option N → A → Prop) : Q g w a → ens g (ret a) w Q.
Proof. done. Qed.

Lemma ens_fail {A} g (e : EngineError) w (Q : trace → option N → A → Prop) : ens g (fail_with e) w Q.
Proof. done. Qed.

Lemma ens_attempt {A} g (r : result A EngineError) w (Q : trace → option N → A → Prop) :
  (∀ a, r = Ok a → Q g w a) → ens g (attempt r) w Q.
Proof. intros H. unfold ens, attempt. simpl. destruct r; [by apply H|done]. Qed.

Lemma ens_event {X} g (e : EngineE X) w (Q : trace → option N → X → Prop) :
  ok g X e → (∀ x, Q (g ++ [Obs e x]) w x) → ens g (event e) w Q.
Proof. intros Hok HQ. split; [done|]. intros x. apply HQ. Qed.

Lemma ens_runtime {A} g (e : CleanupE (result A RuntimeFailure)) w Q :
  ok g _ (Runtime e) → (∀ a, Q (g ++ [Obs (Runtime e) (Ok a)]) w a) → ens g (runtime_call e) w Q.
Proof.
  intros Hok HQ. apply ens_bind, ens_event; [done|]. intros x. apply ens_attempt.
  intros a Ha. destruct x; [|done]. injection Ha as ->. apply HQ.
Qed.

Lemma ens_store {A} g (e : DaemonE (result A StoreError)) w Q :
  ok g _ (Call e) → (∀ a, Q (g ++ [Obs (Call e) (Ok a)]) w a) → ens g (store_call e) w Q.
Proof.
  intros Hok HQ. apply ens_bind, ens_event; [done|]. intros x. apply ens_attempt.
  intros a Ha. destruct x; [|done]. injection Ha as ->. apply HQ.
Qed.

Lemma ens_control {A} g (e : DaemonE (result A ControlError)) w Q :
  ok g _ (Call e) → (∀ a, Q (g ++ [Obs (Call e) (Ok a)]) w a) → ens g (control_call e) w Q.
Proof.
  intros Hok HQ. apply ens_bind, ens_event; [done|]. intros x. apply ens_attempt.
  intros a Ha. destruct x; [|done]. injection Ha as ->. apply HQ.
Qed.

(** A step that neither starts nor joins a worker, with what it tells of its answer. *)
Definition quietly {A} (m : engine A) (g : trace) (R : trace → A → Prop) : Prop :=
  ∀ w, ens g m w (λ g' w' a, w' = w ∧ grows g g' ∧ R g' a).

Lemma quietly_bind {A B} (m : engine A) (k : A → engine B) g R (S : trace → B → Prop) :
  quietly m g R →
  (∀ g' a, grows g g' → R g' a → quietly (k a) g' S) → quietly (engine_bind m k) g S.
Proof.
  intros Hm Hk w. apply ens_bind. eapply ens_mono; [apply Hm|]. intros g1 w1 a (-> & Hg1 & HR).
  eapply ens_mono; [by apply Hk|]. intros g2 w2 b (-> & Hg2 & HS).
  split; [done|]. split; [by etransitivity|done].
Qed.

Lemma quietly_ret {A} (a : A) g (R : trace → A → Prop) : R g a → quietly (ret a) g R.
Proof. intros HR w. apply ens_ret. by split. Qed.

Lemma quietly_attempt {A} (r : result A EngineError) g (R : trace → A → Prop) :
  (∀ a, r = Ok a → R g a) → quietly (attempt r) g R.
Proof. intros HR w. apply ens_attempt. intros a Ha. split; [done|]. split; [done|auto]. Qed.

Lemma quietly_fail {A} (e : EngineError) g (R : trace → A → Prop) : quietly (fail_with e) g R.
Proof. intros w. apply ens_fail. Qed.

Lemma quietly_event {X} (e : EngineE X) g (R : trace → X → Prop) :
  ok g X e → (∀ x, plain (Obs e x)) → (∀ x, R (g ++ [Obs e x]) x) → quietly (event e) g R.
Proof.
  intros Hok Hp HR w. apply ens_event; [done|]. intros x. split; [done|].
  split; [by apply grows_event|apply HR].
Qed.

Lemma quietly_runtime {A} (e : CleanupE (result A RuntimeFailure)) g (R : trace → A → Prop) :
  ok g _ (Runtime e) → (∀ a, R (g ++ [Obs (Runtime e) (Ok a)]) a) → quietly (runtime_call e) g R.
Proof.
  intros Hok HR w. apply ens_runtime; [done|]. intros a. split; [done|].
  split; [by apply grows_event|apply HR].
Qed.

Lemma quietly_store {A} (e : DaemonE (result A StoreError)) g (R : trace → A → Prop) :
  ok g _ (Call e) → (∀ a, R (g ++ [Obs (Call e) (Ok a)]) a) → quietly (store_call e) g R.
Proof.
  intros Hok HR w. apply ens_store; [done|]. intros a. split; [done|].
  split; [by apply grows_event|apply HR].
Qed.

Lemma quietly_control {A} (e : DaemonE (result A ControlError)) g (R : trace → A → Prop) :
  ok g _ (Call e) → (∀ a, R (g ++ [Obs (Call e) (Ok a)]) a) → quietly (control_call e) g R.
Proof.
  intros Hok HR w. apply ens_control; [done|]. intros a. split; [done|].
  split; [by apply grows_event|apply HR].
Qed.

Lemma quietly_mono {A} (m : engine A) g (R R' : trace → A → Prop) :
  quietly m g R → (∀ g' a, grows g g' → R g' a → R' g' a) → quietly m g R'.
Proof.
  intros Hm HR w. eapply ens_mono; [apply Hm|]. intros g' w' a (-> & Hg & H).
  split; [done|]. split; [done|]. by apply HR.
Qed.
End Calculus.

(** ** Execution *)

(** What the executor sees of an event of the engine. *)
Definition seen_gated {X} (ev : CleanupE X) : option X → list (obs CleanupE) :=
  match ev in CleanupE X return option X → list (obs CleanupE) with
  | SignalExact i s => λ x, [Obs (SignalExact i s) (default CancelledBeforeDelivery x)]
  | RemoveArtifactExact a => λ x, [Obs (RemoveArtifactExact a) (default ArtCancelledBeforeDelivery x)]
  | _ => λ _, []
  end.

Definition seen_call {X} (c : DaemonE X) : X → list (obs CleanupE) :=
  match c in DaemonE X return X → list (obs CleanupE) with
  | JournalPrepare _ i at_ => λ x, [Obs (PrepareAction i at_) x.2]
  | JournalComplete _ id d at_ => λ x, [Obs (CompleteAction id d at_) x.2]
  | JournalPrepareArtifact _ i at_ => λ x, [Obs (PrepareArtifactAction i at_) x.2]
  | JournalCompleteArtifact _ id d at_ => λ x, [Obs (CompleteArtifactAction id d at_) x.2]
  | GateClosed _ _ => λ b, [Obs ShouldStop b]
  | _ => λ _, []
  end.

Definition seen_event (o : obs EngineE) : list (obs CleanupE) :=
  match o with
  | @Obs _ X ev x =>
      match ev in EngineE X return X → list (obs CleanupE) with
      | Runtime ev => λ x, [Obs ev x]
      | Gated _ _ _ ev => λ x, seen_gated ev x
      | Call c => λ x, seen_call c x
      | StopRequested | CancelRequested => λ b, if b then [Obs ShouldStop true] else []
      | _ => λ _, []
      end x
  end.

(** The execution within a trace of the engine. *)
Definition executed (l : trace) : list (obs CleanupE) := flat_map seen_event l.

Lemma executed_snoc l o : executed (l ++ [o]) = executed l ++ seen_event o.
Proof. unfold executed. by rewrite flat_map_app; simpl; rewrite app_nil_r. Qed.

Lemma ghost_snoc l o : ghost_of (executed (l ++ [o])) = fold_left upd (seen_event o) (ghost_of (executed l)).
Proof. rewrite executed_snoc. unfold ghost_of. by rewrite fold_left_app. Qed.

(** What the execution of a cleanup needs of the checks. *)
Definition executing {X} (c : DaemonE X) : Prop :=
  match c with
  | GateClosed _ _ | CompleteAttempt _ _ _ | FailClosed _ _ _ | MostRecentReclaimOf
  | DropActivity _ | JournalPrepare _ _ _ | JournalComplete _ _ _ _
  | JournalPrepareArtifact _ _ _ | JournalCompleteArtifact _ _ _ _ => True
  | UpdateStatus f => ∀ s, same_authority s (f s)
  | _ => False
  end.

(** The event only observes: it delivers no signal and removes no artifact. *)
Definition observes {X} (ev : CleanupE X) : Prop :=
  match ev with SignalExact _ _ | RemoveArtifactExact _ => False | _ => True end.

Section Execution.
Context (ok : trace → ∀ X, EngineE X → Prop) (f : FrozenCleanup).

(** The executor's own check of an event. *)
Definition executor_ok (l : trace) {X} (ev : CleanupE X) : Prop :=
  event_ok (frozen_analyzer f) (frozen_plan f) (ghost_of (executed l)) X ev.

Definition allows (g : trace) : Prop :=
  ∀ g', grows g g' →
    (∀ X (ev : CleanupE X), observes ev → ok g' _ (Runtime ev)) ∧
    ok g' _ StopRequested ∧ ok g' _ CancelRequested ∧
    (∀ X (c : DaemonE X), executing c → ok g' _ (Call c)).

(** The gated operations of an execution that starts at a trace. *)
Definition allows_gated (start : trace) : Prop :=
  ∀ l X c (ev : CleanupE X), Forall plain l → executor_ok l ev →
    ok (start ++ l) _ (Gated c (frozen_epoch f) (frozen_revision f) ev).

Lemma allows_grows g g' : grows g g' → allows g → allows g'.
Proof. intros Hg H g'' Hg'. apply H. growing. Qed.

Lemma allows_runtime g X (ev : CleanupE X) : allows g → observes ev → ok g _ (Runtime ev).
Proof. intros H. by apply H. Qed.

Lemma allows_stop g : allows g → ok g _ StopRequested.
Proof. intros H. by apply H. Qed.

Lemma allows_cancel g : allows g → ok g _ CancelRequested.
Proof. intros H. by apply H. Qed.

Lemma allows_call g X (c : DaemonE X) : allows g → executing c → ok g _ (Call c).
Proof. intros H. by apply H. Qed.

(** The trace since the start of the execution. *)
Definition since (start g : trace) (ghost : ghost) : Prop :=
  ∃ l, g = start ++ l ∧ Forall plain l ∧ ghost_of (executed l) = ghost.

Lemma since_grows start g ghost : since start g ghost → grows start g.
Proof. intros (l & -> & Hl & _). by exists l. Qed.

Lemma since_event start g ghost o :
  since start g ghost → plain o → since start (extend g o) (fold_left upd (seen_event o) ghost).
Proof.
  intros (l & -> & Hl & <-) Ho. exists (l ++ [o]). unfold extend. rewrite (assoc_L (++)).
  split; [done|]. split; [apply Forall_app; by repeat constructor|apply ghost_snoc].
Qed.

(** Each event of the executor is interpreted by events it sees as that one. *)
Lemma gated_since cancellable stoppable {X} (ev : CleanupE X) j start g gh :
  allows start → allows_gated start → since start g gh →
  event_ok (frozen_analyzer f) (frozen_plan f) gh X ev →
  safe extend ok g (gated f cancellable stoppable ev j)
    (λ g' r, since start g' (upd gh (Obs ev r.2))).
Proof.
  intros Ha Hgated Hs Hev. pose proof (since_grows _ _ _ Hs) as Hg.
  pose proof (allows_grows _ _ Hg Ha) as Hag.
  assert (∀ c, ok g _ (Gated c (frozen_epoch f) (frozen_revision f) ev)) as Hgate.
  { intros c. destruct Hs as (l & -> & Hl & <-). by apply Hgated. }
  assert (∀ g1, since start g1 gh → allows g1) as Hall.
  { intros g1 H. eapply allows_grows; [by eapply since_grows|exact Ha]. }
  destruct ev; cbn [gated]; cbv zeta;
    try (split; [by first [apply allows_runtime|apply allows_call|apply Hgate]|intros x; cbn [bind];
         match goal with |- context [extend g ?o] => by apply (since_event _ _ _ o) end]).
  assert (∀ g1, since start g1 gh → safe extend ok g1
    (do* closed := trigger (Call (GateClosed (frozen_epoch f) (frozen_revision f))) in Ret (j, closed))
    (λ g' r, since start g' (upd gh (Obs ShouldStop r.2)))) as Hclosed.
  { intros g1 H. split; [apply allows_call; [by apply Hall|done]|]. intros x. simpl.
    by apply (since_event _ _ _ (Obs (Call (GateClosed _ _)) x)). }
  assert (∀ g1, since start g1 gh → safe extend ok g1
    (do* cancelled := (if cancellable then trigger CancelRequested else Ret false) in
     if cancelled then Ret (j, true) else
     do* closed := trigger (Call (GateClosed (frozen_epoch f) (frozen_revision f))) in Ret (j, closed))
    (λ g' r, since start g' (upd gh (Obs ShouldStop r.2)))) as Hcancel.
  { intros g1 H. destruct cancellable; [|by apply Hclosed]. split; [by apply allows_cancel, Hall|].
    intros []; cbn [bind].
    - by apply (since_event _ _ _ (Obs CancelRequested true)).
    - apply Hclosed. by apply (since_event _ _ _ (Obs CancelRequested false)). }
  destruct stoppable; [|by apply Hcancel]. split; [by apply allows_stop|]. intros []; cbn [bind].
  - by apply (since_event _ _ _ (Obs StopRequested true)).
  - apply Hcancel. by apply (since_event _ _ _ (Obs StopRequested false)).
Qed.

Lemma interpret_since cancellable stoppable {A} (p : prog CleanupE A) (Q : ghost → A → Prop) j start g gh :
  allows start → allows_gated start → since start g gh →
  safe upd (event_ok (frozen_analyzer f) (frozen_plan f)) gh p Q →
  safe extend ok g (interpret (@gated f cancellable stoppable) p j) (λ g' _, grows start g').
Proof.
  intros Ha Hgated. revert j g gh. induction p as [a|X ev k IH]; intros j g gh Hs Hp; cbn [interpret].
  { by eapply since_grows. }
  destruct Hp as [Hev Hk]. eapply safe_bind_post; [by apply gated_since|].
  intros g' [j' x] Hs'. by apply (IH x _ _ _ Hs').
Qed.

Lemma conclude_quiet at_ execution g :
  allows g → quietly ok (conclude_cleanup f at_ execution) g (λ _ _, True).
Proof.
  intros Hf. destruct execution as [receipt|error]; cbn [conclude_cleanup].
  - apply (quietly_bind _ _ _ _ (λ _ _, True)); [apply quietly_store; [by apply allows_call|done]|].
    intros g1 stored Hg1 _.
    destruct (receipt_requires_global_fail_close stored); [apply quietly_fail|].
    case_bool_decide; [|by apply quietly_ret].
    assert (allows g1) as Hf1 by by eapply allows_grows.
    apply (quietly_bind _ _ _ _ (λ _ _, True)); [apply quietly_store; [by apply allows_call|done]|].
    intros g2 reclaim Hg2 _.
    apply (quietly_bind _ _ _ _ (λ _ _, True)); [|intros; by apply quietly_ret].
    apply quietly_control; [|done]. apply allows_call; [by eapply allows_grows|].
    intros s. by split_and!.
  - apply (quietly_bind _ _ _ _ (λ _ _, True)); [|intros; apply quietly_fail].
    destruct (terminal_receipt error); [|apply quietly_control; [by apply allows_call|done]].
    apply (quietly_bind _ _ _ _ (λ _ _, True)); [apply quietly_store; [by apply allows_call|done]|].
    intros. by apply quietly_ret.
Qed.

Lemma execute_quiet cancellable stoppable g :
  allows g → allows_gated g → quietly ok (execute_cleanup f cancellable stoppable) g (λ _ _, True).
Proof.
  intros Hf Hgated w. unfold ens, execute_cleanup.
  eapply safe_bind_post.
  { eapply (interpret_since _ _ _ _ _ g g ghost0); [done|done| |apply safe_execute].
    exists []. by rewrite app_nil_r. }
  intros g1 execution Hg1. simpl in Hg1. simpl.
  split; [by apply allows_runtime; [eapply allows_grows|]|]. intros clock.
  assert (grows g1 (g1 ++ [Obs (Runtime SampleClock) clock])) as Hg2 by by apply grows_event.
  eapply safe_mono; [|apply conclude_quiet; eapply allows_grows; [|exact Hf]; growing].
  intros g' [w' [a|err]]; simpl; [|done]. intros (-> & Hg & _). split; [done|]. split; [|done].
  growing.
Qed.

Lemma end_quiet activity executed g :
  allows g → quietly ok (end_activity activity executed) g (λ _ _, True).
Proof.
  intros Hf. apply (quietly_bind _ _ _ _ (λ _ _, True)).
  - apply quietly_event; [by apply allows_call|done|done].
  - intros. by apply quietly_attempt.
Qed.
End Execution.

(** ** What a cycle may do *)

(** The runtime said that the owner of a lease, or its registrar, is absent, just before
    the clock was read. *)
Definition absent_owner (x : granted) (g : trace) : Prop :=
  let owner := default (gr_registrar x) (gr_owner x) in
  gr_released_at_us x = None ∧
  ∃ p found sample, owner_is_absent found owner = true ∧
    g = p ++ [Obs (Runtime (LookupProcess (owner_pid owner))) found;
              Obs (Runtime SampleClock) (Ok sample)].

(** The control plane enforced this epoch, at this policy revision. *)
Definition authorised (now : N) (epoch : string) (revision : N) (P : DaemonStatus → Prop)
    (g : trace) : Prop :=
  ∃ s, called g (StatusAt now) (Ok s) ∧ effective_mode s = Enforce ∧
    enforcement_epoch s = Some epoch ∧ P s ∧ called g PolicyRevision revision.

Definition unpaused (now : N) (s : DaemonStatus) : Prop :=
  ∀ deadline, paused_until_unix_millis s = Some deadline → (deadline ≤ now)%N.

Section Cycle.
Context (e : ReconciliationEngine) (live0 : bool).

(** The analyzer of the cycle, with the ownership of the store. *)
Definition cycle_analyzer (a : Analyzer) (g : trace) : Prop :=
  rules a = engine_rules e ∧ self_pid (context a) = engine_self_pid e ∧
  called g TaskBindings (Ok (task_controllers (context a))) ∧
  called g SessionBindings (Ok (session_owners (context a))).

(** The report was reconciled from two observations; the abandonment of its key was
    confirmed by the store, at a clock of this epoch, for the grace of the engine. *)
Definition observed_cooling_twice (a : Analyzer) (epoch : string) (report : IncidentReport) (g : trace) :
    Prop :=
  ∃ s1 s2 first second keys grace gap,
    answered g (Runtime TakeSnapshot) (Ok s1) ∧ answered g (Runtime TakeSnapshot) (Ok s2) ∧
    answered g (Runtime (WaitUntil (observation_gap (engine_config e)))) (Ok DeadlineReached) ∧
    observe a s1 = Ok first ∧ observe a s2 = Ok second ∧
    duration_millis (abandonment_grace (engine_config e)) = Ok grace ∧
    report ∈ reconcile_with_abandonment first second keys ∧
    ∀ k, k ∈ keys → ∃ r sample, r ∈ second ∧ state r = Cooling ∧ tracking_key r = k ∧
      called g (TrackCooling r (cooling_clock sample epoch) grace gap) (Ok true).

(** The report was recorded and then published, among the incidents of its cycle. *)
Definition recorded_and_published (report : IncidentReport) (g : trace) : Prop :=
  ∃ token at_ incidents complete, report ∈ incidents ∧
    called g (RecordBatch at_ incidents) (Ok tt) ∧
    called g (PublishRoster token at_ incidents complete) (Ok tt).

(** What precedes the beginning of a cleanup: the cycle began under an authority that still
    stands after its observations were published. *)
Definition begin_ok (a : Analyzer) (g : trace) (now : N) (report : IncidentReport) (epoch : string)
    (revision : N) : Prop :=
  ∃ p1 p2, g = p1 ++ p2 ∧
    authorised now epoch revision (λ _, True) p1 ∧ cycle_analyzer a p1 ∧
    state report = Confirmed ∧ observed_cooling_twice a epoch report p1 ∧
    called p1 (IsProtected report) (Ok false) ∧ recorded_and_published report p1 ∧
    authorised now epoch revision (unpaused now) p2 ∧ answered p2 StopRequested false ∧
    called p2 (CleanupBlocked (incident_id report)) (Ok false).

(** The cleanup was begun in the journal, for such a report, and its plan is the
    report's. *)
Definition dispatched (f : FrozenCleanup) (g : trace) : Prop :=
  ∃ p report p', from_confirmed report = Ok (frozen_plan f) ∧
    begin_ok (frozen_analyzer f) p (frozen_started_at f) report (frozen_epoch f) (frozen_revision f) ∧
    g = p ++ Obs (Call (BeginAttempt (frozen_started_at f) report (frozen_epoch f)
                          (frozen_revision f))) (Ok (Some (frozen_attempt f))) :: p'.

(** What is checked at each event. *)
Definition cycle_ok (g : trace) (X : Type) (ev : EngineE X) : Prop :=
  match ev with
  | Call d =>
      match d with
      | BeginAttempt now report epoch revision =>
          worker_live live0 g = false ∧ ∃ a, begin_ok a g now report epoch revision
      | RecoverAttempts _ => worker_live live0 g = false
      | ReleaseTask task _ _ owner =>
          ∃ scopes scope, called g TaskScopes (Ok scopes) ∧ scope ∈ scopes ∧
            scope_task_id scope = task ∧ gr_owner (scope_granted scope) = owner ∧
            absent_owner (scope_granted scope) g
      | ReleaseSession lease _ _ owner =>
          ∃ scopes scope, called g SessionScopes (Ok scopes) ∧ scope ∈ scopes ∧
            so_lease_id scope = lease ∧ gr_owner (so_granted scope) = owner ∧
            absent_owner (so_granted scope) g
      | UpdateStatus f => ∀ s, same_authority s (f s)
      | _ => True
      end
  | Spawn f _ => worker_live live0 g = false ∧ dispatched f g
  | Gated _ epoch revision op =>
      ∃ f start l, g = start ++ l ∧ dispatched f start ∧ epoch = frozen_epoch f ∧
        revision = frozen_revision f ∧ executor_ok f l op
  | Runtime op => observes op
  | _ => True
  end.

Lemma called_snoc {X Y} g (d : DaemonE X) x (ev : EngineE Y) y :
  called g d x → called (g ++ [Obs ev y]) d x.
Proof. intros H. apply elem_of_app. by left. Qed.

Lemma dispatched_grows f g g' : grows g g' → dispatched f g → dispatched f g'.
Proof.
  intros (l & -> & _) (p & report & p' & Hp & Hb & ->). exists p, report, (p' ++ l).
  split; [done|]. split; [done|]. by rewrite <-(assoc_L (++)).
Qed.

(** ** Ownership *)

Lemma release_absent_quiet {S} granted_of release (scopes : list S) g :
  (∀ scope g' now reason, scope ∈ scopes → grows g g' → absent_owner (granted_of scope) g' →
     cycle_ok g' _ (Call (release scope now reason (gr_owner (granted_of scope))))) →
  quietly cycle_ok (release_absent granted_of release scopes) g (λ _ _, True).
Proof.
  revert g. induction scopes as [|scope scopes IH]; intros g Hrel; cbn [release_absent].
  { by apply quietly_ret. }
  assert (∀ g1, grows g g1 → quietly cycle_ok (release_absent granted_of release scopes) g1 (λ _ _, True))
    as Hrest.
  { intros g1 Hg1. apply IH. intros x g' now reason Hx Hg'. apply Hrel; [by constructor|].
    by etransitivity. }
  cbv zeta. case_bool_decide as Hr; [by apply Hrest|].
  set (owner := default (gr_registrar (granted_of scope)) (gr_owner (granted_of scope))).
  apply (quietly_bind _ _ _ _
    (λ g' found, g' = g ++ [Obs (Runtime (LookupProcess (owner_pid owner))) found])).
  { by apply quietly_event. }
  intros g1 found Hg1 ->. destruct (owner_is_absent found owner) eqn:Habs; [|by apply Hrest].
  apply (quietly_bind _ _ _ _ (λ g' sample,
    g' = (g ++ [Obs (Runtime (LookupProcess (owner_pid owner))) found])
           ++ [Obs (Runtime SampleClock) (Ok sample)])).
  { by apply quietly_runtime. }
  intros g2 sample Hg2 ->. rewrite <-(assoc_L (++)) in *. simpl in *.
  apply (quietly_bind _ _ _ _ (λ _ _, True)).
  - apply quietly_store; [|done]. apply Hrel; [by constructor|by etransitivity|].
    split; [by apply eq_None_not_Some|]. by exists g, found, sample.
  - intros g3 [] Hg3 _. apply Hrest. by do 2 (etransitivity; [eassumption|]).
Qed.

Lemma refresh_quiet s g : quietly cycle_ok (refresh_task_ownership s) g (λ _ _, True).
Proof.
  unfold refresh_task_ownership, release_absent_task_owners, release_absent_session_owners.
  apply (quietly_bind _ _ _ _ (λ _ _, True)).
  { apply (quietly_bind _ _ _ _ (λ g' scopes, called g' TaskScopes (Ok scopes))).
    - apply quietly_store; [done|]. intros scopes. apply answered_last.
    - intros g1 scopes _ Hs. apply release_absent_quiet.
      intros scope g2 now reason Hin Hg2 Habs. exists scopes, scope.
      split; [by eapply answered_grows|done]. }
  intros g1 [] _ _. apply (quietly_bind _ _ _ _ (λ _ _, True)); [by apply quietly_store|].
  intros g2 [] _ _. apply (quietly_bind _ _ _ _ (λ _ _, True)).
  { apply (quietly_bind _ _ _ _ (λ g' scopes, called g' SessionScopes (Ok scopes))).
    - apply quietly_store; [done|]. intros scopes. apply answered_last.
    - intros g3 scopes _ Hs. apply release_absent_quiet.
      intros scope g4 now reason Hin Hg4 Habs. exists scopes, scope.
      split; [by eapply answered_grows|done]. }
  intros g3 [] _ _. apply (quietly_bind _ _ _ _ (λ _ _, True)); [by apply quietly_store|].
  intros g4 [] _ _. by apply quietly_ret.
Qed.

Lemma analyzer_quiet s g : quietly cycle_ok (analyzer_for e s) g (λ g' a, cycle_analyzer a g').
Proof.
  unfold analyzer_for. apply (quietly_bind _ _ _ _ (λ _ _, True)); [by apply quietly_attempt|].
  intros g1 graph _ _. cbv zeta.
  apply (quietly_bind _ _ _ _ (λ g' tasks, called g' TaskBindings (Ok tasks))).
  { apply quietly_store; [done|]. intros tasks. apply answered_last. }
  intros g2 tasks _ Ht.
  apply (quietly_bind _ _ _ _ (λ g' sessions, called g' SessionBindings (Ok sessions))).
  { apply quietly_store; [done|]. intros sessions. apply answered_last. }
  intros g3 sessions Hg3 Hs. apply quietly_ret. split; [done|]. split; [done|].
  split; [by eapply answered_grows|done].
Qed.

(** ** Observation *)

Lemma cycle_analyzer_grows a g g' : grows g g' → cycle_analyzer a g → cycle_analyzer a g'.
Proof. intros Hg (? & ? & ? & ?). split; [done|]. split; [done|]. split; [by eapply answered_grows|by eapply answered_grows]. Qed.

Lemma track_quiet clock grace gap reports g :
  quietly cycle_ok (track_each clock grace gap reports) g (λ g' tracked,
    Forall2 (λ r kv, kv.1 = tracking_key r ∧
      called g' (TrackCooling r clock grace gap) (Ok kv.2)) reports tracked).
Proof.
  revert g. induction reports as [|r reports IH]; intros g; cbn [track_each].
  { apply quietly_ret. constructor. }
  apply (quietly_bind _ _ _ _ (λ g' b, called g' (TrackCooling r clock grace gap) (Ok b))).
  { apply quietly_store; [done|]. intros b. apply answered_last. }
  intros g1 b Hg1 Hb. eapply quietly_bind; [apply IH|]. intros g2 rest Hg2 Hrest.
  apply quietly_ret. constructor; [|done]. split; [done|]. carry Hb.
Qed.

(** The confirmed keys are of cooling reports whose grace the store said had elapsed. *)
Lemma tracked_key clock grace gap reports tracked g k :
  Forall2 (λ r kv, kv.1 = tracking_key r ∧ called g (TrackCooling r clock grace gap) (Ok kv.2))
    (cooling_reports reports) tracked →
  k ∈ (list_to_set (List.filter snd tracked).*1 : gset string) →
  ∃ r, r ∈ reports ∧ state r = Cooling ∧ tracking_key r = k ∧
    called g (TrackCooling r clock grace gap) (Ok true).
Proof.
  intros Ht Hk. apply elem_of_list_to_set, list_elem_of_fmap in Hk as ([k' b] & -> & Hin).
  apply list_elem_of_In, filter_In in Hin as [Hin Hb]. simpl in Hb. subst b.
  apply list_elem_of_In, list_elem_of_lookup in Hin as [i Hi].
  destruct (Forall2_lookup_r _ _ _ _ _ Ht Hi) as (r & Hr & Hkey & Hcall).
  apply list_elem_of_lookup_2, list_elem_of_In, filter_In in Hr as [Hr Hc%bool_decide_eq_true].
  exists r. split; [by apply list_elem_of_In|]. by rewrite <-Hkey.
Qed.

Lemma observe_again_quiet a epoch grace gap first s1 g :
  answered g (Runtime TakeSnapshot) (Ok s1) → observe a s1 = Ok first →
  duration_millis (abandonment_grace (engine_config e)) = Ok grace →
  answered g (Runtime (WaitUntil (observation_gap (engine_config e)))) (Ok DeadlineReached) →
  quietly cycle_ok (observe_again a epoch grace gap first) g (λ g' o,
    ∀ report, report ∈ observed_incidents o → observed_cooling_twice a epoch report g').
Proof.
  intros Hs1 Hfirst Hgrace Hwait. unfold observe_again.
  apply (quietly_bind _ _ _ _ (λ g' s, answered g' (Runtime TakeSnapshot) (Ok s))).
  { apply quietly_runtime; [done|]. intros s. apply answered_last. }
  intros g1 s2 Hg1 Hs2. apply (quietly_bind _ _ _ _ (λ _ _, True)); [by apply quietly_runtime|].
  intros g2 sample Hg2 _. cbv zeta.
  apply (quietly_bind _ _ _ _ (λ _ second, observe a s2 = Ok second)).
  { apply quietly_attempt. intros second Hsecond. destruct (observe a s2); [|done].
    by injection Hsecond as ->. }
  intros g3 second Hg3 Hsecond. eapply quietly_bind; [apply track_quiet|].
  intros g4 tracked Hg4 Htracked. apply (quietly_bind _ _ _ _ (λ _ _, True)); [by apply quietly_store|].
  intros g5 [] Hg5 _. apply quietly_ret. intros report Hreport. simpl in Hreport.
  exists s1, s2, first, second, (list_to_set (List.filter snd tracked).*1), grace, gap.
  split; [carry Hs1|].
  split; [carry Hs2|].
  split; [carry Hwait|]. do 4 (split; [done|]).
  intros k Hk. destruct (tracked_key _ _ _ _ _ _ _ Htracked Hk) as (r & Hr & Hc & Hkey & Hcall).
  exists r, sample. do 3 (split; [done|]). carry Hcall.
Qed.

Lemma observe_quiet epoch g :
  quietly cycle_ok (observe_twice e epoch) g (λ g' x,
    cycle_analyzer x.1 g' ∧
    ∀ report, report ∈ observed_incidents x.2 → state report = Confirmed →
      observed_cooling_twice x.1 epoch report g').
Proof.
  unfold observe_twice. cbv zeta.
  apply (quietly_bind _ _ _ _ (λ g' s, answered g' (Runtime TakeSnapshot) (Ok s))).
  { apply quietly_runtime; [done|]. intros s. apply answered_last. }
  intros g1 s1 Hg1 Hs1. eapply quietly_bind; [apply refresh_quiet|]. intros g2 [] Hg2 _.
  apply (quietly_bind _ _ _ _ (λ _ _, True)); [by apply quietly_runtime|]. intros g3 sample Hg3 _.
  eapply quietly_bind; [apply analyzer_quiet|]. intros g4 a Hg4 Ha.
  apply (quietly_bind _ _ _ _ (λ _ reports, observe a s1 = Ok reports)).
  { apply quietly_attempt. intros r Hr. destruct (observe a s1); [|done]. by injection Hr as ->. }
  intros g5 first Hg5 Hfirst.
  apply (quietly_bind _ _ _ _ (λ _ grace,
    duration_millis (abandonment_grace (engine_config e)) = Ok grace)).
  { apply quietly_attempt. intros r Hr. destruct (duration_millis _); [|done]. by injection Hr as ->. }
  intros g6 grace Hg6 Hgrace. apply (quietly_bind _ _ _ _ (λ _ _, True)); [by apply quietly_attempt|].
  intros g7 gap Hg7 _. eapply quietly_bind; [apply track_quiet|]. intros g8 tracked Hg8 _.
  assert (∀ g', grows g8 g' → ∀ report, report ∈ first → state report = Confirmed →
    observed_cooling_twice a epoch report g') as Hnone.
  { intros g' _ report Hr Hc. by destruct (observe_not_confirmed _ _ _ _ Hfirst Hr). }
  destruct (negb _).
  - apply (quietly_bind _ _ _ _ (λ _ _, True)); [by apply quietly_store|]. intros g9 [] Hg9 _.
    apply quietly_ret. split; [apply (cycle_analyzer_grows a g4); [growing|done]|]. apply Hnone. growing.
  - apply (quietly_bind _ _ _ _ (λ g' waited,
      answered g' (Runtime (WaitUntil (observation_gap (engine_config e)))) (Ok waited))).
    { apply quietly_runtime; [done|]. intros waited. apply answered_last. }
    intros g9 [] Hg9 Hwait.
    + eapply quietly_bind.
      * eapply observe_again_quiet; [carry Hs1|done..].
      * intros g10 o Hg10 Ho. apply quietly_ret.
        split; [apply (cycle_analyzer_grows a g4); [growing|done]|]. intros report Hr _. by apply Ho.
    + apply quietly_ret. split; [apply (cycle_analyzer_grows a g4); [growing|done]|]. apply Hnone. growing.
Qed.

(** ** Publication *)

Lemma observed_cooling_grows a epoch report g g' :
  grows g g' → observed_cooling_twice a epoch report g → observed_cooling_twice a epoch report g'.
Proof.
  intros Hg (s1 & s2 & first & second & keys & grace & gap & H1 & H2 & H3 & Ho1 & Ho2 & Hd & Hin & Hk).
  exists s1, s2, first, second, keys, grace, gap. do 3 (split; [by eapply answered_grows|]).
  do 4 (split; [done|]). intros k Hkk. destruct (Hk k Hkk) as (r & sample & Hr & Hc & Hkey & Hcall).
  exists r, sample. do 3 (split; [done|]). by eapply answered_grows.
Qed.

(** A report that is still confirmed was not protected by its owner. *)
Lemma protect_each_quiet reports g :
  quietly cycle_ok (protect_each reports) g (λ g' protected,
    ∀ report, report ∈ protected → state report = Confirmed →
      report ∈ reports ∧ called g' (IsProtected report) (Ok false)).
Proof.
  revert g. induction reports as [|r reports IH]; intros g; cbn [protect_each].
  { apply quietly_ret. by intros report ?%elem_of_nil. }
  apply (quietly_bind _ _ _ _ (λ g' b, called g' (IsProtected r) (Ok b))).
  { apply quietly_store; [done|]. intros b. apply answered_last. }
  intros g1 b Hg1 Hb. eapply quietly_bind; [apply IH|]. intros g2 rest Hg2 Hrest.
  apply quietly_ret. intros report [->|Hin]%elem_of_cons Hst.
  - destruct b; [done|]. split; [by constructor|]. carry Hb.
  - destruct (Hrest report Hin Hst) as [Hr Hc]. split; [by constructor|done].
Qed.

Lemma publish_observation_quiet now token o g :
  quietly cycle_ok (publish_observation e now token o) g (λ g' incidents,
    ∀ report, report ∈ incidents → state report = Confirmed →
      report ∈ observed_incidents o ∧ called g' (IsProtected report) (Ok false) ∧
      recorded_and_published report g').
Proof.
  unfold publish_observation. cbv zeta.
  apply (quietly_bind _ _ _ _ (λ _ _, True)); [by apply quietly_attempt|]. intros g1 retention _ _.
  apply (quietly_bind _ _ _ _ (λ _ _, True)); [by apply quietly_store|]. intros g2 n2 _ _.
  apply (quietly_bind _ _ _ _ (λ _ _, True)); [by apply quietly_store|]. intros g3 n3 _ _.
  eapply quietly_bind; [apply protect_each_quiet|]. intros g4 incidents _ Hprot.
  apply (quietly_bind _ _ _ _ (λ g' _, called g' (RecordBatch (observed_time o) incidents) (Ok tt))).
  { apply quietly_store; [done|]. intros []. apply answered_last. }
  intros g5 [] Hg5 Hrec. apply (quietly_bind _ _ _ _ (λ g' _,
    called g' (PublishRoster token (observed_time o) incidents
      (proves_complete_classification_coverage (observed_snapshot o))) (Ok tt))).
  { apply quietly_control; [done|]. intros []. apply answered_last. }
  intros g6 [] Hg6 Hpub. apply quietly_ret. intros report Hr Hst.
  destruct (Hprot report Hr Hst) as [Hin Hcall]. split; [done|].
  split; [carry Hcall|].
  eexists token, (observed_time o), incidents, _. split; [done|].
  split; [carry Hrec|done].
Qed.

(** ** The worker *)

Lemma cycle_allows g : allows cycle_ok g.
Proof. intros g' Hg. do 3 (split; [done|]). intros X c Hc. by destruct c. Qed.

Lemma dispatched_allows f g : dispatched f g → allows_gated cycle_ok f g.
Proof. intros Hf l X c op Hl Hop. by exists f, g, l. Qed.

Lemma terminal_quiet started g :
  quietly cycle_ok (λ w, do* t := terminal_time started in Ret (w, Ok t)) g (λ _ _, True).
Proof.
  intros w. split; [done|]. intros clock. simpl. split; [done|]. split; [|done].
  by apply grows_event.
Qed.

(** The events of a cycle with the state of the worker. *)
Definition stands (g : trace) (w : option N) : Prop :=
  worker_live live0 g = bool_decide (is_Some w).

Lemma stands_grows g g' w : grows g g' → stands g w → stands g' w.
Proof. intros Hg H. unfold stands. by rewrite (grows_live _ _ _ Hg). Qed.

Lemma join_ens started g w (Q : trace → option N → option CleanupReceipt → Prop) :
  (∀ joined receipt, Q (g ++ [Obs JoinWorker joined]) None receipt) →
  ens cycle_ok g (join_worker started) w Q.
Proof.
  intros HQ. split; [done|]. intros joined. cbn [bind]. cbv zeta beta.
  match goal with |- context [completion_result ?c] =>
    destruct (completion_result c) as [receipt|error]; [apply HQ|] end.
  apply ens_bind, ens_event; [done|]. intros x. apply ens_bind, ens_store; [|intros; done].
  unfold extend. simpl. unfold worker_live. by rewrite !fold_left_app.
Qed.

Lemma collect_ens wait g w :
  stands g w →
  ens cycle_ok g (collect_background_cleanup wait) w (λ g' w' _, stands g' w').
Proof.
  intros Hw. unfold collect_background_cleanup, ens. destruct w as [started|]; [|done].
  assert (∀ g1, ens cycle_ok g1 (join_worker started) (Some started) (λ g' w' _, stands g' w'))
    as Hjoin.
  { intros g1. apply join_ens. intros joined _. unfold stands, worker_live. by rewrite fold_left_app. }
  destruct wait; [apply Hjoin|]. split; [done|]. intros [].
  - apply Hjoin.
  - eapply stands_grows; [|exact Hw]. by apply grows_event.
Qed.

(** ** Dispatch *)

Lemma authorised_app now epoch revision P g l :
  authorised now epoch revision P g → authorised now epoch revision P (g ++ l).
Proof.
  intros (s & Hs & Hm & He & HP & Hr). exists s. split; [by apply elem_of_app; left|].
  do 3 (split; [done|]). by apply elem_of_app; left.
Qed.

(** The trace [p1] of the observation, and the authority that still stands after it. *)
Definition standing (now : N) (auth : authority) (p1 g : trace) : Prop :=
  ∃ p2, g = p1 ++ p2 ∧ authorised now (authority_epoch auth) (authority_revision auth) (unpaused now) p2.

Lemma standing_grows now auth p1 g g' : grows g g' → standing now auth p1 g → standing now auth p1 g'.
Proof.
  intros (l & -> & _) (p2 & -> & H). exists (p2 ++ l). rewrite (assoc_L (++)).
  split; [done|]. by apply authorised_app.
Qed.

(** A report that may be dispatched. *)
Definition dispatchable (a : Analyzer) (epoch : string) (p1 : trace) (report : IncidentReport) : Prop :=
  state report = Confirmed ∧ observed_cooling_twice a epoch report p1 ∧
  called p1 (IsProtected report) (Ok false) ∧ recorded_and_published report p1.

Lemma run_quiet f activity g :
  dispatched f g → quietly cycle_ok (run_cleanup f activity) g (λ _ _, True).
Proof.
  intros Hf w. unfold ens, run_cleanup.
  eapply safe_bind_post.
  { apply (execute_quiet cycle_ok f false true g (cycle_allows g)). by apply dispatched_allows. }
  intros g4 [w4 [receipt|error]] Hexec; simpl in Hexec.
  - destruct Hexec as (-> & Hg4 & _).
    eapply safe_mono; [|apply (end_quiet cycle_ok); apply cycle_allows].
    intros g5 [w5 [r|err]]; simpl; [|done]. intros (-> & Hg5 & _). split; [done|]. split; [growing|done].
  - by split.
Qed.

Lemma spawn_failed_ens now activity error g w Q :
  worker_live live0 g = false → ens cycle_ok g (spawn_failed now activity error) w Q.
Proof.
  intros Hlive. apply ens_bind, ens_event; [done|]. intros x.
  apply ens_bind, ens_control; [done|]. intros [].
  apply ens_bind, ens_store; [|intros; apply ens_fail].
  simpl. unfold worker_live in *. by rewrite !fold_left_app, Hlive.
Qed.

Lemma spawn_ens f now activity g :
  worker_live live0 g = false → dispatched f g →
  ens cycle_ok g (spawn_cleanup f now activity) None (λ g' w' _, stands g' w').
Proof.
  intros Hlive Hf. split; [done|]. intros [u|error]; cbn [bind].
  - unfold stands, worker_live, extend. simpl. by rewrite fold_left_app.
  - apply (spawn_failed_ens now activity error _ None (λ g' w' _, stands g' w')).
    unfold worker_live, extend in *. by rewrite fold_left_app, Hlive.
Qed.

Section Dispatch.
Context (a : Analyzer) (auth : authority) (now : N) (token : string) (p1 : trace).
Context (began : authorised now (authority_epoch auth) (authority_revision auth) (λ _, True) p1).
Context (analyzed : cycle_analyzer a p1).

Lemma begin_allowed report g :
  dispatchable a (authority_epoch auth) p1 report → standing now auth p1 g →
  begin_ok a ((g ++ [Obs StopRequested false])
                ++ [Obs (Call (CleanupBlocked (incident_id report))) (Ok false)])
    now report (authority_epoch auth) (authority_revision auth).
Proof.
  intros (Hst & Hobs & Hprot & Hpub) (p2 & -> & Hauth).
  exists p1, (p2 ++ [Obs StopRequested false; Obs (Call (CleanupBlocked (incident_id report))) (Ok false)]).
  split; [by rewrite <-!(assoc_L (++))|]. do 6 (split; [done|]).
  split; [by apply authorised_app|].
  split; apply elem_of_app; right; [by left|by right; left].
Qed.

Lemma dispatch_ens reports receipts g :
  (∀ report, report ∈ reports → dispatchable a (authority_epoch auth) p1 report) →
  standing now auth p1 g → worker_live live0 g = false →
  ens cycle_ok g (dispatch e a auth now token reports receipts) None (λ g' w' _, stands g' w').
Proof.
  revert receipts g. induction reports as [|report reports IH]; intros receipts g Hreports Hg Hlive;
    cbn [dispatch]; [by apply ens_ret|].
  assert (∀ report, report ∈ reports → dispatchable a (authority_epoch auth) p1 report) as Hrest.
  { intros r Hr. apply Hreports. by constructor. }
  apply ens_bind, ens_event; [done|]. intros [].
  { apply ens_ret. unfold stands. simpl. rewrite <-Hlive. apply (grows_live live0 g). by apply grows_event. }
  apply ens_bind, ens_store; [done|]. intros blocked.
  assert (grows g ((g ++ [Obs StopRequested false])
    ++ [Obs (Call (CleanupBlocked (incident_id report))) (Ok blocked)])) as Hg1.
  { etransitivity; by apply grows_event. }
  destruct blocked.
  { apply IH; [done|by eapply standing_grows|by rewrite (grows_live _ _ _ Hg1)]. }
  pose proof (begin_allowed report g (Hreports report ltac:(by left)) Hg) as Hbegin.
  revert Hg1 Hbegin. generalize ((g ++ [Obs StopRequested false])
    ++ [Obs (Call (CleanupBlocked (incident_id report))) (Ok false)]). intros g1 Hg1 Hbegin.
  apply ens_bind, ens_attempt. intros plan Hplan.
  assert (from_confirmed report = Ok plan) as Hplan'.
  { destruct (from_confirmed report); [|done]. by injection Hplan as ->. }
  assert (worker_live live0 g1 = false) as Hlive1 by by rewrite (grows_live _ _ _ Hg1).
  apply ens_bind, ens_control; [by split; [|exists a]|]. intros [handle|].
  2: { apply ens_ret. unfold stands. simpl. rewrite <-Hlive1. apply (grows_live live0 g1). by apply grows_event. }
  apply ens_bind, ens_control; [done|]. intros []. cbv zeta.
  set (frozen := mkFrozenCleanup a handle plan _ _ _ now).
  match goal with |- ens _ ?g2 _ _ _ => assert (grows g1 g2 ∧ dispatched frozen g2) as [Hg2 Hf];
    [|revert Hg2 Hf; generalize g2; intros g3 Hg2 Hf] end.
  { split; [etransitivity; by apply grows_event|].
    eexists g1, report, [_]. split; [exact Hplan'|]. split; [exact Hbegin|].
    rewrite <-(assoc_L (++)). reflexivity. }
  assert (worker_live live0 g3 = false) as Hlive3 by by rewrite (grows_live _ _ _ Hg2).
  destruct (with_factory e).
  { apply ens_bind. eapply ens_mono; [by apply spawn_ens|]. intros g' w' [] Hw'. by apply ens_ret. }
  apply ens_bind. eapply ens_mono; [by apply run_quiet|]. intros g4 w4 receipt (-> & Hg4 & _).
  assert (grows g g4) as Hall by growing.
  apply IH; [done|by eapply standing_grows|by rewrite (grows_live _ _ _ Hall)].
Qed.
End Dispatch.

Lemma ens_quiet {A B} (m : engine A) (k : A → engine B) g w R (Q : trace → option N → B → Prop) :
  quietly cycle_ok m g R → (∀ g' a, grows g g' → R g' a → ens cycle_ok g' (k a) w Q) →
  ens cycle_ok g (engine_bind m k) w Q.
Proof.
  intros Hm Hk. apply ens_bind. eapply ens_mono; [apply Hm|]. intros g' w' a (-> & Hg & HR). by apply Hk.
Qed.

Lemma dispatch_if_ens a auth now token incidents receipts g w :
  authorised now (authority_epoch auth) (authority_revision auth) (λ _, True) g ∨
    effective_mode (authority_status auth) ≠ Enforce ∨
    enforcement_epoch (authority_status auth) ≠ Some (authority_epoch auth) →
  cycle_analyzer a g →
  (∀ report, report ∈ incidents → state report = Confirmed →
     dispatchable a (authority_epoch auth) g report) →
  stands g w →
  ens cycle_ok g (dispatch_if_authorized e a auth now token incidents receipts) w
    (λ g' w' _, stands g' w').
Proof.
  intros Hbegan Ha Hincidents Hw.
  change (ens cycle_ok g (dispatch_if_authorized_at e a auth now token incidents receipts w) w
            (λ g' w' _, stands g' w')).
  unfold dispatch_if_authorized_at.
  eapply (ens_quiet _ _ _ _ (λ g' s, g' = g ++ [Obs (Call (StatusAt now)) (Ok s)])).
  { by apply quietly_control. }
  intros g1 s Hg1 ->. cbv zeta.
  set (standing_mode := bool_decide (effective_mode (authority_status auth) = Enforce) && _ && _ && _).
  eapply (ens_quiet _ _ _ _ (λ g' revision, standing_mode = true →
    g' = (g ++ [Obs (Call (StatusAt now)) (Ok s)]) ++ [Obs (Call PolicyRevision) revision])).
  { destruct standing_mode; [by apply quietly_event|by apply quietly_ret]. }
  intros g2 revision Hg2 Htrace. set (paused := match _ with Some _ => _ | None => _ end).
  destruct (still_authorizes_cleanup auth s revision) eqn:Hstill; simpl;
    [|apply ens_ret; by do 2 (eapply stands_grows; [eassumption|])].
  destruct paused eqn:Hpaused; [apply ens_ret; by do 2 (eapply stands_grows; [eassumption|])|].
  unfold still_authorizes_cleanup in Hstill. apply andb_true_iff in Hstill as [Hmode Hrev%bool_decide_eq_true].
  fold standing_mode in Hmode. specialize (Htrace Hmode). subst g2 revision.
  unfold standing_mode in Hmode. rewrite !andb_true_iff, !bool_decide_eq_true in Hmode.
  destruct Hmode as [[[Hm0 He0] Hm] He].
  eapply (ens_quiet _ _ _ _ (λ _ _, True)); [by apply quietly_event|]. intros g3 stop Hg3 _.
  destruct (stop || bool_decide (is_Some w)) eqn:Hgo.
  { apply ens_ret. by do 3 (eapply stands_grows; [eassumption|]). }
  apply orb_false_iff in Hgo as [_ Hnone%bool_decide_eq_false]. rewrite <-eq_None_not_Some in Hnone. subst w.
  destruct Hbegan as [Hbegan|[?|?]]; [|done..].
  apply (dispatch_ens a auth now token g Hbegan Ha).
  - intros report Hr%list_elem_of_In. apply filter_In in Hr as [Hr Hc%bool_decide_eq_true].
    apply Hincidents; [by apply list_elem_of_In|done].
  - eapply standing_grows; [exact Hg3|]. eexists. rewrite <-(assoc_L (++)). split; [reflexivity|].
    exists s. split; [by left|]. split; [done|]. split; [done|]. split; [|by right; left].
    intros deadline Hd. unfold paused in Hpaused. rewrite Hd in Hpaused.
    apply bool_decide_eq_false in Hpaused. lia.
  - assert (grows g g3) as Hall by growing. rewrite (grows_live _ _ _ Hall). exact Hw.
Qed.

(** ** The cycle *)

Lemma cycle_ens now token g w :
  stands g w → ens cycle_ok g (run_cycle_inner e now token) w (λ _ _ _, True).
Proof.
  intros Hw. unfold run_cycle_inner. apply ens_bind. eapply ens_mono; [by apply collect_ens|].
  intros g1 w1 collected Hw1.
  eapply (ens_quiet _ _ _ _ (λ g' s, called g' (StatusAt now) (Ok s))).
  { apply quietly_control; [done|]. intros s. apply answered_last. }
  intros g2 lifecycle Hg2 Hs.
  eapply (ens_quiet _ _ _ _ (λ g' revision, called g' PolicyRevision revision)).
  { apply quietly_event; [done|done|]. intros revision. apply answered_last. }
  intros g3 revision Hg3 Hrev. cbv zeta. set (auth := mkAuthority _ _ _).
  eapply ens_quiet; [apply observe_quiet|]. intros g4 [a o] Hg4 [Ha Hobs]. simpl in Ha, Hobs.
  eapply ens_quiet; [apply publish_observation_quiet|]. intros g5 incidents Hg5 Hinc.
  apply ens_bind. eapply ens_mono; [apply dispatch_if_ens|].
  - destruct (decide (effective_mode lifecycle = Enforce)) as [Hm|]; [|by right; left].
    destruct (decide (enforcement_epoch lifecycle = Some (authority_epoch auth))) as [He|];
      [|by right; right].
    left. exists lifecycle. split; [carry Hs|]. do 3 (split; [done|]). carry Hrev.
  - by eapply cycle_analyzer_grows.
  - intros report Hr Hst. destruct (Hinc report Hr Hst) as (Hin & Hprot & Hpub).
    split; [done|]. split; [|done]. eapply observed_cooling_grows; [exact Hg5|]. by apply Hobs.
  - do 4 (eapply stands_grows; [eassumption|]). done.
  - intros g6 w6 receipts _. eapply (ens_quiet _ _ _ _ (λ _ _, True)).
    { apply quietly_control; [|done]. intros s. by split_and!. }
    intros g7 [] _ _. eapply (ens_quiet _ _ _ _ (λ _ _, True)); [by apply quietly_store|].
    intros g8 pruned _ _. by apply ens_ret.
Qed.

Lemma end_ens now token returned g w : ens cycle_ok g (end_cycle now token returned) w (λ _ _ _, True).
Proof.
  destruct returned as [report|error]; cbn [end_cycle].
  - eapply (ens_quiet _ _ _ _ (λ _ _, True)); [|intros; by apply ens_ret].
    unfold finish_cycle. apply (quietly_bind _ _ _ _ (λ _ _, True)); [apply terminal_quiet|].
    intros g1 at_ _ _. apply (quietly_bind _ _ _ _ (λ _ _, True)); [by apply quietly_event|].
    intros g2 [] _ _. apply (quietly_bind _ _ _ _ (λ _ _, True)); [|intros; by apply quietly_control].
    apply quietly_control; [|done]. intros s. cbv zeta. destruct (bool_decide _); by split_and!.
  - unfold ens. simpl. split; [done|]. intros clock. split; [done|]. intros u. split; [done|].
    intros r. split; [|done]. intros s. by split_and!.
Qed.

Lemma run_cycle_safe now w :
  live0 = bool_decide (is_Some w) →
  safe extend cycle_ok [] (run_cycle_at_until e now w) (λ _ _, True).
Proof.
  intros Hw. unfold run_cycle_at_until.
  assert (ens cycle_ok [] (run_cycle_at_until e now) w (λ _ _ _, True)) as H; [|by eapply safe_mono; [|exact H]].
  unfold run_cycle_at_until.
  eapply (ens_quiet _ _ _ _ (λ _ _, True)); [by apply quietly_control|]. intros g1 token Hg1 _.
  unfold ens. eapply safe_bind_post; [apply (cycle_ens now token g1 w)|].
  - by eapply stands_grows.
  - intros g2 [w2 r2] _. simpl. apply end_ens.
Qed.
End Cycle.

(** ** Properties *)

Lemma cycle_event_ok e now w tr r pre X (ev : EngineE X) x post :
  runs (run_cycle_at_until e now w) tr r → tr = pre ++ Obs ev x :: post →
  cycle_ok e (bool_decide (is_Some w)) pre X ev.
Proof.
  intros Hr ->.
  destruct (safe_runs _ _ _ _ _ _ _ (run_cycle_safe e _ now w eq_refl) Hr) as [Hacc _].
  pose proof (accepts_at _ _ _ _ _ _ _ Hacc eq_refl) as H. by rewrite extend_fold in H.
Qed.

(** A cycle cleans what it may clean. In whatever environment it runs, a cycle begins a
    cleanup only for a report that is confirmed from two of its own observations, the
    observation gap apart, whose abandonment the store found long enough at a clock of
    the epoch of the cycle; that the owner did not protect, that no retry block covers,
    and that was recorded and then published. The control plane enforced this epoch at
    this policy revision when the cycle began and again after the publication, unpaused;
    the plan is the report's, and whatever is signalled or removed is under such a
    cleanup, its epoch and its revision, through its gate: outside it the cycle only
    observes. *)
Theorem cycles_clean_confirmed_incidents e now w tr r :
  runs (run_cycle_at_until e now w) tr r →
  (∀ pre at_ report epoch revision x post,
     tr = pre ++ Obs (Call (BeginAttempt at_ report epoch revision)) x :: post →
     ∃ a, begin_ok e a pre at_ report epoch revision) ∧
  (∀ pre f activity x post,
     tr = pre ++ Obs (Spawn f activity) x :: post → dispatched e f pre) ∧
  (∀ pre X cancellable epoch revision (ev : CleanupE X) x post,
     tr = pre ++ Obs (Gated cancellable epoch revision ev) x :: post →
     ∃ f start l, pre = start ++ l ∧ dispatched e f start ∧ epoch = frozen_epoch f ∧
       revision = frozen_revision f ∧ executor_ok f l ev) ∧
  (∀ X (ev : CleanupE X) x, Obs (Runtime ev) x ∈ tr → observes ev).
Proof.
  intros Hr. split; [|split; [|split]].
  - intros *. intros [_ Ha]%(cycle_event_ok _ _ _ _ _ _ _ _ _ _ Hr). exact Ha.
  - intros *. intros [_ Hf]%(cycle_event_ok _ _ _ _ _ _ _ _ _ _ Hr). exact Hf.
  - intros *. intros Hf%(cycle_event_ok _ _ _ _ _ _ _ _ _ _ Hr). exact Hf.
  - intros X ev x (pre & post & Htr)%list_elem_of_split. exact (cycle_event_ok _ _ _ _ _ _ _ _ _ _ Hr Htr).
Qed.

(** The snapshot an event took. *)
Definition seen_taken (o : obs CleanupE) : option Snapshot :=
  match o with
  | @Obs _ X ev x =>
      match ev in CleanupE X return X → option Snapshot with
      | TakeSnapshot => λ x, match x with Ok s => Some s | Err _ => None end
      | _ => λ _, None
      end x
  end.

Definition taken (o : obs EngineE) : option Snapshot :=
  match o with
  | @Obs _ X ev x =>
      match ev in EngineE X return X → option Snapshot with
      | Runtime ev => λ x, seen_taken (Obs ev x)
      | _ => λ _, None
      end x
  end.

Lemma last_snapshot_upd g o :
  last_snapshot (upd g o) = match seen_taken o with Some s => Some s | None => last_snapshot g end.
Proof.
  destruct g as [st lg ws lk op fr de oa rm fz ac aa], o as [X ev x]. unfold last_snapshot.
  destruct ev; simpl; try done; try (by destruct x).
  - destruct x; simpl; [|done]. by rewrite last_snoc.
  - by destruct x as [[]|].
  - by destruct x; [case_bool_decide|].
  - by destruct x, op as [[]|].
  - by destruct x, oa as [[]|].
Qed.

(** The last snapshot of the executor is the last that was taken. *)
Lemma last_snapshot_seen tr : last_snapshot (ghost_of tr) = last (omap seen_taken tr).
Proof.
  induction tr as [|o tr IH] using rev_ind; [done|]. unfold ghost_of in *. rewrite fold_left_app. simpl.
  rewrite last_snapshot_upd, omap_app, last_app, IH. cbn [omap list_omap].
  by destruct (seen_taken o).
Qed.

Lemma executed_taken l : omap seen_taken (executed l) = omap taken l.
Proof.
  induction l as [|o l IH]; [done|]. unfold executed in *. simpl. rewrite omap_app, IH.
  destruct o as [X ev x]. destruct ev as [X ev|X c ep rv ev|X c| | | | | |]; simpl; try done.
  - destruct ev; simpl; try done. by destruct x.
  - by destruct ev.
  - destruct c; simpl; try done; by destruct x.
  - by destruct x.
  - by destruct x.
Qed.

(** The process was, before the events [pre] were over, confirmed as an orphan: the cycle's
    own analyzer saw it, in the second of two observations a gap apart, as a member of a
    Cooling incident that the first saw unchanged and whose abandonment the store confirmed;
    and it is one still in the last snapshot that was taken. *)
Definition confirmed_orphan (e : ReconciliationEngine) (epoch : string) (pre : list (obs EngineE))
    (i : ProcessIdentity) :
    Prop :=
  ∃ a s1 s2 first second keys member p,
    cycle_analyzer e a pre ∧
    (answered pre (Runtime TakeSnapshot) (Ok s1) ∧ answered pre (Runtime TakeSnapshot) (Ok s2) ∧
     answered pre (Runtime (WaitUntil (observation_gap (engine_config e)))) (Ok DeadlineReached) ∧
     observe a s1 = Ok first ∧ observe a s2 = Ok second ∧
     (∀ k, k ∈ keys → ∃ cooling sample grace gap, cooling ∈ second ∧ state cooling = Cooling ∧
        tracking_key cooling = k ∧
        duration_millis (abandonment_grace (engine_config e)) = Ok grace ∧
        called pre (TrackCooling cooling (cooling_clock sample epoch) grace gap) (Ok true))) ∧
    (member ∈ second ∧ confirmable first keys member ∧
     p ∈ processes s2 ∧ identity p = i ∧ i ∈ target_identity <$> targets member) ∧
    ∃ snap q, last (omap taken pre) = Some snap ∧ q ∈ processes snap ∧
      exact_match i (identity q) = true ∧
      uid q = current_uid snap ∧ uid q ≠ 0%N ∧ has_complete_classification_facts q = true ∧
      engine_self_pid e ≠ Some (process_pid q).

(** A signal of a cycle is one of the cleanup that was dispatched, authorised as the
    executor checks it, and goes to a confirmed orphan. *)
Lemma signalled_orphan e now w tr r pre cancellable epoch revision i sg x post :
  runs (run_cycle_at_until e now w) tr r →
  tr = pre ++ Obs (Gated cancellable epoch revision (SignalExact i sg)) x :: post →
  confirmed_orphan e epoch pre i ∧
  ∃ f start l, pre = start ++ l ∧ dispatched e f start ∧ epoch = frozen_epoch f ∧
    revision = frozen_revision f ∧
    signal_ok (frozen_analyzer f) (frozen_plan f) (ghost_of (executed l)) i sg.
Proof.
  intros Hr Htr. destruct (cycle_event_ok _ _ _ _ _ _ _ _ _ _ Hr Htr)
    as (f & start & l & -> & Hdis & -> & -> & Hok).
  split; [|by exists f, start, l].
  destruct Hdis as (p0 & report & p0' & Hplan & Hbegin & ->).
  unfold executor_ok in Hok. simpl in Hok.
  destruct Hbegin as (p1 & p2 & -> & _ & (Hrules & Hself & Htasks & Hsessions) & _ & Hobs & _).
  destruct Hobs as (s1 & s2 & first & second & keys & grace & gap & H1 & H2 & Hw & Hf & Hs & Hd & Hin & Hk).
  apply list_elem_of_fmap in Hin as (member & Hrec & Hin). rewrite Hrec in Hplan.
  destruct (planned_member (frozen_analyzer f) s2 first second keys member (frozen_plan f) i sg _
    Hs Hin Hplan Hok) as [Hconf Hmember].
  destruct (observed_member _ _ _ _ _ Hs Hin Hmember) as (p & Hp & Hi).
  assert (Hmono : ∀ Y (ev : EngineE Y) y, answered p1 ev y →
    answered (((p1 ++ p2) ++ Obs (Call (BeginAttempt (frozen_started_at f) report (frozen_epoch f)
      (frozen_revision f))) (Ok (Some (frozen_attempt f))) :: p0') ++ l) ev y).
  { intros Y ev y Ha. rewrite <-!(assoc_L (++)). by apply elem_of_app; left. }
  exists (frozen_analyzer f), s1, s2, first, second, keys, member, p.
  split; [|split; [|split; [done|]]].
  - split; [done|]. split; [done|]. split; by apply Hmono.
  - do 3 (split; [by apply Hmono|]). do 2 (split; [done|]).
    intros k Hkk. destruct (Hk k Hkk) as (r0 & sample & Hr0 & Hst & Hkey & Hcall).
    exists r0, sample, grace, gap. do 4 (split; [done|]). by apply Hmono.
  - apply signal_ok_touches in Hok as (t & snap & q & [[Ht <-] Hsnap Hq Hexact _ Hel]).
    exists snap, q. destruct (eligible_targets _ _ _ (revalidate_eligible_facts _ _ _ Hel) q Hq)
      as (_ & Hfacts).
    + apply list_elem_of_fmap. exists t. split; [|done].
      apply exact_match_eq in Hexact. unfold process_pid, target_pid. by rewrite Hexact.
    + destruct Hfacts as (? & ? & ? & ? & ?). rewrite last_snapshot_seen, executed_taken in Hsnap.
      rewrite omap_app, last_app, Hsnap. rewrite Hself in *. by split_and!.
Qed.

(** A cycle signals confirmed orphans. Whatever process a cycle signals was a member of
    a Cooling incident of its second observation, whose root and members its first
    observation saw unchanged and whose abandonment the store confirmed; and the last
    snapshot that the cycle took before the signal lists it with the same identity, of
    the current, non-root user, with complete facts, and it is not the daemon itself. *)
Theorem cycles_signal_confirmed_orphans e now w tr r pre cancellable epoch revision i sg x post :
  runs (run_cycle_at_until e now w) tr r →
  tr = pre ++ Obs (Gated cancellable epoch revision (SignalExact i sg)) x :: post →
  confirmed_orphan e epoch pre i.
Proof. intros Hr Htr. by eapply signalled_orphan. Qed.

(** [C6] One cleanup at a time. A cycle begins a cleanup, starts a worker or recovers the
    journal only while no background worker is running: the one it found was joined, and
    one it started itself is the last thing it begins. *)
Theorem one_cleanup_at_a_time e now w tr r :
  runs (run_cycle_at_until e now w) tr r →
  let live := worker_live (bool_decide (is_Some w)) in
  (∀ pre at_ report epoch revision x post,
     tr = pre ++ Obs (Call (BeginAttempt at_ report epoch revision)) x :: post → live pre = false) ∧
  (∀ pre f activity x post, tr = pre ++ Obs (Spawn f activity) x :: post → live pre = false) ∧
  (∀ pre at_ x post, tr = pre ++ Obs (Call (RecoverAttempts at_)) x :: post → live pre = false).
Proof.
  intros Hr live. split; [|split].
  - intros *. intros [Hl _]%(cycle_event_ok _ _ _ _ _ _ _ _ _ _ Hr). exact Hl.
  - intros *. intros [Hl _]%(cycle_event_ok _ _ _ _ _ _ _ _ _ _ Hr). exact Hl.
  - intros *. intros Hl%(cycle_event_ok _ _ _ _ _ _ _ _ _ _ Hr). exact Hl.
Qed.

(** The engine releases a lease on exact absence only. A cycle releases a task or a
    session owner that it read as unreleased, of the owner it read, right after the
    runtime said that this owner, or the registrar while there is no owner, is gone or
    its PID is another process's; a lookup that fails releases nothing. *)
Theorem absent_owners_are_released e now w tr r :
  runs (run_cycle_at_until e now w) tr r →
  (∀ pre task at_ reason owner x post,
     tr = pre ++ Obs (Call (ReleaseTask task at_ reason owner)) x :: post →
     ∃ scopes scope, called pre TaskScopes (Ok scopes) ∧ scope ∈ scopes ∧
       scope_task_id scope = task ∧ gr_owner (scope_granted scope) = owner ∧
       absent_owner (scope_granted scope) pre) ∧
  (∀ pre lease at_ reason owner x post,
     tr = pre ++ Obs (Call (ReleaseSession lease at_ reason owner)) x :: post →
     ∃ scopes scope, called pre SessionScopes (Ok scopes) ∧ scope ∈ scopes ∧
       so_lease_id scope = lease ∧ gr_owner (so_granted scope) = owner ∧
       absent_owner (so_granted scope) pre).
Proof.
  intros Hr. split.
  - intros *. intros H%(cycle_event_ok _ _ _ _ _ _ _ _ _ _ Hr). exact H.
  - intros *. intros H%(cycle_event_ok _ _ _ _ _ _ _ _ _ _ Hr). exact H.
Qed.
