(* ===== verification/EngineRun.v ===== *)
(** EngineRun: the cycle in a running daemon.

    The calls of a cycle are steps of the control plane of [ControlSafety.v], and other
    threads take theirs in between: what holds of every run of the control plane holds
    of every cycle, and of every cleanup worker. *)

From S2P Require Import Prelude Text Model Fingerprint Task Artifact Graph Evidence Cleanup.
From S2P Require Import Effects Executor Pack Matching Candidates Classify Analyzer Decisions.
From S2P Require Import Cooling Names Store Journal JournalFacts DurableRun StoreSafety Lifecycle.
From S2P Require Import LifecycleFacts Protocol Mutations Observations ObservationFacts PruneFacts.
From S2P Require Import Views Maintenance Control ControlFacts ControlSafety Owners OwnersFacts.
From S2P Require Import Engine EngineFacts.

(** ** Frames *)

Section Frames.
Context `{JE : Json EventPayload, JR : Json CleanupResources, JP : Json (list N),
  JT : Json TaskOwnerIdentity, JI : Json ProcessIdentity}.

Lemma record_batch_lifecycle random io at_ reports db db' ids :
  record_observation_batch random io at_ reports db = Ok (db', ids) → lifecycle db' = lifecycle db.
Proof.
  intros [_ H]%with_connection_Ok. revert db ids H.
  induction reports as [|r reports IH]; intros db ids H; [by injection H as <- _|].
  cbn [record_reports] in H. apply result_bind_Ok in H as ([db1 id] & H1 & H).
  apply result_bind_Ok in H as ([db2 ids'] & H & [= <- _]).
  apply IH in H. apply upsert_Ok in H1 as (_ & Hl & _). simpl in *. congruence.
Qed.

Lemma resolve_lifecycle {S D} (jt : journal_table S D) attempt at_ db db' :
  (∀ t db, lifecycle (jt_set jt t db) = lifecycle db) →
  resolve_prepared jt attempt at_ db = Ok db' → lifecycle db' = lifecycle db.
Proof. intros Hset H. unfold resolve_prepared in H. inv_ok H. by injection H as <-. Qed.

Lemma recover_one_lifecycle random at_ at_ms id a db db' receipt :
  recover_attempt random at_ at_ms id a db = Ok (db', receipt) → lifecycle db' = lifecycle db.
Proof.
  unfold recover_attempt. intros Hr.
  apply result_bind_Ok in Hr as (db1 & H1 & (db2 & H2 & Hr)%result_bind_Ok).
  apply result_bind_Ok in Hr as (acts & _ & (aacts & _ & Hr)%result_bind_Ok).
  apply result_bind_Ok in Hr as (db3 & Hclose & ([db4 ev] & Hev & Hr)%result_bind_Ok).
  apply result_bind_Ok in Hr as (db5 & Himp & [= <- _]).
  apply (resolve_lifecycle process_journal) in H1; [|done].
  apply (resolve_lifecycle artifact_journal) in H2; [|done].
  apply insert_event_frame in Hev as (_ & _ & Hl & _).
  apply insert_impact_frame in Himp as (_ & _ & Hl' & _).
  apply close_attempt_Ok in Hclose as (t3 & -> & _). simpl in *. congruence.
Qed.

Lemma recover_lifecycle random io now db db' receipts :
  recover_incomplete_attempts random io now db = Ok (db', receipts) → lifecycle db' = lifecycle db.
Proof.
  unfold recover_incomplete_attempts. intros (z & _ & [_ H]%with_connection_Ok)%result_bind_Ok.
  remember (List.filter (attempt_open ∘ snd) (table_entries (attempts db))) as l eqn:E.
  clear E. revert db receipts H.
  induction l as [|[id a] l IH]; intros db receipts H; [by injection H as <- _|].
  cbn [recover_attempts] in H. apply result_bind_Ok in H as ([db1 one] & H1 & H).
  apply result_bind_Ok in H as ([db2 rest] & H & [= <- _]).
  apply IH in H. apply recover_one_lifecycle in H1. simpl in *. congruence.
Qed.

Lemma complete_lifecycle random io handle at_ terminal db db' receipt :
  complete_cleanup_attempt random io handle at_ terminal db = Ok (db', receipt) →
  lifecycle db' = lifecycle db.
Proof.
  intros (_ & _ & stored & _ & _ & H)%complete_Ok. destruct (attempt_terminal_state stored).
  { by destruct H as (_ & -> & _). }
  destruct H as (_ & acts & aacts & res & _ & _ & _ & _ & _ & H).
  apply write_terminal_Ok in H as (checks & db1 & db2 & ev & Hclose & Hev & Himp).
  apply insert_event_frame in Hev as (_ & _ & Hl & _).
  apply insert_impact_frame in Himp as (_ & _ & Hl' & _).
  apply close_attempt_Ok in Hclose as (t3 & -> & _). rewrite Hl', Hl. by case_bool_decide.
Qed.

Lemma reconcile_blocks_lifecycle io seen live proven now retention db db' r :
  reconcile_retry_blocks io seen live proven now retention db = Ok (db', r) →
  lifecycle db' = lifecycle db.
Proof. unfold reconcile_retry_blocks. intros H. inv_ok H. by injection H as <- _. Qed.

Lemma reconcile_protections_lifecycle io live proven now retention db db' r :
  reconcile_incident_protections io live proven now retention db = Ok (db', r) →
  lifecycle db' = lifecycle db.
Proof. unfold reconcile_incident_protections. intros H. inv_ok H. by injection H as <- _. Qed.

Lemma prune_lifecycle namespace io now policy db db' r :
  prune namespace io now policy db = Ok (db', r) → lifecycle db' = lifecycle db.
Proof.
  intros (limit & _ & ->)%prune_Ok.
  pose proof (prune_transaction_tables namespace (Z.of_N (now - max_age_millis policy))
    (Z.of_N (now - N.max (max_age_millis policy) CLEANUP_DETAIL_RETENTION_MILLIS)) limit
    (Z.of_N now) db) as (_ & _ & _ & _ & Hl & _). exact Hl.
Qed.

Lemma prepare_row_lifecycle {S D} (jt : journal_table S D) io handle next at_ subject db db' h :
  (∀ t db, lifecycle (jt_set jt t db) = lifecycle db) →
  prepare_row jt io handle next at_ subject db = Ok (db', h) → lifecycle db' = lifecycle db.
Proof. intros Hset (_ & _ & t & _ & -> & _)%prepare_row_Ok. apply Hset. Qed.

Lemma complete_row_lifecycle {S D} `{EqDecision D, StoredText D} (jt : journal_table S D) io h at_ d db db' :
  (∀ t db, lifecycle (jt_set jt t db) = lifecycle db) →
  complete_row jt io h at_ d db = Ok db' → lifecycle db' = lifecycle db.
Proof.
  intros Hset (stored & _ & _ & _ & Hc)%complete_row_Ok. destruct (row_disposition stored).
  - by destruct Hc as [_ ->].
  - destruct Hc as (t & _ & ->). apply Hset.
Qed.

(** A journal call keeps the lifecycle of its database. *)
Lemma journal_prepare_lifecycle io intent at_ j db j' db' key :
  journal_prepare_action io intent at_ (j, db) = Ok (j', db', key) → lifecycle db' = lifecycle db.
Proof.
  unfold journal_prepare_action. intros H. apply result_bind_Ok in H as (next & _ & H).
  apply result_bind_Ok in H as ([db1 h] & H%map_err_Ok & [= _ <- _]).
  unfold prepare_cleanup_action in H. apply guard_Ok in H as [_ H].
  by apply (prepare_row_lifecycle process_journal) in H.
Qed.

Lemma journal_complete_lifecycle io id d at_ j db j' db' :
  journal_complete_action io id d at_ (j, db) = Ok (j', db') → lifecycle db' = lifecycle db.
Proof.
  unfold journal_complete_action. intros H. apply result_bind_Ok in H as (h & _ & H).
  apply result_bind_Ok in H as (db1 & H%map_err_Ok & [= _ <-]).
  by apply (complete_row_lifecycle process_journal) in H.
Qed.

Lemma journal_prepare_artifact_lifecycle io intent at_ j db j' db' key :
  journal_prepare_artifact_action io intent at_ (j, db) = Ok (j', db', key) →
  lifecycle db' = lifecycle db.
Proof.
  unfold journal_prepare_artifact_action. intros H. apply result_bind_Ok in H as (next & _ & H).
  apply result_bind_Ok in H as ([db1 h] & H%map_err_Ok & [= _ <- _]).
  unfold prepare_cleanup_artifact_action in H. repeat apply guard_Ok in H as [_ H].
  by apply (prepare_row_lifecycle artifact_journal) in H.
Qed.

Lemma journal_complete_artifact_lifecycle io id d at_ j db j' db' :
  journal_complete_artifact_action io id d at_ (j, db) = Ok (j', db') → lifecycle db' = lifecycle db.
Proof.
  unfold journal_complete_artifact_action. intros H. apply result_bind_Ok in H as (h & _ & H).
  apply result_bind_Ok in H as (db1 & H%map_err_Ok & [= _ <-]).
  by apply (complete_row_lifecycle artifact_journal) in H.
Qed.
End Frames.

(** ** Steps *)

Section Steps.
Context `{JE : Json EventPayload, JM : Json OrdinaryMutation, JO : Json MutationReceipt}.
Context `{JC : Json CleanupResources, JP : Json (list N)}.
Context `{JA : Json ToolCacheAvailability, JTC : Json ToolCacheAttemptSummary}.
Context `{JN : Json NodeCompileCacheAttemptSummary}.
Context `{JT : Json TaskOwnerIdentity, JI : Json ProcessIdentity}.

(** The engine's updates of the status leave the authority alone. *)
Definition quiet_call {X} (c : DaemonE X) : Prop :=
  match c with UpdateStatus f => ∀ s, same_authority s (f s) | _ => True end.

Lemma same_control (d : daemon) : rtc ctl_step (d_control d) (d_control d).
Proof. done. Qed.

Lemma writes_step {A B} (r : result (database * A) StoreError) (answer : A → B) d :
  (∀ db a, r = Ok (db, a) → lifecycle db = lifecycle (ctl_store (d_control d))) →
  rtc ctl_step (d_control d) (d_control (writes r answer d).1).
Proof.
  intros Hr. destruct r as [[db a]|err]; simpl; [|done].
  apply rtc_once, step_store. by eapply Hr.
Qed.

Lemma journals_step {A B} j (r : result A RuntimeFailure) (after : A → journal_state * B) d :
  (∀ a, r = Ok a → lifecycle (after a).1.2 = lifecycle (ctl_store (d_control d))) →
  rtc ctl_step (d_control d) (d_control (journals j r after d).1).
Proof.
  intros Hr. destruct r as [a|err]; simpl; [|done].
  specialize (Hr a eq_refl). destruct (after a) as [[j' db] b]. simpl in *.
  by apply rtc_once, step_store.
Qed.

Lemma status_step io1 io2 io3 now c : rtc ctl_step c (status_at io1 io2 io3 now c).1.
Proof.
  unfold status_at. pose proof (step_expire io1 now c) as H.
  destruct (expire_pause io1 now c) as [c1 [u|err]]; by apply rtc_once.
Qed.

(** A call of the engine is steps of the control plane. *)
Lemma call_steps {X} (c : DaemonE X) v d :
  quiet_call c → rtc ctl_step (d_control d) (d_control (daemon_call c v d).1).
Proof.
  intros Hq. destruct c; cbn [daemon_call]; cbv zeta; try apply same_control.
  all: try (apply journals_step; intros a Ha; destruct a as [[j1 db1] b1] || destruct a as [j1 db1]).
  all: try (apply writes_step; intros db a Hr).
  - apply rtc_once, step_cycle_begun.
  - apply rtc_once, step_cycle_finished.
  - apply rtc_once, step_update. exact Hq.
  - apply rtc_once, step_cycle_completed.
  - apply rtc_once, step_fail_closed.
  - apply status_step.
  - apply rtc_once, step_published.
  - apply rtc_once, step_attempt.
  - apply rtc_once, step_process_begun.
  - apply rtc_once, step_process_dropped.
  - apply result_bind_Ok in Hr as (t & _ & [= <- _]). done.
  - apply with_connection_Ok in Hr as [_ [= <- _]]. done.
  - by apply reconcile_blocks_lifecycle in Hr.
  - by apply reconcile_protections_lifecycle in Hr.
  - by apply record_batch_lifecycle in Hr.
  - by apply recover_lifecycle in Hr.
  - by apply complete_lifecycle in Hr.
  - by apply prune_lifecycle in Hr.
  - by destruct (release_task _ _ _ _ _ _).
  - by destruct (bind_task_controllers _ _ _ _ _ _).
  - by destruct (release_session_owner _ _ _ _ _ _).
  - by destruct (bind_session_owner_controllers _ _ _ _ _ _).
  - by apply journal_prepare_lifecycle in Ha.
  - by apply journal_complete_lifecycle in Ha.
  - by apply journal_prepare_artifact_lifecycle in Ha.
  - by apply journal_complete_artifact_lifecycle in Ha.
Qed.

(** What an event does to the shared state. The gated operations happen under the lock of
    the status, while the gate is open. *)
Definition daemon_step (d : daemon) (o : obs EngineE) (d' : daemon) : Prop :=
  match o with
  | @Obs _ X ev x =>
      match ev in EngineE X return X → Prop with
      | Call c => λ x, ∃ v, daemon_call c v d = (d', x)
      | Gated _ epoch revision _ => λ x,
          d' = d ∧ (is_Some x → delivers epoch revision (d_control d) = true)
      | _ => λ _, d' = d
      end x
  end.

(** A trace of the engine, or of a worker, interleaved with the steps of other threads on
    the control plane and on the leases. *)
Inductive engine_run : daemon → trace → daemon → Prop :=
| engine_nil d : engine_run d [] d
| engine_other d c' o' tr d' :
    ctl_step (d_control d) c' → engine_run (mkDaemon c' o') tr d' → engine_run d tr d'
| engine_event d o d1 tr d' :
    daemon_step d o d1 → engine_run d1 tr d' → engine_run d (o :: tr) d'.

(** Every update of the status in the trace leaves the authority alone. *)
Definition quiet_trace (tr : trace) : Prop :=
  ∀ pre X (c : DaemonE X) x post, tr = pre ++ Obs (Call c) x :: post → quiet_call c.

Lemma quiet_tail o tr : quiet_trace (o :: tr) → quiet_trace tr.
Proof. intros H pre X c x post ->. by apply (H (o :: pre) X c x post). Qed.

Lemma event_steps d (o : obs EngineE) d' :
  (∀ X (c : DaemonE X) x, o = Obs (Call c) x → quiet_call c) → daemon_step d o d' →
  rtc ctl_step (d_control d) (d_control d').
Proof.
  destruct o as [X ev x]. intros Hq H. destruct ev; simpl in H; try (subst d'; done).
  - by destruct H as [-> _].
  - destruct H as [v H]. pose proof (call_steps e v d (Hq _ _ _ eq_refl)) as Hs. by rewrite H in Hs.
Qed.

(** The run up to an event, the event, and the run after it. *)
Lemma run_split d pre o post d' :
  engine_run d (pre ++ o :: post) d' →
  ∃ d1 d2, engine_run d pre d1 ∧ daemon_step d1 o d2 ∧ engine_run d2 post d'.
Proof.
  intros H. remember (pre ++ o :: post) as tr eqn:E. revert pre E.
  induction H as [d|d c' o' tr d' Hc Hr IH|d o1 d1 tr d' Ho Hr IH]; intros pre E.
  - by destruct pre.
  - destruct (IH pre E) as (d1 & d2 & H1 & H2 & H3). exists d1, d2.
    split; [by eapply engine_other|done].
  - destruct pre as [|o2 pre]; injection E as -> ->.
    + exists d, d1. split; [constructor|done].
    + destruct (IH pre eq_refl) as (da & db & H1 & H2 & H3). exists da, db.
      split; [by eapply engine_event|done].
Qed.

Lemma run_steps d tr d' :
  quiet_trace tr → engine_run d tr d' → rtc ctl_step (d_control d) (d_control d').
Proof.
  intros Hq H. induction H as [d|d c' o' tr d' Hc Hr IH|d o d1 tr d' Ho Hr IH]; [done|..].
  - eapply rtc_l; [exact Hc|]. by apply IH.
  - etransitivity; [eapply event_steps; [|exact Ho]|apply IH; by eapply quiet_tail].
    intros X c x ->. by apply (Hq [] X c x tr).
Qed.

Lemma quiet_prefix pre post : quiet_trace (pre ++ post) → quiet_trace pre.
Proof.
  intros H p X c x q ->. apply (H p X c x (q ++ post)). by rewrite <-(assoc_L (++)).
Qed.

Lemma cycle_quiet e now w tr r : runs (run_cycle_at_until e now w) tr r → quiet_trace tr.
Proof.
  intros Hr pre X c x post Htr. pose proof (cycle_event_ok _ _ _ _ _ _ _ _ _ _ Hr Htr) as H.
  by destruct c.
Qed.

(** ** The worker *)

(** What a worker does: the execution of its cleanup. *)
Definition worker_ok (f : FrozenCleanup) (g : trace) (X : Type) (ev : EngineE X) : Prop :=
  match ev with
  | Gated _ epoch revision op =>
      epoch = frozen_epoch f ∧ revision = frozen_revision f ∧ executor_ok f g op
  | Runtime op => observes op
  | Call c => executing c
  | _ => True
  end.

Lemma worker_allows f g : allows (worker_ok f) g.
Proof. intros g' _. by split_and!. Qed.

Lemma worker_gated f : allows_gated (worker_ok f) f [].
Proof. intros l X c ev _ Hop. by split_and!. Qed.

Lemma worker_safe f activity : safe extend (worker_ok f) [] (worker f activity) (λ _ _, True).
Proof.
  unfold worker. eapply safe_bind_post.
  { apply (execute_quiet (worker_ok f) f true false [] (worker_allows f []) (worker_gated f)). }
  intros g [w [receipt|error]] _; simpl; split_and!; try done; intros; split_and!; try done;
    intros; split_and!; done.
Qed.

Lemma worker_event_ok f activity tr r pre X (ev : EngineE X) x post :
  runs (worker f activity) tr r → tr = pre ++ Obs ev x :: post → worker_ok f pre X ev.
Proof.
  intros Hr ->. destruct (safe_runs _ _ _ _ _ _ _ (worker_safe f activity) Hr) as [Hacc _].
  pose proof (accepts_at _ _ _ _ _ _ _ Hacc eq_refl) as H. by rewrite extend_fold in H.
Qed.

Lemma worker_quiet f activity tr r : runs (worker f activity) tr r → quiet_trace tr.
Proof.
  intros Hr pre X c x post Htr. pose proof (worker_event_ok _ _ _ _ _ _ _ _ _ Hr Htr) as H.
  by destruct c.
Qed.

(** ** Properties *)

(** An operation that was let through, on a daemon booted on a database with any history. *)
Lemma let_through version directory io epochs cycles sequence wall g pid now db m c0 d tr d' pre X
    cancellable epoch revision (ev : CleanupE X) x post :
  lifecycle_history db →
  begin_managed version directory io epochs cycles sequence wall g pid now db m = Ok c0 →
  rtc ctl_step c0 (d_control d) → quiet_trace tr → engine_run d tr d' →
  tr = pre ++ Obs (Gated cancellable epoch revision ev) (Some x) :: post →
  ∃ d1, engine_run d pre d1 ∧ delivers epoch revision (d_control d1) = true ∧
    durably_enforcing epoch (d_control d1).
Proof.
  intros Hh%history_service Hb Hsteps Hq Hrun ->.
  destruct (run_split _ _ _ _ _ Hrun) as (d1 & d2 & H1 & [_ Hd] & _).
  specialize (Hd (ex_intro _ x eq_refl)).
  exists d1. split; [done|]. split; [done|]. apply tracked_epoch.
  - eapply steps_track; [|eapply begin_managed_tracks; [exact Hh|exact Hb]].
    etransitivity; [exact Hsteps|]. eapply run_steps; [|exact H1]. by eapply quiet_prefix.
  - unfold delivers in Hd. apply andb_true_iff in Hd as [[_ Hd]%andb_true_iff _].
    unfold signal_gate_matches in Hd. destruct (bool_decide (enforcement_epoch _ = Some epoch)) eqn:E;
      [by apply bool_decide_eq_true in E|]. by rewrite orb_true_r in Hd.
Qed.

(** [C5] The daemon acts under durable authority. Boot a managed daemon and let its threads
    run: whenever a cycle, or the background worker of a cleanup it dispatched, signals a
    process or removes an artifact, the control plane is at that very moment at the epoch
    and the policy revision the cleanup was dispatched under, and the durable row is the
    enforcing one of this generation, this instance and this epoch. Outside that gate the
    worker only observes. *)
Theorem cleanups_act_durably_armed version directory io epochs cycles sequence wall g pid now db m
    c0 d tr d' pre X cancellable epoch revision (ev : CleanupE X) x post :
  lifecycle_history db →
  begin_managed version directory io epochs cycles sequence wall g pid now db m = Ok c0 →
  rtc ctl_step c0 (d_control d) → engine_run d tr d' →
  tr = pre ++ Obs (Gated cancellable epoch revision ev) (Some x) :: post →
  (∀ e at_ w r, runs (run_cycle_at_until e at_ w) tr r →
     (∃ f start l, pre = start ++ l ∧ dispatched e f start ∧ epoch = frozen_epoch f ∧
        revision = frozen_revision f ∧ executor_ok f l ev) ∧
     ∃ d1, engine_run d pre d1 ∧ delivers epoch revision (d_control d1) = true ∧
       durably_enforcing epoch (d_control d1)) ∧
  (∀ f activity r, runs (worker f activity) tr r →
     (∀ Y (op : CleanupE Y) y, Obs (Runtime op) y ∈ tr → observes op) ∧
     epoch = frozen_epoch f ∧ revision = frozen_revision f ∧ executor_ok f pre ev ∧
     ∃ d1, engine_run d pre d1 ∧ delivers epoch revision (d_control d1) = true ∧
       durably_enforcing epoch (d_control d1)).
Proof.
  intros Hh Hb Hsteps Hrun Htr. split.
  - intros e at_ w r Hr.
    split; [exact (cycle_event_ok _ _ _ _ _ _ _ _ _ _ Hr Htr)|].
    eapply let_through; [exact Hh|exact Hb|exact Hsteps|by eapply cycle_quiet|exact Hrun|exact Htr].
  - intros f activity r Hr.
    split.
    { intros Y op y (p & q & E)%list_elem_of_split. exact (worker_event_ok _ _ _ _ _ _ _ _ _ Hr E). }
    destruct (worker_event_ok _ _ _ _ _ _ _ _ _ Hr Htr) as (-> & -> & Hop).
    do 3 (split; [done|]).
    eapply let_through; [exact Hh|exact Hb|exact Hsteps|by eapply worker_quiet|exact Hrun|exact Htr].
Qed.

(** The status shows a daemon that is shut. *)
Definition is_shut (s : DaemonStatus) : Prop :=
  effective_mode s = ReportOnly ∧ enforcement_epoch s = None ∧ armed_generation s = None ∧
  ready s = false ∧ healthy s = false ∧ startup_state s = StateFailed.

Lemma fail_closed_shut caller io now message c :
  poisoned c = false →
  is_shut (ctl_status (fail_closed caller io now message c).1) ∧
  last_error (ctl_status (fail_closed caller io now message c).1) = Some (bounded_message message).
Proof.
  intros Hp. unfold fail_closed, locked. rewrite Hp. cbv zeta.
  destruct (match _ with Ok _ => _ | Err _ => _ end) as [s1 db1]. simpl.
  split; [|done]. unfold is_shut, effective_mode. simpl.
  destruct (bool_decide _); by split_and!.
Qed.

(** [C7] A failed cycle shuts the daemon. When a cycle that began fails before its end, it
    ends with the roster of the cycle given up and the daemon failed closed with the
    error's text: after that step, unless a thread had panicked with the lock, the
    daemon is in report-only mode, without epoch, neither ready nor healthy, and shows
    the error. When it succeeds, its end was completed by the control plane; when it was
    this end that failed, the error is the control plane's. *)
Theorem failed_cycles_shut_the_daemon e now w tr w' r d d' :
  runs (run_cycle_at_until e now w) tr (w', r) → engine_run d tr d' →
  match r with
  | Ok _ =>
      ∃ token at_ tr0, tr = tr0 ++ [Obs (Call (CompleteCycle at_)) (Ok tt)] ∧ (now ≤ at_)%N ∧
        called tr0 (BeginCycle now) (Ok token) ∧ called tr0 (FinishCycle token true) tt
  | Err error =>
      (∃ failure, tr = [Obs (Call (BeginCycle now)) (Err failure)]) ∨
      (∃ token at_ tr0 answer last d1 d2,
         tr = tr0 ++ [Obs (Call (FailClosed 361 at_ (display_engine_error error))) answer; last] ∧
         (now ≤ at_)%N ∧ called tr0 (FinishCycle token false) tt ∧
         engine_run d tr0 d1 ∧
         daemon_step d1 (Obs (Call (FailClosed 361 at_ (display_engine_error error))) answer) d2 ∧
         (poisoned (d_control d1) = false →
            is_shut (ctl_status (d_control d2)) ∧
            last_error (ctl_status (d_control d2)) =
              Some (bounded_message (display_engine_error error)))) ∨
      (∃ token failure, error = EngineControl failure ∧ called tr (FinishCycle token true) tt)
  end.
Proof.
  intros Hr Hrun. unfold run_cycle_at_until, engine_bind, control_call, engine_bind, event in Hr.
  simpl in Hr. destruct Hr as ([token|failure] & tr1 & -> & Hr).
  2: { simpl in Hr. destruct Hr as [-> [= -> ->]]. left. by exists failure. }
  simpl in Hr. apply runs_bind_inv in Hr as (tr2 & tr3 & [w2 r2] & -> & Hinner & Hend).
  simpl in Hend. destruct r2 as [report|error]; simpl in Hend.
  - destruct Hend as (clock & t1 & -> & ([] & t2 & -> & (u & t3 & -> & Hend))).
    set (at_ := terminal_timestamp clock now) in *.
    assert (now ≤ at_)%N as Hat by (unfold at_, terminal_timestamp; lia).
    destruct u as [[]|failure]; simpl in Hend.
    2: { destruct Hend as [-> [= -> ->]]. right; right. exists token, failure. split; [done|]. unfold called, answered. set_solver. }
    destruct Hend as ([[]|failure] & t4 & -> & Hend); simpl in Hend.
    2: { destruct Hend as [-> [= -> ->]]. right; right. exists token, failure. split; [done|]. unfold called, answered. set_solver. }
    destruct Hend as [-> [= -> ->]].
    eexists token, at_, (_ :: tr2 ++ [_; _; _]). split; [simpl; rewrite <-(assoc_L (++)); reflexivity|].
    split; [done|]. split; unfold called, answered; set_solver.
  - destruct Hend as (clock & t1 & -> & ([] & t2 & -> & (answer & t3 & -> & (u & t4 & -> & Hend)))).
    destruct Hend as [-> [= -> ->]]. right; left.
    set (at_ := terminal_timestamp clock now) in *.
    assert (now ≤ at_)%N as Hat by (unfold at_, terminal_timestamp; lia).
    set (failed := Obs (Call (FailClosed 361 at_ (display_engine_error error))) answer) in *.
    match type of Hrun with engine_run _ (?b :: tr2 ++ [?c; ?f; _; ?l]) _ =>
      assert (engine_run d ((b :: tr2 ++ [c; f]) ++ failed :: [l]) d') as Hrun'
        by (simpl; rewrite <-(assoc_L (++)); exact Hrun);
      destruct (run_split _ _ _ _ _ Hrun') as (d1 & d2 & H1 & H2 & _);
      exists token, at_, (b :: tr2 ++ [c; f]), answer, l, d1, d2
    end.
    split; [simpl; rewrite <-(assoc_L (++)); reflexivity|]. split; [done|].
    split; [unfold called, answered; set_solver|]. split; [done|]. split; [done|].
    intros Hp. destruct H2 as [v H2]. cbn [daemon_call] in H2. cbv zeta in H2.
    apply (f_equal fst) in H2. simpl in H2. subst d2. by apply fail_closed_shut.
Qed.
End Steps.
