(* ===== verification/EngineExamples.v ===== *)
(** EngineExamples: cycles of the engine on a concrete world.

    The world is the machine of [ExecutorGuarantees.v], with a clock that only waits
    advance, and the armed daemon of [ControlExamples.v]. *)

From S2P Require Import Prelude Text Model Fingerprint Task Artifact Graph Evidence Cleanup.
From S2P Require Import Effects Executor ExecutorSafety ExecutorGuarantees Pack Matching Candidates.
From S2P Require Import Classify Analyzer Decisions Cooling Names Store Journal Lifecycle.
From S2P Require Import LifecycleFacts Residue Protocol Mutations Observations Views Maintenance.
From S2P Require Import Control ControlFacts ControlSafety Owners DurableExamples MutationExamples.
From S2P Require Import ControlExamples System OwnersExamples Engine EngineFacts EngineRun.

(** ** The world *)

Record world : Type := mkWorld {
  w_machine : machine;
  w_daemon : daemon;
  w_millis : N;
  w_calls : Z;
}.

Definition world_clock (w : world) : ClockSample :=
  mkClockSample (1000000 + w_millis w) (w_millis w) "boot".

(** What a call meets: no failure, fresh texts. *)
Definition world_env (w : world) : call_env :=
  mkCallEnv no_fault (λ event, pretty (10 ^ 31 + 1000 * w_calls w + event)%Z) example_namespace
    (w_millis w * 1000000).

Definition world_runtime {X} (e : CleanupE X) (w : world) : world * X :=
  match e in CleanupE X return world * X with
  | SampleClock => (w, Ok (world_clock w))
  | WaitUntil d => (w <| w_millis ::= N.add (nanos d / 1000000) |>, Ok DeadlineReached)
  | e => let '(m, x) := machine_handle _ e (w_machine w) in (w <| w_machine := m |>, x)
  end.

Definition world_handle (X : Type) (e : EngineE X) (w : world) : world * X :=
  match e in EngineE X return world * X with
  | Runtime e => world_runtime e w
  | Gated _ epoch revision e =>
      if delivers epoch revision (d_control (w_daemon w))
      then let '(w, x) := world_runtime e w in (w, Some x)
      else (w, None)
  | Call c =>
      let '(d, x) := daemon_call c (world_env w) (w_daemon w) in
      (w <| w_daemon := d |> <| w_calls ::= Z.succ |>, x)
  | StopRequested => (w, false)
  | CancelRequested => (w, false)
  | Spawn _ _ => (w, Ok tt)
  | CancelWorker => (w, tt)
  | WorkerFinished => (w, true)
  | JoinWorker => (w, None)
  end.

Lemma world_runtime_daemon {X} (e : CleanupE X) w : w_daemon (world_runtime e w).1 = w_daemon w.
Proof. destruct e; try done; simpl; by repeat case_match. Qed.

Lemma world_step {X} (e : EngineE X) w :
  daemon_step (w_daemon w) (Obs e (world_handle X e w).2) (w_daemon (world_handle X e w).1).
Proof.
  destruct e as [X e|X cancellable epoch revision e|X c| | | | | |]; try done; simpl.
  - apply world_runtime_daemon.
  - destruct (delivers _ _ _) eqn:H; [|by split; [|intros []]].
    pose proof (world_runtime_daemon e w) as Hw. destruct (world_runtime e w) as [w' x].
    by split.
  - exists (world_env w). by destruct (daemon_call c (world_env w) (w_daemon w)).
Qed.

(** A run of the world is a run of its daemon. *)
Lemma world_runs {A} (p : prog EngineE A) w :
  engine_run (w_daemon w) (run world_handle p w).1.2 (w_daemon (run world_handle p w).1.1).
Proof.
  revert w. induction p as [a|X e k IH]; intros w; simpl; [constructor|].
  pose proof (world_step e w) as Hs. destruct (world_handle X e w) as [w' x]. simpl in Hs.
  specialize (IH x w'). destruct (run world_handle (k x) w') as [[w'' tr] a]. simpl in *.
  by eapply engine_event.
Qed.

(** ** A cycle *)

Definition quick_engine : ReconciliationEngine :=
  mkReconciliationEngine (mkRuleSet embedded_packs)
    (default_config <| abandonment_grace := from_secs 10 |>) (Some 999%N) false.

Definition armed_world : world := mkWorld orphan_machine (mkDaemon armed new_ownership) 200 0.

Definition orphan_cycle : world * trace * (option N * result CycleReport EngineError) :=
  run world_handle (run_cycle_at_until quick_engine 1000200 None) armed_world.

Definition cycle_trace : trace := orphan_cycle.1.2.

Definition gated_deliveries (tr : trace) : list (N * CleanupSignal) :=
  deliveries (flat_map seen_event tr).

Lemma cycle_runs : runs (run_cycle_at_until quick_engine 1000200 None) cycle_trace orphan_cycle.2.
Proof. apply run_runs. Qed.

(** What a [BeginAttempt] of the trace is for. *)
Definition begun (o : obs EngineE) : option (IncidentReport * result (option CleanupAttemptHandle) ControlError) :=
  match o with
  | @Obs _ _ (Call c) x =>
      match c in DaemonE X return X → option (IncidentReport * result (option CleanupAttemptHandle) ControlError) with
      | BeginAttempt _ report _ _ => λ x, Some (report, x)
      | _ => λ _, None
      end x
  | _ => None
  end.

Definition begun_cleanup : IncidentReport * result (option CleanupAttemptHandle) ControlError :=
  default (witness_report, Ok None) (cycle_trace !! 27 ≫= begun).

Lemma cycle_begins :
  cycle_trace = take 27 cycle_trace ++
    Obs (Call (BeginAttempt 1000200 begun_cleanup.1 first_epoch 1)) begun_cleanup.2 ::
      drop 28 cycle_trace.
Proof. apply split_at. vm_compute. reflexivity. Qed.

Lemma cycle_signals :
  cycle_trace = take 41 cycle_trace ++
    Obs (Gated false first_epoch 1 (SignalExact (identity orphan_browser) Term)) (Some Delivered) ::
      drop 42 cycle_trace.
Proof. apply split_at. vm_compute. reflexivity. Qed.

Example cycle_clears :
  gated_deliveries cycle_trace = [(10%N, Term); (11%N, Term); (11%N, Kill)] ∧
  match orphan_cycle.2.2 with
  | Ok r => state <$> incidents r = [Confirmed] ∧ receipt_state <$> cleanup_receipts r = [Cleared]
  | Err _ => False
  end.
Proof. vm_compute. done. Qed.

Lemma cycles_clean_confirmed_incidents_witness :
  ∃ a, begin_ok quick_engine a (take 27 cycle_trace) 1000200 begun_cleanup.1 first_epoch 1.
Proof.
  exact (proj1 (cycles_clean_confirmed_incidents _ _ _ _ _ cycle_runs) _ _ _ _ _ _ _ cycle_begins).
Defined.

Lemma cycles_signal_confirmed_orphans_witness :
  ∃ snap q, last (omap taken (take 41 cycle_trace)) = Some snap ∧ q ∈ processes snap ∧
    exact_match (identity orphan_browser) (identity q) = true ∧ uid q = current_uid snap ∧
    uid q ≠ 0%N ∧ has_complete_classification_facts q = true ∧
    engine_self_pid quick_engine ≠ Some (process_pid q).
Proof.
  destruct (cycles_signal_confirmed_orphans _ _ _ _ _ _ _ _ _ _ _ _ _ cycle_runs cycle_signals)
    as (a & s1 & s2 & first & second & keys & member & p & _ & _ & _ & H).
  exact H.
Defined.

Lemma one_cleanup_at_a_time_witness : worker_live false (take 27 cycle_trace) = false.
Proof.
  exact (proj1 (one_cleanup_at_a_time _ _ _ _ _ cycle_runs) _ _ _ _ _ _ _ cycle_begins).
Defined.

Lemma cleanups_act_durably_armed_witness :
  ∃ d1, engine_run (w_daemon armed_world) (take 41 cycle_trace) d1 ∧
    delivers first_epoch 1 (d_control d1) = true ∧ durably_enforcing first_epoch (d_control d1).
Proof.
  refine (proj2 (proj1 (cleanups_act_durably_armed "1.0" "/state" no_fault 1 1 1 7 1 42 100 _
    new_maintenance booted (w_daemon armed_world) cycle_trace (w_daemon orphan_cycle.1.1)
    _ _ _ _ _ _ _ _
    (history_new example_namespace) boots boot_arms (world_runs _ armed_world) cycle_signals)
    _ _ _ _ cycle_runs)).
Defined.

(** ** A cycle that fails, and one that finds an owner absent *)

Definition broken_engine : ReconciliationEngine :=
  mkReconciliationEngine (mkRuleSet embedded_packs)
    (default_config <| abandonment_grace := mkDuration (2 ^ 200) |>) (Some 999%N) false.

Definition broken_cycle : world * trace * (option N * result CycleReport EngineError) :=
  run world_handle (run_cycle_at_until broken_engine 1000200 None) armed_world.

Definition leased_cycle : world * trace * (option N * result CycleReport EngineError) :=
  run world_handle (run_cycle_at_until quick_engine 1000200 None)
    (armed_world <| w_daemon := mkDaemon armed leases_active |>).

Definition duration_overflow : EngineError :=
  EngineConfigError "duration overflowed u64 milliseconds".

Lemma broken_runs :
  runs (run_cycle_at_until broken_engine 1000200 None) broken_cycle.1.2
    (None, Err duration_overflow).
Proof.
  replace (None, Err duration_overflow) with broken_cycle.2 by (vm_compute; reflexivity).
  apply run_runs.
Qed.

Lemma failed_cycles_shut_the_daemon_witness :
  ∃ at_ tr0 answer last d1 d2,
    broken_cycle.1.2 =
      tr0 ++ [Obs (Call (FailClosed 361 at_ (display_engine_error duration_overflow))) answer; last] ∧
    daemon_step d1 (Obs (Call (FailClosed 361 at_ (display_engine_error duration_overflow))) answer) d2 ∧
    (poisoned (d_control d1) = false →
       is_shut (ctl_status (d_control d2)) ∧
       last_error (ctl_status (d_control d2)) =
         Some "engine configuration failed: duration overflowed u64 milliseconds").
Proof.
  destruct (failed_cycles_shut_the_daemon _ _ _ _ _ _ _ _ broken_runs (world_runs _ armed_world))
    as [(failure & H)|[H|(token & failure & H & _)]].
  - apply (f_equal length) in H. vm_compute in H. discriminate H.
  - destruct H as (token & at_ & tr0 & answer & last & d1 & d2 & H & _ & _ & _ & Hd & Hs).
    exists at_, tr0, answer, last, d1, d2. split; [exact H|]. split; [exact Hd|].
    intros Hp. destruct (Hs Hp) as [Hshut Herr]. split; [exact Hshut|].
    rewrite Herr. vm_compute. reflexivity.
  - discriminate H.
Defined.

Lemma leased_runs :
  runs (run_cycle_at_until quick_engine 1000200 None) leased_cycle.1.2 leased_cycle.2.
Proof. apply run_runs. Qed.

Lemma lease_released :
  leased_cycle.1.2 = take 7 leased_cycle.1.2 ++
    Obs (Call (ReleaseTask example_task 1000200 "owner_disappeared" (Some child_owner))) (Ok tt) ::
      drop 8 leased_cycle.1.2.
Proof. apply split_at. vm_compute. reflexivity. Qed.

Lemma absent_owners_are_released_witness :
  ∃ scopes scope, called (take 7 leased_cycle.1.2) TaskScopes (Ok scopes) ∧ scope ∈ scopes ∧
    scope_task_id scope = example_task ∧ gr_owner (scope_granted scope) = Some child_owner ∧
    absent_owner (scope_granted scope) (take 7 leased_cycle.1.2).
Proof.
  exact (proj1 (absent_owners_are_released _ _ _ _ _ leased_runs) _ _ _ _ _ _ _ lease_released).
Defined.
