(* ===== verification/Scheduler.v ===== *)
(** Scheduler: when the daemon reconciles, [unlinger-daemon/src/scheduler.rs], with the
    events of [unlinger-macos/src/events.rs].

    The scheduler is a program over the monotonic clock, the two questions its caller gives
    it and the native event source. An [Instant] and a [Duration] are nanoseconds. *)

From S2P Require Import Prelude Text Model Artifact Evidence Cleanup Cooling Names Store Effects.

(** ** Data *)

Inductive MemoryPressureLevel : Type := PressureWarning | PressureCritical.

Inductive RuntimeEvent : Type :=
| ProcessExited (pid : N)
| SystemWake
| MemoryPressure (level : MemoryPressureLevel).

Inductive EventMonitorError : Type :=
| MonitorNative (message : string)
| MonitorStopped.

(** [EventMonitorError] as text. *)
Definition display_monitor_error (e : EventMonitorError) : string :=
  match e with
  | MonitorNative message => "native event monitor failed: " +:+ message
  | MonitorStopped => "native event monitor stopped"
  end.

Inductive ReconcileTrigger : Type :=
| TriggerPeriodic
| TriggerRuntime (event : RuntimeEvent)
| TriggerProcessCleanupCompleted
| TriggerSourceFailed
| TriggerStopRequested.

(** The source is the environment's; [has_source] says that it is still held. *)
Record ReconciliationScheduler : Type := mkReconciliationScheduler {
  has_source : bool;
  source_error : option string;
  periodic_interval : N;
  periodic_deadline : N;
}.

(** [STOP_POLL_INTERVAL], 100 ms. *)
Definition STOP_POLL_INTERVAL : N := 100 * 1000000.

Inductive SchedulerE : Type → Type :=
| MonotonicNow : SchedulerE N
| StopAsked : SchedulerE bool
| CleanupFinished : SchedulerE bool
| SleepFor (timeout : N) : SchedulerE unit
| StartSource : SchedulerE (result unit EventMonitorError)
| WaitSource (timeout : N) : SchedulerE (result (option RuntimeEvent) EventMonitorError)
| ReplaceWatches (pids : gset N) : SchedulerE (result unit EventMonitorError).

(** ** Operations *)

(** [ReconciliationScheduler::new]. *)
Definition new_scheduler (source : bool) (interval : N) (error : option string) :
    prog SchedulerE ReconciliationScheduler :=
  do* now := trigger MonotonicNow in
  Ret (mkReconciliationScheduler source error interval (now + interval)%N).

(** [ReconciliationScheduler::start]. *)
Definition start_scheduler (interval : N) : prog SchedulerE ReconciliationScheduler :=
  do* started := trigger StartSource in
  match started with
  | Ok _ => new_scheduler true interval None
  | Err e => new_scheduler false interval (Some (display_monitor_error e))
  end.

(** The source is dropped with its error. *)
Definition drop_source (e : EventMonitorError) (s : ReconciliationScheduler) :
    ReconciliationScheduler :=
  s <| source_error := Some (display_monitor_error e) |> <| has_source := false |>.

(** [ReconciliationScheduler::complete_cycle]. *)
Definition complete_cycle (watches : gset N) (s : ReconciliationScheduler) :
    prog SchedulerE ReconciliationScheduler :=
  do* now := trigger MonotonicNow in
  let s := s <| periodic_deadline := (now + periodic_interval s)%N |> in
  if has_source s then
    do* replaced := trigger (ReplaceWatches watches) in
    Ret (match replaced with Ok _ => s | Err e => drop_source e s end)
  else Ret s.

(** [ReconciliationScheduler::cycle_failed]. *)
Definition cycle_failed (s : ReconciliationScheduler) : prog SchedulerE ReconciliationScheduler :=
  do* now := trigger MonotonicNow in
  Ret (s <| periodic_deadline := (now + periodic_interval s)%N |>).

(** How long an iteration waits at most. *)
Definition wait_limit (now : N) (s : ReconciliationScheduler) : N :=
  N.min (periodic_deadline s - now)%N STOP_POLL_INTERVAL.

(** What an iteration of [wait_for_trigger] ends with: a trigger, or the next iteration. *)
Definition wait_once (s : ReconciliationScheduler) :
    prog SchedulerE (ReconciliationScheduler * option ReconcileTrigger) :=
  do* stop := trigger StopAsked in
  if stop : bool then Ret (s, Some TriggerStopRequested) else
  do* finished := trigger CleanupFinished in
  if finished : bool then Ret (s, Some TriggerProcessCleanupCompleted) else
  do* now := trigger MonotonicNow in
  if bool_decide (periodic_deadline s ≤ now)%N then Ret (s, Some TriggerPeriodic) else
  let timeout := wait_limit now s in
  if has_source s then
    do* event := trigger (WaitSource timeout) in
    match event with
    | Ok (Some event) => Ret (s, Some (TriggerRuntime event))
    | Ok None => Ret (s, None)
    | Err e => Ret (drop_source e s, Some TriggerSourceFailed)
    end
  else
    do* _ := trigger (SleepFor timeout) in
    Ret (s, None).

(** [ReconciliationScheduler::wait_for_trigger]; without fuel it is still waiting. *)
Fixpoint wait_for_trigger (fuel : nat) (s : ReconciliationScheduler) :
    prog SchedulerE (ReconciliationScheduler * option ReconcileTrigger) :=
  match fuel with
  | O => Ret (s, None)
  | S fuel =>
      do* r := wait_once s in
      match r.2 with
      | Some _ => Ret r
      | None => wait_for_trigger fuel r.1
      end
  end.

(** [ReconciliationScheduler::take_source_error]. *)
Definition take_source_error (s : ReconciliationScheduler) :
    ReconciliationScheduler * option string :=
  (s <| source_error := None |>, source_error s).

(** ** Time *)

(** The clock does not go back, and a wait without an event lasts its timeout. *)
Fixpoint time_passes (since : N) (tr : list (obs SchedulerE)) : Prop :=
  match tr with
  | [] => True
  | @Obs _ X e x :: tr =>
      match e in SchedulerE X return X → Prop with
      | MonotonicNow => λ now, (since ≤ now)%N ∧ time_passes now tr
      | SleepFor timeout => λ _, time_passes (since + timeout) tr
      | WaitSource timeout => λ r,
          match r with
          | Ok None => time_passes (since + timeout) tr
          | _ => time_passes since tr
          end
      | _ => λ _, time_passes since tr
      end x
  end.

(** Neither question was answered yes, and the clock was read before the deadline. *)
Definition asked (now : N) (last : obs SchedulerE) : list (obs SchedulerE) :=
  [Obs StopAsked false; Obs CleanupFinished false; Obs MonotonicNow now; last].

(** An iteration without a trigger: a short wait without an event. *)
Definition idle_round (s : ReconciliationScheduler) (round : list (obs SchedulerE)) : Prop :=
  ∃ now, (now < periodic_deadline s)%N ∧
    (has_source s = false ∧ round = asked now (Obs (SleepFor (wait_limit now s)) tt) ∨
     has_source s = true ∧ round = asked now (Obs (WaitSource (wait_limit now s)) (Ok None))).

(** The iteration that triggers, and the scheduler after it. *)
Definition final_round (s s' : ReconciliationScheduler) (t : ReconcileTrigger)
    (round : list (obs SchedulerE)) : Prop :=
  match t with
  | TriggerStopRequested => round = [Obs StopAsked true] ∧ s' = s
  | TriggerProcessCleanupCompleted =>
      round = [Obs StopAsked false; Obs CleanupFinished true] ∧ s' = s
  | TriggerPeriodic => s' = s ∧ ∃ now, (periodic_deadline s ≤ now)%N ∧
      round = [Obs StopAsked false; Obs CleanupFinished false; Obs MonotonicNow now]
  | TriggerRuntime event => s' = s ∧ has_source s = true ∧ ∃ now, (now < periodic_deadline s)%N ∧
      round = asked now (Obs (WaitSource (wait_limit now s)) (Ok (Some event)))
  | TriggerSourceFailed => has_source s = true ∧ ∃ now e, (now < periodic_deadline s)%N ∧
      s' = drop_source e s ∧ round = asked now (Obs (WaitSource (wait_limit now s)) (Err e))
  end.

Lemma wait_once_runs s tr s' r :
  runs (wait_once s) tr (s', r) →
  match r with
  | Some t => final_round s s' t tr
  | None => s' = s ∧ idle_round s tr
  end.
Proof.
  unfold wait_once. simpl. intros (stop & t1 & -> & H). destruct stop; simpl in H.
  { by destruct H as [-> [= -> ->]]. }
  destruct H as (finished & t2 & -> & H). destruct finished; simpl in H.
  { by destruct H as [-> [= -> ->]]. }
  destruct H as (now & t3 & -> & H). case_bool_decide as Hdue; simpl in H.
  { destruct H as [-> [= -> ->]]. split; [done|]. by exists now. }
  assert (now < periodic_deadline s)%N as Hnow by lia.
  destruct (has_source s) eqn:Hsrc; simpl in H.
  - destruct H as ([[event|]|e] & t4 & -> & H); simpl in H; destruct H as [-> [= -> ->]].
    + split; [done|]. split; [done|]. by exists now.
    + split; [done|]. exists now. split; [done|]. by right.
    + split; [done|]. by exists now, e.
  - destruct H as ([] & t4 & -> & [-> [= -> ->]]). split; [done|]. exists now.
    split; [done|]. by left.
Qed.

(** The wait: idle iterations, and then the one that triggers. *)
Lemma wait_runs fuel s tr s' r :
  runs (wait_for_trigger fuel s) tr (s', r) →
  ∃ rounds last, tr = concat rounds ++ last ∧ Forall (idle_round s) rounds ∧
    match r with
    | Some t => final_round s s' t last ∧ length rounds < fuel
    | None => last = [] ∧ s' = s ∧ length rounds = fuel
    end.
Proof.
  revert tr. induction fuel as [|fuel IH]; intros tr.
  { intros [-> [= -> ->]]. by exists [], []. }
  cbn [wait_for_trigger]. intros (t1 & t2 & [s1 r1] & -> & H1%wait_once_runs & H2)%runs_bind_inv.
  destruct r1 as [t|]; simpl in H2.
  - destruct H2 as [-> [= -> ->]]. exists [], t1. rewrite app_nil_r.
    split; [done|]. split; [constructor|]. split; [done|]. simpl. lia.
  - destruct H1 as [-> Hr]. destruct (IH _ H2) as (rounds & last & -> & Hall & Hend).
    exists (t1 :: rounds), last. split; [simpl; by rewrite (assoc_L (++))|]. split; [by constructor|].
    destruct r as [t|]; [destruct Hend as [? ?]; split; [done|simpl; lia]|].
    destruct Hend as (-> & -> & Hn). simpl. auto.
Qed.

(** What is left of the trace of an idle iteration, in time. *)
Lemma idle_round_time s round tail since :
  idle_round s round → time_passes since (round ++ tail) →
  (since < periodic_deadline s)%N ∧
  ∃ since', time_passes since' tail ∧
    (N.min (periodic_deadline s) (since + STOP_POLL_INTERVAL) ≤ since')%N.
Proof.
  intros (now & Hnow & Hround) Ht.
  assert ((since ≤ now)%N ∧ time_passes (now + wait_limit now s) tail) as [Hle Htail]
    by (destruct Hround as [[_ ->]|[_ ->]]; exact Ht).
  split; [lia|]. exists (now + wait_limit now s)%N. split; [done|]. unfold wait_limit. lia.
Qed.

(** Every idle iteration but the last one lasts the poll interval. *)
Lemma idle_rounds_bounded s rounds tail since :
  Forall (idle_round s) rounds → time_passes since (concat rounds ++ tail) →
  rounds = [] ∨
  (since + N.of_nat (pred (length rounds)) * STOP_POLL_INTERVAL < periodic_deadline s)%N.
Proof.
  intros Hall. revert since. induction Hall as [|round rounds Hr Hall IH]; intros since Ht; [by left|].
  right. simpl in Ht. rewrite <-(assoc_L (++)) in Ht.
  destruct (idle_round_time _ _ _ _ Hr Ht) as (Hlt & since' & Ht' & Hle).
  destruct rounds as [|round' rounds]; [simpl; lia|].
  destruct (IH since' Ht') as [?|Hb]; [done|].
  cbn [length pred] in *. rewrite Nat2N.inj_succ. nia.
Qed.

(** Enough iterations for a wait that starts at the time. *)
Definition enough_fuel (s : ReconciliationScheduler) (since : N) : nat :=
  N.to_nat ((periodic_deadline s - since) / STOP_POLL_INTERVAL + 2).

Lemma enough_fuel_pos s since : 0 < enough_fuel s since.
Proof. unfold enough_fuel. generalize ((periodic_deadline s - since) / STOP_POLL_INTERVAL)%N. lia. Qed.

Lemma rounds_enough s n since :
  (since + N.of_nat (pred n) * STOP_POLL_INTERVAL < periodic_deadline s)%N →
  n < enough_fuel s since.
Proof.
  unfold enough_fuel. intros H.
  assert (N.of_nat (pred n) ≤ (periodic_deadline s - since) / STOP_POLL_INTERVAL)%N as Hq.
  2: { revert Hq. generalize ((periodic_deadline s - since) / STOP_POLL_INTERVAL)%N. clear. lia. }
  apply N.div_le_lower_bound; [done|]. lia.
Qed.

(** Reconciliation is never put off. In whatever environment whose clock runs, and
    whatever its native event source does, the wait ends with a trigger after as many
    iterations as poll intervals fit before the deadline, and two. Until then no iteration
    waits longer than the poll interval or past the deadline, and each one asks first
    whether to stop and then whether the cleanup has finished; the trigger is the last
    answer. A source that fails is dropped with its error, and the deadline remains. *)
Theorem waits_end_at_the_deadline fuel since s tr s' r :
  runs (wait_for_trigger fuel s) tr (s', r) → time_passes since tr → enough_fuel s since ≤ fuel →
  ∃ t rounds last, r = Some t ∧ tr = concat rounds ++ last ∧
    Forall (idle_round s) rounds ∧ final_round s s' t last ∧
    periodic_deadline s' = periodic_deadline s ∧
    (has_source s = false → has_source s' = false ∧ t ≠ TriggerSourceFailed).
Proof.
  intros Hr Ht Hfuel. destruct (wait_runs _ _ _ _ _ Hr) as (rounds & last & -> & Hall & Hend).
  assert (length rounds < enough_fuel s since) as Hn.
  { destruct (idle_rounds_bounded _ _ _ _ Hall Ht) as [->|Hb]; [apply enough_fuel_pos|].
    by apply rounds_enough. }
  destruct r as [t|]; [|destruct Hend as (_ & _ & Hlen); lia].
  destruct Hend as [Hf _]. exists t, rounds, last.
  assert (s' = s ∨ ∃ e, s' = drop_source e s ∧ has_source s = true) as Hs'.
  { destruct t; simpl in Hf; try (left; tauto).
    destruct Hf as (? & now & e & _ & ? & _). right. by exists e. }
  do 4 (split; [done|]). split.
  - by destruct Hs' as [->|(e & -> & _)].
  - intros Hsrc. split; [destruct Hs' as [->|(e & -> & _)]; done|].
    intros ->. destruct Hf as [Hf _]. congruence.
Qed.

(** ** A wait without a source *)

(** A clock that only waits advance. *)
Definition patient_handle (X : Type) (e : SchedulerE X) (now : N) : N * X :=
  match e in SchedulerE X return N * X with
  | MonotonicNow => (now, now)
  | StopAsked | CleanupFinished => (now, false)
  | SleepFor timeout => (now + timeout, tt)%N
  | StartSource => (now, Err MonitorStopped)
  | WaitSource timeout => (now + timeout, Ok None)%N
  | ReplaceWatches _ => (now, Ok tt)
  end.

Definition quiet_scheduler : ReconciliationScheduler :=
  mkReconciliationScheduler true None 250000000 250000000.

Definition quiet_wait : N * list (obs SchedulerE) * (ReconciliationScheduler * option ReconcileTrigger) :=
  run patient_handle (wait_for_trigger 4 quiet_scheduler) 0%N.

Lemma waits_end_at_the_deadline_witness :
  enough_fuel quiet_scheduler 0 = 4 ∧
  ∃ t rounds last, quiet_wait.2.2 = Some t ∧ quiet_wait.1.2 = concat rounds ++ last ∧
    Forall (idle_round quiet_scheduler) rounds ∧
    final_round quiet_scheduler quiet_wait.2.1 t last ∧ t = TriggerPeriodic.
Proof.
  split; [vm_compute; reflexivity|].
  destruct (waits_end_at_the_deadline 4 0 quiet_scheduler quiet_wait.1.2 quiet_wait.2.1 quiet_wait.2.2)
    as (t & rounds & last & Hr & Htr & Hall & Hf & _).
  - rewrite <-surjective_pairing. apply run_runs.
  - vm_compute. repeat split; discriminate.
  - vm_compute. lia.
  - exists t, rounds, last. do 4 (split; [assumption|]).
    vm_compute in Hr. congruence.
Defined.
