(* ===== verification/Clones.v ===== *)
(** Clones: Chrome's code-sign clones, [unlinger-macos/src/storage_residue.rs].

    Chrome leaves clones of its bundle in a directory of the user's temporary tree. The
    module scans that directory, keeps the private identities of the clones it saw, and
    removes those that two scans saw and no process uses, relative to open descriptors.

    The file system and the caller are the environment: every system call is an event of
    [CloneE], and so are the caller's cancellation probe and its callback, which decides
    whether the removal runs. *)

From S2P Require Import Prelude Text Model Artifact Evidence Cleanup Cooling Names Store.
From S2P Require Import Effects Executor Residue.
From Stdlib Require Import Ascii.

(** ** System calls *)

Inductive io_error : Type :=
| NotFound
| OtherError (message : string).

#[export] Instance io_error_eq_dec : EqDecision io_error.
Proof. solve_decision. Defined.

Inductive node_kind : Type := DirectoryNode | RegularNode | SymlinkNode | OtherNode.

#[export] Instance node_kind_eq_dec : EqDecision node_kind.
Proof. solve_decision. Defined.

(** [stat] and [Metadata]. *)
Record file_stat : Type := mkFileStat {
  st_kind : node_kind;
  st_uid : N;
  st_dev : N;
  st_ino : N;
  st_size : Z;
}.

(** An open file. *)
Abbreviation descriptor := N.

(** The calls follow no symbolic link: [Lstat] is [symlink_metadata], [OpenRoot] opens with
    [O_DIRECTORY | O_NOFOLLOW], [OpenAt] is [openat] with the same flags, [FstatAt] has
    [AT_SYMLINK_NOFOLLOW]; the flag of [UnlinkAt] is [AT_REMOVEDIR]. [ReadEntries] reads
    all the entries of a directory from its start. [CancelAsked] is the caller's probe;
    [RunCleanup] asks its callback, which runs the removal at once or not at all. *)
Inductive CloneE : Type → Type :=
| TempDir : CloneE string
| Lstat (path : string) : CloneE (result file_stat io_error)
| Canonicalize (path : string) : CloneE (result string io_error)
| OpenRoot (path : string) : CloneE (result descriptor io_error)
| ReadEntries (d : descriptor) : CloneE (result (list string) io_error)
| OpenAt (d : descriptor) (name : string) : CloneE (result descriptor io_error)
| Fstat (d : descriptor) : CloneE (result file_stat io_error)
| FstatAt (d : descriptor) (name : string) : CloneE (result file_stat io_error)
| UnlinkAt (d : descriptor) (name : string) (directory : bool) : CloneE (result unit io_error)
| CancelAsked : CloneE bool
| RunCleanup (facts : StorageCleanupAttemptFacts) : CloneE bool.

Abbreviation cloning A := (prog CloneE A).

(** ** Data *)

Definition CLONE_ROOT_NAME : string := "com.google.Chrome.code_sign_clone".

Definition CLONE_PREFIX : string := "code_sign_clone.".

Definition CHROME_BUNDLE_ID : string := "com.google.Chrome".

Definition CHROME_HELPER_BUNDLE_ID_PREFIX : string := "com.google.Chrome.helper".

Definition CLONE_CLEANUP_TYPE_ARGUMENT : string := "--type=code-sign-clone-cleanup".

Definition CLONE_CLEANUP_SUFFIX_ARGUMENT_PREFIX : string := "--unique-temp-dir-suffix=".

Inductive ChromeCloneCleanupMode : Type := CloneReportOnly | CloneEnforce | CloneLifecycleBlocked.

#[export] Instance clone_mode_eq_dec : EqDecision ChromeCloneCleanupMode.
Proof. solve_decision. Defined.

Record ChromeCloneReconciliation : Type := mkChromeCloneReconciliation {
  clone_observation : StorageResidueObservation;
  clone_cleanup : option StorageCleanupResultFacts;
}.

Record CloneCandidateIdentity : Type := mkCloneCandidateIdentity {
  clone_name : string;
  clone_device : N;
  clone_inode : N;
}.

#[export] Instance clone_identity_eq_dec : EqDecision CloneCandidateIdentity.
Proof. solve_decision. Defined.

Record CloneCandidate : Type := mkCloneCandidate {
  clone_identity : CloneCandidateIdentity;
  clone_directory : descriptor;
}.

Record CloneScan : Type := mkCloneScan {
  scan_observation : StorageResidueObservation;
  scan_root : option descriptor;
  scan_candidates : list CloneCandidate;
}.

(** [CloneScan::identities]. *)
Definition identities (s : CloneScan) : list CloneCandidateIdentity :=
  clone_identity <$> scan_candidates s.

(** [scan_from_observation]. *)
Definition scan_from_observation (o : StorageResidueObservation) : CloneScan := mkCloneScan o None [].

(** [unavailable]. *)
Definition unavailable (observed_at : N) (reason : string) : StorageResidueObservation :=
  mkStorageResidueObservation ChromeCodeSignClone ResidueUnavailable observed_at 0 0 false Incomplete
    false [reason].

(** [valid_clone_suffix] and [valid_clone_name]. *)
Definition valid_clone_suffix (suffix : string) : bool :=
  bool_decide (String.length suffix = 6) && all_bytes is_ascii_alphanumeric suffix.

Definition valid_clone_name (name : string) : bool :=
  match strip_prefix CLONE_PREFIX name with
  | Some suffix => valid_clone_suffix suffix
  | None => false
  end.

(** [CStr::to_str]. *)
Definition to_str (name : string) : option string := if utf8_valid name then Some name else None.

(** [CloneCandidateIdentity::suffix]. *)
Definition clone_suffix (c : CloneCandidateIdentity) : option string :=
  to_str (clone_name c) ≫= strip_prefix CLONE_PREFIX.

(** ** The processes that use a clone *)

Inductive ProcessGate : Type := GateClear | CandidatePathReferenced | CleanupHelperActive | GateIncomplete.

#[export] Instance process_gate_eq_dec : EqDecision ProcessGate.
Proof. solve_decision. Defined.

Definition with_reason (reason : string) (o : StorageResidueObservation) : StorageResidueObservation :=
  o <| sr_reason_ids ::= λ l, l ++ [reason] |>.

(** [apply_process_gates]. *)
Definition apply_process_gates (gates : list ProcessGate) (o : StorageResidueObservation) :
    StorageResidueObservation :=
  let o :=
    o <| sr_reason_ids ::= List.filter (λ reason,
           negb (bool_decide (reason = "storage_residue.reference_check_incomplete"))) |> in
  if bool_decide (GateIncomplete ∈ gates) then
    with_reason "storage_residue.process_observation_incomplete"
      (o <| sr_reference_check := Incomplete |>)
  else if forallb (λ g, bool_decide (g = GateClear)) gates then
    with_reason "storage_residue.no_live_clone_references"
      (o <| sr_reference_check := CompleteNoReferences |>)
  else
    let o := o <| sr_reference_check := Referenced_ |> in
    let o :=
      if bool_decide (CandidatePathReferenced ∈ gates)
      then with_reason "storage_residue.clone_candidate_path_referenced" o else o in
    if bool_decide (CleanupHelperActive ∈ gates)
    then with_reason "storage_residue.clone_cleanup_helper_active" o else o.

(** The path lies in the clone, under the root as given or as canonicalised. *)
Definition under_candidate (root canonical_root : string) (c : CloneCandidateIdentity)
    (path : string) : bool :=
  match to_str (clone_name c) with
  | Some name => existsb (λ r, path_starts_with path (path_join r name)) [root; canonical_root]
  | None => false
  end.

(** [process_references_candidate_path]. *)
Definition process_references_candidate_path (p : ProcessRecord) (root canonical_root : string)
    (c : CloneCandidateIdentity) : bool :=
  existsb (under_candidate root canonical_root c)
    (List.filter is_absolute (option_list (executable_path p) ++ default [] (arguments p))).

(** [process_executable_references_candidate]. *)
Definition process_executable_references_candidate (p : ProcessRecord) (root canonical_root : string)
    (c : CloneCandidateIdentity) : bool :=
  match executable_path p with
  | Some path => under_candidate root canonical_root c path
  | None => false
  end.

Definition has_cleanup_argument (p : ProcessRecord) : bool :=
  existsb (λ a, bool_decide (a = CLONE_CLEANUP_TYPE_ARGUMENT)) (default [] (arguments p)).

(** [is_bundle_confirmed_chrome_process]. *)
Definition is_bundle_confirmed_chrome_process (p : ProcessRecord) : bool :=
  match app_bundle (runtime p) with
  | Some b =>
      bool_decide (bundle_id b = CHROME_BUNDLE_ID)
      || bool_decide (bundle_id b = CHROME_HELPER_BUNDLE_ID_PREFIX)
      || starts_with (CHROME_HELPER_BUNDLE_ID_PREFIX +:+ ".") (bundle_id b)
  | None => false
  end.

(** [is_clone_cleanup_helper]. *)
Definition is_clone_cleanup_helper (p : ProcessRecord) : bool :=
  is_bundle_confirmed_chrome_process p && has_cleanup_argument p.

(** [clone_cleanup_helper_suffix]. *)
Definition clone_cleanup_helper_suffix (p : ProcessRecord) : option (result string unit) :=
  if negb (is_clone_cleanup_helper p) then None else
  match omap (strip_prefix CLONE_CLEANUP_SUFFIX_ARGUMENT_PREFIX) (default [] (arguments p)) with
  | [suffix] => Some (if valid_clone_suffix suffix then Ok suffix else Err tt)
  | _ => Some (Err tt)
  end.

(** [missing_bundle_is_accounted_for_by_live_clone_main]. *)
Definition missing_bundle_is_accounted_for_by_live_clone_main (p : ProcessRecord)
    (executable_candidate_reference : bool) : bool :=
  executable_candidate_reference && bool_decide (executable_basename p = "Google Chrome")
  && negb (has_cleanup_argument p).

(** [may_be_chrome_process]. *)
Definition may_be_chrome_process (p : ProcessRecord) : bool :=
  bool_decide (executable_basename p = "Google Chrome")
  || bool_decide (executable_basename p = "Google Chrome Helper")
  || has_cleanup_argument p.

(** The loop of [process_gates] over the candidates of one process. *)
Definition reference_gates (p : ProcessRecord) (root canonical_root : string)
    (candidates : list CloneCandidateIdentity) (gates : list ProcessGate) : list ProcessGate :=
  zip_with (λ c gate,
    if process_references_candidate_path p root canonical_root c
    then CandidatePathReferenced else gate) candidates gates.

(** The gate of the first clone with the suffix. *)
Fixpoint helper_gate (suffix : string) (candidates : list CloneCandidateIdentity)
    (gates : list ProcessGate) : list ProcessGate :=
  match candidates, gates with
  | c :: candidates, gate :: gates =>
      if bool_decide (clone_suffix c = Some suffix) then CleanupHelperActive :: gates
      else gate :: helper_gate suffix candidates gates
  | _, _ => gates
  end.

(** One process; [None] makes every gate incomplete. *)
Definition gates_of_process (p : ProcessRecord) (root canonical_root : string)
    (candidates : list CloneCandidateIdentity) (gates : list ProcessGate) :
    option (list ProcessGate) :=
  let gates := reference_gates p root canonical_root candidates gates in
  let executable_candidate_reference :=
    existsb (process_executable_references_candidate p root canonical_root) candidates in
  if may_be_chrome_process p && negb (bool_decide (is_Some (app_bundle (runtime p))))
     && negb (missing_bundle_is_accounted_for_by_live_clone_main p executable_candidate_reference)
  then None else
  match clone_cleanup_helper_suffix p with
  | Some (Ok suffix) => Some (helper_gate suffix candidates gates)
  | None => Some gates
  | Some (Err _) => None
  end.

(** The loop over the processes. *)
Fixpoint gates_of_processes (processes : list ProcessRecord) (root canonical_root : string)
    (candidates : list CloneCandidateIdentity) (gates : list ProcessGate) :
    option (list ProcessGate) :=
  match processes with
  | [] => Some gates
  | p :: processes =>
      gates ← gates_of_process p root canonical_root candidates gates;
      gates_of_processes processes root canonical_root candidates gates
  end.

(** ** The directory tree *)

(** [directory_names]. *)
Definition directory_names (d : descriptor) : cloning (result (list string) io_error) :=
  do? entries := trigger (ReadEntries d) in
  Ret (Ok (List.filter (λ n, negb (bool_decide (n = ".") || bool_decide (n = ".."))) entries)).

(** [open_child_directory]; [None] if the descriptors of the process are used up. *)
Definition too_many_open_files : io_error := OtherError "Too many open files (os error 24)".

Definition open_child_directory (d : descriptor) (name : string) :
    cloning (result descriptor io_error) := trigger (OpenAt d name).

Definition unsupported_node : io_error := OtherError "clone tree contains an unsupported node".

(** The loop of [logical_tree_bytes] over the names of a directory; [subtree] counts a
    child directory. *)
Fixpoint count_entries (subtree : descriptor → cloning (result N io_error)) (d : descriptor)
    (names : list string) (total : N) : cloning (result N io_error) :=
  match names with
  | [] => Ret (Ok total)
  | name :: names =>
      do? st := trigger (FstatAt d name) in
      do? bytes :=
        match st_kind st with
        | SymlinkNode => Ret (Ok 0%N)
        | RegularNode =>
            Ret (if bool_decide (0 ≤ st_size st)%Z then Ok (Z.to_N (st_size st))
                 else Err (OtherError "negative clone file size"))
        | DirectoryNode => do? child := open_child_directory d name in subtree child
        | OtherNode => Ret (Err unsupported_node)
        end in
      if bool_decide (total + bytes < u64_bound)%N
      then count_entries subtree d names (total + bytes)
      else Ret (Err (OtherError "logical size overflow"))
  end.

(** [logical_tree_bytes]. Every level of the recursion holds a descriptor, and [depth] is
    the number the process can hold: beyond it the next call of the operating system
    fails. *)
Fixpoint logical_tree_bytes (depth : nat) (d : descriptor) : cloning (result N io_error) :=
  match depth with
  | O => Ret (Err too_many_open_files)
  | S depth =>
      do? names := directory_names d in
      count_entries (logical_tree_bytes depth) d names 0
  end.

Definition cancelled : io_error := OtherError "storage cleanup cancelled".

(** The loop of [remove_directory_contents]; [subtree] empties a child directory. *)
Fixpoint remove_entries (subtree : descriptor → cloning (result unit io_error)) (d : descriptor)
    (names : list string) : cloning (result unit io_error) :=
  match names with
  | [] => Ret (Ok tt)
  | name :: names =>
      do* cancel := trigger CancelAsked in
      if cancel : bool then Ret (Err cancelled) else
      do? st := trigger (FstatAt d name) in
      do? directory :=
        match st_kind st with
        | DirectoryNode =>
            do? child := open_child_directory d name in
            do? _ := subtree child in
            Ret (Ok true)
        | RegularNode | SymlinkNode => Ret (Ok false)
        | OtherNode => Ret (Err unsupported_node)
        end in
      do? _ := trigger (UnlinkAt d name directory) in
      remove_entries subtree d names
  end.

(** [remove_directory_contents]; [depth] as in [logical_tree_bytes]. *)
Fixpoint remove_directory_contents (depth : nat) (d : descriptor) :
    cloning (result unit io_error) :=
  match depth with
  | O => Ret (Err too_many_open_files)
  | S depth =>
      do? names := directory_names d in
      remove_entries (remove_directory_contents depth) d names
  end.

(** ** The scan *)

Section Scan.
Context (depth : nat) (euid : N).

(** [open_child_directory(..).is_ok()] of one of the names. *)
Fixpoint any_child_directory (d : descriptor) (names : list string) : cloning bool :=
  match names with
  | [] => Ret false
  | name :: names =>
      do* child := open_child_directory d name in
      match child with
      | Ok _ => Ret true
      | Err _ => any_child_directory d names
      end
  end.

(** One entry of the root: the candidate and its size, or the reason why the scan ends. *)
Definition scan_entry (root : descriptor) (name : string) :
    cloning (result (CloneCandidate * N) string) :=
  let unexpected := "storage_residue.clone_shape_unexpected" in
  match to_str name with
  | None => Ret (Err unexpected)
  | Some text =>
      if negb (valid_clone_name text) then Ret (Err unexpected) else
      do* clone := open_child_directory root name in
      match clone with
      | Err _ => Ret (Err unexpected)
      | Ok clone =>
          do* metadata := trigger (Fstat clone) in
          match metadata with
          | Err _ => Ret (Err unexpected)
          | Ok metadata =>
              if negb (bool_decide (st_uid metadata = euid)) then Ret (Err unexpected) else
              do* bundled := any_child_directory clone ["Google Chrome.app.bundle"; "Google Chrome.app"] in
              if negb bundled then Ret (Err unexpected) else
              do* bytes := logical_tree_bytes depth clone in
              match bytes with
              | Err _ => Ret (Err "storage_residue.clone_tree_unreadable")
              | Ok bytes =>
                  Ret (Ok (mkCloneCandidate
                             (mkCloneCandidateIdentity name (st_dev metadata) (st_ino metadata))
                             clone, bytes))
              end
          end
      end
  end.

(** The loop over the entries, with the size so far. *)
Fixpoint scan_entries (root : descriptor) (names : list string) (logical_bytes : N) :
    cloning (result (list CloneCandidate * N) string) :=
  match names with
  | [] => Ret (Ok ([], logical_bytes))
  | name :: names =>
      do? scanned := scan_entry root name in
      if bool_decide (logical_bytes + scanned.2 < u64_bound)%N then
        do? rest := scan_entries root names (logical_bytes + scanned.2) in
        Ret (Ok (scanned.1 :: rest.1, rest.2))
      else Ret (Err "storage_residue.logical_size_overflow")
  end.

(** The observation of a scan that read everything. *)
Definition complete_observation (observed_at count bytes : N) : StorageResidueObservation :=
  if bool_decide (count = 0%N) then
    mkStorageResidueObservation ChromeCodeSignClone ResidueClear observed_at count bytes true
      Incomplete false ["storage_residue.code_sign_clone_empty"]
  else
    mkStorageResidueObservation ChromeCodeSignClone ResidueDetected observed_at count bytes true
      Incomplete false
      ["storage_residue.code_sign_clone_detected";
       "storage_residue.logical_size_not_physical_reclaim";
       "storage_residue.reference_check_incomplete"].

(** [scan_code_sign_clone_root]. *)
Definition scan_code_sign_clone_root (root : string) (observed_at : N) : cloning CloneScan :=
  let refuse reason := Ret (scan_from_observation (unavailable observed_at reason)) in
  do* metadata := trigger (Lstat root) in
  match metadata with
  | Err NotFound =>
      Ret (scan_from_observation
             (mkStorageResidueObservation ChromeCodeSignClone ResidueClear observed_at 0 0 true
                Incomplete false ["storage_residue.code_sign_clone_absent"]))
  | Err _ => refuse "storage_residue.clone_root_unreadable"
  | Ok metadata =>
      if negb (bool_decide (st_kind metadata = DirectoryNode)) || negb (bool_decide (st_uid metadata = euid))
      then refuse "storage_residue.clone_root_unsafe" else
      do* opened := trigger (OpenRoot root) in
      match opened with
      | Err _ => refuse "storage_residue.clone_root_unreadable"
      | Ok d =>
          do* names := directory_names d in
          match names with
          | Err _ => refuse "storage_residue.clone_root_unreadable"
          | Ok names =>
              do* scanned := scan_entries d (merge_sort String.le names) 0 in
              match scanned with
              | Err reason => refuse reason
              | Ok (candidates, bytes) =>
                  Ret (mkCloneScan
                         (complete_observation observed_at (N.of_nat (length candidates)) bytes)
                         (Some d) candidates)
              end
          end
      end
  end.

(** ** The removal *)

Definition identity_changed : io_error := OtherError "clone candidate identity changed".

(** [verify_linked_candidate]. *)
Definition verify_linked_candidate (root : descriptor) (c : CloneCandidateIdentity) :
    cloning (result unit io_error) :=
  do? st := trigger (FstatAt root (clone_name c)) in
  Ret (if negb (bool_decide (st_kind st = DirectoryNode))
          || negb (bool_decide (st_dev st = clone_device c))
          || negb (bool_decide (st_ino st = clone_inode c))
       then Err (OtherError "clone candidate root entry changed") else Ok tt).

(** The removal of one candidate. *)
Definition remove_candidate (root : descriptor) (candidate : CloneCandidate) :
    cloning (result unit io_error) :=
  let c := clone_identity candidate in
  do? st := trigger (Fstat (clone_directory candidate)) in
  if negb (bool_decide (st_uid st = euid)) || negb (bool_decide (st_dev st = clone_device c))
     || negb (bool_decide (st_ino st = clone_inode c))
  then Ret (Err identity_changed) else
  do? _ := verify_linked_candidate root c in
  do? _ := remove_directory_contents depth (clone_directory candidate) in
  do? _ := verify_linked_candidate root c in
  trigger (UnlinkAt root (clone_name c) true).

(** The loop of [DescriptorRelativeRemover::remove]. *)
Fixpoint remove_candidates (root : descriptor) (candidates : list CloneCandidate)
    (removable : list CloneCandidateIdentity) : cloning (result unit io_error) :=
  match removable with
  | [] => Ret (Ok tt)
  | c :: removable =>
      do* cancel := trigger CancelAsked in
      if cancel : bool then Ret (Err cancelled) else
      match List.find (λ k, bool_decide (clone_identity k = c)) candidates with
      | None => Ret (Err (OtherError "clone candidate is absent from the scan"))
      | Some candidate =>
          do? _ := remove_candidate root candidate in
          remove_candidates root candidates removable
      end
  end.

(** [DescriptorRelativeRemover::remove]. *)
Definition remove_clones (scan : CloneScan) (removable : list CloneCandidateIdentity) :
    cloning (result unit io_error) :=
  match scan_root scan with
  | None => Ret (Err (OtherError "clone root is unavailable"))
  | Some root => remove_candidates root (scan_candidates scan) removable
  end.

(** ** The reconciliation *)

(** [process_gates]. *)
Definition process_gates (s : option Snapshot) (root : string)
    (candidates : list CloneCandidateIdentity) : cloning (list ProcessGate) :=
  let incomplete := replicate (length candidates) GateIncomplete in
  match s with
  | None => Ret incomplete
  | Some s =>
      if negb (proves_complete_classification_coverage s) then Ret incomplete else
      do* canonical := trigger (Canonicalize root) in
      match canonical with
      | Err _ => Ret incomplete
      | Ok canonical_root =>
          Ret (default incomplete
                 (gates_of_processes (processes s) root canonical_root candidates
                    (replicate (length candidates) GateClear)))
      end
  end.

(** The candidates that the previous reconciliation saw too. *)
Definition stable (previous : option (list CloneCandidateIdentity))
    (seen : list CloneCandidateIdentity) : list CloneCandidateIdentity :=
  List.filter (λ c, bool_decide (c ∈ default [] previous)) seen.

(** The stable candidates whose gate is clear. *)
Definition removable (stable : list CloneCandidateIdentity) (seen : list CloneCandidateIdentity)
    (gates : list ProcessGate) : list CloneCandidateIdentity :=
  fst <$> List.filter (λ e, bool_decide (e.1 ∈ stable) && bool_decide (e.2 = GateClear))
            (zip seen gates).

Definition waiting_for_stability (waiting : bool) (o : StorageResidueObservation) :
    StorageResidueObservation :=
  if waiting then with_reason "storage_residue.cleanup_waiting_for_stability" o else o.

(** The classification of a removal. *)
Definition cleanup_disposition (removed proven_absent : bool) (o : StorageResidueObservation) :
    StorageResidueObservation * StorageCleanupDisposition :=
  if removed && proven_absent then
    match sr_status o with
    | ResidueClear => (with_reason "storage_residue.automatic_cleanup_completed" o, DispComplete)
    | _ => (with_reason "storage_residue.automatic_cleanup_partial" o, DispPartial)
    end
  else (with_reason "storage_residue.automatic_cleanup_failed" o, DispFailed).

(** The facts of a removal, from the scan after it. *)
Definition cleanup_result (attempt : StorageCleanupAttemptFacts)
    (disposition : StorageCleanupDisposition) (proves_shape : bool) (planned removed : N)
    (o : StorageResidueObservation) : StorageCleanupResultFacts :=
  let known (n : N) := if proves_shape then Some n else None in
  mkStorageCleanupResultFacts disposition (sa_planned_candidate_count attempt)
    (sa_before_candidate_count attempt) (sa_before_logical_bytes attempt)
    (known removed) (known (sr_candidate_count o)) (known (sr_logical_bytes o))
    (known (sr_candidate_count o - (planned - removed))%N).

(** The scan after a removal, and what it says of it. *)
Definition settle_removal (root : string) (observed_at : N) (s : option Snapshot)
    (stable removable : list CloneCandidateIdentity) (attempt : StorageCleanupAttemptFacts)
    (removal : result unit io_error) :
    cloning (option (list CloneCandidateIdentity) * ChromeCloneReconciliation) :=
  do* scan := scan_code_sign_clone_root root observed_at in
  let o := scan_observation scan in
  let seen := identities scan in
  let absent := List.filter (λ c, negb (bool_decide (c ∈ seen))) removable in
  let removed := N.of_nat (length absent) in
  let planned := N.of_nat (length removable) in
  let proves_shape :=
    sr_shape_complete o && negb (match sr_status o with ResidueUnavailable => true | _ => false end) in
  do* settled :=
    match sr_status o with
    | ResidueDetected =>
        do* gates := process_gates s root seen in
        let o := apply_process_gates gates o in
        let o := o <| sr_automatic_cleanup_eligible :=
          existsb (λ e, bool_decide (e.1 ∈ stable) && bool_decide (e.2 = GateClear)) (zip seen gates) |> in
        Ret (Some seen, waiting_for_stability
               (existsb (λ c, negb (bool_decide (c ∈ stable))) seen) o)
    | _ => Ret (None, o)
    end in
  let removed_ok := match removal with Ok _ => true | Err _ => false end in
  let '(o, disposition) :=
    cleanup_disposition (removed_ok && proves_shape) (bool_decide (length absent = length removable))
      settled.2 in
  Ret (settled.1,
       mkChromeCloneReconciliation o
         (Some (cleanup_result attempt disposition proves_shape planned removed o))).

Definition observation_only (o : StorageResidueObservation) : ChromeCloneReconciliation :=
  mkChromeCloneReconciliation o None.

(** The reconciliation of a scan with candidates, which have gates. *)
Definition reconcile_candidates (root : string) (observed_at : N) (s : option Snapshot)
    (mode : ChromeCloneCleanupMode) (scan : CloneScan)
    (stable_candidates : list CloneCandidateIdentity) (gates : list ProcessGate) :
    cloning (option (list CloneCandidateIdentity) * ChromeCloneReconciliation) :=
  let seen := identities scan in
  let o :=
    waiting_for_stability (negb (bool_decide (length stable_candidates = length seen)))
      (apply_process_gates gates (scan_observation scan)) in
  let chosen := removable stable_candidates seen gates in
  if bool_decide (chosen = []) then Ret (Some seen, observation_only o) else
  match mode with
  | CloneLifecycleBlocked =>
      Ret (Some seen,
           observation_only (with_reason "storage_residue.cleanup_lifecycle_blocked" o))
  | CloneReportOnly =>
      Ret (Some seen,
           observation_only (with_reason "storage_residue.cleanup_report_only"
             (o <| sr_automatic_cleanup_eligible := true |>)))
  | CloneEnforce =>
      let attempt :=
        mkStorageCleanupAttemptFacts (N.of_nat (length chosen)) (sr_candidate_count o)
          (sr_logical_bytes o) in
      do* run := trigger (RunCleanup attempt) in
      if run : bool then
        do* removal := remove_clones scan chosen in
        settle_removal root observed_at s stable_candidates chosen attempt removal
      else
        Ret (Some seen,
             observation_only (with_reason "storage_residue.cleanup_lifecycle_blocked" o))
  end.

(** [ChromeCloneCleanup::reconcile_root_guarded]; the candidates seen before are passed in
    and those seen now returned. *)
Definition reconcile_root_guarded (root : string) (observed_at : N) (s : option Snapshot)
    (mode : ChromeCloneCleanupMode) (previous : option (list CloneCandidateIdentity)) :
    cloning (option (list CloneCandidateIdentity) * ChromeCloneReconciliation) :=
  do* scan := scan_code_sign_clone_root root observed_at in
  match sr_status (scan_observation scan) with
  | ResidueDetected =>
      let seen := identities scan in
      do* gates := process_gates s root seen in
      reconcile_candidates root observed_at s mode scan (stable previous seen) gates
  | _ => Ret (None, observation_only (scan_observation scan))
  end.

(** [ChromeCloneCleanup::reconcile]. *)
Definition reconcile (observed_at : N) (s : option Snapshot) (mode : ChromeCloneCleanupMode)
    (previous : option (list CloneCandidateIdentity)) :
    cloning (option (list CloneCandidateIdentity) * ChromeCloneReconciliation) :=
  do* temporary := trigger TempDir in
  match path_parent temporary with
  | None =>
      Ret (None, observation_only (unavailable observed_at "storage_residue.temp_root_unavailable"))
  | Some parent =>
      reconcile_root_guarded (path_join (path_join parent "X") CLONE_ROOT_NAME) observed_at s mode
        previous
  end.
(** [inspect_code_sign_clone_root]. *)
Definition inspect_code_sign_clone_root (root : string) (observed_at : N) :
    cloning StorageResidueObservation :=
  do* scan := scan_code_sign_clone_root root observed_at in Ret (scan_observation scan).

(** [observe_chrome_code_sign_clones]. *)
Definition observe_chrome_code_sign_clones (observed_at : N) : cloning StorageResidueObservation :=
  do* temporary := trigger TempDir in
  match path_parent temporary with
  | None => Ret (unavailable observed_at "storage_residue.temp_root_unavailable")
  | Some parent =>
      inspect_code_sign_clone_root (path_join (path_join parent "X") CLONE_ROOT_NAME) observed_at
  end.
End Scan.
