(* ===== verification/ClonesFacts.v ===== *)
(** ClonesFacts: what the removal of Chrome's clones may touch, and what it reports.

    The events of a reconciliation are checked against its trace: a name is unlinked only
    in a clone that two reconciliations saw, that no process uses, and whose identity was
    read again after the removal was authorised. *)

From S2P Require Import Prelude Text Model Artifact Evidence Cleanup Cooling Names Store.
From S2P Require Import Effects Executor Analyzer Lifecycle Residue Protocol Mutations Observations.
From S2P Require Import Views Maintenance Clones.

(** ** Traces *)

Abbreviation fs_trace := (list (obs CloneE)).

Definition told {X} (g : fs_trace) (e : CloneE X) (x : X) : Prop := Obs e x ∈ g.

Definition record_obs (g : fs_trace) (o : obs CloneE) : fs_trace := g ++ [o].

Lemma told_mono {X} g g' (e : CloneE X) x : g `prefix_of` g' → told g e x → told g' e x.
Proof. intros [l ->] H. apply elem_of_app. by left. Qed.

Lemma told_last {X} g (e : CloneE X) x : told (g ++ [Obs e x]) e x.
Proof. apply elem_of_app. right. by apply list_elem_of_singleton. Qed.

Lemma told_app_r {X} g l (e : CloneE X) x : told l e x → told (g ++ l) e x.
Proof. intros H. apply elem_of_app. by right. Qed.

Lemma record_fold g tr : fold_left record_obs tr g = g ++ tr.
Proof.
  revert g. induction tr as [|o tr IH]; intros g; simpl; [by rewrite app_nil_r|].
  rewrite IH. unfold record_obs. by rewrite <-(assoc_L (++)).
Qed.

(** Every directory was listed without repetition. *)
Definition lists_once (g : fs_trace) : Prop :=
  ∀ d entries, told g (ReadEntries d) (Ok entries) → NoDup entries.

Lemma lists_once_mono g g' : g `prefix_of` g' → lists_once g' → lists_once g.
Proof. intros Hg H d entries Ht. apply (H d). by eapply told_mono. Qed.

(** The directory was emptied: its entries were read, and each was unlinked then. *)
Definition emptied (l : fs_trace) (d : descriptor) : Prop :=
  ∃ entries l', l = Obs (ReadEntries d) (Ok entries) :: l' ∧
    ∀ n, n ∈ entries → n ≠ "." → n ≠ ".." → ∃ directory, told l' (UnlinkAt d n directory) (Ok tt).

(** ** Candidates *)

(** The metadata is of the candidate. *)
Definition is_candidate (c : CloneCandidateIdentity) (st : file_stat) : Prop :=
  st_dev st = clone_device c ∧ st_ino st = clone_inode c.

(** The candidate was opened in the root without following links; it belongs to the user,
    and has the name and the identity it is known by. *)
Definition scanned (euid : N) (root : string) (g : fs_trace) (rootd : descriptor)
    (k : CloneCandidate) : Prop :=
  let c := clone_identity k in
  valid_clone_name (clone_name c) = true ∧
  told g (OpenRoot root) (Ok rootd) ∧
  told g (OpenAt rootd (clone_name c)) (Ok (clone_directory k)) ∧
  ∃ st, told g (Fstat (clone_directory k)) (Ok st) ∧ st_uid st = euid ∧ is_candidate c st.

(** A directory that was opened in the clone, link by link. *)
Inductive beneath (g : fs_trace) (top : descriptor) : descriptor → Prop :=
| beneath_top : beneath g top top
| beneath_child d name child :
    beneath g top d → told g (OpenAt d name) (Ok child) → beneath g top child.

Lemma beneath_mono g g' top d : g `prefix_of` g' → beneath g top d → beneath g' top d.
Proof.
  intros Hg H. induction H as [|d name child _ IH H]; [constructor|].
  eapply beneath_child; [exact IH|by eapply told_mono].
Qed.

Lemma beneath_trans g top mid d : beneath g top mid → beneath g mid d → beneath g top d.
Proof. intros H1 H2. induction H2; [done|]. by eapply beneath_child. Qed.

(** The process does not use the clone: it names no path in it, and if it is the helper that
    cleans clones up, its suffix is valid and, when the clones were listed [once], not the
    clone's; a Chrome process without a bundle is accounted for by a clone that was seen. *)
Definition leaves_alone (once : Prop) (root canonical_root : string)
    (seen : list CloneCandidateIdentity) (c : CloneCandidateIdentity) (p : ProcessRecord) : Prop :=
  process_references_candidate_path p root canonical_root c = false ∧
  clone_cleanup_helper_suffix p ≠ Some (Err tt) ∧
  (∀ suffix, clone_cleanup_helper_suffix p = Some (Ok suffix) → once →
     clone_suffix c ≠ Some suffix) ∧
  (may_be_chrome_process p = true → app_bundle (runtime p) = None →
     missing_bundle_is_accounted_for_by_live_clone_main p
       (existsb (process_executable_references_candidate p root canonical_root) seen) = true).

Lemma leaves_alone_mono (once once' : Prop) root canonical seen c p :
  (once' → once) → leaves_alone once root canonical seen c p →
  leaves_alone once' root canonical seen c p.
Proof. intros Ho (H1 & H2 & H3 & H4). split_and!; eauto. Qed.

(** ** The gates *)

Lemma zip_with_lookup_gate p root canonical seen gates i c g :
  reference_gates p root canonical seen gates !! i = Some g → seen !! i = Some c →
  g = GateClear →
  process_references_candidate_path p root canonical c = false ∧ gates !! i = Some GateClear.
Proof.
  unfold reference_gates. intros H Hc ->. apply lookup_zip_with_Some in H as (c' & g' & H & Hc' & Hg').
  rewrite Hc in Hc'. injection Hc' as <-.
  destruct (process_references_candidate_path p root canonical c); [done|]. by subst.
Qed.

Lemma helper_gate_spec suffix seen gates i c :
  length gates = length seen →
  helper_gate suffix seen gates !! i = Some GateClear → seen !! i = Some c →
  gates !! i = Some GateClear ∧
  (clone_suffix c = Some suffix → ∃ j c', j < i ∧ seen !! j = Some c' ∧ clone_suffix c' = Some suffix).
Proof.
  revert gates i. induction seen as [|c0 seen IH]; intros gates i Hlen H Hc; [done|].
  destruct gates as [|g gates]; [done|]. simpl in H. case_bool_decide as Hs.
  - destruct i as [|i]; simpl in *; [done|]. split; [done|]. intros _. exists 0, c0.
    split; [lia|]. done.
  - destruct i as [|i]; simpl in *; [injection Hc as ->; by split|].
    destruct (IH gates i) as [Hg Hj]; [lia|done..|]. split; [done|].
    intros H1. destruct (Hj H1) as (j & c' & Hlt & Hj' & Hs'). exists (S j), c'.
    split; [lia|]. done.
Qed.

Lemma helper_gate_length suffix seen gates :
  length (helper_gate suffix seen gates) = length gates.
Proof.
  revert gates. induction seen as [|c seen IH]; intros [|g gates]; simpl; [done..|].
  case_bool_decide; simpl; [done|]. by rewrite IH.
Qed.

Lemma clone_suffix_name c c' s :
  clone_suffix c = Some s → clone_suffix c' = Some s → clone_name c = clone_name c'.
Proof.
  unfold clone_suffix, to_str. intros H H'.
  destruct (utf8_valid (clone_name c)), (utf8_valid (clone_name c')); try done.
  change (strip_prefix CLONE_PREFIX (clone_name c) = Some s) in H.
  change (strip_prefix CLONE_PREFIX (clone_name c') = Some s) in H'.
  apply strip_prefix_Some in H, H'. by rewrite H, H'.
Qed.

Lemma gates_of_process_clear p root canonical seen gates gates' i c :
  length gates = length seen →
  gates_of_process p root canonical seen gates = Some gates' →
  gates' !! i = Some GateClear → seen !! i = Some c →
  gates !! i = Some GateClear ∧ leaves_alone (NoDup (clone_name <$> seen)) root canonical seen c p.
Proof.
  unfold gates_of_process. intros Hlen.
  set (r := reference_gates p root canonical seen gates).
  assert (length r = length seen) as Hr
    by (unfold r, reference_gates; rewrite length_zip_with; lia).
  destruct (_ && _ && negb _) eqn:Hb; [done|]. intros H Hclear Hc.
  assert (r !! i = Some GateClear ∧ clone_cleanup_helper_suffix p ≠ Some (Err tt) ∧
    (∀ suffix, clone_cleanup_helper_suffix p = Some (Ok suffix) → NoDup (clone_name <$> seen) →
       clone_suffix c ≠ Some suffix)) as (Hri & Hne & Hsuf).
  { destruct (clone_cleanup_helper_suffix p) as [[suffix|[]]|]; [|done|].
    - injection H as <-. destruct (helper_gate_spec _ _ _ _ _ Hr Hclear Hc) as [Hri Hj].
      split; [done|]. split; [done|]. intros s [= <-] Hnd Hs.
      destruct (Hj Hs) as (j & c' & Hlt & Hj' & Hs').
      assert (j = i) as ->; [|lia].
      eapply (NoDup_lookup _ j i (clone_name c)); [exact Hnd|..]; rewrite list_lookup_fmap.
      + rewrite Hj'. simpl. f_equal. by eapply clone_suffix_name.
      + by rewrite Hc.
    - injection H as <-. by split. }
  destruct (zip_with_lookup_gate _ _ _ _ _ _ _ _ Hri Hc eq_refl) as [Href Hg].
  split; [done|]. split; [done|]. split; [done|]. split; [done|].
  intros Hmay Hnone. rewrite Hmay, Hnone in Hb. simpl in Hb. by apply negb_false_iff in Hb.
Qed.

Lemma gates_of_process_length p root canonical seen gates gates' :
  length gates = length seen → gates_of_process p root canonical seen gates = Some gates' →
  length gates' = length seen.
Proof.
  unfold gates_of_process. intros Hlen.
  assert (length (reference_gates p root canonical seen gates) = length seen) as Hr
    by (unfold reference_gates; rewrite length_zip_with; lia).
  destruct (_ && _ && negb _); [done|].
  destruct (clone_cleanup_helper_suffix p) as [[suffix|[]]|]; intros [= <-]; [|done].
  by rewrite helper_gate_length.
Qed.

Lemma gates_of_processes_clear ps root canonical seen gates gates' i c :
  length gates = length seen →
  gates_of_processes ps root canonical seen gates = Some gates' →
  gates' !! i = Some GateClear → seen !! i = Some c →
  gates !! i = Some GateClear ∧
  ∀ p, p ∈ ps → leaves_alone (NoDup (clone_name <$> seen)) root canonical seen c p.
Proof.
  revert gates. induction ps as [|p ps IH]; simpl; intros gates Hlen H Hclear Hc.
  { injection H as <-. split; [done|]. by intros p ?%elem_of_nil. }
  apply bind_Some in H as (gates1 & H1 & H).
  pose proof (gates_of_process_length _ _ _ _ _ _ Hlen H1) as Hlen1.
  destruct (IH gates1 Hlen1 H Hclear Hc) as [Hg1 Hps].
  destruct (gates_of_process_clear _ _ _ _ _ _ _ _ Hlen H1 Hg1 Hc) as [Hg Hp].
  split; [done|]. intros q [->|Hq]%elem_of_cons; [done|by apply Hps].
Qed.

(** ** What may be unlinked *)

Section Removal.
Context (euid : N) (s : option Snapshot) (mode : ChromeCloneCleanupMode).
Context (previous : option (list CloneCandidateIdentity)).

(** The candidate may be removed: it was seen before and is seen again, among clones that
    were all scanned, and no process of a complete snapshot uses it. *)
Definition may_remove (root : string) (g : fs_trace) (rootd : descriptor) (k : CloneCandidate) :
    Prop :=
  mode = CloneEnforce ∧ clone_identity k ∈ default [] previous ∧ scanned euid root g rootd k ∧
  ∃ snap canonical seen, s = Some snap ∧ proves_complete_classification_coverage snap = true ∧
    told g (Canonicalize root) (Ok canonical) ∧ clone_identity k ∈ seen ∧
    (∀ c, c ∈ seen → ∃ k', clone_identity k' = c ∧ scanned euid root g rootd k') ∧
    ∀ p, p ∈ processes snap →
      leaves_alone (lists_once g) root canonical seen (clone_identity k) p.

(** Its identity was read again, of the open directory and of its name in the root. *)
Definition rechecked (g : fs_trace) (rootd : descriptor) (k : CloneCandidate) : Prop :=
  (∃ st, told g (Fstat (clone_directory k)) (Ok st) ∧ st_uid st = euid ∧
     is_candidate (clone_identity k) st) ∧
  (∃ st, told g (FstatAt rootd (clone_name (clone_identity k))) (Ok st) ∧
     st_kind st = DirectoryNode ∧ is_candidate (clone_identity k) st).

(** The removal of the candidate was authorised, not cancelled since then, and the identity
    of the candidate checked. *)
Definition candidate_of (root : string) (g : fs_trace) (rootd : descriptor) (k : CloneCandidate) :
    Prop :=
  ∃ g1 facts g2, g = g1 ++ Obs (RunCleanup facts) true :: g2 ∧ may_remove root g1 rootd k ∧
    told g2 CancelAsked false ∧ rechecked g2 rootd k.

(** An open directory of such a candidate. *)
Definition in_removal (root : string) (g : fs_trace) (d : descriptor) : Prop :=
  ∃ rootd k, candidate_of root g rootd k ∧ beneath g (clone_directory k) d.

(** An entry of a directory of the candidate: just not cancelled, read without following
    links, a file or a link, or a directory that was opened and emptied since. *)
Definition entry_ok (root : string) (g : fs_trace) (d : descriptor) (name : string)
    (directory : bool) : Prop :=
  ∃ g1 st g2, g = g1 ++ Obs CancelAsked false :: Obs (FstatAt d name) (Ok st) :: g2 ∧
    in_removal root g1 d ∧
    (directory = false ∧ g2 = [] ∧ (st_kind st = RegularNode ∨ st_kind st = SymlinkNode) ∨
     directory = true ∧ st_kind st = DirectoryNode ∧
       ∃ child l, g2 = Obs (OpenAt d name) (Ok child) :: l ∧ emptied l child).

(** The emptied candidate itself, whose name in the root is still its own. *)
Definition candidate_ok (root : string) (g : fs_trace) (d : descriptor) (name : string)
    (directory : bool) : Prop :=
  ∃ k g1 l st, clone_name (clone_identity k) = name ∧ candidate_of root g1 d k ∧ directory = true ∧
    g = g1 ++ l ++ [Obs (FstatAt d name) (Ok st)] ∧ emptied l (clone_directory k) ∧
    st_kind st = DirectoryNode ∧ is_candidate (clone_identity k) st.

Definition unlink_ok (root : string) (g : fs_trace) (d : descriptor) (name : string)
    (directory : bool) : Prop :=
  entry_ok root g d name directory ∨ candidate_ok root g d name directory.

(** The check of an event. *)
Definition clone_event_ok (root : string) (g : fs_trace) (X : Type) (e : CloneE X) : Prop :=
  match e with
  | UnlinkAt d name directory => unlink_ok root g d name directory
  | _ => True
  end.

Lemma candidate_of_mono root g g' rootd k :
  g `prefix_of` g' → candidate_of root g rootd k → candidate_of root g' rootd k.
Proof.
  intros [l ->] (g1 & facts & g2 & -> & Hm & Hp & [(st & H1 & H2) (st' & H3 & H4)]).
  exists g1, facts, (g2 ++ l). rewrite <-(assoc_L (++)). split; [done|]. split; [done|].
  split; [eapply told_mono; [by eexists|done]|]. split.
  - exists st. split; [|done]. eapply told_mono; [by eexists|done].
  - exists st'. split; [|done]. eapply told_mono; [by eexists|done].
Qed.

Lemma in_removal_mono root g g' d :
  g `prefix_of` g' → in_removal root g d → in_removal root g' d.
Proof.
  intros Hg (rootd & k & H & Hb). exists rootd, k.
  split; [by eapply candidate_of_mono|by eapply beneath_mono].
Qed.

Lemma in_removal_child root g d name child :
  in_removal root g d → told g (OpenAt d name) (Ok child) → in_removal root g child.
Proof. intros (rootd & k & H & Hb) Ht. exists rootd, k. split; [done|]. by eapply beneath_child. Qed.

(** ** The calculus *)

Context (root : string).

Definition holds {A} (g : fs_trace) (p : cloning A) (Q : fs_trace → A → Prop) : Prop :=
  safe record_obs (clone_event_ok root) g p (λ g' a, g `prefix_of` g' ∧ Q g' a).

Lemma holds_ret {A} g (a : A) (Q : fs_trace → A → Prop) : Q g a → holds g (Ret a) Q.
Proof. intros H. by split. Qed.

Lemma holds_bind {A B} g (p : cloning A) (k : A → cloning B) R Q :
  holds g p R → (∀ g' a, g `prefix_of` g' → R g' a → holds g' (k a) Q) → holds g (bind p k) Q.
Proof.
  intros Hp Hk. eapply safe_bind_post; [exact Hp|]. intros g' a [Hg HR].
  eapply safe_mono; [|by apply Hk]. intros g2 b [Hg2 HQ]. split; [by etransitivity|done].
Qed.

Lemma holds_mono {A} g (p : cloning A) (R Q : fs_trace → A → Prop) :
  holds g p R → (∀ g' a, g `prefix_of` g' → R g' a → Q g' a) → holds g p Q.
Proof. intros Hp HQ. eapply safe_mono; [|exact Hp]. intros g' a [Hg HR]. split; [done|auto]. Qed.

Lemma holds_event {X} g (e : CloneE X) (Q : fs_trace → X → Prop) :
  clone_event_ok root g X e → (∀ x, Q (g ++ [Obs e x]) x) → holds g (trigger e) Q.
Proof. intros Hok HQ. split; [done|]. intros x. split; [by eexists|apply HQ]. Qed.

(** A step that may fail. *)
Lemma holds_step {A B E'} g (p : cloning (result A E')) (k : A → cloning (result B E')) R Q :
  holds g p R →
  (∀ g' a, g `prefix_of` g' → R g' (Ok a) → holds g' (k a) Q) →
  (∀ g' e, g `prefix_of` g' → R g' (Err e) → Q g' (Err e)) →
  holds g (do? x := p in k x) Q.
Proof.
  intros Hp Hk He. eapply holds_bind; [exact Hp|]. intros g' [a|e] Hg HR; [by apply Hk|].
  apply holds_ret. by apply He.
Qed.

Abbreviation nothing := (λ (_ : fs_trace) _, True).

(** ** The removal *)

Definition real_entry (n : string) : bool := negb (bool_decide (n = ".") || bool_decide (n = "..")).

Lemma real_entry_iff n : real_entry n = true ↔ n ≠ "." ∧ n ≠ "..".
Proof.
  unfold real_entry. rewrite negb_true_iff, orb_false_iff, !bool_decide_eq_false. done.
Qed.

Lemma names_hold g d :
  holds g (directory_names d) (λ g' r, match r with
    | Ok names => ∃ entries, g' = g ++ [Obs (ReadEntries d) (Ok entries)] ∧
        names = List.filter real_entry entries
    | Err _ => True end).
Proof.
  unfold directory_names. eapply holds_step.
  { by apply (holds_event _ _ (λ g' r, g' = g ++ [Obs (ReadEntries d) r])). }
  2: done.
  intros g' entries _ ->. apply holds_ret. by exists entries.
Qed.

Lemma names_done g d : holds g (directory_names d) nothing.
Proof. eapply holds_mono; [apply names_hold|done]. Qed.

(** A successful removal of entries unlinked all of them. *)
Definition unlinked (g : fs_trace) (d : descriptor) (names : list string) (g' : fs_trace)
    (r : result unit io_error) : Prop :=
  r = Ok tt → ∃ l, g' = g ++ l ∧
    ∀ n, n ∈ names → ∃ directory, told l (UnlinkAt d n directory) (Ok tt).

(** A successful removal of contents emptied the directory. *)
Definition cleared (g : fs_trace) (d : descriptor) (g' : fs_trace) (r : result unit io_error) :
    Prop := r = Ok tt → ∃ l, g' = g ++ l ∧ emptied l d.

(** What the entry of a name turned out to be. *)
Definition entry_read (g : fs_trace) (d : descriptor) (name : string) (st : file_stat)
    (g' : fs_trace) (r : result bool io_error) : Prop :=
  ∀ b, r = Ok b →
    ∃ l, g' = g ++ Obs CancelAsked false :: Obs (FstatAt d name) (Ok st) :: l ∧
      (b = false ∧ l = [] ∧ (st_kind st = RegularNode ∨ st_kind st = SymlinkNode) ∨
       b = true ∧ st_kind st = DirectoryNode ∧
         ∃ child l', l = Obs (OpenAt d name) (Ok child) :: l' ∧ emptied l' child).

Lemma entry_hold subtree d name st g :
  in_removal root g d →
  (∀ g' child, in_removal root g' child → holds g' (subtree child) (cleared g' child)) →
  holds (g ++ [Obs CancelAsked false; Obs (FstatAt d name) (Ok st)])
    (match st_kind st with
     | DirectoryNode =>
         do? child := open_child_directory d name in
         do? _ := subtree child in
         Ret (Ok true)
     | RegularNode | SymlinkNode => Ret (Ok false)
     | OtherNode => Ret (Err unsupported_node)
     end) (entry_read g d name st).
Proof.
  intros Hd Hsub. destruct (st_kind st) eqn:Hkind.
  - unfold open_child_directory. eapply holds_step.
    { by apply (holds_event _ _ (λ g' r,
        g' = (g ++ [Obs CancelAsked false; Obs (FstatAt d name) (Ok st)]) ++ [Obs (OpenAt d name) r])). }
    2: by intros ? ? ? ? ?.
    intros g3 child ? ->.
    eapply holds_step; [eapply Hsub| |by intros ? ? ? ? ?].
    { eapply in_removal_child; [|apply told_last]. eapply in_removal_mono; [|exact Hd].
      by do 2 apply prefix_app_r. }
    intros g4 [] _ Hcl. destruct (Hcl eq_refl) as (l & -> & Hl). apply holds_ret. intros b [= <-].
    exists (Obs (OpenAt d name) (Ok child) :: l).
    split; [by rewrite <-!(assoc_L (++))|]. right. split; [done|]. split; [done|]. by exists child, l.
  - apply holds_ret. intros b [= <-]. exists []. split; [done|]. left. auto.
  - apply holds_ret. intros b [= <-]. exists []. split; [done|]. left. auto.
  - apply holds_ret. by intros b.
Qed.

Lemma remove_entries_hold subtree d names g :
  in_removal root g d →
  (∀ g' child, in_removal root g' child → holds g' (subtree child) (cleared g' child)) →
  holds g (remove_entries subtree d names) (unlinked g d names).
Proof.
  intros Hd Hsub. revert g Hd. induction names as [|name names IH]; intros g Hd.
  { apply holds_ret. intros _. exists []. split; [by rewrite app_nil_r|]. by intros n ?%elem_of_nil. }
  cbn [remove_entries]. eapply holds_bind.
  { by apply (holds_event _ _ (λ g' c, g' = g ++ [Obs CancelAsked c])). }
  intros g1 [] ? ->; [by apply holds_ret|].
  eapply holds_step.
  { by apply (holds_event _ _ (λ g' r, g' = g ++ [Obs CancelAsked false; Obs (FstatAt d name) r]));
      [|intros x; rewrite <-(assoc_L (++))]. }
  2: by intros.
  intros g2 st ? ->. eapply holds_step; [by apply entry_hold| |by intros].
  intros g3 b _ Hentry. destruct (Hentry b eq_refl) as (l & -> & Hl). eapply holds_step.
  { apply (holds_event _ _ (λ g' r, g' = (g ++ Obs CancelAsked false ::
      Obs (FstatAt d name) (Ok st) :: l) ++ [Obs (UnlinkAt d name b) r])); [|done].
    left. exists g, st, l. split; [done|]. split; [done|]. exact Hl. }
  2: by intros.
  intros g4 [] _ ->. eapply holds_mono.
  { apply IH. eapply in_removal_mono; [|exact Hd]. by do 2 apply prefix_app_r. }
  intros g5 res _ Hrest Hok. destruct (Hrest Hok) as (l2 & -> & Hn). eexists.
  split; [rewrite <-!(assoc_L (++)); reflexivity|].
  intros n [->|Hin]%elem_of_cons.
  - exists b. do 2 right. apply elem_of_app. right. left.
  - destruct (Hn n Hin) as [b' Hb]. exists b'. do 2 right. apply elem_of_app. right. by right.
Qed.

Lemma remove_contents_hold depth d g :
  in_removal root g d → holds g (remove_directory_contents depth d) (cleared g d).
Proof.
  revert d g. induction depth as [|depth IH]; intros d g Hd; [by apply holds_ret|].
  cbn [remove_directory_contents]. eapply holds_step; [apply names_hold| |by intros].
  intros g' names Hg (entries & -> & ->). eapply holds_mono.
  { apply remove_entries_hold; [by eapply in_removal_mono|]. intros g2 child. apply IH. }
  intros g2 res _ H Hok. destruct (H Hok) as (l & -> & Hl).
  exists (Obs (ReadEntries d) (Ok entries) :: l). split; [by rewrite <-(assoc_L (++))|].
  exists entries, l. split; [done|]. intros n Hn H1 H2. apply Hl.
  apply list_elem_of_In, filter_In. split; [by apply list_elem_of_In|by apply real_entry_iff].
Qed.

Lemma verify_hold rootd c g :
  holds g (verify_linked_candidate rootd c) (λ g' r, match r with
    | Ok _ => ∃ st, g' = g ++ [Obs (FstatAt rootd (clone_name c)) (Ok st)] ∧
        st_kind st = DirectoryNode ∧ is_candidate c st
    | Err _ => True end).
Proof.
  unfold verify_linked_candidate. eapply holds_step.
  { by apply (holds_event _ _ (λ g' r, g' = g ++ [Obs (FstatAt rootd (clone_name c)) r])). }
  2: done.
  intros g' st ? ->. apply holds_ret.
  destruct (negb _ || negb _ || negb _) eqn:Hb; [done|].
  apply orb_false_iff in Hb as [[H1 H2]%orb_false_iff H3].
  apply negb_false_iff in H1, H2, H3. exists st. split; [done|]. unfold is_candidate.
  split; [by apply bool_decide_eq_true in H1|].
  split; [by apply bool_decide_eq_true in H2|by apply bool_decide_eq_true in H3].
Qed.

Lemma remove_candidate_hold depth rootd k g :
  (∃ g1 facts g2, g = g1 ++ Obs (RunCleanup facts) true :: g2 ∧ may_remove root g1 rootd k ∧
     told g2 CancelAsked false) →
  holds g (remove_candidate depth euid rootd k) nothing.
Proof.
  intros (g1 & facts & g2 & -> & Hm & Hp). unfold remove_candidate. eapply holds_step.
  { by apply (holds_event _ _ (λ g' r,
      g' = (g1 ++ Obs (RunCleanup facts) true :: g2) ++ [Obs (Fstat (clone_directory k)) r])). }
  2: done.
  intros g' st ? ->. destruct (negb _ || negb _ || negb _) eqn:Hb; [by apply holds_ret|].
  apply orb_false_iff in Hb as [[H1 H2]%orb_false_iff H3].
  apply negb_false_iff, bool_decide_eq_true in H1, H2, H3.
  eapply holds_step; [apply verify_hold| |done].
  intros g3 [] ? (st' & -> & Hk & Hc). set (g4 := _ ++ [Obs (FstatAt _ _) _]).
  assert (candidate_of root g4 rootd k) as Hof.
  { exists g1, facts, (g2 ++ [Obs (Fstat (clone_directory k)) (Ok st);
      Obs (FstatAt rootd (clone_name (clone_identity k))) (Ok st')]).
    split; [unfold g4; by rewrite <-!(assoc_L (++))|]. split; [done|].
    split; [eapply told_mono; [by eexists|done]|]. split.
    - exists st. split; [|by split]. apply elem_of_app. right. left.
    - exists st'. split; [|by split]. apply elem_of_app. right. right. left. }
  eapply holds_step; [apply remove_contents_hold|..]; [|intros g5 [] Hg5 Hcl|done].
  { exists rootd, k. split; [done|]. constructor. }
  destruct (Hcl eq_refl) as (l & -> & Hl).
  eapply holds_step; [apply verify_hold| |done].
  intros g6 [] ? (st2 & -> & Hk2 & Hc2). apply (holds_event _ _ nothing); [|done].
  right. exists k, g4, l, st2. split; [done|]. split; [done|]. split; [done|].
  split; [by rewrite <-(assoc_L (++))|]. done.
Qed.

Lemma remove_candidates_hold depth rootd ks cs g :
  (∃ g1 facts g2, g = g1 ++ Obs (RunCleanup facts) true :: g2 ∧
     ∀ k, k ∈ ks → clone_identity k ∈ cs → may_remove root g1 rootd k) →
  holds g (remove_candidates depth euid rootd ks cs) nothing.
Proof.
  revert g. induction cs as [|c cs IH]; intros g (g1 & facts & g2 & -> & Hm); [by apply holds_ret|].
  cbn [remove_candidates]. eapply holds_bind.
  { by apply (holds_event _ _ (λ g' c,
      g' = g1 ++ Obs (RunCleanup facts) true :: g2 ++ [Obs CancelAsked c]));
      [|intros x; rewrite <-(assoc_L (++))]. }
  intros g' [] ? ->; [by apply holds_ret|].
  destruct (List.find _ ks) as [k|] eqn:Hfind; [|by apply holds_ret].
  apply find_some in Hfind as [Hk%list_elem_of_In Hc%bool_decide_eq_true].
  eapply holds_step.
  { apply remove_candidate_hold. exists g1, facts, (g2 ++ [Obs CancelAsked false]).
    split; [done|]. split; [|apply told_last]. apply Hm; [done|]. rewrite Hc. left. }
  2: done.
  intros g3 [] [l ->] _. apply IH. exists g1, facts, (g2 ++ [Obs CancelAsked false] ++ l).
  split; [rewrite <-!(assoc_L (++)); simpl; by rewrite <-!(assoc_L (++))|].
  intros k' Hk' Hc'. apply Hm; [done|by right].
Qed.

(** ** The scan *)

Lemma count_entries_hold subtree d names total g :
  (∀ g' child, holds g' (subtree child) nothing) →
  holds g (count_entries subtree d names total) nothing.
Proof.
  intros Hsub. revert g total. induction names as [|name names IH]; intros g total;
    [by apply holds_ret|]. cbn [count_entries].
  eapply holds_step; [by apply (holds_event _ _ nothing)| |done]. intros g1 st _ _.
  eapply (holds_step _ _ _ nothing); [| |done].
  - destruct (st_kind st); [|by apply holds_ret..].
    eapply holds_step; [by apply (holds_event _ _ nothing)| |done]. intros. apply Hsub.
  - intros g2 bytes _ _. case_bool_decide; [apply IH|by apply holds_ret].
Qed.

Lemma tree_bytes_hold depth d g : holds g (logical_tree_bytes depth d) nothing.
Proof.
  revert d g. induction depth as [|depth IH]; intros d g; [by apply holds_ret|].
  cbn [logical_tree_bytes]. eapply holds_step; [apply names_done| |done].
  intros g' names _ _. apply count_entries_hold. intros. apply IH.
Qed.

Lemma any_child_hold d names g : holds g (any_child_directory d names) nothing.
Proof.
  revert g. induction names as [|name names IH]; intros g; [by apply holds_ret|].
  cbn [any_child_directory]. eapply holds_bind; [by apply (holds_event _ _ nothing)|].
  intros g' [child|e] _ _; [by apply holds_ret|apply IH].
Qed.

(** A candidate as its entry was read. *)
Definition read_candidate (g : fs_trace) (rootd : descriptor) (name : string) (k : CloneCandidate) :
    Prop :=
  clone_name (clone_identity k) = name ∧ valid_clone_name name = true ∧
  told g (OpenAt rootd name) (Ok (clone_directory k)) ∧
  ∃ st, told g (Fstat (clone_directory k)) (Ok st) ∧ st_uid st = euid ∧
    is_candidate (clone_identity k) st.

Lemma read_candidate_mono g g' rootd name k :
  g `prefix_of` g' → read_candidate g rootd name k → read_candidate g' rootd name k.
Proof.
  intros Hg (H1 & H2 & H3 & st & H4 & H5). split; [done|]. split; [done|].
  split; [by eapply told_mono|]. exists st. split; [by eapply told_mono|done].
Qed.

Lemma scan_entry_hold depth rootd name g :
  holds g (scan_entry depth euid rootd name) (λ g' r, match r with
    | Ok (k, _) => read_candidate g' rootd name k
    | Err _ => True end).
Proof.
  unfold scan_entry, to_str. destruct (utf8_valid name); [|by apply holds_ret].
  destruct (valid_clone_name name) eqn:Hname; cbn [negb]; [|by apply holds_ret].
  eapply holds_bind.
  { by apply (holds_event _ _ (λ g' r, told g' (OpenAt rootd name) r)); [|intros; apply told_last]. }
  intros g1 [d|e] Hg1 Hopen; [|by apply holds_ret].
  eapply holds_bind.
  { by apply (holds_event _ _ (λ g' r, told g' (Fstat d) r)); [|intros; apply told_last]. }
  intros g2 [st|e] Hg2 Hst; [|by apply holds_ret].
  destruct (bool_decide (st_uid st = euid)) eqn:Huid; cbn [negb]; [|by apply holds_ret].
  apply bool_decide_eq_true in Huid.
  eapply holds_bind; [apply any_child_hold|]. intros g3 [] Hg3 _; cbn [negb]; [|by apply holds_ret].
  eapply holds_bind; [apply tree_bytes_hold|]. intros g4 [bytes|e] Hg4 _; [|by apply holds_ret].
  apply holds_ret. split; [done|]. split; [done|].
  split; [by eapply told_mono; [|exact Hopen]; repeat (etransitivity; [eassumption|])|].
  exists st. split; [eapply told_mono; [|exact Hst]; by etransitivity|by split].
Qed.

Lemma scan_entries_hold depth rootd names bytes g :
  holds g (scan_entries depth euid rootd names bytes) (λ g' r, match r with
    | Ok (ks, _) => Forall2 (read_candidate g' rootd) names ks
    | Err _ => True end).
Proof.
  revert bytes g. induction names as [|name names IH]; intros bytes g; [by apply holds_ret|].
  cbn [scan_entries]. eapply holds_step; [apply scan_entry_hold| |done].
  intros g1 [k size] Hg1 Hk. simpl. case_bool_decide; [|by apply holds_ret].
  eapply holds_step; [apply IH| |done]. intros g2 [ks total] Hg2 Hks. apply holds_ret.
  simpl. constructor; [by eapply read_candidate_mono|done].
Qed.

(** What a scan counts is what it found. *)
Definition scan_counts (sc : CloneScan) : Prop :=
  let o := scan_observation sc in
  match sr_status o with
  | ResidueUnavailable => sr_shape_complete o = false ∧ scan_candidates sc = []
  | ResidueClear => sr_shape_complete o = true ∧ scan_candidates sc = [] ∧ sr_candidate_count o = 0%N
  | ResidueDetected => sr_shape_complete o = true ∧ scan_candidates sc ≠ [] ∧
      sr_candidate_count o = N.of_nat (length (scan_candidates sc))
  end.

Definition good_scan (g : fs_trace) (sc : CloneScan) : Prop :=
  scan_counts sc ∧ (lists_once g → NoDup (clone_name <$> identities sc)) ∧
  ∀ k, k ∈ scan_candidates sc → ∃ rootd, scan_root sc = Some rootd ∧ scanned euid root g rootd k.

Lemma good_scan_mono g g' sc : g `prefix_of` g' → good_scan g sc → good_scan g' sc.
Proof.
  intros Hg (H1 & H2 & H3). split; [done|].
  split; [intros Hl; apply H2; by eapply lists_once_mono|].
  intros k Hk. destruct (H3 k Hk) as (rootd & Hr & Hv & Ho & Hc & st & Hs & Hu).
  exists rootd. split; [done|]. split; [done|]. split; [by eapply told_mono|].
  split; [by eapply told_mono|]. exists st. split; [by eapply told_mono|done].
Qed.

Lemma good_scan_none g o :
  sr_status o = ResidueUnavailable ∧ sr_shape_complete o = false ∨
  sr_status o = ResidueClear ∧ sr_shape_complete o = true ∧ sr_candidate_count o = 0%N →
  good_scan g (scan_from_observation o).
Proof.
  intros H. split.
  - unfold scan_counts. simpl. destruct H as [(-> & ->)|(-> & -> & ->)]; done.
  - split; [intros _; constructor|]. by intros k ?%elem_of_nil.
Qed.

Lemma read_candidates_names g rootd names ks :
  Forall2 (read_candidate g rootd) names ks → clone_name <$> (clone_identity <$> ks) = names.
Proof. induction 1 as [|name k names ks [H _] _ IH]; [done|].
  rewrite !fmap_cons. f_equal; [exact H|exact IH].
Qed.

Lemma scan_hold depth observed_at g :
  holds g (scan_code_sign_clone_root depth euid root observed_at) good_scan.
Proof.
  unfold scan_code_sign_clone_root.
  eapply holds_bind; [by apply (holds_event _ _ nothing)|].
  intros g1 [st|[|e]] Hg1 _; [|apply holds_ret, good_scan_none; auto..].
  destruct (negb _ || negb _); [apply holds_ret, good_scan_none; auto|].
  eapply holds_bind.
  { by apply (holds_event _ _ (λ g' r, told g' (OpenRoot root) r)); [|intros; apply told_last]. }
  intros g2 [d|e] Hg2 Hopen; [|apply holds_ret, good_scan_none; auto].
  eapply holds_bind.
  { unfold directory_names. eapply (holds_step _ _ _ _ (λ g' r, match r with
      | Ok names => ∃ entries, told g' (ReadEntries d) (Ok entries) ∧
          (NoDup entries → NoDup names)
      | Err _ => True end)).
    - by apply (holds_event _ _ (λ g' r, told g' (ReadEntries d) r)); [|intros; apply told_last].
    - intros g3 entries _ He. apply holds_ret. exists entries. split; [done|].
      intros Hnd. apply NoDup_ListNoDup, List.NoDup_filter. by apply NoDup_ListNoDup.
    - done. }
  intros g3 [names|e] Hg3 Hnames; [|apply holds_ret, good_scan_none; auto].
  destruct Hnames as (entries & He & Hnd).
  eapply holds_bind; [apply scan_entries_hold|].
  intros g4 [[ks bytes]|reason] Hg4 Hks; [|apply holds_ret, good_scan_none; auto].
  apply holds_ret. split; [|split].
  - unfold scan_counts, complete_observation. simpl. case_bool_decide as Hz; simpl.
    + split; [done|]. split; [apply length_zero_iff_nil; lia|lia].
    + split; [done|]. split; [by intros ->|done].
  - intros Hl. change (NoDup (clone_name <$> (clone_identity <$> ks))).
    refine (eq_ind_r NoDup _ (read_candidates_names _ _ _ _ Hks)).
    rewrite merge_sort_Permutation. apply Hnd, (Hl d). eapply told_mono; [|exact He]. done.
  - intros k Hk. exists d. split; [done|].
    apply list_elem_of_lookup in Hk as [i Hi].
    destruct (Forall2_lookup_r _ _ _ _ _ Hks Hi) as (name & _ & <- & Hv & Ho & st' & Hs & Hu).
    split; [done|]. split; [eapply told_mono; [|exact Hopen]; by etransitivity|].
    split; [done|]. by exists st'.
Qed.

(** ** The choice *)

Lemma process_gates_hold seen g :
  holds g (process_gates s root seen) (λ g' gates, length gates = length seen ∧
    ∀ i c, seen !! i = Some c → gates !! i = Some GateClear →
      ∃ snap canonical, s = Some snap ∧ proves_complete_classification_coverage snap = true ∧
        told g' (Canonicalize root) (Ok canonical) ∧
        ∀ p, p ∈ processes snap →
          leaves_alone (NoDup (clone_name <$> seen)) root canonical seen c p).
Proof.
  unfold process_gates. set (incomplete := replicate (length seen) GateIncomplete).
  assert (∀ g', holds g' (Ret incomplete) (λ g' gates, length gates = length seen ∧
    ∀ i c, seen !! i = Some c → gates !! i = Some GateClear →
      ∃ snap canonical, s = Some snap ∧ proves_complete_classification_coverage snap = true ∧
        told g' (Canonicalize root) (Ok canonical) ∧
        ∀ p, p ∈ processes snap →
          leaves_alone (NoDup (clone_name <$> seen)) root canonical seen c p)) as Hinc.
  { intros g'. apply holds_ret. unfold incomplete. split; [by rewrite length_replicate|].
    intros i c _ Hg. by apply lookup_replicate in Hg as [? _]. }
  destruct s as [snap|] eqn:Hsnap; [|apply Hinc].
  destruct (proves_complete_classification_coverage snap) eqn:Hcov; cbn [negb]; [|apply Hinc].
  eapply holds_bind.
  { by apply (holds_event _ _ (λ g' r, told g' (Canonicalize root) r)); [|intros; apply told_last]. }
  intros g1 [canonical|e] Hg1 Ht; [|apply Hinc].
  destruct (gates_of_processes _ _ _ _ _) as [gates|] eqn:Hgates; [|apply Hinc].
  apply holds_ret. cbn [default].
  assert (length (replicate (length seen) GateClear) = length seen) as Hlen by apply length_replicate.
  split.
  - clear -Hgates Hlen. revert gates Hgates Hlen. generalize (replicate (length seen) GateClear).
    induction (processes snap) as [|p ps IH]; simpl; intros gs gates H Hlen; [by injection H as <-|].
    apply bind_Some in H as (g1 & H1 & H). eapply IH; [exact H|]. by eapply gates_of_process_length.
  - intros i c Hc Hclear. exists snap, canonical. split; [done|]. split; [done|]. split; [done|].
    by destruct (gates_of_processes_clear _ _ _ _ _ _ _ _ Hlen Hgates Hclear Hc).
Qed.

Lemma removable_elem stable seen gates c :
  c ∈ removable stable seen gates →
  ∃ i, seen !! i = Some c ∧ gates !! i = Some GateClear ∧ c ∈ stable.
Proof.
  unfold removable. intros H. apply list_elem_of_fmap in H as ([c' gate] & -> & H).
  apply list_elem_of_In, filter_In in H as [Hin Hb].
  apply andb_true_iff in Hb as [Hs%bool_decide_eq_true Hg%bool_decide_eq_true]. simpl in *. subst.
  apply list_elem_of_In, list_elem_of_lookup in Hin as [i Hi]. exists i.
  apply lookup_zip_with_Some in Hi as (x & y & [= -> <-] & Hx & Hy). done.
Qed.

Lemma removable_sublist stable seen gates : removable stable seen gates `sublist_of` seen.
Proof.
  unfold removable. revert gates. induction seen as [|c seen IH]; intros [|gate gates]; simpl;
    [constructor|constructor|apply sublist_nil_l|].
  destruct (_ && _); simpl; [by constructor|by constructor].
Qed.

Lemma chosen_may_remove g sc gates k :
  mode = CloneEnforce → good_scan g sc →
  (∀ i c, identities sc !! i = Some c → gates !! i = Some GateClear →
      ∃ snap canonical, s = Some snap ∧ proves_complete_classification_coverage snap = true ∧
        told g (Canonicalize root) (Ok canonical) ∧
        ∀ p, p ∈ processes snap → leaves_alone (NoDup (clone_name <$> identities sc)) root canonical
          (identities sc) c p) →
  k ∈ scan_candidates sc →
  clone_identity k ∈ removable (stable previous (identities sc)) (identities sc) gates →
  ∃ rootd, scan_root sc = Some rootd ∧ may_remove root g rootd k.
Proof.
  intros Hmode (_ & Honce & Hscan) Hgates Hk Hc. destruct (Hscan k Hk) as (rootd & Hr & Hs).
  exists rootd. split; [done|]. apply removable_elem in Hc as (i & Hi & Hg & Hst).
  apply list_elem_of_In, filter_In in Hst as [_ Hp%bool_decide_eq_true].
  destruct (Hgates i _ Hi Hg) as (snap & canonical & Hs1 & Hcov & Ht & Hl).
  split; [done|]. split; [done|]. split; [done|]. exists snap, canonical, (identities sc).
  split; [done|]. split; [done|]. split; [done|]. split; [by eapply list_elem_of_lookup_2|].
  split; [|intros p Hp'; eapply leaves_alone_mono; [exact Honce|by apply Hl]].
  intros c (k' & -> & Hk')%list_elem_of_fmap. destruct (Hscan k' Hk') as (rootd' & Hr' & Hs').
  exists k'. split; [done|]. rewrite Hr in Hr'. by injection Hr' as <-.
Qed.

(** ** The report *)

(** What a removal reports passes the checks of the store for the attempt. *)
Definition accepted (attempt : StorageCleanupAttemptFacts) (res : StorageCleanupResultFacts)
    (o : StorageResidueObservation) : Prop :=
  validate_storage_result res = Ok tt ∧ agrees_with_observation res o = true ∧
  sc_planned_candidate_count res = sa_planned_candidate_count attempt ∧
  sc_before_candidate_count res = sa_before_candidate_count attempt ∧
  sc_before_logical_bytes res = sa_before_logical_bytes attempt.

(** The observation counts the same. *)
Definition same_counts (o o' : StorageResidueObservation) : Prop :=
  sr_status o' = sr_status o ∧ sr_candidate_count o' = sr_candidate_count o ∧
  sr_logical_bytes o' = sr_logical_bytes o.

Lemma apply_gates_counts gates o : same_counts o (apply_process_gates gates o).
Proof. unfold apply_process_gates. by repeat case_match. Qed.

Lemma waiting_counts b o : same_counts o (waiting_for_stability b o).
Proof. by destruct b. Qed.

Lemma present_absent (chosen seen : list CloneCandidateIdentity) :
  NoDup chosen →
  let absent := List.filter (λ c, negb (bool_decide (c ∈ seen))) chosen in
  length absent ≤ length chosen ∧ length chosen - length absent ≤ length seen.
Proof.
  intros Hnd absent.
  set (present := List.filter (λ c, bool_decide (c ∈ seen)) chosen).
  assert (length absent + length present = length chosen) as Hsum.
  { unfold absent, present. clear. induction chosen as [|c cs IH]; simpl; [done|].
    destruct (bool_decide (c ∈ seen)); simpl; lia. }
  assert (length present ≤ length seen); [|lia].
  apply submseteq_length, NoDup_submseteq.
  - apply NoDup_ListNoDup, List.NoDup_filter. by apply NoDup_ListNoDup.
  - intros c Hc. apply list_elem_of_In, filter_In in Hc as [_ Hc].
    by apply bool_decide_eq_true in Hc.
Qed.

Lemma result_accepted attempt removed_ok (proves : bool) (planned removed : nat) (o o' : StorageResidueObservation) disposition :
  sa_planned_candidate_count attempt = N.of_nat planned → removed ≤ planned →
  (proves = true → sr_status o ≠ ResidueUnavailable ∧
     (N.of_nat planned - N.of_nat removed ≤ sr_candidate_count o)%N ∧
     (sr_status o = ResidueClear → sr_candidate_count o = 0%N)) →
  cleanup_disposition (removed_ok && proves) (bool_decide (removed = planned)) o = (o', disposition) →
  accepted attempt
    (cleanup_result attempt disposition proves (N.of_nat planned) (N.of_nat removed) o') o'.
Proof.
  intros Hplan Hle Hproves H.
  assert (same_counts o o') as (Hst & Hcount & Hbytes).
  { unfold cleanup_disposition in H. repeat case_match; by injection H as <- _. }
  split; [|split; [|done]].
  2: { unfold agrees_with_observation, cleanup_result. simpl. destruct proves; [|done].
       by rewrite !bool_decide_eq_true_2. }
  unfold cleanup_disposition in H. unfold validate_storage_result, cleanup_result. simpl.
  destruct (removed_ok && proves && bool_decide (removed = planned)) eqn:Hb.
  - apply andb_true_iff in Hb as [[_ Hp]%andb_true_iff Hr%bool_decide_eq_true]. subst removed.
    destruct (Hproves Hp) as (Hav & _ & Hclear). rewrite Hp.
    destruct (sr_status o) eqn:Hs; [| |done]; injection H as <- <-; simpl;
      rewrite Hplan, (bool_decide_eq_true_2 (_ = _)) by done.
    + by rewrite (Hclear eq_refl).
    + rewrite N.sub_diag, N.sub_0_r. by rewrite bool_decide_eq_true_2.
  - injection H as <- <-. simpl. destruct proves; [|done].
    destruct (Hproves eq_refl) as (_ & Hc & _). rewrite Hplan. unfold checked_sub.
    rewrite bool_decide_eq_true_2 by lia. cbn [result_bind ok_or].
    rewrite (bool_decide_eq_true_2 (_ ≤ _)%N) by exact Hc. by rewrite bool_decide_eq_true_2.
Qed.

(** ** The reconciliation *)

(** What the events of a removal that is reported were: its attempt was authorised, and
    the store accepts what is reported of it. *)
Definition reported (g : fs_trace) (r : ChromeCloneReconciliation) : Prop :=
  ∀ res, clone_cleanup r = Some res → mode = CloneEnforce ∧
    ∃ facts, told g (RunCleanup facts) true ∧ (0 < sa_planned_candidate_count facts)%N ∧
      (sa_planned_candidate_count facts ≤ sa_before_candidate_count facts)%N ∧
      (lists_once g → accepted facts res (clone_observation r)).

Lemma detected_counts sc :
  scan_counts sc →
  sr_status (scan_observation sc) ≠ ResidueUnavailable →
  sr_candidate_count (scan_observation sc) = N.of_nat (length (identities sc)) ∧
  (sr_status (scan_observation sc) = ResidueClear → sr_candidate_count (scan_observation sc) = 0%N).
Proof.
  unfold scan_counts, identities. rewrite length_fmap. intros H Hne.
  destruct (sr_status (scan_observation sc)); [|by destruct H as (_ & _ & ->)|done].
  destruct H as (_ & -> & ->). by split.
Qed.

Lemma settle_hold depth observed_at stable chosen attempt removal g :
  sa_planned_candidate_count attempt = N.of_nat (length chosen) →
  holds g (settle_removal depth euid root observed_at s stable chosen attempt removal)
    (λ g' r, ∃ res, clone_cleanup r.2 = Some res ∧
       (lists_once g' → NoDup chosen → accepted attempt res (clone_observation r.2))).
Proof.
  intros Hplan. unfold settle_removal. eapply holds_bind; [apply scan_hold|].
  intros g1 sc Hg1 (Hcounts & Honce & _).
  set (absent := List.filter _ chosen). set (proves := _ && negb _).
  eapply (holds_bind _ _ _ (λ g' r, same_counts (scan_observation sc) r.2)).
  { destruct (sr_status (scan_observation sc)); [by apply holds_ret| |by apply holds_ret].
    eapply holds_bind; [apply process_gates_hold|]. intros g2 gates Hg2 _. apply holds_ret. simpl.
    set (o := apply_process_gates gates (scan_observation sc)).
    destruct (waiting_counts (existsb (λ c, negb (bool_decide (c ∈ stable))) (identities sc))
      (o <| sr_automatic_cleanup_eligible := existsb
         (λ e, bool_decide (e.1 ∈ stable) && bool_decide (e.2 = GateClear))
         (zip (identities sc) gates) |>)) as (H1 & H2 & H3).
    destruct (apply_gates_counts gates (scan_observation sc)) as (H4 & H5 & H6).
    fold o in H4, H5, H6. split; [by rewrite H1|]. split; [by rewrite H2|by rewrite H3]. }
  intros g2 [seen o] Hg2 (Hst & Hcount & Hbytes). simpl in *.
  destruct (cleanup_disposition _ _ o) as [o' disposition] eqn:Hdisp. apply holds_ret. simpl.
  eexists. split; [done|]. intros Hl Hnd.
  destruct (present_absent chosen (identities sc) Hnd) as [Hle Hpresent]. fold absent in Hle, Hpresent.
  eapply (result_accepted _ _ proves _ _ o); [done|done| |exact Hdisp].
  intros Hp. unfold proves in Hp. apply andb_true_iff in Hp as [_ Hp].
  assert (sr_status (scan_observation sc) ≠ ResidueUnavailable) as Hne by (intros Hs; by rewrite Hs in Hp).
  destruct (detected_counts sc Hcounts Hne) as [Hc Hclear].
  rewrite Hst, Hcount. split; [done|]. split; [rewrite Hc; lia|done].
Qed.

Lemma candidates_hold depth observed_at sc gates g :
  sr_status (scan_observation sc) = ResidueDetected → good_scan g sc →
  length gates = length (identities sc) →
  (∀ i c, identities sc !! i = Some c → gates !! i = Some GateClear →
      ∃ snap canonical, s = Some snap ∧ proves_complete_classification_coverage snap = true ∧
        told g (Canonicalize root) (Ok canonical) ∧
        ∀ p, p ∈ processes snap → leaves_alone (NoDup (clone_name <$> identities sc)) root canonical
          (identities sc) c p) →
  holds g
    (reconcile_candidates depth euid root observed_at s mode sc (stable previous (identities sc)) gates)
    (λ g' r, reported g' r.2).
Proof.
  intros Hdet Hscan Hlen Hgates. unfold reconcile_candidates.
  set (chosen := removable _ _ _). set (o := waiting_for_stability _ _).
  case_bool_decide as Hnone; [by apply holds_ret|].
  destruct mode eqn:Hmode; [by apply holds_ret| |by apply holds_ret].
  set (attempt := mkStorageCleanupAttemptFacts _ _ _).
  assert (sr_candidate_count o = N.of_nat (length (identities sc))) as Hcount.
  { unfold o. destruct (waiting_counts (negb (bool_decide (length (stable previous (identities sc)) =
      length (identities sc)))) (apply_process_gates gates (scan_observation sc))) as (_ & -> & _).
    destruct (apply_gates_counts gates (scan_observation sc)) as (_ & -> & _).
    destruct Hscan as (Hc & _). by apply detected_counts; [|rewrite Hdet]. }
  assert (chosen `sublist_of` identities sc) as Hsub by apply removable_sublist.
  pose proof (sublist_length _ _ Hsub) as Hsublen.
  eapply holds_bind.
  { by apply (holds_event _ _ (λ g' run, g' = g ++ [Obs (RunCleanup attempt) run])). }
  intros g1 [] Hg1 ->; [|by apply holds_ret].
  eapply (holds_bind _ _ _ nothing).
  { unfold remove_clones. destruct (scan_root sc) as [rootd|] eqn:Hroot; [|by apply holds_ret].
    apply remove_candidates_hold. exists g, attempt, []. split; [done|].
    intros k Hk Hc.
    destruct (chosen_may_remove g sc gates k) as (rootd' & Hr & Hm); [congruence|done..|].
    rewrite Hroot in Hr. by injection Hr as <-. }
  intros g2 removal Hg2 _. eapply holds_mono; [by apply settle_hold|].
  intros g3 r Hg3 (res & Hres & Hacc) res' Hres'. rewrite Hres in Hres'. injection Hres' as <-.
  split; [done|]. exists attempt. split.
  { eapply told_mono; [|apply told_last]. by etransitivity. }
  split; [|split].
  - unfold attempt. simpl. destruct chosen; [done|simpl; lia].
  - unfold attempt. simpl. rewrite Hcount. lia.
  - intros Hl. apply Hacc; [done|]. eapply sublist_NoDup; [|exact Hsub].
    apply (NoDup_fmap_1 clone_name), Hscan. eapply lists_once_mono; [|exact Hl]. etransitivity; [|exact Hg3].
    by etransitivity.
Qed.

Lemma reconcile_root_hold depth observed_at g :
  holds g (reconcile_root_guarded depth euid root observed_at s mode previous)
    (λ g' r, reported g' r.2).
Proof.
  unfold reconcile_root_guarded. eapply holds_bind; [apply scan_hold|].
  intros g1 sc Hg1 Hscan.
  destruct (sr_status (scan_observation sc)) eqn:Hst; [by apply holds_ret| |by apply holds_ret].
  eapply holds_bind; [apply process_gates_hold|]. intros g2 gates Hg2 [Hlen Hgates].
  apply candidates_hold; [done|by eapply good_scan_mono|done|done].
Qed.
End Removal.

(** The clone root of the user. *)
Definition clone_root (temporary : string) : option string :=
  parent ← path_parent temporary; Some (path_join (path_join parent "X") CLONE_ROOT_NAME).

Lemma reconcile_runs depth euid observed_at s mode previous tr r :
  runs (reconcile depth euid observed_at s mode previous) tr r →
  ∃ temporary tr', tr = Obs TempDir temporary :: tr' ∧
    match clone_root temporary with
    | Some root => accepts record_obs (clone_event_ok euid s mode previous root) [] tr' ∧
        reported mode tr' r.2
    | None => tr' = [] ∧ clone_cleanup r.2 = None
    end.
Proof.
  unfold reconcile, clone_root. intros (temporary & tr' & -> & H). exists temporary, tr'.
  split; [done|]. cbn [bind] in H. unfold mbind, option_bind.
  destruct (path_parent temporary) as [parent|]; [|by destruct H as [-> ->]].
  pose proof (reconcile_root_hold euid s mode previous
    (path_join (path_join parent "X") CLONE_ROOT_NAME) depth observed_at []) as Hhold.
  eapply safe_runs in H as [Hacc Hrep]; [|exact Hhold]. destruct Hrep as [_ Hrep].
  split; [done|].
  by rewrite record_fold in Hrep.
Qed.

(** [C32] Only stale clones are deleted. Whatever the file system and the processes do during
    a reconciliation, a name is unlinked only in enforcing mode, after the removal was
    authorised, and within one clone: a directory of the clone root, of the user and with
    a clone's name, that the reconciliation before saw with the same identity and that no
    process of a complete snapshot uses, neither by a path nor, unless the kernel lists an
    entry twice, as the helper that cleans it up. Its identity was read again after the
    authorisation, of the open directory and of its name in the root. An entry is reached
    from it by opening directories without following links, and is unlinked after a poll
    for cancellation, as a file, as a link, or as a directory that was opened, listed and
    emptied since, every entry in it unlinked; the clone itself, once it was emptied so,
    right after its name in the root was found to be still its own. *)
Theorem only_stale_clones_are_deleted depth euid observed_at s mode previous tr r pre d name
    directory x post :
  runs (reconcile depth euid observed_at s mode previous) tr r →
  tr = pre ++ Obs (UnlinkAt d name directory) x :: post →
  ∃ temporary before root, pre = Obs TempDir temporary :: before ∧
    clone_root temporary = Some root ∧
    unlink_ok euid s mode previous root before d name directory.
Proof.
  intros (temporary & tr' & -> & H)%reconcile_runs Htr.
  destruct pre as [|o before]; [discriminate Htr|]. injection Htr as <- ->.
  destruct (clone_root temporary) as [root|] eqn:Hroot; [|destruct H as [H _]; by destruct before].
  exists temporary, before, root. split; [done|]. split; [done|].
  destruct H as [H _]. eapply accepts_at in H; [|reflexivity]. by rewrite record_fold in H.
Qed.

(** The store accepts what the removal reports. When directories are listed without
    repetition, the result that a reconciliation reports is of a removal that was
    authorised in enforcing mode, plans at least one candidate and no more than were
    observed, and passes every check that the store makes of a terminal result against
    the prepared attempt and the observation that is recorded with it. *)
Theorem removal_reports_are_accepted depth euid observed_at s mode previous tr seen r res :
  runs (reconcile depth euid observed_at s mode previous) tr (seen, r) → lists_once tr →
  clone_cleanup r = Some res →
  mode = CloneEnforce ∧
  ∃ facts, told tr (RunCleanup facts) true ∧ (0 < sa_planned_candidate_count facts)%N ∧
    (sa_planned_candidate_count facts ≤ sa_before_candidate_count facts)%N ∧
    accepted facts res (clone_observation r).
Proof.
  intros (temporary & tr' & -> & H)%reconcile_runs Hl Hres.
  destruct (clone_root temporary); [|by destruct H as [_ H]; simpl in H; rewrite Hres in H].
  destruct H as [_ Hrep]. destruct (Hrep res Hres) as (Hm & facts & Ht & H1 & H2 & H3).
  split; [done|]. exists facts. split; [by right|]. split; [done|]. split; [done|].
  apply H3. intros d entries He. apply (Hl d). by right.
Qed.
