(* ===== verification/Storage.v ===== *)
(** Storage: the storage cycle of the daemon, [unlinger-daemon/src/main.rs], on top of the
    reconciliation of [Clones.v].

    A cycle runs on the thread of the storage worker: it recovers what an earlier cycle
    left open, reconciles, and settles what was removed. Its calls on the control plane and
    on the store are atomic steps of the shared state, [storage_call]; between two of them
    other threads may have taken theirs. *)

From S2P Require Import Prelude Text Model Artifact Evidence Cleanup Cooling Names Store Effects.
From S2P Require Import Executor Analyzer Journal Lifecycle Residue Protocol Mutations.
From S2P Require Import Observations Views Maintenance Control Owners Engine Clones.

(** ** Calls *)

(** A lease on a storage cleanup: [StorageActivityGuard]. *)
Record StorageActivityGuard : Type := mkStorageActivityGuard {
  lease_prepared : PreparedStorageCleanupAttempt;
  lease_epoch : string;
}.

Inductive StorageC : Type → Type :=
| RecoverStorage (now : N) : StorageC (result N StoreError)
| StorageStateAt (now : N) : StorageC (result (DaemonMode * bool) ControlError)
| StartStorage (now : N) (facts : StorageCleanupAttemptFacts) :
    StorageC (result (option (PreparedStorageCleanupAttempt * string)) ControlError)
| MayContinue (lease : StorageActivityGuard) : StorageC bool
| CompleteStorage (prepared : PreparedStorageCleanupAttempt) (result_facts : StorageCleanupResultFacts)
    (o : StorageResidueObservation) : StorageC (result unit StoreError)
| RecordResidue (o : StorageResidueObservation) : StorageC (result unit StoreError)
| FinishStorage (prepared : PreparedStorageCleanupAttempt) : StorageC (result unit ControlError)
| FailStorage (now : N) (message : string) : StorageC (result unit ControlError).

Definition main_file : string := "crates/unlinger-daemon/src/main.rs".

Section Calls.
Context `{JR : Json StorageResidueObservation}.

(** A call that writes the maintenance tables, or fails. *)
Definition maintains {A B} (r : result (maintenance * A) StoreError) (answer : A → B)
    (c : ControlPlane) : ControlPlane * result B StoreError :=
  match r with
  | Ok (m, a) => (c <| ctl_maintenance := m |>, Ok (answer a))
  | Err e => (c, Err e)
  end.

(** What a call does; [fail_closed] is called at line 441. *)
Definition storage_call {X} (e : StorageC X) (v : call_env) (c : ControlPlane) :
    ControlPlane * X :=
  let io := ce_io v in
  let m := ctl_maintenance c in
  match e in StorageC X return ControlPlane * X with
  | RecoverStorage now => maintains (recover_storage_cleanup_attempts (io 0) now m) id c
  | StorageStateAt now => storage_cleanup_state_at (io 0) now c
  | StartStorage now facts =>
      start_storage_cleanup_if_ready_enforce (ce_random v 0%Z) (io 0) (io 1) now facts c
  | MayContinue lease => (c, storage_action_may_continue (lease_prepared lease) (lease_epoch lease) c)
  | CompleteStorage prepared result_facts o =>
      maintains (let? m := complete_storage_cleanup_attempt (io 0) prepared result_facts o m in
                 Ok (m, tt)) id c
  | RecordResidue o =>
      maintains (let? m := record_storage_residue_observation (io 0) o m in Ok (m, tt)) id c
  | FinishStorage prepared => finish_storage_action prepared c
  | FailStorage now message => fail_closed (main_file, 441%N) (io 0) now message c
  end.
End Calls.

(** ** Events *)

(** The events of the storage worker. *)
Inductive StorageE : Type → Type :=
| Clone {X : Type} (e : CloneE X) : StorageE X
| CaptureSnapshot : StorageE (result Snapshot RuntimeFailure)
| WorkerCancelled : StorageE bool
| ShutdownAsked : StorageE bool
| Storage {X : Type} (c : StorageC X) : StorageE X.

(** ** The cycle *)

(** Whether the worker or the daemon is to stop. *)
Definition stopping : prog StorageE bool :=
  do* cancelled := trigger WorkerCancelled in
  if cancelled : bool then Ret true else trigger ShutdownAsked.

(** The events of the reconciliation in the cycle, with the lease that is held:
    [should_cancel] and the callback of [run_storage_cycle]. *)
Definition clone_event (now : N) (X : Type) (e : CloneE X) (active : option StorageActivityGuard) :
    prog StorageE (option StorageActivityGuard * X) :=
  match e in CloneE X return prog StorageE (option StorageActivityGuard * X) with
  | CancelAsked =>
      do* stop := stopping in
      if stop then Ret (active, true) else
      match active with
      | None => Ret (active, false)
      | Some lease =>
          do* continue := trigger (Storage (MayContinue lease)) in
          Ret (active, negb continue)
      end
  | RunCleanup facts =>
      do* stop := stopping in
      if stop then Ret (active, false) else
      do* started := trigger (Storage (StartStorage now facts)) in
      match started with
      | Ok (Some (attempt, epoch)) => Ret (Some (mkStorageActivityGuard attempt epoch), true)
      | Ok None | Err _ => Ret (active, false)
      end
  | e => do* x := trigger (Clone e) in Ret (active, x)
  end.

(** The mode of the reconciliation. *)
Definition cleanup_mode (s : result (DaemonMode * bool) ControlError) : ChromeCloneCleanupMode :=
  match s with
  | Ok (Enforce, true) => CloneEnforce
  | Ok (ReportOnly, true) => CloneReportOnly
  | Ok (_, false) | Err _ => CloneLifecycleBlocked
  end.

(** The candidates of the cycle before, [ChromeCloneCleanup]. *)
Abbreviation candidates_before := (option (list CloneCandidateIdentity)).

(** The settlement of a reconciliation; [None] is the panic of a result without a lease. *)
Definition settle (active : option StorageActivityGuard) (r : ChromeCloneReconciliation) :
    prog StorageE (option (result unit StoreError)) :=
  match clone_cleanup r with
  | Some result_facts =>
      match active with
      | Some lease =>
          do* settled :=
            trigger (Storage (CompleteStorage (lease_prepared lease) result_facts
                                (clone_observation r))) in
          Ret (Some settled)
      | None => Ret None
      end
  | None =>
      do* recorded := trigger (Storage (RecordResidue (clone_observation r))) in
      Ret (Some recorded)
  end.

(** [StorageActivityGuard::finish], if there is a lease. *)
Definition finish_lease (active : option StorageActivityGuard) :
    prog StorageE (result unit ControlError) :=
  match active with
  | Some lease => trigger (Storage (FinishStorage (lease_prepared lease)))
  | None => Ret (Ok tt)
  end.

(** The closure of [run_storage_cycle], after the recovery. *)
Definition reconcile_storage (depth : nat) (euid now : N) (before : candidates_before) :
    prog StorageE (option StorageActivityGuard * candidates_before * option (result unit StoreError)) :=
  do* captured := trigger CaptureSnapshot in
  let s := match captured with Ok s => Some s | Err _ => None end in
  do* state := trigger (Storage (StorageStateAt now)) in
  do* r := interpret (clone_event now) (reconcile depth euid now s (cleanup_mode state) before) None in
  do* settled := settle r.1 r.2.2 in
  Ret (r.1, r.2.1, settled).

(** [run_storage_cycle] and [run_storage_residue_cycle]; [None] is a panic, after which the
    lease is dropped. *)
Definition run_storage_cycle (depth : nat) (euid now : N) (before : candidates_before) :
    prog StorageE (option (candidates_before * result unit string)) :=
  do* recovered := trigger (Storage (RecoverStorage now)) in
  match recovered with
  | Err e => Ret (Some (before, Err (display_store_error e)))
  | Ok _ =>
      do* r := reconcile_storage depth euid now before in
      let '(active, seen, settled) := r in
      do* finished := finish_lease active in
      Ret (settled ← settled;
           Some (seen, let? _ := map_err control_message finished in
                       map_err display_store_error settled))
  end.

(** ** The worker *)

(** [StorageWorker]: whether a thread runs; the state it took is held by the thread. *)
Record StorageWorker : Type := mkStorageWorker {
  storage_running : bool;
  storage_candidates : option candidates_before;
  storage_last_error : option string;
}.

Definition default_storage_worker : StorageWorker := mkStorageWorker false None None.

(** [should_log_cycle_error]. *)
Definition should_log_cycle_error (last_error : option string) (message : string) :
    option string * bool :=
  (Some message, negb (bool_decide (last_error = Some message))).

(** [StorageWorker::start]: the state that the thread gets, if one is started. *)
Definition start_storage_worker (w : StorageWorker) : StorageWorker * option candidates_before :=
  let before := default None (storage_candidates w) in
  let w := w <| storage_candidates := None |> in
  if storage_running w then (w, None) else (w <| storage_running := true |>, Some before).

(** [StorageWorker::collect], on a finished thread. *)
Definition collect_storage_worker (now : N)
    (completion : option (candidates_before * result unit string)) (w : StorageWorker) :
    prog StorageE StorageWorker :=
  let w := w <| storage_running := false |> in
  match completion with
  | Some (seen, outcome) =>
      let w := w <| storage_candidates := Some seen |> in
      Ret (match outcome with
           | Ok _ => w <| storage_last_error := None |>
           | Err message =>
               w <| storage_last_error := (should_log_cycle_error (storage_last_error w) message).1 |>
           end)
  | None =>
      do* _ := trigger (Storage (RecoverStorage now)) in
      do* _ :=
        trigger (Storage (FailStorage now "storage cleanup maintenance state could not settle")) in
      Ret w
  end.

Definition STORAGE_RESIDUE_OBSERVATION_INTERVAL_MILLIS : N := 15 * 60 * 1000.

(** [Iterator::max] of the times that are known. *)
Definition latest_time (a b : option N) : option N :=
  match a, b with
  | Some a, Some b => Some (N.max a b)
  | Some a, None | None, Some a => Some a
  | None, None => None
  end.

(** [storage_residue_observation_due]. *)
Definition storage_residue_observation_due (now : N) (persisted last_attempt : option N) : bool :=
  match latest_time persisted last_attempt with
  | Some last => bool_decide (STORAGE_RESIDUE_OBSERVATION_INTERVAL_MILLIS ≤ saturating_sub now last)%N
  | None => true
  end.
