(* ===== verification/StorageFacts.v ===== *)
(** StorageFacts: the storage cycle in a running daemon.

    The calls of [Storage.v] are steps of the control plane of [ControlSafety.v],
    interleaved with those of other threads. A removal happens only under a lease that was
    polled after it was given, and every lease that a cycle takes it settles and returns. *)

From S2P Require Import Prelude Text Model Fingerprint Artifact Evidence Cleanup Cooling Names.
From S2P Require Import Store Journal JournalFacts DurableRun StoreSafety Effects Executor.
From S2P Require Import Analyzer Decisions Lifecycle LifecycleFacts Residue Protocol Mutations.
From S2P Require Import Observations Views Maintenance Control ControlFacts ControlSafety Owners.
From S2P Require Import Engine Clones ClonesFacts Storage.

(** ** Programs that do not remove *)

(** The events that do not ask for the removal. *)
Definition asks_nothing (X : Type) (e : CloneE X) : Prop :=
  match e with RunCleanup _ => False | _ => True end.

Abbreviation modest := (confined asks_nothing).

Lemma modest_trigger {X} (e : CloneE X) : asks_nothing X e → modest (trigger e).
Proof. by intros H. Qed.


Lemma names_modest d : modest (directory_names d).
Proof. unfold directory_names. by apply confined_step. Qed.

Lemma tree_bytes_modest depth d : modest (logical_tree_bytes depth d).
Proof.
  revert d. induction depth as [|depth IH]; intros d; [done|]. cbn [logical_tree_bytes].
  apply confined_step; [apply names_modest|]. intros names. generalize 0%N.
  induction names as [|name names IHn]; intros total; [done|]. cbn [count_entries].
  apply confined_step; [done|]. intros st. apply confined_step.
  - destruct (st_kind st); try done. apply confined_step; [done|exact IH].
  - intros bytes. case_bool_decide; [apply IHn|done].
Qed.

Lemma any_child_modest d names : modest (any_child_directory d names).
Proof.
  induction names as [|name names IH]; [done|]. cbn [any_child_directory].
  apply confined_bind; [done|]. by intros [child|e].
Qed.

Lemma scan_entries_modest depth euid d names total :
  modest (scan_entries depth euid d names total).
Proof.
  revert total. induction names as [|name names IH]; intros total; [done|].
  cbn [scan_entries]. apply confined_step.
  - unfold scan_entry. destruct (to_str name); [|done]. destruct (negb _); [done|].
    apply confined_bind; [done|]. intros [clone|e]; [|done].
    apply confined_bind; [done|]. intros [st|e]; [|done]. destruct (negb _); [done|].
    apply confined_bind; [apply any_child_modest|]. intros bundled. destruct (negb bundled); [done|].
    apply confined_bind; [apply tree_bytes_modest|]. by intros [bytes|e].
  - intros [k bytes]. case_bool_decide; [|done]. apply confined_step; [apply IH|done].
Qed.

Lemma scan_modest depth euid root at_ : modest (scan_code_sign_clone_root depth euid root at_).
Proof.
  unfold scan_code_sign_clone_root. apply confined_bind; [done|]. intros [st|[|e]]; [|done..].
  destruct (_ || _); [done|]. apply confined_bind; [done|]. intros [d|e]; [|done].
  apply confined_bind; [apply names_modest|]. intros [names|e]; [|done].
  apply confined_bind; [apply scan_entries_modest|]. by intros [[ks bytes]|e].
Qed.

Lemma gates_modest s root cs : modest (process_gates s root cs).
Proof.
  unfold process_gates. destruct s; [|done]. destruct (negb _); [done|].
  apply confined_bind; [done|]. by intros [c|e].
Qed.

Lemma remove_contents_modest depth d : modest (remove_directory_contents depth d).
Proof.
  revert d. induction depth as [|depth IH]; intros d; [done|]. cbn [remove_directory_contents].
  apply confined_step; [apply names_modest|]. intros names.
  induction names as [|name names IHn]; [done|]. cbn [remove_entries].
  apply confined_bind; [done|]. intros []; [done|]. apply confined_step; [done|]. intros st.
  apply confined_step.
  - destruct (st_kind st); try done. apply confined_step; [done|]. intros child.
    by apply confined_step; [apply IH|].
  - intros b. by apply confined_step; [|intros _; apply IHn].
Qed.

Lemma verify_modest d c : modest (verify_linked_candidate d c).
Proof. unfold verify_linked_candidate. by apply confined_step. Qed.

Lemma remove_clones_modest depth euid sc cs : modest (remove_clones depth euid sc cs).
Proof.
  unfold remove_clones. destruct (scan_root sc) as [d|]; [|done].
  generalize (scan_candidates sc). intros ks.
  induction cs as [|c cs IH]; [done|]. cbn [remove_candidates].
  apply confined_bind; [done|]. intros []; [done|]. destruct (List.find _ ks) as [k|]; [|done].
  apply confined_step; [|intros _; apply IH]. unfold remove_candidate.
  apply confined_step; [done|]. intros st. destruct (_ || _); [done|].
  apply confined_step; [apply verify_modest|intros _].
  apply confined_step; [apply remove_contents_modest|intros _].
  by apply confined_step; [apply verify_modest|].
Qed.

Lemma settle_modest depth euid root at_ s st cs attempt removal :
  modest (settle_removal depth euid root at_ s st cs attempt removal).
Proof.
  unfold settle_removal. apply confined_bind; [apply scan_modest|]. intros sc.
  apply confined_bind.
  - destruct (sr_status _); try done. by apply confined_bind; [apply gates_modest|].
  - intros [seen o]. by destruct (cleanup_disposition _ _ _).
Qed.

Lemma modest_silent {A} (p : cloning A) tr a f b :
  modest p → runs p tr a → Obs (RunCleanup f) b ∉ tr.
Proof. intros Hp Hr Hin. exact (confined_runs _ _ _ _ _ _ _ Hp Hr Hin). Qed.

(** The answer to a request for the removal. *)
Definition run_answer (o : obs CloneE) : option bool :=
  match o with
  | @Obs _ X e x =>
      match e in CloneE X return X → option bool with RunCleanup _ => Some | _ => λ _, None end x
  end.

(** A reconciliation that removed nothing has not asked, or was refused; one that reports
    a removal asked for it once. *)
Definition asked_once (tr : fs_trace) (r : ChromeCloneReconciliation) : Prop :=
  (clone_cleanup r = None ∧ ∀ f, Obs (RunCleanup f) true ∉ tr) ∨
  (∃ res g1 f g2, clone_cleanup r = Some res ∧ tr = g1 ++ Obs (RunCleanup f) true :: g2 ∧
     ∀ f' b, Obs (RunCleanup f') b ∉ g1 ++ g2).

Lemma asked_once_before {A} (p : cloning A) tr a tr' r :
  modest p → runs p tr a → asked_once tr' r → asked_once (tr ++ tr') r.
Proof.
  intros Hp Hr [[Hn Hno]|(res & g1 & f & g2 & Hres & -> & Hno)].
  - left. split; [done|]. intros f [Hin|Hin]%elem_of_app; [|by eapply Hno].
    exact (modest_silent _ _ _ _ _ Hp Hr Hin).
  - right. exists res, (tr ++ g1), f, g2. split; [done|]. split; [by rewrite <-(assoc_L (++))|].
    intros f' b. rewrite <-(assoc_L (++)). intros [Hin|Hin]%elem_of_app; [|by eapply Hno].
    exact (modest_silent _ _ _ _ _ Hp Hr Hin).
Qed.

Lemma asked_once_none r : clone_cleanup r = None → asked_once [] r.
Proof. intros H. left. split; [done|]. by intros f ?%elem_of_nil. Qed.

Lemma settle_reports depth euid root at_ s st cs attempt removal tr r :
  runs (settle_removal depth euid root at_ s st cs attempt removal) tr r →
  ∃ res, clone_cleanup r.2 = Some res.
Proof.
  unfold settle_removal. intros (tr1 & tr2 & sc & -> & _ & H)%runs_bind_inv.
  apply runs_bind_inv in H as (tr3 & tr4 & [seen o] & -> & _ & H).
  destruct (cleanup_disposition _ _ _) as [o' d]. destruct H as [_ ->]. by eexists.
Qed.

Lemma candidates_asked depth euid root at_ s mode sc st gates tr r :
  runs (reconcile_candidates depth euid root at_ s mode sc st gates) tr r → asked_once tr r.2.
Proof.
  unfold reconcile_candidates. case_bool_decide as Hnone; [by intros [-> ->]; apply asked_once_none|].
  destruct mode; [by intros [-> ->]; apply asked_once_none| |by intros [-> ->]; apply asked_once_none].
  intros (answer & tr' & -> & H). cbn [bind] in H. destruct answer.
  - apply runs_bind_inv in H as (tr1 & tr2 & removal & -> & Hrm & H).
    destruct (settle_reports _ _ _ _ _ _ _ _ _ _ _ H) as [res Hres].
    right. eexists res, [], _, (tr1 ++ tr2). split; [done|]. split; [reflexivity|].
    intros f b. rewrite app_nil_l. intros [Hin|Hin]%elem_of_app.
    + exact (modest_silent _ _ _ _ _ (remove_clones_modest _ _ _ _) Hrm Hin).
    + exact (modest_silent _ _ _ _ _ (settle_modest _ _ _ _ _ _ _ _ _) H Hin).
  - destruct H as [-> ->]. left. split; [done|]. intros f Hin%list_elem_of_singleton.
    by apply (f_equal run_answer) in Hin.
Qed.

Lemma reconcile_asked depth euid at_ s mode previous tr r :
  runs (reconcile depth euid at_ s mode previous) tr r → asked_once tr r.2.
Proof.
  unfold reconcile. intros (tr0 & tr' & temporary & -> & Ht & H)%runs_bind_inv.
  eapply asked_once_before; [|exact Ht|]; [by apply modest_trigger|].
  destruct (path_parent temporary); [|by destruct H as [-> ->]; apply asked_once_none].
  unfold reconcile_root_guarded in H. apply runs_bind_inv in H as (tr1 & tr2 & sc & -> & Hs & H).
  eapply asked_once_before; [apply scan_modest|exact Hs|].
  destruct (sr_status _); [by destruct H as [-> ->]; apply asked_once_none| |by destruct H as [-> ->]; apply asked_once_none].
  apply runs_bind_inv in H as (tr3 & tr4 & gates & -> & Hg & H).
  eapply asked_once_before; [apply gates_modest|exact Hg|]. by eapply candidates_asked.
Qed.

(** ** The events of the reconciliation in the cycle *)

Abbreviation storage_trace := (list (obs StorageE)).

(** The lease was given during the trace. *)
Definition leased (now : N) (tr : storage_trace) (lease : StorageActivityGuard) : Prop :=
  ∃ facts, Obs (Storage (StartStorage now facts))
    (Ok (Some (lease_prepared lease, lease_epoch lease))) ∈ tr.

Lemma leased_app now tr tr' lease : leased now tr lease → leased now (tr ++ tr') lease.
Proof. intros [facts H]. exists facts. apply elem_of_app. by left. Qed.

Lemma leased_app_r now tr tr' lease : leased now tr' lease → leased now (tr ++ tr') lease.
Proof. intros [facts H]. exists facts. apply elem_of_app. by right. Qed.

Lemma stopping_runs tr b :
  runs stopping tr b →
  tr = [Obs WorkerCancelled true] ∧ b = true ∨ tr = [Obs WorkerCancelled false; Obs ShutdownAsked b].
Proof.
  unfold stopping. intros (c & tr' & -> & H). cbn [bind] in H. destruct c.
  - destruct H as [-> ->]. by left.
  - destruct H as (x & tr2 & -> & -> & ->). by right.
Qed.

(** The event of the reconciliation that an event of the cycle is. *)
Definition clone_part (o : obs StorageE) : option (obs CloneE) :=
  match o with
  | @Obs _ X ev x =>
      match ev in StorageE X return X → option (obs CloneE) with
      | Clone e => λ x, Some (Obs e x)
      | _ => λ _, None
      end x
  end.

(** The lease that an answer gives. *)
Definition start_answer (o : obs StorageE) : option StorageActivityGuard :=
  match o with
  | @Obs _ X ev x =>
      match ev in StorageE X return X → option StorageActivityGuard with
      | @Storage Y call =>
          match call in StorageC Y return Y → option StorageActivityGuard with
          | StartStorage _ _ => λ answer,
              match answer with
              | Ok (Some (attempt, epoch)) => Some (mkStorageActivityGuard attempt epoch)
              | _ => None
              end
          | _ => λ _, None
          end
      | _ => λ _, None
      end x
  end.

Definition idle (o : obs StorageE) : Prop := clone_part o = None ∧ start_answer o = None.

Lemma leased_answer now tr lease : leased now tr lease → ∃ o, o ∈ tr ∧ start_answer o = Some lease.
Proof. intros [facts H]. eexists. split; [exact H|]. by destruct lease. Qed.

(** The answer to a poll. *)
Definition poll_answer (o : obs CloneE) : option bool :=
  match o with
  | @Obs _ X e x =>
      match e in CloneE X return X → option bool with CancelAsked => Some | _ => λ _, None end x
  end.

(** What an event of the reconciliation is in the cycle. *)
Inductive clone_case (now : N) (active : option StorageActivityGuard) :
    ∀ X, CloneE X → storage_trace → option StorageActivityGuard → X → Prop :=
| case_stopped tr : Forall idle tr → clone_case now active _ CancelAsked tr active true
| case_poll_idle :
    active = None →
    clone_case now active _ CancelAsked [Obs WorkerCancelled false; Obs ShutdownAsked false] active false
| case_poll lease :
    active = Some lease →
    clone_case now active _ CancelAsked
      [Obs WorkerCancelled false; Obs ShutdownAsked false; Obs (Storage (MayContinue lease)) true]
      active false
| case_refused facts tr :
    Forall idle tr → clone_case now active _ (RunCleanup facts) tr active false
| case_started facts lease :
    clone_case now active _ (RunCleanup facts)
      [Obs WorkerCancelled false; Obs ShutdownAsked false;
       Obs (Storage (StartStorage now facts)) (Ok (Some (lease_prepared lease, lease_epoch lease)))]
      (Some lease) true
| case_plain X (e : CloneE X) x :
    asks_nothing X e → poll_answer (Obs e x) = None →
    clone_case now active _ e [Obs (Clone e) x] active x.

Lemma clone_event_case now X (e : CloneE X) active tr active' x :
  runs (clone_event now X e active) tr (active', x) → clone_case now active _ e tr active' x.
Proof.
  assert (∀ Y (e : CloneE Y), asks_nothing Y e → (∀ y, poll_answer (Obs e y) = None) →
    ∀ y, runs (do* y := trigger (Clone e) in Ret (active, y)) tr (active', y) →
      clone_case now active _ e tr active' y) as Hplain.
  { intros Y e' Ha Hn y (y' & tr' & -> & H). destruct H as [-> [= -> ->]]. by apply case_plain. }
  destruct e; cbn [clone_event]; intros H;
    try (apply Hplain; [exact I|done|exact H]).
  - apply runs_bind_inv in H as (tr1 & tr2 & stop & -> & Hs & H).
    apply stopping_runs in Hs as [[-> ->]| ->]; [destruct H as [-> [= -> ->]]; by apply case_stopped; repeat constructor|].
    destruct stop; [destruct H as [-> [= -> ->]]; by apply case_stopped; repeat constructor|].
    destruct active as [lease|]; [|destruct H as [-> [= -> ->]]; by apply case_poll_idle].
    destruct H as ([] & tr' & -> & -> & [= -> ->]); [by apply case_poll|by apply case_stopped; repeat constructor].
  - apply runs_bind_inv in H as (tr1 & tr2 & stop & -> & Hs & H).
    apply stopping_runs in Hs as [[-> ->]| ->]; [destruct H as [-> [= -> ->]]; by apply case_refused; repeat constructor|].
    destruct stop; [destruct H as [-> [= -> ->]]; by apply case_refused; repeat constructor|].
    destruct H as (answer & tr' & -> & H).
    destruct answer as [[[attempt epoch]|]|failure]; destruct H as [-> [= -> ->]];
      [|by apply case_refused; repeat constructor..].
    exact (case_started now active facts (mkStorageActivityGuard attempt epoch)).
Qed.

(** Once a lease is held, one is held: the same, or one that was given since. *)
Lemma handled_leased now active ctr tr active' lease0 tr0 :
  handled (clone_event now) active ctr tr active' → active = Some lease0 → leased now tr0 lease0 →
  ∃ lease, active' = Some lease ∧ leased now (tr0 ++ tr) lease.
Proof.
  intros H. revert tr0 lease0. induction H as [s|s X e s1 x tr1 ctr tr2 s' Hr Hh IH];
    intros tr0 lease0 Hs Hl.
  - exists lease0. by rewrite app_nil_r.
  - rewrite (assoc_L (++)).
    assert (∃ lease1, s1 = Some lease1 ∧ leased now (tr0 ++ tr1) lease1) as (lease1 & H1 & H2).
    { apply clone_event_case in Hr. destruct Hr; try (by exists lease0; split; [|apply leased_app]).
      eexists. split; [reflexivity|]. apply leased_app_r. exists facts. right; right; left. }
    by apply (IH _ lease1).
Qed.

(** [clone_case], of an answered event. *)
Definition obs_case (now : N) (active : option StorageActivityGuard) (o : obs CloneE)
    (tr : storage_trace) (active' : option StorageActivityGuard) : Prop :=
  match o with @Obs _ X e x => clone_case now active X e tr active' x end.

Lemma handled_one now o active ctr tr active' :
  handled (clone_event now) active (o :: ctr) tr active' →
  ∃ tr1 tr2 active1, tr = tr1 ++ tr2 ∧ obs_case now active o tr1 active1 ∧
    handled (clone_event now) active1 ctr tr2 active'.
Proof.
  intros H. remember (o :: ctr) as l eqn:E.
  destruct H as [s|s Y f s1 y tr1 ctr' tr2 s' Hr Hh]; [done|].
  pose proof (f_equal tail E) as Hc. apply (f_equal head), (inj Some) in E. simpl in Hc. subst o ctr'.
  apply clone_event_case in Hr. by exists tr1, tr2, s1.
Qed.

Lemma run_granted now facts active tr active' :
  obs_case now active (Obs (RunCleanup facts) true) tr active' →
  ∃ lease, active' = Some lease ∧ leased now tr lease.
Proof.
  intros H. remember (Obs (RunCleanup facts) true) as o eqn:E. destruct o as [X e x].
  apply (f_equal run_answer) in E. destruct H; try done.
  - exists lease. split; [done|]. exists facts0. right; right; left.
  - by destruct e.
Qed.

Lemma poll_answered now lease tr active' :
  obs_case now (Some lease) (Obs CancelAsked false) tr active' →
  active' = Some lease ∧
  tr = [Obs WorkerCancelled false; Obs ShutdownAsked false; Obs (Storage (MayContinue lease)) true].
Proof.
  intros H. remember (Obs CancelAsked false) as o eqn:E. destruct o as [X e x].
  remember (Some lease) as active eqn:Ea.
  apply (f_equal poll_answer) in E. change (poll_answer (Obs CancelAsked false)) with (Some false) in E.
  destruct H; try done; try congruence. split; congruence.
Qed.

(** A poll that answered after the removal was authorised is one of the lease. *)
Lemma poll_of_lease now ctr1 ctr2 pre active' facts :
  handled (clone_event now) None (ctr1 ++ Obs CancelAsked false :: ctr2) pre active' →
  Obs (RunCleanup facts) true ∈ ctr1 →
  ∃ lease pre1 pre2, pre = pre1 ++ Obs (Storage (MayContinue lease)) true :: pre2 ∧
    leased now pre1 lease ∧ handled (clone_event now) (Some lease) ctr2 pre2 active'.
Proof.
  intros (pre1 & pre2 & active1 & -> & H1 & H2)%handled_app (g1 & g2 & ->)%list_elem_of_split.
  apply handled_app in H1 as (tr1 & tr2 & a & -> & _ & H1).
  apply handled_one in H1 as (tr3 & tr4 & a' & -> & Hrun & H1).
  apply run_granted in Hrun as (lease0 & -> & Hl0).
  destruct (handled_leased _ _ _ _ _ _ _ H1 eq_refl Hl0) as (lease & -> & Hl).
  apply handled_one in H2 as (tr5 & tr6 & a'' & -> & Hpoll & H2).
  apply poll_answered in Hpoll as [-> ->].
  exists lease, ((tr1 ++ tr3 ++ tr4) ++ [Obs WorkerCancelled false; Obs ShutdownAsked false]), tr6.
  split; [by rewrite <-!(assoc_L (++))|]. split; [|done]. by apply leased_app, leased_app_r.
Qed.

(** ** The runs of the cycle *)

(** The lemma behind [only_stale_clones_are_deleted]: a removal was authorised, and polled. *)
Lemma unlink_polled depth euid at_ s mode previous ctr r pre d name directory x post :
  runs (reconcile depth euid at_ s mode previous) ctr r →
  ctr = pre ++ Obs (UnlinkAt d name directory) x :: post →
  ∃ ctr1 ctr2 facts, pre = ctr1 ++ Obs CancelAsked false :: ctr2 ∧ Obs (RunCleanup facts) true ∈ ctr1 ∧
    (directory = false → ∃ st, ctr2 = [Obs (FstatAt d name) (Ok st)]).
Proof.
  intros (temporary & tr' & -> & H)%reconcile_runs Htr.
  destruct pre as [|o before]; [discriminate Htr|].
  pose proof (f_equal tail Htr) as Htl. apply (f_equal head), (inj Some) in Htr. simpl in Htl.
  subst o tr'. destruct (clone_root temporary) as [root|]; [|destruct H as [H _]; by destruct before].
  destruct H as [H _]. eapply accepts_at in H; [|reflexivity]. rewrite record_fold, app_nil_l in H.
  destruct H as [(g1 & st & g2 & Hb & (rootd & k & Hk & _) & Hcase)|(k & g1 & l & st & _ & Hk & Hdir & Hb & _)].
  - destruct Hk as (g3 & facts & g4 & -> & _). subst before.
    exists (Obs TempDir temporary :: g3 ++ Obs (RunCleanup facts) true :: g4),
      (Obs (FstatAt d name) (Ok st) :: g2), facts.
    split; [done|]. split; [right; apply elem_of_app; right; left|]. intros ->.
    destruct Hcase as [(_ & -> & _)|(Hd & _)]; [by exists st|done].
  - destruct Hk as (g3 & facts & g4 & -> & _ & (l1 & l2 & ->)%list_elem_of_split & _).
    exists (Obs TempDir temporary :: g3 ++ Obs (RunCleanup facts) true :: l1),
      (l2 ++ l ++ [Obs (FstatAt d name) (Ok st)]), facts. subst before.
    split; [simpl; by rewrite <-!(assoc_L (++)); simpl; rewrite <-!(assoc_L (++))|].
    split; [right; apply elem_of_app; right; left|]. by rewrite Hdir.
Qed.

Section Steps.
Context `{JE : Json EventPayload, JM : Json OrdinaryMutation, JR : Json MutationReceipt}.
Context `{JC : Json CleanupResources, JP : Json (list N)}.
Context `{JA : Json ToolCacheAvailability, JT : Json ToolCacheAttemptSummary}.
Context `{JN : Json NodeCompileCacheAttemptSummary, JS : Json StorageResidueObservation}.

Lemma maintains_steps {A B} (r : result (maintenance * A) StoreError) (answer : A → B) c :
  rtc ctl_step c (maintains r answer c).1.
Proof. destruct r as [[m a]|e]; simpl; [|done]. apply rtc_once, step_maintenance. Qed.

(** A call of the cycle is steps of the control plane. *)
Lemma storage_call_steps {X} (e : StorageC X) v c : rtc ctl_step c (storage_call e v c).1.
Proof.
  destruct e; cbn [storage_call]; cbv zeta; try apply maintains_steps.
  - apply rtc_once, step_storage_state.
  - apply rtc_once, step_storage_started.
  - done.
  - apply rtc_once, step_storage_finished.
  - apply rtc_once, step_fail_closed.
Qed.

(** What an event does to the control plane. *)
Definition storage_step (c : ControlPlane) (o : obs StorageE) (c' : ControlPlane) : Prop :=
  match o with
  | @Obs _ X ev x =>
      match ev in StorageE X return X → Prop with
      | Storage call => λ x, ∃ v, storage_call call v c = (c', x)
      | _ => λ _, c' = c
      end x
  end.

(** A trace of the worker, interleaved with the steps of other threads. *)
Inductive storage_run : ControlPlane → storage_trace → ControlPlane → Prop :=
| storage_nil c : storage_run c [] c
| storage_other c c1 tr c' : ctl_step c c1 → storage_run c1 tr c' → storage_run c tr c'
| storage_event c o c1 tr c' :
    storage_step c o c1 → storage_run c1 tr c' → storage_run c (o :: tr) c'.

Lemma storage_run_steps c tr c' : storage_run c tr c' → rtc ctl_step c c'.
Proof.
  induction 1 as [c|c c1 tr c' Hs _ IH|c o c1 tr c' Ho _ IH]; [done|by eapply rtc_l|].
  etransitivity; [|exact IH]. destruct o as [X ev x]. destruct ev; simpl in Ho; try by subst.
  destruct Ho as [v Hv]. pose proof (storage_call_steps c0 v c) as H. by rewrite Hv in H.
Qed.

Lemma storage_run_split c pre o post c' :
  storage_run c (pre ++ o :: post) c' →
  ∃ c1 c2, storage_run c pre c1 ∧ storage_step c1 o c2 ∧ storage_run c2 post c'.
Proof.
  intros H. remember (pre ++ o :: post) as tr eqn:E. revert pre E.
  induction H as [c|c c1 tr c' Hs Hr IH|c o' c1 tr c' Ho Hr IH]; intros pre E.
  - by destruct pre.
  - destruct (IH pre E) as (ca & cb & H1 & H2 & H3). exists ca, cb.
    split; [by eapply storage_other|done].
  - destruct pre as [|o2 pre]; simpl in E;
      pose proof (f_equal tail E) as Ht; apply (f_equal head), (inj Some) in E; simpl in Ht; subst.
    + exists c, c1. split; [constructor|done].
    + destruct (IH pre eq_refl) as (ca & cb & H1 & H2 & H3). exists ca, cb.
      split; [by eapply storage_event|done].
Qed.

(** What a cycle did: the recovery, the snapshot and the state of the daemon, the
    reconciliation, the settlement and the return of the lease. *)
Lemma storage_cycle_runs depth euid now before tr r :
  runs (run_storage_cycle depth euid now before) tr r →
  (∃ e, tr = [Obs (Storage (RecoverStorage now)) (Err e)] ∧
     r = Some (before, Err (display_store_error e))) ∨
  (∃ n captured state s ctr mid settling active seen report settled finishing finished,
     tr = Obs (Storage (RecoverStorage now)) (Ok n) :: Obs CaptureSnapshot captured ::
            Obs (Storage (StorageStateAt now)) state :: mid ++ settling ++ finishing ∧
     runs (reconcile depth euid now s (cleanup_mode state) before) ctr (seen, report) ∧
     handled (clone_event now) None ctr mid active ∧
     runs (settle active report) settling settled ∧
     runs (finish_lease active) finishing finished ∧
     r = (settled ← settled;
          Some (seen, let? _ := map_err control_message finished in
                      map_err display_store_error settled))).
Proof.
  unfold run_storage_cycle. intros (recovered & t1 & -> & H). cbn [bind] in H.
  destruct recovered as [n|e]; [right|destruct H as [-> ->]; left; by exists e].
  apply runs_bind_inv in H as (t2 & t3 & [[active seen'] settled] & -> & Hin & H).
  apply runs_bind_inv in H as (finishing & t4 & finished & -> & Hf & [-> ->]).
  unfold reconcile_storage in Hin. destruct Hin as (captured & t5 & -> & Hin). cbn [bind] in Hin.
  destruct Hin as (state & t6 & -> & Hin). cbn [bind] in Hin.
  apply runs_bind_inv in Hin as (mid & t7 & [active' [seen report]] & -> & Hi & Hin).
  apply runs_bind_inv in Hin as (settling & t8 & settled' & -> & Hs & [-> [= -> -> ->]]).
  apply interpret_handled in Hi as (ctr & Hr & Hh).
  eexists n, captured, state, _, ctr, mid, settling, active', seen, report, settled', finishing, finished.
  split; [|by split_and!]. simpl. by rewrite !app_nil_r, <-(assoc_L (++)).
Qed.

(** The calls that are made outside the reconciliation touch no clone. *)
Definition uncloned (X : Type) (ev : StorageE X) : Prop :=
  match ev with Clone _ => False | _ => True end.

Lemma settling_uncloned active report tr r :
  runs (settle active report) tr r → ∀ X (e : CloneE X) x, Obs (Clone e) x ∉ tr.
Proof.
  intros Hr X e x Hin. refine (confined_runs uncloned _ _ _ _ _ _ _ Hr Hin).
  unfold settle. by destruct (clone_cleanup report), active.
Qed.

Lemma finishing_uncloned active tr r :
  runs (finish_lease active) tr r → ∀ X (e : CloneE X) x, Obs (Clone e) x ∉ tr.
Proof.
  intros Hr X e x Hin. refine (confined_runs uncloned _ _ _ _ _ _ _ Hr Hin). by destruct active.
Qed.

Lemma clone_observed now active X (e : CloneE X) x tr active' pre o post :
  clone_case now active X e tr active' x → tr = pre ++ o :: post → clone_part o ≠ None →
  pre = [] ∧ clone_part o = Some (Obs e x) ∧ post = [].
Proof.
  intros H Htr Hc.
  assert (∀ l, Forall (λ o, clone_part o = None) l → l = pre ++ o :: post → False) as Hno.
  { intros l Hl ->. apply Forall_app in Hl as [_ Hl]. by apply Forall_cons in Hl as [? _]. }
  assert (∀ l, Forall idle l → Forall (λ o, clone_part o = None) l) as Hidle.
  { intros l Hl. eapply Forall_impl; [exact Hl|]. by intros o' [? _]. }
  destruct H; try (exfalso; eapply Hno; [|exact Htr]; (by apply Hidle) || (repeat constructor; done)).
  destruct pre as [|o' pre]; pose proof (f_equal tail Htr) as Ht; simpl in Ht; [|by destruct pre].
  apply (f_equal head), (inj Some) in Htr. by subst.
Qed.

(** The event of the cycle that a plain event of the reconciliation is. *)
Definition clone_obs (o : obs CloneE) : obs StorageE := match o with Obs e x => Obs (Clone e) x end.

Lemma obs_plain now active o tr active' :
  obs_case now active o tr active' → run_answer o = None → poll_answer o = None → tr = [clone_obs o].
Proof. intros H Hr Hp. destruct o as [X e x]. by destruct H. Qed.

Lemma handled_last now active o tr active' :
  handled (clone_event now) active [o] tr active' → run_answer o = None → poll_answer o = None →
  tr = [clone_obs o].
Proof.
  intros (t1 & t2 & a & -> & Hc & Hnil)%handled_one Hr Hp. rewrite (obs_plain _ _ _ _ _ Hc Hr Hp).
  remember [] as l eqn:E in Hnil. by destruct Hnil.
Qed.

(** A removal in a cycle, found in its reconciliation. *)
Lemma cycle_unlink depth euid now before tr r pre d name directory x post :
  runs (run_storage_cycle depth euid now before) tr r →
  tr = pre ++ Obs (Clone (UnlinkAt d name directory)) x :: post →
  ∃ n start lease pre1 pre2, pre = Obs (Storage (RecoverStorage now)) (Ok n) :: start ∧
    pre = pre1 ++ Obs (Storage (MayContinue lease)) true :: pre2 ∧ leased now pre1 lease ∧
    (directory = false → ∃ st, pre2 = [Obs (Clone (FstatAt d name)) (Ok st)]).
Proof.
  intros Hr Htr. set (o := Obs (Clone (UnlinkAt d name directory)) x) in *.
  assert (∀ o1, clone_part o1 = None → o ≠ o1) as Hne by (by intros o1 H <-).
  destruct (storage_cycle_runs _ _ _ _ _ _ Hr) as [(e & -> & _)|H].
  { apply cons_split_other in Htr as (p & _ & ?); [by destruct p|by apply Hne]. }
  destruct H as (n & captured & state & s & ctr & mid & settling & active & seen & report & settled &
    finishing & finished & E & Hrec & Hh & Hs & Hf & _).
  rewrite E in Htr. clear E.
  do 3 (apply cons_split_other in Htr as (? & -> & Htr); [|by apply Hne]).
  apply app_split_left in Htr as (l & Hmid & _).
  2: { intros [Hin|Hin]%elem_of_app; [exact (settling_uncloned _ _ _ _ Hs _ _ _ Hin)|
       exact (finishing_uncloned _ _ _ Hf _ _ _ Hin)]. }
  destruct (handled_at _ _ _ _ _ _ _ _ Hh Hmid) as (ctr1 & X & e & y & ctr2 & p1 & p2 & q & a1 & a2 &
    Hctr & Hpre & H1 & H2%clone_event_case).
  destruct (clone_observed _ _ _ _ _ _ _ _ _ _ H2 eq_refl) as (-> & Hpart & _); [done|].
  rewrite app_nil_r in Hpre. subst p1. apply (inj Some) in Hpart. rewrite <-Hpart in Hctr.
  destruct (unlink_polled _ _ _ _ _ _ _ _ _ _ _ _ _ _ Hrec Hctr) as (c1 & c2 & facts & -> & Hin & Hlast).
  destruct (poll_of_lease _ _ _ _ _ _ H1 Hin) as (lease & pre1 & pre2 & -> & Hl & Hrest).
  eexists n, _, lease, (_ :: _ :: _ :: pre1), pre2. split; [reflexivity|]. split; [reflexivity|].
  split; [by apply (leased_app_r now [_; _; _])|]. intros Hd. destruct (Hlast Hd) as [st ->]. exists st.
  by apply (handled_last _ _ _ _ _ Hrest).
Qed.

(** ** The lease of a cycle *)

Lemma obs_kept now active o tr active' :
  obs_case now active o tr active' → run_answer o ≠ Some true →
  active' = active ∧ Forall (λ o, start_answer o = None) tr.
Proof.
  destruct o as [X e x]. intros H Hn. destruct H; try done; (split; [done|]); try (repeat constructor).
  - eapply Forall_impl; [eassumption|]. by intros o [_ ?].
  - eapply Forall_impl; [eassumption|]. by intros o [_ ?].
Qed.

Lemma run_answer_true o : run_answer o = Some true → ∃ f, o = Obs (RunCleanup f) true.
Proof. destruct o as [X e x]. destruct e; intros [= ->]. by eexists. Qed.

Lemma handled_kept now active ctr tr active' :
  handled (clone_event now) active ctr tr active' → (∀ f, Obs (RunCleanup f) true ∉ ctr) →
  active' = active ∧ Forall (λ o, start_answer o = None) tr.
Proof.
  revert active tr. induction ctr as [|o ctr IH]; intros active tr H Hno.
  - remember [] as l eqn:E in H. by destruct H.
  - apply handled_one in H as (t1 & t2 & a & -> & Hc & H).
    destruct (obs_kept _ _ _ _ _ Hc) as [-> Ht1].
    { intros [f ->]%run_answer_true. apply (Hno f). left. }
    destruct (IH _ _ H) as [-> Ht2]; [intros f Hin; apply (Hno f); by right|].
    split; [done|]. by apply Forall_app.
Qed.

Lemma started_once now active o tr active' :
  obs_case now active o tr active' → ∀ facts lease,
  Obs (Storage (StartStorage now facts)) (Ok (Some (lease_prepared lease, lease_epoch lease))) ∈ tr →
  active' = Some lease.
Proof.
  intros H facts lease Hin.
  set (o1 := Obs _ _) in Hin. assert (start_answer o1 = Some lease) as Ho by (by destruct lease).
  destruct (decide (run_answer o = Some true)) as [Hrun|Hrun].
  - destruct o as [X e x]. destruct H; try done.
    + repeat (apply elem_of_cons in Hin as [Hin|Hin]; [rewrite Hin in Ho|]); try done.
      * by destruct lease0.
      * by apply elem_of_nil in Hin.
    + by destruct e.
  - destruct (obs_kept _ _ _ _ _ H Hrun) as [_ Hf]. rewrite Forall_forall in Hf. by rewrite Hf in Ho.
Qed.

(** The lease that a reconciliation leaves: of the removal that it reports. *)
Definition sole_lease (now : N) (tr : storage_trace) (active : option StorageActivityGuard) : Prop :=
  ∀ lease, leased now tr lease ↔ active = Some lease.

Lemma lease_of_reconciliation now ctr mid active report :
  handled (clone_event now) None ctr mid active → asked_once ctr report →
  sole_lease now mid active ∧ (is_Some (clone_cleanup report) ↔ is_Some active).
Proof.
  assert (∀ tr lease, Forall (λ o, start_answer o = None) tr → leased now tr lease → False) as Hnone.
  { intros tr lease Hf (o & Hin & Ho)%leased_answer. rewrite Forall_forall in Hf. by rewrite Hf in Ho. }
  intros Hh [[Hn Hno]|(res & g1 & f & g2 & Hres & -> & Hno)].
  - destruct (handled_kept _ _ _ _ _ Hh Hno) as [-> Hf]. rewrite Hn. split.
    + intros lease. split; [|done]. intros Hl. by destruct (Hnone _ _ Hf Hl).
    + by split; intros [? ?].
  - apply handled_app in Hh as (t1 & t2 & a1 & -> & H1 & H2).
    destruct (handled_kept _ _ _ _ _ H1) as [-> Hf1]; [intros f' Hin; apply (Hno f' true), elem_of_app; auto|].
    apply handled_one in H2 as (t3 & t4 & a2 & -> & Hrun & H2).
    destruct (run_granted _ _ _ _ _ Hrun) as (lease & -> & Hl).
    destruct (handled_kept _ _ _ _ _ H2) as [-> Hf2]; [intros f' Hin; apply (Hno f' true), elem_of_app; auto|].
    split; [|rewrite Hres; by split; eauto].
    intros lease'. split; [intros [facts Hin]|intros [= <-]; by apply leased_app_r, leased_app]. apply elem_of_app in Hin as [Hin|[Hin|Hin]%elem_of_app].
    + destruct (Hnone _ lease' Hf1). by exists facts.
    + by apply (started_once _ _ _ _ _ Hrun) in Hin as ->.
    + destruct (Hnone _ lease' Hf2). by exists facts.
Qed.

Definition unleased (X : Type) (ev : StorageE X) : Prop :=
  match ev with Storage (StartStorage _ _) => False | _ => True end.

Lemma settling_sole now tr0 settling finishing active report settled finished :
  runs (settle active report) settling settled → runs (finish_lease active) finishing finished →
  sole_lease now tr0 active → sole_lease now (tr0 ++ settling ++ finishing) active.
Proof.
  intros Hs Hf Hsole lease. split; [|intros H; apply leased_app; by apply Hsole].
  intros [facts [Hin|[Hin|Hin]%elem_of_app]%elem_of_app]; [apply Hsole; by exists facts|..]; exfalso.
  - refine (confined_runs unleased _ _ _ _ _ _ _ Hs Hin). unfold settle.
    by destruct (clone_cleanup report), active.
  - refine (confined_runs unleased _ _ _ _ _ _ _ Hf Hin). by destruct active.
Qed.

(** A lease that was taken is settled and returned, in this order, at the end. *)
Definition lease_settled (now : N) (tr : storage_trace) (outcome : result unit string) : Prop :=
  ∃ lease res o tr0 settled finished,
    tr = tr0 ++ [Obs (Storage (CompleteStorage (lease_prepared lease) res o)) settled;
                 Obs (Storage (FinishStorage (lease_prepared lease))) finished] ∧
    (∀ lease', leased now tr lease' ↔ lease' = lease) ∧
    (outcome = Ok tt ↔ settled = Ok tt ∧ finished = Ok tt).

(** No lease was taken, nothing unlinked, and the observation is recorded at the end. *)
Definition only_observed (now : N) (tr : storage_trace) (outcome : result unit string) : Prop :=
  ∃ o tr0 recorded, tr = tr0 ++ [Obs (Storage (RecordResidue o)) recorded] ∧
    (∀ lease, ¬ leased now tr lease) ∧
    (∀ d name directory x, Obs (Clone (UnlinkAt d name directory)) x ∉ tr) ∧
    (outcome = Ok tt ↔ recorded = Ok tt).

Lemma both_done {F G} (f : F → string) (g : G → string) (a : result unit F) (b : result unit G) :
  (let? _ := map_err f a in map_err g b) = Ok tt ↔ b = Ok tt ∧ a = Ok tt.
Proof. destruct a as [[]|e], b as [[]|e']; (split; [intros H|intros [H1 H2]]); by try split. Qed.

(** Storage cycles settle what they take. A cycle never panics for want of a lease.
    Either the recovery failed, and nothing else was done; or it took no lease, unlinked
    nothing, and ends with the observation recorded; or it took one lease, and ends with
    the result of this very attempt committed with the observation, and the lease then
    returned, whether or not the commit succeeded. The cycle succeeds exactly when the
    last calls did. *)
Theorem storage_cycles_settle depth euid now before tr r :
  runs (run_storage_cycle depth euid now before) tr r →
  ∃ seen outcome, r = Some (seen, outcome) ∧
    ((∃ e, tr = [Obs (Storage (RecoverStorage now)) (Err e)] ∧ seen = before ∧
        outcome = Err (display_store_error e)) ∨
     only_observed now tr outcome ∨ lease_settled now tr outcome).
Proof.
  intros Hr. destruct (storage_cycle_runs _ _ _ _ _ _ Hr) as [(e & Htr & ->)|H].
  { exists before, (Err (display_store_error e)). split; [done|]. left. by exists e. }
  destruct H as (n & captured & state & s & ctr & mid & settling & active & seen & report & settled &
    finishing & finished & Htr & Hrec & Hh & Hs & Hf & ->).
  destruct (lease_of_reconciliation _ _ _ _ report Hh (reconcile_asked _ _ _ _ _ _ _ _ Hrec)) as [Hsole Hiff].
  assert (sole_lease now tr active) as Hsole'.
  { rewrite Htr, !app_comm_cons. apply (settling_sole now _ _ _ _ _ _ _ Hs Hf).
    intros lease. split; [|intros Hl%Hsole; by apply (leased_app_r now [_; _; _])].
    intros [facts Hin]. apply Hsole. exists facts.
    do 3 (apply elem_of_cons in Hin as [Hin|Hin]; [by apply (f_equal start_answer) in Hin; simpl in Hin; simplify_eq|]). done. }
  unfold settle in Hs. destruct (clone_cleanup report) as [res|], active as [lease|].
  - destruct Hs as (answer & t & -> & -> & ->), Hf as (finished' & t & -> & -> & ->).
    eexists seen, _. split; [done|]. right; right.
    rewrite !app_comm_cons in Htr. eexists lease, res, (clone_observation report), _, answer, finished'.
    split; [exact Htr|]. split; [intros lease'; split; [intros Hl%Hsole'; congruence|intros ->; by apply Hsole']|].
    apply both_done.
  - destruct (proj1 Hiff (ex_intro _ res eq_refl)) as [? [=]].
  - destruct (proj2 Hiff (ex_intro _ lease eq_refl)) as [? [=]].
  - destruct Hs as (answer & t & -> & -> & ->), Hf as [-> ->].
    eexists seen, _. split; [done|]. right; left.
    rewrite !app_comm_cons, app_nil_r in Htr. eexists (clone_observation report), _, answer.
    split; [exact Htr|]. split; [by intros lease Hl%Hsole'|]. split.
    + intros d name directory x (pre & post & E)%list_elem_of_split.
      destruct (cycle_unlink _ _ _ _ _ _ _ _ _ _ _ _ Hr E) as (? & ? & lease & pre1 & pre2 & _ & E2 & Hl & _).
      assert (leased now tr lease) as Hl' by (rewrite E, E2; do 2 apply leased_app; exact Hl).
      by apply Hsole' in Hl'.
    + rewrite both_done. by split; [intros [? _]|].
Qed.

(** [C31] Clones are deleted under a durable lease. Boot a managed daemon on any database its
    lifecycle left behind, let its threads run, and then the storage worker among them:
    whenever a cycle unlinks a name, it has first recovered what an earlier cycle left
    open, the control plane gave it a lease on this removal, and since then the lease was
    polled and answered that the removal may continue, for a file or a link just before
    its metadata was read. In whatever state the control plane is when it answers this poll,
    the activity of the lease is registered and not cancelled, no cache is maintained, the
    daemon is ready, enforces under the lease's epoch and neither drains nor pauses, and the
    durable row is the enforcing one of this generation, this instance and that epoch. *)
Theorem clones_are_deleted_durably_armed version directory io epochs cycles sequence wall g pid boot
    db m c0 c tr c' depth euid now before r pre d name directory_flag x post :
  lifecycle_history db →
  begin_managed version directory io epochs cycles sequence wall g pid boot db m = Ok c0 →
  rtc ctl_step c0 c → storage_run c tr c' →
  runs (run_storage_cycle depth euid now before) tr r →
  tr = pre ++ Obs (Clone (UnlinkAt d name directory_flag)) x :: post →
  ∃ n start lease pre1 pre2, pre = Obs (Storage (RecoverStorage now)) (Ok n) :: start ∧
    pre = pre1 ++ Obs (Storage (MayContinue lease)) true :: pre2 ∧
    (directory_flag = false → ∃ st, pre2 = [Obs (Clone (FstatAt d name)) (Ok st)]) ∧
    leased now pre1 lease ∧
    let answers c1 c2 := storage_run c pre1 c1 ∧
      storage_step c1 (Obs (Storage (MayContinue lease)) true) c2 ∧
      storage_run c2 (pre2 ++ Obs (Clone (UnlinkAt d name directory_flag)) x :: post) c' in
    (∃ c1 c2, answers c1 c2) ∧
    (∀ c1 c2, answers c1 c2 →
       goes_on (psa_attempt_token (lease_prepared lease)) (lease_epoch lease)
         (storage_activity (ctl_status c1)) (cache_activity (ctl_status c1)) c1 ∧
       durably_enforcing (lease_epoch lease) c1).
Proof.
  intros Hh%history_service Hb Hsteps Hrun Hr Htr.
  destruct (cycle_unlink _ _ _ _ _ _ _ _ _ _ _ _ Hr Htr) as (n & start & lease & pre1 & pre2 & E1 & E2 &
    Hl & Hst).
  exists n, start, lease, pre1, pre2. do 4 (split; [done|]). intros answers. split.
  - apply (storage_run_split c pre1 _ _ c'). by rewrite Htr, E2, <-(assoc_L (++)) in Hrun.
  - intros c1 c2 (H1 & [v [= _ Hpoll%storage_goes_on]] & _). split; [done|].
    apply tracked_epoch; [|apply Hpoll].
    eapply steps_track; [|eapply begin_managed_tracks; [exact Hh|exact Hb]].
    etransitivity; [exact Hsteps|]. by eapply storage_run_steps.
Qed.
End Steps.
