(* ===== verification/ClonesExamples.v ===== *)
(** ClonesExamples: a storage cycle on a concrete file system.

    The file system is a map of nodes by inode number, a descriptor is the number of its
    node, and the control plane is the armed daemon of [ControlExamples.v]. Two cycles
    see the same clone, and the second one removes it. *)

From S2P Require Import Prelude Text Model Fingerprint Artifact Graph Evidence Cleanup Effects.
From S2P Require Import Executor ExecutorSafety ExecutorGuarantees Analyzer Decisions Cooling Names.
From S2P Require Import Store Journal DurableRun StoreSafety Lifecycle LifecycleFacts Residue.
From S2P Require Import Protocol Mutations Observations Views Maintenance Control ControlFacts.
From S2P Require Import ControlSafety DurableExamples MutationExamples ControlExamples System Owners Engine.
From S2P Require Import Clones ClonesFacts Storage StorageFacts.

(** ** The file system *)

Record node : Type := mkNode {
  node_stat : file_stat;
  node_entries : list (string * N);
}.

Definition directory_node (inode : N) (entries : list (string * N)) : node :=
  mkNode (mkFileStat DirectoryNode 501 1 inode 64) entries.

Definition leaf_node (kind : node_kind) (inode : N) (size : Z) : node :=
  mkNode (mkFileStat kind 501 1 inode size) [].

Definition clone_entry : string := "code_sign_clone.aB3dE9".

(** A clone with a bundle of two files and a link. *)
Definition clone_nodes : gmap N node :=
  list_to_map
    [(1%N, directory_node 1 [(clone_entry, 2%N)]);
     (2%N, directory_node 2 [("Google Chrome.app", 3%N); ("link", 6%N)]);
     (3%N, directory_node 3 [("Contents", 4%N); ("Info.plist", 5%N)]);
     (4%N, leaf_node RegularNode 4 1000);
     (5%N, leaf_node RegularNode 5 24);
     (6%N, leaf_node SymlinkNode 6 11)].

Definition entry_of (fs : gmap N node) (d : N) (name : string) : option (N * node) :=
  parent ← fs !! d;
  e ← List.find (λ e, bool_decide (e.1 = name)) (node_entries parent);
  child ← fs !! (e.2);
  Some (e.2, child).

Definition or_missing {A} (o : option A) : result A io_error :=
  match o with Some a => Ok a | None => Err NotFound end.

Definition unlink (fs : gmap N node) (d : N) (name : string) (directory : bool) :
    gmap N node * result unit io_error :=
  match entry_of fs d name with
  | None => (fs, Err NotFound)
  | Some (i, child) =>
      let is_directory := bool_decide (st_kind (node_stat child) = DirectoryNode) in
      if negb (Bool.eqb is_directory directory) || negb (bool_decide (node_entries child = []))
      then (fs, Err (OtherError "refused"))
      else
        (alter (λ parent, mkNode (node_stat parent)
                  (List.filter (λ e, negb (bool_decide (e.1 = name))) (node_entries parent)))
           d (delete i fs), Ok tt)
  end.

Definition clone_handle (X : Type) (e : CloneE X) (fs : gmap N node) : gmap N node * X :=
  match e in CloneE X return gmap N node * X with
  | TempDir => (fs, "/folders/ab/T"%string)
  | Lstat _ => (fs, or_missing (node_stat <$> fs !! 1%N))
  | Canonicalize path => (fs, Ok (path_join "/private" path))
  | OpenRoot _ => (fs, Ok 1%N)
  | ReadEntries d => (fs, or_missing (fmap fst ∘ node_entries <$> fs !! d))
  | OpenAt d name =>
      (fs, match entry_of fs d name with
           | Some (i, child) =>
               if bool_decide (st_kind (node_stat child) = DirectoryNode) then Ok i
               else Err (OtherError "not a directory")
           | None => Err NotFound
           end)
  | Fstat d => (fs, or_missing (node_stat <$> fs !! d))
  | FstatAt d name => (fs, or_missing (node_stat ∘ snd <$> entry_of fs d name))
  | UnlinkAt d name directory => unlink fs d name directory
  | CancelAsked => (fs, false)
  | RunCleanup _ => (fs, true)
  end.

(** ** The world of the storage worker *)

Record storage_world : Type := mkStorageWorld {
  sw_files : gmap N node;
  sw_control : ControlPlane;
  sw_calls : Z;
}.

Definition storage_env (w : storage_world) : call_env :=
  mkCallEnv no_fault (λ event, pretty (10 ^ 31 + 1000 * sw_calls w + event)%Z) example_namespace 0.

(** The processes of the other users' tools, which use no clone. *)
Definition quiet_snapshot : Snapshot := machine_snapshot orphan_machine.

Definition storage_handle (X : Type) (e : StorageE X) (w : storage_world) : storage_world * X :=
  match e in StorageE X return storage_world * X with
  | Clone e => let '(fs, x) := clone_handle _ e (sw_files w) in (w <| sw_files := fs |>, x)
  | CaptureSnapshot => (w, Ok quiet_snapshot)
  | WorkerCancelled => (w, false)
  | ShutdownAsked => (w, false)
  | Storage call =>
      let '(c, x) := storage_call call (storage_env w) (sw_control w) in
      (w <| sw_control := c |> <| sw_calls ::= Z.succ |>, x)
  end.

Lemma storage_world_step {X} (e : StorageE X) w :
  storage_step (sw_control w) (Obs e (storage_handle X e w).2) (sw_control (storage_handle X e w).1).
Proof.
  destruct e as [X e| | | |X call]; try done; simpl.
  - by destruct (clone_handle _ e (sw_files w)).
  - exists (storage_env w). by destruct (storage_call call (storage_env w) (sw_control w)).
Qed.

(** A run of the world is a run of its control plane. *)
Lemma storage_world_runs {A} (p : prog StorageE A) w :
  storage_run (sw_control w) (run storage_handle p w).1.2 (sw_control (run storage_handle p w).1.1).
Proof.
  revert w. induction p as [a|X e k IH]; intros w; simpl; [constructor|].
  pose proof (storage_world_step e w) as Hs. destruct (storage_handle X e w) as [w' x]. simpl in Hs.
  specialize (IH x w'). destruct (run storage_handle (k x) w') as [[w'' tr] a]. simpl in *.
  by eapply storage_event.
Qed.

Definition clone_world : storage_world := mkStorageWorld clone_nodes armed 0.

(** The clone, as a scan knows it. *)
Definition seen_clone : CloneCandidateIdentity := mkCloneCandidateIdentity clone_entry 1 2.

Definition first_cycle := run storage_handle (run_storage_cycle 16 501 2000 None) clone_world.

Definition second_cycle :=
  run storage_handle (run_storage_cycle 16 501 3000 (Some [seen_clone])) first_cycle.1.1.

(** ** A reconciliation *)

Definition removal := run clone_handle
  (reconcile 16 501 3000 (Some quiet_snapshot) CloneEnforce (Some [seen_clone])) clone_nodes.

Definition removal_trace : fs_trace := removal.1.2.

Lemma removal_runs :
  runs (reconcile 16 501 3000 (Some quiet_snapshot) CloneEnforce (Some [seen_clone])) removal_trace
    removal.2.
Proof. apply run_runs. Qed.

Definition listing (o : obs CloneE) : option (list string) :=
  match o with
  | @Obs _ X e x =>
      match e in CloneE X return X → option (list string) with
      | ReadEntries _ => λ r, match r with Ok entries => Some entries | Err _ => None end
      | _ => λ _, None
      end x
  end.

Lemma listings_once tr : forallb (λ l, bool_decide (NoDup l)) (omap listing tr) = true → lists_once tr.
Proof.
  intros H d entries Hin. rewrite forallb_forall in H.
  apply (bool_decide_eq_true (NoDup entries)), H. apply list_elem_of_In, list_elem_of_omap.
  by eexists.
Qed.

Lemma removal_unlinks :
  removal_trace = take 27 removal_trace ++ Obs (UnlinkAt 3 "Contents" false) (Ok tt) ::
    drop 28 removal_trace.
Proof. apply split_at. vm_compute. reflexivity. Qed.

Lemma only_stale_clones_are_deleted_witness :
  ∃ temporary before root, take 27 removal_trace = Obs TempDir temporary :: before ∧
    clone_root temporary = Some root ∧
    unlink_ok 501 (Some quiet_snapshot) CloneEnforce (Some [seen_clone]) root before 3 "Contents" false.
Proof.
  exact (only_stale_clones_are_deleted _ _ _ _ _ _ _ _ _ _ _ _ _ _ removal_runs removal_unlinks).
Defined.

Definition removal_report : StorageCleanupResultFacts :=
  mkStorageCleanupResultFacts DispComplete 1 1 1024 (Some 1%N) (Some 0%N) (Some 0%N) (Some 0%N).

Lemma removal_reports_are_accepted_witness :
  ∃ facts, told removal_trace (RunCleanup facts) true ∧ (0 < sa_planned_candidate_count facts)%N ∧
    accepted facts removal_report (clone_observation removal.2.2).
Proof.
  assert (runs (reconcile 16 501 3000 (Some quiet_snapshot) CloneEnforce (Some [seen_clone]))
    removal_trace (removal.2.1, removal.2.2)) as Hruns
    by (rewrite <-surjective_pairing; exact removal_runs).
  assert (lists_once removal_trace) as Honce by (apply listings_once; vm_compute; reflexivity).
  assert (clone_cleanup removal.2.2 = Some removal_report) as Hreport by (vm_compute; reflexivity).
  destruct (removal_reports_are_accepted _ _ _ _ _ _ _ _ _ _ Hruns Honce Hreport)
    as (_ & facts & H1 & H2 & _ & H3).
  exists facts. split; [exact H1|]. split; [exact H2|exact H3].
Defined.

(** ** The cycles *)

Lemma second_cycle_runs :
  runs (run_storage_cycle 16 501 3000 (Some [seen_clone])) second_cycle.1.2 second_cycle.2.
Proof. apply run_runs. Qed.

Example cycles_remove :
  first_cycle.2 = Some (Some [seen_clone], Ok tt) ∧ second_cycle.2 = Some (None, Ok tt) ∧
  dom (sw_files second_cycle.1.1) = {[1%N]}.
Proof. split; [|split]; vm_compute; reflexivity. Qed.

Lemma second_cycle_unlinks :
  second_cycle.1.2 = take 38 second_cycle.1.2 ++
    Obs (Clone (UnlinkAt 3 "Contents" false)) (Ok tt) :: drop 39 second_cycle.1.2.
Proof. apply split_at. vm_compute. reflexivity. Qed.

Lemma booted_runs : rtc ctl_step booted (sw_control first_cycle.1.1).
Proof.
  etransitivity; [exact boot_arms|].
  exact (storage_run_steps _ _ _ (storage_world_runs (run_storage_cycle 16 501 2000 None) clone_world)).
Qed.

Lemma clones_are_deleted_durably_armed_witness :
  ∃ lease pre1 pre2 c1,
    take 38 second_cycle.1.2 = pre1 ++ Obs (Storage (MayContinue lease)) true :: pre2 ∧
    leased 3000 pre1 lease ∧ storage_run (sw_control first_cycle.1.1) pre1 c1 ∧
    goes_on (psa_attempt_token (lease_prepared lease)) (lease_epoch lease)
      (storage_activity (ctl_status c1)) (cache_activity (ctl_status c1)) c1 ∧
    durably_enforcing (lease_epoch lease) c1.
Proof.
  destruct (clones_are_deleted_durably_armed "1.0" "/state" no_fault 1 1 1 7 1 42 100 _ new_maintenance
    booted (sw_control first_cycle.1.1) second_cycle.1.2 (sw_control second_cycle.1.1)
    _ _ _ _ _ _ _ _ _ _ _ (history_new example_namespace) boots booted_runs
    (storage_world_runs _ first_cycle.1.1) second_cycle_runs second_cycle_unlinks)
    as (n & start & lease & pre1 & pre2 & _ & H1 & _ & H2 & (c1 & c2 & H3) & H4).
  destruct (H4 c1 c2 H3) as [H5 H6].
  exists lease, pre1, pre2, c1. split; [exact H1|]. split; [exact H2|].
  split; [exact (proj1 H3)|]. split; [exact H5|exact H6].
Defined.

Lemma storage_cycles_settle_witness :
  ∃ seen outcome, second_cycle.2 = Some (seen, outcome) ∧
    ((∃ e, second_cycle.1.2 = [Obs (Storage (RecoverStorage 3000)) (Err e)] ∧
        seen = Some [seen_clone] ∧ outcome = Err (display_store_error e)) ∨
     only_observed 3000 second_cycle.1.2 outcome ∨ lease_settled 3000 second_cycle.1.2 outcome).
Proof. exact (storage_cycles_settle _ _ _ _ _ _ second_cycle_runs). Defined.
