(* ===== verification/Procargs.v ===== *)
(** Procargs: the arguments of a process, [parse_procargs2_task] of
    [unlinger-macos/src/lib.rs].

    The kernel answers KERN_PROCARGS2 with a buffer that holds the number of arguments,
    the path of the executable, padding, the arguments and the environment. The parser
    gives the arguments, and of the environment only the session of a task. *)

From S2P Require Import Prelude Text Model Fingerprint Task.
From Stdlib Require Import Ascii.

(** ** Bytes *)

Definition nul : ascii := "000"%char.

Definition byte (n : N) : ascii := ascii_of_N (n `mod` 256).

(** [U+FFFD]. *)
Definition replacement_character : string :=
  String (byte 239) (String (byte 191) (String (byte 189) "")).

(** The second byte of a sequence of three or four bytes. *)
Definition second_of_three (a b : ascii) : bool :=
  if (code a =? 224)%N then in_range 160 191 b
  else if (code a =? 237)%N then in_range 128 159 b else is_cont b.

Definition second_of_four (a b : ascii) : bool :=
  if (code a =? 240)%N then in_range 144 191 b
  else if (code a =? 244)%N then in_range 128 143 b else is_cont b.

(** [String::from_utf8_lossy]: the longest beginning of a sequence that is not completed is
    replaced as a whole. *)
Fixpoint from_utf8_lossy (s : string) : string :=
  match s with
  | EmptyString => ""
  | String a s1 =>
      if in_range 0 127 a then String a (from_utf8_lossy s1) else
      if in_range 194 223 a then
        match s1 with
        | String b s2 =>
            if is_cont b then String a (String b (from_utf8_lossy s2))
            else replacement_character +:+ from_utf8_lossy s1
        | EmptyString => replacement_character
        end
      else if in_range 224 239 a then
        match s1 with
        | String b s2 =>
            if second_of_three a b then
              match s2 with
              | String c s3 =>
                  if is_cont c then String a (String b (String c (from_utf8_lossy s3)))
                  else replacement_character +:+ from_utf8_lossy s2
              | EmptyString => replacement_character
              end
            else replacement_character +:+ from_utf8_lossy s1
        | EmptyString => replacement_character
        end
      else if in_range 240 244 a then
        match s1 with
        | String b s2 =>
            if second_of_four a b then
              match s2 with
              | String c s3 =>
                  if is_cont c then
                    match s3 with
                    | String d s4 =>
                        if is_cont d
                        then String a (String b (String c (String d (from_utf8_lossy s4))))
                        else replacement_character +:+ from_utf8_lossy s3
                    | EmptyString => replacement_character
                    end
                  else replacement_character +:+ from_utf8_lossy s2
              | EmptyString => replacement_character
              end
            else replacement_character +:+ from_utf8_lossy s1
        | EmptyString => replacement_character
        end
      else replacement_character +:+ from_utf8_lossy s1
  end.

(** The bytes before the first NUL, and those after it. *)
Fixpoint cut_nul (s : string) : option (string * string) :=
  match s with
  | EmptyString => None
  | String c s =>
      if Ascii.eqb c nul then Some ("", s)
      else '(before, after) ← cut_nul s; Some (String c before, after)
  end.

Fixpoint skip_nuls (s : string) : string :=
  match s with
  | String c s' => if Ascii.eqb c nul then skip_nuls s' else s
  | EmptyString => s
  end.

(** ** The parser *)

(** [c_int::from_ne_bytes] of the first four bytes, least first, and the rest. *)
Definition take_argc (buffer : string) : option (Z * string) :=
  match buffer with
  | String a (String b (String c (String d rest))) =>
      let n := Z.of_N (code a + 256 * (code b + 256 * (code c + 256 * code d))) in
      Some (if bool_decide (n < 2 ^ 31)%Z then n else (n - 2 ^ 32)%Z, rest)
  | _ => None
  end.

(** The loop over the arguments: those read, and the bytes after them. Every round takes
    a byte at least, so the length of the bytes is fuel enough. *)
Fixpoint read_arguments (fuel : nat) (argc : N) (s : string) : option (list string * string) :=
  match fuel with
  | O => Some ([], s)
  | S fuel =>
      if bool_decide (argc = 0%N) || is_empty s then Some ([], s) else
      '(argument, after) ← cut_nul s;
      '(arguments, rest) ← read_arguments fuel (argc - 1) after;
      Some (from_utf8_lossy argument :: arguments, rest)
  end.

Definition SESSION_VARIABLE : string := "PLAYWRIGHT_CLI_SESSION=".

(** The session of a task that an entry of the environment names. *)
Definition session_of_entry (entry : string) : option string :=
  value ← strip_prefix SESSION_VARIABLE entry;
  value ← (if utf8_valid value then Some value else None);
  _ ← task_id_from_session value;
  Some value.

(** [find_map]. *)
Definition first_session (entries : list string) : option string :=
  head (omap session_of_entry entries).

(** [parse_procargs2_task]. *)
Definition parse_procargs2_task (buffer : string) : option (list string * option string) :=
  '(argc, rest) ← take_argc buffer;
  if bool_decide (argc < 0)%Z then None else
  '(_, padded) ← cut_nul rest;
  let s := skip_nuls padded in
  '(arguments, environment) ← read_arguments (String.length s) (Z.to_N argc) s;
  if bool_decide (N.of_nat (length arguments) = Z.to_N argc)
  then Some (arguments, first_session (split_byte nul environment)) else None.

(** [parse_procargs2]. *)
Definition parse_procargs2 (buffer : string) : option (list string) :=
  fst <$> parse_procargs2_task buffer.

(** ** The buffer of the kernel *)

Definition nul_free (s : string) : bool := all_bytes (λ c, negb (Ascii.eqb c nul)) s.

Definition argc_bytes (n : N) : string :=
  String (byte n) (String (byte (n / 256)) (String (byte (n / 65536)) (String (byte (n / 16777216)) ""))).

(** Every entry with its NUL. *)
Fixpoint terminated (entries : list string) : string :=
  match entries with
  | [] => ""
  | entry :: entries => entry +:+ String nul (terminated entries)
  end.

(** The buffer for an executable, its arguments and its environment. *)
Definition procargs2 (path : string) (padding : nat) (arguments environment : list string) : string :=
  argc_bytes (N.of_nat (length arguments)) +:+ terminated [path]
    +:+ terminated (replicate padding "") +:+ terminated (arguments ++ environment).

(** ** Lemmas *)

Lemma lossy_valid s : utf8_valid s = true → from_utf8_lossy s = s.
Proof.
  remember (String.length s) as n eqn:Hn. revert s Hn.
  induction n as [n IH] using lt_wf_ind. intros s -> Hs.
  destruct s as [|a s1]; [done|]. cbn [utf8_valid from_utf8_lossy] in *.
  destruct (in_range 0 127 a); [f_equal; apply (IH (String.length s1)); [simpl; lia|done..]|].
  destruct s1 as [|b s2]; [done|].
  destruct (in_range 194 223 a) eqn:H2.
  { apply andb_true_iff in Hs as [-> Hs]. do 2 f_equal. apply (IH (String.length s2)); [simpl; lia|done..]. }
  destruct s2 as [|c s3]; [done|].
  destruct (in_range 224 239 a) eqn:H3.
  { apply andb_true_iff in Hs as [[Hb Hc]%andb_true_iff Hs]. unfold second_of_three. rewrite Hb, Hc.
    do 3 f_equal. apply (IH (String.length s3)); [simpl; lia|done..]. }
  destruct s3 as [|d s4]; [done|].
  destruct (in_range 240 244 a) eqn:H4; [|done].
  apply andb_true_iff in Hs as [[[Hb Hc]%andb_true_iff Hd]%andb_true_iff Hs].
  unfold second_of_four. rewrite Hb, Hc, Hd.
  do 4 f_equal. apply (IH (String.length s4)); [simpl; lia|done..].
Qed.

Lemma cut_nul_terminated s rest :
  nul_free s = true → cut_nul (s +:+ String nul rest) = Some (s, rest).
Proof.
  induction s as [|c s IH]; simpl; [done|]. intros [Hc Hs]%andb_true_iff.
  apply negb_true_iff in Hc. rewrite Hc. by rewrite IH.
Qed.

Lemma skip_padding n s :
  match s with String c _ => Ascii.eqb c nul = false | EmptyString => True end →
  skip_nuls (terminated (replicate n "") +:+ s) = s.
Proof.
  intros Hs. induction n as [|n IH]; simpl; [|done].
  destruct s as [|c s]; [done|]. simpl. by rewrite Hs.
Qed.

Lemma split_terminated entries :
  forallb nul_free entries = true → split_byte nul (terminated entries) = entries ++ [""].
Proof.
  induction entries as [|e entries IH]; simpl; [done|]. intros [He Hes]%andb_true_iff.
  rewrite <-IH by done. clear IH Hes. induction e as [|c e IHe]; simpl in *; [done|].
  apply andb_true_iff in He as [Hc He]. apply negb_true_iff in Hc. rewrite Hc.
  by rewrite IHe.
Qed.

Lemma append_cons c (a b : string) : String c a +:+ b = String c (a +:+ b).
Proof. reflexivity. Qed.

Lemma append_assoc (a b c : string) : (a +:+ b) +:+ c = a +:+ b +:+ c.
Proof. induction a as [|x a IH]; [done|]. exact (f_equal (String x) IH). Qed.

Lemma append_empty s : s +:+ "" = s.
Proof. induction s as [|c s IH]; [done|]. exact (f_equal (String c) IH). Qed.

Lemma terminated_app l1 l2 : terminated (l1 ++ l2) = terminated l1 +:+ terminated l2.
Proof. induction l1 as [|e l1 IH]; simpl; [done|]. rewrite IH. by rewrite append_assoc. Qed.

Lemma read_terminated arguments environment fuel :
  Forall (λ a, nul_free a = true ∧ utf8_valid a = true) arguments → length arguments ≤ fuel →
  read_arguments fuel (N.of_nat (length arguments)) (terminated (arguments ++ environment)) =
    Some (arguments, terminated environment).
Proof.
  intros H. revert fuel. induction H as [|a arguments [Ha Hu] _ IH]; intros fuel Hf.
  { destruct fuel; [done|]. cbn [read_arguments]. by rewrite bool_decide_eq_true_2. }
  destruct fuel as [|fuel]; [simpl in Hf; lia|]. cbn [read_arguments].
  rewrite bool_decide_eq_false_2 by (simpl; lia).
  assert (is_empty (terminated ((a :: arguments) ++ environment)) = false) as -> by (by destruct a).
  cbn [orb]. cbn [terminated app]. rewrite cut_nul_terminated by done. cbn.
  replace (N.of_nat (S (length arguments)) - 1)%N with (N.of_nat (length arguments)) by lia.
  rewrite IH by (simpl in Hf; lia). cbn. by rewrite lossy_valid.
Qed.

Lemma code_byte n : code (byte n) = (n `mod` 256)%N.
Proof. unfold code, byte. apply N_ascii_embedding. by apply N.mod_lt. Qed.

Lemma take_argc_bytes n s :
  (n < 2 ^ 31)%N → take_argc (argc_bytes n +:+ s) = Some (Z.of_N n, s).
Proof.
  intros Hn. unfold take_argc, argc_bytes. rewrite !append_cons. change ("" +:+ s) with s. rewrite !code_byte.
  assert (n `mod` 256 + 256 * ((n / 256) `mod` 256 + 256 * ((n / 65536) `mod` 256
    + 256 * ((n / 16777216) `mod` 256))) = n)%N as ->.
  { change 65536%N with (256 * 256)%N. change 16777216%N with (256 * 256 * 256)%N.
    rewrite <-!N.Div0.div_div.
    rewrite (N.mod_small (n / 256 / 256 / 256)).
    - pose proof (N.div_mod n 256 ltac:(done)). pose proof (N.div_mod (n / 256) 256 ltac:(done)).
      pose proof (N.div_mod (n / 256 / 256) 256 ltac:(done)). lia.
    - rewrite !N.Div0.div_div. apply N.Div0.div_lt_upper_bound. lia. }
  rewrite bool_decide_eq_true_2 by lia. done.
Qed.

Lemma length_terminated_ge l : length l ≤ String.length (terminated l).
Proof.
  induction l as [|e l IH]; simpl; [lia|]. induction e as [|c e IHe]; simpl in *; lia.
Qed.

(** What the parser makes of a buffer whose first argument begins with a byte. *)
Lemma parse_procargs2_spec path padding arguments environment :
  nul_free path = true → (N.of_nat (length arguments) < 2 ^ 31)%N →
  Forall (λ a, nul_free a = true ∧ utf8_valid a = true) arguments →
  forallb nul_free environment = true →
  (∃ c s, terminated (arguments ++ environment) = String c s ∧ c ≠ nul) ∨
    arguments ++ environment = [] →
  parse_procargs2_task (procargs2 path padding arguments environment) =
    Some (arguments, first_session environment).
Proof.
  intros Hpath Hn Hargs Henv Hfirst. unfold parse_procargs2_task, procargs2.
  rewrite take_argc_bytes by done. cbn [mbind option_bind].
  rewrite bool_decide_eq_false_2 by lia. cbn [terminated].
  rewrite append_assoc, append_cons. change ("" +:+ ?s) with s.
  rewrite cut_nul_terminated by done. cbn [mbind option_bind].
  rewrite skip_padding.
  2: { destruct Hfirst as [(c & s & -> & Hc)| ->]; [by apply Ascii.eqb_neq|done]. }
  rewrite N2Z.id, read_terminated; [|done|].
  2: { etransitivity; [|apply length_terminated_ge]. rewrite length_app. lia. }
  cbn [mbind option_bind]. rewrite bool_decide_eq_true_2 by done.
  rewrite split_terminated by done. unfold first_session. rewrite omap_app. simpl.
  by rewrite app_nil_r.
Qed.

Lemma terminated_first arguments environment c s :
  arguments = String c s :: tail arguments → nul_free (String c s) = true →
  ∃ s', terminated (arguments ++ environment) = String c s' ∧ c ≠ nul.
Proof.
  intros -> [Hc _]%andb_true_iff. eexists. split; [reflexivity|].
  apply negb_true_iff in Hc. by apply Ascii.eqb_neq.
Qed.

(** Of the environment, only the session of a task leaves the buffer. *)
Lemma first_session_issued entries value :
  first_session entries = Some value →
  SESSION_VARIABLE +:+ value ∈ entries ∧ ∃ id, task_id_from_session value = Some id.
Proof.
  unfold first_session. intros H. apply head_Some_elem_of, list_elem_of_omap in H as (e & He & H).
  unfold session_of_entry in H. apply bind_Some in H as (v & Hv & H).
  apply strip_prefix_Some in Hv. destruct (utf8_valid v); [|discriminate].
  apply bind_Some in H as (v' & [= <-] & H). apply bind_Some in H as (id & Hid & [= <-]).
  subst e. split; [done|]. by exists id.
Qed.

(** [C36] Arguments are read back. From the buffer of the kernel for an executable, its
    arguments and its environment, with any padding, the parser gives exactly the
    arguments, empty ones after the first included, and of the environment only the
    first well-formed session that a task was issued. *)
Theorem arguments_round_trip path padding arguments environment :
  nul_free path = true → (N.of_nat (length arguments) < 2 ^ 31)%N →
  Forall (λ a, nul_free a = true ∧ utf8_valid a = true) arguments →
  forallb nul_free environment = true → head arguments ≠ Some "" → arguments ≠ [] →
  parse_procargs2_task (procargs2 path padding arguments environment) =
    Some (arguments, first_session environment) ∧
  ∀ value, first_session environment = Some value →
    SESSION_VARIABLE +:+ value ∈ environment ∧ ∃ id, task_id_from_session value = Some id.
Proof.
  intros Hpath Hn Hargs Henv Hfirst Hne. split; [|intros value; apply first_session_issued].
  apply parse_procargs2_spec; try done. left.
  destruct arguments as [|[|c s] arguments]; [done..|].
  apply Forall_cons in Hargs as [[Hnul _] _].
  destruct (terminated_first (String c s :: arguments) environment c s eq_refl Hnul) as (s' & -> & Hc).
  by exists c, s'.
Qed.

Lemma arguments_round_trip_witness :
  parse_procargs2_task
    (procargs2 "/bin/node" 3 ["node"; ""; "cli.js"]
       ["HOME=/Users/u"; "PLAYWRIGHT_CLI_SESSION=unlinger-00112233445566778899aabbccddeeff"]) =
    Some (["node"; ""; "cli.js"], Some "unlinger-00112233445566778899aabbccddeeff").
Proof.
  refine (eq_trans (proj1 (arguments_round_trip "/bin/node" 3 _ _ _ _ _ _ _ _)) _);
    try (vm_compute; reflexivity).
  - repeat constructor.
  - discriminate.
  - discriminate.
Defined.

(** An empty first argument lets the environment in. The parser takes an empty first
    argument for padding, and so the first entry of the environment, whatever it holds,
    for the last argument. *)
Theorem empty_first_argument_takes_environment path padding arguments entry environment :
  nul_free path = true → (N.of_nat (length arguments) + 1 < 2 ^ 31)%N →
  Forall (λ a, nul_free a = true ∧ utf8_valid a = true) (arguments ++ [entry]) →
  forallb nul_free environment = true → head (arguments ++ [entry]) ≠ Some "" →
  parse_procargs2_task (procargs2 path padding ("" :: arguments) (entry :: environment)) =
    Some (arguments ++ [entry], first_session environment).
Proof.
  intros Hpath Hn Hargs Henv Hfirst.
  assert (procargs2 path padding ("" :: arguments) (entry :: environment) =
    procargs2 path (S padding) (arguments ++ [entry]) environment) as ->.
  { unfold procargs2. rewrite length_app. simpl length. rewrite Nat.add_1_r.
    rewrite <-(assoc_L (++)). f_equal. f_equal.
    change (terminated (("" :: arguments) ++ entry :: environment)) with
      (String nul (terminated (arguments ++ [entry] ++ environment))).
    induction padding as [|n IH]; [reflexivity|]. exact (f_equal (String nul) IH). }
  apply parse_procargs2_spec; try done.
  - rewrite length_app. simpl. lia.
  - left. destruct (arguments ++ [entry]) as [|[|c s] l] eqn:E; [by destruct arguments|done|].
    apply Forall_cons in Hargs as [[Hnul _] _].
    destruct (terminated_first (String c s :: l) environment c s eq_refl Hnul) as (s' & -> & Hc).
    by exists c, s'.
Qed.

Lemma empty_first_argument_takes_environment_witness :
  parse_procargs2_task (procargs2 "/bin/node" 3 [""; "cli.js"] ["SECRET=1"; "HOME=/Users/u"]) =
    Some (["cli.js"; "SECRET=1"], None).
Proof.
  refine (eq_trans (empty_first_argument_takes_environment "/bin/node" 3 ["cli.js"] _ _ _ _ _ _ _) _);
    try (vm_compute; reflexivity).
  - repeat constructor.
  - discriminate.
Defined.
