(* ===== verification/Native.v ===== *)
(** Native: the facts that the macOS adapter reads of a process,
    [unlinger-macos/src/lib.rs] and [descriptors.rs].

    Every call of the operating system is an event of [NativeE], whose answer the kernel
    is free to choose; what the adapter makes of the answers is the program. *)

From S2P Require Import Prelude Text Model Fingerprint Task Artifact Evidence Cleanup Effects.
From S2P Require Import Executor Procargs.
From Stdlib Require Import Ascii.

(** ** System calls *)

(** [proc_taskallinfo], the fields that are read; the names are C arrays. *)
Record TaskAllInfo : Type := mkTaskAllInfo {
  pbi_status : N;
  pbi_uid : N;
  pbi_ppid : N;
  pbi_pgid : N;
  pbi_name : string;
  pbi_comm : string;
  pbi_nfiles : N;
  e_tdev : N;
  pbi_start_tvsec : N;
  pbi_start_tvusec : N;
  pti_resident_size : N;
  pti_total_user : N;
  pti_total_system : N;
}.

(** [ProcRegionWithPathInfo], the fields that are read. *)
Record MappedRegion : Type := mkMappedRegion {
  vip_path : string;
  vi_type : Z;
  vst_dev : N;
  vst_ino : N;
  vst_size : Z;
  vst_mtime : Z;
  vst_mtimensec : Z;
}.

(** A descriptor of a process: whether it is a socket. *)
Record FdEntry : Type := mkFdEntry {
  proc_fd : Z;
  fd_is_socket : bool;
}.

Inductive TcpState : Type := TcpListen | TcpEstablished | TcpOther.

(** [SocketFDInfo], the fields that are read. *)
Inductive SocketInfo : Type :=
| TcpSocket (lport : Z) (state : TcpState)
| UnixSocket (conn_so : N) (sun_path : string)
| OtherSocket.

(** What [kill] returned. *)
Inductive KillAnswer : Type := KillOk | KillNoProcess | KillNotPermitted | KillFailed.

(** How a file is opened: O_NOFOLLOW refuses a symbolic link as the file, O_NOFOLLOW_ANY
    one anywhere on the path. *)
Inductive OpenFlag : Type := NoFollow | NoFollowAny.

(** [Metadata] of an open file, or [stat]; [st_dev] is signed on Darwin. *)
Record FileStat : Type := mkFileStat {
  st_dev : Z;
  st_ino : N;
  st_uid : N;
  st_mode : N;
  st_nlink : N;
  st_len : N;
}.

(** [errno], as far as the program tells its values apart, with the error's text. *)
Inductive errno : Type :=
| ENOENT | ELOOP | ENOTDIR | EACCES | EPERM | EEXIST | EISDIR | OtherErrno.

#[export] Instance errno_eq_dec : EqDecision errno.
Proof. solve_decision. Defined.

Record OsError : Type := mkOsError {
  raw_os_error : errno;
  os_error_text : string;
}.

(** What acl_get_fd_np answers: no list (ENOENT), an error, or a list, with what
    acl_get_entry and acl_free return for it and whether the entry is NULL. *)
Inductive AclAnswer : Type :=
| AclMissing
| AclUnavailable
| AclList (get_entry : Z) (entry_null : bool) (freed : Z).

(** An entry of a directory: its name, and whether it is a directory, if that is known. *)
Record DirectoryEntry : Type := mkDirectoryEntry {
  entry_name : string;
  entry_is_dir : option bool;
}.

(** [SysctlArgmax] answers whether it succeeded, the value, and the text of [errno].
    [PidPath] answers the return value, [errno] and the buffer; [KernProc] the status of
    the process. [ReadAtMost] is [take(limit).read_to_end]. [WallMillis] is the time since
    the epoch, [ContinuousTime] a [timespec], [BootTime] a [timeval]; a text is the error.
    [OpenParent] opens a directory with O_NOFOLLOW_ANY, [OpenAt] a name in it for events
    only, without following a link; [RenameExcl] is renameatx_np with RENAME_EXCL inside one
    directory; [ListPidsPath] is proc_listpidspath, the bytes it returned. *)
Inductive NativeE : Type → Type :=
| GetEuid : NativeE N
| GetPid : NativeE Z
| PidsOf (uid : N) : NativeE (result (list N) string)
| SysctlArgmax : NativeE (bool * Z * string)
| SysctlProcArgs (pid : Z) (argmax : N) : NativeE (result string string)
| PidInfo (pid : Z) : NativeE (option TaskAllInfo)
| PidPath (pid : Z) : NativeE (Z * Z * string)
| PidRegion (pid : Z) : NativeE (option MappedRegion)
| KernProc (pid : Z) : NativeE (option N)
| KillProbe (pid : Z) : NativeE KillAnswer
| KillProcess (pid : Z) (signal : CleanupSignal) : NativeE KillAnswer
| ListFds (pid : Z) (capacity : N) : NativeE (option (list FdEntry))
| SocketFacts (pid fd : Z) : NativeE (option SocketInfo)
| OpenFile (path : string) (flag : OpenFlag) : NativeE (option N)
| FileMetadata (file : N) : NativeE (result FileStat string)
| ReadAtMost (file limit : N) : NativeE (option string)
| ReadDirectory (path : string) : NativeE (option (list (option DirectoryEntry)))
| HomeDirectory : NativeE (option string)
| WallMillis : NativeE (result N string)
| ContinuousTime : NativeE (result (Z * Z) string)
| BootUuidSize : NativeE (option N)
| BootUuid (size : N) : NativeE (option string)
| BootTime : NativeE (result (Z * Z) string)
| SleepNanos (n : N) : NativeE unit
| StopProbe : NativeE bool
| OpenParent (path : string) : NativeE (result N OsError)
| OpenAt (parent : N) (name : string) : NativeE (result N OsError)
| StatAt (parent : N) (name : string) : NativeE (result FileStat OsError)
| CloseFile (file : N) : NativeE unit
| AclOf (file : N) : NativeE AclAnswer
| RenameExcl (parent : N) (from to : string) : NativeE (result unit OsError)
| UnlinkAt (parent : N) (name : string) : NativeE (result unit OsError)
| Entropy : NativeE (option string)
| ListPidsPath (path : string) : NativeE Z.

Abbreviation native A := (prog NativeE A).

(** ** Errors *)

Inductive SnapshotError : Type :=
| ErrClock (message : string)
| ErrProcessList (message : string)
| ErrSysctl (message : string)
| ErrProcessLookup (message : string).

(** [SnapshotError] as text. *)
Definition display_snapshot_error (e : SnapshotError) : string :=
  match e with
  | ErrClock message => "clock error: " +:+ message
  | ErrProcessList message => "process-list error: " +:+ message
  | ErrSysctl message => "sysctl error: " +:+ message
  | ErrProcessLookup message => "process lookup error: " +:+ message
  end.

(** ** Files *)

Definition S_IFMT : N := 61440.

Definition S_IFREG : N := 32768.

Definition S_IFDIR : N := 16384.

(** [FileType::is_file]. *)
Definition is_regular (m : FileStat) : bool := bool_decide (N.land (st_mode m) S_IFMT = S_IFREG).

(** [MetadataExt::dev]: the cast to [u64]. *)
Definition meta_dev (m : FileStat) : N := Z.to_N (st_dev m `mod` 2 ^ 64).

(** [File::metadata], where the error is not looked at. *)
Definition file_metadata (file : N) : native (option FileStat) :=
  do* r := trigger (FileMetadata file) in
  Ret (match r with Ok m => Some m | Err _ => None end).

(** ** Numbers and texts *)

(** [i32::try_from] of a PID. *)
Definition pid_i32 (pid : N) : option Z :=
  if bool_decide (pid < 2 ^ 31)%N then Some (Z.of_N pid) else None.

Definition is_plus (c : ascii) : bool := Ascii.eqb c "+".

(** [str::parse::<u16>]: a sign "+" is allowed, the digits are not empty. *)
Definition parse_u16 (text : string) : option N :=
  let digits := match text with String c rest => if is_plus c then rest else text | _ => text end in
  if negb (is_empty digits) && all_bytes is_ascii_digit digits then
    n ← parse_u64_digits digits;
    if bool_decide (n < 65536)%N then Some n else None
  else None.

(** The bytes before the first NUL, or all of them. *)
Definition before_nul (bytes : string) : string :=
  match cut_nul bytes with Some (before, _) => before | None => bytes end.

(** [decode_c_chars]. *)
Definition decode_c_chars (bytes : string) : option string :=
  let text := before_nul bytes in if utf8_valid text then Some text else None.

(** ** Arguments *)

(** [has_flag]. *)
Definition has_flag (arguments : list string) (name : string) : bool :=
  existsb (λ a, bool_decide (a = name) || starts_with (name +:+ "=") a) arguments.

(** [flag_value]: of the first argument that is the flag. *)
Fixpoint flag_value (arguments : list string) (name : string) : option string :=
  match arguments with
  | [] => None
  | a :: rest =>
      if bool_decide (a = name) then head rest
      else match strip_prefix (name +:+ "=") a with
           | Some value => Some value
           | None => flag_value rest name
           end
  end.

(** ** The kernel *)

(** [kernel_argmax]. *)
Definition kernel_argmax : native (result N SnapshotError) :=
  do* r := trigger SysctlArgmax in
  let '(succeeded, argmax, text) := r in
  Ret (if negb succeeded || bool_decide (argmax ≤ 0)%Z then Err (ErrSysctl text)
       else Ok (Z.to_N argmax)).

(** [process_arguments]. *)
Definition process_arguments (pid : Z) (argmax : N) :
    native (result (list string * option string) SnapshotError) :=
  do* r := trigger (SysctlProcArgs pid argmax) in
  Ret (match r with
       | Err text => Err (ErrSysctl text)
       | Ok buffer =>
           ok_or (parse_procargs2_task buffer)
             (ErrSysctl ("malformed KERN_PROCARGS2 for pid " +:+ pretty pid))
       end).

(** [process_exists]. *)
Definition process_exists (pid : N) : native bool :=
  match pid_i32 pid with
  | None => Ret false
  | Some pid =>
      do* r := trigger (KillProbe pid) in
      Ret (match r with KillOk | KillNotPermitted => true | _ => false end)
  end.

(** [kern_process_status]. *)
Definition kern_process_status (pid : N) : native (option N) :=
  match pid_i32 pid with None => Ret None | Some pid => trigger (KernProc pid) end.

Definition STATUS_RUN : N := 2.

Definition STATUS_SLEEP : N := 3.

Definition STATUS_STOP : N := 4.

Definition STATUS_ZOMBIE : N := 5.

(** [is_confirmed_zombie]. *)
Definition is_confirmed_zombie (pid : N) : native bool :=
  do* s := kern_process_status pid in Ret (bool_decide (s = Some STATUS_ZOMBIE)).

(** ** The executable *)

Inductive ExecutablePathObservation : Type :=
| Returned (path : string)
| MissingWithoutErrno
| PathFailed
| InvalidEncoding.

(** [ExecutablePathObservation::path]. *)
Definition observed_path (o : ExecutablePathObservation) : option string :=
  match o with Returned path => Some path | _ => None end.

(** [ExecutablePathObservation::missing_without_errno]. *)
Definition missing_without_errno (o : ExecutablePathObservation) : bool :=
  match o with MissingWithoutErrno => true | _ => false end.

(** The bytes [bytes[..n]], if [bytes[n]] is a NUL. *)
Fixpoint take_terminated (n : nat) (bytes : string) : option string :=
  match n, bytes with
  | O, String c _ => if Ascii.eqb c nul then Some "" else None
  | S n, String c bytes => String c <$> take_terminated n bytes
  | _, EmptyString => None
  end.

(** [classify_executable_path]. *)
Definition classify_executable_path (returned errno : Z) (bytes : string) :
    ExecutablePathObservation :=
  if bool_decide (returned = 0)%Z then
    if bool_decide (errno = 0)%Z then MissingWithoutErrno else PathFailed
  else if bool_decide (returned < 0)%Z || negb (bool_decide (errno = 0)%Z) then PathFailed
  else
    match take_terminated (Z.to_nat returned) bytes with
    | None => PathFailed
    | Some path =>
        if negb (starts_with "/" path) || negb (nul_free path) then PathFailed
        else if utf8_valid path then Returned path else InvalidEncoding
    end.

(** [read_executable_path]. *)
Definition read_executable_path (pid : Z) : native ExecutablePathObservation :=
  do* r := trigger (PidPath pid) in
  let '(returned, errno, buffer) := r in Ret (classify_executable_path returned errno buffer).

(** [ExecutableIdentity::default]. *)
Definition default_executable : ExecutableIdentity := mkExecutableIdentity None None None None.

(** [identity_from_mapped_region]. *)
Definition identity_from_mapped_region (r : MappedRegion) (expected_path : string) :
    ExecutableIdentity :=
  match decode_c_chars (vip_path r) with
  | None => default_executable
  | Some mapped_path =>
      if negb (same_path mapped_path expected_path) then default_executable
      else if negb (bool_decide (vi_type r = 1%Z)) then default_executable
      else if bool_decide (vst_size r < 0)%Z then default_executable
      else mkExecutableIdentity (Some (vst_dev r)) (Some (vst_ino r)) (Some (Z.to_N (vst_size r)))
             (Some (vst_mtime r * 1000000000 + vst_mtimensec r)%Z)
  end.

(** [mapped_executable_identity]. *)
Definition mapped_executable_identity (pid : Z) (expected_path : string) :
    native ExecutableIdentity :=
  do* r := trigger (PidRegion pid) in
  Ret (match r with
       | Some region => identity_from_mapped_region region expected_path
       | None => default_executable
       end).
