(* ===== verification/Bundles.v ===== *)
(** Bundles: what the macOS adapter reads of files, [version.rs] and [cli_sessions.rs] of
    [unlinger-macos/src].

    The version of the application bundle of an executable, and the registry record of the
    session that a Playwright controller serves. *)

From S2P Require Import Prelude Text Model Fingerprint Task Effects Native.

(** ** Interfaces *)

(** CoreFoundation: what it makes of the bytes of a property list. [cf_string_bytes] gives
    what CFStringGetCString wrote before the first NUL, in a buffer of that size. *)
Class CoreFoundation : Type := {
  cf_value : Type;
  cf_property_list : string → option cf_value;
  cf_is_dictionary : cf_value → bool;
  cf_dictionary_value : cf_value → string → option cf_value;
  cf_is_string : cf_value → bool;
  cf_string_length : cf_value → Z;
  cf_string_maximum : cf_value → Z;
  cf_string_bytes : cf_value → Z → option string;
}.

(** The [Value] of serde_json. *)
Class JsonValues : Type := {
  json_value : Type;
  json_from_slice : string → option json_value;
  json_get : json_value → string → option json_value;
  json_as_str : json_value → option string;
  json_is_object : json_value → bool;
  json_as_bool : json_value → option bool;
}.

(** ** Versions of bundles *)

Definition MAX_APP_ANCESTORS : nat := 8.

Definition MAX_INFO_PLIST_BYTES : N := 256 * 1024.

Definition MAX_INFO_FIELD_BYTES : Z := 256.

(** The last component is a name that ends with ".app". *)
Definition is_app (cs : list component) : bool :=
  match last cs with
  | Some (Normal name) => utf8_valid name && ends_with ".app" name
  | _ => false
  end.

(** The application bundle that the executable lies in. *)
Definition bundle_of (executable : string) : option (list component) :=
  List.find is_app (take MAX_APP_ANCESTORS (path_ancestors executable)).

(** [is_exact_bundle_executable]. *)
Definition is_exact_bundle_executable (executable : string) : bool :=
  match bundle_of executable with
  | None => false
  | Some bundle =>
      match strip_components bundle (components executable) with
      | Some [Normal a; Normal b; Normal _] =>
          bool_decide (a = "Contents") && bool_decide (b = "MacOS")
      | _ => false
      end
  end.

Section Plist.
Context `{CF : CoreFoundation}.

(** [dictionary_string]. *)
Definition dictionary_string (dictionary : cf_value) (key : string) : option string :=
  value ← cf_dictionary_value dictionary key;
  if negb (cf_is_string value) then None else
  if bool_decide (cf_string_length value ≤ 0)%Z then None else
  let maximum := cf_string_maximum value in
  if bool_decide (maximum ≤ 0 ∨ MAX_INFO_FIELD_BYTES < maximum)%Z then None else
  text ← cf_string_bytes value (maximum + 1)%Z;
  if utf8_valid text && negb (is_empty (trim text)) then Some text else None.

(** [parse_info_plist]. *)
Definition parse_info_plist (bytes : string) : option AppBundleVersion :=
  property_list ← cf_property_list bytes;
  if negb (cf_is_dictionary property_list) then None else
  bundle_id ← dictionary_string property_list "CFBundleIdentifier";
  short_version ← dictionary_string property_list "CFBundleShortVersionString";
  Some (mkAppBundleVersion bundle_id short_version).

(** [read_bundle_version]. *)
Definition read_bundle_version (executable : string) : native (option AppBundleVersion) :=
  some* executable_file := trigger (OpenFile executable NoFollowAny) in
  some* executable_metadata := file_metadata executable_file in
  if negb (is_regular executable_metadata) then Ret None else
  match bundle_of executable with
  | None => Ret None
  | Some bundle =>
      some* file := trigger (OpenFile (path_join (path_of bundle) "Contents/Info.plist") NoFollowAny) in
      some* metadata := file_metadata file in
      if negb (is_regular metadata) || negb (bool_decide (st_nlink metadata = 1%N))
         || bool_decide (st_len metadata = 0%N)
         || bool_decide (MAX_INFO_PLIST_BYTES < st_len metadata)%N
      then Ret None else
      some* bytes := trigger (ReadAtMost file (MAX_INFO_PLIST_BYTES + 1)) in
      if negb (bool_decide (N.of_nat (String.length bytes) = st_len metadata)) then Ret None
      else Ret (parse_info_plist bytes)
  end.

(** [collect_app_bundle_version]. *)
Definition collect_app_bundle_version (executable : string) : native (option AppBundleVersion) :=
  if negb (is_absolute executable) || negb (is_exact_bundle_executable executable) then Ret None
  else read_bundle_version executable.

(** The version that the path of a crash handler names, if it has the shape of one. *)
Definition crashpad_version (executable : string) : option string :=
  bundle ← path_ancestors executable !! 7;
  relative ← strip_components bundle (components executable);
  match component_text <$> relative with
  | [a; b; c; d; version; e; f] =>
      if bool_decide ([a; b; c; d] =
           ["Contents"; "Frameworks"; "Google Chrome for Testing Framework.framework"; "Versions"])
         && bool_decide ([e; f] = ["Helpers"; "chrome_crashpad_handler"])
         && utf8_valid version
      then Some version else None
  | _ => None
  end.

(** [collect_crashpad_bundle_version]. *)
Definition collect_crashpad_bundle_version (executable : string) : native (option AppBundleVersion) :=
  if negb (is_absolute executable) then Ret None else
  match crashpad_version executable with
  | None => Ret None
  | Some version =>
      some* facts := read_bundle_version executable in
      Ret (if bool_decide (bundle_id facts = "com.google.chrome.for.testing")
              && bool_decide (short_version facts = version)
           then Some facts else None)
  end.
End Plist.

(** ** Registry records *)

Definition MAX_REGISTRY_BYTES : N := 65536.

Section Sessions.
Context `{JV : JsonValues}.

(** [read_json]. *)
Definition read_json (path : string) : native (option json_value) :=
  some* file := trigger (OpenFile path NoFollow) in
  some* metadata := file_metadata file in
  if negb (is_regular metadata) then Ret None else
  do* euid := trigger GetEuid in
  if negb (bool_decide (st_uid metadata = euid))
     || bool_decide (MAX_REGISTRY_BYTES < st_len metadata)%N
  then Ret None else
  some* bytes := trigger (ReadAtMost file (MAX_REGISTRY_BYTES + 1)) in
  if bool_decide (MAX_REGISTRY_BYTES < N.of_nat (String.length bytes))%N then Ret None
  else Ret (json_from_slice bytes).

(** [optional_bool]. *)
Definition optional_bool (value : option json_value) : option bool :=
  match value with None => Some false | Some v => json_as_bool v end.

(** A text field of an object. *)
Definition json_text (record : json_value) (key : string) : option string :=
  json_get record key ≫= json_as_str.

(** What a record says of the session: [None] if it is malformed, [Some false] if it is of
    another session, another version or another socket. *)
Definition record_of_session (record : json_value) (session version : string)
    (sockets : list string) : option bool :=
  name ← json_text record "name";
  if negb (bool_decide (name = session)) then Some false else
  found ← json_text record "version";
  if negb (bool_decide (found = version)) then Some false else
  path ← json_text record "socketPath";
  Some (bool_decide (fingerprint_parts [path] ∈ sockets)).

(** The selector of an ordinary session in the namespace. *)
Definition session_selector (namespace session : string) : option string :=
  if utf8_valid namespace && negb (bool_decide (is_Some (task_id_from_session session)))
     && valid_registry_namespace namespace
  then Some (ordinary_selector_fingerprint namespace session) else None.

(** The facts of a record that matches. *)
Definition session_facts (record : json_value) (namespace session version : string) :
    option PlaywrightCliRuntime :=
  cli ← json_get record "cli";
  if negb (json_is_object cli) then None else
  persistent ← optional_bool (json_get cli "persistent");
  attached ← optional_bool (json_get record "attached");
  Some (mkPlaywrightCliRuntime session version persistent attached
          (session_selector namespace session)).

(** The loop of [collect_registry]; a second match, or a malformed record, is no answer. *)
Fixpoint registry_loop (cache session version : string) (sockets : list string)
    (workspaces : list (option DirectoryEntry)) (matching : option PlaywrightCliRuntime) :
    native (option PlaywrightCliRuntime) :=
  match workspaces with
  | [] => Ret matching
  | None :: _ => Ret None
  | Some workspace :: rest =>
      match entry_is_dir workspace with
      | None => Ret None
      | Some false => registry_loop cache session version sockets rest matching
      | Some true =>
          do* record := read_json (path_join (path_join cache (entry_name workspace))
                                     (session +:+ ".session")) in
          match record with
          | None => registry_loop cache session version sockets rest matching
          | Some record =>
              match record_of_session record session version sockets with
              | None => Ret None
              | Some false => registry_loop cache session version sockets rest matching
              | Some true =>
                  if bool_decide (is_Some matching) then Ret None else
                  match session_facts record (entry_name workspace) session version with
                  | None => Ret None
                  | Some facts => registry_loop cache session version sockets rest (Some facts)
                  end
              end
          end
      end
  end.

(** [collect_registry]. *)
Definition collect_registry (cache session version : string) (sockets : list string) :
    native (option PlaywrightCliRuntime) :=
  some* workspaces := trigger (ReadDirectory cache) in
  registry_loop cache session version sockets workspaces None.

(** The directory of the package that the controller runs, and the session it serves. *)
Definition controller_session (arguments : list string) : option (string * string) :=
  entry ← arguments !! 1;
  if negb (path_ends_with entry "playwright-core/lib/entry/cliDaemon.js") then None else
  session ← arguments !! 2;
  if negb (bool_decide (is_Some (task_id_from_session session)))
     && negb (valid_ordinary_session_name session)
  then None else
  a ← path_parent entry;
  b ← path_parent a;
  directory ← path_parent b;
  Some (directory, session).

(** The version of the package, if it is the expected one. *)
Definition package_version (package : json_value) : option string :=
  name ← json_text package "name";
  if negb (bool_decide (name = "playwright-core")) then None else json_text package "version".

(** [collect_from]. *)
Definition collect_from (arguments socket_fingerprints : list string) (cache : string) :
    native (option PlaywrightCliRuntime) :=
  match controller_session arguments with
  | None => Ret None
  | Some (directory, session) =>
      some* package := read_json (path_join directory "package.json") in
      match package_version package with
      | None => Ret None
      | Some version => collect_registry cache session version socket_fingerprints
      end
  end.

(** [collect]. *)
Definition collect_session (arguments socket_fingerprints : list string) :
    native (option PlaywrightCliRuntime) :=
  some* home := trigger HomeDirectory in
  collect_from arguments socket_fingerprints
    (path_join home "Library/Caches/ms-playwright/daemon").
End Sessions.
