(* ===== verification/Runtime.v ===== *)
(** Runtime: the runtime that the macOS adapter gives to the cleanup,
    [unlinger-macos/src/lib.rs] with [descriptors.rs].

    [capture] and [lookup] make process records of what the kernel says; [signal_exact] and
    [wait_until] act. Every definition is a program over the system calls of [Native]. *)

From S2P Require Import Prelude Text Model Fingerprint Task Artifact Evidence Cleanup Effects.
From S2P Require Import Executor Procargs Native Bundles.
From Stdlib Require Import Ascii.
From coqutil Require Datatypes.RecordSettersUsingExistingGetters.
Export RecordSettersUsingExistingGetters.RecordSetNotations1.
Export RecordSettersUsingExistingGetters(set, const).

#[global] Arguments const {E} newValue _ /.

(** ** Descriptors *)

Definition MIN_CAPACITY : N := 64.

Definition MAX_CAPACITY : N := 65536.

Definition MAX_ATTEMPTS : nat := 8.

(** The attempts of [read_complete_list]: a full list may be cut off, so it is read again
    with twice the capacity. *)
Fixpoint read_attempts {T} (read : N → native (option (list T))) (attempts : nat) (capacity : N) :
    native (option (list T)) :=
  match attempts with
  | O => Ret None
  | S attempts =>
      some* entries := read capacity in
      let count := N.of_nat (length entries) in
      if bool_decide (count < capacity)%N then Ret (Some entries)
      else if bool_decide (capacity < count)%N || bool_decide (capacity = MAX_CAPACITY) then Ret None
      else read_attempts read attempts (N.min (capacity * 2) MAX_CAPACITY)
  end.

(** [read_complete_list]. *)
Definition read_complete_list {T} (declared_count : N) (read : N → native (option (list T))) :
    native (option (list T)) :=
  if bool_decide (MAX_CAPACITY ≤ declared_count)%N then Ret None
  else read_attempts read MAX_ATTEMPTS
         (N.min (N.max (declared_count + MIN_CAPACITY) MIN_CAPACITY) MAX_CAPACITY).

(** [network_port]: the low 16 bits in network byte order, on a little-endian machine. *)
Definition network_port (raw : Z) : N :=
  let narrowed := Z.to_N (Z.land raw 65535) in
  (narrowed `mod` 256 * 256 + narrowed / 256)%N.

(** One descriptor in the loop of [process_runtime_facts]. *)
Definition descriptor_facts (pid : Z) (fd : FdEntry) (facts : ProcessRuntimeFacts) :
    native ProcessRuntimeFacts :=
  if negb (fd_is_socket fd) then Ret facts else
  do* socket := trigger (SocketFacts pid (proc_fd fd)) in
  Ret (match socket with
       | None => facts <| descriptor_facts_complete := false |>
       | Some (TcpSocket lport TcpListen) =>
           facts <| tcp_listening_ports := tcp_listening_ports facts ++ [network_port lport] |>
       | Some (TcpSocket lport TcpEstablished) =>
           facts <| tcp_established_local_ports :=
                      tcp_established_local_ports facts ++ [network_port lport] |>
       | Some (TcpSocket _ TcpOther) | Some OtherSocket => facts
       | Some (UnixSocket conn_so sun_path) =>
           let connected := negb (bool_decide (conn_so = 0%N)) in
           let facts := if connected
                        then facts <| connected_unix_sockets := (connected_unix_sockets facts + 1)%N |>
                        else facts in
           match decode_c_chars sun_path with
           | Some path =>
               if is_empty path then facts else
               let fingerprint := fingerprint_parts [path] in
               let facts := if connected
                            then facts <| connected_named_unix_socket_fingerprints :=
                                   connected_named_unix_socket_fingerprints facts ++ [fingerprint] |>
                            else facts in
               facts <| unix_socket_fingerprints := unix_socket_fingerprints facts ++ [fingerprint] |>
           | None => facts
           end
       end).

Fixpoint descriptors_facts (pid : Z) (fds : list FdEntry) (facts : ProcessRuntimeFacts) :
    native ProcessRuntimeFacts :=
  match fds with
  | [] => Ret facts
  | fd :: fds => do* facts := descriptor_facts pid fd facts in descriptors_facts pid fds facts
  end.

(** The line of a file that ends at the first newline. *)
Fixpoint first_line (bytes : string) : string :=
  match bytes with
  | String c rest => if Ascii.eqb c "010"%char then "" else String c (first_line rest)
  | EmptyString => ""
  end.

(** [read_devtools_active_port]. *)
Definition read_devtools_active_port (path : string) : native (option N) :=
  some* file := trigger (OpenFile path NoFollowAny) in
  some* metadata := file_metadata file in
  if negb (is_regular metadata) then Ret None else
  do* euid := trigger GetEuid in
  if negb (bool_decide (st_uid metadata = euid)) then Ret None else
  some* bytes := trigger (ReadAtMost file 64) in
  let line := first_line bytes in
  Ret (if utf8_valid line then parse_u16 line else None).

(** [debug_port]. *)
Definition debug_port (arguments : list string) : native (option N) :=
  match flag_value arguments "--remote-debugging-port" ≫= parse_u16 with
  | None => Ret None
  | Some configured =>
      if negb (bool_decide (configured = 0%N)) then Ret (Some configured) else
      match flag_value arguments "--user-data-dir" with
      | None => Ret None
      | Some profile =>
          if negb (is_absolute profile) then Ret None
          else read_devtools_active_port (path_join profile "DevToolsActivePort")
      end
  end.

Definition sorted_ports (ports : list N) : list N := dedup (merge_sort N.le ports).

(** [process_runtime_facts]. *)
Definition process_runtime_facts (pid : Z) (declared_file_count : N)
    (arguments : option (list string)) : native ProcessRuntimeFacts :=
  do* fds := read_complete_list declared_file_count (λ capacity, trigger (ListFds pid capacity)) in
  match fds with
  | None => Ret default_runtime_facts
  | Some fds =>
      do* facts := descriptors_facts pid fds
        (default_runtime_facts <| open_file_descriptors := N.of_nat (length fds) |>
                               <| descriptor_facts_complete := true |>) in
      let facts := facts <| tcp_listening_ports := sorted_ports (tcp_listening_ports facts) |>
                         <| tcp_established_local_ports :=
                              sorted_ports (tcp_established_local_ports facts) |> in
      let has_debug_port :=
        match arguments with Some a => has_flag a "--remote-debugging-port" | None => false end in
      do* requested := match arguments with Some a => debug_port a | None => Ret None end in
      let facts := facts <| debug_transport_facts_complete :=
        descriptor_facts_complete facts
          && (negb has_debug_port || bool_decide (is_Some requested)) |> in
      Ret (match requested with
           | Some port =>
               facts <| attached_debug_transport :=
                 descriptor_facts_complete facts
                   && bool_decide (port ∈ tcp_established_local_ports facts) |>
           | None => facts
           end)
  end.

(** ** Process records *)

Record ProcessObservation : Type := mkProcessObservation {
  observed_process : ProcessRecord;
  path_missing_without_errno : bool;
}.

Inductive ProcessReadFailure : Type := GoneOrZombie | Unreadable.

(** [record_process_coverage]. *)
Definition record_process_coverage (o : ProcessObservation) (c : SnapshotCoverage) :
    SnapshotCoverage :=
  let p := observed_process o in
  let c := match arguments p with
           | None => c <| arguments_unavailable := (arguments_unavailable c + 1)%N |>
           | Some _ => c end in
  let c := match executable_path p with
           | None => c <| executable_path_unavailable := (executable_path_unavailable c + 1)%N |>
           | Some _ => c end in
  let c := if path_missing_without_errno o
           then c <| executable_path_missing_without_errno :=
                       (executable_path_missing_without_errno c + 1)%N |>
           else c in
  let c := if executable_is_complete (executable p) then c else
           let c := c <| executable_identity_unavailable :=
                           (executable_identity_unavailable c + 1)%N |> in
           match executable_path p with
           | Some _ => c <| executable_vnode_unavailable := (executable_vnode_unavailable c + 1)%N |>
           | None => c end in
  if descriptor_facts_complete (runtime p) then c
  else c <| descriptor_facts_unavailable := (descriptor_facts_unavailable c + 1)%N |>.

(** The name of a process: the long one, the short one or its PID. *)
Definition process_name (pid : N) (info : TaskAllInfo) : string :=
  match decode_c_chars (pbi_name info) with
  | Some name => if is_empty name then default ("pid-" +:+ pretty pid) (decode_c_chars (pbi_comm info))
                 else name
  | None => default ("pid-" +:+ pretty pid) (decode_c_chars (pbi_comm info))
  end.

(** [ProcessStatus] of [pbi_status]. *)
Definition process_status (code : N) : ProcessStatus :=
  if bool_decide (code = STATUS_RUN) then Running
  else if bool_decide (code = STATUS_SLEEP) then Sleeping
  else if bool_decide (code = STATUS_STOP) then Stopped
  else if bool_decide (code = STATUS_ZOMBIE) then Zombie
  else OtherStatus code.

(** The start of a process. *)
Definition started_at (info : TaskAllInfo) : N :=
  saturating_add (saturating_mul (pbi_start_tvsec info) 1000000) (pbi_start_tvusec info).

(** The terminal of a process; [0] and [u32::MAX] are none. *)
Definition tty_of (info : TaskAllInfo) : option N :=
  if bool_decide (e_tdev info = 0%N) || bool_decide (e_tdev info = (2 ^ 32 - 1)%N) then None
  else Some (e_tdev info).

Section Reading.
Context `{CF : CoreFoundation} `{JV : JsonValues}.

(** The facts of [process_runtime_facts] with those of the task session, the controller and
    the bundles. *)
Definition complete_runtime_facts (pid_i32 : Z) (info : TaskAllInfo) (path : option string)
    (parsed_arguments : option (list string * option string)) : native ProcessRuntimeFacts :=
  let arguments := fst <$> parsed_arguments in
  do* runtime := process_runtime_facts pid_i32 (pbi_nfiles info) arguments in
  do* cli := match arguments with
             | Some a => collect_session a (unix_socket_fingerprints runtime)
             | None => Ret None
             end in
  do* app := match path with
             | Some path => collect_app_bundle_version path
             | None => Ret None
             end in
  do* crashpad :=
    match path with
    | Some path => if ends_with "/chrome_crashpad_handler" path
                   then collect_crashpad_bundle_version path else Ret None
    | None => Ret None
    end in
  Ret (runtime
         <| task_session_facts_complete := bool_decide (is_Some parsed_arguments) |>
         <| task_session_name := parsed_arguments ≫= snd |>
         <| playwright_cli := cli |>
         <| app_bundle := app |>
         <| crashpad_bundle := crashpad |>
         <| cpu_total_nanos := saturating_add (pti_total_user info) (pti_total_system info) |>).

(** The record of a process. *)
Definition process_record (pid : N) (info : TaskAllInfo) (path : option string)
    (executable : ExecutableIdentity) (arguments : option (list string))
    (runtime : ProcessRuntimeFacts) : ProcessRecord :=
  mkProcessRecord
    (mkProcessIdentity pid (started_at info) (exe_device executable) (exe_inode executable))
    (pbi_ppid info) (pbi_pgid info) (pbi_uid info) (tty_of info) (process_name pid info)
    path executable arguments (pti_resident_size info) (process_status (pbi_status info)) runtime.

(** [read_process]. *)
Definition read_process (pid argmax : N) : native (option ProcessObservation) :=
  match pid_i32 pid with
  | None => Ret None
  | Some pid_i32 =>
      some* info := trigger (PidInfo pid_i32) in
      do* path_observation := read_executable_path pid_i32 in
      let path := observed_path path_observation in
      do* executable := match path with
                        | Some path => mapped_executable_identity pid_i32 path
                        | None => Ret default_executable
                        end in
      do* parsed := process_arguments pid_i32 argmax in
      let parsed_arguments := match parsed with Ok p => Some p | Err _ => None end in
      do* runtime := complete_runtime_facts pid_i32 info path parsed_arguments in
      Ret (Some (mkProcessObservation
                   (process_record pid info path executable (fst <$> parsed_arguments) runtime)
                   (missing_without_errno path_observation)))
  end.

(** [read_live_process]. *)
Definition read_live_process (pid argmax : N) :
    native (result ProcessObservation ProcessReadFailure) :=
  do* observation := read_process pid argmax in
  match observation with
  | Some observation =>
      Ret (match status (observed_process observation) with
           | Zombie => Err GoneOrZombie
           | _ => Ok observation
           end)
  | None =>
      do* s := kern_process_status pid in
      match s with
      | Some s => Ret (Err (if bool_decide (s = STATUS_ZOMBIE) then GoneOrZombie else Unreadable))
      | None =>
          do* exists_ := process_exists pid in
          Ret (Err (if exists_ : bool then Unreadable else GoneOrZombie))
      end
  end.
End Reading.

(** * The clocks and the runtime

    [MacosSnapshotter] and [MacosRuntime] of [unlinger-macos/src/lib.rs], the
    clocks of the machine, and the [CleanupRuntime] that the executor runs on. *)

(** ** Clocks *)

(** [current_unix_millis]. *)
Definition current_unix_millis : native (result N SnapshotError) :=
  do* now := trigger WallMillis in
  Ret (match now with
       | Err text => Err (ErrClock text)
       | Ok millis =>
           if bool_decide (millis < u64_bound)%N then Ok millis
           else Err (ErrClock "wall-clock milliseconds overflowed u64")
       end).

(** [continuous_nanos]. *)
Definition continuous_nanos : native (result N SnapshotError) :=
  do* value := trigger ContinuousTime in
  Ret (match value with
       | Err text => Err (ErrClock ("continuous clock unavailable: " +:+ text))
       | Ok (tv_sec, tv_nsec) =>
           if bool_decide (tv_sec < 0 ∨ tv_nsec < 0 ∨ 1000000000 ≤ tv_nsec)%Z
           then Err (ErrClock "continuous clock returned an invalid timespec")
           else ok_or (checked_mul (Z.to_N tv_sec) 1000000000 ≫= λ total,
                         checked_add total (Z.to_N tv_nsec))
                  (ErrClock "continuous nanoseconds overflowed u64")
       end).

(** The text without the NULs at its end. *)
Fixpoint strip_nuls (s : string) : string :=
  match s with
  | EmptyString => ""
  | String c s =>
      let rest := strip_nuls s in
      if is_empty rest && Ascii.eqb c nul then "" else String c rest
  end.

(** [boot_session_uuid]; its error is not looked at. *)
Definition boot_session_uuid : native (option string) :=
  some* size := trigger BootUuidSize in
  if bool_decide (size ≤ 1)%N then Ret None else
  some* value := trigger (BootUuid size) in
  let value := strip_nuls value in
  Ret (if is_empty value then None else Some value).

(** [boot_time_identity]. *)
Definition boot_time_identity : native (result string SnapshotError) :=
  do* value := trigger BootTime in
  Ret (match value with
       | Err text => Err (ErrSysctl ("kern.boottime unavailable: " +:+ text))
       | Ok (tv_sec, tv_usec) =>
           if bool_decide (tv_sec ≤ 0 ∨ tv_usec < 0)%Z
           then Err (ErrSysctl "kern.boottime returned an invalid timeval")
           else Ok (pretty tv_sec +:+ ":" +:+ pretty tv_usec)
       end).

(** [boot_session_fingerprint]. *)
Definition boot_session_fingerprint_of : native (result string SnapshotError) :=
  do* uuid := boot_session_uuid in
  do* raw := match uuid with Some raw => Ret (Ok raw) | None => boot_time_identity end in
  Ret (let? raw := raw in Ok (fingerprint_parts ["unlinger.boot-session.v1"; raw])).

(** [current_clock_sample]. *)
Definition current_clock_sample : native (result ClockSample SnapshotError) :=
  do? wall := current_unix_millis in
  do? nanos := continuous_nanos in
  do? boot := boot_session_fingerprint_of in
  Ret (Ok (mkClockSample wall (nanos / 1000000)%N boot)).

(** ** Snapshots *)

Section Snapshots.
Context `{CF : CoreFoundation} `{JV : JsonValues}.

(** A process that was inspected, and one that was not. *)
Definition count_inspected (o : ProcessObservation) (c : SnapshotCoverage) : SnapshotCoverage :=
  record_process_coverage o
    (c <| listed_processes := (listed_processes c + 1)%N |>
       <| inspected_processes := (inspected_processes c + 1)%N |>).

Definition count_unreadable (c : SnapshotCoverage) : SnapshotCoverage :=
  c <| listed_processes := (listed_processes c + 1)%N |>
    <| unreadable_processes := (unreadable_processes c + 1)%N |>.

(** The loop of [capture]. *)
Fixpoint capture_processes (argmax : N) (pids : list N) (c : SnapshotCoverage)
    (ps : list ProcessRecord) : native (SnapshotCoverage * list ProcessRecord) :=
  match pids with
  | [] => Ret (c, ps)
  | pid :: pids =>
      do* r := read_live_process pid argmax in
      match r with
      | Ok o => capture_processes argmax pids (count_inspected o c) (ps ++ [observed_process o])
      | Err GoneOrZombie => capture_processes argmax pids c ps
      | Err Unreadable => capture_processes argmax pids (count_unreadable c) ps
      end
  end.

(** The order of [sort_by_key(ProcessRecord::pid)], which is stable. *)
Definition pid_le (a b : ProcessRecord) : Prop := (process_pid a ≤ process_pid b)%N.

#[export] Instance pid_le_dec : RelDecision pid_le.
Proof. unfold pid_le. solve_decision. Defined.

(** [MacosSnapshotter::capture]. *)
Definition capture : native (result Snapshot SnapshotError) :=
  do* euid := trigger GetEuid in
  do* listed := trigger (PidsOf euid) in
  match listed with
  | Err text => Ret (Err (ErrProcessList text))
  | Ok pids =>
      do? argmax := kernel_argmax in
      do* r := capture_processes argmax pids default_coverage [] in
      do? clock := current_clock_sample in
      Ret (Ok (mkSnapshot (wall_unix_millis clock) euid (merge_sort pid_le r.2) r.1))
  end.

(** [MacosSnapshotter::lookup]. *)
Definition lookup_pid (pid : N) : native (result (option ProcessRecord) SnapshotError) :=
  do? argmax := kernel_argmax in
  do* r := read_live_process pid argmax in
  Ret (match r with
       | Ok o => Ok (Some (observed_process o))
       | Err GoneOrZombie => Ok None
       | Err Unreadable =>
           Err (ErrProcessLookup ("native metadata unavailable for live pid " +:+ pretty pid))
       end).

(** ** Signals *)

(** One ancestor in the loop of [is_self_or_ancestor]; an answer that is missing counts as
    an ancestor. *)
Definition ancestor_step (target_pid : N) (s : N * gset N) : native ((N * gset N) + bool) :=
  let '(cursor, seen) := s in
  if bool_decide (cursor = target_pid) then Ret (inr true)
  else if bool_decide (cursor ≤ 1)%N || bool_decide (cursor ∈ seen) then Ret (inr false)
  else match pid_i32 cursor with
       | None => Ret (inr true)
       | Some cursor_i32 =>
           do* info := trigger (PidInfo cursor_i32) in
           Ret (match info with
                | None => inr true
                | Some info => inl (pbi_ppid info, {[cursor]} ∪ seen)
                end)
       end.

(** [is_self_or_ancestor]; a step adds a PID below [2 ^ 31] to [seen]. *)
Definition is_self_or_ancestor (target_pid : N) : native bool :=
  do* current_pid := trigger GetPid in
  if bool_decide (current_pid < 0)%Z then Ret true else
  do* r := bounded_loop 31 (ancestor_step target_pid) (Z.to_N current_pid, ∅) in
  Ret (match r with inr answer => answer | inl _ => true end).

(** The signal is sent, if the PID fits. *)
Definition kill_process (pid : N) (signal : CleanupSignal) : native SignalDisposition :=
  match pid_i32 pid with
  | None => Ret Rejected
  | Some pid =>
      do* r := trigger (KillProcess pid signal) in
      Ret (match r with
           | KillOk => Delivered
           | KillNoProcess => AlreadyExited
           | KillNotPermitted | KillFailed => Rejected
           end)
  end.

(** [MacosRuntime::signal_exact]. *)
Definition signal_exact (i : ProcessIdentity) (signal : CleanupSignal) : native SignalDisposition :=
  do* euid := trigger GetEuid in
  if bool_decide (euid = 0%N) then Ret Rejected else
  do* related := is_self_or_ancestor (pid i) in
  if related : bool then Ret Rejected else
  do* found := lookup_pid (pid i) in
  match found with
  | Err _ => Ret Rejected
  | Ok None => Ret AlreadyExited
  | Ok (Some process) =>
      if negb (bool_decide (uid process = euid)) then Ret Rejected
      else if negb (exact_match i (identity process)) then Ret IdentityMismatch
      else kill_process (pid i) signal
  end.
End Snapshots.

(** ** Waiting *)

Definition runtime_failure (e : SnapshotError) : RuntimeFailure :=
  mkRuntimeFailure (display_snapshot_error e).

(** An iteration of [wait_until]. *)
Definition wait_step (deadline : N) (s : unit) : native (unit + result WaitOutcome RuntimeFailure) :=
  do* stop := trigger StopProbe in
  if stop : bool then Ret (inr (Ok Interrupted)) else
  do* now := continuous_nanos in
  match now with
  | Err e => Ret (inr (Err (runtime_failure e)))
  | Ok now =>
      if bool_decide (deadline ≤ now)%N then Ret (inr (Ok DeadlineReached)) else
      do* _ := trigger (SleepNanos (N.min (deadline - now) 100000000)) in
      Ret (inl tt)
  end.

(** [wait_until] up to its loop: the answer, or the deadline. *)
Definition wait_deadline (duration : Duration) : native (result WaitOutcome RuntimeFailure + N) :=
  do* stop := trigger StopProbe in
  if stop : bool then Ret (inl (Ok Interrupted)) else
  if bool_decide (u64_bound ≤ nanos duration)%N
  then Ret (inl (Err (mkRuntimeFailure "wait duration overflowed u64 nanoseconds"))) else
  do* started := continuous_nanos in
  Ret (match started with
       | Err e => inl (Err (runtime_failure e))
       | Ok started =>
           match checked_add started (nanos duration) with
           | None => inl (Err (mkRuntimeFailure "wait deadline overflowed u64 nanoseconds"))
           | Some deadline => inr deadline
           end
       end).

(** [MacosRuntime::wait_until]; [None] is a clock that stands still for [2 ^ 38] sleeps. *)
Definition wait_until (duration : Duration) : native (option (result WaitOutcome RuntimeFailure)) :=
  do* start := wait_deadline duration in
  match start with
  | inl answer => Ret (Some answer)
  | inr deadline =>
      do* r := bounded_loop 38 (wait_step deadline) tt in
      Ret (match r with inr answer => Some answer | inl _ => None end)
  end.
