(* ===== verification/RuntimeFacts.v ===== *)
(** RuntimeFacts: what the macOS adapter makes of the kernel's answers.

    A snapshot accounts for every process the kernel listed; kill(2) is called only for the
    process whose identity was read just before; a wait ends. *)

From S2P Require Import Prelude Text Model Fingerprint Task Artifact Evidence Cleanup Effects.
From S2P Require Import Executor Procargs Native Bundles Runtime.

(** ** Lists *)

Lemma sub_app_l {A} (l1 l2 : list A) : l1 ⊆ l1 ++ l2.
Proof. intros x ?. apply elem_of_app. by left. Qed.

Lemma sub_app_r {A} (l1 l2 : list A) : l2 ⊆ l1 ++ l2.
Proof. intros x ?. apply elem_of_app. by right. Qed.

#[export] Hint Resolve sub_app_l sub_app_r : unlinger.

(** ** Records *)

Section Records.
Context `{CF : CoreFoundation} `{JV : JsonValues}.

(** What a process record says is what the kernel answered; its path is missing without a
    reason exactly if the kernel returned no path and no error. *)
Definition read_of (pid : N) (tr : list (obs NativeE)) (o : ProcessObservation) : Prop :=
  ∃ n info path exe arguments facts,
    pid_i32 pid = Some n ∧ Obs (PidInfo n) (Some info) ∈ tr ∧
    observed_process o = process_record pid info path exe arguments facts ∧
    (∃ returned errno buffer, Obs (PidPath n) (returned, errno, buffer) ∈ tr ∧
       path = observed_path (classify_executable_path returned errno buffer) ∧
       path_missing_without_errno o = bool_decide (returned = 0 ∧ errno = 0)%Z) ∧
    (exe = default_executable ∨ ∃ region p, Obs (PidRegion n) (Some region) ∈ tr ∧
       path = Some p ∧ exe = identity_from_mapped_region region p).

Lemma read_of_mono pid tr tr' o : tr ⊆ tr' → read_of pid tr o → read_of pid tr' o.
Proof.
  intros Hs (n & info & path & exe & args & facts & Hn & Hin & Hrec & (r & e & b & Hp & Hm) & Hexe).
  exists n, info, path, exe, args, facts. do 2 (split; [by auto|]). split; [done|]. split.
  - exists r, e, b. by auto.
  - destruct Hexe as [?|(region & p & ? & ?)]; [by left|right]. exists region, p. by auto.
Qed.

Lemma executable_read pid path tr exe :
  runs (match path with
        | Some path => mapped_executable_identity pid path
        | None => Ret default_executable
        end) tr exe →
  exe = default_executable ∨ ∃ region p, Obs (PidRegion pid) (Some region) ∈ tr ∧
    path = Some p ∧ exe = identity_from_mapped_region region p.
Proof.
  destruct path as [path|]; [|intros [_ ->]; by left].
  intros (r & tr' & -> & _ & ->). destruct r as [region|]; [|by left].
  right. exists region, path. split; [apply elem_of_cons; by left|done].
Qed.

Lemma classified_missing returned errno buffer :
  missing_without_errno (classify_executable_path returned errno buffer) =
  bool_decide (returned = 0 ∧ errno = 0)%Z.
Proof.
  unfold classify_executable_path.
  repeat (case_bool_decide || case_match); simpl; try done; by naive_solver.
Qed.

Lemma read_process_spec pid argmax tr o :
  runs (read_process pid argmax) tr (Some o) → read_of pid tr o.
Proof.
  unfold read_process. destruct (pid_i32 pid) as [n|] eqn:Hn; [|by intros [_ ?]].
  intros (info & tr' & -> & H). cbn [bind] in H.
  destruct info as [info|]; [|by destruct H].
  apply runs_bind_inv in H as (tr1 & tr2 & po & -> & ([[returned errno] buffer] & ? & -> & -> & ->) & H).
  apply runs_bind_inv in H as (tr3 & tr4 & exe & -> & Hexe & H).
  apply runs_bind_inv in H as (tr5 & tr6 & parsed & -> & _ & H).
  apply runs_bind_inv in H as (tr7 & tr8 & facts & -> & _ & _ & H).
  injection H as ->. apply executable_read in Hexe.
  eexists n, info, _, exe, _, facts. split; [done|]. split; [apply elem_of_cons; by left|].
  split; [done|]. split.
  { exists returned, errno, buffer. split; [apply elem_of_cons; right; by left|].
    split; [done|]. apply classified_missing. }
  destruct Hexe as [?|(region & p & Hin & ? & ?)]; [by left|right].
  exists region, p. split; [|done]. do 2 (apply elem_of_cons; right).
  apply elem_of_app. by left.
Qed.

(** The kernel said that the process has ended; a PID that is too large is none. *)
Definition ended (tr : list (obs NativeE)) (pid : N) : Prop :=
  pid_i32 pid = None ∨ ∃ n, pid_i32 pid = Some n ∧
    ((∃ info, Obs (PidInfo n) (Some info) ∈ tr ∧ pbi_status info = STATUS_ZOMBIE) ∨
     Obs (KernProc n) (Some STATUS_ZOMBIE) ∈ tr ∨
     Obs (KernProc n) None ∈ tr ∧
       (Obs (KillProbe n) KillNoProcess ∈ tr ∨ Obs (KillProbe n) KillFailed ∈ tr)).

(** The kernel gave no metadata of the process, and said that it has not ended. *)
Definition withheld (tr : list (obs NativeE)) (pid : N) : Prop :=
  ∃ n, pid_i32 pid = Some n ∧ Obs (PidInfo n) None ∈ tr ∧
    ((∃ code, Obs (KernProc n) (Some code) ∈ tr ∧ code ≠ STATUS_ZOMBIE) ∨
     Obs (KernProc n) None ∈ tr ∧
       (Obs (KillProbe n) KillOk ∈ tr ∨ Obs (KillProbe n) KillNotPermitted ∈ tr)).

(** What reading a process answers is what the kernel said of it. *)
Definition read_as (pid : N) (tr : list (obs NativeE))
    (r : result ProcessObservation ProcessReadFailure) : Prop :=
  match r with
  | Ok o => read_of pid tr o ∧ status (observed_process o) ≠ Zombie
  | Err GoneOrZombie => ended tr pid
  | Err Unreadable => withheld tr pid
  end.

Lemma read_process_none pid argmax tr :
  runs (read_process pid argmax) tr None →
  pid_i32 pid = None ∨ ∃ n, pid_i32 pid = Some n ∧ Obs (PidInfo n) None ∈ tr.
Proof.
  unfold read_process. destruct (pid_i32 pid) as [n|]; [|by left]. intros (info & tr' & -> & H).
  right. exists n. split; [done|]. destruct info as [info|]; [|by left].
  cbn [bind] in H. exfalso.
  apply runs_bind_inv in H as (? & ? & ? & _ & _ & H).
  apply runs_bind_inv in H as (? & ? & ? & _ & _ & H).
  apply runs_bind_inv in H as (? & ? & ? & _ & _ & H).
  by apply runs_bind_inv in H as (? & ? & ? & _ & _ & _ & [=]).
Qed.

Lemma process_status_zombie code : process_status code = Zombie → code = STATUS_ZOMBIE.
Proof. unfold process_status. repeat case_bool_decide; by intros. Qed.

Lemma read_live_process_spec pid argmax tr r :
  runs (read_live_process pid argmax) tr r → read_as pid tr r.
Proof.
  unfold read_live_process. intros H.
  apply runs_bind_inv in H as (tr1 & tr2 & o & -> & Ho & H). destruct o as [o|].
  { apply read_process_spec in Ho. destruct H as [-> ->]. rewrite app_nil_r.
    destruct (status (observed_process o)) eqn:Hs; cbn [read_as]; rewrite ?Hs; try by split.
    destruct Ho as (n & info & path & exe & args & facts & Hn & Hin & Hrec & _).
    right. exists n. split; [done|]. left. exists info. split; [done|].
    rewrite Hrec in Hs. by apply process_status_zombie. }
  apply read_process_none in Ho.
  apply runs_bind_inv in H as (tr3 & tr4 & s & -> & Hs & H).
  unfold kern_process_status, process_exists in *.
  destruct (pid_i32 pid) as [n|] eqn:Hn.
  2:{ destruct Hs as [-> ->], H as [-> ->]. by left. }
  destruct Ho as [|(n' & [= <-] & Ho)]; [done|].
  destruct Hs as (s' & ? & -> & -> & ->). destruct s' as [s'|].
  - destruct H as [-> ->]. case_bool_decide; [subst|].
    + right. exists n. split; [done|]. right. left. set_solver.
    + exists n. split; [done|]. split; [set_solver|]. left. exists s'. split; [set_solver|done].
  - apply runs_bind_inv in H as (tr5 & tr6 & e & -> & (k & ? & -> & -> & ->) & -> & ->).
    destruct k; try (right; exists n; (split; [done|]); right; right; set_solver);
      exists n; (split; [done|]); (split; [set_solver|]); right; set_solver.
Qed.

(** ** Snapshots *)

(** The number of processes with a property. *)
Definition tally {A} (f : A → bool) (l : list A) : N := N.of_nat (length (List.filter f l)).

Lemma tally_snoc {A} (f : A → bool) l x : tally f (l ++ [x]) = (tally f l + if f x then 1 else 0)%N.
Proof. unfold tally. rewrite List.filter_app, length_app. simpl. destruct (f x); simpl; lia. Qed.

Lemma tally_zero {A} (f : A → bool) l x : tally f l = 0%N → x ∈ l → f x = false.
Proof.
  unfold tally. intros H Hin. destruct (f x) eqn:Hf; [|done]. exfalso.
  assert (Hx : In x (List.filter f l)) by (apply filter_In; by rewrite <-list_elem_of_In).
  by destruct (List.filter f l).
Qed.

Lemma tally_perm {A} (f : A → bool) l l' : l ≡ₚ l' → tally f l = tally f l'.
Proof.
  unfold tally. induction 1 as [|x l l' Hp IH|x y l|l l2 l' _ IH1 _ IH2]; simpl; [done| | |congruence].
  - destruct (f x); simpl; lia.
  - destruct (f x), (f y); simpl; lia.
Qed.

(** A missing argument, path or identity, and descriptors that were not read to the end. *)
Definition no_arguments (p : ProcessRecord) : bool := bool_decide (arguments p = None).

Definition no_path (p : ProcessRecord) : bool := bool_decide (executable_path p = None).

Definition no_identity (p : ProcessRecord) : bool := negb (executable_is_complete (executable p)).

Definition no_descriptors (p : ProcessRecord) : bool := negb (descriptor_facts_complete (runtime p)).

(** The processes that were inspected, and those that could not be read. *)
Definition inspected (reads : list (result ProcessObservation ProcessReadFailure)) :
    list ProcessObservation :=
  omap (λ r, match r with Ok o => Some o | Err _ => None end) reads.

Definition unread (r : result ProcessObservation ProcessReadFailure) : bool :=
  match r with Err Unreadable => true | _ => false end.

(** The counts of a coverage are those of the reads. *)
Definition covers (c : SnapshotCoverage)
    (reads : list (result ProcessObservation ProcessReadFailure)) : Prop :=
  let ps := observed_process <$> inspected reads in
  listed_processes c = (inspected_processes c + unreadable_processes c)%N ∧
  inspected_processes c = N.of_nat (length ps) ∧
  unreadable_processes c = tally unread reads ∧
  arguments_unavailable c = tally no_arguments ps ∧
  executable_path_unavailable c = tally no_path ps ∧
  executable_path_missing_without_errno c = tally path_missing_without_errno (inspected reads) ∧
  executable_identity_unavailable c = tally no_identity ps ∧
  executable_vnode_unavailable c = tally (λ p, no_identity p && negb (no_path p)) ps ∧
  descriptor_facts_unavailable c = tally no_descriptors ps.

(** What inspecting a process adds to the counts. *)
Lemma count_inspected_counts o c :
  let p := observed_process o in
  let bump (b : bool) (n : N) := (if b then n + 1 else n)%N in
  count_inspected o c =
  mkSnapshotCoverage (listed_processes c + 1) (inspected_processes c + 1) (unreadable_processes c)
    (bump (no_arguments p) (arguments_unavailable c))
    (bump (no_identity p) (executable_identity_unavailable c))
    (bump (no_path p) (executable_path_unavailable c))
    (bump (path_missing_without_errno o) (executable_path_missing_without_errno c))
    (bump (no_identity p && negb (no_path p)) (executable_vnode_unavailable c))
    (bump (no_descriptors p) (descriptor_facts_unavailable c)).
Proof.
  unfold count_inspected, record_process_coverage, no_arguments, no_path, no_identity, no_descriptors.
  cbn zeta. destruct c, (arguments _), (executable_path _), (path_missing_without_errno o),
    (executable_is_complete _), (descriptor_facts_complete _); reflexivity.
Qed.

Lemma inspected_snoc reads r :
  inspected (reads ++ [r]) = inspected reads ++ match r with Ok o => [o] | Err _ => [] end.
Proof. unfold inspected. rewrite omap_app. by destruct r. Qed.

Lemma covers_inspected o c reads : covers c reads → covers (count_inspected o c) (reads ++ [Ok o]).
Proof.
  intros (H1 & H2 & H3 & H4 & H5 & H6 & H7 & H8 & H9). unfold covers.
  rewrite inspected_snoc, fmap_app, count_inspected_counts. cbn [fmap list_fmap].
  rewrite !tally_snoc, length_app. simpl.
  split; [lia|]. split; [lia|]. split; [lia|].
  split; [destruct (no_arguments _); lia|]. split; [destruct (no_path _); lia|].
  split; [destruct (path_missing_without_errno o); lia|].
  split; [destruct (no_identity _); lia|]. split; [destruct (_ && _); lia|].
  destruct (no_descriptors _); lia.
Qed.

Lemma covers_unreadable c reads :
  covers c reads → covers (count_unreadable c) (reads ++ [Err Unreadable]).
Proof.
  intros H. unfold covers in *. rewrite inspected_snoc, app_nil_r, tally_snoc.
  unfold count_unreadable, set. simpl. intuition lia.
Qed.

Lemma covers_ended c reads : covers c reads → covers c (reads ++ [Err GoneOrZombie]).
Proof.
  intros H. unfold covers in *. rewrite inspected_snoc, app_nil_r, tally_snoc. simpl. intuition lia.
Qed.

Lemma ended_mono tr tr' pid : tr ⊆ tr' → ended tr pid → ended tr' pid.
Proof. intros Hs [?|(n & ? & H)]; [by left|right]. exists n. split; [done|]. set_solver. Qed.

(** The loop reads each listed process once, in order. *)
Lemma capture_processes_spec argmax pids c ps tr r done :
  runs (capture_processes argmax pids c ps) tr r →
  covers c done → ps = observed_process <$> inspected done →
  ∃ reads, tr = concat reads.*1 ∧
    Forall2 (λ pid read, read_as pid read.1 read.2) pids reads ∧
    covers r.1 (done ++ reads.*2) ∧ r.2 = observed_process <$> inspected (done ++ reads.*2).
Proof.
  revert c ps tr done. induction pids as [|pid pids IH]; intros c ps tr done_ H Hc Hs.
  { destruct H as [-> ->]. exists []. simpl. by rewrite app_nil_r. }
  cbn [capture_processes] in H.
  apply runs_bind_inv in H as (tr1 & tr2 & o & -> & Ho%read_live_process_spec & H).
  assert (Hnext : ∀ c' ps', runs (capture_processes argmax pids c' ps') tr2 r →
    covers c' (done_ ++ [o]) → ps' = observed_process <$> inspected (done_ ++ [o]) →
    ∃ reads, tr1 ++ tr2 = concat reads.*1 ∧
      Forall2 (λ pid read, read_as pid read.1 read.2) (pid :: pids) reads ∧
      covers r.1 (done_ ++ reads.*2) ∧ r.2 = observed_process <$> inspected (done_ ++ reads.*2)).
  { intros c' ps' H' Hc' Hs'. destruct (IH _ _ _ _ H' Hc' Hs') as (reads & -> & Hf & Hcov & Hps).
    exists ((tr1, o) :: reads). split; [done|]. split; [by constructor|].
    cbn [fmap list_fmap]. by rewrite (cons_middle _ done_), (assoc_L (++)). }
  destruct o as [o|[|]]; (eapply Hnext; [exact H| |]).
  - by apply covers_inspected.
  - rewrite inspected_snoc, fmap_app. by rewrite Hs.
  - by apply covers_ended.
  - by rewrite inspected_snoc, app_nil_r.
  - by apply covers_unreadable.
  - by rewrite inspected_snoc, app_nil_r.
Qed.

(** Everything that was read is in the answer. *)
Lemma reads_elem pids reads pid :
  Forall2 (λ pid read, read_as pid read.1 read.2) pids reads → pid ∈ pids →
  ∃ read, read ∈ reads ∧ read_as pid read.1 read.2.
Proof.
  intros Hf Hin. apply list_elem_of_lookup in Hin as [k Hk].
  destruct (Forall2_lookup_l _ _ _ _ _ Hf Hk) as (read & Hr & ?).
  exists read. split; [by eapply list_elem_of_lookup_2|done].
Qed.

Lemma runs_step_ok {E : Type → Type} {A B F} (p : prog E (result A F)) (k : A → prog E (result B F)) tr b :
  runs (do? x := p in k x) tr (Ok b) →
  ∃ tr1 tr2 a, tr = tr1 ++ tr2 ∧ runs p tr1 (Ok a) ∧ runs (k a) tr2 (Ok b).
Proof.
  intros (tr1 & tr2 & a & -> & Hp & Hk)%runs_bind_inv.
  destruct a as [a|e]; [by exists tr1, tr2, a|by destruct Hk].
Qed.

(** [C14] A snapshot accounts for the processes it was made from. The kernel listed the
    processes of the effective user and each was read once, in order: it was inspected and
    is no zombie, or the kernel said that it has ended, or gave nothing of it and said that
    it has not. The snapshot is sorted by PID and holds exactly the inspected ones; each
    count of its coverage is the number of inspected processes that lack the fact — of
    those whose path the kernel left out without an error too — and the listed ones are the
    inspected and the unreadable. If it could read every process, each listed PID is in it,
    or the kernel said that the process has ended. *)
Theorem snapshots_account_for_every_process tr s (Hrun : runs capture tr (Ok s)) :
  ∃ euid pids before reads after,
    tr = Obs GetEuid euid :: Obs (PidsOf euid) (Ok pids) :: before ++ concat reads.*1 ++ after ∧
    Forall2 (λ pid read, read_as pid read.1 read.2) pids reads ∧
    current_uid s = euid ∧ Sorted pid_le (processes s) ∧
    processes s ≡ₚ observed_process <$> inspected reads.*2 ∧
    covers (coverage s) reads.*2 ∧
    (∀ p, p ∈ processes s → process_pid p ∈ pids ∧ status p ≠ Zombie) ∧
    (unreadable_processes (coverage s) = 0%N →
     ∀ pid, pid ∈ pids →
       (∃ p, p ∈ processes s ∧ process_pid p = pid) ∨ ended (concat reads.*1) pid).
Proof.
  destruct Hrun as (euid & ? & -> & (listed & rest & -> & H)). destruct listed as [pids|]; [|by destruct H].
  apply runs_step_ok in H as (tr1 & tr2 & argmax & -> & _ & H).
  apply runs_bind_inv in H as (tr3 & tr4 & [c ps] & -> & Hc & H).
  apply runs_step_ok in H as (tr5 & tr6 & clock & -> & _ & _ & [= ->]).
  apply (capture_processes_spec argmax pids _ _ _ _ []) in Hc as (reads & -> & Hf & Hc & Hps);
    [|done|done]. cbn [fst snd app] in Hc, Hps.
  assert (Hp : merge_sort pid_le ps ≡ₚ ps) by apply merge_sort_Permutation.
  assert (Hread : ∀ o, o ∈ inspected reads.*2 → ∃ read, read ∈ reads ∧ read.2 = Ok o).
  { intros o (x & (read & -> & Hin)%list_elem_of_fmap & Hx)%list_elem_of_omap.
    exists read. split; [done|]. destruct read.2; [by injection Hx as ->|done]. }
  exists euid, pids, tr1, reads, (tr5 ++ tr6). split; [done|]. split; [done|]. split; [done|].
  split; [apply Sorted_merge_sort; intros a b; unfold pid_le; lia|]. simpl.
  split; [by rewrite Hp, Hps|]. split; [done|]. split.
  - intros p. rewrite Hp, Hps. intros (o & -> & Ho)%list_elem_of_fmap.
    apply Hread in Ho as (read & Hin & Ho). apply list_elem_of_lookup in Hin as [k Hk].
    destruct (Forall2_lookup_r _ _ _ _ _ Hf Hk) as (pid & Hpid & Has). rewrite Ho in Has.
    destruct Has as [(n & info & path & exe & args & facts & _ & _ & -> & _) Hz].
    split; [by eapply list_elem_of_lookup_2|done].
  - intros Hu pid Hpid. destruct (reads_elem _ _ _ Hf Hpid) as (read & Hin & Has).
    destruct read as [seg [o|[]]]; cbn [fst snd read_as] in Has.
    + left. destruct Has as [(n & info & path & exe & args & facts & _ & _ & Hrec & _) _].
      exists (observed_process o). split; [|by rewrite Hrec]. rewrite Hp, Hps.
      apply list_elem_of_fmap. exists o. split; [done|]. apply list_elem_of_omap.
      exists (Ok o). split; [|done]. apply list_elem_of_fmap. by exists (seg, Ok o).
    + right. eapply ended_mono; [|exact Has]. intros x Hx. apply list_elem_of_In, in_concat.
      exists seg. split; [|by apply list_elem_of_In].
      apply list_elem_of_In, list_elem_of_fmap. by exists (seg, Err GoneOrZombie).
    + exfalso. destruct Hc as (_ & _ & Hc & _). rewrite Hu in Hc.
      assert (Hin' : Err Unreadable ∈ reads.*2).
      { apply list_elem_of_fmap. by exists (seg, Err Unreadable). }
      symmetry in Hc. by pose proof (tally_zero _ _ _ Hc Hin').
Qed.
End Records.

(** ** Loops *)

Lemma size_below (X : gset N) (b : N) : (∀ x, x ∈ X → (x < b)%N) → (N.of_nat (size X) ≤ b)%N.
Proof.
  intros H. assert (Hs : X ⊆ list_to_set (N.of_nat <$> seq 0 (N.to_nat b))).
  { intros x Hx%H. apply elem_of_list_to_set, list_elem_of_fmap.
    exists (N.to_nat x). split; [lia|]. apply elem_of_seq. lia. }
  apply subseteq_size in Hs. rewrite size_list_to_set in Hs; [|apply NoDup_fmap_2; [apply _|apply NoDup_seq]].
  rewrite length_fmap, length_seq in Hs. lia.
Qed.

(** ** Ancestors *)

(** The kernel's answers climb from a process to the parent that each of them names, until
    launchd or a process that was met before, and the target is none of those on the way. *)
Inductive climbs (target : N) : N → gset N → list (obs NativeE) → Prop :=
| climbs_top cursor seen :
    cursor ≠ target → (cursor ≤ 1)%N ∨ cursor ∈ seen → climbs target cursor seen []
| climbs_parent cursor seen n info tr :
    cursor ≠ target → (1 < cursor)%N → cursor ∉ seen → pid_i32 cursor = Some n →
    climbs target (pbi_ppid info) ({[cursor]} ∪ seen) tr →
    climbs target cursor seen (Obs (PidInfo n) (Some info) :: tr).

Lemma ancestor_step_spec target cursor seen tr r :
  runs (ancestor_step target (cursor, seen)) tr r →
  match r with
  | inr false => cursor ≠ target ∧ ((cursor ≤ 1)%N ∨ cursor ∈ seen) ∧ tr = []
  | inr true => True
  | inl (cursor', seen') =>
      cursor ≠ target ∧ (1 < cursor < 2 ^ 31)%N ∧ cursor ∉ seen ∧ seen' = {[cursor]} ∪ seen ∧
      ∃ n info, pid_i32 cursor = Some n ∧ tr = [Obs (PidInfo n) (Some info)] ∧ pbi_ppid info = cursor'
  end.
Proof.
  unfold ancestor_step. case_bool_decide; [by intros [_ ->]|].
  destruct (_ || _) eqn:Hs.
  { intros [-> ->]. split; [done|]. split; [|done].
    apply orb_true_iff in Hs as [Hs|Hs]; apply bool_decide_eq_true in Hs; by auto. }
  destruct (pid_i32 cursor) as [n|] eqn:Hn; [|by intros [_ ->]].
  intros (info & tr' & -> & -> & ->). destruct info as [info|]; [|done].
  apply orb_false_iff in Hs as [H1%bool_decide_eq_false Hs%bool_decide_eq_false].
  pose proof Hn as Hn'. unfold pid_i32 in Hn'. case_bool_decide; [|done].
  split; [done|]. split; [lia|]. do 2 (split; [done|]). by exists n, info.
Qed.

(** A step adds to the PIDs that were seen, all below [2 ^ 31]. *)
Lemma ancestor_steps_seen target n s tr s' :
  loop_steps (ancestor_step target) n s tr s' →
  (∀ x, x ∈ s.2 → (1 < x < 2 ^ 31)%N) →
  (∀ x, x ∈ s'.2 → (1 < x < 2 ^ 31)%N) ∧ N.of_nat (size s'.2) = (N.of_nat (size s.2) + n)%N.
Proof.
  induction 1 as [s|n [cursor seen] tr1 [cursor1 seen1] tr2 s2 Hr Hl IH]; intros Hb; [split; [done|lia]|].
  apply ancestor_step_spec in Hr as (_ & Hlt & Hnew & -> & _).
  destruct IH as [Hb' Hn]; [simpl; set_solver|]. split; [done|]. rewrite Hn. cbn [snd].
  rewrite size_union, size_singleton by set_solver. rewrite Nat2N.inj_add. lia.
Qed.

Lemma ancestor_steps_climb target n s tr s' rest :
  loop_steps (ancestor_step target) n s tr s' → climbs target s'.1 s'.2 rest →
  climbs target s.1 s.2 (tr ++ rest).
Proof.
  induction 1 as [s|n [cursor seen] tr1 [cursor1 seen1] tr2 s2 Hr Hl IH]; intros Hc; [done|].
  apply ancestor_step_spec in Hr as (? & [? _] & ? & -> & c & info & Hn & -> & <-).
  by apply climbs_parent; [..|apply IH].
Qed.

(** The walk over the ancestors ends within its depth. *)
Lemma ancestor_walk_ends target cursor tr r :
  runs (bounded_loop 31 (ancestor_step target) (cursor, ∅)) tr r →
  ∃ answer, r = inr answer ∧ (answer = false → climbs target cursor ∅ tr).
Proof.
  intros H%bounded_loop_spec. destruct r as [s'|answer].
  - apply ancestor_steps_seen in H as H'; [|simpl; set_solver].
    destruct H' as [Hb Hn]. cbn [snd] in Hn. rewrite size_empty in Hn.
    exfalso. assert (Hle : (N.of_nat (size ({[0%N]} ∪ s'.2)) ≤ 2 ^ 31)%N).
    { apply size_below. intros x [->%elem_of_singleton|Hx%Hb]%elem_of_union; lia. }
    rewrite size_union, size_singleton, Nat2N.inj_add in Hle.
    2:{ intros x ->%elem_of_singleton Hx%Hb. lia. }
    change (2 ^ N.of_nat 31)%N with (2 ^ 31)%N in Hn. lia.
  - exists answer. split; [done|]. intros ->.
    destruct H as (n & tr1 & [c seen] & tr2 & -> & Hl & He).
    apply ancestor_step_spec in He as (Hc & Htop & ->).
    eapply (ancestor_steps_climb _ _ _ _ _ _ Hl). by apply climbs_top.
Qed.

(** ** Signals *)

(** A program that sends no signal and changes no directory. *)
Definition harmless (X : Type) (e : NativeE X) : Prop :=
  match e with KillProcess _ _ | RenameExcl _ _ _ | UnlinkAt _ _ => False | _ => True end.

Abbreviation silent p := (confined harmless p).

Lemma silent_trigger {X} (e : NativeE X) : harmless X e → silent (trigger e).
Proof. by split. Qed.

Lemma silent_some {A B} (p : native (option A)) (k : A → native (option B)) :
  silent p → (∀ a, silent (k a)) → silent (some* x := p in k x).
Proof. intros Hp Hk. apply confined_bind; [done|]. by intros [a|]. Qed.

Ltac silent :=
  repeat first
    [ exact I
    | solve [auto with silent nocore]
    | apply silent_trigger; exact I
    | apply silent_some; [|intro]
    | apply confined_step; [|intro]
    | apply confined_bind; [|intro]
    | progress cbn [bind confined]
    | case_match ].

Create HintDb silent.

Section Signals.
Context `{CF : CoreFoundation} `{JV : JsonValues}.

Lemma silent_argmax : silent kernel_argmax.
Proof. unfold kernel_argmax. silent. Qed.

Lemma silent_process_arguments pid argmax : silent (process_arguments pid argmax).
Proof. unfold process_arguments. silent. Qed.

Lemma silent_read_json path : silent (read_json path).
Proof. unfold read_json, file_metadata. silent. Qed.

#[local] Hint Resolve silent_argmax silent_process_arguments silent_read_json : silent.

Lemma silent_registry cache session version sockets workspaces matching :
  silent (registry_loop cache session version sockets workspaces matching).
Proof.
  revert matching. induction workspaces as [|[w|] rest IH]; intros matching;
    cbn [registry_loop]; [done| |done]. silent; apply IH.
Qed.

Lemma silent_collect_session arguments sockets : silent (collect_session arguments sockets).
Proof.
  unfold collect_session, collect_from, collect_registry.
  silent; apply silent_registry.
Qed.

Lemma silent_bundle executable : silent (read_bundle_version executable).
Proof. unfold read_bundle_version, file_metadata. silent. Qed.

#[local] Hint Resolve silent_collect_session silent_bundle : silent.

Lemma silent_attempts {T} (read : N → native (option (list T))) n capacity :
  (∀ c, silent (read c)) → silent (read_attempts read n capacity).
Proof.
  intros Hr. revert capacity. induction n as [|n IH]; intros capacity; [done|].
  cbn [read_attempts]. apply silent_some; [done|]. intros entries. repeat case_match; by try apply IH.
Qed.

Lemma silent_descriptors pid fds facts : silent (descriptors_facts pid fds facts).
Proof.
  revert facts. induction fds as [|fd fds IH]; intros facts; [done|].
  cbn [descriptors_facts]. unfold descriptor_facts. silent; apply IH.
Qed.

#[local] Hint Resolve silent_descriptors : silent.

Lemma silent_runtime_facts pid count arguments : silent (process_runtime_facts pid count arguments).
Proof.
  unfold process_runtime_facts, read_complete_list, debug_port, read_devtools_active_port,
    file_metadata.
  apply confined_bind; [case_match; [done|apply silent_attempts; intros; by apply silent_trigger]|].
  intros [fds|]; [|done]. silent.
Qed.

#[local] Hint Resolve silent_runtime_facts : silent.

Lemma silent_read_process pid argmax : silent (read_process pid argmax).
Proof.
  unfold read_process, read_executable_path, mapped_executable_identity, complete_runtime_facts,
    collect_app_bundle_version, collect_crashpad_bundle_version.
  silent.
Qed.

#[local] Hint Resolve silent_read_process : silent.

Lemma silent_lookup pid : silent (lookup_pid pid).
Proof.
  unfold lookup_pid, read_live_process, kern_process_status, process_exists. silent.
Qed.

Lemma silent_ancestors target : silent (is_self_or_ancestor target).
Proof.
  unfold is_self_or_ancestor. apply confined_bind; [by split|]. intros me.
  case_match; [done|]. apply confined_bind; [|done]. apply confined_loop. intros [cursor seen].
  unfold ancestor_step. silent.
Qed.

Lemma lookup_spec pid tr q :
  runs (lookup_pid pid) tr (Ok (Some q)) →
  ∃ o, observed_process o = q ∧ read_of pid tr o ∧ status q ≠ Zombie.
Proof.
  intros (tr1 & tr2 & argmax & -> & _ & H)%runs_step_ok.
  apply runs_bind_inv in H as (tr3 & tr4 & r & -> & Hr & -> & H).
  apply read_live_process_spec in Hr. destruct r as [o|[]]; [|done..]. injection H as ->.
  destruct Hr as [Hr Hs].
  exists o. split; [done|]. split; [|done]. eapply read_of_mono; [|exact Hr].
  intros x Hx. rewrite !elem_of_app. by auto.
Qed.

(** The kernel said, in these answers, that the process is the one of the identity, that it
    is [euid]'s and no zombie. *)
Definition is_exactly (i : ProcessIdentity) (n : Z) (euid : N) (tr : list (obs NativeE)) : Prop :=
  ∃ info region path,
    Obs (PidInfo n) (Some info) ∈ tr ∧ Obs (PidRegion n) (Some region) ∈ tr ∧
    pbi_uid info = euid ∧ pbi_status info ≠ STATUS_ZOMBIE ∧
    started_at info = started_at_unix_micros i ∧
    exe_device (identity_from_mapped_region region path) = executable_device i ∧
    exe_inode (identity_from_mapped_region region path) = executable_inode i ∧
    is_Some (executable_device i) ∧ is_Some (executable_inode i).

Lemma lookup_exact i tr q :
  runs (lookup_pid (pid i)) tr (Ok (Some q)) → exact_match i (identity q) = true →
  ∃ n, pid_i32 (pid i) = Some n ∧ is_exactly i n (uid q) tr.
Proof.
  intros (o & <- & (n & info & path & exe & args & facts & Hn & Hin & -> & _ & Hexe) & Hs)%lookup_spec.
  intros (Hi & Hd & Hino)%exact_match_iff. exists n. split; [done|].
  assert (Hd' := Hd). rewrite Hi in Hd'. simpl in Hd'.
  destruct Hexe as [->|(region & p & Hr & -> & ->)]; [by destruct Hd'|].
  exists info, region, p. do 2 (split; [done|]). split; [done|]. split.
  { intros Hz. apply Hs. simpl. unfold process_status. by rewrite Hz. }
  rewrite Hi. simpl. rewrite Hi in Hino, Hd. done.
Qed.

(** What precedes a kill(2): the kernel named the adapter's own PID and every ancestor of it
    up to launchd, the target is none of them, and the process was read last, as exactly
    the one of the identity. *)
Definition checked_before (i : ProcessIdentity) (n : Z) (pre : list (obs NativeE)) : Prop :=
  ∃ euid me walk reading,
    pre = Obs GetEuid euid :: Obs GetPid me :: walk ++ reading ∧
    euid ≠ 0%N ∧ pid_i32 (pid i) = Some n ∧ (0 ≤ me)%Z ∧ climbs (pid i) (Z.to_N me) ∅ walk ∧
    is_exactly i n euid reading.

Lemma ancestor_check target tr :
  runs (is_self_or_ancestor target) tr false →
  ∃ me walk, tr = Obs GetPid me :: walk ∧ (0 ≤ me)%Z ∧ climbs target (Z.to_N me) ∅ walk.
Proof.
  intros (me & walk & -> & H). cbn [bind] in H. case_bool_decide; [by destruct H|].
  apply runs_bind_inv in H as (tr1 & tr2 & r & -> & H & -> & Ha).
  apply ancestor_walk_ends in H as (answer & -> & Hf). subst answer.
  exists me, tr1. rewrite app_nil_r. split; [done|]. split; [lia|by apply Hf].
Qed.

Lemma kill_process_spec pid signal tr d :
  runs (kill_process pid signal) tr d →
  pid_i32 pid = None ∧ tr = [] ∧ d = Rejected ∨
  ∃ n r, pid_i32 pid = Some n ∧ tr = [Obs (KillProcess n signal) r] ∧
    d = match r with
        | KillOk => Delivered
        | KillNoProcess => AlreadyExited
        | KillNotPermitted | KillFailed => Rejected
        end.
Proof.
  unfold kill_process. destruct (pid_i32 pid) as [n|]; [|by left].
  intros (r & tr' & -> & -> & ->). right. by exists n, r.
Qed.

(** The signals that a trace sent. *)
Definition kill_of (o : obs NativeE) : option (Z * CleanupSignal) :=
  match o with @Obs _ _ (KillProcess n s) _ => Some (n, s) | _ => None end.

Definition kill_result (o : obs NativeE) : option KillAnswer :=
  match o with
  | @Obs _ X e x =>
      match e in NativeE X return X → option KillAnswer with
      | KillProcess _ _ => λ r, Some r
      | _ => λ _, None
      end x
  end.

Lemma silent_kills {A} (p : native A) tr a : silent p → runs p tr a → omap kill_of tr = [].
Proof.
  intros Hp Hr. assert (∀ o, o ∈ tr → kill_of o = None) as Hall.
  { intros [X e x] Hin. pose proof (confined_runs _ _ _ _ _ _ _ Hp Hr Hin). by destruct e. }
  clear Hr. induction tr as [|o tr IH]; [done|]. cbn [omap list_omap].
  rewrite (Hall o); [|apply elem_of_cons; by left]. apply IH. intros ? ?. apply Hall, elem_of_cons. by right.
Qed.

(** Why no signal was sent, and what was answered: the adapter is root, the target is itself
    or an ancestor, or the process could not be read, is gone, is another user's, or is
    another one than that of the identity. *)
Definition refused (i : ProcessIdentity) (tr : list (obs NativeE)) (d : SignalDisposition) : Prop :=
  ∃ euid rest, tr = Obs GetEuid euid :: rest ∧
    (euid = 0%N ∧ d = Rejected ∨
     runs (is_self_or_ancestor (pid i)) rest true ∧ d = Rejected ∨
     ∃ walk reading found, rest = walk ++ reading ∧ runs (is_self_or_ancestor (pid i)) walk false ∧
       runs (lookup_pid (pid i)) reading found ∧
       match found with
       | Err _ => d = Rejected
       | Ok None => d = AlreadyExited
       | Ok (Some q) => uid q ≠ euid ∧ d = Rejected ∨
           uid q = euid ∧ exact_match i (identity q) = false ∧ d = IdentityMismatch
       end).

(** What kill(2) returned, as the answer. *)
Definition kill_answer (r : KillAnswer) : SignalDisposition :=
  match r with
  | KillOk => Delivered
  | KillNoProcess => AlreadyExited
  | KillNotPermitted | KillFailed => Rejected
  end.

(** Either no signal is sent, for a reason, or the last event sends it after all checks. *)
Lemma signal_exact_cases i signal tr d :
  runs (signal_exact i signal) tr d →
  omap kill_of tr = [] ∧ refused i tr d ∨
  ∃ pre n r, tr = pre ++ [Obs (KillProcess n signal) r] ∧ omap kill_of pre = [] ∧
    checked_before i n pre ∧ d = kill_answer r.
Proof.
  intros (euid & tr0 & -> & H). cbn [bind] in H. case_bool_decide.
  { left. destruct H as [-> ->]. split; [done|]. exists euid, []. by auto. }
  apply runs_bind_inv in H as (tr1 & tr2 & related & -> & H1 & H).
  assert (Hk1 : omap kill_of tr1 = []) by (eapply silent_kills; [apply silent_ancestors|exact H1]).
  destruct related.
  { left. destruct H as [-> ->]. rewrite app_nil_r. split; [done|]. exists euid, tr1. by auto. }
  apply runs_bind_inv in H as (tr3 & tr4 & found & -> & H2 & H).
  assert (Hk2 : omap kill_of tr3 = []) by (eapply silent_kills; [apply silent_lookup|exact H2]).
  assert (Hpre : omap kill_of (Obs GetEuid euid :: tr1 ++ tr3) = []).
  { cbn [omap list_omap kill_of]. by rewrite omap_app, Hk1. }
  assert (Hstop : ∀ d', tr4 = [] →
    match found with
    | Err _ => d' = Rejected
    | Ok None => d' = AlreadyExited
    | Ok (Some q) => uid q ≠ euid ∧ d' = Rejected ∨
        uid q = euid ∧ exact_match i (identity q) = false ∧ d' = IdentityMismatch
    end →
    omap kill_of (Obs GetEuid euid :: tr1 ++ tr3 ++ tr4) = [] ∧
    refused i (Obs GetEuid euid :: tr1 ++ tr3 ++ tr4) d').
  { intros d' -> Hd'. rewrite app_nil_r. split; [done|]. exists euid, (tr1 ++ tr3). split; [done|].
    right; right. by exists tr1, tr3, found. }
  destruct found as [[q|]|]; [|left; destruct H as [-> ->]; by apply Hstop..].
  case_bool_decide as Hu; cbn [negb] in H; [|left; destruct H as [-> ->]; apply Hstop; by auto].
  destruct (exact_match i (identity q)) eqn:Hm; cbn [negb] in H;
    [|left; destruct H as [-> ->]; apply Hstop; by auto].
  destruct (lookup_exact _ _ _ H2 Hm) as (n' & Hn' & Hex).
  apply kill_process_spec in H as [(Hn & _ & _)|(n & r & Hn & -> & ->)]; [congruence|right].
  rewrite Hn in Hn'. injection Hn' as <-.
  exists (Obs GetEuid euid :: tr1 ++ tr3), n, r. split; [by rewrite app_comm_cons, (assoc_L (++))|].
  split; [done|]. split; [|done].
  destruct (ancestor_check _ _ H1) as (me & walk & -> & Hme & Hwalk).
  exists euid, me, walk, tr3. do 5 (split; [done|]). by rewrite <-Hu.
Qed.

(** [C12] A signal goes only to the process that has the exact identity: kill(2) is the last
    call, with the requested signal, and before it the adapter saw that it does not run as
    root, that the target is neither itself nor one of its ancestors, which the kernel
    named one by one up to launchd or to one it had met before, and then read the target
    once more, with the identity's start and executable, as a live process of the effective
    user. What it answers is what
    kill(2) returned. Without a kill(2) it answers why it refused: as root, itself or an
    ancestor, unreadable, gone, another user's, or another process. *)
Theorem signals_go_to_the_exact_process i signal tr d (Hrun : runs (signal_exact i signal) tr d) :
  (∀ pre n s r post, tr = pre ++ Obs (KillProcess n s) r :: post →
     s = signal ∧ post = [] ∧ checked_before i n pre ∧
     d = match r with
         | KillOk => Delivered
         | KillNoProcess => AlreadyExited
         | KillNotPermitted | KillFailed => Rejected
         end) ∧
  (omap kill_of tr = [] → refused i tr d).
Proof.
  apply signal_exact_cases in Hrun as [[Hk Hd]|(pre & n & r & -> & Hk & Hc & Hd)].
  - split; [|done]. intros pre n s r post ->. rewrite omap_app in Hk. by apply app_nil in Hk as [_ ?].
  - split; [|rewrite omap_app; intros [_ [=]]%app_nil].
    intros pre' n' s r' post Heq.
    apply (omap_split_unique kill_of) in Heq as (-> & Ho & Hpost); [|done|done|by eexists].
    pose proof (f_equal kill_result Ho) as Hr. injection Hr as <-.
    apply (f_equal kill_of) in Ho. injection Ho as -> ->. by rewrite <-Hpost.
Qed.
End Signals.

#[export] Hint Resolve silent_argmax silent_process_arguments silent_read_json silent_collect_session
  silent_bundle silent_descriptors silent_runtime_facts silent_read_process silent_lookup
  silent_ancestors : silent.

(** ** Waiting *)

Definition nanos_of (s n : Z) : N := (Z.to_N s * 1000000000 + Z.to_N n)%N.

(** The clock does not go back, and a sleep lasts as long as it was asked to. *)
Fixpoint machine_time (since : N) (tr : list (obs NativeE)) : Prop :=
  match tr with
  | [] => True
  | @Obs _ X e x :: tr =>
      match e in NativeE X return X → Prop with
      | ContinuousTime => λ r,
          match r with
          | Ok (s, n) => (since ≤ nanos_of s n)%N ∧ machine_time (nanos_of s n) tr
          | Err _ => machine_time since tr
          end
      | SleepNanos n => λ _, machine_time (since + n) tr
      | _ => λ _, machine_time since tr
      end x
  end.

(** The machine read the clock, and it showed this time. *)
Definition clock_reads (o : obs NativeE) (now : N) : Prop :=
  ∃ s n, o = Obs ContinuousTime (Ok (s, n)) ∧ now = nanos_of s n.

Lemma continuous_nanos_spec tr now :
  runs continuous_nanos tr (Ok now) → ∃ o, tr = [o] ∧ clock_reads o now.
Proof.
  intros (r & tr' & -> & -> & H). destruct r as [[s n]|]; [|done].
  case_bool_decide; [done|]. exists (Obs ContinuousTime (Ok (s, n))). split; [done|].
  exists s, n. split; [done|]. unfold checked_mul, checked_add in H.
  case_bool_decide; [|done]. cbn [mbind option_bind] in H. case_bool_decide; [|done].
  by injection H.
Qed.

Lemma machine_time_reads o now since tr :
  clock_reads o now → machine_time since (o :: tr) → (since ≤ now)%N ∧ machine_time now tr.
Proof. by intros (s & n & -> & ->) [? ?]. Qed.

Lemma wait_step_more deadline tr s :
  runs (wait_step deadline s) tr (inl s) →
  ∃ o now, tr = [Obs StopProbe false; o; Obs (SleepNanos (N.min (deadline - now) 100000000)) tt] ∧
    clock_reads o now ∧ (now < deadline)%N.
Proof.
  intros (stop & tr1 & -> & H). cbn [bind] in H. destruct stop; [by destruct H|].
  apply runs_bind_inv in H as (tr2 & tr3 & now & -> & Hn & H). destruct now as [now|]; [|by destruct H].
  apply continuous_nanos_spec in Hn as (o & -> & Ho). case_bool_decide; [by destruct H|].
  destruct H as ([] & tr4 & -> & -> & _). exists o, now. split; [done|]. split; [done|]. lia.
Qed.

Lemma wait_steps_time deadline n s tr s' since tail :
  loop_steps (wait_step deadline) n s tr s' → machine_time since (tr ++ tail) →
  (0 < n → since + (n - 1) * 100000000 < deadline)%N ∧
  ∃ since', machine_time since' tail ∧ (N.min deadline (since + n * 100000000) ≤ since')%N.
Proof.
  intros H. revert since. induction H as [s|n [] tr1 [] tr2 s2 Hr Hl IH]; intros since Ht.
  { split; [lia|]. exists since. split; [done|lia]. }
  apply wait_step_more in Hr as (o & now & -> & Ho & Hlt).
  apply (machine_time_reads _ _ _ _ Ho) in Ht as [Hge Ht].
  destruct (IH _ Ht) as (Hn & since' & Ht' & Hs'). split; [|exists since'; split; [done|]].
  - destruct (decide (n = 0%N)) as [->|]; lia.
  - lia.
Qed.

Lemma wait_step_end deadline s tr answer :
  runs (wait_step deadline s) tr (inr answer) →
  match answer with
  | Ok DeadlineReached => ∃ o now, tr = [Obs StopProbe false; o] ∧ clock_reads o now ∧ (deadline ≤ now)%N
  | Ok Interrupted => tr = [Obs StopProbe true]
  | Err _ => True
  end.
Proof.
  intros (stop & tr1 & -> & H). cbn [bind] in H. destruct stop; [by destruct H as [-> [= ->]]|].
  apply runs_bind_inv in H as (tr2 & tr3 & now & -> & Hn & H).
  destruct now as [now|]; [|by destruct H as [-> [= ->]]].
  apply continuous_nanos_spec in Hn as (o & -> & Ho). case_bool_decide.
  - destruct H as [-> [= ->]]. by exists o, now.
  - by destruct H as ([] & tr4 & -> & _ & [=]).
Qed.

(** A wait ends, whenever the clock of the machine goes on: it answers, and where it
    answers that the deadline is reached, the last call read a time that is later than the
    first reading by the whole duration; where it answers that it was interrupted, the last
    call is the stop question with the answer yes. *)
Theorem machine_waits_end duration tr r (Hrun : runs (wait_until duration) tr r)
    (Htime : machine_time 0 tr) :
  ∃ answer, r = Some answer ∧
    match answer with
    | Ok DeadlineReached =>
        ∃ first started pre last now,
          tr = Obs StopProbe false :: first :: pre ++ [last] ∧
          clock_reads first started ∧ clock_reads last now ∧ (started + nanos duration ≤ now)%N
    | Ok Interrupted => ∃ pre, tr = pre ++ [Obs StopProbe true]
    | Err _ => True
    end.
Proof.
  apply runs_bind_inv in Hrun as (tr1 & tr2 & start & -> & Hd & H).
  destruct Hd as (stop & tr0 & -> & Hd). cbn [bind] in Hd. destruct stop.
  { destruct Hd as [-> ->]. destruct H as [-> ->]. eexists. split; [done|]. by exists []. }
  case_bool_decide; [destruct Hd as [-> ->]; destruct H as [-> ->]; by eexists|].
  apply runs_bind_inv in Hd as (tr3 & tr4 & started & -> & Hs & -> & ->).
  destruct started as [started|]; [|destruct H as [-> ->]; by eexists].
  apply continuous_nanos_spec in Hs as (first & -> & Hfirst).
  unfold checked_add in H. case_bool_decide as Hb; [|destruct H as [-> ->]; by eexists].
  apply runs_bind_inv in H as (tr5 & tr6 & r' & -> & H & -> & ->). rewrite !app_nil_r in *.
  apply (machine_time_reads _ _ _ _ Hfirst) in Htime as [_ Htime]. simpl in Htime.
  apply bounded_loop_spec in H. destruct r' as [s'|answer].
  - exfalso. destruct (wait_steps_time _ _ _ _ _ started [] H) as [Hn _]; [by rewrite app_nil_r|].
    change (2 ^ N.of_nat 38)%N with 274877906944%N in Hn. unfold u64_bound in Hb. lia.
  - destruct H as (n & tr7 & s' & tr8 & -> & _ & He). exists answer. split; [done|].
    apply wait_step_end in He. destruct answer as [[|]|]; [| |done].
    + destruct He as (last & now & -> & Hlast & Hle).
      exists first, started, (tr7 ++ [Obs StopProbe false]), last, now.
      split; [by rewrite <-(assoc_L (++))|done].
    + exists (Obs StopProbe false :: first :: tr7). by rewrite He.
Qed.
