(* ===== verification/Quarantine.v ===== *)
(** Quarantine: the removal of one runtime artifact, [unlinger-macos/src/artifacts.rs].

    The artifact is frozen by the metadata of an open descriptor. To remove it, the adapter
    looks for references to it, moves it to a random name beside it, looks again at what it
    moved and for references to that, and unlinks the random name. The descriptors that a
    function holds are closed where they go out of scope. *)

From S2P Require Import Prelude Text Model Fingerprint Task Artifact Evidence Cleanup Effects.
From S2P Require Import Executor Procargs Native.

(** ** Scopes *)

(** The file is closed when the program is done. *)
Definition closing {A} (file : N) (p : native A) : native A :=
  do* a := p in
  do* _ := trigger (CloseFile file) in
  Ret a.

(** The file is the result, unless the program fails. *)
Definition opened {E} (file : N) (p : native (result unit E)) : native (result N E) :=
  do* r := p in
  match r with
  | Ok _ => Ret (Ok file)
  | Err e => do* _ := trigger (CloseFile file) in Ret (Err e)
  end.

(** ** Data *)

Definition QUARANTINE_PREFIX : string := ".unlinger-artifact-quarantine-".

Definition QUARANTINE_ATTEMPTS : nat := 4.

Inductive OpenFailure : Type :=
| OpenAbsent
| OpenUnsafe
| OpenRuntime (error : RuntimeFailure).

Inductive QuarantineResult : Type :=
| Moved (name : string)
| QuarantineAbsent
| QuarantineUnsafe
| QuarantineRejected.

Inductive ReferenceScanFailure : Type :=
| OpenReferenceLookup
| ReferencePathIdentity
| ProcessMetadata
| ScanArguments.

(** [devtools_active_port_name]. *)
Definition devtools_active_port_name : string := "DevToolsActivePort".

(** ** Opening *)

(** [map_open_error]. *)
Definition map_open_error (e : OsError) : OpenFailure :=
  match raw_os_error e with
  | ENOENT => OpenAbsent
  | ELOOP | ENOTDIR | EACCES | EPERM => OpenUnsafe
  | _ => OpenRuntime (mkRuntimeFailure ("runtime artifact open failed: " +:+ os_error_text e))
  end.

(** [fd_has_empty_extended_acl]; the error is always [Unsafe]. *)
Definition fd_has_empty_extended_acl (fd : N) : native (result bool OpenFailure) :=
  do* acl := trigger (AclOf fd) in
  Ret (match acl with
       | AclMissing => Ok true
       | AclUnavailable => Err OpenUnsafe
       | AclList get_entry entry_null freed =>
           if negb (bool_decide (get_entry = 0)%Z) || entry_null || negb (bool_decide (freed = 0)%Z)
           then Err OpenUnsafe else Ok false
       end).

(** [if !fd_has_empty_extended_acl(fd)? { return Err(Unsafe) }]. *)
Definition require_empty_acl (fd : N) : native (result unit OpenFailure) :=
  do? empty := fd_has_empty_extended_acl fd in
  Ret (if empty : bool then Ok tt else Err OpenUnsafe).

(** The directory is the owner's, the effective user's and private. *)
Definition private_directory (m : FileStat) (owner_uid euid : N) : bool :=
  bool_decide (N.land (st_mode m) S_IFMT = S_IFDIR)
    && bool_decide (st_uid m = owner_uid) && bool_decide (owner_uid = euid)
    && bool_decide (N.land (st_mode m) 63 = 0%N).

(** [open_safe_parent]. *)
Definition open_safe_parent (path : string) (owner_uid : N) : native (result N OpenFailure) :=
  do* r := trigger (OpenParent path) in
  match r with
  | Err e => Ret (Err (map_open_error e))
  | Ok file =>
      opened file
        (do* m := trigger (FileMetadata file) in
         match m with
         | Err text =>
             Ret (Err (OpenRuntime (mkRuntimeFailure ("artifact parent metadata failed: " +:+ text))))
         | Ok m =>
             do* euid := trigger GetEuid in
             if negb (private_directory m owner_uid euid) then Ret (Err OpenUnsafe)
             else require_empty_acl file
         end)
  end.

(** [open_named_candidate]. *)
Definition open_named_candidate (parent_fd : N) (name : string) : native (result N OpenFailure) :=
  do* r := trigger (OpenAt parent_fd name) in
  match r with
  | Err e => Ret (Err (map_open_error e))
  | Ok file => opened file (require_empty_acl file)
  end.

(** [open_candidate]. *)
Definition open_candidate (parent_fd : N) : native (result N OpenFailure) :=
  open_named_candidate parent_fd devtools_active_port_name.

(** ** Identities *)

(** [safe_candidate_metadata], with the effective user. *)
Definition safe_candidate_metadata (m : FileStat) (owner_uid parent_device euid : N) : bool :=
  is_regular m && bool_decide (st_uid m = owner_uid) && bool_decide (owner_uid = euid)
    && bool_decide (N.land (st_mode m) 18 = 0%N) && bool_decide (st_nlink m = 1%N)
    && bool_decide (meta_dev m = parent_device).

(** [same_candidate_identity]. *)
Definition same_candidate_identity (m : FileStat) (expected : RuntimeArtifactIdentity) (euid : N) :
    bool :=
  safe_candidate_metadata m (ra_owner_uid expected) (ra_parent_device expected) euid
    && bool_decide (meta_dev m = ra_device expected)
    && bool_decide (st_ino m = ra_inode expected)
    && bool_decide (st_uid m = ra_owner_uid expected)
    && bool_decide (st_mode m = ra_mode expected)
    && bool_decide (st_nlink m = ra_link_count expected).

(** What [fstatat_named_matches] asks of the entry. *)
Definition entry_matches (m : FileStat) (expected : RuntimeArtifactIdentity) : bool :=
  bool_decide (st_dev m = Z.of_N (ra_device expected))
    && bool_decide (st_ino m = ra_inode expected)
    && bool_decide (st_uid m = ra_owner_uid expected)
    && bool_decide (st_mode m = ra_mode expected)
    && bool_decide (st_nlink m = ra_link_count expected)
    && is_regular m.

(** The parent is the one that was frozen. *)
Definition same_parent (m : FileStat) (expected : RuntimeArtifactIdentity) : bool :=
  bool_decide (meta_dev m = ra_parent_device expected)
    && bool_decide (st_ino m = ra_parent_inode expected)
    && bool_decide (st_uid m = ra_parent_owner_uid expected)
    && bool_decide (st_mode m = ra_parent_mode expected).

(** [fstatat_named_matches]. *)
Definition fstatat_named_matches (parent_fd : N) (name : string) (expected : RuntimeArtifactIdentity) :
    native bool :=
  do* r := trigger (StatAt parent_fd name) in
  Ret (match r with Ok m => entry_matches m expected | Err _ => false end).

(** [fstatat_matches]. *)
Definition fstatat_matches (parent_fd : N) (expected : RuntimeArtifactIdentity) : native bool :=
  fstatat_named_matches parent_fd devtools_active_port_name expected.

(** ** Freezing *)

Definition identity_of (m parent : FileStat) : RuntimeArtifactIdentity :=
  mkRuntimeArtifactIdentity (meta_dev m) (st_ino m) (st_uid m) (st_mode m) (st_nlink m)
    (meta_dev parent) (st_ino parent) (st_uid parent) (st_mode parent).

(** [freeze] of an open candidate. *)
Definition freeze_file (c : RuntimeArtifactCandidate) (parent_metadata : FileStat) (file : N) :
    native (result ArtifactFreeze RuntimeFailure) :=
  do* m := trigger (FileMetadata file) in
  match m with
  | Err text => Ret (Err (mkRuntimeFailure ("artifact metadata failed: " +:+ text)))
  | Ok m =>
      do* euid := trigger GetEuid in
      Ret (Ok (if safe_candidate_metadata m (candidate_owner_uid c) (meta_dev parent_metadata) euid
               then Frozen (mkFrozenRuntimeArtifact c (identity_of m parent_metadata))
               else FreezeUnsafe))
  end.

(** [freeze] below the open parent. *)
Definition freeze_below (c : RuntimeArtifactCandidate) (parent : N) :
    native (result ArtifactFreeze RuntimeFailure) :=
  do* m := trigger (FileMetadata parent) in
  match m with
  | Err text => Ret (Err (mkRuntimeFailure ("artifact parent metadata failed: " +:+ text)))
  | Ok parent_metadata =>
      do* r := open_candidate parent in
      match r with
      | Err OpenAbsent => Ret (Ok Absent)
      | Err OpenUnsafe => Ret (Ok FreezeUnsafe)
      | Err (OpenRuntime e) => Ret (Err e)
      | Ok file => closing file (freeze_file c parent_metadata file)
      end
  end.

(** [freeze]. *)
Definition freeze (c : RuntimeArtifactCandidate) : native (result ArtifactFreeze RuntimeFailure) :=
  do* euid := trigger GetEuid in
  if negb (bool_decide (candidate_kind c = DevToolsActivePort))
     || bool_decide (candidate_owner_uid c = 0%N)
     || negb (bool_decide (candidate_owner_uid c = euid))
  then Ret (Ok FreezeUnsafe) else
  do* r := open_safe_parent (profile_path c) (candidate_owner_uid c) in
  match r with
  | Err (OpenUnsafe | OpenAbsent) => Ret (Ok FreezeUnsafe)
  | Err (OpenRuntime e) => Ret (Err e)
  | Ok parent => closing parent (freeze_below c parent)
  end.

(** ** Looking at a candidate *)

(** [file.metadata()] and [same_candidate_identity]: [None] if the metadata failed. *)
Definition same_open_candidate (file : N) (expected : RuntimeArtifactIdentity) :
    native (option bool) :=
  do* m := trigger (FileMetadata file) in
  match m with
  | Err _ => Ret None
  | Ok m => do* euid := trigger GetEuid in Ret (Some (same_candidate_identity m expected euid))
  end.

(** What a check of an open candidate and of its entry says: no disposition, or why not. *)
Definition confirm_candidate (parent_fd file : N) (name : string) (expected : RuntimeArtifactIdentity) :
    native (result unit ArtifactDisposition) :=
  do* same := same_open_candidate file expected in
  match same with
  | None => Ret (Err ArtRejected)
  | Some false => Ret (Err ArtIdentityMismatch)
  | Some true =>
      do* matches_ := fstatat_named_matches parent_fd name expected in
      Ret (if matches_ : bool then Ok tt else Err ArtIdentityMismatch)
  end.

(** [canonical_entry_absent]. *)
Definition canonical_entry_absent (parent_fd : N) : native (result bool ArtifactDisposition) :=
  do* r := trigger (StatAt parent_fd devtools_active_port_name) in
  Ret (match r with
       | Ok _ => Ok false
       | Err e =>
           match raw_os_error e with
           | ENOENT => Ok true
           | EACCES | EPERM | ELOOP | ENOTDIR => Err Unsafe
           | _ => Err ArtRejected
           end
       end).

(** ** References *)

(** [path_has_open_reference]. *)
Definition path_has_open_reference (path : string) : native (result bool unit) :=
  if negb (nul_free path) then Ret (Err tt) else
  do* returned_bytes := trigger (ListPidsPath path) in
  Ret (if bool_decide (returned_bytes < 0)%Z then Err tt
       else Ok (negb (bool_decide (returned_bytes = 0)%Z))).

(** [arguments_reference_candidate]. *)
Definition arguments_reference_candidate (arguments : list string) (c : RuntimeArtifactCandidate) :
    bool :=
  if negb (utf8_valid (profile_path c)) || negb (utf8_valid (artifact_path c)) then true
  else existsb (λ a, contains (profile_path c) a || contains (artifact_path c) a) arguments.

(** The name of the reference path below the profile: one component without a NUL. *)
Definition reference_name (c : RuntimeArtifactCandidate) (reference_path : string) : option string :=
  relative ← strip_components (components (profile_path c)) (components reference_path);
  match relative with
  | [Normal name] => if nul_free name then Some name else None
  | _ => None
  end.

(** The open parent and, below it, the entry are those that were frozen. *)
Definition validate_entry (expected : RuntimeArtifactIdentity) (name : string) (parent : N) :
    native (result unit ReferenceScanFailure) :=
  do* m := trigger (FileMetadata parent) in
  match m with
  | Err _ => Ret (Err ReferencePathIdentity)
  | Ok m =>
      if negb (same_parent m expected) then Ret (Err ReferencePathIdentity) else
      do* r := open_named_candidate parent name in
      match r with
      | Err _ => Ret (Err ReferencePathIdentity)
      | Ok artifact =>
          closing artifact
            (do* r := confirm_candidate parent artifact name expected in
             Ret (match r with Ok _ => Ok tt | Err _ => Err ReferencePathIdentity end))
      end
  end.

(** [validate_reference_path]. *)
Definition validate_reference_path (c : RuntimeArtifactCandidate) (expected : RuntimeArtifactIdentity)
    (reference_path : string) : native (result unit ReferenceScanFailure) :=
  match reference_name c reference_path with
  | None => Ret (Err ReferencePathIdentity)
  | Some name =>
      do* r := open_safe_parent (profile_path c) (candidate_owner_uid c) in
      match r with
      | Err _ => Ret (Err ReferencePathIdentity)
      | Ok parent => closing parent (validate_entry expected name parent)
      end
  end.

(** [kernel_argmax] and [process_arguments] of this file: without the error's text. *)
Definition scan_argmax : native (option N) :=
  do* r := trigger SysctlArgmax in
  let '(succeeded, argmax, _) := r in
  Ret (if negb succeeded || bool_decide (argmax ≤ 0)%Z then None else Some (Z.to_N argmax)).

Definition scan_arguments (pid : Z) (argmax : N) : native (option (list string)) :=
  do* r := trigger (SysctlProcArgs pid argmax) in
  Ret (match r with Err _ => None | Ok buffer => parse_procargs2 buffer end).

(** The process is a zombie or does not exist any more. *)
Definition process_is_over (pid : N) : native bool :=
  do* zombie := is_confirmed_zombie pid in
  if zombie : bool then Ret true else
  do* exists_ := process_exists pid in
  Ret (negb exists_).

(** What one process says: [None] that its arguments refer to the artifact, or what has
    been incomplete so far. *)
Definition scan_process (c : RuntimeArtifactCandidate) (uid argmax : N) (pid : N) (pid_i32 : Z)
    (incomplete : option ReferenceScanFailure) : native (option (option ReferenceScanFailure)) :=
  let missing (failure : ReferenceScanFailure) :=
    do* over := process_is_over pid in
    Ret (Some (if over : bool then incomplete
               else match incomplete with Some _ => incomplete | None => Some failure end)) in
  do* info := trigger (PidInfo pid_i32) in
  match info with
  | None => missing ProcessMetadata
  | Some info =>
      if bool_decide (pbi_status info = STATUS_ZOMBIE) then Ret (Some incomplete)
      else if negb (bool_decide (pbi_uid info = uid)) then Ret (Some incomplete)
      else
        do* arguments := scan_arguments pid_i32 argmax in
        match arguments with
        | Some arguments =>
            Ret (if arguments_reference_candidate arguments c then None else Some incomplete)
        | None => missing ScanArguments
        end
  end.

(** The loop of [scan_live_references]. *)
Fixpoint scan_processes (c : RuntimeArtifactCandidate) (uid argmax : N) (pids : list N)
    (incomplete : option ReferenceScanFailure) :
    native (result (option (option ReferenceScanFailure)) ReferenceScanFailure) :=
  match pids with
  | [] => Ret (Ok (Some incomplete))
  | pid :: pids =>
      match pid_i32 pid with
      | None => Ret (Err ProcessMetadata)
      | Some pid_i32 =>
          do* r := scan_process c uid argmax pid pid_i32 incomplete in
          match r with
          | None => Ret (Ok None)
          | Some incomplete => scan_processes c uid argmax pids incomplete
          end
      end
  end.

(** The arguments of the processes of the user, and the path once more. *)
Definition scan_arguments_of_all (c : RuntimeArtifactCandidate) (expected : RuntimeArtifactIdentity)
    (reference_path : string) : native (result bool ReferenceScanFailure) :=
  do* uid := trigger GetEuid in
  do* listed := trigger (PidsOf uid) in
  match listed with
  | Err _ => Ret (Err ProcessMetadata)
  | Ok pids =>
      do* argmax := scan_argmax in
      match argmax with
      | None => Ret (Err ScanArguments)
      | Some argmax =>
          do? found := scan_processes c uid argmax pids None in
          match found with
          | None => Ret (Ok true)
          | Some (Some failure) => Ret (Err failure)
          | Some None =>
              do? _ := validate_reference_path c expected reference_path in
              Ret (Ok false)
          end
      end
  end.

(** [scan_live_references]. *)
Definition scan_live_references (c : RuntimeArtifactCandidate) (expected : RuntimeArtifactIdentity)
    (reference_path : string) : native (result bool ReferenceScanFailure) :=
  do? _ := validate_reference_path c expected reference_path in
  do* open_ := path_has_open_reference reference_path in
  match open_ with
  | Err _ => Ret (Err OpenReferenceLookup)
  | Ok true => Ret (Ok true)
  | Ok false =>
      do? _ := validate_reference_path c expected reference_path in
      scan_arguments_of_all c expected reference_path
  end.

(** [has_live_reference]. *)
Definition has_live_reference (c : RuntimeArtifactCandidate) (expected : RuntimeArtifactIdentity)
    (reference_path : string) : native (result bool unit) :=
  do* r := scan_live_references c expected reference_path in
  Ret (map_err (λ _, tt) r).

(** ** The quarantine *)

(** The lowercase digits of a byte. *)
Fixpoint hex_of (bytes : string) : string :=
  match bytes with
  | EmptyString => ""
  | String c bytes => hex_fixed 2 (code c) +:+ hex_of bytes
  end.

(** [random_quarantine_name]. *)
Definition random_quarantine_name : native (option string) :=
  some* random := trigger Entropy in
  Ret (Some (QUARANTINE_PREFIX +:+ hex_of random)).

(** The attempts of [quarantine_candidate]. *)
Fixpoint quarantine_attempts (parent_fd : N) (attempts : nat) : native QuarantineResult :=
  match attempts with
  | O => Ret QuarantineRejected
  | S attempts =>
      do* name := random_quarantine_name in
      match name with
      | None => Ret QuarantineRejected
      | Some quarantine =>
          do* r := trigger (RenameExcl parent_fd devtools_active_port_name quarantine) in
          match r with
          | Ok _ => Ret (Moved quarantine)
          | Err e =>
              match raw_os_error e with
              | EEXIST => quarantine_attempts parent_fd attempts
              | ENOENT => Ret QuarantineAbsent
              | EISDIR | EPERM | ELOOP | ENOTDIR => Ret QuarantineUnsafe
              | _ => Ret QuarantineRejected
              end
          end
      end
  end.

(** [quarantine_candidate]. *)
Definition quarantine_candidate (parent_fd : N) : native QuarantineResult :=
  quarantine_attempts parent_fd QUARANTINE_ATTEMPTS.

(** [restore_quarantined_entry]. *)
Definition restore_quarantined_entry (parent_fd : N) (quarantine : string) :
    native (result unit ArtifactDisposition) :=
  do* r := trigger (RenameExcl parent_fd quarantine devtools_active_port_name) in
  Ret (match r with
       | Ok _ => Ok tt
       | Err e =>
           match raw_os_error e with
           | EEXIST | ENOENT => Err ArtIdentityMismatch
           | EISDIR | EPERM | ELOOP | ENOTDIR => Err Unsafe
           | _ => Err ArtRejected
           end
       end).

(** [fail_after_restoring_quarantined_entry]. *)
Definition fail_after_restoring_quarantined_entry (parent_fd : N) (quarantine : string)
    (failure : ArtifactDisposition) : native ArtifactDisposition :=
  do* r := restore_quarantined_entry parent_fd quarantine in
  Ret (match r with Ok _ => failure | Err disposition => disposition end).

(** The disposition of an open that failed, where an absent entry has [absent]. *)
Definition open_disposition (absent : ArtifactDisposition) (e : OpenFailure) : ArtifactDisposition :=
  match e with
  | OpenAbsent => absent
  | OpenUnsafe => Unsafe
  | OpenRuntime _ => ArtRejected
  end.

(** [restore_quarantined_exact]. *)
Definition restore_quarantined_exact (parent_fd : N) (quarantine : string)
    (expected : RuntimeArtifactIdentity) : native (result unit ArtifactDisposition) :=
  do* r := open_named_candidate parent_fd quarantine in
  match r with
  | Err e => Ret (Err (open_disposition ArtIdentityMismatch e))
  | Ok file =>
      closing file
        (do? _ := confirm_candidate parent_fd file quarantine expected in
         do? _ := restore_quarantined_entry parent_fd quarantine in
         confirm_candidate parent_fd file devtools_active_port_name expected)
  end.

(** ** The removal *)

Section Removal.
(** [reference_scan], [has_live_reference] in the adapter. *)
Context (reference_scan : RuntimeArtifactCandidate → RuntimeArtifactIdentity → string →
                          native (result bool unit)).
Context (frozen : FrozenRuntimeArtifact) (parent : N).

Abbreviation candidate := (frozen_candidate frozen).

Abbreviation expected := (frozen_identity frozen).

(** The first descriptor, which is closed before the scan. *)
Definition check_first : native (result unit ArtifactDisposition) :=
  do* r := open_candidate parent in
  match r with
  | Err e => Ret (Err (open_disposition AlreadyAbsent e))
  | Ok first =>
      closing first
        (do* same := same_open_candidate first expected in
         Ret (match same with
              | None => Err ArtRejected
              | Some false => Err ArtIdentityMismatch
              | Some true => Ok tt
              end))
  end.

(** The quarantined entry is the frozen one: its name, or the name and the disposition with
    which it is put back. *)
Definition check_quarantined (name : string) : native (result string (string * ArtifactDisposition)) :=
  do* r := open_named_candidate parent name in
  match r with
  | Err e => Ret (Err (name, open_disposition ArtIdentityMismatch e))
  | Ok quarantined =>
      closing quarantined
        (do* r := confirm_candidate parent quarantined name expected in
         Ret (match r with Ok _ => Ok name | Err d => Err (name, d) end))
  end.

(** The second descriptor, held across the rename: the quarantined name, a disposition, or
    a name to put back. *)
Definition quarantine_second :
    native (result string (ArtifactDisposition + string * ArtifactDisposition)) :=
  do* r := open_candidate parent in
  match r with
  | Err e => Ret (Err (inl (open_disposition AlreadyAbsent e)))
  | Ok second =>
      closing second
        (do* r := confirm_candidate parent second devtools_active_port_name expected in
         match r with
         | Err d => Ret (Err (inl d))
         | Ok _ =>
             do* q := quarantine_candidate parent in
             match q with
             | QuarantineAbsent => Ret (Err (inl AlreadyAbsent))
             | QuarantineUnsafe => Ret (Err (inl Unsafe))
             | QuarantineRejected => Ret (Err (inl ArtRejected))
             | Moved name => do* r := check_quarantined name in Ret (map_err inr r)
             end
         end)
  end.

(** The entry is put back; [d] is the disposition if that succeeds. *)
Definition restore_exact_then (name : string) (d : ArtifactDisposition) : native ArtifactDisposition :=
  do* r := restore_quarantined_exact parent name expected in
  Ret (match r with Ok _ => d | Err disposition => disposition end).

(** [unlinkat] with its disposition. *)
Definition unlink_quarantined (name : string) : native ArtifactDisposition :=
  do* r := trigger (UnlinkAt parent name) in
  Ret (match r with
       | Ok _ => Removed
       | Err e =>
           match raw_os_error e with
           | EISDIR | EPERM | ELOOP => Unsafe
           | _ => ArtRejected
           end
       end).

(** The third descriptor: the entry is checked once more, right before it is unlinked. *)
Definition unlink_third (name : string) : native ArtifactDisposition :=
  do* r := open_named_candidate parent name in
  match r with
  | Err e => Ret (open_disposition ArtIdentityMismatch e)
  | Ok quarantined =>
      closing quarantined
        (do* r := confirm_candidate parent quarantined name expected in
         match r with
         | Err d => Ret d
         | Ok _ =>
             do* absent := canonical_entry_absent parent in
             match absent with
             | Err d => Ret d
             | Ok false => Ret ArtIdentityMismatch
             | Ok true => unlink_quarantined name
             end
         end)
  end.

(** From the quarantine to the end. *)
Definition remove_quarantined (name : string) : native ArtifactDisposition :=
  if negb (utf8_valid name) then restore_exact_then name Unsafe else
  do* r := reference_scan candidate expected (path_join (profile_path candidate) name) in
  match r with
  | Ok true => restore_exact_then name Referenced
  | Err _ => restore_exact_then name Unsafe
  | Ok false => unlink_third name
  end.

(** [remove_exact_with_hooks] below the open parent; its hooks do nothing. *)
Definition remove_below : native ArtifactDisposition :=
  do* m := trigger (FileMetadata parent) in
  match m with
  | Err _ => Ret ArtRejected
  | Ok m =>
      if negb (same_parent m expected) then Ret ArtIdentityMismatch else
      do* r := check_first in
      match r with
      | Err d => Ret d
      | Ok _ =>
          do* r := reference_scan candidate expected (artifact_path candidate) in
          match r with
          | Ok true => Ret Referenced
          | Err _ => Ret Unsafe
          | Ok false =>
              do* q := quarantine_second in
              match q with
              | Err (inl d) => Ret d
              | Err (inr (name, d)) => fail_after_restoring_quarantined_entry parent name d
              | Ok name => remove_quarantined name
              end
          end
      end
  end.
End Removal.

(** [remove_exact_with]. *)
Definition remove_exact_with
    (reference_scan : RuntimeArtifactCandidate → RuntimeArtifactIdentity → string →
                      native (result bool unit))
    (frozen : FrozenRuntimeArtifact) : native ArtifactDisposition :=
  let c := frozen_candidate frozen in
  do* euid := trigger GetEuid in
  if negb (bool_decide (candidate_kind c = DevToolsActivePort))
     || bool_decide (candidate_owner_uid c = 0%N)
     || negb (bool_decide (candidate_owner_uid c = euid))
     || negb (bool_decide (ra_owner_uid (frozen_identity frozen) = euid))
  then Ret Unsafe else
  do* r := open_safe_parent (profile_path c) (candidate_owner_uid c) in
  match r with
  | Err _ => Ret Unsafe
  | Ok parent => closing parent (remove_below reference_scan frozen parent)
  end.

(** [remove_exact]. *)
Definition remove_exact (frozen : FrozenRuntimeArtifact) : native ArtifactDisposition :=
  remove_exact_with has_live_reference frozen.
