(* ===== verification/QuarantineFacts.v ===== *)
(** QuarantineFacts: the removal of an artifact unlinks the artifact that was frozen and
    nothing else, puts back what it must not remove, and does not see itself. *)

From S2P Require Import Prelude Text Model Fingerprint Task Artifact Evidence Cleanup Effects.
From S2P Require Import Executor Procargs Native Bundles Runtime RuntimeFacts Quarantine.

(** ** Programs that change no directory *)

Lemma calm_closing {A} file (p : native A) : silent p → silent (closing file p).
Proof. intros Hp. apply confined_bind; [done|]. by intros; split. Qed.

Lemma calm_opened {E} file (p : native (result unit E)) : silent p → silent (opened file p).
Proof. intros Hp. apply confined_bind; [done|]. intros [?|?]; [done|by split]. Qed.

Ltac calm :=
  repeat first
    [ progress silent
    | apply calm_closing
    | apply calm_opened ].

Lemma calm_parent path owner : silent (open_safe_parent path owner).
Proof. unfold open_safe_parent, require_empty_acl, fd_has_empty_extended_acl. calm. Qed.

Lemma calm_named parent name : silent (open_named_candidate parent name).
Proof. unfold open_named_candidate, require_empty_acl, fd_has_empty_extended_acl. calm. Qed.

Lemma calm_same file expected : silent (same_open_candidate file expected).
Proof. unfold same_open_candidate. calm. Qed.

#[export] Hint Resolve calm_parent calm_named calm_same : silent.

Lemma calm_confirm parent file name expected : silent (confirm_candidate parent file name expected).
Proof. unfold confirm_candidate, fstatat_named_matches. calm. Qed.

#[export] Hint Resolve calm_confirm : silent.

Lemma calm_validate c expected path : silent (validate_reference_path c expected path).
Proof. unfold validate_reference_path, validate_entry. calm. Qed.

#[export] Hint Resolve calm_validate : silent.

Lemma calm_scan_process c uid argmax pid n incomplete :
  silent (scan_process c uid argmax pid n incomplete).
Proof.
  unfold scan_process, process_is_over, is_confirmed_zombie, kern_process_status, process_exists,
    scan_arguments.
  calm.
Qed.

Lemma calm_scan_processes c uid argmax pids incomplete :
  silent (scan_processes c uid argmax pids incomplete).
Proof.
  revert incomplete. induction pids as [|pid pids IH]; intros incomplete; [done|].
  cbn [scan_processes]. case_match; [|done]. apply confined_bind; [apply calm_scan_process|].
  intros [?|]; [apply IH|done].
Qed.

#[export] Hint Resolve calm_scan_processes : silent.

Lemma calm_reference c expected path : silent (has_live_reference c expected path).
Proof.
  unfold has_live_reference, scan_live_references, path_has_open_reference, scan_arguments_of_all,
    scan_argmax.
  calm.
Qed.

(** The successful changes of directories in a trace. *)
Inductive change : Type :=
| Renamed (parent : N) (from to : string)
| Unlinked (parent : N) (name : string).

Definition change_of (o : obs NativeE) : option change :=
  match o with
  | @Obs _ X e x =>
      match e in NativeE X return X → option change with
      | RenameExcl p from to => λ r, match r with Ok _ => Some (Renamed p from to) | Err _ => None end
      | UnlinkAt p name => λ r, match r with Ok _ => Some (Unlinked p name) | Err _ => None end
      | _ => λ _, None
      end x
  end.

Abbreviation changes tr := (omap change_of tr).

(** A trace that does not even try to unlink. *)
Definition unlink_of (o : obs NativeE) : option (N * string) :=
  match o with @Obs _ _ (UnlinkAt p name) _ => Some (p, name) | _ => None end.

Definition unlink_result (o : obs NativeE) : option (N * string * result unit OsError) :=
  match o with
  | @Obs _ X e x =>
      match e in NativeE X return X → option (N * string * result unit OsError) with
      | UnlinkAt p name => λ r, Some (p, name, r)
      | _ => λ _, None
      end x
  end.

Abbreviation unlinks tr := (omap unlink_of tr).

Lemma omap_none {A B} (f : A → option B) l : (∀ x, x ∈ l → f x = None) → omap f l = [].
Proof.
  induction l as [|x l IH]; intros H; [done|]. cbn [omap list_omap].
  rewrite (H x); [|apply elem_of_cons; by left]. apply IH. intros y ?. apply H, elem_of_cons. by right.
Qed.

Lemma calm_changes {A} (p : native A) tr a : silent p → runs p tr a → changes tr = [] ∧ unlinks tr = [].
Proof.
  intros Hp Hr. assert (∀ o, o ∈ tr → change_of o = None ∧ unlink_of o = None) as H.
  { intros [X e x] Hin. pose proof (confined_runs _ _ _ _ _ _ _ Hp Hr Hin). by destruct e. }
  split; apply omap_none; intros o ?; by apply H.
Qed.

(** ** What the steps answer *)

(** A disposition that says neither that the artifact is removed nor that it is in use. *)
Definition stops (d : ArtifactDisposition) : Prop := d ≠ Removed ∧ d ≠ Referenced.

Lemma open_disposition_stops absent e : stops absent → stops (open_disposition absent e).
Proof. by destruct e. Qed.

Lemma confirm_stops parent file name expected tr d :
  runs (confirm_candidate parent file name expected) tr (Err d) → stops d.
Proof.
  intros (tr1 & tr2 & same & -> & _ & H)%runs_bind_inv. destruct same as [[|]|].
  - apply runs_bind_inv in H as (tr3 & tr4 & m & -> & _ & -> & H). destruct m; [done|]. by injection H as ->.
  - by destruct H as [-> [= ->]].
  - by destruct H as [-> [= ->]].
Qed.

(** An entry below the parent, opened, and the frozen one by its descriptor and its name. *)
Definition opened_as (parent : N) (name : string) (expected : RuntimeArtifactIdentity) (file : N)
    (tr : list (obs NativeE)) : Prop :=
  ∃ m euid m',
    Obs (FileMetadata file) (Ok m) ∈ tr ∧ Obs GetEuid euid ∈ tr ∧
    same_candidate_identity m expected euid = true ∧
    Obs (StatAt parent name) (Ok m') ∈ tr ∧ entry_matches m' expected = true.

Lemma confirm_spec parent file name expected tr u :
  runs (confirm_candidate parent file name expected) tr (Ok u) →
  opened_as parent name expected file tr.
Proof.
  intros (tr1 & tr2 & same & -> & Hs & H)%runs_bind_inv. destruct same as [[|]|]; [|by destruct H..].
  apply runs_bind_inv in H as (tr3 & tr4 & matches_ & -> & Hm & H). destruct matches_; [|by destruct H].
  destruct Hs as (m & tr5 & -> & Hs). cbn [bind] in Hs. destruct m as [m|]; [|by destruct Hs].
  destruct Hs as (euid & tr6 & -> & -> & Hsame). injection Hsame as Hsame.
  destruct Hm as (m' & tr7 & -> & -> & Hm). destruct m' as [m'|]; [|done].
  destruct H as [-> _]. exists m, euid, m'. cbn [app].
  rewrite !elem_of_cons. repeat split; auto 10.
Qed.

Lemma opened_as_mono parent name expected file tr tr' :
  tr ⊆ tr' → opened_as parent name expected file tr → opened_as parent name expected file tr'.
Proof.
  intros Hs (m & euid & m' & ? & ? & ? & ? & ?). exists m, euid, m'.
  split; [by apply Hs|]. split; [by apply Hs|]. split; [done|]. split; [by apply Hs|done].
Qed.

Lemma closing_inv {A} file (p : native A) tr a :
  runs (closing file p) tr a → ∃ tr', tr = tr' ++ [Obs (CloseFile file) tt] ∧ runs p tr' a.
Proof.
  intros (tr1 & tr2 & b & -> & Hp & [] & tr3 & -> & -> & ->)%runs_bind_inv. by exists tr1.
Qed.

(** A file that an open gave: its parent and name, and that it has no access list. *)
Lemma named_spec parent name tr file :
  runs (open_named_candidate parent name) tr (Ok file) →
  tr = [Obs (OpenAt parent name) (Ok file); Obs (AclOf file) AclMissing].
Proof.
  intros (r & tr1 & -> & H). cbn [bind] in H. destruct r as [f|]; [|by destruct H].
  apply runs_bind_inv in H as (tr2 & tr3 & a & -> & Ha & H).
  destruct a as [[]|]; [|by destruct H as ([] & ? & -> & _ & [=])]. destruct H as [-> [= ->]].
  destruct Ha as (acl & tr4 & -> & Ha). destruct acl; cbn [bind] in Ha; [|by destruct Ha| ].
  - destruct Ha as [-> _]. by rewrite app_nil_r.
  - destruct (_ || _ || _); by destruct Ha.
Qed.

(** ** The quarantine *)

Lemma attempts_spec parent attempts tr q :
  runs (quarantine_attempts parent attempts) tr q →
  unlinks tr = [] ∧
  match q with
  | Moved name =>
      changes tr = [Renamed parent devtools_active_port_name name] ∧
      ∃ random, name = QUARANTINE_PREFIX +:+ hex_of random
  | _ => changes tr = []
  end.
Proof.
  revert tr. induction attempts as [|attempts IH]; intros tr H; [by destruct H as [-> ->]|].
  destruct H as (random & tr1 & -> & H). cbn [bind] in H. destruct random as [random|]; [|by destruct H as [-> ->]].
  destruct H as (r & tr2 & -> & H). cbn [bind] in H. cbn [omap list_omap unlink_of change_of].
  destruct r as [[]|e]; [destruct H as [-> ->]; split; [done|]; split; [done|by exists random]|].
  destruct (raw_os_error e); try (by destruct H as [-> ->]). by apply IH.
Qed.

Lemma check_quarantined_spec frozen parent name tr r :
  runs (check_quarantined frozen parent name) tr r →
  changes tr = [] ∧ unlinks tr = [] ∧
  match r with Ok name' => name' = name | Err (name', d) => name' = name ∧ stops d end.
Proof.
  intros H.
  assert (Hc : changes tr = [] ∧ unlinks tr = []).
  { eapply calm_changes; [|exact H]. unfold check_quarantined. calm. }
  destruct Hc as [-> ->]. do 2 (split; [done|]).
  apply runs_bind_inv in H as (tr1 & tr2 & f & -> & _ & H). destruct f as [f|e].
  - apply closing_inv in H as (tr3 & -> & H).
    apply runs_bind_inv in H as (tr4 & tr5 & c & -> & Hc & -> & ->).
    destruct c as [|d]; [done|]. split; [done|]. by eapply confirm_stops.
  - destruct H as [-> ->]. split; [done|]. by apply open_disposition_stops.
Qed.

Lemma quarantine_second_spec frozen parent tr r :
  runs (quarantine_second frozen parent) tr r →
  unlinks tr = [] ∧
  match r with
  | Err (inl d) => changes tr = [] ∧ stops d
  | Ok name =>
      changes tr = [Renamed parent devtools_active_port_name name] ∧
      ∃ random, name = QUARANTINE_PREFIX +:+ hex_of random
  | Err (inr (name, d)) =>
      changes tr = [Renamed parent devtools_active_port_name name] ∧ stops d ∧
      ∃ random, name = QUARANTINE_PREFIX +:+ hex_of random
  end.
Proof.
  intros (tr1 & tr2 & f & -> & Hf & H)%runs_bind_inv. apply calm_changes in Hf as [Hf1 Hf2]; [|apply calm_named].
  rewrite !omap_app, Hf1, Hf2. cbn [app]. destruct f as [f|e].
  2:{ destruct H as [-> ->]. do 2 (split; [done|]). by apply open_disposition_stops. }
  apply closing_inv in H as (tr3 & -> & H). rewrite !omap_app. cbn [omap list_omap change_of unlink_of].
  rewrite !app_nil_r.
  apply runs_bind_inv in H as (tr4 & tr5 & c & -> & Hc & H). rewrite !omap_app.
  destruct (calm_changes _ _ _ (calm_confirm _ _ _ _) Hc) as [-> ->]. cbn [app]. destruct c as [|d].
  2:{ destruct H as [-> ->]. do 2 (split; [done|]). by eapply confirm_stops. }
  apply runs_bind_inv in H as (tr6 & tr7 & q & -> & Hq & H). rewrite !omap_app.
  apply attempts_spec in Hq as [-> Hq]. destruct q as [name| | |];
    [|destruct H as [-> ->]; rewrite Hq; by repeat split..].
  apply runs_bind_inv in H as (tr8 & tr9 & r' & -> & Hr & -> & ->).
  apply check_quarantined_spec in Hr as (Hr1 & Hr2 & Hr). rewrite !omap_app, Hr1, Hr2.
  cbn [omap list_omap app]. split; [done|]. destruct Hq as [-> Hn].
  destruct r' as [name'|[name' d]]; cbn [map_err]; [by subst|]. by destruct Hr as [-> Hr].
Qed.

(** ** Putting back *)

Abbreviation put_back parent name := (Renamed parent name devtools_active_port_name).

Lemma restore_entry_spec parent name tr r :
  runs (restore_quarantined_entry parent name) tr r →
  unlinks tr = [] ∧
  match r with Ok _ => changes tr = [put_back parent name] | Err d => changes tr = [] ∧ stops d end.
Proof.
  intros (x & tr' & -> & -> & ->). cbn [omap list_omap unlink_of change_of]. split; [done|].
  destruct x as [[]|e]; [done|]. by destruct (raw_os_error e).
Qed.

(** A restoring program: it puts the entry back or leaves all as it is. *)
Definition restores (parent : N) (name : string) (tr : list (obs NativeE)) : Prop :=
  unlinks tr = [] ∧ (changes tr = [] ∨ changes tr = [put_back parent name]).

Lemma fail_after_spec parent name failure tr d :
  runs (fail_after_restoring_quarantined_entry parent name failure) tr d → stops failure →
  restores parent name tr ∧ stops d.
Proof.
  intros (tr1 & tr2 & r & -> & Hr & -> & ->)%runs_bind_inv Hf.
  apply restore_entry_spec in Hr as [Hu Hr]. rewrite app_nil_r. unfold restores.
  destruct r as [?|d]; [by auto|]. destruct Hr as [Hr Hd]. by auto.
Qed.

Lemma restore_exact_spec frozen parent name d tr d' :
  runs (restore_exact_then frozen parent name d) tr d' → d ≠ Removed →
  restores parent name tr ∧ d' ≠ Removed ∧
  (d' = Referenced → changes tr = [put_back parent name]).
Proof.
  intros (tr1 & tr2 & r & -> & Hr & -> & ->)%runs_bind_inv Hd. rewrite app_nil_r.
  apply runs_bind_inv in Hr as (tr3 & tr4 & f & -> & Hf & H).
  apply calm_changes in Hf as [Hf1 Hf2]; [|apply calm_named].
  unfold restores. rewrite !omap_app, Hf1, Hf2. cbn [app]. destruct f as [f|e].
  2:{ destruct H as [-> ->]. cbn [omap list_omap].
      split; [by auto|]. by destruct e. }
  apply closing_inv in H as (tr5 & -> & H). rewrite !omap_app. cbn [omap list_omap change_of unlink_of].
  rewrite !app_nil_r. apply runs_bind_inv in H as (tr6 & tr7 & c & -> & Hc & H). rewrite !omap_app.
  destruct (calm_changes _ _ _ (calm_confirm _ _ _ _) Hc) as [-> ->]. cbn [app]. destruct c as [|dc].
  2:{ destruct H as [-> ->]. apply confirm_stops in Hc as [? ?]. cbn [omap list_omap app].
      split; [by auto|]. split; [done|]. by intros ->. }
  apply runs_bind_inv in H as (tr8 & tr9 & rr & -> & Hrr & H). rewrite !omap_app.
  apply restore_entry_spec in Hrr as [Hrr1 Hrr]. rewrite Hrr1. destruct rr as [|dr].
  2:{ destruct H as [-> ->], Hrr as [-> [? ?]]. cbn [omap list_omap app].
      split; [by auto|]. split; [done|]. by intros ->. }
  apply calm_changes in H as H'; [|apply calm_confirm]. destruct H' as [-> ->]. rewrite Hrr.
  cbn [app]. split; [by auto|]. destruct r as [|dr]; [done|].
  by apply confirm_stops in H as [? ?].
Qed.

(** ** The end *)

(** What the last check saw of the name that is unlinked. *)
Definition last_check (parent : N) (name : string) (expected : RuntimeArtifactIdentity)
    (tr : list (obs NativeE)) : Prop :=
  ∃ file e,
    Obs (OpenAt parent name) (Ok file) ∈ tr ∧ Obs (AclOf file) AclMissing ∈ tr ∧
    opened_as parent name expected file tr ∧
    Obs (StatAt parent devtools_active_port_name) (Err e) ∈ tr ∧ raw_os_error e = ENOENT.

Lemma unlink_third_spec frozen parent name tr d :
  runs (unlink_third frozen parent name) tr d →
  changes tr = [] ∧ unlinks tr = [] ∧ stops d ∨
  ∃ check r file, tr = check ++ [Obs (UnlinkAt parent name) r; Obs (CloseFile file) tt] ∧
    changes check = [] ∧ unlinks check = [] ∧
    last_check parent name (frozen_identity frozen) check ∧
    d ≠ Referenced ∧ (d = Removed ↔ r = Ok tt).
Proof.
  intros (tr1 & tr2 & f & -> & Hf & H)%runs_bind_inv.
  pose proof (calm_changes _ _ _ (calm_named _ _) Hf) as [Hf1 Hf2]. destruct f as [f|e].
  2:{ left. destruct H as [-> ->]. rewrite !app_nil_r. do 2 (split; [done|]). by apply open_disposition_stops. }
  apply named_spec in Hf as Hopen. apply closing_inv in H as (tr3 & -> & H).
  apply runs_bind_inv in H as (tr4 & tr5 & c & -> & Hc & H).
  pose proof (calm_changes _ _ _ (calm_confirm _ _ _ _) Hc) as [Hc1 Hc2]. destruct c as [u|dc].
  2:{ left. destruct H as [-> ->]. rewrite !omap_app, Hf1, Hf2, Hc1, Hc2. do 2 (split; [done|]).
      by eapply confirm_stops. }
  apply runs_bind_inv in H as (tr6 & tr7 & a & -> & (x & tr8 & -> & -> & Ha) & H).
  destruct a as [[]|da].
  2:{ left. destruct H as [-> ->]. rewrite !omap_app, Hf1, Hf2, Hc1, Hc2. by repeat split. }
  2:{ left. destruct H as [-> ->]. rewrite !omap_app, Hf1, Hf2, Hc1, Hc2. do 2 (split; [done|]).
      destruct x as [|e]; [done|]. by destruct (raw_os_error e); try done; injection Ha as ->. }
  right. destruct H as (r & tr9 & -> & -> & ->).
  exists (tr1 ++ tr4 ++ [Obs (StatAt parent devtools_active_port_name) x]), r, f.
  split; [by rewrite <-!(assoc_L (++))|]. rewrite !omap_app, Hf1, Hf2, Hc1, Hc2.
  do 2 (split; [done|]). split.
  - destruct x as [|e]; [done|]. exists f, e. rewrite !elem_of_app, Hopen.
    split; [left; apply elem_of_cons; by left|]. split; [left; rewrite !elem_of_cons; by auto|].
    split; [eapply opened_as_mono; [|by eapply confirm_spec]; intros o ?; apply elem_of_app; right; apply elem_of_app; by left|].
    split; [right; right; by apply list_elem_of_singleton|]. by destruct (raw_os_error e).
  - destruct r as [[]|e]; [done|]. by destruct (raw_os_error e).
Qed.

(** ** The removal *)

(** What came before the unlink of a name below the parent. *)
Definition unlink_authorised (frozen : FrozenRuntimeArtifact) (parent : N) (name : string)
    (pre : list (obs NativeE)) : Prop :=
  let c := frozen_candidate frozen in
  let id := frozen_identity frozen in
  ∃ a scan1 b scan2 check m,
    pre = a ++ scan1 ++ b ++ scan2 ++ check ∧
    Obs (FileMetadata parent) (Ok m) ∈ a ∧ same_parent m id = true ∧
    runs (has_live_reference c id (artifact_path c)) scan1 (Ok false) ∧
    Obs (RenameExcl parent devtools_active_port_name name) (Ok tt) ∈ b ∧
    runs (has_live_reference c id (path_join (profile_path c) name)) scan2 (Ok false) ∧
    last_check parent name id check.

(** The ways in which a removal ends below the parent. *)
Inductive removal_case (frozen : FrozenRuntimeArtifact) (parent : N) (tr : list (obs NativeE))
    (d : ArtifactDisposition) : Prop :=
| case_untouched :
    changes tr = [] → unlinks tr = [] → d ≠ Removed → removal_case frozen parent tr d
| case_aside random (back : bool) :
    let name := QUARANTINE_PREFIX +:+ hex_of random in
    changes tr = Renamed parent devtools_active_port_name name ::
                 (if back then [put_back parent name] else []) →
    unlinks tr = [] → d ≠ Removed → (d = Referenced → back = true) → removal_case frozen parent tr d
| case_unlink pre random r file :
    let name := QUARANTINE_PREFIX +:+ hex_of random in
    tr = pre ++ [Obs (UnlinkAt parent name) r; Obs (CloseFile file) tt] →
    unlinks pre = [] → changes pre = [Renamed parent devtools_active_port_name name] →
    unlink_authorised frozen parent name pre → d ≠ Referenced → (d = Removed ↔ r = Ok tt) →
    removal_case frozen parent tr d.

Lemma renamed_event parent from to tr l :
  changes tr = Renamed parent from to :: l → Obs (RenameExcl parent from to) (Ok tt) ∈ tr.
Proof.
  intros H. assert (Hin : Renamed parent from to ∈ changes tr) by (rewrite H; apply elem_of_cons; by left).
  apply list_elem_of_omap in Hin as (o & Ho & Hc). destruct o as [X e x]. destruct e; try done; simpl in Hc.
  - by destruct x as [[]|]; [injection Hc as -> -> ->|].
  - by destruct x.
Qed.

Lemma restores_back parent name tr :
  restores parent name tr → ∃ back : bool, changes tr = if back then [put_back parent name] else [].
Proof. intros [_ [->| ->]]; [by exists false|by exists true]. Qed.

(** The prefix of a removal up to the quarantine. *)
Lemma remove_quarantined_spec frozen parent random tr0 tr d m a scan1 b :
  let name := QUARANTINE_PREFIX +:+ hex_of random in
  let c := frozen_candidate frozen in
  let id := frozen_identity frozen in
  runs (remove_quarantined has_live_reference frozen parent name) tr d →
  tr0 = a ++ scan1 ++ b → Obs (FileMetadata parent) (Ok m) ∈ a → same_parent m id = true →
  runs (has_live_reference c id (artifact_path c)) scan1 (Ok false) →
  changes b = [Renamed parent devtools_active_port_name name] →
  changes tr0 = [Renamed parent devtools_active_port_name name] → unlinks tr0 = [] →
  removal_case frozen parent (tr0 ++ tr) d.
Proof.
  intros name c id H Ht0 Hm Hsame Hscan1 Hb Hch0 Hun0.
  assert (Hback : ∀ d0 tr', runs (restore_exact_then frozen parent name d0) tr' d → d0 ≠ Removed →
    (∃ calm_, tr = calm_ ++ tr' ∧ changes calm_ = [] ∧ unlinks calm_ = []) →
    removal_case frozen parent (tr0 ++ tr) d).
  { intros d0 tr' Hr Hd0 (calm_ & -> & Hca & Hcu). apply restore_exact_spec in Hr as (Hr & Hd & Href); [|done].
    destruct (restores_back _ _ _ Hr) as [back Hbk].
    apply (case_aside _ _ _ _ random back); fold name.
    - by rewrite !omap_app, Hch0, Hca, Hbk.
    - rewrite !omap_app, Hun0, Hcu. by destruct Hr.
    - done.
    - intros Hd1. rewrite (Href Hd1) in Hbk. by destruct back. }
  unfold remove_quarantined in H. case_match; [eapply Hback; [exact H|done|by exists []]|].
  apply runs_bind_inv in H as (scan2 & tr2 & r & -> & Hscan2 & H).
  pose proof (calm_changes _ _ _ (calm_reference _ _ _) Hscan2) as [Hs1 Hs2].
  destruct r as [[|]|]; [by eapply Hback; [exact H|done|exists scan2]| |by eapply Hback; [exact H|done|exists scan2]].
  apply unlink_third_spec in H as [(Hc & Hu & Hd)|(check & r & file & -> & Hc & Hu & Hlast & Hd & Hrem)].
  - apply (case_aside _ _ _ _ random false); fold name.
    + by rewrite !omap_app, Hch0, Hs1, Hc.
    + by rewrite !omap_app, Hun0, Hs2, Hu.
    + by destruct Hd.
    + by destruct Hd.
  - apply (case_unlink _ _ _ _ (tr0 ++ scan2 ++ check) random r file); fold name.
    + by rewrite <-!(assoc_L (++)).
    + by rewrite !omap_app, Hun0, Hs2, Hu.
    + by rewrite !omap_app, Hch0, Hs1, Hc.
    + exists a, scan1, b, scan2, check, m. subst tr0. split; [by rewrite <-!(assoc_L (++))|].
      do 3 (split; [done|]). split; [by eapply renamed_event|done].
    + done.
    + done.
Qed.

Lemma check_first_spec frozen parent tr r :
  runs (check_first frozen parent) tr r →
  changes tr = [] ∧ unlinks tr = [] ∧ match r with Ok _ => True | Err d => stops d end.
Proof.
  intros H. destruct (calm_changes (check_first frozen parent) tr r) as [-> ->]; [|done|].
  { unfold check_first, open_candidate. calm. }
  do 2 (split; [done|]).
  apply runs_bind_inv in H as (tr1 & tr2 & f & -> & _ & H). destruct f as [f|e].
  2:{ destruct H as [-> ->]. by apply open_disposition_stops. }
  apply closing_inv in H as (tr3 & -> & H).
  apply runs_bind_inv in H as (tr4 & tr5 & same & -> & _ & -> & ->). by destruct same as [[]|].
Qed.

Lemma remove_below_spec frozen parent tr d :
  runs (remove_below has_live_reference frozen parent) tr d → removal_case frozen parent tr d.
Proof.
  intros (m & tr1 & -> & H). cbn [bind] in H.
  assert (Hstop : ∀ tr', changes tr' = [] ∧ unlinks tr' = [] → d ≠ Removed →
    removal_case frozen parent (Obs (FileMetadata parent) m :: tr') d).
  { intros tr' [Hc Hu] Hd. by apply case_untouched. }
  destruct m as [m|]; [|destruct H as [-> ->]; by apply Hstop].
  destruct (same_parent m _) eqn:Hsame; cbn [negb] in H; [|destruct H as [-> ->]; by apply Hstop].
  apply runs_bind_inv in H as (tr2 & tr3 & r & -> & Hfirst & H).
  apply check_first_spec in Hfirst as (Hf1 & Hf2 & Hr). destruct r as [|d0].
  2:{ destruct H as [-> ->]. rewrite app_nil_r. apply Hstop; [done|]. by destruct Hr. }
  apply runs_bind_inv in H as (scan1 & tr5 & r & -> & Hscan & H).
  pose proof (calm_changes _ _ _ (calm_reference _ _ _) Hscan) as [Hs1 Hs2].
  destruct r as [[|]|]; [|
    |destruct H as [-> ->]; apply Hstop; [rewrite !omap_app, Hf1, Hf2, Hs1, Hs2|]; done].
  { destruct H as [-> ->]; apply Hstop; [rewrite !omap_app, Hf1, Hf2, Hs1, Hs2|]; done. }
  apply runs_bind_inv in H as (tr6 & tr7 & q & -> & Hq & H).
  apply quarantine_second_spec in Hq as [Hq1 Hq]. destruct q as [name|[d0|[name d0]]].
  - destruct Hq as (Hq & random & ->).
    rewrite !(assoc_L (++)), app_comm_cons.
    eapply (remove_quarantined_spec _ _ _ _ _ _ m (Obs (FileMetadata parent) (Ok m) :: tr2) scan1 tr6);
      [exact H|by rewrite <-(assoc_L (++))|apply elem_of_cons; by left|done|done|done| |].
    + cbn [omap list_omap change_of app]. by rewrite !omap_app, Hf1, Hs1, Hq.
    + cbn [omap list_omap unlink_of app]. by rewrite !omap_app, Hf2, Hs2, Hq1.
  - destruct H as [-> ->], Hq as [Hq Hd]. apply Hstop; [|by destruct Hd].
    by rewrite !omap_app, Hf1, Hf2, Hs1, Hs2, Hq, Hq1.
  - destruct Hq as (Hq & Hd & random & ->). apply fail_after_spec in H as (Hr' & Hd'); [|done].
    destruct (restores_back _ _ _ Hr') as [back Hbk]. destruct Hr' as [Hru _], Hd' as [Hd1 Hd2].
    apply (case_aside _ _ _ _ random back); cbn [omap list_omap change_of unlink_of].
    + by rewrite !omap_app, Hf1, Hs1, Hq, Hbk.
    + by rewrite !omap_app, Hf2, Hs2, Hq1, Hru.
    + done.
    + by intros ->.
Qed.

Definition parent_of (frozen : FrozenRuntimeArtifact) (parent : N) (tr : list (obs NativeE)) : Prop :=
  Obs (OpenParent (profile_path (frozen_candidate frozen))) (Ok parent) ∈ tr.

Lemma parent_spec path owner tr parent :
  runs (open_safe_parent path owner) tr (Ok parent) → Obs (OpenParent path) (Ok parent) ∈ tr.
Proof.
  intros (r & tr1 & -> & H). cbn [bind] in H. destruct r as [f|]; [|by destruct H].
  apply elem_of_cons. left. apply runs_bind_inv in H as (tr2 & tr3 & a & -> & _ & H).
  destruct a; [by destruct H as [_ [= ->]]|by destruct H as ([] & ? & _ & _ & [=])].
Qed.

(** A removal touches nothing, or is a case below the open parent of the profile. *)
Lemma remove_exact_spec frozen tr d :
  runs (remove_exact frozen) tr d →
  changes tr = [] ∧ unlinks tr = [] ∧ d ≠ Removed ∨
  ∃ pre body parent, tr = pre ++ body ++ [Obs (CloseFile parent) tt] ∧
    changes pre = [] ∧ unlinks pre = [] ∧ parent_of frozen parent pre ∧
    removal_case frozen parent body d.
Proof.
  intros (euid & tr1 & -> & H). cbn [bind] in H. case_match; [left; by destruct H as [-> ->]|].
  apply runs_bind_inv in H as (tr2 & tr3 & r & -> & Hp & H).
  pose proof (calm_changes _ _ _ (calm_parent _ _) Hp) as [Hp1 Hp2]. destruct r as [parent|].
  2:{ left. destruct H as [-> ->]. cbn [omap list_omap change_of unlink_of].
      rewrite !omap_app, Hp1, Hp2. done. }
  right. apply closing_inv in H as (tr4 & -> & H).
  exists (Obs GetEuid euid :: tr2), tr4, parent. split; [done|]. do 2 (split; [done|]).
  split; [apply elem_of_cons; right; by eapply parent_spec|]. by apply remove_below_spec.
Qed.

(** An unlink in the trace of a removal. *)
Lemma remove_exact_unlink frozen tr d pre parent name r post :
  runs (remove_exact frozen) tr d → tr = pre ++ Obs (UnlinkAt parent name) r :: post →
  (∃ pre1 pre2, pre = pre1 ++ pre2 ∧ parent_of frozen parent pre1 ∧
     unlink_authorised frozen parent name pre2) ∧
  (∃ random, name = QUARANTINE_PREFIX +:+ hex_of random) ∧
  unlinks pre = [] ∧ unlinks post = [] ∧ (d = Removed ↔ r = Ok tt).
Proof.
  intros Hrun Heq.
  assert (Hno : unlinks tr ≠ []) by (rewrite Heq, omap_app; by intros [_ ?]%app_nil).
  apply remove_exact_spec in Hrun as [(_ & Hu & _)|(pre0 & body & p & -> & _ & Hu0 & Hp & Hcase)]; [done|].
  destruct Hcase as [_ Hu _|random back nm _ Hu _ _|pre1 random r' file nm -> Hu1 _ Hauth _ Hrem];
    [by rewrite !omap_app, Hu0, Hu in Hno..|].
  rewrite <-!(assoc_L (++)), (assoc_L (++) pre0) in Heq. cbn [app] in Heq.
  apply (omap_split_unique unlink_of) in Heq as (<- & Ho & <-);
    [|by rewrite omap_app, Hu0, Hu1|done|done].
  apply (f_equal unlink_result) in Ho. injection Ho as <- <- <-.
  split; [by exists pre0, pre1|]. split; [by exists random|].
  split; [by rewrite omap_app, Hu0, Hu1|]. by split.
Qed.

(** [C13] The removal unlinks the artifact that was frozen and nothing else: at most one name
    is unlinked, below the profile that was opened and is the frozen parent, a name to which
    the removal itself moved the artifact after a scan found no reference to it; a second
    scan found none to the new name, and then the entry was opened once more and was, by its
    descriptor and by its name, the frozen one, without an access list, while the original
    name was absent. The answer is [Removed] exactly if that unlink succeeded. *)
Theorem removals_unlink_the_frozen_artifact frozen tr d (Hrun : runs (remove_exact frozen) tr d) :
  (∀ pre parent name r post, tr = pre ++ Obs (UnlinkAt parent name) r :: post →
     (∃ pre1 pre2, pre = pre1 ++ pre2 ∧ parent_of frozen parent pre1 ∧
        unlink_authorised frozen parent name pre2) ∧
     (∃ random, name = QUARANTINE_PREFIX +:+ hex_of random) ∧
     unlinks pre = [] ∧ unlinks post = [] ∧ (d = Removed ↔ r = Ok tt)) ∧
  (d = Removed → ∃ parent name, Obs (UnlinkAt parent name) (Ok tt) ∈ tr).
Proof.
  split; [intros; by eapply remove_exact_unlink|]. intros ->.
  apply remove_exact_spec in Hrun as [(_ & _ & Hd)|(pre0 & body & parent & -> & _ & _ & _ & Hcase)]; [done|].
  destruct Hcase as [_ _ Hd|? ? ? _ _ Hd _|pre1 random r file name -> _ _ _ _ Hrem]; [done..|].
  exists parent, name. rewrite (proj1 Hrem eq_refl), !elem_of_app, !elem_of_cons. auto.
Qed.

(** What happens to the artifact: a removal that answers [Removed] has moved it aside
    and unlinked it; any other answer has unlinked nothing, and one that says that the
    artifact is in use has left it, or put it back, under its own name. *)
Theorem removals_answer_for_the_artifact frozen tr d (Hrun : runs (remove_exact frozen) tr d) :
  changes tr = [] ∧ d ≠ Removed ∨
  ∃ parent random,
    let name := QUARANTINE_PREFIX +:+ hex_of random in
    let aside := Renamed parent devtools_active_port_name name in
    (d = Removed ∧ changes tr = [aside; Unlinked parent name]) ∨
    (d ≠ Removed ∧ changes tr = [aside; put_back parent name]) ∨
    (d ≠ Removed ∧ d ≠ Referenced ∧ changes tr = [aside]).
Proof.
  apply remove_exact_spec in Hrun as [(Hc & _ & Hd)|(pre0 & body & parent & -> & Hc0 & _ & _ & Hcase)];
    [by left|].
  rewrite !omap_app, Hc0. cbn [omap list_omap change_of app]. rewrite app_nil_r.
  destruct Hcase as [Hc _ Hd|random back name Hc _ Hd Hback|pre1 random r file name -> _ Hc _ Hd Hrem].
  - by left.
  - right. exists parent, random. cbn zeta. fold name. right. rewrite Hc.
    destruct back; [by left|right]. split; [done|]. split; [|done]. by intros ?%Hback.
  - right. exists parent, random. cbn zeta. fold name. rewrite omap_app, Hc.
    cbn [omap list_omap change_of]. destruct r as [[]|e].
    + left. split; [by apply Hrem|done].
    + right. right. split; [by intros ?%Hrem|]. by split.
Qed.

(** ** The descriptors of the removal itself *)

(** The descriptors of entries that are open. *)
Definition hold (held : list N) (o : obs NativeE) : list N :=
  match o with
  | @Obs _ X e x =>
      match e in NativeE X return X → list N with
      | OpenAt _ _ => λ r, match r with Ok file => file :: held | Err _ => held end
      | CloseFile file => λ _, List.filter (λ f, negb (f =? file)%N) held
      | _ => λ _, held
      end x
  end.

(** None is open when the kernel is asked for references. *)
Definition unseen (held : list N) (X : Type) (e : NativeE X) : Prop :=
  match e with ListPidsPath _ => held = [] | _ => True end.

(** The program closes what it opens and does not ask. *)
Definition tidy {A} (p : native A) : Prop := ∀ g, safe hold unseen g p (λ g' _, g' ⊆ g).

Lemma tidy_ret {A} (a : A) : tidy (Ret a).
Proof. intros g. simpl. reflexivity. Qed.

Lemma tidy_bind {A B} (p : native A) (k : A → native B) :
  tidy p → (∀ a, tidy (k a)) → tidy (bind p k).
Proof.
  intros Hp Hk g. eapply safe_bind_post; [apply Hp|]. intros g1 a H1.
  eapply safe_mono; [|apply Hk]. intros g2 b H2. cbn beta in *. by etrans.
Qed.

Definition neither_opens_nor_asks (X : Type) (e : NativeE X) : Prop :=
  match e with OpenAt _ _ | ListPidsPath _ => False | _ => True end.

Lemma filter_sub (f : N → bool) l : List.filter f l ⊆ l.
Proof. intros x Hx%list_elem_of_In. apply filter_In in Hx as [Hx _]. by apply list_elem_of_In. Qed.

Lemma tidy_trigger {X} (e : NativeE X) : neither_opens_nor_asks X e → tidy (trigger e).
Proof. intros He g. destruct e; try done; (split; [done|]); intros x; simpl; first [reflexivity|apply filter_sub]. Qed.

(** Below an open that succeeded: the file is closed at the end. *)
Lemma safe_closing {A} file (p : native A) g g0 :
  tidy p → g0 ⊆ file :: g → safe hold unseen g0 (closing file p) (λ g' _, g' ⊆ g).
Proof.
  intros Hp Hg. eapply safe_bind_post; [apply Hp|]. intros g1 a H1. split; [done|]. intros [].
  cbn [safe hold]. intros x Hx%list_elem_of_In. apply filter_In in Hx as [Hx Hne].
  apply list_elem_of_In, H1, Hg, elem_of_cons in Hx as [->|]; [|done]. by rewrite N.eqb_refl in Hne.
Qed.

Lemma safe_named parent name g :
  safe hold unseen g (open_named_candidate parent name)
    (λ g' r, match r with Ok file => g' ⊆ file :: g | Err _ => g' ⊆ g end).
Proof.
  split; [done|]. intros [file|e]; cbn [hold bind]; [|simpl; reflexivity].
  split; [done|]. intros acl. cbn [hold bind].
  assert (Hclose : List.filter (λ f, negb (f =? file)%N) (file :: g) ⊆ g).
  { intros x Hx%list_elem_of_In. apply filter_In in Hx as [Hx Hne].
    apply list_elem_of_In, elem_of_cons in Hx as [->|]; [|done]. by rewrite N.eqb_refl in Hne. }
  destruct acl as [| |e n f]; [simpl; reflexivity|split; [done|intros []; exact Hclose]|].
  destruct (_ || _) eqn:Hl; cbn [bind]; (split; [done|intros []; exact Hclose]).
Qed.

(** Opening an entry and doing something with it. *)
Lemma tidy_opening {A} parent name (k : result N OpenFailure → native A) (body : N → native A) :
  (∀ e, tidy (k (Err e))) → (∀ file, k (Ok file) = closing file (body file)) →
  (∀ file, tidy (body file)) → tidy (bind (open_named_candidate parent name) k).
Proof.
  intros He Hk Hb g. eapply safe_bind_post; [apply safe_named|]. intros g1 [file|e] H1.
  - rewrite Hk. by apply safe_closing.
  - eapply safe_mono; [|apply He]. intros g2 a H2. cbn beta in *. by etrans.
Qed.

Ltac tidy :=
  repeat first
    [ apply tidy_ret
    | solve [auto with tidy nocore]
    | apply tidy_trigger; exact I
    | progress intros
    | eapply tidy_opening; [intro|intro; reflexivity|intro]
    | apply tidy_bind; [|intro]
    | progress cbn [bind]
    | case_match ].

Create HintDb tidy.

Lemma tidy_confirm parent file name expected : tidy (confirm_candidate parent file name expected).
Proof. unfold confirm_candidate, same_open_candidate, fstatat_named_matches. tidy. Qed.

Lemma tidy_parent path owner : tidy (open_safe_parent path owner).
Proof.
  unfold open_safe_parent, opened, require_empty_acl, fd_has_empty_extended_acl.
  apply tidy_bind; [by apply tidy_trigger|]. intros [file|]; [|apply tidy_ret]. tidy.
Qed.

#[export] Hint Resolve tidy_confirm tidy_parent : tidy.

Lemma tidy_validate c expected path : tidy (validate_reference_path c expected path).
Proof.
  unfold validate_reference_path. case_match; [|apply tidy_ret].
  apply tidy_bind; [apply tidy_parent|]. intros [parent|]; [|apply tidy_ret].
  apply tidy_bind; [|tidy]. unfold validate_entry.
  apply tidy_bind; [by apply tidy_trigger|]. intros [m|]; [|apply tidy_ret].
  case_match; [apply tidy_ret|]. eapply tidy_opening; [tidy|reflexivity|tidy].
Qed.

#[export] Hint Resolve tidy_validate : tidy.

Lemma tidy_scan_processes c uid argmax pids incomplete :
  tidy (scan_processes c uid argmax pids incomplete).
Proof.
  revert incomplete. induction pids as [|pid pids IH]; intros incomplete; [apply tidy_ret|].
  cbn [scan_processes]. case_match; [|apply tidy_ret].
  apply tidy_bind; [|intros [?|]; [apply IH|apply tidy_ret]].
  unfold scan_process, process_is_over, is_confirmed_zombie, kern_process_status, process_exists,
    scan_arguments. tidy.
Qed.

#[export] Hint Resolve tidy_scan_processes : tidy.

(** What starts and ends without an open descriptor, and asks without one. *)
Definition unnoticed {A} (p : native A) : Prop := safe hold unseen [] p (λ g' _, g' = []).

Lemma tidy_unnoticed {A} (p : native A) : tidy p → unnoticed p.
Proof.
  intros Hp. eapply safe_mono; [|apply Hp]. intros g a Hg. cbn beta in *.
  destruct g as [|x g]; [done|]. exfalso. eapply (not_elem_of_nil x), Hg, elem_of_cons. by left.
Qed.

Lemma unnoticed_bind {A B} (p : native A) (k : A → native B) :
  unnoticed p → (∀ a, unnoticed (k a)) → unnoticed (bind p k).
Proof. intros Hp Hk. eapply safe_bind_post; [exact Hp|]. intros g a ->. apply Hk. Qed.

Lemma unnoticed_reference c expected path : unnoticed (has_live_reference c expected path).
Proof.
  unfold has_live_reference, scan_live_references, path_has_open_reference, scan_arguments_of_all,
    scan_argmax.
  apply unnoticed_bind; [|intros; apply tidy_unnoticed, tidy_ret].
  apply unnoticed_bind; [apply tidy_unnoticed, tidy_validate|].
  intros [?|?]; [|apply tidy_unnoticed, tidy_ret]. apply unnoticed_bind; [|intros; apply tidy_unnoticed; tidy].
  case_match; [apply tidy_unnoticed, tidy_ret|]. split; [done|]. by intros n.
Qed.

Lemma tidy_attempts parent attempts : tidy (quarantine_attempts parent attempts).
Proof.
  induction attempts as [|attempts IH]; [apply tidy_ret|]. cbn [quarantine_attempts].
  unfold random_quarantine_name. tidy. all: apply IH.
Qed.

#[export] Hint Resolve tidy_attempts : tidy.

Lemma tidy_check_quarantined frozen parent name : tidy (check_quarantined frozen parent name).
Proof. unfold check_quarantined. eapply tidy_opening; [tidy|reflexivity|tidy]. Qed.

#[export] Hint Resolve tidy_check_quarantined : tidy.

Lemma tidy_restore_exact frozen parent name d : tidy (restore_exact_then frozen parent name d).
Proof.
  unfold restore_exact_then, restore_quarantined_exact, restore_quarantined_entry.
  apply tidy_bind; [|tidy]. eapply tidy_opening; [tidy|reflexivity|tidy].
Qed.

#[export] Hint Resolve tidy_restore_exact : tidy.

Lemma unnoticed_remove_quarantined frozen parent name :
  unnoticed (remove_quarantined has_live_reference frozen parent name).
Proof.
  unfold remove_quarantined. case_match; [apply tidy_unnoticed; tidy|].
  apply unnoticed_bind; [apply unnoticed_reference|]. intros [[|]|]; apply tidy_unnoticed; [tidy| |tidy].
  unfold unlink_third, canonical_entry_absent, unlink_quarantined.
  eapply tidy_opening; [tidy|reflexivity|tidy].
Qed.

(** The removal does not see itself: whenever it asks the kernel for references to a
    path, every entry that it has opened is closed again, the descriptor that it held across
    the rename included. *)
Theorem removals_ask_without_descriptors frozen tr d pre path n post
    (Hrun : runs (remove_exact frozen) tr d)
    (Htr : tr = pre ++ Obs (ListPidsPath path) n :: post) :
  fold_left hold pre [] = [].
Proof.
  assert (Hsafe : unnoticed (remove_exact frozen)).
  { unfold remove_exact, remove_exact_with. apply unnoticed_bind; [by split|]. intros euid.
    case_match; [apply tidy_unnoticed, tidy_ret|].
    apply unnoticed_bind; [apply tidy_unnoticed, tidy_parent|].
    intros [parent|]; [|apply tidy_unnoticed, tidy_ret].
    apply unnoticed_bind; [|intros; apply tidy_unnoticed; tidy]. unfold remove_below.
    apply unnoticed_bind; [by split|]. intros [m|]; [|apply tidy_unnoticed, tidy_ret].
    case_match; [apply tidy_unnoticed, tidy_ret|].
    apply unnoticed_bind.
    { apply tidy_unnoticed. unfold check_first. eapply tidy_opening; [tidy|reflexivity|].
      unfold same_open_candidate. tidy. }
    intros [?|?]; [|apply tidy_unnoticed, tidy_ret].
    apply unnoticed_bind; [apply unnoticed_reference|].
    intros [[|]|]; [apply tidy_unnoticed, tidy_ret| |apply tidy_unnoticed, tidy_ret].
    apply unnoticed_bind.
    { apply tidy_unnoticed. unfold quarantine_second. eapply tidy_opening; [tidy|reflexivity|].
      unfold quarantine_candidate. tidy. }
    intros [name|[d0|[name d0]]]; [apply unnoticed_remove_quarantined|apply tidy_unnoticed, tidy_ret|].
    apply tidy_unnoticed. unfold fail_after_restoring_quarantined_entry, restore_quarantined_entry. tidy. }
  destruct (safe_runs _ _ _ _ _ _ _ Hsafe Hrun) as [Hacc _].
  exact (accepts_at _ _ _ _ _ _ _ Hacc Htr).
Qed.
