(* ===== verification/Adapter.v ===== *)
(** Adapter: the engine on the machine.

    [MacosRuntime] of [unlinger-macos/src/lib.rs] implements the [CleanupRuntime] of the
    engine. [macos_runtime] is that implementation, method by method, and [on_machine] runs
    the engine's program on it, so that a trace shows the system calls of a whole cycle. *)

From S2P Require Import Prelude Text Model Fingerprint Task Artifact Graph Evidence Cleanup.
From S2P Require Import Effects Executor Pack Matching Candidates Classify Analyzer Decisions.
From S2P Require Import Cooling Names Store Journal Lifecycle Protocol Mutations Observations.
From S2P Require Import Views Maintenance Control Owners Engine EngineFacts Procargs Native.
From S2P Require Import Bundles Runtime RuntimeFacts Quarantine QuarantineFacts.

(** ** The runtime *)

Section Machine.
Context `{CF : CoreFoundation} `{JV : JsonValues}.

(** [CleanupRuntime for MacosRuntime]; the other events are not its methods. *)
Definition macos_runtime {X} (e : CleanupE X) : option (native X) :=
  match e in CleanupE X return option (native X) with
  | TakeSnapshot => Some (do* r := capture in Ret (map_err runtime_failure r))
  | LookupProcess pid => Some (do* r := lookup_pid pid in Ret (map_err runtime_failure r))
  | SampleClock => Some (do* r := current_clock_sample in Ret (map_err runtime_failure r))
  | SignalExact i s => Some (signal_exact i s)
  | WaitUntil d =>
      Some (do* r := wait_until d in
            Ret (default (Err (mkRuntimeFailure "the continuous clock stood still")) r))
  | FreezeArtifact c => Some (freeze c)
  | RemoveArtifactExact a => Some (remove_exact a)
  | _ => None
  end.

(** ** The engine on the runtime *)

(** The events of the engine that are not the runtime's, the gate of a delivery, and the
    system calls. *)
Inductive MachineE : Type → Type :=
| OfEngine {X : Type} (e : EngineE X) : MachineE X
| EnterGate (cancellable : bool) (epoch : string) (revision : N) : MachineE bool
| LeaveGate : MachineE unit
| OfKernel {X : Type} (e : NativeE X) : MachineE X.

Fixpoint on_kernel {A} (p : native A) : prog MachineE A :=
  match p with
  | Ret a => Ret a
  | @Vis _ _ X e k => Vis (OfKernel e) (λ x, on_kernel (k x))
  end.

(** A gated method runs inside the gate, if that lets it in. *)
Definition on_machine (X : Type) (e : EngineE X) (u : unit) : prog MachineE (unit * X) :=
  match e in EngineE X return prog MachineE (unit * X) with
  | @Runtime X e =>
      match macos_runtime e with
      | Some p => do* x := on_kernel p in Ret (u, x)
      | None => do* x := trigger (OfEngine (Runtime e)) in Ret (u, x)
      end
  | Gated cancellable epoch revision e =>
      match macos_runtime e with
      | Some p =>
          do* open_ := trigger (EnterGate cancellable epoch revision) in
          if open_ : bool then
            do* x := on_kernel p in
            do* _ := trigger LeaveGate in
            Ret (u, Some x)
          else Ret (u, None)
      | None => do* x := trigger (OfEngine (Gated cancellable epoch revision e)) in Ret (u, x)
      end
  | e => do* x := trigger (OfEngine e) in Ret (u, x)
  end.

(** [ReconciliationEngine::run_cycle_at_until] with a [MacosRuntime]. *)
Definition machine_cycle (e : ReconciliationEngine) (now : N) (w : option N) :=
  interpret on_machine (run_cycle_at_until e now w) tt.

(** The events of the kernel in a trace. *)
Definition of_kernel (o : obs NativeE) : obs MachineE :=
  match o with Obs e x => Obs (OfKernel e) x end.

Lemma on_kernel_runs {A} (p : native A) tr a :
  runs (on_kernel p) tr a → ∃ ktr, tr = of_kernel <$> ktr ∧ runs p ktr a.
Proof.
  revert tr. induction p as [b|X e k IH]; intros tr H; [destruct H as [-> ->]; by exists []|].
  destruct H as (x & tr' & -> & H). apply IH in H as (ktr & -> & H).
  exists (Obs e x :: ktr). split; [done|]. by exists x, ktr.
Qed.
End Machine.

(** * What a cycle does to the machine

    What a whole cycle does to the machine.

    The system calls of a cycle belong to events of the engine; a signal or an unlink
    happens only inside the gate, for a gated event. So the theorems about the engine's
    events and those about the adapter's programs meet in one trace. *)

From S2P Require Import ExecutorSafety.

Section Machine.
Context `{CF : CoreFoundation} `{JV : JsonValues}.

(** ** Programs without a harmful call *)

Lemma silent_clock : silent current_clock_sample.
Proof.
  unfold current_clock_sample, current_unix_millis, continuous_nanos, boot_session_fingerprint_of,
    boot_session_uuid, boot_time_identity. silent.
Qed.

#[local] Hint Resolve silent_clock : silent.

Lemma silent_capture_processes argmax pids c ps : silent (capture_processes argmax pids c ps).
Proof.
  revert c ps. induction pids as [|pid pids IH]; intros c ps; [done|]. cbn [capture_processes].
  apply confined_bind; [|intros [?|[]]; apply IH].
  unfold read_live_process, kern_process_status, process_exists. silent.
Qed.

#[local] Hint Resolve silent_capture_processes : silent.

Lemma silent_capture : silent capture.
Proof.
  unfold capture. apply confined_bind; [by apply silent_trigger|]. intros euid.
  apply confined_bind; [by apply silent_trigger|]. intros [pids|]; [|done].
  apply confined_step; [apply silent_argmax|]. intros argmax.
  apply confined_bind; [apply silent_capture_processes|]. intros r.
  apply confined_step; [apply silent_clock|done].
Qed.

Lemma silent_wait duration : silent (wait_until duration).
Proof.
  apply confined_bind; [unfold wait_deadline, continuous_nanos; silent|]. intros [answer|deadline]; [done|].
  apply confined_bind; [|by intros [?|?]]. apply confined_loop. intros [].
  unfold wait_step, continuous_nanos. silent.
Qed.

Lemma silent_freeze c : silent (freeze c).
Proof. unfold freeze, freeze_below, freeze_file, open_candidate. calm. Qed.

(** The methods that act. *)
Definition is_delivery {X} (e : CleanupE X) : Prop :=
  match e with SignalExact _ _ | RemoveArtifactExact _ => True | _ => False end.

#[local] Instance is_delivery_dec {X} (e : CleanupE X) : Decision (is_delivery e).
Proof. destruct e; simpl; apply _. Defined.

Lemma runtime_silent {X} (e : CleanupE X) :
  ¬ is_delivery e → match macos_runtime e with Some p => silent p | None => True end.
Proof.
  intros Ha. destruct e; cbn [macos_runtime].
  - apply confined_bind; [apply silent_capture|done].
  - apply confined_bind; [apply silent_lookup|done].
  - apply confined_bind; [apply silent_clock|done].
  - by destruct Ha.
  - apply confined_bind; [apply silent_wait|done].
  - apply silent_freeze.
  - by destruct Ha.
  - exact I.
  - exact I.
  - exact I.
  - exact I.
  - exact I.
Qed.

(** ** Calls of the kernel in the trace of an event *)

Definition kernel_part (o : obs MachineE) : option (obs NativeE) :=
  match o with
  | @Obs _ X e x =>
      match e in MachineE X return X → option (obs NativeE) with
      | OfKernel e => λ x, Some (Obs e x)
      | _ => λ _, None
      end x
  end.

Lemma kernel_part_of o : kernel_part (of_kernel o) = Some o.
Proof. by destruct o. Qed.

Lemma kernel_split ktr pre o post :
  of_kernel <$> ktr = pre ++ of_kernel o :: post →
  ∃ kpre kpost, ktr = kpre ++ o :: kpost ∧ pre = of_kernel <$> kpre ∧ post = of_kernel <$> kpost.
Proof.
  intros (kpre & ktr2 & Hp & H & ->)%fmap_app_inv.
  destruct ktr2 as [|o' kpost]; [done|]. injection H as Ho Hpost.
  apply (f_equal kernel_part) in Ho. rewrite !kernel_part_of in Ho. injection Ho as ->.
  by exists kpre, kpost.
Qed.

(** A harmful call happens for a method that acts, and a gated one is inside the gate. *)
Definition acting {X} (ev : EngineE X) (x : X) (pre : list (obs MachineE)) (o : obs NativeE) : Prop :=
  ∃ Y (op : CleanupE Y) p y kpre kpost,
    is_delivery op ∧ macos_runtime op = Some p ∧ runs p (kpre ++ o :: kpost) y ∧
    (Obs ev x = Obs (Runtime op) y ∨
     ∃ cancellable epoch revision,
       Obs ev x = Obs (Gated cancellable epoch revision op) (Some y) ∧
       pre = Obs (EnterGate cancellable epoch revision) true :: (of_kernel <$> kpre)).

Lemma harmful_call {X} (ev : EngineE X) u pre o post u' x :
  runs (on_machine X ev u) (pre ++ of_kernel o :: post) (u', x) →
  match o with @Obs _ Y e _ => ¬ harmless Y e end → acting ev x pre o.
Proof.
  intros H Hharm.
  assert (Hquiet : ∀ (tr : list (obs MachineE)), (∀ o', o' ∈ tr → kernel_part o' = None) →
    pre ++ of_kernel o :: post = tr → False).
  { intros tr Hn <-. specialize (Hn (of_kernel o)). rewrite kernel_part_of in Hn.
    assert (Some o = None); [|done]. apply Hn, elem_of_app. right. apply elem_of_cons. by left. }
  assert (Hsilent : ∀ A (p : native A) ktr a kpre kpost, silent p → runs p ktr a →
    ktr = kpre ++ o :: kpost → False).
  { intros A p ktr a kpre kpost Hp Hr ->. destruct o as [Y e y]. apply Hharm.
    eapply confined_runs; [exact Hp|exact Hr|]. apply elem_of_app. right. apply elem_of_cons. by left. }
  assert (Hacts : ∀ Y (op : CleanupE Y) p a kpre kpost, macos_runtime op = Some p →
    runs p (kpre ++ o :: kpost) a → is_delivery op).
  { intros Y op p a kpre kpost Hop Hr. destruct (is_delivery_dec op) as [|Hn]; [done|exfalso].
    apply runtime_silent in Hn. rewrite Hop in Hn. by eapply Hsilent. }
  assert (Hpass : ∀ Y (e : MachineE Y) (y : Y), kernel_part (Obs e y) = None →
    pre ++ of_kernel o :: post = [Obs e y] → False).
  { intros Y e y Hn Htr. eapply Hquiet; [|exact Htr]. by intros o' ->%list_elem_of_singleton. }
  destruct ev as [X op|X cancellable epoch revision op|X op| | | | | |]; cbn [on_machine] in H.
  2:{ destruct (macos_runtime op) as [p|] eqn:Hop.
      2:{ destruct H as (y & tr' & Htr & -> & _). exfalso. by eapply Hpass, Htr. }
      destruct H as (open_ & tr' & Htr & H). cbn [bind] in H. destruct open_.
      2:{ destruct H as [-> _]. exfalso. by eapply Hpass, Htr. }
      apply runs_bind_inv in H as (tr1 & tr2 & y & -> & H & ([] & tr3 & -> & -> & [= -> ->])).
      apply on_kernel_runs in H as (ktr & -> & Hp).
      destruct pre as [|o0 pre]; [exfalso; injection Htr as Ho _; apply (f_equal kernel_part) in Ho;
        by rewrite kernel_part_of in Ho|].
      injection Htr as -> Htr.
      destruct post as [|o1 post _] using rev_ind.
      { exfalso. apply app_inj_tail in Htr as [_ Ho]. apply (f_equal kernel_part) in Ho.
        by rewrite kernel_part_of in Ho. }
      rewrite app_comm_cons, (assoc_L (++)) in Htr. apply app_inj_tail in Htr as [Htr _].
      symmetry in Htr. apply kernel_split in Htr as (kpre & kpost & -> & -> & ->).
      exists X, op, p, y, kpre, kpost. split; [by eapply Hacts|]. split; [done|]. split; [done|].
      right. by exists cancellable, epoch, revision. }
  { destruct (macos_runtime op) as [p|] eqn:Hop.
    - apply runs_bind_inv in H as (tr1 & tr2 & y & Htr & H & -> & Hy). rewrite app_nil_r in Htr.
      injection Hy as _ ->. apply on_kernel_runs in H as (ktr & -> & Hp).
      symmetry in Htr. apply kernel_split in Htr as (kpre & kpost & -> & -> & ->).
      exists X, op, p, y, kpre, kpost. split; [by eapply Hacts|]. split; [done|]. split; [done|by left].
    - destruct H as (y & tr' & Htr & -> & _). exfalso. by eapply Hpass, Htr. }
  all: destruct H as (y & tr' & Htr & -> & _); exfalso; by eapply Hpass, Htr.
Qed.

(** ** The two methods that act *)


Definition no_unlink (X : Type) (e : NativeE X) : Prop :=
  match e with UnlinkAt _ _ => False | _ => True end.


Lemma harmless_no_unlink {A} (p : native A) : silent p → confined no_unlink p.
Proof. apply confined_mono. by intros X []. Qed.







Lemma signal_no_unlink i s : confined no_unlink (signal_exact i s).
Proof.
  split; [done|]. intros euid. cbn [bind]. case_match; [done|].
  apply confined_bind; [apply harmless_no_unlink, silent_ancestors|]. intros []; [done|].
  apply confined_bind; [apply harmless_no_unlink, silent_lookup|]. intros [[q|]|]; [|done..].
  repeat case_match; try done. unfold kill_process. case_match; [|done]. by repeat split.
Qed.

(** ** A cycle on the machine *)

(** A harmful call in a cycle: the gated event of the engine, the system calls before it in
    the gate, and the trace up to the gate. *)
Lemma harmful_call_of_cycle e now w tr r pre o post :
  runs (machine_cycle e now w) tr r → tr = pre ++ of_kernel o :: post →
  match o with @Obs _ Y ev _ => ¬ harmless Y ev end →
  ∃ apre cancellable epoch revision Y (op : CleanupE Y) p y apost mpre kpre kpost,
    runs (run_cycle_at_until e now w)
      (apre ++ Obs (Gated cancellable epoch revision op) (Some y) :: apost) r.2 ∧
    handled on_machine tt apre mpre tt ∧
    pre = mpre ++ Obs (EnterGate cancellable epoch revision) true :: (of_kernel <$> kpre) ∧
    is_delivery op ∧ macos_runtime op = Some p ∧ runs p (kpre ++ o :: kpost) y.
Proof.
  intros (ctr & Hr & Hh)%interpret_handled Htr Hharm.
  destruct (handled_at _ _ _ _ _ _ _ _ Hh Htr)
    as (c1 & X & ev & x & c2 & p1 & p2 & post1 & [] & [] & -> & -> & Hh1 & Hev).
  destruct (harmful_call _ _ _ _ _ _ _ Hev Hharm)
    as (Y & op & p & y & kpre & kpost & Ha & Hp & Hrp & [Ho|(c & ep & rv & Ho & ->)]);
    rewrite Ho in Hr.
  - exfalso. pose proof (cycle_event_ok _ _ _ _ _ _ _ _ _ _ Hr eq_refl) as Hok.
    by destruct op.
  - exists c1, c, ep, rv, Y, op, p, y, c2, p1, kpre, kpost. by split_and!.
Qed.



(** [C4] Whatever name a cycle on the machine unlinks is a planned artifact of a tree that is
    gone. If unlink is called, then for a gated removal of the engine, of an artifact that
    the dispatched plan names, that was frozen while the opening snapshot was the only one,
    under an open row of the journal, when the latest snapshot proved the whole tree gone;
    and between entering the gate and unlink the adapter moved that very artifact aside in
    its profile, found no reference before and after, and checked it once more. *)
Theorem cycles_unlink_planned_artifacts e now w tr r pre parent name k post
    (Hrun : runs (machine_cycle e now w) tr r)
    (Htr : tr = pre ++ Obs (OfKernel (UnlinkAt parent name)) k :: post) :
  ∃ apre cancellable epoch revision a answer apost mpre calls f start l,
    runs (run_cycle_at_until e now w)
      (apre ++ Obs (Gated cancellable epoch revision (RemoveArtifactExact a)) (Some answer) :: apost) r.2 ∧
    pre = mpre ++ Obs (EnterGate cancellable epoch revision) true :: (of_kernel <$> calls) ∧
    (apre = start ++ l ∧ dispatched e f start ∧ epoch = frozen_epoch f ∧ revision = frozen_revision f ∧
     removal_ok (frozen_analyzer f) (frozen_plan f) (ghost_of (executed l)) a) ∧
    ∃ calls1 calls2, calls = calls1 ++ calls2 ∧ parent_of a parent calls1 ∧
      unlink_authorised a parent name calls2.
Proof.
  destruct (harmful_call_of_cycle _ _ _ _ _ _ (Obs (UnlinkAt parent name) k) _ Hrun Htr)
    as (apre & c & ep & rv & Y & op & p & y & apost & mpre & kpre & kpost & Hr & Hh & Hpre & Ha & Hp & Hk);
    [by intros []|].
  destruct op as [| | |i sg| | |a| | | | |]; try done; injection Hp as <-.
  { exfalso. apply (confined_runs _ _ _ _ _ (UnlinkAt parent name) k (signal_no_unlink i sg) Hk).
    apply elem_of_app. right. apply elem_of_cons. by left. }
  destruct (remove_exact_unlink _ _ _ _ _ _ _ _ Hk eq_refl) as (Hauth & _).
  destruct (cycle_event_ok _ _ _ _ _ _ _ _ _ _ Hr eq_refl) as (f & start & l & -> & Hd & -> & -> & Hok).
  exists (start ++ l), c, (frozen_epoch f), (frozen_revision f), a, y, apost, mpre, kpre, f, start, l.
  by split_and!.
Qed.
End Machine.
