(* ===== verification/NativeExamples.v ===== *)
(** NativeExamples: the adapter and a whole cycle on a concrete machine.

    The machine of [EngineExamples.v] answers as a kernel: every process record is taken
    apart into what the system calls say of it, and the profile directory of the browser
    holds a DevToolsActivePort file. *)

From Stdlib Require Import Ascii.
From S2P Require Import Prelude Text Model Fingerprint Task Artifact Graph Evidence Cleanup.
From S2P Require Import Effects Executor ExecutorSafety ExecutorGuarantees Pack Matching.
From S2P Require Import Candidates Classify Analyzer Decisions Cooling Names Store Journal.
From S2P Require Import Lifecycle Residue Protocol Mutations Observations Views Maintenance.
From S2P Require Import Control Owners DurableExamples MutationExamples ControlExamples System.
From S2P Require Import OwnersExamples Engine EngineFacts EngineExamples Procargs Native Bundles.
From S2P Require Import Runtime RuntimeFacts Quarantine QuarantineFacts Adapter.

(** ** Libraries *)

(** A property list of a test: an identifier and a version on two lines. *)
Inductive test_value : Type := TestDictionary (id version : string) | TestString (text : string).

#[export] Instance test_foundation : CoreFoundation := {|
  cf_value := test_value;
  cf_property_list bytes :=
    match split_byte "010"%char bytes with
    | [id; version] => Some (TestDictionary id version)
    | _ => None
    end;
  cf_is_dictionary v := match v with TestDictionary _ _ => true | TestString _ => false end;
  cf_dictionary_value v key :=
    match v with
    | TestDictionary id version =>
        if bool_decide (key = "CFBundleIdentifier") then Some (TestString id)
        else if bool_decide (key = "CFBundleShortVersionString") then Some (TestString version)
        else None
    | TestString _ => None
    end;
  cf_is_string v := match v with TestString _ => true | TestDictionary _ _ => false end;
  cf_string_length v := match v with TestString s => Z.of_nat (String.length s) | _ => 0%Z end;
  cf_string_maximum v := match v with TestString s => Z.of_nat (3 * String.length s) | _ => 0%Z end;
  cf_string_bytes v _ := match v with TestString s => Some s | _ => None end;
|}.

(** No registry record is read. *)
#[export] Instance test_json : JsonValues := {|
  json_value := unit;
  json_from_slice _ := None;
  json_get _ _ := None;
  json_as_str _ := None;
  json_is_object _ := false;
  json_as_bool _ := None;
|}.

(** ** A kernel *)

(** The world of the engine, and the name of the artifact in the profile. *)
Record kernel : Type := mkKernel {
  k_world : world;
  k_entry : option string;
}.

Definition process_of (k : kernel) (n : Z) : option ProcessRecord :=
  List.find (λ p, bool_decide (Z.of_N (process_pid p) = n)) (ExecutorGuarantees.table (w_machine (k_world k))).

Definition nul_terminated (s : string) : string := s +:+ String nul "".

Definition info_of (p : ProcessRecord) : TaskAllInfo :=
  mkTaskAllInfo STATUS_RUN (uid p) (parent_pid p) (process_group_id p) (nul_terminated (proc_name p)) ""
    0 0 0 (started_at_unix_micros (identity p)) (resident_memory_bytes p) 0 0.

Definition self_info : TaskAllInfo := mkTaskAllInfo STATUS_RUN 501 1 999 (nul_terminated "unlingerd") "" 0 0 0 1 0 0 0.

Definition region_of (p : ProcessRecord) : option MappedRegion :=
  path ← executable_path p;
  device ← executable_device (identity p);
  inode ← executable_inode (identity p);
  Some (mkMappedRegion (nul_terminated path) 1 device inode 0 0 0).

(** Descriptors: 1 for an executable, 2 for a property list, 5 for the profile, 7 for the
    artifact. *)
Definition plist_text : string := "com.google.chrome.for.testing" +:+ String "010" "151.0.7922.34".

Definition file_stat_of (file : N) : FileStat :=
  if bool_decide (file = 1%N) then mkFileStat 1 10 0 33261 1 4096
  else if bool_decide (file = 2%N) then mkFileStat 1 20 0 33188 1 (N.of_nat (String.length plist_text))
  else if bool_decide (file = 5%N) then mkFileStat 1 50 501 16832 3 96
  else mkFileStat 1 70 501 33188 1 12.

Definition no_entry : OsError := mkOsError ENOENT "No such file or directory".

Definition advance (nanoseconds : N) (k : kernel) : kernel :=
  mkKernel ((k_world k) <| w_millis ::= N.add (nanoseconds / 1000000) |>) (k_entry k).

Definition kernel_call {X} (e : NativeE X) (k : kernel) : kernel * X :=
  match e in NativeE X return kernel * X with
  | GetEuid => (k, 501%N)
  | GetPid => (k, 999%Z)
  | PidsOf _ => (k, Ok (process_pid <$> ExecutorGuarantees.table (w_machine (k_world k))))
  | SysctlArgmax => (k, (true, 262144%Z, ""))
  | SysctlProcArgs pid _ =>
      (k, match process_of k pid with
          | Some p => Ok (procargs2 (default "" (executable_path p)) 1 (default [] (arguments p)) [])
          | None => Err "No such process"
          end)
  | PidInfo pid =>
      (k, if bool_decide (pid = 999%Z) then Some self_info else info_of <$> process_of k pid)
  | PidPath pid =>
      (k, match process_of k pid ≫= executable_path with
          | Some path => (Z.of_nat (String.length path), 0%Z, nul_terminated path)
          | None => (0%Z, 0%Z, "")
          end)
  | PidRegion pid => (k, process_of k pid ≫= region_of)
  | KernProc _ => (k, None)
  | KillProbe _ => (k, KillNoProcess)
  | KillProcess n s =>
      match process_of k n with
      | Some p =>
          let '(m, _) := machine_signal (w_machine (k_world k)) (identity p) s in
          (mkKernel ((k_world k) <| w_machine := m |>) (k_entry k), KillOk)
      | None => (k, KillNoProcess)
      end
  | ListFds _ _ => (k, Some [])
  | SocketFacts _ _ => (k, None)
  | OpenFile path _ => (k, Some (if ends_with "Info.plist" path then 2%N else 1%N))
  | FileMetadata file => (k, Ok (file_stat_of file))
  | ReadAtMost file _ => (k, if bool_decide (file = 2%N) then Some plist_text else None)
  | ReadDirectory _ => (k, None)
  | HomeDirectory => (k, None)
  | WallMillis => (k, Ok (1000000 + w_millis (k_world k))%N)
  | ContinuousTime =>
      let t := w_millis (k_world k) in
      (k, Ok (Z.of_N (t / 1000), Z.of_N (t `mod` 1000 * 1000000)))
  | BootUuidSize => (k, Some 5%N)
  | BootUuid _ => (k, Some (nul_terminated "boot"))
  | BootTime => (k, Err "")
  | SleepNanos n => (advance n k, tt)
  | StopProbe => (k, false)
  | OpenParent _ => (k, Ok 5%N)
  | OpenAt _ name => (k, if bool_decide (k_entry k = Some name) then Ok 7%N else Err no_entry)
  | StatAt _ name =>
      (k, if bool_decide (k_entry k = Some name) then Ok (file_stat_of 7) else Err no_entry)
  | CloseFile _ => (k, tt)
  | AclOf _ => (k, AclMissing)
  | RenameExcl _ from to =>
      if bool_decide (k_entry k = Some from) then (mkKernel (k_world k) (Some to), Ok tt)
      else (k, Err no_entry)
  | UnlinkAt _ name =>
      if bool_decide (k_entry k = Some name) then (mkKernel (k_world k) None, Ok tt)
      else (k, Err no_entry)
  | Entropy => (k, Some "0123456789abcdef")
  | ListPidsPath _ => (k, 0%Z)
  end.

Definition kernel_handle (X : Type) (e : NativeE X) (k : kernel) : kernel * X := kernel_call e k.

Definition machine_event (X : Type) (e : MachineE X) (k : kernel) : kernel * X :=
  match e in MachineE X return kernel * X with
  | OfEngine e => let '(w, x) := world_handle _ e (k_world k) in (mkKernel w (k_entry k), x)
  | EnterGate _ epoch revision => (k, delivers epoch revision (d_control (w_daemon (k_world k))))
  | LeaveGate => (k, tt)
  | OfKernel e => kernel_call e k
  end.

(** ** A cycle *)

(** The pack of the browser, with the removal of its artifact. *)
Definition artifact_pack : SignaturePack :=
  agent_browser_pack <| artifact_policy := mkArtifactPolicy true |>.

Definition artifact_engine : ReconciliationEngine :=
  quick_engine <| engine_rules := mkRuleSet [artifact_pack] |>.

Definition armed_kernel : kernel := mkKernel armed_world (Some devtools_active_port_name).

Definition machine_cycle_run : kernel * list (obs MachineE) * (unit * (option N * result CycleReport EngineError)) :=
  run machine_event (machine_cycle artifact_engine 1000200 None) armed_kernel.

Definition cycle_calls : list (obs MachineE) := machine_cycle_run.1.2.

Lemma cycle_calls_run : runs (machine_cycle artifact_engine 1000200 None) cycle_calls machine_cycle_run.2.
Proof. exact (run_runs machine_event (machine_cycle artifact_engine 1000200 None) armed_kernel). Qed.

(** The browser, its helper twice, and then the artifact of the profile. *)
Example machine_clears :
  omap (λ o, kernel_part o ≫= kill_of) cycle_calls = [(10%Z, Term); (11%Z, Term); (11%Z, Kill)] ∧
  omap (λ o, kernel_part o ≫= unlink_of) cycle_calls =
    [(5%N, ".unlinger-artifact-quarantine-30313233343536373839616263646566")] ∧
  match machine_cycle_run.2.2.2 with
  | Ok r => receipt_state <$> cleanup_receipts r = [Cleared]
  | Err _ => False
  end.
Proof. vm_compute. done. Qed.


Definition aside_name : string := ".unlinger-artifact-quarantine-30313233343536373839616263646566".

Lemma cycle_unlinks :
  cycle_calls = take 3414 cycle_calls ++
    Obs (OfKernel (UnlinkAt 5 aside_name)) (Ok tt) :: drop 3415 cycle_calls.
Proof. apply split_at. vm_compute. reflexivity. Qed.


Lemma cycles_unlink_planned_artifacts_witness :
  ∃ a calls mpre gate,
    take 3414 cycle_calls = mpre ++ gate :: (of_kernel <$> calls) ∧
    ∃ calls1 calls2, calls = calls1 ++ calls2 ∧ parent_of a 5 calls1 ∧
      unlink_authorised a 5 aside_name calls2.
Proof.
  destruct (cycles_unlink_planned_artifacts _ _ _ _ _ _ _ _ _ _ cycle_calls_run cycle_unlinks)
    as (apre & c & ep & rv & a & answer & apost & mpre & calls & f & start & l & _ & Hpre & _ & Hc).
  exists a, calls, mpre, (Obs (EnterGate c ep rv) true). exact (conj Hpre Hc).
Defined.

(** ** The methods alone *)

Definition captured : kernel * list (obs NativeE) * result Snapshot SnapshotError :=
  run kernel_handle capture armed_kernel.

Definition captured_snapshot : Snapshot :=
  match captured.2 with Ok s => s | Err _ => orphan_snapshot end.

Lemma captured_runs : runs capture captured.1.2 (Ok captured_snapshot).
Proof.
  replace (Ok captured_snapshot) with captured.2 by (vm_compute; reflexivity).
  exact (run_runs kernel_handle capture armed_kernel).
Qed.

Lemma snapshots_account_for_every_process_witness :
  proves_complete_exact_identity_coverage captured_snapshot = true ∧
  process_pid <$> processes captured_snapshot = [10; 11]%N ∧
  ∃ reads, processes captured_snapshot ≡ₚ observed_process <$> inspected reads ∧
    covers (coverage captured_snapshot) reads.
Proof.
  split; [vm_compute; reflexivity|]. split; [vm_compute; reflexivity|].
  destruct (snapshots_account_for_every_process _ _ captured_runs)
    as (euid & pids & before & reads & after & _ & _ & _ & _ & Hps & Hc & _).
  exists (reads.*2). exact (conj Hps Hc).
Defined.

Definition signalled : kernel * list (obs NativeE) * SignalDisposition :=
  run kernel_handle (signal_exact (identity orphan_browser) Term) armed_kernel.

Lemma signalled_runs : runs (signal_exact (identity orphan_browser) Term) signalled.1.2 Delivered.
Proof.
  replace Delivered with signalled.2 by (vm_compute; reflexivity).
  exact (run_runs kernel_handle (signal_exact (identity orphan_browser) Term) armed_kernel).
Qed.

Lemma signalled_last :
  signalled.1.2 = take (length signalled.1.2 - 1) signalled.1.2 ++
    Obs (KillProcess 10 Term) KillOk :: [].
Proof. vm_compute. reflexivity. Qed.

Lemma signals_go_to_the_exact_process_witness :
  ∃ pre n, signalled.1.2 = pre ++ [Obs (KillProcess n Term) KillOk] ∧
    checked_before (identity orphan_browser) n pre.
Proof.
  destruct (signals_go_to_the_exact_process _ _ _ _ signalled_runs) as [Hk _].
  exists (take (length signalled.1.2 - 1) signalled.1.2), 10%Z. split; [exact signalled_last|].
  exact (proj1 (proj2 (proj2 (Hk _ _ _ _ _ signalled_last)))).
Defined.

Definition waited : kernel * list (obs NativeE) * option (result WaitOutcome RuntimeFailure) :=
  run kernel_handle (wait_until (from_secs 1)) armed_kernel.

Lemma waited_runs : runs (wait_until (from_secs 1)) waited.1.2 waited.2.
Proof. exact (run_runs kernel_handle (wait_until (from_secs 1)) armed_kernel). Qed.

Lemma machine_waits_end_witness :
  waited.2 = Some (Ok DeadlineReached) ∧ ∃ answer, waited.2 = Some answer.
Proof.
  split; [vm_compute; reflexivity|].
  destruct (machine_waits_end _ _ _ waited_runs) as (answer & H & _).
  - vm_compute. repeat split; intros H; discriminate H.
  - exists answer. exact H.
Defined.

Definition profile_candidate : RuntimeArtifactCandidate :=
  mkRuntimeArtifactCandidate DevToolsActivePort "/tmp/agent-browser-profile"
    "/tmp/agent-browser-profile/DevToolsActivePort" 501 "session" "artifact".

Definition quiet_kernel : kernel :=
  mkKernel (armed_world <| w_machine := mkMachine [] [] 0 [] None |>) (Some devtools_active_port_name).

Definition frozen_artifact : FrozenRuntimeArtifact :=
  match (run kernel_handle (freeze profile_candidate) quiet_kernel).2 with
  | Ok (Frozen f) => f
  | _ => example_file
  end.

Definition removed : kernel * list (obs NativeE) * ArtifactDisposition :=
  run kernel_handle (remove_exact frozen_artifact) quiet_kernel.

Lemma removed_runs : runs (remove_exact frozen_artifact) removed.1.2 Removed.
Proof.
  replace Removed with removed.2 by (vm_compute; reflexivity).
  exact (run_runs kernel_handle (remove_exact frozen_artifact) quiet_kernel).
Qed.

Lemma removals_unlink_the_frozen_artifact_witness :
  ∃ parent name, Obs (UnlinkAt parent name) (Ok tt) ∈ removed.1.2.
Proof.
  exact (proj2 (removals_unlink_the_frozen_artifact _ _ _ removed_runs) eq_refl).
Defined.

Lemma removals_answer_for_the_artifact_witness :
  changes removed.1.2 = [Renamed 5 devtools_active_port_name aside_name; Unlinked 5 aside_name] ∧
  (changes removed.1.2 = [] ∧ Removed ≠ Removed ∨ changes removed.1.2 ≠ []).
Proof.
  split; [vm_compute; reflexivity|].
  destruct (removals_answer_for_the_artifact _ _ _ removed_runs) as [H|_]; [left; exact H|right].
  vm_compute. intros H. discriminate H.
Defined.

Lemma removal_asks :
  removed.1.2 = take 77 removed.1.2 ++
    Obs (ListPidsPath ("/tmp/agent-browser-profile/" +:+ aside_name)) 0%Z :: drop 78 removed.1.2.
Proof. apply split_at. vm_compute. reflexivity. Qed.

Lemma removals_ask_without_descriptors_witness :
  fold_left hold (take 60 removed.1.2) [] = [7%N; 7%N] ∧ fold_left hold (take 77 removed.1.2) [] = [].
Proof.
  split; [vm_compute; reflexivity|].
  exact (removals_ask_without_descriptors _ _ _ _ _ _ _ removed_runs removal_asks).
Defined.
