(* ===== verification/Producer.v ===== *)
(** Producer: the calls that the maintenance of producer caches makes, and the discovery of
    a producer, [unlinger-daemon/src/tool_cache.rs].

    Every system call is an event of [CacheE], whose answer the kernel is free to choose;
    so are the clock, the caller's probe for cancellation and the children. Descriptors are
    closed when their owner is dropped, which the model leaves out. *)

From S2P Require Import Prelude Text Protocol Effects.
From Stdlib Require Import Ascii.

(** ** Calls *)

Inductive IoError : Type :=
| IoNotFound
| IoOther (text : string).

#[export] Instance IoError_eq_dec : EqDecision IoError.
Proof. solve_decision. Defined.

Inductive FileKind : Type := FileDirectory | FileRegular | FileSymlink | FileSpecial.

#[export] Instance FileKind_eq_dec : EqDecision FileKind.
Proof. solve_decision. Defined.

(** [std::fs::Metadata], the fields that are read. *)
Record Metadata : Type := mkMetadata {
  md_kind : FileKind;
  md_dev : N;
  md_ino : N;
  md_uid : N;
  md_mode : N;
  md_nlink : N;
  md_len : N;
  md_mtime : Z;
  md_mtime_nsec : Z;
  md_ctime : Z;
  md_ctime_nsec : Z;
}.

(** [Metadata::is_dir], [Metadata::is_file], [FileType::is_symlink]. *)
Definition is_dir (m : Metadata) : bool := bool_decide (md_kind m = FileDirectory).

Definition is_file (m : Metadata) : bool := bool_decide (md_kind m = FileRegular).

Definition is_symlink (m : Metadata) : bool := bool_decide (md_kind m = FileSymlink).

(** Not writable by the group or others: [mode & 0o022 == 0]. *)
Definition guarded (m : Metadata) : bool := bool_decide (N.land (md_mode m) 18 = 0%N).

(** [Command], its environment cleared and its standard input null or a pipe; the
    directory is the descriptor that it changes to before it is executed, and the
    descriptors are those that it inherits. *)
Record Command : Type := mkCommand {
  cmd_program : string;
  cmd_arguments : list string;
  cmd_environment : list (string * string);
  cmd_directory : option N;
  cmd_inherited : list N;
}.

(** A child with the end of the pipe that it was given to write to. *)
Record Child : Type := mkChild {
  child_id : N;
  child_pipe : N;
}.

(** What a nonblocking read answers; no bytes are the end of the file. *)
Inductive ReadAnswer : Type :=
| ReadBytes (bytes : string)
| ReadWouldBlock
| ReadFailed.

(** [Stat] follows links and [LinkStat] does not; [OpenDirectory] opens with O_DIRECTORY
    and without following a link as the directory, or anywhere on the path; [OpenIn] is
    [openat] with O_NOFOLLOW and O_NONBLOCK. [DirectoryStream] reads all the names of a
    directory from its start. [ReadFile] is one [read], [ReadExact] is [read_exact].
    [ReadPipe] is a nonblocking [read], repeated while it is interrupted; [ReadParent] is
    one, whose answer is [None] when it is interrupted. An exit status is the code, if the
    child was not ended by a signal. [ConfStrSize] and [ConfStr] ask for the user's
    temporary directory. [Now] is [Instant::now] in nanoseconds. *)
Inductive CacheE : Type → Type :=
| CacheEuid : CacheE N
| UserHome (uid : N) : CacheE (option string)
| HomeVariable : CacheE (option string)
| ConfStrSize : CacheE N
| ConfStr (size : N) : CacheE (N * string)
| Now : CacheE N
| PollSleep : CacheE unit
| CancelProbe : CacheE bool
| Stat (path : string) : CacheE (result Metadata IoError)
| LinkStat (path : string) : CacheE (result Metadata IoError)
| RealPath (path : string) : CacheE (result string IoError)
| OpenDirectory (path : string) (anywhere : bool) : CacheE (result N IoError)
| OpenIn (parent : N) (name : string) (directory : bool) : CacheE (result N IoError)
| StatFd (file : N) : CacheE (result Metadata IoError)
| DirectoryStream (file : N) : CacheE (result (list string) IoError)
| ReadFile (file limit : N) : CacheE (result string IoError)
| ReadExact (file count : N) : CacheE (result string IoError)
| UnlinkIn (parent : N) (name : string) : CacheE (result unit IoError)
| CurrentExe : CacheE (result string IoError)
| Pipe : CacheE (result (N * N) IoError)
| WriteAll (file : N) (bytes : string) : CacheE (result unit IoError)
| TakeInherited (fd : N) : CacheE (result unit IoError)
| SetNonblocking (fd : N) : CacheE (result unit IoError)
| ReadPipe (fd limit : N) : CacheE ReadAnswer
| ReadParent (fd : N) : CacheE (option ReadAnswer)
| Spawn (c : Command) : CacheE (result Child IoError)
| TryWait (child : N) : CacheE (result (option (option Z)) IoError)
| KillChild (child : N) : CacheE unit
| WaitChild (child : N) : CacheE unit
| CloseInput (child : N) : CacheE unit.

Abbreviation caching A := (prog CacheE A).

Definition POLL_INTERVAL : N := 50 * 1000000.

(** [ExitStatus::success]. *)
Definition exited_well (status : option Z) : bool := bool_decide (status = Some 0%Z).

(** ** Discovery errors *)

Record CacheDiscoveryError : Type := mkCacheDiscoveryError {
  error_availability : ToolCacheAvailability;
  error_reason : string;
}.

(** ** The binding of a producer *)

(** [ProducerBinding]: device, inode, length and time of the last change. *)
Definition ProducerBinding : Type := list (N * N * N * Z * Z).

(** [ProducerBinding::of]. *)
Definition binding_of (m : Metadata) : N * N * N * Z * Z :=
  (md_dev m, md_ino m, md_len m, md_mtime m, md_mtime_nsec m).

(** [ProducerBinding::capture]. *)
Definition capture_binding (binary : string) : caching (result ProducerBinding IoError) :=
  do* uid := trigger CacheEuid in
  do? m := trigger (Stat binary) in
  Ret (if negb (is_file m) || negb (bool_decide (md_uid m ∈ [0%N; uid])) || negb (guarded m)
       then Err (IoOther "unsafe producer identity") else Ok [binding_of m]).

(** The producer is still the one of the binding. *)
Definition still_bound (binary : string) (binding : ProducerBinding) : caching bool :=
  do* b := capture_binding binary in
  Ret (match b with Ok b => bool_decide (b = binding) | Err _ => false end).

(** ** Children *)

(** [OwnedChild]: the child is reaped when its owner is dropped. *)
Definition reap (child : N) : caching unit :=
  do* status := trigger (TryWait child) in
  match status with
  | Ok (Some _) => Ret tt
  | _ => do* _ := trigger (KillChild child) in trigger (WaitChild child)
  end.

(** The program [p] with an owned child. *)
Definition owning {A} (child : N) (p : caching (option A)) : caching (option A) :=
  some* r := p in
  do* _ := reap child in
  Ret (Some r).

(** [NonblockingPipe::new]. *)
Definition nonblocking (pipe : N) : caching (option N) :=
  do* r := trigger (SetNonblocking pipe) in
  Ret (match r with Ok _ => Some pipe | Err _ => None end).

Definition STDERR_CAP_BYTES : N := 64 * 1024.

(** The length of a buffer. *)
Definition bytes_len (s : string) : N := N.of_nat (String.length s).

(** An iteration of [NonblockingPipe::drain]: the outcome, with the buffer. *)
Definition drain_step (pipe : N) (captured : string) : caching (string + result string string) :=
  if bool_decide (STDERR_CAP_BYTES < bytes_len captured)%N then Ret (inr (Err "stderr over cap"))
  else
    do* r := trigger (ReadPipe pipe 4096) in
    Ret (match r with
         | ReadBytes bytes =>
             if is_empty bytes then inr (Ok captured) else inl (captured +:+ bytes)
         | ReadWouldBlock => inr (Ok captured)
         | ReadFailed => inr (Err "read failed")
         end).

(** [NonblockingPipe::drain]: every read that does not end it adds a byte, so the buffer is
    over its cap before the steps of the loop are used up. *)
Definition drain (pipe : N) (captured : string) : caching (option (result string string)) :=
  looping 17 (drain_step pipe) captured.

(** ** Queries *)

(** [ProducerQuery]. *)
Inductive ProducerQuery : Type :=
| QueryOutput (text : string)
| QueryBindingChanged
| QuerySpawnFailed
| QueryExited
| QueryTimedOut
| QueryOutputOverflow
| QueryOutputReadFailed
| QueryMalformedBytes
| QueryCancelled.

Definition PRODUCER_QUERY_BUDGET : N := 10 * 1000000000.

Definition PRODUCER_OUTPUT_CAP_BYTES : N := 4 * 1024.

(** The command of a query: no environment, and no directory. *)
Definition query_command (binary : string) (arguments : list string) : Command :=
  mkCommand binary arguments [] None [].

(** An iteration of the loop of [read_producer_output]: what it has read so far, and then
    the outcome, or all that was read before the child ended well. *)
Definition query_step (child pipe deadline : N) (captured : string) :
    caching (option (string + (ProducerQuery + string))) :=
  some* drained := drain pipe captured in
  match drained with
  | Err _ => Ret (Some (inr (inl QueryOutputReadFailed)))
  | Ok captured =>
      do* status := trigger (TryWait child) in
      match status with
      | Ok (Some status) =>
          Ret (Some (inr (if exited_well status then inr captured else inl QueryExited)))
      | Err _ => Ret (Some (inr (inl QuerySpawnFailed)))
      | Ok None =>
          do* cancelled := trigger CancelProbe in
          if cancelled : bool then Ret (Some (inr (inl QueryCancelled))) else
          do* now := trigger Now in
          if bool_decide (deadline ≤ now)%N then Ret (Some (inr (inl QueryTimedOut)))
          else if bool_decide (PRODUCER_OUTPUT_CAP_BYTES < bytes_len captured)%N
          then Ret (Some (inr (inl QueryOutputOverflow)))
          else do* _ := trigger PollSleep in Ret (Some (inl captured))
      end
  end.

(** The output of a child that ended well. *)
Definition query_result (binary : string) (binding : ProducerBinding) (pipe : N)
    (captured : string) : caching (option ProducerQuery) :=
  some* drained := drain pipe captured in
  match drained with
  | Err _ => Ret (Some QueryOutputReadFailed)
  | Ok captured =>
      if bool_decide (PRODUCER_OUTPUT_CAP_BYTES < bytes_len captured)%N
      then Ret (Some QueryOutputOverflow) else
      do* same := still_bound binary binding in
      Ret (Some (if negb same then QueryBindingChanged
                 else if utf8_valid captured then QueryOutput captured else QueryMalformedBytes))
  end.

(** [read_producer_output]; [None] is a child that has not answered when the steps of the
    loop are used up. *)
Definition read_producer_output (binary : string) (arguments : list string) (query_budget : N) :
    caching (option ProducerQuery) :=
  do* binding := capture_binding binary in
  match binding with
  | Err _ => Ret (Some QuerySpawnFailed)
  | Ok binding =>
      do* spawned := trigger (Spawn (query_command binary arguments)) in
      match spawned with
      | Err _ => Ret (Some QuerySpawnFailed)
      | Ok child =>
          owning (child_id child)
            (do* reader := nonblocking (child_pipe child) in
             match reader with
             | None => Ret (Some QueryOutputReadFailed)
             | Some pipe =>
                 do* started := trigger Now in
                 some* r := polling 38 (query_step (child_id child) pipe (started + query_budget)) "" in
                 match r with
                 | inl outcome => Ret (Some outcome)
                 | inr captured => query_result binary binding pipe captured
                 end
             end)
      end
  end.

(** ** Discovery *)

(** What a candidate for the producer is: after one that is unproved or unsupported, the
    next one is tried. *)
Inductive Candidate (A : Type) : Type :=
| CandidateAbsent
| CandidateUnproved (reason : string)
| CandidateUnsupported
| CandidateRefused (reason : string)
| CandidateProved (a : A).
Arguments CandidateAbsent {A}.
Arguments CandidateUnproved {A} reason.
Arguments CandidateUnsupported {A}.
Arguments CandidateRefused {A} reason.
Arguments CandidateProved {A} a.

(** The errors of a discovery: it was cancelled, no candidate is there, none is supported,
    none was proved. *)
Record DiscoveryTexts : Type := mkDiscoveryTexts {
  text_cancelled : string;
  text_absent : string;
  text_unsupported : string;
  text_unproved : string;
}.

Definition unavailable (reason : string) : CacheDiscoveryError :=
  mkCacheDiscoveryError CacheUnavailable reason.

(** The error when no candidate was proved. *)
Definition no_producer (texts : DiscoveryTexts) (present unsupported : bool) (reason : option string) :
    CacheDiscoveryError :=
  if negb present then mkCacheDiscoveryError CacheAbsent (text_absent texts)
  else match reason with
       | Some reason => unavailable reason
       | None =>
           if unsupported then mkCacheDiscoveryError CacheUnsupported (text_unsupported texts)
           else unavailable (text_unproved texts)
       end.

(** The loop over the candidates. *)
Fixpoint discover_candidates {A} (attempt : string → caching (option (Candidate A)))
    (texts : DiscoveryTexts) (paths : list string) (present unsupported : bool)
    (reason : option string) : caching (option (result A CacheDiscoveryError)) :=
  match paths with
  | [] => Ret (Some (Err (no_producer texts present unsupported reason)))
  | path :: paths =>
      do* cancelled := trigger CancelProbe in
      if cancelled : bool then Ret (Some (Err (unavailable (text_cancelled texts)))) else
      some* candidate := attempt path in
      match candidate with
      | CandidateAbsent => discover_candidates attempt texts paths present unsupported reason
      | CandidateUnproved reason =>
          discover_candidates attempt texts paths true unsupported (Some reason)
      | CandidateUnsupported => discover_candidates attempt texts paths true true reason
      | CandidateRefused reason => Ret (Some (Err (unavailable reason)))
      | CandidateProved a => Ret (Some (Ok a))
      end
  end.

(** * What the calls do

    The calls of [Producer.v]: loops end when the clock goes on, and children
    are reaped. *)

Abbreviation cache_trace := (list (obs CacheE)).

(** ** Time *)

(** The answers of the clock from a time on: no reading goes back, a sleep takes its
    interval, and a read of a file some time. *)
Fixpoint cache_time (since : N) (tr : cache_trace) : Prop :=
  match tr with
  | [] => True
  | @Obs _ X e x :: tr =>
      match e in CacheE X return X → Prop with
      | Now => λ now, (since ≤ now)%N ∧ cache_time now tr
      | PollSleep => λ _, cache_time (since + POLL_INTERVAL) tr
      | ReadFile _ _ => λ _, cache_time (since + 1) tr
      | _ => λ _, cache_time since tr
      end x
  end.

Lemma cache_time_app since tr tail :
  cache_time since (tr ++ tail) → ∃ since', (since ≤ since')%N ∧ cache_time since' tail.
Proof.
  revert since. induction tr as [|[X e x] tr IH]; intros since H; [by exists since|].
  assert (∃ s, (since ≤ s)%N ∧ cache_time s (tr ++ tail)) as (s & Hs & H').
  { destruct e; simpl in H; try (exists since; split; [lia|exact H]).
    - destruct H as [Hle H]. by exists x.
    - eexists. split; [|exact H]. lia.
    - eexists. split; [|exact H]. lia. }
  destruct (IH s H') as (s' & Hs' & H''). exists s'. split; [lia|done].
Qed.

Lemma cache_time_mono since since' tr : (since' ≤ since)%N → cache_time since tr → cache_time since' tr.
Proof.
  revert since since'. induction tr as [|[X e x] tr IH]; intros s s' Hle H; [done|].
  destruct e; simpl in *; try (by eapply IH); try (eapply IH; [|exact H]; lia).
  destruct H as [? H]. split; [lia|done].
Qed.

(** From a time on, the program does not run out of the steps of its loops. *)
Definition ends_from {A} (t : N) (p : caching (option A)) : Prop :=
  ∀ tr since, (t ≤ since)%N → cache_time since tr → ¬ runs p tr None.

Lemma ends_ret {A} t (a : A) : ends_from t (Ret (Some a)).
Proof. by intros tr since _ _ [_ ?]. Qed.

Lemma ends_bind {A B} t (p : caching A) (k : A → caching (option B)) :
  (∀ a, ends_from t (k a)) → ends_from t (bind p k).
Proof.
  intros Hk tr since Ht Hc (t1 & t2 & a & -> & _ & H)%runs_bind_inv.
  apply cache_time_app in Hc as (since' & Hle & Hc). exact (Hk a t2 since' ltac:(lia) Hc H).
Qed.

Lemma ends_some {A B} t (p : caching (option A)) (k : A → caching (option B)) :
  ends_from t p → (∀ a, ends_from t (k a)) → ends_from t (some* a := p in k a).
Proof.
  intros Hp Hk tr since Ht Hc H. pose proof H as (t1 & t2 & [a|] & -> & H1 & H2)%runs_bind_inv.
  - apply cache_time_app in Hc as (since' & Hle & Hc). exact (Hk a t2 since' ltac:(lia) Hc H2).
  - destruct H2 as [-> _]. rewrite app_nil_r in Hc. exact (Hp t1 since Ht Hc H1).
Qed.

(** After the clock is read, the time is at least its answer. *)
Lemma ends_now {A} t (k : N → caching (option A)) :
  (∀ now, (t ≤ now)%N → ends_from now (k now)) → ends_from t (do* now := trigger Now in k now).
Proof.
  intros Hk tr since Ht Hc (now & t1 & -> & H). destruct Hc as [Hle Hc].
  exact (Hk now ltac:(lia) t1 now ltac:(lia) Hc H).
Qed.

(** ** Loops *)

Section Potential.
(** A potential, which every step that does not end the loop raises, and which is below a
    bound before it. *)
Context {S A : Type} (step : S → caching (S + A)) (potential : S → N → N) (bound : N).

Definition raises : Prop := ∀ s tr s' tail since,
  runs (step s) tr (inl s') → cache_time since (tr ++ tail) →
  ∃ since', cache_time since' tail ∧ (since ≤ since')%N ∧
    (potential s since < bound)%N ∧ (potential s since + 1 ≤ potential s' since')%N.

Lemma potential_steps n s tr s' since tail :
  raises → loop_steps step n s tr s' → cache_time since (tr ++ tail) →
  (0 < n → potential s since + (n - 1) < bound)%N ∧
  ∃ since', cache_time since' tail ∧ (since ≤ since')%N ∧
    (potential s since + n ≤ potential s' since')%N.
Proof.
  intros Hr H. revert since. induction H as [s|n s tr1 s1 tr2 s2 H1 _ IH]; intros since Hc.
  { split; [lia|]. exists since. split; [done|]. lia. }
  rewrite <-(assoc_L (++)) in Hc. destruct (Hr _ _ _ _ _ H1 Hc) as (u & Hu & Hle & Hb & Hp).
  destruct (IH _ Hu) as (Hn & u' & Hu' & Hle' & Hp'). split; [|exists u'; split; [done|lia]].
  intros _. destruct (decide (n = 0%N)) as [->|]; lia.
Qed.

(** A loop with more steps than the bound leaves ends. *)
Lemma loop_ends depth s tr since :
  raises → (bound ≤ potential s since + 2 ^ N.of_nat depth - 1)%N → cache_time since tr →
  ¬ runs (looping depth step s) tr None.
Proof.
  intros Hr Hb Hc (s' & H)%looping_open. rewrite <-(app_nil_r tr) in Hc.
  destruct (potential_steps _ _ _ _ _ _ Hr H Hc) as [Hn _].
  assert (0 < 2 ^ N.of_nat depth)%N by (by apply N.neq_0_lt_0, N.pow_nonzero).
  specialize (Hn ltac:(done)). lia.
Qed.
End Potential.

(** A polling loop ends, if its steps do. *)
Lemma polling_ends {S A} depth (step : S → caching (option (S + A))) (potential : S → N → N) bound
    s tr since :
  raises (partial_step step) potential bound → (∀ s, ends_from 0 (step s)) →
  (bound ≤ potential s since + 2 ^ N.of_nat depth - 1)%N → cache_time since tr →
  ¬ runs (polling depth step s) tr None.
Proof.
  intros Hr Hs Hb Hc (s' & n & t1 & t2 & Ht & H)%polling_open.
  rewrite Ht in Hc. destruct (potential_steps _ _ _ _ _ _ _ _ _ Hr (proj1 H) Hc) as [Hn _].
  destruct H as [H [->|H2]].
  - assert (0 < 2 ^ N.of_nat depth)%N by (by apply N.neq_0_lt_0, N.pow_nonzero).
    specialize (Hn ltac:(done)). lia.
  - apply cache_time_app in Hc as (u & _ & Hu). exact (Hs s' t2 u ltac:(lia) Hu H2).
Qed.

(** ** Draining a pipe *)

Lemma length_append a b : String.length (a +:+ b) = String.length a + String.length b.
Proof. induction a as [|c a IH]; [done|]. exact (f_equal Datatypes.S IH). Qed.

Lemma drain_raises pipe :
  raises (drain_step pipe) (λ captured _, bytes_len captured) (STDERR_CAP_BYTES + 1).
Proof.
  intros s tr s' tail since H Hc. unfold drain_step in H.
  case_bool_decide; [by destruct H|]. destruct H as (r & t1 & -> & -> & Hr). exists since.
  split; [exact Hc|]. split; [lia|]. split; [lia|].
  destruct r as [bytes| |]; [|done..]. destruct bytes as [|c bytes]; [done|]. injection Hr as ->.
  unfold bytes_len. rewrite length_append. simpl. lia.
Qed.

(** [drain] always answers. *)
Lemma drain_ends t pipe captured : ends_from t (drain pipe captured).
Proof.
  intros tr since _ Hc. eapply loop_ends; [apply drain_raises| |exact Hc].
  unfold STDERR_CAP_BYTES. change (2 ^ N.of_nat 17)%N with 131072%N. lia.
Qed.

(** A loop whose step is a poll: the time is below the deadline, and then it sleeps. *)
Lemma poll_raises {S A} (step : S → caching (S + A)) deadline :
  (∀ s tr s', runs (step s) tr (inl s') →
     ∃ pre now, tr = pre ++ [Obs Now now; Obs PollSleep tt] ∧ (now < deadline)%N) →
  raises step (λ _ since, since) deadline.
Proof.
  intros Hs s tr s' tail since H Hc. destruct (Hs _ _ _ H) as (pre & now & -> & Hlt).
  rewrite <-(assoc_L (++)) in Hc. apply cache_time_app in Hc as (u & Hu & Hle & Hc).
  exists (now + POLL_INTERVAL)%N. split; [exact Hc|]. unfold POLL_INTERVAL. lia.
Qed.

(** The deadline of a poll is not more than [2 ^ 38 - 1] nanoseconds away. *)
Lemma poll_ends {S A} t (step : S → caching (option (S + A))) budget s :
  (∀ s tr s', runs (partial_step step s) tr (inl s') →
     ∃ pre now, tr = pre ++ [Obs Now now; Obs PollSleep tt] ∧ (now < t + budget)%N) →
  (∀ s, ends_from 0 (step s)) → (budget ≤ 200 * 1000000000)%N →
  ends_from t (polling 38 step s).
Proof.
  intros Hp Hs Hb tr since Ht Hc.
  eapply polling_ends; [apply poll_raises, Hp|exact Hs| |exact Hc].
  change (2 ^ N.of_nat 38)%N with 274877906944%N. lia.
Qed.

(** ** Queries *)

Lemma query_step_ends t child pipe deadline captured :
  ends_from t (query_step child pipe deadline captured).
Proof.
  apply ends_some; [apply drain_ends|]. intros [c|e]; [|apply ends_ret].
  apply ends_bind. intros [[st|]|e]; [apply ends_ret| |apply ends_ret].
  apply ends_bind. intros []; [apply ends_ret|]. apply ends_bind. intros now.
  do 2 (case_bool_decide; [apply ends_ret|]). apply ends_bind. intros. apply ends_ret.
Qed.

Lemma query_step_polls child pipe deadline s tr s' :
  runs (partial_step (query_step child pipe deadline) s) tr (inl s') →
  ∃ pre now, tr = pre ++ [Obs Now now; Obs PollSleep tt] ∧ (now < deadline)%N.
Proof.
  intros H%partial_step_runs. apply runs_bind_inv in H as (t1 & t2 & d & -> & _ & H).
  destruct d as [[c|e]|]; [|by destruct H..].
  destruct H as (st & t3 & -> & H). cbn [bind] in H. destruct st as [[st|]|e]; [by destruct H| |by destruct H].
  destruct H as (cancelled & t4 & -> & H). cbn [bind] in H. destruct cancelled; [by destruct H|].
  destruct H as (now & t5 & -> & H). cbn [bind] in H. case_bool_decide; [by destruct H|].
  case_bool_decide; [by destruct H|]. destruct H as ([] & t6 & -> & -> & _).
  eexists (t1 ++ [_; _]), now. rewrite <-(assoc_L (++)). split; [reflexivity|lia].
Qed.

Lemma capture_ends {A} t binary (k : result ProducerBinding IoError → caching (option A)) :
  (∀ b, ends_from t (k b)) → ends_from t (do* b := capture_binding binary in k b).
Proof. apply ends_bind. Qed.

Lemma owning_ends {A} t child (p : caching (option A)) : ends_from t p → ends_from t (owning child p).
Proof. intros Hp. apply ends_some; [done|]. intros a. apply ends_bind. intros. apply ends_ret. Qed.

Lemma query_ends t binary arguments budget :
  (budget ≤ 200 * 1000000000)%N → ends_from t (read_producer_output binary arguments budget).
Proof.
  intros Hb. apply ends_bind. intros [b|e]; [|apply ends_ret].
  apply ends_bind. intros [child|e]; [|apply ends_ret]. apply owning_ends.
  apply ends_bind. intros [pipe|]; [|apply ends_ret]. apply ends_now. intros now _.
  apply ends_some.
  - apply (poll_ends _ _ budget); [apply query_step_polls|intros; apply query_step_ends|done].
  - intros [q|captured]; [apply ends_ret|]. apply ends_some; [apply drain_ends|].
    intros [c|e]; [|apply ends_ret]. case_bool_decide; [apply ends_ret|]. apply ends_bind.
    intros. apply ends_ret.
Qed.

Lemma discovery_ends {A} t (attempt : string → caching (option (Candidate A))) texts paths
    present unsupported reason :
  (∀ path, ends_from t (attempt path)) →
  ends_from t (discover_candidates attempt texts paths present unsupported reason).
Proof.
  intros Ha. revert present unsupported reason.
  induction paths as [|path paths IH]; intros present unsupported reason; [apply ends_ret|].
  apply ends_bind. intros []; [apply ends_ret|]. apply ends_some; [done|].
  intros []; try apply ends_ret; apply IH.
Qed.

(** ** Children *)

(** The last calls: the child was seen to have exited, or it was killed and waited for. *)
Definition reaped (child : N) (tr : cache_trace) : Prop :=
  (∃ status, tr = [Obs (TryWait child) (Ok (Some status))]) ∨
  (∃ answer, tr = [Obs (TryWait child) answer; Obs (KillChild child) tt; Obs (WaitChild child) tt]).

Lemma reap_runs child tr u : runs (reap child) tr u → reaped child tr.
Proof.
  intros (st & t1 & -> & H). cbn [bind] in H. destruct st as [[st|]|e].
  - destruct H as [-> _]. left. by exists st.
  - destruct H as ([] & t2 & -> & [] & t3 & -> & -> & _). right. by exists (Ok None).
  - destruct H as ([] & t2 & -> & [] & t3 & -> & -> & _). right. by exists (Err e).
Qed.

Lemma owning_reaps {A} child (p : caching (option A)) tr a :
  runs (owning child p) tr (Some a) →
  ∃ run last, tr = run ++ last ∧ runs p run (Some a) ∧ reaped child last.
Proof.
  intros (t1 & t2 & [b|] & -> & Hp & H)%runs_bind_inv; [|by destruct H].
  apply runs_bind_inv in H as (t3 & t4 & u & -> & Hr%reap_runs & -> & [= ->]).
  rewrite app_nil_r. by exists t1, t3.
Qed.

(** A call that starts, stops and kills no child. *)
Definition childless (X : Type) (e : CacheE X) : Prop :=
  match e with Spawn _ | KillChild _ | WaitChild _ => False | _ => True end.

Lemma childless_drain pipe captured : confined childless (drain pipe captured).
Proof.
  apply confined_looping. intros s. unfold drain_step. case_bool_decide; [exact I|]. by split.
Qed.

Lemma childless_capture binary : confined childless (capture_binding binary).
Proof. split; [exact I|]. intros u. split; [exact I|]. by intros [?|?]. Qed.

Lemma childless_bound binary binding : confined childless (still_bound binary binding).
Proof. apply confined_bind; [apply childless_capture|]. by intros [?|?]. Qed.

Lemma childless_some {A B} (p : caching (option A)) (k : A → caching (option B)) :
  confined childless p → (∀ a, confined childless (k a)) → confined childless (some* a := p in k a).
Proof. intros Hp Hk. apply confined_bind; [done|]. by intros [a|]. Qed.

Lemma childless_query_step child pipe deadline captured :
  confined childless (query_step child pipe deadline captured).
Proof.
  apply childless_some; [apply childless_drain|]. intros [c|e]; [|exact I].
  split; [exact I|]. intros [[st|]|e]; [exact I| |exact I]. split; [exact I|]. intros []; [exact I|].
  split; [exact I|]. intros now. cbn [bind]. do 2 (case_bool_decide; [exact I|]). by split.
Qed.

(** The body of a query, between the start of its child and the end. *)
Lemma childless_query binary binding child query_budget :
  confined childless
    (do* reader := nonblocking (child_pipe child) in
     match reader with
     | None => Ret (Some QueryOutputReadFailed)
     | Some pipe =>
         do* started := trigger Now in
         some* r := polling 38 (query_step (child_id child) pipe (started + query_budget)) "" in
         match r with
         | inl outcome => Ret (Some outcome)
         | inr captured => query_result binary binding pipe captured
         end
     end).
Proof.
  apply confined_bind; [by split|]. intros [pipe|]; [|exact I].
  apply confined_bind; [by split|]. intros started. apply childless_some.
  - apply confined_polling. intros s. apply childless_query_step.
  - intros [q|captured]; [exact I|]. apply childless_some; [apply childless_drain|].
    intros [c|e]; [|exact I]. case_bool_decide; [exact I|].
    apply confined_bind; [apply childless_bound|]. by intros [].
Qed.

(** A call that is not about a child. *)
Definition without_child (o : obs CacheE) : Prop := match o with @Obs _ X e _ => childless X e end.

Lemma childless_trace {A} (p : caching A) tr a :
  confined childless p → runs p tr a → Forall without_child tr.
Proof.
  revert tr. induction p as [b|X e k IH]; intros tr Hc Hr; [by destruct Hr as [-> _]|].
  destruct Hc as [He Hc], Hr as (x & t & -> & Hr). constructor; [done|]. by eapply IH.
Qed.

(** A trace with at most one child, which is reaped at its end; only it may be killed. *)
Inductive one_child : cache_trace → Prop :=
| child_none tr : Forall without_child tr → one_child tr
| child_failed pre c e :
    Forall without_child pre → one_child (pre ++ [Obs (Spawn c) (Err e)])
| child_reaped pre c child run last :
    Forall without_child pre → Forall without_child run → reaped (child_id child) last →
    one_child (pre ++ Obs (Spawn c) (Ok child) :: run ++ last).

Lemma one_child_before pre tr : Forall without_child pre → one_child tr → one_child (pre ++ tr).
Proof.
  intros Hp H. destruct H as [tr H|p c e H|p c child run last H Hr Hl].
  - apply child_none. by apply Forall_app.
  - rewrite (assoc_L (++)). apply child_failed. by apply Forall_app.
  - rewrite (assoc_L (++)). apply child_reaped; [|done|done]. by apply Forall_app.
Qed.

Lemma query_one_child binary arguments budget tr q :
  runs (read_producer_output binary arguments budget) tr (Some q) → one_child tr.
Proof.
  intros (t1 & t2 & b & -> & Hb%(childless_trace _ _ _ (childless_capture binary)) & H)%runs_bind_inv.
  apply one_child_before; [done|]. destruct b as [b|e]; [|destruct H as [-> _]; by apply child_none].
  destruct H as (child & t3 & -> & H). cbn [bind] in H.
  destruct child as [child|e]; [|destruct H as [-> _]; by apply (child_failed [])].
  apply owning_reaps in H as (run & last & -> & Hrun & Hl).
  apply (child_reaped []); [done| |done]. by apply (childless_trace _ _ _ (childless_query binary b child budget)) in Hrun.
Qed.
