(* ===== verification/NodeCache.v ===== *)
(** NodeCache: the maintenance of Node's compile cache,
    [unlinger-daemon/src/node_compile_cache.rs], over the calls of [Producer.v]. *)

From S2P Require Import Prelude Text Store Protocol Effects Procargs Producer.
From Stdlib Require Import Ascii.

Definition SUPPORTED_NODE_VERSION : string := "v26.7.0".

Definition ROOT_NAME : string := "node-compile-cache".

Definition MAGIC : N := 0x8adfdbb2.

Definition MAX_ENTRIES : N := 65536.

Definition MAX_SCAN_BYTES : N := 2 * 1024 * 1024 * 1024.

(** [BUDGET], in nanoseconds. *)
Definition BUDGET : N := 120 * 1000000000.

Definition NODE_INFO : string :=
  "console.log(JSON.stringify({version:process.version,arch:process.arch,tag:require('node:v8').cachedDataVersionTag().toString(16).padStart(8,'0'),uid:process.getuid()}))".

(** ** Checksums *)

(** [u32] negation that wraps: [0u32.wrapping_sub]. *)
Definition wrapping_neg32 (x : N) : N := (2 ^ 32 - x) `mod` 2 ^ 32.

(** One bit of [crc_table]. *)
Definition crc_bit (crc : N) : N :=
  N.lxor (N.shiftr crc 1) (N.land 0xedb88320 (wrapping_neg32 (N.land crc 1))).

(** [crc_table]. *)
Definition crc_table : list N := (λ i, Nat.iter 8 crc_bit (N.of_nat i)) <$> seq 0 256.

Definition CRC : list N := Eval vm_compute in crc_table.

Definition update_byte (crc : N) (byte : ascii) : N :=
  N.lxor (default 0%N (CRC !! N.to_nat (N.land (N.lxor crc (code byte)) 255))) (N.shiftr crc 8).

(** [update_crc]. *)
Definition update_crc (crc : N) (bytes : string) : N :=
  fold_left update_byte (String.list_ascii_of_string bytes) crc.

(** [u32] negation of bits. *)
Definition not32 (x : N) : N := N.lxor x (2 ^ 32 - 1).

(** ** Names and files *)

(** [hex_name]. *)
Definition hex_name (value : string) : bool :=
  bool_decide (String.length value = 8) && all_bytes is_lower_hex value.

(** The name of a temporary file of the producer, in [scan_entries]. *)
Definition temporary_name (value : string) : bool :=
  bool_decide (String.length value = 15)
  && hex_name (String.substring 0 8 value)
  && bool_decide (String.get 8 value = Some "."%char)
  && all_bytes is_ascii_alphanumeric (String.substring 9 6 value).

(** [Identity]. *)
Record Identity : Type := mkIdentity {
  id_device : N;
  id_inode : N;
  id_length : N;
  id_modified : Z * Z;
  id_changed : Z * Z;
}.

#[export] Instance Identity_eq_dec : EqDecision Identity.
Proof. solve_decision. Defined.

(** [Identity::of]. *)
Definition identity_of_file (m : Metadata) : Identity :=
  mkIdentity (md_dev m) (md_ino m) (md_len m) (md_mtime m, md_mtime_nsec m)
    (md_ctime m, md_ctime_nsec m).

(** [Identity::same_object]. *)
Definition same_object (i : Identity) (m : Metadata) : bool :=
  bool_decide (id_device i = md_dev m) && bool_decide (id_inode i = md_ino m).

(** [Entry]. *)
Record Entry : Type := mkEntry {
  entry_file : string;
  entry_identity : Identity;
}.

#[export] Instance Entry_eq_dec : EqDecision Entry.
Proof. solve_decision. Defined.

(** Two tests, the second only if the first holds. *)
Definition both (a b : caching bool) : caching bool :=
  do* x := a in if x : bool then b else Ret false.

(** [safe_directory]. *)
Definition safe_directory (m : Metadata) : caching bool :=
  both (Ret (is_dir m))
    (do* euid := trigger CacheEuid in Ret (bool_decide (md_uid m = euid) && guarded m)).

(** [safe_file]. *)
Definition safe_file (m : Metadata) : caching bool :=
  both (Ret (is_file m))
    (do* euid := trigger CacheEuid in
     Ret (bool_decide (md_uid m = euid) && bool_decide (md_nlink m = 1%N) && guarded m)).

(** [entry_metadata]. *)
Definition entry_metadata (parent : N) (name : string) : caching (result Metadata IoError) :=
  do? file := trigger (OpenIn parent name false) in
  trigger (StatFd file).

(** A test of metadata that were read: [is_ok_and]. *)
Definition is_ok_and (r : result Metadata IoError) (p : Metadata → caching bool) : caching bool :=
  match r with Ok m => p m | Err _ => Ret false end.

(** A safe file of that identity. *)
Definition safe_file_of (i : Identity) (m : Metadata) : caching bool :=
  both (safe_file m) (Ret (bool_decide (identity_of_file m = i))).

(** A safe directory that is the same object. *)
Definition safe_directory_of (i : Identity) (m : Metadata) : caching bool :=
  both (safe_directory m) (Ret (same_object i m)).

(** [directory_names]: all entries but the directory and its parent, up to a budget. *)
Definition directory_names (directory : N) : caching (result (list string) IoError) :=
  do? names := trigger (DirectoryStream directory) in
  let names := filter (λ name, name ≠ "." ∧ name ≠ "..") names in
  Ret (if bool_decide (N.of_nat (length names) ≤ MAX_ENTRIES)%N then Ok names
       else Err (IoOther "node cache entry budget exceeded")).

(** ** The scan *)

(** [ScanError]. *)
Inductive ScanError : Type := ScanBusy | ScanUnsafe | ScanIo.

(** The byte at an index. *)
Definition byte_at (s : string) (i : nat) : N :=
  match String.get i s with Some c => code c | None => 0 end.

(** A word of the header: [u32::from_le_bytes]. *)
Definition header_word (header : string) (i : nat) : N :=
  byte_at header (i * 4) + 256 * byte_at header (i * 4 + 1)
  + 65536 * byte_at header (i * 4 + 2) + 16777216 * byte_at header (i * 4 + 3).

(** The caller cancelled, or the deadline is reached. *)
Definition cancelled_or_late (deadline : N) : caching bool :=
  do* cancelled := trigger CancelProbe in
  if cancelled : bool then Ret true else
  do* now := trigger Now in Ret (bool_decide (deadline ≤ now)%N).

(** An iteration of the loop of [validate_cache_file], with the checksum so far. *)
Definition checksum_step (file deadline crc : N) : caching (N + result N ScanError) :=
  do* stop := cancelled_or_late deadline in
  if stop then Ret (inr (Err ScanUnsafe)) else
  do* chunk := trigger (ReadFile file 65536) in
  Ret (match chunk with
       | Err _ => inr (Err ScanIo)
       | Ok chunk => if is_empty chunk then inr (Ok crc) else inl (update_crc crc chunk)
       end).

(** [validate_cache_file]; [None] is a file that is still read when the steps of the loop
    are used up. *)
Definition validate_cache_file (file length deadline : N) : caching (option (result unit ScanError)) :=
  do* header := trigger (ReadExact file 20) in
  match header with
  | Err _ => Ret (Some (Err ScanIo))
  | Ok header =>
      if negb (bool_decide (String.length header = 20)) then Ret (Some (Err ScanIo))
      else if negb (bool_decide (header_word header 0 = MAGIC))
              || negb (bool_decide (header_word header 2 + 20 = length)%N)
      then Ret (Some (Err ScanUnsafe)) else
      some* crc := looping 38 (checksum_step file deadline) (2 ^ 32 - 1)%N in
      Ret (Some (let? crc := crc in
                 guard? bool_decide (not32 crc = header_word header 4) else ScanUnsafe in
                 Ok tt))
  end.

(** A file of the bucket with its total, in [scan_entries]. *)
Definition scan_file (bucket deadline : N) (name : string) (total : N) :
    caching (option (result (Entry * N) ScanError)) :=
  do* file := trigger (OpenIn bucket name false) in
  match file with
  | Err _ => Ret (Some (Err ScanIo))
  | Ok file =>
      do* m := trigger (StatFd file) in
      match m with
      | Err _ => Ret (Some (Err ScanIo))
      | Ok m =>
          do* safe := safe_file m in
          if negb safe || bool_decide (md_len m < 20)%N then Ret (Some (Err ScanUnsafe)) else
          match checked_add total (md_len m) with
          | None => Ret (Some (Err ScanUnsafe))
          | Some total =>
              if bool_decide (MAX_SCAN_BYTES < total)%N then Ret (Some (Err ScanUnsafe)) else
              some* valid := validate_cache_file file (md_len m) deadline in
              match valid with
              | Err e => Ret (Some (Err e))
              | Ok _ =>
                  do* after := trigger (StatFd file) in
                  match after with
                  | Err _ => Ret (Some (Err ScanIo))
                  | Ok after =>
                      if negb (bool_decide (identity_of_file m = identity_of_file after))
                      then Ret (Some (Err ScanBusy)) else
                      do* current := entry_metadata bucket name in
                      do* same := is_ok_and current (safe_file_of (identity_of_file m)) in
                      Ret (Some (if negb same then Err ScanBusy
                                 else Ok (mkEntry name (identity_of_file m), total)))
                  end
              end
          end
      end
  end.

(** A name that is not of a final file: it must be a safe temporary file. *)
Definition scan_temporary (bucket : N) (name : string) : caching (result unit ScanError) :=
  if negb (temporary_name name) then Ret (Err ScanUnsafe) else
  do* m := entry_metadata bucket name in
  match m with
  | Err _ => Ret (Err ScanIo)
  | Ok m => do* safe := safe_file m in Ret (if safe then Ok tt else Err ScanUnsafe)
  end.

(** The loop of [scan_entries]. *)
Fixpoint scan_names (bucket deadline : N) (names : list string) (total : N) (found : list Entry) :
    caching (option (result (list Entry) ScanError)) :=
  match names with
  | [] => Ret (Some (Ok found))
  | name :: names =>
      do* stop := cancelled_or_late deadline in
      if stop then Ret (Some (Err ScanUnsafe))
      else if hex_name name then
        some* r := scan_file bucket deadline name total in
        match r with
        | Err e => Ret (Some (Err e))
        | Ok (entry, total) => scan_names bucket deadline names total (found ++ [entry])
        end
      else
        do* r := scan_temporary bucket name in
        match r with
        | Err e => Ret (Some (Err e))
        | Ok _ => scan_names bucket deadline names total found
        end
  end.

(** [scan_entries]. *)
Definition scan_entries (bucket deadline : N) : caching (option (result (list Entry) ScanError)) :=
  do* names := directory_names bucket in
  match names with
  | Err _ => Ret (Some (Err ScanIo))
  | Ok names => scan_names bucket deadline (merge_sort String.le names) 0 []
  end.

(** ** The maintenance *)

(** [NodeCompileCacheMaintenance]. *)
Record NodeCompileCacheMaintenance : Type := mkNodeCompileCacheMaintenance {
  producer : string;
  binding : ProducerBinding;
  temp : N;
  temp_path : string;
  temp_identity : Identity;
  root : N;
  bucket : N;
  bucket_name : string;
  root_identity : Identity;
  bucket_identity : Identity;
  entries : list Entry;
}.

(** [NodeCompileCacheResult]. *)
Record NodeCompileCacheResult : Type := mkNodeCompileCacheResult {
  node_outcome : ToolCacheOutcome;
  node_removed_entry_count : option N;
  node_removed_logical_bytes : option N;
}.

(** [NodeCompileCacheResult::unsuccessful]. *)
Definition unsuccessful (outcome : ToolCacheOutcome) : NodeCompileCacheResult :=
  mkNodeCompileCacheResult outcome None None.

(** The temporary directory, opened anew, in [bindings_current]. *)
Definition temp_metadata (path : string) : caching (result Metadata IoError) :=
  do? file := trigger (OpenDirectory path true) in
  trigger (StatFd file).

(** [NodeCompileCacheMaintenance::bindings_current]. *)
Definition bindings_current (v : NodeCompileCacheMaintenance) : caching bool :=
  both (still_bound (producer v) (binding v))
    (both (do* m := temp_metadata (temp_path v) in is_ok_and m (safe_directory_of (temp_identity v)))
       (both (do* m := entry_metadata (temp v) ROOT_NAME in
              is_ok_and m (safe_directory_of (root_identity v)))
          (do* m := entry_metadata (root v) (bucket_name v) in
           is_ok_and m (safe_directory_of (bucket_identity v))))).

(** The error of a directory that could not be opened. *)
Definition open_error (absent failed : string) (e : IoError) : CacheDiscoveryError :=
  match e with
  | IoNotFound => mkCacheDiscoveryError CacheAbsent absent
  | IoOther _ => unavailable failed
  end.

(** A directory that was opened, with its metadata, if they are safe. *)
Definition checked_directory (file : N) (unread unsafe : string) :
    caching (result (N * Metadata) CacheDiscoveryError) :=
  do* m := trigger (StatFd file) in
  match m with
  | Err _ => Ret (Err (unavailable unread))
  | Ok m =>
      do* safe := safe_directory m in
      Ret (if safe then Ok (file, m) else Err (unavailable unsafe))
  end.

(** The three directories, in [open_at]. *)
Definition open_directories (path bucket_name : string) :
    caching (result (N * Metadata * (N * Metadata) * (N * Metadata)) CacheDiscoveryError) :=
  do* temp := trigger (OpenDirectory path true) in
  match temp with
  | Err _ => Ret (Err (unavailable "Node default temporary root could not be opened"))
  | Ok temp =>
      do? temp :=
        checked_directory temp "Node default temporary root metadata could not be read"
          "Node default temporary root has unsafe metadata" in
      do* root := trigger (OpenIn temp.1 ROOT_NAME true) in
      match root with
      | Err e =>
          Ret (Err (open_error "Node compile-cache root is absent"
                      "Node compile-cache root could not be opened" e))
      | Ok root =>
          do? root :=
            checked_directory root "Node compile-cache root metadata could not be read"
              "Node compile-cache root has unsafe metadata" in
          do* bucket := trigger (OpenIn root.1 bucket_name true) in
          match bucket with
          | Err e =>
              Ret (Err (open_error "Node cache bucket is absent"
                          "Node cache bucket could not be opened" e))
          | Ok bucket =>
              do? bucket :=
                checked_directory bucket "Node cache bucket metadata could not be read"
                  "Node cache bucket has unsafe metadata" in
              Ret (Ok (temp, root, bucket))
          end
      end
  end.

(** [NodeCompileCacheMaintenance::open_at]. *)
Definition open_at (path producer : string) (binding : ProducerBinding) (bucket_name : string) :
    caching (option (result NodeCompileCacheMaintenance CacheDiscoveryError)) :=
  do* started := trigger Now in
  let deadline := (started + BUDGET)%N in
  do* opened := open_directories path bucket_name in
  match opened with
  | Err e => Ret (Some (Err e))
  | Ok (temp, root, bucket) =>
      some* scanned := scan_entries bucket.1 deadline in
      match scanned with
      | Err _ => Ret (Some (Err (unavailable "Node cache bucket could not be scanned completely")))
      | Ok entries =>
          let value :=
            mkNodeCompileCacheMaintenance producer binding temp.1 path (identity_of_file temp.2)
              root.1 bucket.1 bucket_name (identity_of_file root.2) (identity_of_file bucket.2)
              entries in
          do* current := bindings_current value in
          Ret (Some (if current then Ok value
                     else Err (unavailable
                                 "Node producer or cache identity changed while opening")))
      end
  end.

(** Whether the entries are the frozen ones. *)
Definition same_entries (current frozen : list Entry) : bool := bool_decide (current = frozen).

(** The checks of an entry before it is unlinked, in [remove_files]. *)
Definition confirm_entry (v : NodeCompileCacheMaintenance) (deadline : N) (e : Entry) : caching bool :=
  do* stop := cancelled_or_late deadline in
  if stop then Ret false else
  do* current := bindings_current v in
  if negb current then Ret false else
  do* file := trigger (OpenIn (bucket v) (entry_file e) false) in
  match file with
  | Err _ => Ret false
  | Ok file =>
      do* m := trigger (StatFd file) in
      match m with
      | Err _ => Ret false
      | Ok m =>
          both (safe_file_of (entry_identity e) m)
            (both (do* m := entry_metadata (bucket v) (entry_file e) in
                   is_ok_and m (safe_file_of (entry_identity e)))
               (do* cancelled := trigger CancelProbe in Ret (negb cancelled)))
      end
  end.

(** The loop of [remove_files], with the count and the bytes so far. *)
Fixpoint remove_plan (v : NodeCompileCacheMaintenance) (deadline : N) (plan : list Entry)
    (count bytes : N) : caching NodeCompileCacheResult :=
  match plan with
  | [] => Ret (mkNodeCompileCacheResult CacheCompleted (Some count) (Some bytes))
  | e :: plan =>
      do* confirmed := confirm_entry v deadline e in
      if negb confirmed then Ret (unsuccessful CacheFailed) else
      do* unlinked := trigger (UnlinkIn (bucket v) (entry_file e)) in
      match unlinked with
      | Err _ => Ret (unsuccessful CacheDeliveryUnknown)
      | Ok _ => remove_plan v deadline plan (count + 1) (bytes + id_length (entry_identity e))
      end
  end.

(** [NodeCompileCacheMaintenance::remove_files]; [execute] is it with the lifecycle's probe
    for cancellation. *)
Definition remove_files (v : NodeCompileCacheMaintenance) : caching (option NodeCompileCacheResult) :=
  do* started := trigger Now in
  let deadline := (started + BUDGET)%N in
  do* cancelled := trigger CancelProbe in
  if cancelled : bool then Ret (Some (unsuccessful CacheFailed)) else
  do* current := bindings_current v in
  if negb current then Ret (Some (unsuccessful CacheFailed)) else
  some* scanned := scan_entries (bucket v) deadline in
  match scanned with
  | Err ScanBusy => Ret (Some (unsuccessful CacheBusy))
  | Err _ => Ret (Some (unsuccessful CacheFailed))
  | Ok current =>
      if negb (same_entries current (entries v)) then Ret (Some (unsuccessful CacheBusy)) else
      do* r := remove_plan v deadline (entries v) 0 0 in Ret (Some r)
  end.

(** [NodeCompileCacheMaintenance::observe]. *)
Definition observe_node (v : NodeCompileCacheMaintenance) : caching (option ToolCacheAvailability) :=
  do* current := bindings_current v in
  if negb current then Ret (Some CacheUnavailable) else
  do* started := trigger Now in
  some* scanned := scan_entries (bucket v) (started + BUDGET)%N in
  Ret (Some (match scanned with Ok _ => CacheAvailable | Err _ => CacheUnavailable end)).

(** ** Discovery *)

(** [ProducerInfo]. *)
Record ProducerInfo : Type := mkProducerInfo {
  info_version : string;
  info_arch : string;
  info_tag : string;
  info_uid : N;
}.

Section Discovery.
(** [std::env::consts::ARCH]. *)
Variable ARCH : string.
Context `{JI : Json ProducerInfo}.

(** The name of the bucket; [None] if it holds a NUL. *)
Definition bucket_text (i : ProducerInfo) : option string :=
  let name :=
    info_version i +:+ "-" +:+ info_arch i +:+ "-" +:+ info_tag i +:+ "-" +:+ show_N (info_uid i) in
  if nul_free name then Some name else None.

(** [ProducerInfo::bucket]. *)
Definition bucket_of_info (i : ProducerInfo) : caching (option string) :=
  if bool_decide (info_version i = SUPPORTED_NODE_VERSION)
     && bool_decide (info_arch i = replace_text "aarch64" "arm64" ARCH)
     && hex_name (info_tag i)
  then
    do* euid := trigger CacheEuid in
    Ret (if bool_decide (info_uid i = euid) then bucket_text i else None)
  else Ret None.

(** [producer_paths]. *)
Definition producer_paths : caching (list string) :=
  do* home := trigger HomeVariable in
  Ret (["/opt/homebrew/bin/node"; "/usr/local/bin/node"]
       ++ match home with Some home => [path_join home ".local/bin/node"] | None => [] end).

(** The answer of a query that gave no output. *)
Definition query_failure {A} (q : ProducerQuery) : Candidate A :=
  match q with
  | QueryOutput _ => CandidateUnproved "Node producer query output was malformed"
  | QueryCancelled => CandidateRefused "Node producer query was cancelled"
  | QueryBindingChanged => CandidateUnproved "Node producer binding changed"
  | QuerySpawnFailed => CandidateUnproved "Node producer query could not start"
  | QueryExited => CandidateUnproved "Node producer query exited unsuccessfully"
  | QueryTimedOut => CandidateUnproved "Node producer query timed out"
  | QueryOutputOverflow => CandidateUnproved "Node producer query output exceeded its cap"
  | QueryOutputReadFailed => CandidateUnproved "Node producer query output could not be read"
  | QueryMalformedBytes => CandidateUnproved "Node producer query output was not UTF-8"
  end.

(** The candidate, if its path is there: the producer at its real path answers the query. *)
Definition try_path (query_budget : N) (path : string) :
    caching (option (Candidate (string * ProducerBinding * ProducerInfo))) :=
  do* real := trigger (RealPath path) in
  match real with
  | Err _ => Ret (Some (CandidateUnproved "Node producer path could not be proved"))
  | Ok path =>
      do* binding := capture_binding path in
      match binding with
      | Err _ => Ret (Some (CandidateUnproved "Node producer metadata is not safely bound"))
      | Ok binding =>
          some* q := read_producer_output path ["--eval"; NODE_INFO] query_budget in
          match q with
          | QueryOutput output =>
              match json_from_str (trim output) with
              | Err _ => Ret (Some (query_failure (QueryOutput output)))
              | Ok info =>
                  do* same := still_bound path binding in
                  if negb same
                  then Ret (Some (CandidateUnproved "Node producer binding changed during query"))
                  else
                    do* name := bucket_of_info info in
                    Ret (Some (match name with
                               | Some _ => CandidateProved (path, binding, info)
                               | None => CandidateUnsupported
                               end))
              end
          | q => Ret (Some (query_failure q))
          end
      end
  end.

(** An iteration of [discover_producer_at], after the probe for cancellation. *)
Definition try_candidate (query_budget : N) (path : string) :
    caching (option (Candidate (string * ProducerBinding * ProducerInfo))) :=
  do* present := trigger (LinkStat path) in
  match present with
  | Err IoNotFound => Ret (Some CandidateAbsent)
  | _ => try_path query_budget path
  end.

(** [discover_producer_at]. *)
Definition discover_producer_at (paths : list string) (query_budget : N) :
    caching (option (result (string * ProducerBinding * ProducerInfo) CacheDiscoveryError)) :=
  discover_candidates (try_candidate query_budget)
    (mkDiscoveryTexts "Node producer discovery was cancelled"
       "Node producer is absent from fixed prefixes"
       "Node producer version, architecture, cache format, or owner is unsupported"
       "Node producer could not be proved") paths false false None.

(** [default_temp_root]. *)
Definition default_temp_root : caching (result string IoError) :=
  do* needed := trigger ConfStrSize in
  if bool_decide (needed = 0%N) || bool_decide (4096 < needed)%N
  then Ret (Err (IoOther "Darwin temp root unavailable")) else
  do* value := trigger (ConfStr needed) in
  if negb (bool_decide (value.1 = needed)) then Ret (Err (IoOther "Darwin temp root changed")) else
  match cut_nul value.2 with
  | Some (path, rest) =>
      if is_empty rest then trigger (RealPath path)
      else Ret (Err (IoOther "invalid Darwin temp root"))
  | None => Ret (Err (IoOther "invalid Darwin temp root"))
  end.

(** [NodeCompileCacheMaintenance::discover]. *)
Definition discover_node : caching (option (result NodeCompileCacheMaintenance CacheDiscoveryError)) :=
  do* paths := producer_paths in
  some* found := discover_producer_at paths PRODUCER_QUERY_BUDGET in
  match found with
  | Err e => Ret (Some (Err e))
  | Ok (path, binding, info) =>
      do* name := bucket_of_info info in
      match name with
      | None =>
          Ret (Some (Err (mkCacheDiscoveryError CacheUnsupported
            "Node version, architecture, cache format, or owner is unsupported")))
      | Some name =>
          do* temp := default_temp_root in
          match temp with
          | Err _ =>
              Ret (Some (Err (unavailable "Node default temporary root could not be proved")))
          | Ok temp => open_at temp path binding name
          end
      end
  end.
End Discovery.
