(* ===== verification/UvCache.v ===== *)
(** UvCache: the maintenance of the uv cache, [unlinger-daemon/src/tool_cache.rs], over the
    calls of [Producer.v].

    The daemon starts a supervisor, the same executable in another mode, over a pipe with a
    capability; the supervisor starts [uv cache prune] and answers with a JSON object. *)

From S2P Require Import Prelude Text Store Protocol Effects Procargs Producer.
From Stdlib Require Import Ascii.

(** ** Constants *)

Definition EXPECTED_UV_VERSION : string := "0.11.20".

Definition FIXED_PREFIXES : list string := ["/opt/homebrew/bin"; "/usr/local/bin"].

Definition HOME_PREFIX_BIN : string := ".local/bin".

Definition HOME_CACHE_UV : string := ".cache/uv".

Definition STDOUT_CAP_BYTES : N := 16 * 1024.

Definition DEFAULT_RUNTIME_BUDGET : N := 120 * 1000000000.

Definition NATIVE_LOCK_TIMEOUT_SECS : N := 15.

Definition SUPERVISOR_SETTLE_GRACE : N := (NATIVE_LOCK_TIMEOUT_SECS + 10) * 1000000000.

Definition BUSY_PHASE_MARKER : string := "Cache is currently in-use, waiting for other uv processes".

Definition BUSY_TIMEOUT_MARKER : string := "when waiting for lock on".

Definition MUTATION_START_MARKER : string := "Pruning cache at:".

Definition SUMMARY_NO_UNUSED : string := "No unused entries found".

Definition SUMMARY_NO_CACHE : string := "No cache found at:".

Definition SUMMARY_REMOVED_PREFIX : string := "Removed ".

Definition NATIVE_CACHE_CHILD_FLAG : string := "--native-cache-child".

Definition NATIVE_CACHE_CAPABILITY_FLAG : string := "--native-cache-capability-fd".

(** ** Data *)

(** [NativeCacheCapability]. *)
Record NativeCacheCapability : Type := mkNativeCacheCapability {
  cap_token : string;
  cap_epoch : string;
  root_device : N;
  root_inode : N;
  cap_binding : ProducerBinding;
}.

(** [ToolCacheNativeResult]. *)
Record ToolCacheNativeResult : Type := mkToolCacheNativeResult {
  native_outcome : ToolCacheOutcome;
  native_removed_entry_count : option N;
  native_removed_logical_bytes : option N;
}.

Definition delivery_unknown : ToolCacheNativeResult :=
  mkToolCacheNativeResult CacheDeliveryUnknown None None.

(** [SupervisorResult]. *)
Record SupervisorResult : Type := mkSupervisorResult {
  sup_outcome : string;
  sup_removed_entry_count : option N;
  sup_removed_logical_bytes : option N;
}.

(** ** The summary of the producer *)

(** The unit of a byte figure, as the exponent of its multiplier. *)
Definition unit_shift (unit : string) : option Z :=
  if bool_decide (unit = "B") then Some 0%Z
  else if bool_decide (unit = "KiB") then Some 10%Z
  else if bool_decide (unit = "MiB") then Some 20%Z
  else if bool_decide (unit = "GiB") then Some 30%Z
  else if bool_decide (unit = "TiB") then Some 40%Z
  else None.

Definition is_letter (c : ascii) : bool := in_range 65 90 c || in_range 97 122 c.

(** The text before the first letter, and the rest. *)
Fixpoint split_letter (s : string) : string * string :=
  match s with
  | EmptyString => ("", "")
  | String c rest =>
      if is_letter c then ("", s)
      else let '(before, after) := split_letter rest in (String c before, after)
  end.

(** [value * 2 ^ shift] as [u64], if it is not above the largest one as [f64], which is
    [2 ^ 64]; the multiplication by a power of two is exact or infinite. *)
Definition scaled_u64 (value : float64) (shift : Z) : option N :=
  let e := (exponent value + shift)%Z in
  let num := (significand value * 2 ^ Z.max 0 e)%Z in
  let den := (2 ^ Z.max 0 (- e))%Z in
  if bool_decide (2 ^ 64 * den < num)%Z then None
  else Some (N.min (Z.to_N (num / den)) (u64_bound - 1)).

(** [parse_human_bytes]. *)
Definition parse_human_bytes (text : string) : option N :=
  let '(number, unit) := split_letter (trim text) in
  '(negative, value) ← parse_decimal (trim number);
  value ← value;
  if negative && bool_decide (significand value ≠ 0)%Z then None else
  shift ← unit_shift (trim unit);
  scaled_u64 value shift.

(** [parse_removed_line]. *)
Definition parse_removed_line (rest : string) : option (N * N) :=
  '(count_text, remainder) ← split_once " "%char rest;
  let remainder := trim remainder in
  count ← parse_u64 count_text;
  '(before_open, after_open) ← split_once "("%char remainder;
  '(before_close, after_close) ← split_once ")"%char remainder;
  if negb (bool_decide (String.length before_open < String.length before_close))
     || negb (is_empty after_close) then None else
  let noun := trim before_open in
  if negb (bool_decide (noun ∈ ["file"; "files"; "directory"; "directories"])) then None else
  let figure :=
    String.substring 0 (String.length before_close - String.length before_open - 1) after_open in
  bytes ← parse_human_bytes figure;
  Some (count, bytes).

(** [HumanSummary]. *)
Inductive HumanSummary : Type :=
| SummaryRemoved (count bytes : N)
| SummaryNoWork
| SummaryUnrecognized.

(** The loop of [parse_human_summary], with whether a line that says so was seen. *)
Fixpoint summary_of_lines (found : list string) (no_work : bool) : HumanSummary :=
  match found with
  | [] => if no_work then SummaryNoWork else SummaryUnrecognized
  | line :: found =>
      let line := trim line in
      if bool_decide (line = SUMMARY_NO_UNUSED) then summary_of_lines found true
      else if starts_with SUMMARY_NO_CACHE line then summary_of_lines found true
      else match strip_prefix SUMMARY_REMOVED_PREFIX line with
           | None => summary_of_lines found no_work
           | Some rest =>
               match parse_removed_line rest with
               | Some (count, bytes) => SummaryRemoved count bytes
               | None => SummaryUnrecognized
               end
           end
  end.

(** [parse_human_summary]. *)
Definition parse_human_summary (stderr : string) : HumanSummary :=
  summary_of_lines (lines stderr) false.

(** ** The supervisor *)

(** The result that says nothing about what was done. *)
Definition unknown_result : SupervisorResult := mkSupervisorResult "deliveryUnknown" None None.

(** The result of a child that has ended, from its status and its output. *)
Definition result_of_child (status : option Z) (stderr_text : string) : SupervisorResult :=
  if negb (exited_well status) then
    if bool_decide (status = Some 2%Z)
       && contains BUSY_PHASE_MARKER stderr_text
       && contains BUSY_TIMEOUT_MARKER stderr_text
       && negb (contains MUTATION_START_MARKER stderr_text)
    then mkSupervisorResult "busy" None None
    else unknown_result
  else
    match parse_human_summary stderr_text with
    | SummaryRemoved count bytes => mkSupervisorResult "completed" (Some count) (Some bytes)
    | SummaryNoWork => mkSupervisorResult "completed" (Some 0%N) (Some 0%N)
    | SummaryUnrecognized => mkSupervisorResult "completed" None None
    end.

(** An iteration of the loop of [execute_supervisor]: what it has read so far, and then the
    unknown result, or the status with what was read. *)
Definition supervise_step (child pipe parent deadline : N) (captured : string) :
    caching (option (string + option (option Z * string))) :=
  some* drained := drain pipe captured in
  match drained with
  | Err _ => Ret (Some (inr None))
  | Ok captured =>
      do* status := trigger (TryWait child) in
      match status with
      | Ok (Some status) => Ret (Some (inr (Some (status, captured))))
      | Err _ => Ret (Some (inr None))
      | Ok None =>
          do* read := trigger (ReadParent parent) in
          let dead :=
            match read with
            | Some (ReadBytes bytes) => is_empty bytes
            | Some ReadFailed => true
            | Some ReadWouldBlock | None => false
            end in
          if dead then Ret (Some (inr None)) else
          do* now := trigger Now in
          if bool_decide (deadline ≤ now)%N then Ret (Some (inr None))
          else do* _ := trigger PollSleep in Ret (Some (inl captured))
      end
  end.

(** [execute_supervisor]. *)
Definition execute_supervisor (child : Child) (parent budget : N) : caching (option SupervisorResult) :=
  owning (child_id child)
    (do* reader := nonblocking (child_pipe child) in
     match reader with
     | None => Ret (Some unknown_result)
     | Some pipe =>
         do* started := trigger Now in
         some* r := polling 38 (supervise_step (child_id child) pipe parent (started + budget)) "" in
         match r with
         | None => Ret (Some unknown_result)
         | Some (status, captured) =>
             some* drained := drain pipe captured in
             Ret (Some (match drained with
                        | Err _ => unknown_result
                        | Ok captured => result_of_child status (from_utf8_lossy captured)
                        end))
         end
     end).

(** The command of the native mutator: its directory is the open root. *)
Definition prune_command (producer : string) (root_fd : N) : Command :=
  mkCommand producer
    ["cache"; "prune"; "--no-config"; "--no-progress"; "--cache-dir"; "."]
    [("UV_OFFLINE", "1"); ("UV_NO_CONFIG", "1"); ("UV_NO_PROGRESS", "1");
     ("UV_PYTHON_DOWNLOADS", "never"); ("UV_LOCK_TIMEOUT", show_N NATIVE_LOCK_TIMEOUT_SECS)]
    (Some root_fd) [].

(** [supervise]. *)
Definition supervise (parent : N) (producer : string) (root_fd budget : N) :
    caching (option (result SupervisorResult IoError)) :=
  do* spawned := trigger (Spawn (prune_command producer root_fd)) in
  match spawned with
  | Err e => Ret (Some (Err e))
  | Ok child => some* r := execute_supervisor child parent budget in Ret (Some (Ok r))
  end.

(** [parse_inherited_fd]. *)
Definition parse_inherited_fd (value : string) : option N :=
  if utf8_valid value then
    fd ← parse_i32 value;
    if bool_decide (2 < fd)%Z then Some (Z.to_N fd) else None
  else None.

(** [preflight_parent_channel]. *)
Definition preflight_parent_channel (fd : N) : caching (result unit IoError) :=
  do* r := trigger (ReadPipe fd 1) in
  Ret (match r with
       | ReadWouldBlock => Ok tt
       | ReadFailed => Err (IoOther "read failed")
       | ReadBytes bytes =>
           if is_empty bytes then Err (IoOther "parent channel closed before native spawn")
           else Err (IoOther "unexpected parent channel byte")
       end).

(** An iteration of the loop of [read_capability]. *)
Definition capability_step (file deadline : N) (captured : string) :
    caching (string + result string IoError) :=
  do* r := trigger (ReadPipe file 512) in
  match r with
  | ReadBytes bytes =>
      if is_empty bytes then Ret (inr (Ok captured)) else
      let captured := captured +:+ bytes in
      Ret (if bool_decide (4096 < bytes_len captured)%N
           then inr (Err (IoOther "capability line oversized")) else inl captured)
  | ReadWouldBlock =>
      do* now := trigger Now in
      if bool_decide (deadline ≤ now)%N then Ret (inr (Err (IoOther "capability line deadline")))
      else do* _ := trigger PollSleep in Ret (inl captured)
  | ReadFailed => Ret (inr (Err (IoOther "read failed")))
  end.

Section Supervisor.
Context `{JCap : Json NativeCacheCapability, JSup : Json SupervisorResult}.

(** [read_capability]. *)
Definition read_capability (fd : N) : caching (option (result NativeCacheCapability IoError)) :=
  do* taken := trigger (TakeInherited fd) in
  match taken with
  | Err e => Ret (Some (Err e))
  | Ok _ =>
      do* set := trigger (SetNonblocking fd) in
      match set with
      | Err e => Ret (Some (Err e))
      | Ok _ =>
          do* started := trigger Now in
          some* captured := looping 38 (capability_step fd (started + 5 * 1000000000)) "" in
          Ret (Some (let? captured := captured in
                     if is_empty captured then Err (IoOther "missing capability line")
                     else map_err IoOther (json_from_str captured)))
      end
  end.

(** The checks of the capability against the root and the producer. *)
Definition capability_matches (c : NativeCacheCapability) (m : Metadata) (b : ProducerBinding) : bool :=
  is_dir m && bool_decide (md_dev m = root_device c) && bool_decide (md_ino m = root_inode c)
  && bool_decide (b = cap_binding c) && negb (is_empty (cap_token c)) && negb (is_empty (cap_epoch c)).

(** [execute_uv_supervisor] once it has the capability. *)
Definition supervise_with (c : NativeCacheCapability) (root_fd : N) (binary : string) (parent : N) :
    caching (option (result SupervisorResult IoError)) :=
  do* checked :=
    (do? _ := trigger (TakeInherited root_fd) in
     do? m := trigger (StatFd root_fd) in
     do? b := capture_binding binary in
     if negb (capability_matches c m b)
     then Ret (Err (IoOther "native cache capability identity mismatch")) else
     do? _ := trigger (SetNonblocking parent) in
     preflight_parent_channel parent) in
  match checked with
  | Err e => Ret (Some (Err e))
  | Ok _ => supervise parent binary root_fd DEFAULT_RUNTIME_BUDGET
  end.

(** [execute_uv_supervisor]. *)
Definition execute_uv_supervisor (args : list string) (parent : N) :
    caching (option (result SupervisorResult IoError)) :=
  match args with
  | [capability_flag; capability_fd; root_fd; binary] =>
      if negb (bool_decide (capability_flag = NATIVE_CACHE_CAPABILITY_FLAG))
      then Ret (Some (Err (IoOther "invalid native cache capability flag"))) else
      match parse_inherited_fd capability_fd, parse_inherited_fd root_fd with
      | None, _ => Ret (Some (Err (IoOther "invalid capability descriptor")))
      | Some _, None => Ret (Some (Err (IoOther "invalid cache-root descriptor")))
      | Some capability_fd, Some root_fd =>
          if bool_decide (capability_fd = root_fd)
          then Ret (Some (Err (IoOther "capability descriptors overlap")))
          else if negb (is_absolute binary)
          then Ret (Some (Err (IoOther "uv producer path is not absolute")))
          else
            some* capability := read_capability capability_fd in
            match capability with
            | Err e => Ret (Some (Err e))
            | Ok capability => supervise_with capability root_fd binary parent
            end
      end
  | _ => Ret (Some (Err (IoOther "missing native cache capability")))
  end.

(** [run_uv_supervisor]: the exit code and what is printed. *)
Definition run_uv_supervisor (args : list string) : caching (option (N * string)) :=
  some* r := execute_uv_supervisor args 0 in
  Ret (Some (match r with Ok r => (0%N, json_to_string r) | Err _ => (7%N, "") end)).

(** [parse_supervisor_result]. *)
Definition parse_supervisor_result (bytes : string) : option ToolCacheNativeResult :=
  if is_empty bytes || bool_decide (STDOUT_CAP_BYTES < bytes_len bytes)%N then None else
  match json_from_str bytes with
  | Err _ => None
  | Ok parsed =>
      let counts := (sup_removed_entry_count parsed, sup_removed_logical_bytes parsed) in
      if bool_decide (sup_outcome parsed = "completed") then
        match counts with
        | (None, None) => Some (mkToolCacheNativeResult CacheCompleted None None)
        | (Some count, Some bytes) =>
            Some (mkToolCacheNativeResult CacheCompleted (Some count) (Some bytes))
        | _ => None
        end
      else if bool_decide (counts = (None, None)) then
        if bool_decide (sup_outcome parsed = "busy")
        then Some (mkToolCacheNativeResult CacheBusy None None)
        else if bool_decide (sup_outcome parsed = "failed")
        then Some (mkToolCacheNativeResult CacheFailed None None)
        else None
      else None
  end.
End Supervisor.

(** ** The cache root *)

(** [directory_identity]. *)
Definition directory_identity (path : string) : caching (option (N * N)) :=
  do* m := trigger (LinkStat path) in
  Ret (match m with
       | Ok m => if is_dir m && negb (is_symlink m) then Some (md_dev m, md_ino m) else None
       | Err _ => None
       end).

(** [Iterator::all], of a test that makes calls. *)
Fixpoint all_of {A} (test : A → caching bool) (l : list A) : caching bool :=
  match l with
  | [] => Ret true
  | a :: l => do* ok := test a in if ok : bool then all_of test l else Ret false
  end.

(** The metadata of a path, without following a link, satisfy the test; [missing] is the
    answer where there is nothing. *)
Definition link_is (missing : bool) (test : Metadata → bool) (path : string) : caching bool :=
  do* m := trigger (LinkStat path) in
  Ret (match m with
       | Ok m => test m
       | Err IoNotFound => missing
       | Err (IoOther _) => false
       end).

Definition owned_directory (uid : N) (m : Metadata) : bool :=
  is_dir m && negb (is_symlink m) && bool_decide (md_uid m = uid) && guarded m.

(** A marker file: the lock may be writable. *)
Definition owned_marker (uid : N) (name : string) (m : Metadata) : bool :=
  is_file m && negb (is_symlink m) && bool_decide (md_uid m = uid)
  && bool_decide (md_nlink m = 1%N) && (bool_decide (name = ".lock") || guarded m).

Definition MARKER_FILES : list string := ["CACHEDIR.TAG"; ".gitignore"; ".lock"].

Definition SCANNED_BUCKETS : list string :=
  ["archive-v0"; "environments-v2"; "wheels-v6"; "sdists-v9"; "builds-v0"; "git-v0";
   "interpreter-v4"; "simple-v21"; "flat-index-v2"; "python-v0"; "binaries-v0"; "osv-v0"].

(** [fixed_cache_shape_safe]. *)
Definition fixed_cache_shape_safe (root : string) : caching bool :=
  do* uid := trigger CacheEuid in
  match path_parent root with
  | None => Ret false
  | Some parent =>
      let plain m := negb (is_symlink m) && is_dir m in
      do* ok := all_of (link_is false plain) (path_of <$> path_ancestors parent) in
      if negb ok then Ret false else
      do* ok := all_of (link_is false (owned_directory uid)) [parent; root] in
      if negb ok then Ret false else
      do* ok :=
        all_of (λ name, link_is true (owned_marker uid name) (path_join root name)) MARKER_FILES in
      if negb ok then Ret false else
      all_of (λ name, link_is true (owned_directory uid) (path_join root name)) SCANNED_BUCKETS
  end.

(** [CacheRootState]. *)
Inductive CacheRootState : Type := RootPresent | RootAbsent.

(** [preflight_cache_root]. *)
Definition preflight_cache_root (root : string) : caching (option CacheRootState) :=
  do* cancelled := trigger CancelProbe in
  if cancelled : bool then Ret None else
  do* m := trigger (LinkStat root) in
  match m with
  | Err IoNotFound => Ret (Some RootAbsent)
  | Err (IoOther _) => Ret None
  | Ok _ => do* safe := fixed_cache_shape_safe root in Ret (if safe then Some RootPresent else None)
  end.

(** ** Discovery *)

(** [producer_prefixes]. *)
Definition producer_prefixes (home : string) : caching (list string) :=
  let home_prefix := path_join home HOME_PREFIX_BIN in
  do* m := trigger (Stat home_prefix) in
  Ret (FIXED_PREFIXES ++ match m with
                         | Ok m => if is_dir m then [home_prefix] else []
                         | Err _ => []
                         end).

(** [resolve_regular_file]. *)
Definition resolve_regular_file (path : string) : caching (option string) :=
  do* real := trigger (RealPath path) in
  match real with
  | Err _ => Ret None
  | Ok real =>
      do* m := trigger (Stat real) in
      Ret (match m with Ok m => if is_file m then Some real else None | Err _ => None end)
  end.

(** The version that the output of a query states, in [producer_version]. *)
Definition stated_version (text : string) : option string :=
  let line := trim text in
  remainder ← strip_prefix "uv " line;
  let '(version, metadata) :=
    match split_once_space remainder with Some parts => parts | None => (remainder, "") end in
  let metadata := trim metadata in
  if is_empty version
     || negb (all_bytes (λ c, negb (Ascii.eqb c "010"%char || Ascii.eqb c "013"%char)) line)
     || (negb (is_empty metadata) && negb (starts_with "(" metadata && ends_with ")" metadata))
  then None else Some version.

(** [producer_version]. *)
Definition producer_version (binary : string) (query_budget : N) : caching (option ProducerQuery) :=
  some* q := read_producer_output binary ["--version"] query_budget in
  Ret (Some (match q with
             | QueryOutput text =>
                 match stated_version text with
                 | Some version => QueryOutput version
                 | None => QueryMalformedBytes
                 end
             | q => q
             end)).

(** The answer of a query that stated no version. *)
Definition version_failure (q : ProducerQuery) : Candidate (string * ProducerBinding) :=
  match q with
  | QueryOutput _ => CandidateUnsupported
  | QueryCancelled => CandidateRefused "producer query was cancelled"
  | QueryBindingChanged => CandidateUnproved "producer binding changed"
  | QuerySpawnFailed => CandidateUnproved "producer query could not start"
  | QueryExited => CandidateUnproved "producer query exited unsuccessfully"
  | QueryTimedOut => CandidateUnproved "producer query timed out"
  | QueryOutputOverflow => CandidateUnproved "producer query output exceeded its cap"
  | QueryOutputReadFailed => CandidateUnproved "producer query output could not be read"
  | QueryMalformedBytes => CandidateUnproved "producer query output was malformed"
  end.

(** The candidate, if its path is there: the producer at its real path states its version. *)
Definition try_uv (query_budget : N) (candidate : string) :
    caching (option (Candidate (string * ProducerBinding))) :=
  do* real := resolve_regular_file candidate in
  match real with
  | None => Ret (Some (CandidateUnproved "producer path could not be proved"))
  | Some uv_real =>
      do* binding := capture_binding uv_real in
      match binding with
      | Err _ => Ret (Some (CandidateUnproved "producer metadata is not safely bound"))
      | Ok binding =>
          some* q := producer_version uv_real query_budget in
          match q with
          | QueryOutput version =>
              do* same := still_bound uv_real binding in
              Ret (Some (if negb same
                         then CandidateUnproved "producer binding changed during query"
                         else if bool_decide (version = EXPECTED_UV_VERSION)
                         then CandidateProved (uv_real, binding)
                         else CandidateUnsupported))
          | q => Ret (Some (version_failure q))
          end
      end
  end.

(** An iteration of [discover_producer], after the probe for cancellation. *)
Definition try_prefix (query_budget : N) (prefix : string) :
    caching (option (Candidate (string * ProducerBinding))) :=
  let candidate := path_join prefix "uv" in
  do* present := trigger (LinkStat candidate) in
  match present with
  | Err IoNotFound => Ret (Some CandidateAbsent)
  | _ => try_uv query_budget candidate
  end.

(** [discover_producer]. *)
Definition discover_producer (prefixes : list string) (query_budget : N) :
    caching (option (result (string * ProducerBinding) CacheDiscoveryError)) :=
  discover_candidates (try_prefix query_budget)
    (mkDiscoveryTexts "producer discovery was cancelled" "uv producer is absent from fixed prefixes"
       "producer version is unsupported" "producer could not be proved") prefixes false false None.

(** [UvCacheMaintenance]. *)
Record UvCacheMaintenance : Type := mkUvCacheMaintenance {
  uv_binary : string;
  uv_binding : option ProducerBinding;
  uv_root_identity : option (N * N);
  initial_availability : ToolCacheAvailability;
  cache_root : string;
  runtime_budget : N;
}.

#[export] Instance ToolCacheAvailability_eq_dec : EqDecision ToolCacheAvailability.
Proof. solve_decision. Defined.

(** The producer is the one of the binding, if there is a binding. *)
Definition binding_current (v : UvCacheMaintenance) : caching bool :=
  match uv_binding v with
  | None => Ret false
  | Some binding => still_bound (uv_binary v) binding
  end.

(** [UvCacheMaintenance::availability] and [observe]. *)
Definition availability (v : UvCacheMaintenance) : caching ToolCacheAvailability :=
  do* cancelled := trigger CancelProbe in
  if cancelled : bool then Ret CacheUnavailable else
  do* current := binding_current v in
  if negb current then Ret CacheUnavailable else
  do* state := preflight_cache_root (cache_root v) in
  Ret (match state with
       | Some RootPresent => CacheAvailable
       | Some RootAbsent => CacheAbsent
       | None => CacheUnavailable
       end).

(** [UvCacheMaintenance::from_paths]. *)
Definition from_paths (uv_binary cache_root : string) (budget : N) : caching UvCacheMaintenance :=
  do* binding := capture_binding uv_binary in
  let binding := match binding with Ok b => Some b | Err _ => None end in
  do* identity := directory_identity cache_root in
  let v := mkUvCacheMaintenance uv_binary binding identity CacheUnavailable cache_root budget in
  do* initial := availability v in
  Ret (mkUvCacheMaintenance uv_binary binding identity initial cache_root budget).

(** [UvCacheMaintenance::discover]. *)
Definition discover_uv : caching (option (result UvCacheMaintenance CacheDiscoveryError)) :=
  do* euid := trigger CacheEuid in
  do* home := trigger (UserHome euid) in
  match home with
  | None => Ret (Some (Err (unavailable "user home could not be resolved")))
  | Some home =>
      let cache_root := path_join home HOME_CACHE_UV in
      do* prefixes := producer_prefixes home in
      some* found := discover_producer prefixes PRODUCER_QUERY_BUDGET in
      match found with
      | Err e => Ret (Some (Err e))
      | Ok (uv_binary, proved) =>
          do* v := from_paths uv_binary cache_root DEFAULT_RUNTIME_BUDGET in
          Ret (Some (
            if negb (bool_decide (uv_binding v = Some proved))
            then Err (unavailable "producer binding changed before cache open")
            else match initial_availability v with
                 | CacheAvailable => Ok v
                 | CacheAbsent => Err (mkCacheDiscoveryError CacheAbsent "uv cache root is absent")
                 | CacheUnsupported =>
                     Err (mkCacheDiscoveryError CacheUnsupported "uv cache root format is unsupported")
                 | CacheUnavailable =>
                     Err (unavailable "uv producer or cache root could not be proved")
                 end))
      end
  end.

(** ** The start of the supervisor *)

(** [UvCacheMaintenance::open_proved_root]. *)
Definition open_proved_root (v : UvCacheMaintenance) : caching (result N IoError) :=
  match uv_root_identity v with
  | None => Ret (Err IoNotFound)
  | Some (device, inode) =>
      do? fd := trigger (OpenDirectory (cache_root v) false) in
      do? m := trigger (StatFd fd) in
      Ret (if is_dir m && bool_decide (md_dev m = device) && bool_decide (md_ino m = inode)
           then Ok fd else Err IoNotFound)
  end.

(** [RunningUvMaintenance]: the child, its output that can be read, and when it began. *)
Record RunningUvMaintenance : Type := mkRunningUvMaintenance {
  run_child : N;
  run_stdout : N;
  run_readable : bool;
  run_started_at : N;
  run_budget : N;
}.

(** [RunningUvMaintenance::from_child]. *)
Definition from_child (c : Child) (budget : N) : caching RunningUvMaintenance :=
  do* set := trigger (SetNonblocking (child_pipe c)) in
  let readable := match set with Ok _ => true | Err _ => false end in
  do* now := trigger Now in
  Ret (mkRunningUvMaintenance (child_id c) (child_pipe c) readable now budget).

(** The command of the supervisor: the descriptors are inherited under their numbers. *)
Definition supervisor_command (supervisor : string) (read_fd root_fd : N) (binary : string) : Command :=
  mkCommand supervisor
    [NATIVE_CACHE_CHILD_FLAG; NATIVE_CACHE_CAPABILITY_FLAG; show_N read_fd; show_N root_fd; binary]
    [] None [read_fd; root_fd].

(** The checks before the start, and the proved identity of the root. *)
Definition may_start (v : UvCacheMaintenance) : caching (option (N * N * ProducerBinding)) :=
  if negb (bool_decide (initial_availability v = CacheAvailable)) then Ret None else
  do* current := binding_current v in
  if negb current then Ret None else
  match uv_root_identity v, uv_binding v with
  | Some (device, inode), Some binding =>
      do* identity := directory_identity (cache_root v) in
      if negb (bool_decide (identity = Some (device, inode))) then Ret None else
      do* safe := fixed_cache_shape_safe (cache_root v) in
      Ret (if safe then Some (device, inode, binding) else None)
  | _, _ => Ret None
  end.

Section Start.
Context `{JCap : Json NativeCacheCapability, JSup : Json SupervisorResult}.

(** [UvCacheMaintenance::start]. *)
Definition start_uv (v : UvCacheMaintenance) (attempt_token epoch : string) :
    caching (result RunningUvMaintenance IoError) :=
  do* proved := may_start v in
  match proved with
  | None => Ret (Err IoNotFound)
  | Some (device, inode, binding) =>
      do? root_fd := open_proved_root v in
      do? pipe := trigger Pipe in
      let capability := mkNativeCacheCapability attempt_token epoch device inode binding in
      do? _ := trigger (WriteAll pipe.2 (json_to_string capability)) in
      do? supervisor := trigger CurrentExe in
      do? child := trigger (Spawn (supervisor_command supervisor pipe.1 root_fd (uv_binary v))) in
      do* running := from_child child (runtime_budget v) in
      Ret (Ok running)
  end.

(** ** Waiting for the supervisor *)

(** An iteration of [drain_output]: what was read, and whether that went well. *)
Definition drain_output_step (stdout : N) (output : string) : caching (string + string * bool) :=
  do* r := trigger (ReadPipe stdout 4096) in
  Ret (match r with
       | ReadBytes bytes =>
           if is_empty bytes then inr (output, true)
           else if bool_decide (STDOUT_CAP_BYTES < bytes_len output + bytes_len bytes)%N
           then inr (output, false)
           else inl (output +:+ bytes)
       | ReadWouldBlock => inr (output, true)
       | ReadFailed => inr (output, false)
       end).

(** [drain_output]: every read that does not end it adds a byte below the cap. *)
Definition drain_output (r : RunningUvMaintenance) (output : string) :
    caching (option (string * bool)) :=
  if negb (run_readable r) then Ret (Some (output, false))
  else looping 15 (drain_output_step (run_stdout r)) output.

(** An iteration of the loop of [settle_and_reap]. *)
Definition settle_step (child deadline : N) (s : unit) : caching (unit + unit) :=
  do* status := trigger (TryWait child) in
  match status with
  | Ok (Some _) => Ret (inr tt)
  | _ =>
      do* now := trigger Now in
      if bool_decide (deadline ≤ now)%N then
        do* _ := trigger (KillChild child) in
        do* _ := trigger (WaitChild child) in
        Ret (inr tt)
      else do* _ := trigger PollSleep in Ret (inl tt)
  end.

(** [settle_and_reap]: the input of the child is closed, once. *)
Definition settle_and_reap (child : N) : caching (option unit) :=
  do* _ := trigger (CloseInput child) in
  do* started := trigger Now in
  looping 38 (settle_step child (started + SUPERVISOR_SETTLE_GRACE)%N) tt.

(** An iteration of the loop of [wait]: what was read, and then the result, and whether the
    child is to be settled. *)
Definition wait_uv_step (r : RunningUvMaintenance) (output : string) :
    caching (option (string + ToolCacheNativeResult * bool)) :=
  let deadline := (run_started_at r + run_budget r)%N in
  some* drained := drain_output r output in
  let '(output, ok) := drained in
  if negb ok then Ret (Some (inr (delivery_unknown, true))) else
  do* status := trigger (TryWait (run_child r)) in
  match status with
  | Ok (Some status) =>
      some* drained := drain_output r output in
      let '(output, ok) := drained in
      Ret (Some (inr (if ok && exited_well status
                      then default delivery_unknown (parse_supervisor_result output)
                      else delivery_unknown, false)))
  | Err _ => Ret (Some (inr (delivery_unknown, true)))
  | Ok None =>
      do* cancelled := trigger CancelProbe in
      if cancelled : bool then Ret (Some (inr (delivery_unknown, true))) else
      do* now := trigger Now in
      if bool_decide (deadline ≤ now)%N then Ret (Some (inr (delivery_unknown, true)))
      else do* _ := trigger PollSleep in Ret (Some (inl output))
  end.

(** The drop of [RunningUvMaintenance], whose input is still open or not. *)
Definition drop_running (child : N) (settled : bool) : caching (option unit) :=
  do* status := trigger (TryWait child) in
  match status with
  | Ok (Some _) => if settled then Ret (Some tt) else do* _ := trigger (CloseInput child) in Ret (Some tt)
  | _ =>
      if settled then
        do* started := trigger Now in
        looping 38 (settle_step child (started + SUPERVISOR_SETTLE_GRACE)%N) tt
      else settle_and_reap child
  end.

(** [wait]; [None] is a child that has not answered when the steps of the loop are used up. *)
Definition wait_uv (r : RunningUvMaintenance) : caching (option ToolCacheNativeResult) :=
  some* ended := polling 38 (wait_uv_step r) "" in
  let '(native, settle) := ended in
  some* _ := (if settle : bool then settle_and_reap (run_child r) else Ret (Some tt)) in
  some* _ := drop_running (run_child r) settle in
  Ret (Some native).
End Start.
