(* ===== verification/NodeCacheFacts.v ===== *)
(** NodeCacheFacts: what the maintenance of Node's compile cache removes.

    The table-driven checksum is the bitwise one; a scan admits only files that it has
    validated; and a removal unlinks, in order, entries of its plan that it has just
    confirmed. *)

From S2P Require Import Prelude Text Store Protocol Effects Procargs Producer NodeCache.
From Stdlib Require Import Ascii.

(** ** Checksums *)

(** The reference: one bit of the reflected CRC-32, and the checksum of a text. *)
Definition crc_shift (crc : N) : N :=
  N.lxor (N.shiftr crc 1) (if N.testbit crc 0 then 0xedb88320 else 0%N).

Definition crc32_from (crc : N) (bytes : string) : N :=
  fold_left (λ crc c, Nat.iter 8 crc_shift (N.lxor crc (code c)))
    (String.list_ascii_of_string bytes) crc.

Definition crc32 (bytes : string) : N := not32 (crc32_from (2 ^ 32 - 1) bytes).

Lemma crc_bit_shift crc : crc_bit crc = crc_shift crc.
Proof.
  unfold crc_bit, crc_shift, wrapping_neg32. f_equal.
  assert (N.land crc 1 = N.b2n (N.testbit crc 0)) as ->.
  { change 1%N with (N.ones 1). rewrite N.land_ones, N.bit0_mod. done. }
  by destruct (N.testbit crc 0).
Qed.

Lemma crc_shift_lxor a b : crc_shift (N.lxor a b) = N.lxor (crc_shift a) (crc_shift b).
Proof.
  unfold crc_shift. rewrite N.shiftr_lxor, N.lxor_spec.
  destruct (N.testbit a 0), (N.testbit b 0); cbn [xorb]; apply N.bits_inj; intros i;
    rewrite !N.lxor_spec, ?N.bits_0; by repeat match goal with
      |- context [N.testbit ?x ?i] => generalize (N.testbit x i); intros [] end.
Qed.

Lemma iter_crc_lxor n a b :
  Nat.iter n crc_shift (N.lxor a b) = N.lxor (Nat.iter n crc_shift a) (Nat.iter n crc_shift b).
Proof.
  induction n as [|n IH]; [done|]. change (crc_shift (Nat.iter n crc_shift (N.lxor a b)) =
    N.lxor (crc_shift (Nat.iter n crc_shift a)) (crc_shift (Nat.iter n crc_shift b))).
  by rewrite IH, crc_shift_lxor.
Qed.

(** A value without low bits is only shifted. *)
Lemma iter_crc_high n y : Nat.iter n crc_shift (N.shiftl y (N.of_nat n)) = y.
Proof.
  revert y. induction n as [|n IH]; intros y; [by rewrite N.shiftl_0_r|].
  rewrite Nat.iter_succ_r. unfold crc_shift at 2.
  rewrite N.shiftl_spec_low by lia. rewrite N.lxor_0_r, N.shiftr_shiftl_l by lia.
  replace (N.of_nat (S n) - 1)%N with (N.of_nat n) by lia. apply IH.
Qed.

Lemma low_and_high x : x = N.lxor (N.land x 255) (N.shiftl (N.shiftr x 8) 8).
Proof.
  apply N.bits_inj. intros i. rewrite N.lxor_spec, N.land_spec.
  change 255%N with (N.ones 8). destruct (decide (i < 8)%N) as [H|H].
  - rewrite N.ones_spec_low, N.shiftl_spec_low by lia. by destruct (N.testbit x i).
  - rewrite N.ones_spec_high, N.shiftl_spec_high' by lia.
    rewrite N.shiftr_spec by lia. replace (i - 8 + 8)%N with i by lia.
    rewrite andb_false_r. by destruct (N.testbit x i).
Qed.

Lemma crc_entry i : (i < 256)%N → default 0%N (CRC !! N.to_nat i) = Nat.iter 8 crc_shift i.
Proof.
  intros Hi. change CRC with crc_table. unfold crc_table.
  rewrite list_lookup_fmap, lookup_seq_lt by lia.
  change (Nat.iter 8 crc_bit (N.of_nat (0 + N.to_nat i)) = Nat.iter 8 crc_shift i).
  rewrite Nat.add_0_l, N2Nat.id. cbn [Nat.iter nat_rect]. by rewrite !crc_bit_shift.
Qed.

Lemma update_byte_bits crc c :
  update_byte crc c = Nat.iter 8 crc_shift (N.lxor crc (code c)).
Proof.
  unfold update_byte. set (x := N.lxor crc (code c)).
  rewrite crc_entry.
  2:{ change 255%N with (N.ones 8). rewrite N.land_ones. by apply N.mod_lt. }
  rewrite (low_and_high x) at 2. rewrite iter_crc_lxor. f_equal.
  rewrite (iter_crc_high 8). unfold x. rewrite N.shiftr_lxor.
  assert (N.shiftr (code c) 8 = 0%N) as ->; [|by rewrite N.lxor_0_r].
  rewrite N.shiftr_div_pow2. apply N.div_small. unfold code. apply N_ascii_bounded.
Qed.

(** [C34] The checksum that a file is validated with, computed byte by byte from a table, is
    the bitwise CRC-32: updating the register with the bytes and inverting it gives the
    remainder that shifting in one bit after the other gives. *)
Theorem checksum_is_crc32 bytes : not32 (update_crc (2 ^ 32 - 1) bytes) = crc32 bytes.
Proof.
  unfold crc32, crc32_from, update_crc. f_equal. generalize (2 ^ 32 - 1)%N.
  induction (String.list_ascii_of_string bytes) as [|c l IH]; intros crc; [done|].
  cbn [fold_left]. by rewrite update_byte_bits, IH.
Qed.

Lemma update_crc_app crc a b : update_crc crc (a +:+ b) = update_crc (update_crc crc a) b.
Proof.
  unfold update_crc. revert crc. induction a as [|c a IH]; intros crc; [done|]. apply IH.
Qed.

(** ** Tests *)

Lemma runs_both a b tr r :
  runs (both a b) tr r ↔
  (r = false ∧ runs a tr false) ∨ ∃ t1 t2, tr = t1 ++ t2 ∧ runs a t1 true ∧ runs b t2 r.
Proof.
  unfold both. split.
  - intros (t1 & t2 & x & -> & Ha & H)%runs_bind_inv. destruct x; [right; by exists t1, t2|].
    destruct H as [-> ->]. rewrite app_nil_r. by left.
  - intros [[-> H]|(t1 & t2 & -> & Ha & Hb)]; [|by eapply runs_bind].
    rewrite <-(app_nil_r tr). by eapply runs_bind.
Qed.

Lemma both_true a b tr :
  runs (both a b) tr true → ∃ t1 t2, tr = t1 ++ t2 ∧ runs a t1 true ∧ runs b t2 true.
Proof. by intros [[? _]|H]%runs_both. Qed.

(** A file of its own for the user: regular, with one name and not writable by others. *)
Definition private_file (u : N) (m : Metadata) : Prop :=
  is_file m = true ∧ md_uid m = u ∧ md_nlink m = 1%N ∧ guarded m = true.

Lemma safe_file_runs m tr :
  runs (safe_file m) tr true → ∃ u, tr = [Obs CacheEuid u] ∧ private_file u m.
Proof.
  intros (t1 & t2 & -> & [-> Hf] & u & t3 & -> & -> & Hb)%both_true.
  exists u. split; [done|]. symmetry in Hb. by bool_facts.
Qed.

(** A file that was opened by its name and is private, with that identity. *)
Definition looked_at (parent : N) (name : string) (i : Identity) (tr : list (obs CacheE)) : Prop :=
  ∃ file m u, tr = [Obs (OpenIn parent name false) (Ok file); Obs (StatFd file) (Ok m);
                    Obs CacheEuid u] ∧
    private_file u m ∧ identity_of_file m = i.

Lemma safe_file_of_runs i m tr :
  runs (safe_file_of i m) tr true →
  ∃ u, tr = [Obs CacheEuid u] ∧ private_file u m ∧ identity_of_file m = i.
Proof.
  intros (t1 & t2 & -> & (u & -> & Hp)%safe_file_runs & -> & Hi)%both_true.
  exists u. symmetry in Hi. by bool_facts.
Qed.

Lemma looked_runs parent name i tr :
  runs (do* m := entry_metadata parent name in is_ok_and m (safe_file_of i)) tr true →
  looked_at parent name i tr.
Proof.
  unfold entry_metadata. intros (t1 & t2 & m & -> & Hm & H)%runs_bind_inv.
  destruct Hm as (file & t3 & -> & Hm). destruct file as [file|]; [|by destruct Hm as [_ ->], H].
  destruct Hm as (m' & t4 & -> & -> & ->). destruct m' as [m|]; [|by destruct H].
  apply safe_file_of_runs in H as (u & -> & Hp & Hi). by exists file, m, u.
Qed.

(** ** The scan *)

(** The bytes that reads gave. *)
Definition chunk_of (o : obs CacheE) : option string :=
  match o with
  | @Obs _ X e x =>
      match e in CacheE X return X → option string with
      | ReadFile _ _ => λ x, match x with Ok s => Some s | Err _ => None end
      | _ => λ _, None
      end x
  end.

Definition payload (tr : list (obs CacheE)) : string := foldr String.append "" (omap chunk_of tr).

Lemma payload_app a b : payload (a ++ b) = payload a +:+ payload b.
Proof.
  unfold payload. rewrite omap_app. induction (omap chunk_of a) as [|s l IH]; [done|].
  cbn [foldr app]. by rewrite IH, append_assoc.
Qed.

(** The calls of the loop that reads a file. *)
Definition reading (file : N) (X : Type) (e : CacheE X) : Prop :=
  match e with CancelProbe | Now => True | ReadFile f _ => f = file | _ => False end.

Lemma late_runs deadline tr b :
  runs (cancelled_or_late deadline) tr b →
  (b = true ∧ tr = [Obs CancelProbe true]) ∨
  ∃ now, tr = [Obs CancelProbe false; Obs Now now] ∧ b = bool_decide (deadline ≤ now)%N.
Proof.
  intros (c & t1 & -> & H). cbn [bind] in H. destruct c; [destruct H as [-> ->]; by left|right].
  destruct H as (now & t2 & -> & -> & ->). by exists now.
Qed.

Lemma checksum_step_runs file deadline crc tr r :
  runs (checksum_step file deadline crc) tr r →
  match r with
  | inl crc' | inr (Ok crc') => crc' = update_crc crc (payload tr)
  | inr (Err _) => True
  end.
Proof.
  intros (t1 & t2 & stop & -> & Hl & H)%runs_bind_inv. destruct stop; [by destruct H as [_ ->]|].
  apply late_runs in Hl as [[? _]|(now & -> & _)]; [done|].
  destruct H as (chunk & t3 & -> & -> & ->). destruct chunk as [chunk|e]; [|done].
  destruct (is_empty chunk) eqn:He; cbn.
  - by destruct chunk.
  - by rewrite append_empty.
Qed.

Lemma checksum_steps file deadline n crc tr crc' :
  loop_steps (checksum_step file deadline) n crc tr crc' → crc' = update_crc crc (payload tr).
Proof.
  induction 1 as [crc|n crc t1 crc1 t2 crc2 H%checksum_step_runs _ IH]; [done|].
  by rewrite payload_app, update_crc_app, <-H.
Qed.

Lemma checksum_runs file deadline crc tr crc' :
  runs (looping 38 (checksum_step file deadline) crc) tr (Some (Ok crc')) →
  crc' = update_crc crc (payload tr).
Proof.
  intros (n & t1 & s & t2 & -> & H1%checksum_steps & H2%checksum_step_runs)%looping_runs.
  by rewrite payload_app, update_crc_app, <-H1.
Qed.

Lemma checksum_reading file deadline crc :
  confined (reading file) (looping 38 (checksum_step file deadline) crc).
Proof.
  apply confined_looping. intros s. apply confined_bind.
  - split; [exact I|]. intros []; [exact I|]. by split.
  - intros []; [exact I|]. by split.
Qed.

(** The calls of the scan of a file that it admits: it was opened by its name and is
    private, its header and the checksum of what was read after it are right, and it is
    still the same file by its descriptor and by its name. *)
Definition validated (bucket : N) (e : Entry) (tr : list (obs CacheE)) : Prop :=
  ∃ file m u header reads m' look,
    tr = [Obs (OpenIn bucket (entry_file e) false) (Ok file); Obs (StatFd file) (Ok m);
          Obs CacheEuid u; Obs (ReadExact file 20) (Ok header)]
         ++ reads ++ Obs (StatFd file) (Ok m') :: look ∧
    hex_name (entry_file e) = true ∧ private_file u m ∧
    identity_of_file m = entry_identity e ∧ identity_of_file m' = entry_identity e ∧
    String.length header = 20 ∧ header_word header 0 = MAGIC ∧
    (header_word header 2 + 20 = md_len m)%N ∧
    (∀ X (c : CacheE X) x, Obs c x ∈ reads → reading file X c) ∧
    crc32 (payload reads) = header_word header 4 ∧
    looked_at bucket (entry_file e) (entry_identity e) look.

Lemma validate_runs file length deadline tr :
  runs (validate_cache_file file length deadline) tr (Some (Ok tt)) →
  ∃ header reads, tr = Obs (ReadExact file 20) (Ok header) :: reads ∧
    String.length header = 20 ∧ header_word header 0 = MAGIC ∧
    (header_word header 2 + 20 = length)%N ∧
    (∀ X (c : CacheE X) x, Obs c x ∈ reads → reading file X c) ∧
    crc32 (payload reads) = header_word header 4.
Proof.
  intros (header & t1 & -> & H). cbn [bind trigger] in H.
  destruct header as [header|e]; [|by destruct H].
  destruct (negb (bool_decide _)) eqn:Hl; [by destruct H|]. destruct (_ || _) eqn:Hw; [by destruct H|].
  apply runs_bind_inv in H as (t2 & t3 & crc & -> & Hc & H). destruct crc as [crc|]; [|by destruct H].
  destruct H as [-> H]. injection H as H. destruct crc as [crc|e]; [|done].
  cbn [result_bind] in H. case_bool_decide as Hcrc; [|done]. rewrite app_nil_r.
  pose proof (checksum_runs _ _ _ _ _ Hc) as ->. rewrite checksum_is_crc32 in Hcrc.
  apply negb_false_iff, bool_decide_eq_true in Hl.
  apply orb_false_iff in Hw as [Hm%negb_false_iff%bool_decide_eq_true Hn%negb_false_iff%bool_decide_eq_true].
  exists header, t2. repeat (split; [done|]). split; [|done].
  intros X c x Hin. exact (confined_runs _ _ _ _ _ _ _ (checksum_reading _ _ _) Hc Hin).
Qed.

Lemma checked_add_value a b c : checked_add a b = Some c → c = (a + b)%N.
Proof. unfold checked_add. case_bool_decide; naive_solver. Qed.

Lemma scan_file_runs bucket deadline name total tr e total' :
  runs (scan_file bucket deadline name total) tr (Some (Ok (e, total'))) → hex_name name = true →
  entry_file e = name ∧ validated bucket e tr ∧
  total' = (total + id_length (entry_identity e))%N ∧ (total' ≤ MAX_SCAN_BYTES)%N.
Proof.
  intros (file & t1 & -> & H) Hname. cbn [bind trigger] in H. destruct file as [file|]; [|by destruct H].
  destruct H as (m & t2 & -> & H). cbn [bind] in H. destruct m as [m|]; [|by destruct H].
  apply runs_bind_inv in H as (t3 & t4 & safe & -> & Hs & H).
  destruct safe; cbn [negb orb] in H; [|by destruct H]. apply safe_file_runs in Hs as (u & -> & Hp).
  case_bool_decide; [by destruct H|]. destruct (checked_add total (md_len m)) as [sum|] eqn:Hsum; [|by destruct H].
  apply checked_add_value in Hsum as ->. case_bool_decide; [by destruct H|].
  apply runs_bind_inv in H as (t5 & t6 & valid & -> & Hv & H).
  destruct valid as [[[]|]|]; [|by destruct H..].
  apply validate_runs in Hv as (header & reads & -> & Hl & Hm & Hw & Hr & Hc).
  destruct H as (after & t7 & -> & H). cbn [bind] in H. destruct after as [after|]; [|by destruct H].
  case_bool_decide as Hsame; cbn [negb] in H; [|by destruct H].
  destruct (runs_bind_inv _ _ _ _ H) as (t8 & t9 & current & -> & Hcur & H').
  apply runs_bind_inv in H' as (t10 & t11 & same & -> & Hsm & -> & Hres).
  destruct same; [|done]. injection Hres as -> ->. cbn [entry_file entry_identity id_length identity_of_file].
  split; [done|]. split; [|split; [done|lia]].
  exists file, m, u, header, reads, after, (t8 ++ t10). rewrite app_nil_r.
  do 10 (split; [done|]). apply looked_runs. exact (runs_bind _ _ _ _ _ _ Hcur Hsm).
Qed.

(** A safe temporary file. *)
Definition temporary (bucket : N) (name : string) (tr : list (obs CacheE)) : Prop :=
  temporary_name name = true ∧ ∃ i, looked_at bucket name i tr.

Lemma scan_temporary_runs bucket name tr :
  runs (scan_temporary bucket name) tr (Ok tt) → temporary bucket name tr.
Proof.
  unfold scan_temporary. destruct (temporary_name name) eqn:Hn; [|by intros [_ ?]].
  cbn [negb]. intros H. split; [done|].
  apply runs_bind_inv in H as (t1 & t2 & m & -> & Hm & H). destruct m as [m|]; [|by destruct H].
  apply runs_bind_inv in H as (t3 & t4 & safe & -> & Hs & -> & Hr). destruct safe; [|done].
  rewrite app_nil_r. exists (identity_of_file m). apply looked_runs.
  eapply runs_bind; [exact Hm|]. unfold is_ok_and, safe_file_of. apply runs_both. right.
  exists t3, []. split; [by rewrite app_nil_r|]. split; [done|]. split; [done|].
  by rewrite bool_decide_eq_true_2.
Qed.

(** A part of a trace. *)
Definition within (tr : list (obs CacheE)) (P : list (obs CacheE) → Prop) : Prop :=
  ∃ before part after, tr = before ++ part ++ after ∧ P part.

Lemma within_before tr tr' P : within tr' P → within (tr ++ tr') P.
Proof.
  intros (b & p & a & -> & H). exists (tr ++ b), p, a. split; [by rewrite <-(assoc_L (++))|done].
Qed.

Lemma within_first tr tr' P : P tr → within (tr ++ tr') P.
Proof. intros H. by exists [], tr, tr'. Qed.

Definition total_length (es : list Entry) : N :=
  foldr N.add 0%N ((id_length ∘ entry_identity) <$> es).

Lemma scan_names_runs bucket deadline names total found tr es :
  runs (scan_names bucket deadline names total found) tr (Some (Ok es)) →
  (total ≤ MAX_SCAN_BYTES)%N →
  ∃ new, es = found ++ new ∧ entry_file <$> new = filter hex_name names ∧
    (∀ name, name ∈ names → hex_name name = false → within tr (temporary bucket name)) ∧
    (∀ e, e ∈ new → within tr (validated bucket e)) ∧
    (total + total_length new ≤ MAX_SCAN_BYTES)%N.
Proof.
  revert total found tr. induction names as [|name names IH]; intros total found tr H Ht.
  { destruct H as [-> [= ->]]. exists []. rewrite app_nil_r. split; [done|]. split; [done|].
    split; [by intros ? ?%elem_of_nil|]. split; [by intros ? ?%elem_of_nil|]. unfold total_length. simpl. lia. }
  cbn [scan_names] in H. apply runs_bind_inv in H as (t1 & t2 & stop & -> & _ & H).
  destruct stop; [by destruct H|]. destruct (hex_name name) eqn:Hn.
  - apply runs_bind_inv in H as (t3 & t4 & r & -> & Hf & H). destruct r as [[[e sum]|]|]; [|by destruct H..].
    apply scan_file_runs in Hf as (Hname & Hv & -> & Hsum); [|done].
    apply IH in H as (new & -> & Hnew & Htmp & Hval & Hmax); [|done].
    exists (e :: new). rewrite <-(assoc_L (++)). split; [done|].
    rewrite filter_cons, Hn. split; [by rewrite fmap_cons, Hname, Hnew|]. split; [|split].
    + intros n [->|Hin]%elem_of_cons Hh; [congruence|]. do 2 apply within_before. by apply Htmp.
    + intros e' [->|Hin]%elem_of_cons; apply within_before; [by apply within_first|].
      apply within_before. by apply Hval.
    + unfold total_length in *. cbn [fmap list_fmap foldr compose]. lia.
  - apply runs_bind_inv in H as (t3 & t4 & r & -> & Hf & H). destruct r as [[]|]; [|by destruct H].
    apply scan_temporary_runs in Hf. apply IH in H as (new & -> & Hnew & Htmp & Hval & Hmax); [|done].
    exists new. split; [done|]. rewrite filter_cons, Hn. split; [done|]. split; [|split; [|done]].
    + intros n [->|Hin]%elem_of_cons Hh; apply within_before; [by apply within_first|].
      apply within_before. by apply Htmp.
    + intros e Hin. do 2 apply within_before. by apply Hval.
Qed.

Lemma scan_entries_runs bucket deadline tr es :
  runs (scan_entries bucket deadline) tr (Some (Ok es)) →
  ∃ listed rest,
    tr = Obs (DirectoryStream bucket) (Ok listed) :: rest ∧
    let names := filter (λ name, name ≠ "." ∧ name ≠ "..") listed in
    (N.of_nat (length names) ≤ MAX_ENTRIES)%N ∧
    entry_file <$> es = filter hex_name (merge_sort String.le names) ∧
    (∀ name, name ∈ names → hex_name name = false → within rest (temporary bucket name)) ∧
    (∀ e, e ∈ es → within rest (validated bucket e)) ∧
    (total_length es ≤ MAX_SCAN_BYTES)%N.
Proof.
  intros (t1 & t2 & r & -> & Hn & H)%runs_bind_inv.
  destruct Hn as (listed & t3 & -> & Hn). cbn [bind] in Hn.
  destruct listed as [listed|]; [|destruct Hn as [_ ->]; by destruct H].
  destruct Hn as [-> ->]. case_bool_decide as Hmax; [|by destruct H].
  destruct (scan_names_runs _ _ _ _ _ _ _ H) as (new & -> & Hnew & Htmp & Hval & Hsum); [done|].
  cbn [app].
  exists listed, t2. split; [done|]. split; [done|]. split; [exact Hnew|]. split; [|split; [done|lia]].
  intros name Hin. apply Htmp. by rewrite merge_sort_Permutation.
Qed.

(** A scan admits only files that it has validated. If it finds entries, they are, in
    the order of their names, the files of the bucket whose name is of a final file; each of
    them was opened and is private, has the header and the length of its format and the
    checksum of its payload, and was still the same by its descriptor and by its name
    afterwards; every other file of the bucket is a private temporary file of the producer,
    and there are not more names or bytes than the bounds. *)
Theorem scans_admit_validated_files bucket deadline tr es
    (Hrun : runs (scan_entries bucket deadline) tr (Some (Ok es))) :
  ∃ listed rest,
    tr = Obs (DirectoryStream bucket) (Ok listed) :: rest ∧
    let names := filter (λ name, name ≠ "." ∧ name ≠ "..") listed in
    (N.of_nat (length names) ≤ MAX_ENTRIES)%N ∧
    entry_file <$> es = filter hex_name (merge_sort String.le names) ∧
    (∀ name, name ∈ names → hex_name name = false → within rest (temporary bucket name)) ∧
    (∀ e, e ∈ es → within rest (validated bucket e)) ∧
    (total_length es ≤ MAX_SCAN_BYTES)%N.
Proof. by eapply scan_entries_runs. Qed.

(** ** The removal *)

(** What is unlinked, with the answer. *)
Definition unlink_of (o : obs CacheE) : option (N * string * result unit IoError) :=
  match o with
  | @Obs _ X e x =>
      match e in CacheE X return X → option (N * string * result unit IoError) with
      | UnlinkIn parent name => λ x, Some (parent, name, x)
      | _ => λ _, None
      end x
  end.

Abbreviation unlinked tr := (omap unlink_of tr).

(** A call that unlinks nothing and starts no child. *)
Definition keeps (X : Type) (e : CacheE X) : Prop :=
  match e with UnlinkIn _ _ | Spawn _ => False | _ => True end.

Lemma keeps_unlinked {A} (p : caching A) tr a :
  confined keeps p → runs p tr a → unlinked tr = [].
Proof.
  revert tr. induction p as [b|X e k IH]; intros tr Hc Hr; [by destruct Hr as [-> _]|].
  destruct Hc as [He Hc], Hr as (x & t & -> & Hr). cbn [omap list_omap].
  rewrite (IH x t (Hc x) Hr). by destruct e.
Qed.

Lemma keeps_trigger {X} (e : CacheE X) : keeps X e → confined keeps (trigger e).
Proof. by split. Qed.

Lemma keeps_both a b : confined keeps a → confined keeps b → confined keeps (both a b).
Proof. intros Ha Hb. apply confined_bind; [done|]. by intros []. Qed.

Lemma keeps_safe_file m : confined keeps (safe_file m).
Proof. apply keeps_both; [done|]. by split. Qed.

Lemma keeps_safe_file_of i m : confined keeps (safe_file_of i m).
Proof. apply keeps_both; [apply keeps_safe_file|done]. Qed.

Lemma keeps_safe_directory_of i m : confined keeps (safe_directory_of i m).
Proof. apply keeps_both; [|done]. apply keeps_both; [done|]. by split. Qed.

Lemma keeps_entry_metadata parent name : confined keeps (entry_metadata parent name).
Proof. split; [done|]. intros [?|?]; [|done]. by split. Qed.

Lemma keeps_metadata_test (p : caching (result Metadata IoError)) (test : Metadata → caching bool) :
  confined keeps p → (∀ m, confined keeps (test m)) →
  confined keeps (do* m := p in is_ok_and m test).
Proof. intros Hp Ht. apply confined_bind; [done|]. intros [m|e]; [apply Ht|done]. Qed.

Lemma keeps_late deadline : confined keeps (cancelled_or_late deadline).
Proof. split; [done|]. intros []; [done|]. by split. Qed.

Lemma keeps_capture binary : confined keeps (capture_binding binary).
Proof. split; [done|]. intros u. split; [done|]. by intros [m|e]. Qed.

Lemma keeps_bindings v : confined keeps (bindings_current v).
Proof.
  repeat (apply keeps_both || apply keeps_metadata_test || apply keeps_entry_metadata ||
          (intros; apply keeps_safe_directory_of)).
  - apply confined_bind; [apply keeps_capture|]. by intros [?|?].
  - split; [done|]. intros [?|?]; [|done]. by split.
Qed.

#[export] Hint Resolve keeps_trigger keeps_both keeps_safe_file keeps_safe_file_of keeps_metadata_test
  keeps_entry_metadata keeps_late keeps_capture keeps_bindings : keeps.

Lemma keeps_confirm v deadline e : confined keeps (confirm_entry v deadline e).
Proof.
  apply confined_bind; [auto with keeps|]. intros []; [done|].
  apply confined_bind; [auto with keeps|]. intros []; [|done].
  split; [done|]. intros [file|]; [|done]. split; [done|]. intros [m|]; [|done].
  apply keeps_both; [auto with keeps|]. apply keeps_both; [|by split].
  apply keeps_metadata_test; auto with keeps.
Qed.

Lemma keeps_validate file length deadline : confined keeps (validate_cache_file file length deadline).
Proof.
  apply confined_bind; [by split|]. intros [header|]; [|exact I].
  destruct (negb _); [exact I|]. destruct (_ || _); [exact I|].
  apply confined_bind; [|by intros [?|]].
  eapply confined_mono; [|apply checksum_reading]. by intros X [].
Qed.

Lemma keeps_scan_file bucket deadline name total : confined keeps (scan_file bucket deadline name total).
Proof.
  apply confined_bind; [by split|]. intros [file|]; [|exact I].
  apply confined_bind; [by split|]. intros [m|]; [|exact I].
  apply confined_bind; [auto with keeps|]. intros safe. destruct (negb safe || _); [exact I|].
  destruct (checked_add total (md_len m)) as [sum|]; [|exact I].
  destruct (bool_decide (MAX_SCAN_BYTES < sum)%N); [exact I|].
  apply confined_bind; [apply keeps_validate|]. intros [[?|?]|]; [|exact I..].
  apply confined_bind; [by split|]. intros [after|]; [|exact I]. destruct (negb _); [exact I|].
  apply confined_bind; [auto with keeps|]. intros current.
  apply confined_bind; [|done]. destruct current; [apply keeps_safe_file_of|exact I].
Qed.

Lemma keeps_scan_temporary bucket name : confined keeps (scan_temporary bucket name).
Proof.
  unfold scan_temporary. destruct (negb _); [exact I|]. apply confined_bind; [auto with keeps|].
  intros [m|]; [|exact I]. by apply confined_bind; [auto with keeps|].
Qed.

Lemma keeps_scan bucket deadline : confined keeps (scan_entries bucket deadline).
Proof.
  apply confined_bind; [by split; [done|]; intros [?|?]|]. intros [names|]; [|exact I].
  generalize 0%N ([] : list Entry). induction (merge_sort String.le names) as [|name l IH]; [done|].
  intros total found. cbn [scan_names]. apply confined_bind; [auto with keeps|]. intros []; [exact I|].
  destruct (hex_name name).
  - apply confined_bind; [apply keeps_scan_file|]. intros [[[e sum]|]|]; [apply IH|exact I..].
  - apply confined_bind; [apply keeps_scan_temporary|]. intros [?|?]; [apply IH|exact I].
Qed.

(** An entry that was just confirmed: in time and not cancelled, with the bindings current,
    it was looked at twice, by a descriptor and by its name, and last the probe for
    cancellation said no. *)
Definition confirmed (v : NodeCompileCacheMaintenance) (deadline : N) (e : Entry)
    (tr : list (obs CacheE)) : Prop :=
  ∃ now bindings look1 look2,
    tr = Obs CancelProbe false :: Obs Now now
           :: bindings ++ look1 ++ look2 ++ [Obs CancelProbe false] ∧
    (now < deadline)%N ∧ runs (bindings_current v) bindings true ∧
    looked_at (bucket v) (entry_file e) (entry_identity e) look1 ∧
    looked_at (bucket v) (entry_file e) (entry_identity e) look2.

Lemma confirm_runs v deadline e tr :
  runs (confirm_entry v deadline e) tr true → confirmed v deadline e tr.
Proof.
  intros (t1 & t2 & stop & -> & Hl & H)%runs_bind_inv. destruct stop; [by destruct H|].
  apply late_runs in Hl as [[? _]|(now & -> & Hnow)]; [done|].
  apply runs_bind_inv in H as (t3 & t4 & current & -> & Hb & H). destruct current; [|by destruct H].
  destruct H as (file & t5 & -> & H). cbn [bind] in H. destruct file as [file|]; [|by destruct H].
  destruct H as (m & t6 & -> & H). cbn [bind] in H. destruct m as [m|]; [|by destruct H].
  apply both_true in H as (t7 & t8 & -> & Hs & H). apply safe_file_of_runs in Hs as (u & -> & Hp & Hi).
  apply both_true in H as (t9 & t10 & -> & Hlook & c & t11 & -> & -> & Hc).
  apply looked_runs in Hlook. destruct c; [done|].
  exists now, t3, [Obs (OpenIn (bucket v) (entry_file e) false) (Ok file); Obs (StatFd file) (Ok m);
    Obs CacheEuid u], t9.
  split; [done|]. symmetry in Hnow. apply bool_decide_eq_false in Hnow.
  split; [lia|]. split; [done|]. split; [by exists file, m, u|done].
Qed.

(** The unlinks of the entries, each of which succeeded. *)
Definition removed_of (v : NodeCompileCacheMaintenance) (es : list Entry) :
    list (N * string * result unit IoError) :=
  (λ e, (bucket v, entry_file e, Ok tt)) <$> es.

(** What a removal answers for what it unlinked of its plan. *)
Definition accounts (v : NodeCompileCacheMaintenance) (plan : list Entry) (count bytes : N)
    (r : NodeCompileCacheResult) (unlinks : list (N * string * result unit IoError)) : Prop :=
  match node_outcome r with
  | CacheCompleted =>
      unlinks = removed_of v plan ∧
      node_removed_entry_count r = Some (count + N.of_nat (length plan))%N ∧
      node_removed_logical_bytes r = Some (bytes + total_length plan)%N
  | CacheBusy => unlinks = [] ∧ r = unsuccessful CacheBusy
  | CacheFailed =>
      r = unsuccessful CacheFailed ∧
      ∃ before after, plan = before ++ after ∧ unlinks = removed_of v before
  | CacheDeliveryUnknown =>
      r = unsuccessful CacheDeliveryUnknown ∧
      ∃ before e after error, plan = before ++ e :: after ∧
        unlinks = removed_of v before ++ [(bucket v, entry_file e, Err error)]
  | CacheRunning | CacheNoOp => False
  end.

Lemma remove_plan_accounts v deadline plan count bytes tr r :
  runs (remove_plan v deadline plan count bytes) tr r →
  node_outcome r ≠ CacheBusy ∧ accounts v plan count bytes r (unlinked tr).
Proof.
  revert count bytes tr. induction plan as [|e plan IH]; intros count bytes tr H.
  { destruct H as [-> ->]. split; [done|]. unfold accounts, total_length. simpl.
    by rewrite !N.add_0_r. }
  cbn [remove_plan] in H. apply runs_bind_inv in H as (t1 & t2 & ok & -> & Hc & H).
  rewrite omap_app, (keeps_unlinked _ _ _ (keeps_confirm _ _ _) Hc), app_nil_l.
  destruct ok; cbn [negb] in H; [|destruct H as [-> ->]; split; [done|]; split; [done|]; by exists [], (e :: plan)].
  destruct H as (u & t3 & -> & H). cbn [bind] in H. cbn [omap list_omap unlink_of].
  destruct u as [[]|error].
  - apply IH in H as [Hb H]. split; [done|]. unfold accounts in *.
    destruct (node_outcome r); try done.
    + destruct H as (-> & -> & ->). split; [done|]. unfold total_length. cbn [fmap list_fmap foldr compose length].
      split; f_equal; lia.
    + destruct H as (-> & before & after & -> & ->). split; [done|]. by exists (e :: before), after.
    + destruct H as (-> & before & e' & after & error & -> & ->). split; [done|].
      by exists (e :: before), e', after, error.
  - destruct H as [-> ->]. split; [done|]. split; [done|]. by exists [], e, plan, error.
Qed.

Lemma cons_inv_both {A} (a b : A) l k : a :: l = b :: k → a = b ∧ l = k.
Proof. by intros [= -> ->]. Qed.

Lemma unlink_inv parent name u parent' name' u' :
  Obs (UnlinkIn parent name) u = Obs (UnlinkIn parent' name') u' →
  parent = parent' ∧ name = name' ∧ u = u'.
Proof. intros H. apply (f_equal unlink_of) in H. by injection H as -> -> ->. Qed.

Lemma remove_plan_at v deadline plan count bytes tr r pre parent name u post :
  runs (remove_plan v deadline plan count bytes) tr r →
  tr = pre ++ Obs (UnlinkIn parent name) u :: post →
  ∃ before e after pre1 check, plan = before ++ e :: after ∧ parent = bucket v ∧
    name = entry_file e ∧ pre = pre1 ++ check ∧ unlinked pre = removed_of v before ∧
    confirmed v deadline e check.
Proof.
  revert count bytes tr pre. induction plan as [|e plan IH]; intros count bytes tr pre H Htr.
  { destruct H as [-> _]. by destruct pre. }
  cbn [remove_plan] in H. apply runs_bind_inv in H as (t1 & t2 & ok & -> & Hc & H).
  pose proof (keeps_unlinked _ _ _ (keeps_confirm _ _ _) Hc) as Hk.
  apply app_eq_inv in Htr as [(l & -> & Hl)|(l & -> & Ht)].
  - destruct l as [|o l]; simpl in Hl.
    + rewrite app_nil_r in *. destruct ok; cbn [negb] in H; [|by destruct H as [-> _]].
      destruct H as (x & t3 & -> & H). apply cons_inv_both in Hl as [(-> & -> & _)%unlink_inv _].
      exists [], e, plan, [], pre. split; [done|]. split; [done|]. split; [done|]. split; [done|].
      split; [done|]. by eapply confirm_runs.
    + apply cons_inv_both in Hl as [<- _]. exfalso. rewrite omap_app in Hk. by apply app_nil in Hk as [_ ?].
  - destruct ok; cbn [negb] in H; [|destruct H as [-> _]; by destruct l].
    destruct H as (x & t3 & -> & H). cbn [bind] in H.
    destruct l as [|o l].
    + apply cons_inv_both in Ht as [(<- & <- & _)%unlink_inv _]. rewrite app_nil_r. exists [], e, plan, [], t1.
      split; [done|]. split; [done|]. split; [done|]. split; [done|]. split; [done|]. by eapply confirm_runs.
    + apply cons_inv_both in Ht as [<- ->]. destruct x as [[]|error]; [|destruct H as [H _]; by destruct l].
      destruct (IH _ _ _ _ H eq_refl) as (before & e' & after & pre1 & check & -> & -> & -> & -> & Hu & Hcf).
      exists (e :: before), e', after, (t1 ++ Obs (UnlinkIn (bucket v) (entry_file e)) (Ok tt) :: pre1), check.
      split; [done|]. split; [done|]. split; [done|]. split; [by rewrite <-(assoc_L (++))|].
      split; [|done]. rewrite omap_app, Hk. cbn [app omap list_omap unlink_of]. by rewrite Hu.
Qed.

(** A removal: it unlinks nothing, or it removes its plan after a scan that found it. *)
Lemma remove_files_runs v tr r :
  runs (remove_files v) tr r →
  (unlinked tr = [] ∧
     (r = None ∨ r = Some (unsuccessful CacheFailed) ∨ r = Some (unsuccessful CacheBusy))) ∨
  ∃ started start scan removal result,
    tr = (Obs Now started :: start ++ scan) ++ removal ∧ r = Some result ∧
    unlinked (Obs Now started :: start ++ scan) = [] ∧
    runs (scan_entries (bucket v) (started + BUDGET)) scan (Some (Ok (entries v))) ∧
    runs (remove_plan v (started + BUDGET) (entries v) 0 0) removal result.
Proof.
  intros (started & t1 & -> & H). cbn [bind] in H.
  destruct H as (cancelled & t2 & -> & H). cbn [bind] in H.
  destruct cancelled; [destruct H as [-> ->]; left; split; auto|].
  apply runs_bind_inv in H as (t3 & t4 & current & -> & Hb & H).
  apply (keeps_unlinked _ _ _ (keeps_bindings _)) in Hb.
  destruct current; cbn [negb] in H.
  2:{ destruct H as [-> ->]. left. cbn [omap list_omap unlink_of]. rewrite app_nil_r. auto. }
  apply runs_bind_inv in H as (t5 & t6 & scanned & -> & Hs & H).
  pose proof (keeps_unlinked _ _ _ (keeps_scan _ _) Hs) as Hks.
  assert (Hquiet : unlinked (Obs Now started :: (Obs CancelProbe false :: t3) ++ t5) = []).
  { cbn [app omap list_omap unlink_of]. by rewrite omap_app, Hb, Hks. }
  assert (Hleft : ∀ r', t6 = [] → r = r' →
    (r' = None ∨ r' = Some (unsuccessful CacheFailed) ∨ r' = Some (unsuccessful CacheBusy)) →
    unlinked (Obs Now started :: Obs CancelProbe false :: t3 ++ t5 ++ t6) = [] ∧
      (r = None ∨ r = Some (unsuccessful CacheFailed) ∨ r = Some (unsuccessful CacheBusy))).
  { intros r' -> -> Hr. rewrite app_nil_r. by split. }
  destruct scanned as [[current|error]|].
  2:{ left. destruct error, H as [Ht Hr]; (eapply Hleft; [exact Ht|exact Hr|auto]). }
  2:{ left. destruct H as [Ht Hr]; (eapply Hleft; [exact Ht|exact Hr|auto]). }
  destruct (same_entries current (entries v)) eqn:Hsame; cbn [negb] in H.
  2:{ left. destruct H as [Ht Hr]; (eapply Hleft; [exact Ht|exact Hr|auto]). }
  unfold same_entries in Hsame. apply bool_decide_eq_true in Hsame as ->. right.
  apply runs_bind_inv in H as (t7 & t8 & result & -> & Hp & -> & ->). rewrite app_nil_r.
  exists started, (Obs CancelProbe false :: t3), t5, t7, result.
  split; [cbn [app]; by rewrite <-(assoc_L (++))|]. by split_and!.
Qed.

(** An unlink of the removal, which comes after an entry was confirmed. *)
Lemma remove_files_at v tr r pre parent name u post :
  runs (remove_files v) tr r → tr = pre ++ Obs (UnlinkIn parent name) u :: post →
  ∃ started start scan before e after rest check,
    entries v = before ++ e :: after ∧ parent = bucket v ∧ name = entry_file e ∧
    pre = Obs Now started :: start ++ scan ++ rest ++ check ∧
    runs (scan_entries (bucket v) (started + BUDGET)) scan (Some (Ok (entries v))) ∧
    unlinked pre = removed_of v before ∧ confirmed v (started + BUDGET) e check.
Proof.
  assert (Hnone : ∀ t, unlinked t = [] → t = pre ++ Obs (UnlinkIn parent name) u :: post → False).
  { intros t Ht ->. rewrite omap_app in Ht. by apply app_nil in Ht as [_ ?]. }
  intros [[Hk _]|(started & start & scan & removal & result & -> & _ & Hk & Hs & Hp)]%remove_files_runs Htr;
    [by destruct (Hnone _ Hk)|].
  apply app_eq_inv in Htr as [(l & Hq & Hl)|(l & -> & Hl)].
  - destruct l as [|o l]; simpl in Hl.
    + destruct (remove_plan_at _ _ _ _ _ _ _ [] _ _ _ _ Hp (eq_sym Hl)) as
        (before & e & after & pre1 & check & _ & _ & _ & Hnil & _ & Hcf).
      symmetry in Hnil. apply app_nil in Hnil as [-> ->]. by destruct Hcf as (?&?&?&?&?&?).
    + apply cons_inv_both in Hl as [<- _]. exfalso. rewrite Hq, omap_app in Hk.
      by apply app_nil in Hk as [_ ?].
  - destruct (remove_plan_at _ _ _ _ _ _ _ _ _ _ _ _ Hp Hl) as
      (before & e & after & pre1 & check & Hent & -> & -> & -> & Hu & Hcf).
    exists started, start, scan, before, e, after, pre1, check.
    split; [done|]. split; [done|]. split; [done|].
    split; [cbn [app]; by rewrite <-!(assoc_L (++))|]. split; [done|]. split; [|done].
    by rewrite omap_app, Hk.
Qed.

(** [C16] The removal unlinks confirmed entries of its plan. Every unlink is of a name of the
    frozen plan, in the bucket that was opened and in the order of the plan, after a scan
    that found exactly the plan again; and directly before it the removal was in time, the
    producer and the directories were the bound ones, the file was twice looked at as the
    frozen one, by a descriptor and by its name, and the caller had not cancelled. The
    answer accounts for it: only a removal of the whole plan is completed, with its number
    and its bytes; a busy one has unlinked nothing; a failed one unlinked a part that
    begins the plan, and an unknown one stopped at an unlink that failed. *)
Theorem node_cache_removes_its_plan v tr r (Hrun : runs (remove_files v) tr (Some r)) :
  (∀ pre parent name u post, tr = pre ++ Obs (UnlinkIn parent name) u :: post →
     ∃ started start scan before e after rest check,
       entries v = before ++ e :: after ∧ parent = bucket v ∧ name = entry_file e ∧
       pre = Obs Now started :: start ++ scan ++ rest ++ check ∧
       runs (scan_entries (bucket v) (started + BUDGET)) scan (Some (Ok (entries v))) ∧
       unlinked pre = removed_of v before ∧ confirmed v (started + BUDGET) e check) ∧
  accounts v (entries v) 0 0 r (unlinked tr).
Proof.
  split; [intros pre parent name u post Htr; exact (remove_files_at _ _ _ _ _ _ _ _ Hrun Htr)|].
  destruct (remove_files_runs _ _ _ Hrun) as
    [[-> [[=]|[[= ->]|[= ->]]]]|(started & start & scan & removal & result & -> & [= ->] & Hk & _ & Hp)].
  - split; [done|]. by exists [], (entries v).
  - by split.
  - rewrite omap_app, Hk. by apply remove_plan_accounts in Hp as [_ ?].
Qed.
