(* ===== verification/UvCacheFacts.v ===== *)
(** UvCacheFacts: the supervisor of the uv cache.

    The native mutator starts only under a capability whose root, producer and parent were
    just checked; it is reaped before the supervisor answers; and the daemon takes no answer
    that the supervisor did not give. *)

From S2P Require Import Prelude Text Store Protocol Effects Procargs Producer UvCache.
From Stdlib Require Import Ascii.

(** ** The supervisor's own calls *)

Lemma childless_nonblocking pipe : confined childless (nonblocking pipe).
Proof. by split. Qed.

Lemma childless_supervise_step child pipe parent deadline captured :
  confined childless (supervise_step child pipe parent deadline captured).
Proof.
  apply childless_some; [apply childless_drain|]. intros [c|e]; [|exact I].
  split; [exact I|]. intros [[st|]|e]; [exact I| |exact I]. split; [exact I|]. intros read.
  cbn [bind]. case_match; [exact I|]. split; [exact I|]. intros now. cbn [bind].
  case_bool_decide; [exact I|]. by split.
Qed.

Lemma childless_capability_step file deadline captured :
  confined childless (capability_step file deadline captured).
Proof.
  split; [exact I|]. intros [bytes| |]; cbn [bind]; [by destruct (is_empty bytes)| |exact I].
  split; [exact I|]. intros now. cbn [bind]. case_bool_decide; [exact I|]. by split.
Qed.

(** The body of the supervisor, between the start of its child and the end. *)
Lemma childless_execute child parent budget :
  confined childless
    (do* reader := nonblocking (child_pipe child) in
     match reader with
     | None => Ret (Some unknown_result)
     | Some pipe =>
         do* started := trigger Now in
         some* r := polling 38 (supervise_step (child_id child) pipe parent (started + budget)) "" in
         match r with
         | None => Ret (Some unknown_result)
         | Some (status, captured) =>
             some* drained := drain pipe captured in
             Ret (Some (match drained with
                        | Err _ => unknown_result
                        | Ok captured => result_of_child status (from_utf8_lossy captured)
                        end))
         end
     end).
Proof.
  apply confined_bind; [apply childless_nonblocking|]. intros [pipe|]; [|exact I].
  apply confined_bind; [by split|]. intros started. apply childless_some.
  - apply confined_polling. intros s. apply childless_supervise_step.
  - intros [[st c]|]; [|exact I]. by apply childless_some; [apply childless_drain|].
Qed.

Lemma supervise_one_child parent producer root_fd budget tr r :
  runs (supervise parent producer root_fd budget) tr (Some r) → one_child tr.
Proof.
  intros (child & t1 & -> & H). cbn [bind] in H.
  destruct child as [child|e]; [|destruct H as [-> _]; by apply (child_failed [])].
  apply runs_bind_inv in H as (t2 & t3 & res & -> & Hx & H). destruct res as [res|]; [|by destruct H].
  destruct H as [-> _]. rewrite app_nil_r.
  apply owning_reaps in Hx as (run & last & -> & Hrun & Hl).
  apply (child_reaped []); [done| |done].
  by apply (childless_trace _ _ _ (childless_execute child parent budget)) in Hrun.
Qed.

(** ** The start of the mutator *)

(** What a trace starts. *)
Definition spawned (o : obs CacheE) : option Command :=
  match o with
  | @Obs _ X e x => match e with Spawn c => Some c | _ => None end
  end.

Lemma childless_spawned tr : Forall without_child tr → omap spawned tr = [].
Proof.
  induction 1 as [|[X e x] tr He _ IH]; [done|]. cbn [omap list_omap]. rewrite IH. by destruct e.
Qed.

Lemma reaped_spawned child tr : reaped child tr → omap spawned tr = [].
Proof. by intros [(? & ->)|(? & ->)]. Qed.

(** ** What was read *)

(** The bytes that reads of a pipe gave. *)
Definition piped (fd : N) (o : obs CacheE) : option string :=
  match o with
  | @Obs _ X e x =>
      match e in CacheE X return X → option string with
      | ReadPipe f _ => λ x, match x with
                             | ReadBytes bytes => if bool_decide (f = fd) then Some bytes else None
                             | _ => None
                             end
      | _ => λ _, None
      end x
  end.

Definition read_from (fd : N) (tr : cache_trace) : string := foldr String.append "" (omap (piped fd) tr).

Lemma read_from_app fd a b : read_from fd (a ++ b) = read_from fd a +:+ read_from fd b.
Proof.
  unfold read_from. rewrite omap_app. induction (omap (piped fd) a) as [|s l IH]; [done|].
  cbn [foldr app]. by rewrite IH, append_assoc.
Qed.

Lemma drain_step_reads pipe captured tr r :
  runs (drain_step pipe captured) tr r →
  match r with
  | inl captured' | inr (Ok captured') => captured' = captured +:+ read_from pipe tr
  | inr (Err _) => True
  end.
Proof.
  unfold drain_step. case_bool_decide; [by intros [-> ->]|]. intros (a & t & -> & -> & ->).
  unfold read_from. cbn [omap list_omap piped foldr].
  destruct a as [bytes| |]; [|by rewrite append_empty|done].
  rewrite bool_decide_eq_true_2 by done. cbn [foldr]. destruct bytes; simpl; by rewrite !append_empty.
Qed.

Lemma drain_reads pipe captured tr captured' :
  runs (drain pipe captured) tr (Some (Ok captured')) → captured' = captured +:+ read_from pipe tr.
Proof.
  intros (n & t1 & s & t2 & -> & H1 & H2%drain_step_reads)%looping_runs.
  rewrite read_from_app, <-append_assoc, H2. f_equal. clear H2.
  induction H1 as [s|n s u1 s1 u2 s2 H%drain_step_reads _ IH]; [by rewrite append_empty|].
  by rewrite read_from_app, <-append_assoc, <-H.
Qed.

Lemma supervise_step_reads child pipe parent deadline captured tr r :
  runs (supervise_step child pipe parent deadline captured) tr (Some r) →
  match r with
  | inl captured' => captured' = captured +:+ read_from pipe tr
  | inr (Some (status, captured')) =>
      captured' = captured +:+ read_from pipe tr ∧ Obs (TryWait child) (Ok (Some status)) ∈ tr
  | inr None => True
  end.
Proof.
  intros (t1 & t2 & d & -> & Hd & H)%runs_bind_inv.
  destruct d as [[c|e]|]; [|by destruct H as [_ [= ->]]|by destruct H].
  apply drain_reads in Hd as ->. rewrite read_from_app, <-append_assoc.
  destruct H as (st & t3 & -> & H). cbn [bind] in H. destruct st as [[st|]|e].
  - destruct H as [-> [= ->]]. cbn. rewrite append_empty. split; [done|].
    apply elem_of_app. right. left.
  - destruct H as (read & t4 & -> & H). cbn [bind] in H. case_match; [by destruct H as [_ [= ->]]|].
    destruct H as (now & t5 & -> & H). cbn [bind] in H. case_bool_decide; [by destruct H as [_ [= ->]]|].
    destruct H as ([] & t6 & -> & -> & [= ->]). cbn. by rewrite append_empty.
  - by destruct H as [_ [= ->]].
Qed.

Lemma supervise_steps_read child pipe parent deadline n captured tr captured' :
  loop_steps (partial_step (supervise_step child pipe parent deadline)) n captured tr captured' →
  captured' = captured +:+ read_from pipe tr.
Proof.
  induction 1 as [s|n s u1 s1 u2 s2 H%partial_step_runs%supervise_step_reads _ IH];
    [by rewrite append_empty|]. by rewrite read_from_app, <-append_assoc, <-H.
Qed.

(** The supervisor's result: unknown, or made of the status of its child and of all that it
    read from it. *)
Lemma execute_supervisor_result child parent budget tr r :
  runs (execute_supervisor child parent budget) tr (Some r) →
  r = unknown_result ∨
  ∃ status, Obs (TryWait (child_id child)) (Ok (Some status)) ∈ tr ∧
    r = result_of_child status (from_utf8_lossy (read_from (child_pipe child) tr)).
Proof.
  intros (run & last & -> & H & Hl)%owning_reaps.
  assert (read_from (child_pipe child) last = "") as Hlast by (by destruct Hl as [(? & ->)|(? & ->)]).
  rewrite read_from_app, Hlast, append_empty.
  apply runs_bind_inv in H as (t1 & t2 & reader & -> & Hset & H).
  destruct Hset as (set & t0 & -> & -> & ->). destruct set as [[]|e]; [|destruct H as [_ [= ->]]; by left].
  apply runs_bind_inv in H as (t1' & t2' & started & -> & Hnow & H).
  destruct Hnow as (now & t0' & -> & -> & ->).
  apply runs_bind_inv in H as (t3 & t4 & ended & -> & Hp & H). destruct ended as [ended|]; [|by destruct H].
  apply polling_runs in Hp as (n & u1 & s & u2 & -> & Hs%supervise_steps_read & He%supervise_step_reads).
  destruct ended as [[status captured]|]; [|destruct H as [_ [= ->]]; by left].
  destruct He as [-> Hin]. apply runs_bind_inv in H as (t5 & t6 & d & -> & Hd & H).
  destruct d as [d|]; [|by destruct H]. destruct H as [-> [= ->]].
  destruct d as [captured|e]; [right|by left]. exists status.
  split; [apply elem_of_app; left; do 2 right; rewrite !elem_of_app; auto|].
  apply drain_reads in Hd as ->. rewrite app_nil_r.
  f_equal. f_equal. transitivity (read_from (child_pipe child) ((u1 ++ u2) ++ t5)); [|reflexivity].
  by rewrite !read_from_app, Hs.
Qed.

Section Supervisor.
Context `{JCap : Json NativeCacheCapability, JSup : Json SupervisorResult}.

Lemma childless_read_capability fd : confined childless (read_capability fd).
Proof.
  apply confined_bind; [by split|]. intros [[]|e]; [|exact I].
  apply confined_bind; [by split|]. intros [[]|e]; [|exact I].
  apply confined_bind; [by split|]. intros started. apply childless_some; [|done].
  apply confined_looping. intros s. apply childless_capability_step.
Qed.

(** The last checks before the mutator is started: the root that was inherited, the producer,
    and the parent, which is there and silent. *)
Definition start_checks (root_fd parent : N) (binary : string) (cap : NativeCacheCapability)
    (tr : cache_trace) : Prop :=
  ∃ m u producer,
    tr = [Obs (TakeInherited root_fd) (Ok tt); Obs (StatFd root_fd) (Ok m); Obs CacheEuid u;
          Obs (Stat binary) (Ok producer); Obs (SetNonblocking parent) (Ok tt);
          Obs (ReadPipe parent 1) ReadWouldBlock] ∧
    is_dir m = true ∧ md_dev m = root_device cap ∧ md_ino m = root_inode cap ∧
    is_file producer = true ∧ md_uid producer ∈ [0%N; u] ∧ guarded producer = true ∧
    cap_binding cap = [binding_of producer] ∧ cap_token cap ≠ "" ∧ cap_epoch cap ≠ "".

Lemma is_empty_spec s : is_empty s = false → s ≠ "".
Proof. by destruct s. Qed.

Lemma supervise_with_runs cap root_fd binary parent tr r :
  runs (supervise_with cap root_fd binary parent) tr r →
  (Forall without_child tr ∧ ∀ res, r ≠ Some (Ok res)) ∨
  ∃ checks run, tr = checks ++ run ∧ start_checks root_fd parent binary cap checks ∧
    runs (supervise parent binary root_fd DEFAULT_RUNTIME_BUDGET) run r.
Proof.
  intros (t1 & t2 & checked & -> & Hc & H)%runs_bind_inv.
  destruct checked as [[]|e].
  2:{ left. destruct H as [-> ->]. rewrite app_nil_r. split; [|done]. refine (childless_trace _ _ _ _ Hc).
      apply confined_step; [by split|intros _]. apply confined_step; [by split|intros m].
      apply confined_step; [apply childless_capture|intros b]. destruct (negb _); [exact I|].
      apply confined_step; [by split|intros _]. by split. }
  right. exists t1, t2. split; [done|]. split; [|done]. clear H.
  destruct Hc as (x & t3 & -> & Hc). cbn [bind] in Hc. destruct x as [[]|e]; [|by destruct Hc].
  destruct Hc as (m & t4 & -> & Hc). cbn [bind] in Hc. destruct m as [m|e]; [|by destruct Hc].
  apply runs_bind_inv in Hc as (t5 & t6 & b & -> & Hb & Hc). destruct b as [b|e]; [|by destruct Hc].
  destruct Hb as (u & t7 & -> & producer & t8 & -> & Hb). cbn [bind] in Hb.
  destruct producer as [producer|e]; [|by destruct Hb].
  destruct Hb as [-> Hb]. destruct (_ || negb (guarded producer)) eqn:Hsafe; [done|].
  injection Hb as ->.
  destruct (capability_matches cap m _) eqn:Hm; cbn [negb] in Hc; [|by destruct Hc].
  destruct Hc as (y & t9 & -> & Hc). cbn [bind] in Hc. destruct y as [[]|e]; [|by destruct Hc].
  destruct Hc as (z & t10 & -> & -> & Hz). destruct z as [bytes| |]; [by destruct (is_empty bytes)| |done].
  unfold capability_matches in Hm. bool_facts.
  exists m, u, producer. split; [done|].
  split; [done|]. split; [done|]. split; [done|]. split; [done|]. split; [done|]. split; [done|].
  split; [done|]. by split; apply is_empty_spec.
Qed.

(** What a run of the supervisor is: it stops before it starts anything, or it reads the
    capability, makes the last checks and supervises. *)
Lemma execute_uv_runs args parent tr r :
  runs (execute_uv_supervisor args parent) tr r →
  (Forall without_child tr ∧ ∀ res, r ≠ Some (Ok res)) ∨
  ∃ capability_text root_text binary capability_fd root_fd cap reading checks run,
    args = [NATIVE_CACHE_CAPABILITY_FLAG; capability_text; root_text; binary] ∧
    parse_inherited_fd capability_text = Some capability_fd ∧
    parse_inherited_fd root_text = Some root_fd ∧ capability_fd ≠ root_fd ∧
    is_absolute binary = true ∧ tr = reading ++ checks ++ run ∧
    runs (read_capability capability_fd) reading (Some (Ok cap)) ∧
    start_checks root_fd parent binary cap checks ∧
    runs (supervise parent binary root_fd DEFAULT_RUNTIME_BUDGET) run r.
Proof.
  assert (Hret : ∀ e : IoError, runs (Ret (Some (Err e))) tr r →
    Forall without_child tr ∧ ∀ res, r ≠ Some (Ok res)) by (by intros e [-> ->]).
  destruct args as [|flag [|t1 [|t2 [|binary [|? ?]]]]];
    [by intros ?%Hret; left..| |by intros ?%Hret; left].
  unfold execute_uv_supervisor. case_bool_decide as Hflag; cbn [negb]; [|by intros ?%Hret; left].
  destruct (parse_inherited_fd t1) as [cfd|] eqn:H1; [|by intros ?%Hret; left].
  destruct (parse_inherited_fd t2) as [rfd|] eqn:H2; [|by intros ?%Hret; left].
  case_bool_decide as Hne; [by intros ?%Hret; left|].
  destruct (is_absolute binary) eqn:Habs; cbn [negb]; [|by intros ?%Hret; left].
  intros (rd & t3 & cap & -> & Hrd & H)%runs_bind_inv.
  pose proof (childless_trace _ _ _ (childless_read_capability cfd) Hrd) as Hquiet.
  destruct cap as [[cap|e]|]; [|destruct H as [-> ->]; rewrite app_nil_r; by left..].
  apply supervise_with_runs in H as [[H Hr]|(checks & run & -> & Hc & H)];
    [left; split; [by apply Forall_app|done]|].
  right. subst flag. by exists t1, t2, binary, cfd, rfd, cap, rd, checks, run.
Qed.

Lemma checks_childless root_fd parent binary cap tr :
  start_checks root_fd parent binary cap tr → Forall without_child tr.
Proof. intros (m & u & producer & -> & _). by repeat constructor. Qed.

(** [C17] The mutator starts only with the authority of its capability. Whatever the
    supervisor starts is the one prune command, with the open root as its directory, of the
    producer that it was called with; before, it read the whole capability from the pipe
    that it inherited, and its last calls checked that the inherited root is the directory
    of the capability, that the producer is safe and the bound one, and that the parent is
    there. *)
Theorem mutator_starts_under_its_capability args parent tr r pre c x post
    (Hrun : runs (execute_uv_supervisor args parent) tr r)
    (Htr : tr = pre ++ Obs (Spawn c) x :: post) :
  ∃ capability_text root_text binary capability_fd root_fd cap reading checks,
    args = [NATIVE_CACHE_CAPABILITY_FLAG; capability_text; root_text; binary] ∧
    parse_inherited_fd capability_text = Some capability_fd ∧
    parse_inherited_fd root_text = Some root_fd ∧ capability_fd ≠ root_fd ∧
    is_absolute binary = true ∧ c = prune_command binary root_fd ∧
    pre = reading ++ checks ∧ runs (read_capability capability_fd) reading (Some (Ok cap)) ∧
    start_checks root_fd parent binary cap checks ∧ omap spawned post = [].
Proof.
  apply execute_uv_runs in Hrun as [[Hq%childless_spawned _]|H];
    [rewrite Htr, omap_app in Hq; by apply app_nil in Hq as [_ ?]|].
  destruct H as (t1 & t2 & binary & cfd & rfd & cap & rd & checks & run & -> & H1 & H2 & Hne & Ha & Ht &
    Hrd & Hc & H).
  pose proof (childless_trace _ _ _ (childless_read_capability cfd) Hrd) as Hq%childless_spawned.
  pose proof (checks_childless _ _ _ _ _ Hc) as Hqc%childless_spawned.
  exists t1, t2, binary, cfd, rfd, cap, rd, checks.
  do 5 (split; [done|]). destruct H as (child & t3 & -> & H). cbn [bind] in H.
  assert (omap spawned t3 = []) as Hend.
  { destruct child as [child|e]; [|by destruct H as [-> _]].
    apply runs_bind_inv in H as (t4 & t5 & res & -> & Hx & H).
    assert (t5 = []) as -> by (by destruct res; destruct H). rewrite app_nil_r.
    apply runs_bind_inv in Hx as (t6 & t7 & res' & -> & Hx & Hr).
    rewrite omap_app, (childless_spawned t6) by exact (childless_trace _ _ _ (childless_execute _ _ _) Hx).
    destruct res' as [res'|]; [|by destruct Hr as [-> _]].
    apply runs_bind_inv in Hr as (t8 & t9 & u & -> & Hr%reap_runs & -> & _).
    by rewrite app_nil_r, (reaped_spawned _ _ Hr). }
  rewrite Ht, (assoc_L (++)) in Htr.
  apply (omap_split_unique spawned) in Htr as (<- & Ho & <-);
    [|by rewrite omap_app, Hq, Hqc|done|by eexists].
  apply (f_equal spawned) in Ho. by injection Ho as <-.
Qed.

(** Children are reaped. A query of a producer and a run of the supervisor start at
    most one child; when they answer, that child, and no other, was seen to have exited, or
    was killed and waited for, and this was the last thing they did. *)
Theorem children_are_reaped :
  (∀ binary arguments budget tr q,
     runs (read_producer_output binary arguments budget) tr (Some q) → one_child tr) ∧
  (∀ args parent tr r, runs (execute_uv_supervisor args parent) tr (Some r) → one_child tr).
Proof.
  split; [by apply query_one_child|]. intros args parent tr r Hr.
  apply execute_uv_runs in Hr as [[Hq _]|H]; [by apply child_none|].
  destruct H as (t1 & t2 & binary & cfd & rfd & cap & rd & checks & run & -> & _ & _ & _ & _ & -> & Hrd &
    Hc & H).
  apply one_child_before; [exact (childless_trace _ _ _ (childless_read_capability cfd) Hrd)|].
  apply one_child_before; [by eapply checks_childless|]. by eapply supervise_one_child.
Qed.

(** ** The answer of the daemon's side *)

(** A call that reads no pipe. *)
Definition unread (X : Type) (e : CacheE X) : Prop := match e with ReadPipe _ _ => False | _ => True end.

Lemma unread_trace {A} (p : caching A) tr a fd :
  confined unread p → runs p tr a → read_from fd tr = "".
Proof.
  revert tr. induction p as [b|X e k IH]; intros tr Hc Hr; [by destruct Hr as [-> _]|].
  destruct Hc as [He Hc], Hr as (x & t & -> & Hr).
  change (Obs e x :: t) with ([Obs e x] ++ t). rewrite read_from_app, (IH x t (Hc x) Hr).
  by destruct e.
Qed.

Lemma unread_settle child deadline : confined unread (looping 38 (settle_step child deadline) tt).
Proof.
  apply confined_looping. intros s. apply confined_bind; [by split|].
  intros [[st|]|e]; [exact I|..]; (apply confined_bind; [by split|]; intros now;
    case_bool_decide; [by repeat split|by split]).
Qed.

Lemma unread_drop child : confined unread (drop_running child false).
Proof.
  apply confined_bind; [by split|].
  intros [[st|]|e]; [by split|..]; (apply confined_bind; [by split|]; intros _;
    apply confined_bind; [by split|]; intros now; apply unread_settle).
Qed.

Lemma drain_output_step_reads stdout output tr r :
  runs (drain_output_step stdout output) tr r →
  match r with
  | inl output' | inr (output', true) => output' = output +:+ read_from stdout tr
  | inr (_, false) => True
  end.
Proof.
  intros (a & t & -> & -> & ->). unfold read_from. cbn [omap list_omap piped foldr].
  destruct a as [bytes| |]; [|cbn; by rewrite append_empty|done].
  rewrite (bool_decide_eq_true_2 (stdout = stdout)) by done. cbn. rewrite append_empty.
  destruct (is_empty bytes) eqn:He; [destruct bytes; [by rewrite append_empty|done]|].
  by case_bool_decide.
Qed.

Lemma drain_output_reads r output tr output' :
  runs (drain_output r output) tr (Some (output', true)) →
  run_readable r = true ∧ output' = output +:+ read_from (run_stdout r) tr.
Proof.
  unfold drain_output. destruct (run_readable r); [|by intros [_ ?]]. split; [done|].
  apply looping_runs in H as (n & t1 & s & t2 & -> & H1 & H2%drain_output_step_reads).
  rewrite read_from_app, <-append_assoc, H2. f_equal. clear H2.
  induction H1 as [s|n s u1 s1 u2 s2 H%drain_output_step_reads _ IH]; [by rewrite append_empty|].
  by rewrite read_from_app, <-append_assoc, <-H.
Qed.

Lemma wait_step_reads r output tr res :
  runs (wait_uv_step r output) tr (Some res) →
  match res with
  | inl output' => output' = output +:+ read_from (run_stdout r) tr
  | inr (native, settle) =>
      native = delivery_unknown ∨
      settle = false ∧ Obs (TryWait (run_child r)) (Ok (Some (Some 0%Z))) ∈ tr ∧
      parse_supervisor_result (output +:+ read_from (run_stdout r) tr) = Some native
  end.
Proof.
  intros (t1 & t2 & d & -> & Hd & H)%runs_bind_inv. destruct d as [[o ok]|]; [|by destruct H].
  destruct ok; [|destruct H as [_ [= ->]]; by left].
  apply drain_output_reads in Hd as [_ ->]. rewrite read_from_app, <-append_assoc.
  destruct H as (st & t3 & -> & H). cbn [bind] in H. destruct st as [[st|]|e].
  - apply runs_bind_inv in H as (t4 & t5 & d & -> & Hd & H). destruct d as [[o ok]|]; [|by destruct H].
    destruct H as [-> [= ->]]. rewrite app_nil_r.
    destruct ok; [|by left]. apply drain_output_reads in Hd as [_ ->]. cbn [andb].
    unfold exited_well. case_bool_decide as Hst; [subst st|by left].
    change (read_from (run_stdout r) (Obs (TryWait (run_child r)) (Ok (Some (Some 0%Z))) :: t4))
      with (read_from (run_stdout r) t4).
    destruct (parse_supervisor_result _) as [parsed|] eqn:Hp; [right|by left].
    split; [done|]. split; [apply elem_of_app; right; left|done].
  - destruct H as (c & t4 & -> & H). cbn [bind] in H. destruct c; [destruct H as [_ [= ->]]; by left|].
    destruct H as (now & t5 & -> & H). cbn [bind] in H.
    case_bool_decide; [destruct H as [_ [= ->]]; by left|].
    destruct H as ([] & t6 & -> & -> & [= ->]). cbn. by rewrite append_empty.
  - destruct H as [_ [= ->]]. by left.
Qed.

Lemma wait_steps_read r n output tr output' :
  loop_steps (partial_step (wait_uv_step r)) n output tr output' →
  output' = output +:+ read_from (run_stdout r) tr.
Proof.
  induction 1 as [s|n s u1 s1 u2 s2 H%partial_step_runs%wait_step_reads _ IH];
    [by rewrite append_empty|]. by rewrite read_from_app, <-append_assoc, <-H.
Qed.

(** The parts of a wait, for any loop, settlement and drop. *)
Lemma wait_parts (p : caching (option (ToolCacheNativeResult * bool))) (s : caching (option unit))
    (d : bool → caching (option unit)) tr native :
  runs (some* ended := p in
        let '(native, settle) := ended in
        some* _ := (if settle : bool then s else Ret (Some tt)) in
        some* _ := d settle in
        Ret (Some native)) tr (Some native) →
  ∃ settle t1 t2, tr = t1 ++ t2 ∧ runs p t1 (Some (native, settle)) ∧
    (settle = false → runs (d false) t2 (Some tt)).
Proof.
  intros (t1 & t2 & ended & -> & Hp & H)%runs_bind_inv. destruct ended as [[n settle]|]; [|by destruct H].
  apply runs_bind_inv in H as (t3 & t4 & x & -> & Hx & H). destruct x as [x|]; [|by destruct H].
  apply runs_bind_inv in H as (t5 & t6 & y & -> & Hy & H). destruct y as [[]|]; [|by destruct H].
  destruct H as [-> [= ->]]. exists settle, t1, (t3 ++ t5 ++ []). split; [done|]. split; [done|].
  intros ->. destruct Hx as [-> _]. by rewrite app_nil_r.
Qed.

(** An answer that is not unknown was read from a child that exited well. *)
Lemma wait_answers r tr native :
  runs (wait_uv r) tr (Some native) →
  native = delivery_unknown ∨
  Obs (TryWait (run_child r)) (Ok (Some (Some 0%Z))) ∈ tr ∧
  parse_supervisor_result (read_from (run_stdout r) tr) = Some native.
Proof.
  intros (settle & t1 & t2 & -> & Hp & Hd)%wait_parts.
  apply polling_runs in Hp as (k & u1 & s & u2 & -> & Hs%wait_steps_read & He%wait_step_reads).
  destruct He as [?|(-> & Hin & He)]; [by left|right].
  split; [rewrite !elem_of_app; auto|].
  pose proof (unread_trace _ _ _ (run_stdout r) (unread_drop (run_child r)) (Hd eq_refl)) as Hnone.
  by rewrite !read_from_app, Hnone, append_empty, <-He, Hs.
Qed.

(** ** From the mutator to the daemon *)

Context `{JRT : !JsonRoundTrip SupervisorResult}.

(** What a known result says of the mutator: its status and its output. *)
Definition honest (native : ToolCacheNativeResult) (status : option Z) (text : string) : Prop :=
  match native_outcome native with
  | CacheBusy =>
      status = Some 2%Z ∧ contains BUSY_PHASE_MARKER text = true ∧
      contains BUSY_TIMEOUT_MARKER text = true ∧ contains MUTATION_START_MARKER text = false ∧
      native_removed_entry_count native = None ∧ native_removed_logical_bytes native = None
  | CacheCompleted =>
      status = Some 0%Z ∧
      (native_removed_entry_count native, native_removed_logical_bytes native) =
        match parse_human_summary text with
        | SummaryRemoved count bytes => (Some count, Some bytes)
        | SummaryNoWork => (Some 0%N, Some 0%N)
        | SummaryUnrecognized => (None, None)
        end
  | _ => False
  end.

Lemma parsed_result status text native :
  parse_supervisor_result (json_to_string (result_of_child status text)) = Some native →
  honest native status text.
Proof.
  unfold parse_supervisor_result. destruct (_ || _); [done|]. rewrite json_round_trip.
  unfold result_of_child, honest.
  destruct (exited_well status) eqn:Hst; cbn [negb].
  - unfold exited_well in Hst. apply bool_decide_eq_true in Hst.
    destruct (parse_human_summary text); cbn [sup_outcome sup_removed_entry_count
      sup_removed_logical_bytes]; rewrite bool_decide_eq_true_2 by done; by intros [= <-].
  - destruct (_ && _) eqn:Hbusy; [|done]. bool_facts.
    cbn [sup_outcome sup_removed_entry_count sup_removed_logical_bytes].
    rewrite (bool_decide_eq_false_2 ("busy" = "completed")) by done.
    rewrite !bool_decide_eq_true_2 by done. by intros [= <-].
Qed.

Lemma parsed_unknown : parse_supervisor_result (json_to_string unknown_result) = None.
Proof. unfold parse_supervisor_result. destruct (_ || _); [done|]. by rewrite json_round_trip. Qed.

(** [C18] The daemon takes no result that the mutator does not warrant. If the daemon's wait
    ends with a result that is known, and what it read is what its supervisor printed, then
    the supervisor started the mutator and saw it exit: busy only with the status and the
    messages of a refused lock and without the message that begins the removal, completed
    only with success, and the counts are those of the summary that it printed. *)
Theorem native_results_are_honest r tr native args tr' code
    (Hwait : runs (wait_uv r) tr (Some native)) (Hknown : native ≠ delivery_unknown)
    (Hsup : runs (run_uv_supervisor args) tr' (Some (code, read_from (run_stdout r) tr))) :
  code = 0%N ∧
  ∃ before c child run status,
    tr' = before ++ Obs (Spawn c) (Ok child) :: run ∧
    Obs (TryWait (child_id child)) (Ok (Some status)) ∈ run ∧
    honest native status (from_utf8_lossy (read_from (child_pipe child) run)).
Proof.
  apply wait_answers in Hwait as [?|[_ Hparse]]; [done|].
  apply runs_bind_inv in Hsup as (t1 & t2 & res & -> & Hx & H). destruct res as [res|]; [|by destruct H].
  destruct H as [-> [= Hout]]. rewrite app_nil_r. destruct res as [res|e].
  2:{ injection Hout as _ Hout. by rewrite Hout in Hparse. }
  injection Hout as -> Hout. split; [done|]. rewrite Hout in Hparse.
  apply execute_uv_runs in Hx as [[_ Hr]|H]; [by destruct (Hr res)|].
  destruct H as (c1 & c2 & binary & cfd & rfd & cap & rd & checks & run & _ & _ & _ & _ & _ & -> & _ & _ & H).
  destruct H as (child & t3 & -> & H). cbn [bind] in H. destruct child as [child|e]; [|by destruct H].
  apply runs_bind_inv in H as (t4 & t5 & res' & -> & Hx & H). destruct res' as [res'|]; [|by destruct H].
  destruct H as [-> [= ->]]. rewrite app_nil_r.
  apply execute_supervisor_result in Hx as [->|(status & Hin & ->)]; [by rewrite parsed_unknown in Hparse|].
  eexists (rd ++ checks), _, child, t4, status. split; [by rewrite <-(assoc_L (++))|]. split; [done|].
  by apply parsed_result.
Qed.
End Supervisor.
