(* ===== verification/CacheTermination.v ===== *)
(** CacheTermination: the maintenance of the caches ends.

    Wherever a program of [NodeCache.v] or [UvCache.v] has a loop whose steps are bounded, a
    clock that goes on ends it before its steps are used up. *)

From S2P Require Import Prelude Text Store Protocol Effects Procargs Producer NodeCache UvCache.

(** ** Node's cache *)

Lemma checksum_raises file deadline :
  raises (checksum_step file deadline) (λ _ since, since) deadline.
Proof.
  intros s tr s' tail since (t1 & t2 & stop & -> & Hl & H)%runs_bind_inv Hc.
  destruct stop; [by destruct H|]. destruct Hl as (c & t3 & -> & Hl). cbn [bind] in Hl.
  destruct c; [by destruct Hl|]. destruct Hl as (now & t4 & -> & -> & Hnow).
  destruct H as (chunk & t5 & -> & -> & Hr). destruct Hc as [Hle Hc]. exists (now + 1)%N.
  symmetry in Hnow. apply bool_decide_eq_false in Hnow.
  split; [exact Hc|]. lia.
Qed.

Lemma scan_ends started bucket : ends_from started (scan_entries bucket (started + BUDGET)).
Proof.
  apply ends_bind. intros [names|]; [|apply ends_ret].
  generalize 0%N ([] : list Entry). induction (merge_sort String.le names) as [|name l IH];
    intros total found; [apply ends_ret|].
  cbn [scan_names]. apply ends_bind. intros []; [apply ends_ret|]. destruct (hex_name name).
  - apply ends_some; [|intros [[e sum]|]; [apply IH|apply ends_ret]].
    apply ends_bind. intros [file|]; [|apply ends_ret]. apply ends_bind. intros [m|]; [|apply ends_ret].
    apply ends_bind. intros safe. destruct (negb safe || _); [apply ends_ret|].
    destruct (checked_add total (md_len m)) as [sum|]; [|apply ends_ret].
    destruct (bool_decide (MAX_SCAN_BYTES < sum)%N); [apply ends_ret|].
    apply ends_some.
    + apply ends_bind. intros [header|]; [|apply ends_ret]. destruct (negb _); [apply ends_ret|].
      destruct (_ || _); [apply ends_ret|]. apply ends_some; [|intros; apply ends_ret].
      intros tr since Hs Hc. eapply loop_ends; [apply checksum_raises| |exact Hc].
      unfold BUDGET. change (2 ^ N.of_nat 38)%N with 274877906944%N. lia.
    + intros [[]|e]; [|apply ends_ret]. apply ends_bind. intros [after|]; [|apply ends_ret].
      destruct (negb _); [apply ends_ret|]. apply ends_bind. intros. apply ends_bind.
      intros. apply ends_ret.
  - apply ends_bind. intros [[]|e]; [apply IH|apply ends_ret].
Qed.

Lemma remove_files_ends t v : ends_from t (remove_files v).
Proof.
  apply ends_now. intros started _. apply ends_bind. intros []; [apply ends_ret|].
  apply ends_bind. intros []; [|apply ends_ret]. apply ends_some; [apply scan_ends|].
  intros [current|[]]; try apply ends_ret. destruct (negb _); [apply ends_ret|].
  apply ends_bind. intros. apply ends_ret.
Qed.

Lemma observe_node_ends t v : ends_from t (observe_node v).
Proof.
  apply ends_bind. intros []; [|apply ends_ret]. apply ends_now. intros started _.
  apply ends_some; [apply scan_ends|]. intros. apply ends_ret.
Qed.

Lemma open_at_ends t path producer binding bucket_name :
  ends_from t (open_at path producer binding bucket_name).
Proof.
  apply ends_now. intros started _. apply ends_bind. intros [[[temp root] bucket]|]; [|apply ends_ret].
  apply ends_some; [apply scan_ends|]. intros [es|]; [|apply ends_ret]. apply ends_bind.
  intros. apply ends_ret.
Qed.

Lemma discover_node_ends `{JI : Json ProducerInfo} t ARCH : ends_from t (discover_node ARCH).
Proof.
  assert (Hpath : ∀ path, ends_from t (try_path ARCH PRODUCER_QUERY_BUDGET path)).
  { intros path. apply ends_bind. intros [real|]; [|apply ends_ret]. apply ends_bind.
    intros [b|]; [|apply ends_ret]. apply ends_some; [by apply query_ends|].
    intros []; try apply ends_ret. destruct (json_from_str _); [|apply ends_ret].
    apply ends_bind. intros []; [|apply ends_ret]. apply ends_bind. intros. apply ends_ret. }
  apply ends_bind. intros paths. apply ends_some.
  - apply discovery_ends. intros path. apply ends_bind.
    intros [m|[]]; [apply Hpath|apply ends_ret|apply Hpath].
  - intros [[[path binding] info]|]; [|apply ends_ret]. apply ends_bind.
    intros [name|]; [|apply ends_ret]. apply ends_bind. intros [temp|]; [|apply ends_ret].
    apply open_at_ends.
Qed.

(** ** The uv cache *)

Lemma discover_uv_ends t : ends_from t discover_uv.
Proof.
  assert (Huv : ∀ path, ends_from t (try_uv PRODUCER_QUERY_BUDGET path)).
  { intros path. apply ends_bind. intros [real|]; [|apply ends_ret]. apply ends_bind.
    intros [b|]; [|apply ends_ret]. apply ends_some.
    - apply ends_some; [by apply query_ends|]. intros. apply ends_ret.
    - intros []; try apply ends_ret. apply ends_bind. intros. apply ends_ret. }
  apply ends_bind. intros euid. apply ends_bind. intros [home|]; [|apply ends_ret].
  apply ends_bind. intros prefixes. apply ends_some.
  - apply discovery_ends. intros path. apply ends_bind.
    intros [m|[]]; [apply Huv|apply ends_ret|apply Huv].
  - intros [[uv proved]|]; [|apply ends_ret]. apply ends_bind. intros. apply ends_ret.
Qed.

Lemma drain_output_raises stdout :
  raises (drain_output_step stdout) (λ output _, bytes_len output) (STDOUT_CAP_BYTES + 1).
Proof.
  intros s tr s' tail since (r & t1 & -> & -> & Hr) Hc. exists since. split; [exact Hc|].
  split; [lia|]. destruct r as [bytes| |]; [|done..].
  destruct bytes as [|c bytes]; [done|]. cbn [is_empty] in Hr. case_bool_decide; [done|].
  injection Hr as ->. unfold bytes_len in *. rewrite length_append.
  cbn [String.length] in *. lia.
Qed.

Lemma drain_output_ends t r output : ends_from t (drain_output r output).
Proof.
  unfold drain_output. destruct (negb _); [apply ends_ret|]. intros tr since _ Hc.
  eapply loop_ends; [apply drain_output_raises| |exact Hc].
  unfold STDOUT_CAP_BYTES. change (2 ^ N.of_nat 15)%N with 32768%N. lia.
Qed.

Lemma settle_raises child deadline : raises (settle_step child deadline) (λ _ since, since) deadline.
Proof.
  apply poll_raises. intros s tr s' (st & t1 & -> & H). cbn [bind] in H.
  assert (∀ k, runs (do* now := trigger Now in
    if bool_decide (deadline ≤ now)%N then
      do* _ := trigger (KillChild child) in do* _ := trigger (WaitChild child) in Ret (inr tt)
    else do* _ := trigger PollSleep in Ret (inl tt)) t1 k → k = inl s' →
    ∃ now, t1 = [Obs Now now; Obs PollSleep tt] ∧ (now < deadline)%N) as Hlate.
  { intros k (now & t2 & -> & Hk) ->. cbn [bind] in Hk. case_bool_decide.
    - destruct Hk as (u1 & t3 & -> & u2 & t4 & -> & _ & ?). done.
    - destruct Hk as ([] & t3 & -> & -> & _). exists now. split; [done|lia]. }
  destruct st as [[st|]|e]; [by destruct H|..];
    (destruct (Hlate _ H eq_refl) as (now & -> & Hn); eexists [_], now; by split).
Qed.

(** The settlement of a child ends. *)
Lemma settle_ends t child :
  ends_from t (do* started := trigger Now in
               looping 38 (settle_step child (started + SUPERVISOR_SETTLE_GRACE)%N) tt).
Proof.
  apply ends_now. intros started _ tr since Hs Hc.
  eapply loop_ends; [apply settle_raises| |exact Hc].
  unfold SUPERVISOR_SETTLE_GRACE, NATIVE_LOCK_TIMEOUT_SECS.
  change (2 ^ N.of_nat 38)%N with 274877906944%N. lia.
Qed.

Lemma drop_ends t child settled : ends_from t (drop_running child settled).
Proof.
  apply ends_bind. intros [[st|]|e]; destruct settled; try apply ends_ret;
    try apply settle_ends; (apply ends_bind; intros _); [apply ends_ret|apply settle_ends..].
Qed.

Section Uv.
Context `{JCap : Json NativeCacheCapability, JSup : Json SupervisorResult}.

Lemma wait_step_ends t r output : ends_from t (wait_uv_step r output).
Proof.
  apply ends_some; [apply drain_output_ends|]. intros [o []]; [|apply ends_ret].
  apply ends_bind. intros [[st|]|e]; [| |apply ends_ret].
  - apply ends_some; [apply drain_output_ends|]. intros [o' ok]. apply ends_ret.
  - apply ends_bind. intros []; [apply ends_ret|]. apply ends_bind. intros now.
    case_bool_decide; [apply ends_ret|]. apply ends_bind. intros. apply ends_ret.
Qed.

Lemma wait_step_polls r s tr s' :
  runs (partial_step (wait_uv_step r) s) tr (inl s') →
  ∃ pre now, tr = pre ++ [Obs Now now; Obs PollSleep tt] ∧ (now < run_started_at r + run_budget r)%N.
Proof.
  intros H%partial_step_runs. apply runs_bind_inv in H as (t1 & t2 & d & -> & _ & H).
  destruct d as [[o []]|]; [|by destruct H..].
  destruct H as (st & t3 & -> & H). cbn [bind] in H. destruct st as [[st|]|e]; [| |by destruct H].
  - apply runs_bind_inv in H as (t4 & t5 & d & -> & _ & H). by destruct d as [[o' ok]|]; destruct H.
  - destruct H as (c & t4 & -> & H). cbn [bind] in H. destruct c; [by destruct H|].
    destruct H as (now & t5 & -> & H). cbn [bind] in H. case_bool_decide; [by destruct H|].
    destruct H as ([] & t6 & -> & -> & _). eexists (t1 ++ [_; _]), now.
    rewrite <-(assoc_L (++)). split; [reflexivity|lia].
Qed.

Lemma wait_uv_ends r : (run_budget r ≤ 200 * 1000000000)%N → ends_from (run_started_at r) (wait_uv r).
Proof.
  intros Hb. apply ends_some.
  - apply (poll_ends _ _ (run_budget r)); [apply wait_step_polls|intros; apply wait_step_ends|done].
  - intros [native settle]. apply ends_some.
    + destruct settle; [|apply ends_ret]. apply ends_bind. intros _. apply settle_ends.
    + intros _. apply ends_some; [apply drop_ends|]. intros. apply ends_ret.
Qed.

Lemma supervise_step_ends t child pipe parent deadline captured :
  ends_from t (supervise_step child pipe parent deadline captured).
Proof.
  apply ends_some; [apply drain_ends|]. intros [c|e]; [|apply ends_ret].
  apply ends_bind. intros [[st|]|e]; [apply ends_ret| |apply ends_ret].
  apply ends_bind. intros read. cbv zeta. case_match; [apply ends_ret|]. apply ends_bind. intros now.
  case_bool_decide; [apply ends_ret|]. apply ends_bind. intros. apply ends_ret.
Qed.

Lemma supervise_step_polls child pipe parent deadline s tr s' :
  runs (partial_step (supervise_step child pipe parent deadline) s) tr (inl s') →
  ∃ pre now, tr = pre ++ [Obs Now now; Obs PollSleep tt] ∧ (now < deadline)%N.
Proof.
  intros H%partial_step_runs. apply runs_bind_inv in H as (t1 & t2 & d & -> & _ & H).
  destruct d as [[c|e]|]; [|by destruct H..].
  destruct H as (st & t3 & -> & H). cbn [bind] in H. destruct st as [[st|]|e]; [by destruct H| |by destruct H].
  destruct H as (read & t4 & -> & H). cbn [bind] in H. case_match; [by destruct H|].
  destruct H as (now & t5 & -> & H). cbn [bind] in H. case_bool_decide; [by destruct H|].
  destruct H as ([] & t6 & -> & -> & _). eexists (t1 ++ [_; _]), now.
  rewrite <-(assoc_L (++)). split; [reflexivity|lia].
Qed.

(** What a capability may still take: bytes up to its cap, and time up to the deadline. *)
Definition capability_left (deadline : N) (captured : string) (since : N) : N :=
  N.min (bytes_len captured) 4096 + N.min since deadline.

Lemma capability_raises file deadline :
  raises (capability_step file deadline) (capability_left deadline) (4097 + deadline).
Proof.
  intros s tr s' tail since (r & t1 & -> & H) Hc. cbn [bind] in H.
  unfold capability_left. destruct r as [bytes| |]; [| |by destruct H].
  - destruct bytes as [|c bytes]; [by destruct H|]. cbn [is_empty] in H. destruct H as [-> Hr].
    case_bool_decide; [done|]. injection Hr as ->. exists since. split; [exact Hc|].
    unfold bytes_len in *. rewrite length_append in *. cbn [String.length] in *. lia.
  - destruct H as (now & t2 & -> & H). cbn [bind] in H. case_bool_decide; [by destruct H|].
    destruct H as ([] & t3 & -> & -> & [= ->]). destruct Hc as [Hle Hc].
    exists (now + POLL_INTERVAL)%N. split; [exact Hc|]. unfold POLL_INTERVAL. lia.
Qed.

Lemma read_capability_ends t fd : ends_from t (read_capability fd).
Proof.
  apply ends_bind. intros [[]|e]; [|apply ends_ret]. apply ends_bind. intros [[]|e]; [|apply ends_ret].
  apply ends_now. intros started _. apply ends_some; [|intros; apply ends_ret].
  intros tr since Hs Hc. eapply loop_ends; [apply capability_raises| |exact Hc].
  unfold capability_left, bytes_len. cbn [String.length].
  change (2 ^ N.of_nat 38)%N with 274877906944%N. lia.
Qed.

Lemma execute_uv_ends t args parent : ends_from t (execute_uv_supervisor args parent).
Proof.
  destruct args as [|flag [|t1 [|t2 [|binary [|? ?]]]]]; try apply ends_ret.
  unfold execute_uv_supervisor. destruct (negb _); [apply ends_ret|].
  destruct (parse_inherited_fd t1); [|apply ends_ret].
  destruct (parse_inherited_fd t2); [|apply ends_ret].
  case_bool_decide; [apply ends_ret|]. destruct (negb _); [apply ends_ret|].
  apply ends_some; [apply read_capability_ends|]. intros [cap|e]; [|apply ends_ret].
  apply ends_bind. intros [[]|e]; [|apply ends_ret].
  apply ends_bind. intros [child|e]; [|apply ends_ret]. apply ends_some; [|intros; apply ends_ret].
  apply owning_ends. apply ends_bind. intros [pipe|]; [|apply ends_ret]. apply ends_now.
  intros started _. apply ends_some.
  - apply (poll_ends _ _ DEFAULT_RUNTIME_BUDGET);
      [apply supervise_step_polls|intros; apply supervise_step_ends|done].
  - intros [[st c]|]; [|apply ends_ret]. apply ends_some; [apply drain_ends|]. intros. apply ends_ret.
Qed.

(** [C35] The maintenance of the caches ends. If the clock goes on, with every sleep and every
    read of a file, then each of its programs answers: the discovery, the removal and the
    observation of Node's cache, and of uv's cache the discovery, the supervisor, and the
    daemon's wait for it, with a budget of up to 200 seconds. *)
Theorem cache_maintenance_ends `{JI : Json ProducerInfo} t ARCH v r args parent
    (Hbudget : (run_budget r ≤ 200 * 1000000000)%N) :
  ends_from t (discover_node ARCH) ∧ ends_from t (remove_files v) ∧ ends_from t (observe_node v) ∧
  ends_from t discover_uv ∧ ends_from t (execute_uv_supervisor args parent) ∧
  ends_from (run_started_at r) (wait_uv r).
Proof.
  split; [apply discover_node_ends|]. split; [apply remove_files_ends|].
  split; [apply observe_node_ends|]. split; [apply discover_uv_ends|].
  split; [apply execute_uv_ends|by apply wait_uv_ends].
Qed.
End Uv.
