(* ===== verification/CacheWorker.v ===== *)
(** CacheWorker: the cache worker of the daemon, [unlinger-daemon/src/main.rs], on top of the
    maintenance of [NodeCache.v] and [UvCache.v].

    The worker runs a cycle for each cache on a thread of its own. Its calls on the control
    plane and on the store are atomic steps of the shared state, [cache_call]; between two
    of them other threads may have taken theirs. The start of a maintenance holds the lock
    of the status from the prepared record to the activity that it publishes: [PrepareCache]
    and [PublishCache] are its two ends. Lines that are only logged are left out. *)

From S2P Require Import Prelude Text Model Artifact Evidence Cleanup Cooling Names Store Effects.
From S2P Require Import Executor Analyzer Journal Lifecycle Residue Protocol Mutations.
From S2P Require Import Observations Views Maintenance Control Owners Engine Storage Producer.
From S2P Require Import NodeCache UvCache.

(** ** When a maintenance is due *)

Definition TOOL_CACHE_MAINTENANCE_INTERVAL_MILLIS : N := 7 * 24 * 60 * 60 * 1000.

(** [cache_maintenance_due]. *)
Definition cache_maintenance_due (now prepared_at : N) (outcome : ToolCacheOutcome) : bool :=
  let interval :=
    if bool_decide (outcome = CacheBusy) then STORAGE_RESIDUE_OBSERVATION_INTERVAL_MILLIS
    else TOOL_CACHE_MAINTENANCE_INTERVAL_MILLIS in
  bool_decide (interval ≤ saturating_sub now prepared_at)%N.

(** [tool_cache_maintenance_due]. *)
Definition tool_cache_maintenance_due (now : N) (last_attempt : option ToolCacheAttemptSummary) : bool :=
  match last_attempt with
  | None => true
  | Some a => cache_maintenance_due now (tc_prepared_at_unix_millis a) (tc_outcome a)
  end.

(** The same test of the Node cycle. *)
Definition node_cache_maintenance_due (now : N)
    (last_attempt : option NodeCompileCacheAttemptSummary) : bool :=
  match last_attempt with
  | None => true
  | Some a => cache_maintenance_due now (nc_prepared_at_unix_millis a) (nc_outcome a)
  end.

(** ** Calls *)

(** The activity of a maintenance: the prepared attempt and the epoch of enforcement. *)
Definition CacheLease : Type := PreparedToolCacheAttempt * string.

Inductive CacheC : Type → Type :=
| LatestTool : CacheC (result (option (CacheMaintenanceSummary ToolCacheAttemptSummary)) StoreError)
| LatestNode :
    CacheC (result (option (CacheMaintenanceSummary NodeCompileCacheAttemptSummary)) StoreError)
| AskDraining : CacheC bool
| RecordTool (now : N) (a : ToolCacheAvailability) : CacheC (result unit StoreError)
| RecordNode (now : N) (a : ToolCacheAvailability) : CacheC (result unit StoreError)
| PrepareCache (now : N) (node : bool) : CacheC (result (option CacheLease) ControlError)
| PublishCache (lease : CacheLease) (started : bool) : CacheC unit
| CacheContinue (lease : CacheLease) : CacheC bool
| CompleteTool (prepared : PreparedToolCacheAttempt) (r : ToolCacheAttemptSummary)
    (after : ToolCacheAvailability) : CacheC (result unit StoreError)
| CompleteNode (prepared : PreparedToolCacheAttempt) (r : NodeCompileCacheAttemptSummary)
    (after : ToolCacheAvailability) : CacheC (result unit StoreError)
| FinishCache (prepared : PreparedToolCacheAttempt) : CacheC (result unit ControlError)
| RecoverTool (now : N) : CacheC (result bool StoreError)
| RecoverNode (now : N) : CacheC (result bool StoreError)
| FailCache (line now : N) (message : string) : CacheC (result unit ControlError).

Section Calls.
Context `{JA : Json ToolCacheAvailability, JT : Json ToolCacheAttemptSummary}.
Context `{JN : Json NodeCompileCacheAttemptSummary}.

(** [ControlPlane::start_cache_if_ready_enforce] up to the call of its factory. *)
Definition prepare_cache (token : string) (io io' : option StoreError) (now : N) (node : bool)
    (c : ControlPlane) : ControlPlane * result (option CacheLease) ControlError :=
  match expire_pause io now c with
  | (c, Err e) => (c, Err e)
  | (c, Ok _) =>
      locked c (λ s,
        if negb (storage_cleanup_gate_open s) then (c, Ok None)
        else
          match (if node then begin_node_compile_cache_attempt token io' now (ctl_maintenance c)
                 else begin_tool_cache_attempt token io' now (ctl_maintenance c)) with
          | Err e => (c, Err (map_store_error e))
          | Ok (db, prepared) =>
              (c <| ctl_maintenance := db |>, Ok (Some (prepared, default "" (enforcement_epoch s))))
          end)
  end.

(** The rest of it, after the factory. *)
Definition publish_cache (lease : CacheLease) (started : bool) (c : ControlPlane) : ControlPlane :=
  let s := ctl_status c in
  set_status
    (if started
     then refresh_cleanup_activity
            (s <| cache_activity := Some (mkActivity (pca_token lease.1) lease.2 false) |>)
     else s) c.

(** A call that writes the maintenance tables, or fails. *)
Definition writes_maintenance {A} (r : result (maintenance * A) StoreError) (c : ControlPlane) :
    ControlPlane * result A StoreError :=
  match r with
  | Ok (m, a) => (c <| ctl_maintenance := m |>, Ok a)
  | Err e => (c, Err e)
  end.

(** The same with nothing to answer. *)
Definition stores_maintenance (r : result maintenance StoreError) (c : ControlPlane) :
    ControlPlane * result unit StoreError :=
  writes_maintenance (let? m := r in Ok (m, tt)) c.

(** What a call does. *)
Definition cache_call {X} (e : CacheC X) (v : call_env) (c : ControlPlane) : ControlPlane * X :=
  let io := ce_io v in
  let m := ctl_maintenance c in
  match e in CacheC X return ControlPlane * X with
  | LatestTool => (c, latest_tool_cache_maintenance (io 0) m)
  | LatestNode => (c, latest_node_compile_cache_maintenance (io 0) m)
  | AskDraining => (c, is_draining c)
  | RecordTool now a => stores_maintenance (record_tool_cache_observation (io 0) now a m) c
  | RecordNode now a => stores_maintenance (record_node_compile_cache_observation (io 0) now a m) c
  | PrepareCache now node => prepare_cache (ce_random v 0%Z) (io 0) (io 1) now node c
  | PublishCache lease started => (publish_cache lease started c, tt)
  | CacheContinue lease => (c, tool_cache_action_may_continue lease.1 lease.2 c)
  | CompleteTool p r a => stores_maintenance (complete_tool_cache_attempt (io 0) p r a m) c
  | CompleteNode p r a => stores_maintenance (complete_node_compile_cache_attempt (io 0) p r a m) c
  | FinishCache p => finish_tool_cache_action p c
  | RecoverTool now => writes_maintenance (recover_cache_attempt_in (io 0) ToolCacheTable now m) c
  | RecoverNode now => writes_maintenance (recover_node_compile_cache_attempt (io 0) now m) c
  | FailCache line now message =>
      fail_closed ("crates/unlinger-daemon/src/main.rs", line) (io 0) now message c
  end.
End Calls.

(** ** Events *)

(** The events of the cache worker; [UnixMillis] is [now_unix_millis]. *)
Inductive WorkerE : Type → Type :=
| Native {X : Type} (e : CacheE X) : WorkerE X
| CacheWorkerCancelled : WorkerE bool
| CacheShutdownAsked : WorkerE bool
| UnixMillis : WorkerE (result N string)
| Cache {X : Type} (c : CacheC X) : WorkerE X.

Abbreviation working A := (prog WorkerE A).

(** [stopping], of both cycles. *)
Definition cache_stopping : working bool :=
  do* cancelled := trigger CacheWorkerCancelled in
  if cancelled : bool then Ret true else
  do* shutdown := trigger CacheShutdownAsked in
  if shutdown : bool then Ret true else trigger (Cache AskDraining).

(** The closure that a maintenance under a lease probes for cancellation. *)
Definition lease_lost (lease : CacheLease) : working bool :=
  do* stop := cache_stopping in
  if stop then Ret true else
  do* continue := trigger (Cache (CacheContinue lease)) in Ret (negb continue).

(** The same in [NodeCompileCacheMaintenance::execute]. *)
Definition node_lease_lost (lease : CacheLease) : working bool :=
  do* stop := cache_stopping in
  if stop then Ret true else
  if negb (bool_decide (pca_kind lease.1 = NodeCompileCache)) then Ret true else
  do* continue := trigger (Cache (CacheContinue lease)) in Ret (negb continue).

(** An event of a maintenance in the worker, with what it probes for cancellation. *)
Definition native_event (probe : working bool) (X : Type) (e : CacheE X) (s : unit) :
    working (unit * X) :=
  match e in CacheE X return working (unit * X) with
  | CancelProbe => do* stop := probe in Ret (s, stop)
  | e => do* x := trigger (Native e) in Ret (s, x)
  end.

(** A maintenance in the worker. *)
Definition hosted {A} (probe : working bool) (p : caching A) : working A :=
  do* r := interpret (native_event probe) p tt in Ret r.2.

(** ** The cycles *)

(** A call whose error ends the cycle. *)
Definition or_fail {A F} (display : F → string) (p : working (result A F))
    (k : A → working (option (result unit string))) : working (option (result unit string)) :=
  do* r := p in
  match r with Ok a => k a | Err e => Ret (Some (Err (display e))) end.

(** The discovery's answer for the record. *)
Definition discovered {A} (adapter : result A CacheDiscoveryError) : ToolCacheAvailability :=
  match adapter with Ok _ => CacheAvailable | Err e => error_availability e end.

(** Whether the cycle goes on to the maintenance after its observation. *)
Definition may_maintain {A} (adapter : result A CacheDiscoveryError) (allow_mutation due : bool) :
    working bool :=
  if negb (bool_decide (discovered adapter = CacheAvailable)) then Ret false else
  do* stop := cache_stopping in Ret (negb stop && allow_mutation && due).

(** The settlement of the uv cycle. *)
Definition settle_tool (now : N) (v : UvCacheMaintenance) (lease : CacheLease)
    (native : ToolCacheNativeResult) : working (option (result unit string)) :=
  do* after := hosted (lease_lost lease) (availability v) in
  or_fail id (trigger UnixMillis) (λ clock,
    let r :=
      mkToolCacheAttemptSummary (native_outcome native) now (Some (N.max clock now))
        (native_removed_entry_count native) (native_removed_logical_bytes native) in
    or_fail display_store_error (trigger (Cache (CompleteTool lease.1 r after))) (λ _,
      Ret (Some (Ok tt)))).

(** The end of a cycle that took an activity: [CacheActivityGuard::finish], and then what
    the settlement answered. *)
Definition finish_activity (lease : CacheLease) (settled : working (option (result unit string))) :
    working (option (result unit string)) :=
  some* settled := settled in
  do* finished := trigger (Cache (FinishCache lease.1)) in
  Ret (Some (let? _ := map_err control_message finished in settled)).

Section Tool.
Context `{JCap : Json NativeCacheCapability, JSup : Json SupervisorResult}.

(** The maintenance of the uv cycle, under the activity that it takes; the start probes
    nothing. *)
Definition maintain_tool (now : N) (v : UvCacheMaintenance) : working (option (result unit string)) :=
  or_fail control_message (trigger (Cache (PrepareCache now false))) (λ prepared,
    match prepared with
    | None => Ret (Some (Ok tt))
    | Some lease =>
        do* child := hosted (Ret true) (start_uv v (pca_token lease.1) lease.2) in
        do* _ := trigger (Cache (PublishCache lease (match child with Ok _ => true | Err _ => false end))) in
        some* native :=
          match child with
          | Ok child => hosted (lease_lost lease) (wait_uv child)
          | Err _ => Ret (Some (mkToolCacheNativeResult CacheFailed None None))
          end in
        finish_activity lease (settle_tool now v lease native)
    end).

(** [run_tool_cache_cycle]. *)
Definition run_tool_cache_cycle (now : N) (allow_mutation : bool) :
    working (option (result unit string)) :=
  or_fail display_store_error (trigger (Cache LatestTool)) (λ previous,
    do* stop := cache_stopping in
    if stop then Ret (Some (Ok tt)) else
    some* adapter := hosted cache_stopping discover_uv in
    or_fail display_store_error (trigger (Cache (RecordTool now (discovered adapter)))) (λ _,
      do* go := may_maintain adapter allow_mutation
                  (tool_cache_maintenance_due now (previous ≫= cm_last_attempt _)) in
      match adapter with
      | Ok v => if go then maintain_tool now v else Ret (Some (Ok tt))
      | Err _ => Ret (Some (Ok tt))
      end)).
End Tool.

(** The settlement of the Node cycle. *)
Definition settle_node (now : N) (v : NodeCompileCacheMaintenance) (lease : CacheLease)
    (native : NodeCompileCacheResult) : working (option (result unit string)) :=
  some* after := hosted cache_stopping (observe_node v) in
  or_fail id (trigger UnixMillis) (λ clock,
    let r :=
      mkNodeCompileCacheAttemptSummary (node_outcome native) now (Some (N.max clock now))
        (node_removed_entry_count native) (node_removed_logical_bytes native) in
    or_fail display_store_error (trigger (Cache (CompleteNode lease.1 r after))) (λ _,
      if negb (bool_decide (nc_outcome r = CacheDeliveryUnknown)) then Ret (Some (Ok tt)) else
      or_fail id (trigger UnixMillis) (λ clock,
        or_fail control_message
          (trigger (Cache (FailCache 655 (N.max clock now) "node cache maintenance delivery is unknown")))
          (λ _, Ret (Some (Ok tt)))))).

(** The maintenance of the Node cycle; the factory of its start gives the adapter back. *)
Definition maintain_node (now : N) (v : NodeCompileCacheMaintenance) :
    working (option (result unit string)) :=
  or_fail control_message (trigger (Cache (PrepareCache now true))) (λ prepared,
    match prepared with
    | None => Ret (Some (Ok tt))
    | Some lease =>
        do* _ := trigger (Cache (PublishCache lease true)) in
        some* native := hosted (node_lease_lost lease) (remove_files v) in
        finish_activity lease (settle_node now v lease native)
    end).

Section Worker.
Context `{JCap : Json NativeCacheCapability, JSup : Json SupervisorResult, JI : Json ProducerInfo}.
Variable ARCH : string.

(** [run_node_compile_cache_cycle]. *)
Definition run_node_compile_cache_cycle (now : N) (allow_mutation : bool) :
    working (option (result unit string)) :=
  or_fail display_store_error (trigger (Cache LatestNode)) (λ previous,
    do* stop := cache_stopping in
    if stop then Ret (Some (Ok tt)) else
    some* adapter := hosted cache_stopping (discover_node ARCH) in
    or_fail display_store_error (trigger (Cache (RecordNode now (discovered adapter)))) (λ _,
      do* go := may_maintain adapter allow_mutation
                  (node_cache_maintenance_due now (previous ≫= cm_last_attempt _)) in
      match adapter with
      | Ok v => if go then maintain_node now v else Ret (Some (Ok tt))
      | Err _ => Ret (Some (Ok tt))
      end)).

(** ** The worker *)

Definition unsettled : string := "tool cache maintenance state could not settle".

(** The closure of [CacheWorker::start]; [None] is a maintenance that has not answered when
    the steps of its loops are used up. *)
Definition cache_work (now : N) : working (option bool) :=
  some* tool := run_tool_cache_cycle now true in
  some* r :=
    match tool with
    | Ok _ => run_node_compile_cache_cycle now true
    | Err e => Ret (Some (Err e))
    end in
  match r with
  | Ok _ => Ret (Some true)
  | Err _ =>
      do* clock := trigger UnixMillis in
      let at_ := match clock with Ok t => t | Err _ => now end in
      do* _ := trigger (Cache (FailCache 310 at_ unsettled)) in
      Ret (Some false)
  end.
End Worker.

(** [CacheWorker]: whether a thread was started and not yet joined. *)
Record CacheWorker : Type := mkCacheWorker { cache_running : bool }.

(** [CacheWorker::is_idle]. *)
Definition cache_idle (w : CacheWorker) : bool := negb (cache_running w).

(** [CacheWorker::launch]: the worker, and whether the work runs on a new thread; [spawned]
    is the answer of the thread's builder. *)
Definition launch (w : CacheWorker) (spawned : result unit string) :
    CacheWorker * result bool string :=
  if cache_running w then (w, Ok false)
  else match spawned with
       | Ok _ => (mkCacheWorker true, Ok true)
       | Err e => (w, Err e)
       end.

(** [CacheWorker::collect]: [joined] is what a finished thread answered, [None] a panic;
    without it the thread runs on, or there is none. *)
Definition collect_cache_worker (w : CacheWorker) (now : N) (joined : option (option bool)) :
    working CacheWorker :=
  match joined with
  | None => Ret w
  | Some answer =>
      if negb (cache_running w) then Ret w else
      if bool_decide (answer = Some true) then Ret (mkCacheWorker false) else
      do* _ := trigger (Cache (RecoverTool now)) in
      do* _ := trigger (Cache (RecoverNode now)) in
      do* _ := trigger (Cache (FailCache 345 now unsettled)) in
      Ret (mkCacheWorker false)
  end.

(** Whether the loop of [run] starts the worker. *)
Definition cache_observation_due (w : CacheWorker) (now : N) (last_attempt : option N) : bool :=
  cache_idle w
  && match last_attempt with
     | None => true
     | Some previous =>
         bool_decide (STORAGE_RESIDUE_OBSERVATION_INTERVAL_MILLIS ≤ saturating_sub now previous)%N
     end.
