(* ===== verification/CacheWorkerFacts.v ===== *)
(** CacheWorkerFacts: the cache worker in a running daemon.

    The calls of [CacheWorker.v] are steps of the control plane of [ControlSafety.v],
    interleaved with those of other threads, which wait while the start of a maintenance
    holds the lock. Nothing is unlinked and no mutator is supervised but under an activity
    of this daemon while the durable row is enforcing, and every activity is returned. *)

From S2P Require Import Prelude Text Model Artifact Evidence Cleanup Cooling Names Store Effects.
From S2P Require Import Executor Analyzer Journal JournalFacts DurableRun StoreSafety Decisions.
From S2P Require Import Lifecycle LifecycleFacts Residue Protocol Mutations Observations Views.
From S2P Require Import Maintenance Control ControlFacts ControlSafety Owners Engine Producer.
From S2P Require Import NodeCache UvCache NodeCacheFacts CacheWorker.

(** ** Calls that change no cache *)

(** The command starts the supervisor of a mutator. *)
Definition supervises (c : Command) : Prop := head (cmd_arguments c) = Some NATIVE_CACHE_CHILD_FLAG.

(** A call that unlinks nothing and starts no supervisor. *)
Definition harmless (X : Type) (e : CacheE X) : Prop :=
  match e with UnlinkIn _ _ => False | Spawn c => ¬ supervises c | _ => True end.

Lemma keeps_harmless {A} (p : caching A) : confined keeps p → confined harmless p.
Proof. apply confined_mono. by intros X []. Qed.

(** The programs of the maintenance are bounded by their parts. *)
Create HintDb harmless.

Ltac confine :=
  repeat first
    [ exact I
    | solve [auto with harmless keeps]
    | apply keeps_harmless; solve [auto with keeps]
    | apply confined_bind
    | apply confined_looping; intros ?
    | apply confined_polling; intros ?
    | progress intros
    | match goal with |- confined _ (match ?x with _ => _ end) => destruct x end
    | match goal with |- confined _ (trigger _) => split; [exact I|] end ].

Lemma harmless_drain pipe captured : confined harmless (drain pipe captured).
Proof. unfold drain, drain_step. confine. Qed.

Lemma keeps_still binary binding : confined keeps (still_bound binary binding).
Proof. unfold still_bound. confine. Qed.

#[export] Hint Resolve keeps_still : keeps.
#[export] Hint Resolve harmless_drain : harmless.

Lemma harmless_query binary args budget :
  head args ≠ Some NATIVE_CACHE_CHILD_FLAG →
  confined harmless (read_producer_output binary args budget).
Proof.
  intros Hargs. unfold read_producer_output. apply confined_bind; [confine|].
  intros [b|]; [|exact I]. apply confined_bind; [by split|].
  intros [child|]; [|exact I]. unfold owning, nonblocking, query_step, query_result, reap. confine.
Qed.

#[export] Hint Resolve harmless_query : harmless.
#[export] Hint Extern 1 (head _ ≠ Some _) => (cbv; congruence) : harmless.

Lemma harmless_candidates {A} (attempt : string → caching (option (Candidate A))) texts paths
    present unsupported reason :
  (∀ path, confined harmless (attempt path)) →
  confined harmless (discover_candidates attempt texts paths present unsupported reason).
Proof.
  intros Ha. revert present unsupported reason.
  induction paths as [|path paths IH]; intros present unsupported reason; [exact I|].
  cbn [discover_candidates]. confine; first [apply Ha|apply IH].
Qed.

Lemma keeps_all (test : string → caching bool) paths :
  (∀ path, confined keeps (test path)) → confined keeps (all_of test paths).
Proof.
  intros Ht. induction paths as [|path paths IH]; [exact I|]. cbn [all_of].
  confine; first [apply Ht|apply IH].
Qed.

Lemma keeps_shape root : confined keeps (fixed_cache_shape_safe root).
Proof.
  assert (∀ missing test path, confined keeps (link_is missing test path)) as Hl
    by (intros; unfold link_is; confine).
  unfold fixed_cache_shape_safe. cbv zeta. confine; apply keeps_all; intros; apply Hl.
Qed.

#[export] Hint Resolve keeps_shape keeps_scan : keeps.

Lemma keeps_may_start v : confined keeps (may_start v).
Proof. unfold may_start, binding_current, directory_identity. confine. Qed.

Lemma harmless_availability v : confined harmless (availability v).
Proof. unfold availability, binding_current, preflight_cache_root. confine. Qed.

#[export] Hint Resolve harmless_availability : harmless.

Lemma harmless_discover_uv : confined harmless discover_uv.
Proof.
  assert (∀ path, confined harmless (try_prefix PRODUCER_QUERY_BUDGET path)) as Ht.
  { intros path. unfold try_prefix, try_uv, resolve_regular_file, producer_version.
    confine. }
  unfold discover_uv, discover_producer, producer_prefixes, from_paths, directory_identity.
  confine. by apply harmless_candidates.
Qed.

Lemma harmless_discover_node `{JI : Json ProducerInfo} ARCH : confined harmless (discover_node ARCH).
Proof.
  assert (∀ path, confined harmless (try_candidate ARCH PRODUCER_QUERY_BUDGET path)) as Ht.
  { intros path. unfold try_candidate, try_path, bucket_of_info. confine. }
  unfold discover_node, discover_producer_at, producer_paths, bucket_of_info, default_temp_root.
  apply confined_bind; [confine|]. intros paths.
  apply confined_bind; [by apply harmless_candidates|]. intros [[[[path binding] info]|e]|]; [|exact I..].
  apply confined_bind; [confine|]. intros [name|]; [|exact I].
  apply confined_bind; [confine|]. intros [temp|]; [|exact I].
  unfold open_at, open_directories, open_error, checked_directory. confine.
Qed.

Lemma harmless_observe v : confined harmless (observe_node v).
Proof. unfold observe_node. confine. Qed.

Section Uv.
Context `{JCap : Json NativeCacheCapability, JSup : Json SupervisorResult}.

Lemma harmless_wait r : confined harmless (wait_uv r).
Proof.
  unfold wait_uv, wait_uv_step, drain_output, drop_running, settle_and_reap, settle_step.
  unfold drain_output_step. confine.
Qed.

(** A supervisor is started after the capability was written, for the attempt and epoch. *)
Lemma start_writes v token epoch ctr r before cmd x after :
  runs (start_uv v token epoch) ctr r → ctr = before ++ Obs (Spawn cmd) x :: after →
  ∃ fd capability, Obs (WriteAll fd (json_to_string capability)) (Ok tt) ∈ before ∧
    cap_token capability = token ∧ cap_epoch capability = epoch.
Proof.
  assert (∀ A (p : caching A) t a l before, confined keeps p → runs p t a →
    t ++ l = before ++ Obs (Spawn cmd) x :: after →
    ∃ l', before = t ++ l' ∧ l = l' ++ Obs (Spawn cmd) x :: after) as Hskip.
  { intros A p t a l b Hc Hp Ht. apply app_split_right in Ht; [done|]. intros Hin.
    exact (confined_runs _ _ _ _ _ _ _ Hc Hp Hin). }
  assert (∀ X (e : CacheE X) y l before, keeps X e →
    Obs e y :: l = before ++ Obs (Spawn cmd) x :: after →
    ∃ l', before = Obs e y :: l' ∧ l = l' ++ Obs (Spawn cmd) x :: after) as Hskip1.
  { intros X e y l b He. apply (Hskip X (trigger e) [Obs e y] y l b); [by split|by exists y, []]. }
  intros (t1 & t2 & proved & -> & H1 & H)%runs_bind_inv Hctr.
  apply (Hskip _ _ _ _ _ _ (keeps_may_start v) H1) in Hctr as (l1 & -> & ->).
  destruct proved as [[[device inode] binding]|]; [|destruct H as [H _]; by destruct l1].
  apply runs_bind_inv in H as (t3 & t4 & root & Ht & H2 & H). 
  assert (confined keeps (open_proved_root v)) as Hk by (unfold open_proved_root; confine).
  symmetry in Ht. apply (Hskip _ _ _ _ _ _ Hk H2) in Ht as (l2 & -> & ->).
  destruct root as [root|]; [|destruct H as [H _]; by destruct l2].
  destruct H as (pipe & t5 & Ht & H). cbn [bind] in H. symmetry in Ht.
  apply Hskip1 in Ht as (l3 & -> & ->); [|exact I].
  destruct pipe as [pipe|]; [|destruct H as [H _]; by destruct l3].
  destruct H as (written & t6 & Ht & H). cbn [bind] in H. symmetry in Ht.
  apply Hskip1 in Ht as (l4 & -> & ->); [|exact I].
  destruct written as [[]|]; [|destruct H as [H _]; by destruct l4].
  eexists pipe.2, _. split; [do 2 (apply elem_of_app; right); right; left|by split].
Qed.
End Uv.

(** ** The traces of the worker *)

Abbreviation worker_trace := (list (obs WorkerE)).

(** A call of the worker that changes no cache, and takes and returns no activity. *)
Definition quiet_event (X : Type) (ev : WorkerE X) : Prop :=
  match ev with
  | @Native Y e => harmless Y e
  | Cache (PrepareCache _ _) | Cache (PublishCache _ _) | Cache (FinishCache _) => False
  | _ => True
  end.

Definition quiet_obs (o : obs WorkerE) : Prop := match o with @Obs _ X ev _ => quiet_event X ev end.

Abbreviation quiet := (Forall quiet_obs).

Lemma quiet_runs {A} (p : working A) tr a : confined quiet_event p → runs p tr a → quiet tr.
Proof.
  intros Hc Hr. apply Forall_forall. intros [X ev x] Hin. exact (confined_runs _ _ _ _ _ _ _ Hc Hr Hin).
Qed.

Lemma hosted_confined {A} (P : ∀ X, WorkerE X → Prop) probe (p : caching A) :
  confined P probe → confined (λ X e, P X (Native e)) p → confined P (hosted probe p).
Proof.
  intros Hprobe Hp. apply confined_bind; [|done].
  induction p as [a|X e k IH]; [done|]. destruct Hp as [He Hp]. cbn [interpret].
  apply confined_bind; [|intros [[] x]; apply IH, Hp].
  destruct e; apply confined_bind; done.
Qed.

Lemma quiet_stopping : confined quiet_event cache_stopping.
Proof. unfold cache_stopping. repeat (split; [done|]; intros []; try done). Qed.

Lemma quiet_lost lease : confined quiet_event (lease_lost lease).
Proof. apply confined_bind; [apply quiet_stopping|]. by intros []. Qed.

Lemma quiet_node_lost lease : confined quiet_event (node_lease_lost lease).
Proof. apply confined_bind; [apply quiet_stopping|]. intros []; [done|]. by destruct (negb _). Qed.

Lemma quiet_hosted {A} probe (p : caching A) :
  confined quiet_event probe → confined harmless p → confined quiet_event (hosted probe p).
Proof. apply hosted_confined. Qed.

Lemma quiet_or_fail {A F} (display : F → string) (p : working (result A F)) k :
  confined quiet_event p → (∀ a, confined quiet_event (k a)) →
  confined quiet_event (or_fail display p k).
Proof. intros Hp Hk. apply confined_bind; [done|]. intros [a|e]; [apply Hk|done]. Qed.

Lemma quiet_settle_tool now v lease native : confined quiet_event (settle_tool now v lease native).
Proof.
  apply confined_bind; [apply quiet_hosted; [apply quiet_lost|apply harmless_availability]|].
  intros after. apply quiet_or_fail; [done|]. intros clock. by apply quiet_or_fail.
Qed.

Lemma quiet_settle_node now v lease native : confined quiet_event (settle_node now v lease native).
Proof.
  apply confined_bind; [apply quiet_hosted; [apply quiet_stopping|apply harmless_observe]|].
  intros [after|]; [|done]. apply quiet_or_fail; [done|]. intros clock.
  apply quiet_or_fail; [done|]. intros _. destruct (negb _); [done|].
  apply quiet_or_fail; [done|]. intros at_. by apply quiet_or_fail.
Qed.

(** ** Activities *)

(** The end of an activity: the settlement, and then the activity returned. *)
Definition returned (settle : CacheLease → worker_trace → result unit string → Prop)
    (lease : CacheLease) (tr : worker_trace) (r : option (result unit string)) : Prop :=
  (r = None ∧ quiet tr) ∨
  ∃ settling finished settled, tr = settling ++ [Obs (Cache (FinishCache lease.1)) finished] ∧
    quiet settling ∧ settle lease settling settled ∧
    r = Some (let? _ := map_err control_message finished in settled).

(** What a cycle does: it takes no activity, or is refused one, or it takes one, starts its
    maintenance while it holds the lock, publishes the activity, runs and returns it. *)
Definition activity (now : N) (node : bool) (start running : CacheLease → worker_trace → Prop)
    (settle : CacheLease → worker_trace → result unit string → Prop) (tr : worker_trace)
    (r : option (result unit string)) : Prop :=
  quiet tr ∨
  (∃ before refused, tr = before ++ [Obs (Cache (PrepareCache now node)) refused] ∧ quiet before ∧
     ∀ lease, refused ≠ Ok (Some lease)) ∨
  ∃ before lease starting started work ending,
    tr = before ++ Obs (Cache (PrepareCache now node)) (Ok (Some lease)) :: starting
           ++ Obs (Cache (PublishCache lease started)) tt :: work ++ ending ∧
    quiet before ∧ start lease starting ∧ running lease work ∧ returned settle lease ending r.

Lemma finish_runs settle lease p tr r :
  confined quiet_event p → (∀ t s, runs p t (Some s) → settle lease t s) →
  runs (finish_activity lease p) tr r → returned settle lease tr r.
Proof.
  intros Hp Hsettle (t1 & t2 & [settled|] & -> & H1 & H2)%runs_bind_inv;
    pose proof (quiet_runs _ _ _ Hp H1) as Hq.
  - right. destruct H2 as (finished & t3 & -> & -> & ->). exists t1, finished, settled. auto.
  - left. destruct H2 as [-> ->]. by rewrite app_nil_r.
Qed.

Section Acts.
Context (now : N) (node : bool) (start running : CacheLease → worker_trace → Prop).
Context (settle : CacheLease → worker_trace → result unit string → Prop).

Definition acts (p : working (option (result unit string))) : Prop :=
  ∀ tr r, runs p tr r → activity now node start running settle tr r.

Lemma acts_ret r : acts (Ret r).
Proof. intros tr r' [-> _]. by left. Qed.

Lemma acts_bind {A} (p : working A) k :
  confined quiet_event p → (∀ a, acts (k a)) → acts (bind p k).
Proof.
  intros Hp Hk tr r (t1 & t2 & a & -> & H1%(quiet_runs _ _ _ Hp) & H2%Hk)%runs_bind_inv.
  destruct H2 as [H|[(before & refused & -> & Hb & Hr)|
    (before & lease & starting & started & work & ending & -> & Hb & Hr)]].
  - left. by apply Forall_app.
  - right; left. exists (t1 ++ before), refused. rewrite <-(assoc_L (++)).
    split; [done|]. split; [by apply Forall_app|done].
  - right; right. exists (t1 ++ before), lease, starting, started, work, ending.
    rewrite <-(assoc_L (++)). split; [done|]. split; [by apply Forall_app|done].
Qed.

Lemma acts_or_fail {A F} (display : F → string) (p : working (result A F)) k :
  confined quiet_event p → (∀ a, acts (k a)) → acts (or_fail display p k).
Proof. intros Hp Hk. apply acts_bind; [done|]. intros [a|e]; [apply Hk|apply acts_ret]. Qed.

Lemma acts_some {A} (p : working (option A)) k :
  confined quiet_event p → (∀ a, acts (k a)) → acts (some* a := p in k a).
Proof. intros Hp Hk. apply acts_bind; [done|]. intros [a|]; [apply Hk|apply acts_ret]. Qed.

(** The maintenance, from the prepared attempt on. *)
Lemma acts_prepared k :
  (∀ lease tr r, runs (k (Some lease)) tr r → ∃ starting started work ending,
     tr = starting ++ Obs (Cache (PublishCache lease started)) tt :: work ++ ending ∧
     start lease starting ∧ running lease work ∧ returned settle lease ending r) →
  (∀ tr r, runs (k None) tr r → tr = []) →
  acts (or_fail control_message (trigger (Cache (PrepareCache now node))) k).
Proof.
  intros Hsome Hnone tr r (answer & t1 & -> & H). right. cbn [bind] in H.
  destruct answer as [[lease|]|e].
  - right. apply Hsome in H as (starting & started & work & ending & -> & Hs & Hw & He).
    by exists [], lease, starting, started, work, ending.
  - left. apply Hnone in H as ->. exists [], (Ok None). by split.
  - left. destruct H as [-> _]. exists [], (Err e). by split.
Qed.
End Acts.

Section Cycles.
Context `{JCap : Json NativeCacheCapability, JSup : Json SupervisorResult, JI : Json ProducerInfo}.

(** The start of the supervisor, for the attempt and the epoch of the lease. *)
Definition tool_start (lease : CacheLease) (tr : worker_trace) : Prop :=
  ∃ v child, runs (hosted (Ret true) (start_uv v (pca_token lease.1) lease.2)) tr child.

(** The removal, under the lease. *)
Definition node_work (lease : CacheLease) (tr : worker_trace) : Prop :=
  ∃ v native, runs (hosted (node_lease_lost lease) (remove_files v)) tr native.

Definition quietly (lease : CacheLease) (tr : worker_trace) : Prop := quiet tr.

(** The settlement commits the result of the attempt, if it goes well. *)
Definition tool_settle (now : N) (lease : CacheLease) (tr : worker_trace) (s : result unit string) : Prop :=
  s = Ok tt → ∃ r after, Obs (Cache (CompleteTool lease.1 r after)) (Ok tt) ∈ tr ∧
    tc_prepared_at_unix_millis r = now.

Definition node_settle (now : N) (lease : CacheLease) (tr : worker_trace) (s : result unit string) : Prop :=
  s = Ok tt → ∃ r after, Obs (Cache (CompleteNode lease.1 r after)) (Ok tt) ∈ tr ∧
    nc_prepared_at_unix_millis r = now.

Lemma settle_tool_commits now v lease native tr s :
  runs (settle_tool now v lease native) tr (Some s) → tool_settle now lease tr s.
Proof.
  intros (t1 & t2 & after & -> & _ & H)%runs_bind_inv ->.
  destruct H as ([clock|e] & t3 & -> & H); [|by destruct H as [_ ?]].
  destruct H as ([[]|e] & t4 & -> & H); [|by destruct H as [_ ?]].
  eexists _, after. split; [apply elem_of_app; right; right; left|done].
Qed.

Lemma settle_node_commits now v lease native tr s :
  runs (settle_node now v lease native) tr (Some s) → node_settle now lease tr s.
Proof.
  intros (t1 & t2 & [after|] & -> & _ & H)%runs_bind_inv ->; [|by destruct H].
  destruct H as ([clock|e] & t3 & -> & H); [|by destruct H as [_ ?]].
  destruct H as ([[]|e] & t4 & -> & H); [|by destruct H as [_ ?]].
  eexists _, after. split; [apply elem_of_app; right; right; left|done].
Qed.

Definition at_once (lease : CacheLease) (tr : worker_trace) : Prop := tr = [].

Lemma maintain_tool_acts now v : acts now false tool_start quietly (tool_settle now) (maintain_tool now v).
Proof.
  apply acts_prepared; [|by intros tr r [-> _]].
  intros lease tr r (t1 & t2 & child & -> & H1 & H)%runs_bind_inv.
  destruct H as ([] & t3 & -> & H). cbn [bind] in H.
  apply runs_bind_inv in H as (t4 & t5 & native & -> & H4 & H).
  assert (quiet t4) as Hq.
  { eapply quiet_runs; [|exact H4]. destruct child; [|done].
    apply quiet_hosted; [apply quiet_lost|apply harmless_wait]. }
  eexists t1, _, t4, t5. split; [reflexivity|]. split; [by exists v, child|]. split; [exact Hq|].
  destruct native as [native|]; [|left; destruct H as [-> ->]; by split].
  eapply finish_runs; [apply quiet_settle_tool|apply settle_tool_commits|exact H].
Qed.

Lemma maintain_node_acts now v : acts now true at_once node_work (node_settle now) (maintain_node now v).
Proof.
  apply acts_prepared; [|by intros tr r [-> _]].
  intros lease tr r ([] & t1 & -> & H). cbn [bind] in H.
  apply runs_bind_inv in H as (t4 & t5 & native & -> & H4 & H).
  exists [], true, t4, t5. split; [done|]. split; [done|]. split; [by exists v, native|].
  destruct native as [native|]; [|left; destruct H as [-> ->]; by split].
  eapply finish_runs; [apply quiet_settle_node|apply settle_node_commits|exact H].
Qed.

Lemma quiet_may {A} (adapter : result A CacheDiscoveryError) b due :
  confined quiet_event (may_maintain adapter b due).
Proof. unfold may_maintain. destruct (negb _); [done|]. by apply confined_bind; [apply quiet_stopping|]. Qed.

Lemma tool_cycle_acts now allow :
  acts now false tool_start quietly (tool_settle now) (run_tool_cache_cycle now allow).
Proof.
  apply acts_or_fail; [done|]. intros previous. apply acts_bind; [apply quiet_stopping|].
  intros []; [apply acts_ret|]. apply acts_some.
  { apply quiet_hosted; [apply quiet_stopping|apply harmless_discover_uv]. }
  intros adapter. apply acts_or_fail; [done|]. intros _. apply acts_bind; [apply quiet_may|].
  intros go. destruct adapter as [v|e]; [|apply acts_ret].
  destruct go; [apply maintain_tool_acts|apply acts_ret].
Qed.

Context (ARCH : string).

Lemma node_cycle_acts now allow :
  acts now true at_once node_work (node_settle now) (run_node_compile_cache_cycle ARCH now allow).
Proof.
  apply acts_or_fail; [done|]. intros previous. apply acts_bind; [apply quiet_stopping|].
  intros []; [apply acts_ret|]. apply acts_some.
  { apply quiet_hosted; [apply quiet_stopping|apply harmless_discover_node]. }
  intros adapter. apply acts_or_fail; [done|]. intros _. apply acts_bind; [apply quiet_may|].
  intros go. destruct adapter as [v|e]; [|apply acts_ret].
  destruct go; [apply maintain_node_acts|apply acts_ret].
Qed.

(** The work of the thread: the one cycle, the other, and the fail-close. *)
Lemma cache_work_runs now tr r :
  runs (cache_work ARCH now) tr r →
  ∃ tool node rest tool_r node_r, tr = tool ++ node ++ rest ∧
    activity now false tool_start quietly (tool_settle now) tool tool_r ∧
    activity now true at_once node_work (node_settle now) node node_r ∧ quiet rest.
Proof.
  intros (t1 & t2 & tool_r & -> & H1%tool_cycle_acts & H)%runs_bind_inv.
  destruct tool_r as [outcome|].
  2:{ destruct H as [-> _]. exists t1, [], [], None, None. by repeat (split; [try done; by left|]). }
  apply runs_bind_inv in H as (t3 & t4 & node_r & -> & H3 & H).
  exists t1, t3, t4, (Some outcome), node_r. split; [done|]. split; [done|]. split.
  - destruct outcome; [by eapply node_cycle_acts|]. destruct H3 as [-> _]. by left.
  - destruct node_r as [[o|e]|]; [by destruct H as [-> _]| |by destruct H as [-> _]].
    destruct H as (clock & t5 & -> & H). destruct H as (failed & t6 & -> & -> & _).
    by repeat constructor.
Qed.
End Cycles.

(** ** Where a cache is changed *)

(** The prepared attempt, with the lease that it gives. *)
Definition lease_granted (now : N) (node : bool) (lease : CacheLease) : obs WorkerE :=
  Obs (Cache (PrepareCache now node)) (Ok (Some lease)).

(** A call of the maintenance itself. *)
Definition native (o : obs WorkerE) : Prop :=
  match o with @Obs _ X ev _ => match ev with Native _ => True | _ => False end end.

Lemma native_cache {Y} (c : CacheC Y) (y : Y) : ¬ native (Obs (Cache c) y).
Proof. by intros H. Qed.

Lemma quiet_not o tr : ¬ quiet_obs o → quiet tr → o ∉ tr.
Proof. intros Ho Hq Hin. rewrite Forall_forall in Hq. by apply Ho, Hq. Qed.

(** A call that could change a cache, in an activity: at its start, or while it runs. *)
Lemma loud_in_activity now node start running settle tr r pre o post :
  activity now node start running settle tr r → tr = pre ++ o :: post → ¬ quiet_obs o → native o →
  ∃ before lease, 
    (∃ s1 s2, pre = before ++ lease_granted now node lease :: s1 ∧ start lease (s1 ++ o :: s2)) ∨
    (∃ starting started w1 w2,
       pre = before ++ lease_granted now node lease :: starting
               ++ Obs (Cache (PublishCache lease started)) tt :: w1 ∧
       running lease (w1 ++ o :: w2)).
Proof.
  intros H Htr Ho Hn. assert (∀ Y (c : CacheC Y) y, o ≠ Obs (Cache c) y) as Hne.
  { intros Y c y ->. done. }
  destruct H as [Hq|[(before & refused & -> & Hq & _)|
    (before & lease & starting & started & work & ending & -> & Hq & Hs & Hw & He)]].
  - destruct (quiet_not o tr Ho Hq). rewrite Htr. apply elem_of_app. right; left.
  - apply app_split_right in Htr as (l & -> & Hl); [|by apply quiet_not].
    symmetry in Hl. destruct l as [|o' l]; [by apply (f_equal head), (inj Some), Hne in Hl|].
    by destruct l.
  - exists before, lease. apply app_split_right in Htr as (l & -> & Htr); [|by apply quiet_not].
    apply cons_split_other in Htr as (l1 & -> & Htr); [|apply Hne].
    apply app_eq_inv in Htr as [(l & -> & Hl)|(l & -> & Hl)].
    + destruct l as [|o' l].
      * by apply (f_equal head), (inj Some), Hne in Hl.
      * apply cons_inv_both in Hl as [<- ->]. left. by exists l1, l.
    + right. apply cons_split_other in Hl as (l2 & -> & Hl); [|apply Hne].
      apply app_split_left in Hl as (l & -> & _); [by exists starting, started, l2, l|].
      destruct He as [[_ He]|(settling & finished & settled & -> & He & _ & _)]; [by apply quiet_not|].
      intros [Hin|Hin%list_elem_of_singleton]%elem_of_app; [by apply (quiet_not o settling)|].
      by eapply Hne.
Qed.

Lemma probed_lease lease tr s :
  runs (native_event (node_lease_lost lease) bool CancelProbe s) tr (tt, false) →
  pca_kind lease.1 = NodeCompileCache ∧
  ∃ asked, tr = asked ++ [Obs (Cache (CacheContinue lease)) true].
Proof.
  intros (t1 & t2 & stop & -> & H & -> & [= _ <-])%runs_bind_inv. rewrite app_nil_r.
  apply runs_bind_inv in H as (t3 & t4 & stop & -> & _ & H). destruct stop; [by destruct H|].
  case_bool_decide as Hk; [|by destruct H]. split; [done|].
  destruct H as (continue & t5 & -> & -> & Hc). exists t3. by destruct continue.
Qed.

Lemma confirmed_last v deadline e check :
  confirmed v deadline e check → ∃ l, check = l ++ [Obs CancelProbe false].
Proof.
  intros (now & bindings & look1 & look2 & -> & _).
  exists (Obs CancelProbe false :: Obs Now now :: bindings ++ look1 ++ look2).
  cbn [app]. by rewrite <-!(assoc_L (++)).
Qed.

(** The call of the maintenance that a call of the worker is. *)
Definition native_part (o : obs WorkerE) : option (obs CacheE) :=
  match o with
  | @Obs _ X ev x =>
      match ev in WorkerE X return X → option (obs CacheE) with
      | Native e => λ x, Some (Obs e x)
      | _ => λ _, None
      end x
  end.

(** A probe makes no call of the maintenance. *)
Definition own_call (X : Type) (ev : WorkerE X) : Prop :=
  match ev with Native _ => False | _ => True end.

(** What a native call of the worker is in the maintenance. *)
Lemma native_at probe X (e : CacheE X) s1 s2 x pre Y (ev : CacheE Y) y post :
  confined own_call probe →
  runs (native_event probe X e s1) (pre ++ Obs (Native ev) y :: post) (s2, x) →
  pre = [] ∧ Obs e x = Obs ev y ∧ post = [].
Proof.
  intros Hp H.
  assert (∀ tr, runs (do* x := trigger (Native e) in Ret (s1, x)) tr (s2, x) →
    tr = pre ++ Obs (Native ev) y :: post → pre = [] ∧ Obs e x = Obs ev y ∧ post = []) as Hone.
  { intros tr (a & t1 & -> & -> & [= _ ->]) Htr. destruct pre as [|o pre]; [|by destruct pre].
    pose proof (f_equal tail Htr) as Ht. simpl in Ht. apply (f_equal head), (inj Some) in Htr.
    apply (f_equal native_part), (inj Some) in Htr. by split. }
  destruct e; try (by eapply Hone; [exact H|]). exfalso.
  apply runs_bind_inv in H as (t1 & t2 & stop & Ht & H & -> & _). rewrite app_nil_r in Ht. subst t1.
  assert (Obs (Native ev) y ∈ pre ++ Obs (Native ev) y :: post) as Hin by (apply elem_of_app; right; left).
  by destruct (confined_runs _ _ _ _ _ _ _ Hp H Hin).
Qed.

Lemma own_stopping : confined own_call cache_stopping.
Proof. unfold cache_stopping. repeat (split; [done|]; intros []; try done). Qed.

Lemma own_node_lost lease : confined own_call (node_lease_lost lease).
Proof. apply confined_bind; [apply own_stopping|]. intros []; [done|]. by destruct (negb _). Qed.

(** A native call of a hosted program is one of the program, with all before it. *)
Lemma hosted_at {A} probe (p : caching A) tr a pre Y (ev : CacheE Y) y post :
  confined own_call probe → runs (hosted probe p) tr a → tr = pre ++ Obs (Native ev) y :: post →
  ∃ ctr before after s1, runs p ctr a ∧ ctr = before ++ Obs ev y :: after ∧
    handled (native_event probe) tt before pre s1.
Proof.
  intros Hp (t1 & t2 & r & -> & (ctr & Hr & Hh)%interpret_handled & -> & ->)%runs_bind_inv Htr.
  rewrite app_nil_r in Htr.
  destruct (handled_at _ _ _ _ _ _ _ _ Hh Htr) as
    (ctr1 & X & e & x & ctr2 & pre1 & pre2 & post1 & s1 & s2 & -> & -> & H1 & H2).
  destruct (native_at _ _ _ _ _ _ _ _ _ _ _ Hp H2) as (-> & He & _).
  rewrite app_nil_r. exists (ctr1 ++ Obs e x :: ctr2), ctr1, ctr2, s1. split; [done|].
  split; [by rewrite He|done].
Qed.

(** The interpretation of one call. *)
Lemma handled_call {E F : Type → Type} {S} (h : ∀ X, E X → S → prog F (S * X)) s o tr s' :
  handled h s [o] tr s' → match o with @Obs _ X e x => runs (h X e s) tr (s', x) end.
Proof.
  intros H. remember [o] as l eqn:Hl.
  destruct H as [s|s Y f s1 y tr1 ctr tr2 s' Hr Hh]; [done|].
  pose proof (f_equal tail Hl) as Hc. apply (f_equal head), (inj Some) in Hl. simpl in Hc. subst o ctr.
  remember [] as l eqn:Hnil in Hh. destruct Hh; [|done]. by rewrite app_nil_r.
Qed.

(** An unlink in a cycle: directly before it the lease was polled, and let it continue. *)
Lemma work_unlink lease tr pre d name u post :
  node_work lease tr → tr = pre ++ Obs (Native (UnlinkIn d name)) u :: post →
  pca_kind lease.1 = NodeCompileCache ∧
  ∃ before, pre = before ++ [Obs (Cache (CacheContinue lease)) true].
Proof.
  intros (v & r & H) Htr.
  destruct (hosted_at _ _ _ _ _ _ _ _ _ (own_node_lost lease) H Htr) as
    (ctr & before & after & s1 & Hr & Hctr & Hh).
  destruct (remove_files_at _ _ _ _ _ _ _ _ Hr Hctr) as
    (started & start & scan & es & e & es' & rest & check & _ & _ & _ & -> & _ & _ & Hc).
  apply confirmed_last in Hc as [l ->].
  rewrite !app_comm_cons, !(assoc_L (++)) in Hh.
  apply handled_app in Hh as (tr1 & tr2 & s2 & -> & _ & Hh).
  apply handled_call in Hh. destruct s1.
  destruct (probed_lease _ _ _ Hh) as (Hk & asked & ->). split; [done|].
  exists (tr1 ++ asked). by rewrite (assoc_L (++)).
Qed.

(** ** The start of a supervisor, in a cycle *)

(** A call of the maintenance that unlinks nothing. *)
Definition starting_call (X : Type) (ev : WorkerE X) : Prop :=
  match ev with Native (UnlinkIn _ _) => False | Native _ => True | _ => False end.

Lemma handled_native probe s ctr tr s' X (e : CacheE X) x :
  handled (native_event probe) s ctr tr s' → Obs e x ∈ ctr →
  (match e with CancelProbe => False | _ => True end) → Obs (Native e) x ∈ tr.
Proof.
  intros Hh (l1 & l2 & E)%list_elem_of_split He.
  destruct (handled_elem _ _ _ _ _ _ _ _ Hh E) as (t1 & t2 & t3 & s1 & s2 & -> & H).
  assert (runs (do* x := trigger (Native e) in Ret (s1, x)) t2 (s2, x)) as (y & t & -> & -> & [= _ ->])
    by (destruct e; done).
  apply elem_of_app; right. apply elem_of_app; left. left.
Qed.

Section Supervisor.
Context `{JCap : Json NativeCacheCapability, JSup : Json SupervisorResult}.

Lemma start_confined v token epoch :
  confined (λ X (e : CacheE X), match e with UnlinkIn _ _ => False | _ => True end)
    (start_uv v token epoch).
Proof.
  assert (∀ A (p : caching A), confined keeps p →
    confined (λ X (e : CacheE X), match e with UnlinkIn _ _ => False | _ => True end) p) as Hm.
  { intros A p. apply confined_mono. by intros X []. }
  unfold start_uv. apply confined_bind; [apply Hm, keeps_may_start|].
  intros [[[device inode] binding]|]; [|exact I].
  apply confined_bind; [apply Hm; unfold open_proved_root; confine|]. intros [fd|]; [|exact I].
  repeat (apply confined_bind; [by split|]; intros [?|?]; [|exact I]). unfold from_child. confine.
Qed.

Lemma start_calls lease tr :
  tool_start lease tr → Forall (λ o, match o with @Obs _ X ev _ => starting_call X ev end) tr.
Proof.
  intros (v & child & H). apply Forall_forall. intros [X ev x] Hin.
  refine (confined_runs _ _ _ _ _ _ _ _ H Hin). apply hosted_confined; [done|].
  eapply confined_mono; [|apply start_confined]. by intros Y [].
Qed.

(** A supervisor in a cycle: the capability was written, and all the calls since the
    activity was granted are of its start. *)
Lemma start_spawn lease tr pre cmd x post :
  tool_start lease tr → tr = pre ++ Obs (Native (Spawn cmd)) x :: post →
  Forall native pre ∧
  ∃ fd capability, Obs (Native (WriteAll fd (json_to_string capability))) (Ok tt) ∈ pre ∧
    cap_token capability = pca_token lease.1 ∧ cap_epoch capability = lease.2.
Proof.
  intros Hs Htr. split.
  { pose proof (start_calls _ _ Hs) as Hf. rewrite Htr in Hf. apply Forall_app in Hf as [Hf _].
    eapply Forall_impl; [exact Hf|]. intros [X ev y]. by destruct ev. }
  destruct Hs as (v & child & H). destruct (hosted_at (Ret true) _ _ _ _ _ _ _ _ I H Htr) as
    (ctr & before & after & s1 & Hr & Hctr & Hh).
  destruct (start_writes _ _ _ _ _ _ _ _ _ Hr Hctr) as (fd & capability & Hin & Ht & He).
  exists fd, capability. split; [|done]. by eapply handled_native.
Qed.
End Supervisor.

(** ** The calls that change a cache, in the work of the thread *)

(** A call that starts no child. *)
Definition childless_call (X : Type) (e : CacheE X) : Prop :=
  match e with Spawn _ => False | _ => True end.

Lemma childless_removal v : confined childless_call (remove_files v).
Proof.
  assert (∀ A (p : caching A), confined keeps p → confined childless_call p) as Hm.
  { intros A p. apply confined_mono. by intros X []. }
  apply confined_bind; [by split|]. intros started. apply confined_bind; [by split|].
  intros []; [exact I|]. apply confined_bind; [apply Hm, keeps_bindings|]. intros []; [|exact I].
  apply confined_bind; [apply Hm, keeps_scan|]. intros [[current|[]]|]; try exact I.
  destruct (negb _); [exact I|]. apply confined_bind; [|done].
  assert (∀ plan count bytes,
    confined childless_call (remove_plan v (started + BUDGET) plan count bytes)) as H; [|apply H].
  induction plan as [|e plan IH]; intros count bytes; [exact I|]. cbn [remove_plan].
  apply confined_bind; [apply Hm, keeps_confirm|]. intros []; [|exact I].
  apply confined_bind; [by split|]. intros [[]|]; [apply IH|exact I].
Qed.

Lemma work_childless lease tr cmd x : node_work lease tr → Obs (Native (Spawn cmd)) x ∉ tr.
Proof.
  intros (v & r & H) Hin.
  refine (confined_runs (λ X ev, match ev with Native (Spawn _) => False | _ => True end)
    _ _ _ _ _ _ _ H Hin).
  apply hosted_confined.
  - eapply confined_mono; [|apply own_node_lost]. by intros X [].
  - eapply confined_mono; [|apply childless_removal]. by intros X [].
Qed.

Section Work.
Context `{JCap : Json NativeCacheCapability, JSup : Json SupervisorResult, JI : Json ProducerInfo}.
Context (ARCH : string) (now : N).

(** A call that could change a cache is in the one cycle or in the other. *)
Lemma loud_in_work tr r pre o post :
  runs (cache_work ARCH now) tr r → tr = pre ++ o :: post → ¬ quiet_obs o →
  (∃ cycle cycle_r l, activity now false tool_start quietly (tool_settle now) cycle cycle_r ∧
     cycle = pre ++ o :: l) ∨
  (∃ tool cycle cycle_r p l,
     activity now true at_once node_work (node_settle now) cycle cycle_r ∧
     pre = tool ++ p ∧ cycle = p ++ o :: l).
Proof.
  intros (tool & node & rest & tool_r & node_r & -> & Ht & Hn & Hq)%cache_work_runs Htr Ho.
  apply app_eq_inv in Htr as [(l & -> & Hl)|(l & -> & Hl)].
  - destruct l as [|o' l].
    + right. rewrite app_nil_r in Ht. symmetry in Hl.
      destruct (app_split_left node rest [] post o Hl) as (l & Hnode & _); [by apply quiet_not|].
      exists pre, node, node_r, [], l. by rewrite app_nil_r.
    + left. apply cons_inv_both in Hl as [<- ->]. by eexists _, tool_r, l.
  - right. apply app_split_left in Hl as (l' & -> & _); [|by apply quiet_not].
    by exists tool, (l ++ o :: l'), node_r, l, l'.
Qed.

(** An unlink of the worker: of the Node cycle, directly after its lease was polled. *)
Lemma unlink_in_work tr r pre d name u post :
  runs (cache_work ARCH now) tr r → tr = pre ++ Obs (Native (UnlinkIn d name)) u :: post →
  ∃ lease before, pre = before ++ [Obs (Cache (CacheContinue lease)) true] ∧
    lease_granted now true lease ∈ before ∧ pca_kind lease.1 = NodeCompileCache.
Proof.
  intros Hr Htr. destruct (loud_in_work _ _ _ _ _ Hr Htr id) as
    [(cycle & cycle_r & l & Ha & Hc)|(tool & cycle & cycle_r & p & l & Ha & -> & Hc)];
    destruct (loud_in_activity _ _ _ _ _ _ _ _ _ _ Ha Hc id I) as (before & lease &
      [(s1 & s2 & Hp & Hs)|(starting & started & w1 & w2 & Hp & Hw)]).
  - apply start_calls, Forall_app in Hs as [_ Hs]. by apply Forall_cons in Hs as [? _].
  - apply Forall_app in Hw as [_ Hw]. by apply Forall_cons in Hw as [? _].
  - by destruct s1.
  - destruct (work_unlink _ _ _ _ _ _ _ Hw eq_refl) as (Hk & w & ->).
    exists lease, (tool ++ before ++ lease_granted now true lease :: starting
      ++ Obs (Cache (PublishCache lease started)) tt :: w).
    rewrite Hp. split; [by rewrite <-!(assoc_L (++)), <-app_comm_cons, <-(assoc_L (++))|].
    split; [|done]. apply elem_of_app; right. apply elem_of_app; right. left.
Qed.

(** A supervisor of the worker: of the uv cycle, while it holds the lock. *)
Lemma supervisor_in_work tr r pre cmd x post :
  runs (cache_work ARCH now) tr r → tr = pre ++ Obs (Native (Spawn cmd)) x :: post →
  supervises cmd →
  ∃ lease before start, pre = before ++ lease_granted now false lease :: start ∧ Forall native start ∧
    ∃ fd capability, Obs (Native (WriteAll fd (json_to_string capability))) (Ok tt) ∈ start ∧
      cap_token capability = pca_token lease.1 ∧ cap_epoch capability = lease.2.
Proof.
  intros Hr Htr Hsup.
  assert (¬ quiet_obs (Obs (Native (Spawn cmd)) x)) as Ho by (intros H; by apply H).
  destruct (loud_in_work _ _ _ _ _ Hr Htr Ho) as
    [(cycle & cycle_r & l & Ha & Hc)|(tool & cycle & cycle_r & p & l & Ha & -> & Hc)];
    destruct (loud_in_activity _ _ _ _ _ _ _ _ _ _ Ha Hc Ho I) as (before & lease &
      [(s1 & s2 & Hp & Hs)|(starting & started & w1 & w2 & Hp & Hw)]).
  - exists lease, before, s1. split; [exact Hp|]. by eapply start_spawn.
  - apply Forall_app in Hw as [_ Hw]. by apply Forall_cons in Hw as [? _].
  - by destruct s1.
  - destruct (work_childless _ _ cmd x Hw). apply elem_of_app; right; left.
Qed.
End Work.

(** ** The worker in the daemon *)

Section Steps.
Context `{JE : Json EventPayload, JM : Json OrdinaryMutation, JR : Json MutationReceipt}.
Context `{JC : Json CleanupResources, JP : Json (list N)}.
Context `{JA : Json ToolCacheAvailability, JT : Json ToolCacheAttemptSummary}.
Context `{JN : Json NodeCompileCacheAttemptSummary}.

(** The two ends of the start of a maintenance make [start_cache_if_ready_enforce], around
    the factory. *)
Lemma start_splits {T} token io io' now node (start : string → string → result T string) c :
  start_cache_if_ready_enforce token io io' now node start c =
  match prepare_cache token io io' now node c with
  | (c, Err e) => (c, Err e)
  | (c, Ok None) => (c, Ok None)
  | (c, Ok (Some (prepared, epoch))) =>
      let child := start (pca_token prepared) epoch in
      (publish_cache (prepared, epoch) (match child with Ok _ => true | Err _ => false end) c,
       Ok (Some (prepared, child, epoch)))
  end.
Proof.
  unfold start_cache_if_ready_enforce, prepare_cache. destruct (expire_pause io now c) as [c1 [u|e]]; [|done].
  unfold locked. destruct (poisoned c1); [done|]. destruct (negb _); [done|].
  destruct (if node then _ else _) as [[db prepared]|e]; [|done]. cbv zeta.
  unfold publish_cache. simpl. by destruct (start _ _).
Qed.

Lemma prepare_advances token io io' now node c :
  tracks c → advances c (prepare_cache token io io' now node c).1.
Proof.
  intros Ht. apply expired_advances; [exact Ht|]. clear c Ht. intros c _. apply locked_quiet.
  intros s ->. destruct (negb _); [apply undisturbed_refl|].
  destruct (if node then _ else _) as [[m p]|e]; [|apply undisturbed_refl].
  eapply undisturbed_status; [apply same_refl|reflexivity..].
Qed.

Lemma publish_quiet_cache lease started c : undisturbed c (publish_cache lease started c).
Proof.
  unfold publish_cache. destruct started; (eapply undisturbed_status; [|reflexivity..]);
    [apply same_cache|apply same_refl].
Qed.

Lemma writes_maintenance_steps {A} (r : result (maintenance * A) StoreError) c :
  rtc ctl_step c (writes_maintenance r c).1.
Proof. destruct r as [[m a]|e]; simpl; [|done]. apply rtc_once, step_maintenance. Qed.

(** A call of the worker keeps the status at the durable row. *)
Lemma cache_call_tracks {X} (e : CacheC X) v c : tracks c → tracks (cache_call e v c).1.
Proof.
  intros Ht.
  assert (∀ c', rtc ctl_step c c' → tracks c') as Hsteps by (intros c' Hs; by eapply steps_track).
  destruct e; cbn [cache_call]; cbv zeta; try exact Ht; try apply Hsteps, writes_maintenance_steps.
  - by apply prepare_advances.
  - apply (undisturbed_advances c (publish_cache lease started c)); [exact Ht|apply publish_quiet_cache].
  - apply Hsteps, rtc_once, step_cache_finished.
  - apply Hsteps, rtc_once, step_fail_closed.
Qed.

(** The step of a prepared attempt: the epoch of its lease is the enforcing one. *)
Lemma granted_epoch now node v c c' lease :
  cache_call (PrepareCache now node) v c = (c', Ok (Some lease)) →
  enforcement_epoch (ctl_status c') = Some lease.2.
Proof.
  cbn [cache_call]. unfold prepare_cache. destruct (expire_pause _ _ _) as [c1 [u|e]]; [|done].
  unfold locked. destruct (poisoned c1); [done|]. destruct (storage_cleanup_gate_open _) eqn:Hg; [|done].
  destruct (if node then _ else _) as [[db prepared]|e]; [|done]. intros [= <- <-]. simpl.
  unfold storage_cleanup_gate_open in Hg. bool_facts.
  by match goal with H : is_Some (enforcement_epoch _) |- _ => destruct H as [epoch ->] end.
Qed.

(** What an event does to the control plane. *)
Definition cache_step (c : ControlPlane) (o : obs WorkerE) (c' : ControlPlane) : Prop :=
  match o with
  | @Obs _ X ev x =>
      match ev in WorkerE X return X → Prop with
      | Cache call => λ x, ∃ v, cache_call call v c = (c', x)
      | _ => λ _, c' = c
      end x
  end.

(** Whether the worker holds the lock of the status after an event. *)
Definition locks (held : bool) (o : obs WorkerE) : bool :=
  match o with
  | @Obs _ X ev x =>
      match ev in WorkerE X return X → bool with
      | @Cache Y call => λ x,
          match call in CacheC Y return Y → bool with
          | PrepareCache _ _ => λ x, match x with Ok (Some _) => true | _ => held end
          | PublishCache _ _ => λ _, false
          | _ => λ _, held
          end x
      | _ => λ _, held
      end x
  end.

(** What other threads do that does not take the lock of the status. *)
Inductive unlocked_step : ControlPlane → ControlPlane → Prop :=
| unlocked_store db c :
    lifecycle db = lifecycle (ctl_store c) → unlocked_step c (c <| ctl_store := db |>)
| unlocked_maintenance m c : unlocked_step c (c <| ctl_maintenance := m |>).

(** A trace of the worker, interleaved with the steps of other threads. *)
Inductive cache_run : bool → ControlPlane → worker_trace → ControlPlane → Prop :=
| cache_nil held c : cache_run held c [] c
| cache_other c c1 tr c' : ctl_step c c1 → cache_run false c1 tr c' → cache_run false c tr c'
| cache_beside c c1 tr c' : unlocked_step c c1 → cache_run true c1 tr c' → cache_run true c tr c'
| cache_event held c o c1 tr c' :
    cache_step c o c1 → cache_run (locks held o) c1 tr c' → cache_run held c (o :: tr) c'.

Lemma cache_step_tracks c o c' : cache_step c o c' → tracks c → tracks c'.
Proof.
  destruct o as [X ev x]. destruct ev; simpl; try by intros ->. intros [v Hv] Ht.
  pose proof (cache_call_tracks c0 v c Ht) as H. by rewrite Hv in H.
Qed.

Lemma unlocked_tracks c c' : unlocked_step c c' → tracks c → tracks c'.
Proof. intros [db c1 Hl|m c1] Ht; (eapply steps_track; [apply rtc_once|exact Ht]); by constructor. Qed.

Lemma cache_run_tracks held c tr c' : cache_run held c tr c' → tracks c → tracks c'.
Proof.
  induction 1 as [|c c1 tr c' Hs _ IH|c c1 tr c' Hs _ IH|held c o c1 tr c' Hs _ IH]; intros Ht.
  - done.
  - apply IH. eapply steps_track; [by apply rtc_once|exact Ht].
  - apply IH. by eapply unlocked_tracks.
  - apply IH. by eapply cache_step_tracks.
Qed.

Lemma cache_run_split held c pre o post c' :
  cache_run held c (pre ++ o :: post) c' →
  ∃ c1 c2, cache_run held c pre c1 ∧ cache_step c1 o c2 ∧
    cache_run (locks (fold_left locks pre held) o) c2 post c'.
Proof.
  intros H. remember (pre ++ o :: post) as tr eqn:E. revert pre E.
  induction H as [held c|c c1 tr c' Hs Hr IH|c c1 tr c' Hs Hr IH|held c o' c1 tr c' Ho Hr IH]; intros pre E.
  - by destruct pre.
  - destruct (IH pre E) as (ca & cb & H1 & H2 & H3). exists ca, cb. split; [by eapply cache_other|done].
  - destruct (IH pre E) as (ca & cb & H1 & H2 & H3). exists ca, cb. split; [by eapply cache_beside|done].
  - destruct pre as [|o2 pre]; apply cons_inv_both in E as [-> ->].
    + exists c, c1. split; [constructor|done].
    + destruct (IH pre eq_refl) as (ca & cb & H1 & H2 & H3). exists ca, cb.
      split; [by eapply cache_event|done].
Qed.

Lemma cache_run_app held c t1 c1 t2 c2 :
  cache_run held c t1 c1 → cache_run (fold_left locks t1 held) c1 t2 c2 →
  cache_run held c (t1 ++ t2) c2.
Proof.
  induction 1 as [held c|c ca tr cb Hs _ IH|c ca tr cb Hs _ IH|held c o ca tr cb Hs _ IH]; intros H.
  - exact H.
  - eapply cache_other; [exact Hs|by apply IH].
  - eapply cache_beside; [exact Hs|by apply IH].
  - eapply cache_event; [exact Hs|by apply IH].
Qed.

(** While the lock is held, the epoch stays. *)
Lemma held_epoch c tr c' :
  cache_run true c tr c' → Forall native tr →
  enforcement_epoch (ctl_status c') = enforcement_epoch (ctl_status c).
Proof.
  intros H. remember true as held eqn:Hheld.
  induction H as [|c c1 tr c' Hs _ IH|c c1 tr c' Hs _ IH|held c o c1 tr c' Hs _ IH]; intros Hf.
  - done.
  - done.
  - rewrite (IH Hheld Hf). by destruct Hs.
  - apply Forall_cons in Hf as [Hn Hf]. destruct o as [X ev x]. destruct ev; try done.
    simpl in Hs. subst. by apply IH.
Qed.

Context `{JCap : Json NativeCacheCapability, JSup : Json SupervisorResult, JI : Json ProducerInfo}.

(** [C15] Caches are changed durably armed. Boot a managed daemon on any database its
    lifecycle left behind, let its threads run, and then the cache worker among them.
    Whenever the worker unlinks a file of the Node cache, it was granted an activity for
    this cache, and directly before the unlink the control plane answered that the attempt
    may continue: in whatever state it answered, the activity of this very attempt and
    epoch is registered and not cancelled, no clone is removed, and the daemon is ready,
    enforces under the epoch and neither drains nor pauses. Whenever it starts the
    supervisor of the uv cache, it was granted an activity for that one, nothing but the
    start itself was done since, with the lock of the status held, and the supervisor's
    capability names the attempt and the epoch. In whatever state either happens, the
    durable row is the enforcing one of this generation, this instance and the epoch. *)
Theorem caches_are_changed_durably_armed version directory io epochs cycles sequence wall g pid boot
    db m c0 c tr c' ARCH now r
    (Hhistory : lifecycle_history db)
    (Hboot : begin_managed version directory io epochs cycles sequence wall g pid boot db m = Ok c0)
    (Hsteps : rtc ctl_step c0 c) (Hrun : cache_run false c tr c')
    (Hwork : runs (cache_work ARCH now) tr r) :
  (∀ pre d name u post, tr = pre ++ Obs (Native (UnlinkIn d name)) u :: post →
     ∃ lease before, pre = before ++ [Obs (Cache (CacheContinue lease)) true] ∧
       lease_granted now true lease ∈ before ∧ pca_kind lease.1 = NodeCompileCache ∧
       let answers c1 c2 := cache_run false c before c1 ∧
         cache_step c1 (Obs (Cache (CacheContinue lease)) true) c2 ∧
         cache_run (fold_left locks pre false) c2 (Obs (Native (UnlinkIn d name)) u :: post) c' in
       (∃ c1 c2, answers c1 c2) ∧
       (∀ c1 c2, answers c1 c2 →
          goes_on (pca_token lease.1) lease.2
            (cache_activity (ctl_status c1)) (storage_activity (ctl_status c1)) c1 ∧
          durably_enforcing lease.2 c1)) ∧
  (∀ pre cmd x post, tr = pre ++ Obs (Native (Spawn cmd)) x :: post → supervises cmd →
     ∃ lease before start, pre = before ++ lease_granted now false lease :: start ∧
       Forall native start ∧
       (∃ fd capability, Obs (Native (WriteAll fd (json_to_string capability))) (Ok tt) ∈ start ∧
         cap_token capability = pca_token lease.1 ∧ cap_epoch capability = lease.2) ∧
       let starts c1 := cache_run false c pre c1 ∧
         cache_run (fold_left locks pre false) c1 (Obs (Native (Spawn cmd)) x :: post) c' in
       (∃ c1, starts c1) ∧ (∀ c1, starts c1 → durably_enforcing lease.2 c1)).
Proof.
  assert (tracks c) as Ht.
  { eapply steps_track; [exact Hsteps|]. eapply begin_managed_tracks; [|exact Hboot].
    by apply history_service. }
  split.
  - intros pre d name u post Htr.
    destruct (unlink_in_work _ _ _ _ _ _ _ _ _ Hwork Htr) as (lease & before & -> & Hg & Hk).
    exists lease, before. do 3 (split; [done|]). intros answers. split.
    + rewrite Htr, <-(assoc_L (++)) in Hrun.
      destruct (cache_run_split _ _ _ _ _ _ Hrun) as (c1 & c2 & H1 & H2 & H3).
      exists c1, c2. do 2 (split; [done|]). by rewrite fold_left_app.
    + intros c1 c2 (H1 & [v [= _ Hpoll%cache_goes_on]] & _). split; [done|].
      apply tracked_epoch; [by eapply cache_run_tracks|apply Hpoll].
  - intros pre cmd x post Htr Hsup.
    destruct (supervisor_in_work _ _ _ _ _ _ _ _ Hwork Htr Hsup) as
      (lease & before & start & -> & Hn & Hcap).
    exists lease, before, start. do 3 (split; [done|]). intros starts. split.
    + rewrite Htr in Hrun. destruct (cache_run_split _ _ _ _ _ _ Hrun) as (c1 & c2 & H1 & H2 & H3).
      exists c1. split; [done|]. by eapply cache_event.
    + intros c1 [Hpre _]. apply tracked_epoch; [by eapply cache_run_tracks|].
      destruct (cache_run_split _ _ _ _ _ _ Hpre) as (c2 & c3 & H1 & [v Hv] & Hrest).
      rewrite (held_epoch _ _ _ Hrest Hn). by eapply granted_epoch.
Qed.

(** The lease that a call was granted. *)
Definition lease_of (o : obs WorkerE) : option CacheLease :=
  match o with
  | @Obs _ X ev x =>
      match ev in WorkerE X return X → option CacheLease with
      | @Cache Y call => λ x,
          match call in CacheC Y return Y → option CacheLease with
          | PrepareCache _ _ => λ x, match x with Ok l => l | Err _ => None end
          | _ => λ _, None
          end x
      | _ => λ _, None
      end x
  end.

(** A cycle that came to an end: without an activity, or with one that was returned. *)
Lemma activity_settled now node start running settle tr outcome :
  activity now node start running settle tr (Some outcome) →
  (∀ lease, lease_granted now node lease ∉ tr) ∨
  ∃ before lease mid settling finished settled,
    tr = before ++ lease_granted now node lease :: (mid ++ settling)
           ++ [Obs (Cache (FinishCache lease.1)) finished] ∧
    quiet before ∧ settle lease settling settled ∧
    outcome = (let? _ := map_err control_message finished in settled).
Proof.
  assert (∀ lease l, quiet l → lease_granted now node lease ∉ l) as Hno
    by (intros lease l Hq; apply quiet_not; [intros H; exact H|exact Hq]).
  intros [Hq|[(before & refused & -> & Hq & Hr)|
    (before & lease & starting & started & work & ending & -> & Hq & _ & _ & He)]].
  - left. intros lease. by apply Hno.
  - left. intros lease [Hin|Hin%list_elem_of_singleton]%elem_of_app; [by destruct (Hno lease before)|].
    apply (f_equal lease_of) in Hin. simpl in Hin.
    destruct refused as [[l|]|]; try done. by eapply Hr.
  - right. destruct He as [[? _]|(settling & finished & settled & -> & _ & Hs & [= ->])]; [done|].
    exists before, lease, (starting ++ Obs (Cache (PublishCache lease started)) tt :: work),
      settling, finished, settled.
    split; [by rewrite <-!(assoc_L (++)), <-!app_comm_cons|done].
Qed.

(** The commit of a settlement: of this very attempt, with the time of the cycle. *)
Definition commits (node : bool) (now : N) (lease : CacheLease) (tr : worker_trace) : Prop :=
  if node
  then ∃ r after, Obs (Cache (CompleteNode lease.1 r after)) (Ok tt) ∈ tr ∧
         nc_prepared_at_unix_millis r = now
  else ∃ r after, Obs (Cache (CompleteTool lease.1 r after)) (Ok tt) ∈ tr ∧
         tc_prepared_at_unix_millis r = now.

(** [C33] Cache cycles return what they take. A cycle of either cache that ends was granted no
    activity, or the one that it was granted is returned as its last call, whatever happened
    in between; and the cycle succeeds only if the result of this very attempt was committed
    and the activity was taken back. *)
Theorem cache_cycles_return_activities ARCH now allow node tr outcome
    (Hrun : runs (if node : bool then run_node_compile_cache_cycle ARCH now allow
                  else run_tool_cache_cycle now allow) tr (Some outcome)) :
  (∀ lease, lease_granted now node lease ∉ tr) ∨
  ∃ before lease mid finished,
    tr = before ++ lease_granted now node lease :: mid ++ [Obs (Cache (FinishCache lease.1)) finished] ∧
    quiet before ∧ (outcome = Ok tt → finished = Ok tt ∧ commits node now lease mid).
Proof.
  destruct node; [apply node_cycle_acts in Hrun|apply tool_cycle_acts in Hrun];
    apply activity_settled in Hrun as
      [H|(before & lease & mid & settling & finished & settled & -> & Hq & Hs & ->)]; auto; right;
    exists before, lease, (mid ++ settling), finished; (split; [done|]; split; [done|]);
    intros Hok; destruct finished as [[]|e]; try done; (split; [done|]);
    destruct (Hs Hok) as (res & after & Hin & Hnow); exists res, after;
    (split; [apply elem_of_app; by right|done]).
Qed.
End Steps.
