(* ===== verification/CacheExamples.v ===== *)
(** CacheExamples: the cache worker on a concrete machine.

    The bucket of the Node cache holds a final and a temporary file, the producers answer
    their queries, and a child exits after it was polled once. The control plane is the
    armed daemon of [ControlExamples.v]. *)

From S2P Require Import Prelude Text Model Fingerprint Artifact Graph Evidence Cleanup Effects.
From S2P Require Import Executor ExecutorSafety ExecutorGuarantees Analyzer Decisions Cooling.
From S2P Require Import Names Store Journal DurableRun StoreSafety Lifecycle LifecycleFacts.
From S2P Require Import Residue Protocol Mutations Observations Views Maintenance Control.
From S2P Require Import ControlFacts ControlSafety DurableExamples MutationExamples.
From S2P Require Import ControlExamples Engine Procargs Producer NodeCache UvCache NodeCacheFacts.
From S2P Require Import UvCacheFacts CacheTermination CacheWorker CacheWorkerFacts.
From Stdlib Require Import Ascii.

(** ** The records as JSON *)

#[export] Instance Z_wire : Wire Z :=
  wire_via (λ z, (bool_decide (z < 0)%Z, Z.abs_N z))
    (λ p, if p.1 : bool then (- Z.of_N p.2)%Z else Z.of_N p.2)
    ltac:(intros z; simpl; case_bool_decide; lia).

#[export] Instance binding_wire : Wire ProducerBinding := list_wire.

#[export] Instance capability_wire : Wire NativeCacheCapability :=
  wire_via (λ c, (cap_token c, cap_epoch c, root_device c, root_inode c, cap_binding c))
    (λ '(a, b, c, d, e), mkNativeCacheCapability a b c d e) ltac:(by intros []).

#[export] Instance supervisor_wire : Wire SupervisorResult :=
  wire_via (λ r, (sup_outcome r, sup_removed_entry_count r, sup_removed_logical_bytes r))
    (λ '(a, b, c), mkSupervisorResult a b c) ltac:(by intros []).

#[export] Instance info_wire : Wire ProducerInfo :=
  wire_via (λ i, (info_version i, info_arch i, info_tag i, info_uid i))
    (λ '(a, b, c, d), mkProducerInfo a b c d) ltac:(by intros []).

#[export] Instance capability_json : Json NativeCacheCapability := wire_json.

#[export] Instance supervisor_json : Json SupervisorResult := wire_json.

#[export] Instance info_json : Json ProducerInfo := wire_json.

#[export] Instance supervisor_round_trip : JsonRoundTrip SupervisorResult.
Proof.
  intros p. unfold json_from_str, json_to_string. cbn [supervisor_json wire_json].
  by rewrite get_put.
Qed.

(** ** The machine *)

Record cache_world : Type := mkCacheWorld {
  cw_clock : N;
  cw_files : list (string * (N * string));
  cw_read : bool;
  cw_output : string;
  cw_capability : string;
  cw_polled : bool;
}.

Definition of_bytes (l : list N) : string :=
  String.string_of_list_ascii (ascii_of_N <$> l).

(** A final file: its header, with the length and the checksum of the payload. *)
Definition final_text : string :=
  of_bytes [178; 219; 223; 138; 0; 0; 0; 0; 5; 0; 0; 0; 0; 0; 0; 0; 134; 166; 16; 54]%N +:+ "hello".

Definition final_name : string := "0a1b2c3d".

Definition cache_files : list (string * (N * string)) :=
  [(final_name, (100%N, final_text)); ("0a1b2c3d.Ab12Cd", (101%N, "unfinished"))].

Definition directory_metadata (inode : N) : Metadata :=
  mkMetadata FileDirectory 1 inode 501 448 2 64 0 0 0 0.

Definition file_metadata (inode length : N) : Metadata :=
  mkMetadata FileRegular 1 inode 501 384 1 length 0 0 0 0.

Definition producer_metadata : Metadata := mkMetadata FileRegular 1 77 0 493 1 9000 0 0 0 0.

Definition machine_directories : list string :=
  ["/"; "/Users"; "/Users/u"; "/Users/u/.cache"; "/Users/u/.cache/uv"].

Definition machine_producers : list string := ["/opt/homebrew/bin/node"; "/opt/homebrew/bin/uv"].

(** The metadata of a path. *)
Definition machine_stat (path : string) : result Metadata IoError :=
  if bool_decide (path ∈ machine_producers) then Ok producer_metadata
  else if bool_decide (path ∈ machine_directories) then Ok (directory_metadata 4)
  else Err IoNotFound.

Definition file_numbered (files : list (string * (N * string))) (fd : N) : option string :=
  e ← List.find (λ e, bool_decide (e.2.1 = fd)) files; Some e.2.2.

(** What a child writes. *)
Definition child_output (c : Command) : string :=
  match cmd_arguments c with
  | ["--version"] => "uv 0.11.20 (Homebrew)"
  | "--eval" :: _ => json_to_string (mkProducerInfo "v26.7.0" "arm64" "0a1b2c3d" 501)
  | flag :: _ =>
      if bool_decide (flag = NATIVE_CACHE_CHILD_FLAG)
      then json_to_string (mkSupervisorResult "completed" (Some 3%N) (Some 2048%N))
      else "Pruning cache at: ." +:+ of_bytes [10%N] +:+ "Removed 3 files (2.0KiB)"
  | [] => ""
  end.

Definition cache_handle (X : Type) (e : CacheE X) (w : cache_world) : cache_world * X :=
  match e in CacheE X return cache_world * X with
  | CacheEuid => (w, 501%N)
  | UserHome _ => (w, Some "/Users/u"%string)
  | HomeVariable => (w, Some "/Users/u"%string)
  | ConfStrSize => (w, 15%N)
  | ConfStr size => (w, (size, "/var/folders/T" +:+ of_bytes [0%N]))
  | Now => (w <| cw_clock ::= N.add 1 |>, cw_clock w)
  | PollSleep => (w <| cw_clock ::= N.add POLL_INTERVAL |>, tt)
  | CancelProbe => (w, false)
  | Stat path => (w, machine_stat path)
  | LinkStat path => (w, machine_stat path)
  | RealPath path => (w, Ok path)
  | OpenDirectory path anywhere => (w, Ok (if anywhere : bool then 1%N else 4%N))
  | OpenIn parent name directory =>
      (w, match parent with
          | 1%N => Ok 2%N
          | 2%N => Ok 3%N
          | _ => match List.find (λ e, bool_decide (e.1 = name)) (cw_files w) with
                 | Some e => Ok e.2.1
                 | None => Err IoNotFound
                 end
          end)
  | StatFd file =>
      (w, match file_numbered (cw_files w) file with
          | Some text => Ok (file_metadata file (bytes_len text))
          | None => Ok (directory_metadata file)
          end)
  | DirectoryStream _ => (w, Ok ("." :: ".." :: (cw_files w).*1))
  | ReadFile file _ =>
      let text := default "" (file_numbered (cw_files w) file) in
      if cw_read w then (w <| cw_read := false |>, Ok "")
      else (w <| cw_read := true |>, Ok (String.substring 20 (String.length text) text))
  | ReadExact file count =>
      (w, Ok (String.substring 0 (N.to_nat count) (default "" (file_numbered (cw_files w) file))))
  | UnlinkIn _ name =>
      (w <| cw_files ::= List.filter (λ e, negb (bool_decide (e.1 = name))) |>, Ok tt)
  | CurrentExe => (w, Ok "/usr/local/bin/unlingerd"%string)
  | Pipe => (w, Ok (20%N, 21%N))
  | WriteAll _ bytes => (w <| cw_capability := bytes |>, Ok tt)
  | TakeInherited _ | SetNonblocking _ => (w, Ok tt)
  | ReadPipe fd _ =>
      if bool_decide (fd = 0%N) then (w, ReadWouldBlock)
      else if bool_decide (fd = 20%N) then (w <| cw_capability := "" |>, ReadBytes (cw_capability w))
      else (w <| cw_output := "" |>, ReadBytes (cw_output w))
  | ReadParent _ => (w, Some ReadWouldBlock)
  | Spawn c => (w <| cw_output := child_output c |> <| cw_polled := false |>, Ok (mkChild 40 30))
  | TryWait _ =>
      (w <| cw_polled := true |>, Ok (if cw_polled w then Some (Some 0%Z) else None))
  | KillChild _ | WaitChild _ | CloseInput _ => (w, tt)
  end.

Definition cache_machine : cache_world := mkCacheWorld 1000 cache_files false "" "" false.

(** ** The Node cache *)

(** The adapter that the discovery opened. *)
Definition node_adapter : NodeCompileCacheMaintenance :=
  let at_ inode := mkIdentity 1 inode 64 (0, 0)%Z (0, 0)%Z in
  mkNodeCompileCacheMaintenance "/opt/homebrew/bin/node" [(1, 77, 9000, 0%Z, 0%Z)%N] 1
    "/var/folders/T" (at_ 1%N) 2 3 "v26.7.0-arm64-0a1b2c3d-501" (at_ 2%N) (at_ 3%N)
    [mkEntry final_name (mkIdentity 1 100 25 (0, 0)%Z (0, 0)%Z)].

Example node_discovered :
  (run cache_handle (discover_node "aarch64") cache_machine).2 = Some (Ok node_adapter).
Proof. vm_compute. reflexivity. Qed.

(** A run with its answer. *)
Lemma run_answers {A} (p : caching A) w a :
  (run cache_handle p w).2 = a → runs p (run cache_handle p w).1.2 a.
Proof. intros <-. apply run_runs. Qed.

(** The names that a call listed. *)
Definition names_of (o : obs CacheE) : option (list string) :=
  match o with
  | @Obs _ X e x =>
      match e in CacheE X return X → option (list string) with
      | DirectoryStream _ => λ x, match x with Ok names => Some names | Err _ => None end
      | _ => λ _, None
      end x
  end.

Definition machine_scan := run cache_handle (scan_entries 3 (10 ^ 12)) cache_machine.

Lemma scans_admit_validated_files_witness :
  ∃ listed rest, machine_scan.1.2 = Obs (DirectoryStream 3) (Ok listed) :: rest ∧
    within rest (temporary 3 "0a1b2c3d.Ab12Cd") ∧
    ∀ e, e ∈ entries node_adapter → within rest (validated 3 e).
Proof.
  destruct (scans_admit_validated_files 3 (10 ^ 12) machine_scan.1.2 (entries node_adapter))
    as (listed & rest & E & _ & _ & Ht & Hv & _).
  { apply run_answers. vm_compute. reflexivity. }
  exists listed, rest. split; [exact E|]. split; [|exact Hv].
  apply (f_equal (λ l, head l ≫= names_of)) in E. vm_compute in E. injection E as <-.
  apply Ht; [vm_compute; set_solver|reflexivity].
Defined.

Definition machine_removal := run cache_handle (remove_files node_adapter) cache_machine.

Definition removal_result : NodeCompileCacheResult :=
  mkNodeCompileCacheResult CacheCompleted (Some 1%N) (Some 25%N).

Lemma machine_removal_runs :
  runs (remove_files node_adapter) machine_removal.1.2 (Some removal_result).
Proof. apply run_answers. vm_compute. reflexivity. Qed.

Example removal_keeps_temporary_files : (cw_files machine_removal.1.1).*1 = ["0a1b2c3d.Ab12Cd"].
Proof. vm_compute. reflexivity. Qed.

Lemma node_cache_removes_its_plan_witness :
  unlinked machine_removal.1.2 = [(3%N, final_name, Ok tt)] ∧
  ∃ started check rest, confirmed node_adapter (started + BUDGET)
      (mkEntry final_name (mkIdentity 1 100 25 (0, 0)%Z (0, 0)%Z)) check ∧
    take 55 machine_removal.1.2 = rest ++ check.
Proof.
  destruct (node_cache_removes_its_plan node_adapter machine_removal.1.2 removal_result
    machine_removal_runs) as [Hat (Hu & _ & _)].
  split; [exact Hu|].
  destruct (Hat (take 55 machine_removal.1.2) 3%N final_name (Ok tt) (drop 56 machine_removal.1.2))
    as (started & start & scan & before & e & after & rest & check & He & _ & Hn & Hpre & _ & _ & Hc).
  { apply split_at. vm_compute. reflexivity. }
  assert (e = mkEntry final_name (mkIdentity 1 100 25 (0, 0)%Z (0, 0)%Z)) as ->.
  { destruct before as [|b before]; [by injection He as <- _|]. by destruct before. }
  eexists started, check, _. split; [exact Hc|]. rewrite Hpre.
  by rewrite !app_comm_cons, !(assoc_L (++)).
Defined.

(** ** The uv cache *)

Definition uv_adapter : UvCacheMaintenance :=
  mkUvCacheMaintenance "/opt/homebrew/bin/uv" (Some [(1, 77, 9000, 0%Z, 0%Z)%N])
    (Some (1, 4)%N) CacheAvailable "/Users/u/.cache/uv" DEFAULT_RUNTIME_BUDGET.

Example uv_discovered : (run cache_handle discover_uv cache_machine).2 = Some (Ok uv_adapter).
Proof. vm_compute. reflexivity. Qed.

Definition machine_start := run cache_handle (start_uv uv_adapter "token" "epoch") cache_machine.

Definition running_supervisor : RunningUvMaintenance :=
  mkRunningUvMaintenance 40 30 true 1000 DEFAULT_RUNTIME_BUDGET.

Example supervisor_started : machine_start.2 = Ok running_supervisor.
Proof. vm_compute. reflexivity. Qed.

(** The supervisor, on the capability that the start wrote. *)
Definition supervisor_arguments : list string :=
  [NATIVE_CACHE_CAPABILITY_FLAG; "20"; "4"; "/opt/homebrew/bin/uv"].

Definition supervisor_world : cache_world := machine_start.1.1 <| cw_output := "" |>.

Definition supervision := run cache_handle (run_uv_supervisor supervisor_arguments) supervisor_world.

Definition supervised_result : ToolCacheNativeResult :=
  mkToolCacheNativeResult CacheCompleted (Some 3%N) (Some 2048%N).

Definition waiting := run cache_handle (wait_uv running_supervisor) machine_start.1.1.

Lemma native_results_are_honest_witness :
  ∃ before c child run status,
    supervision.1.2 = before ++ Obs (Spawn c) (Ok child) :: run ∧
    honest supervised_result status (from_utf8_lossy (read_from (child_pipe child) run)).
Proof.
  destruct (native_results_are_honest running_supervisor waiting.1.2 supervised_result
    supervisor_arguments supervision.1.2 0) as (_ & before & c & child & run & status & E & _ & H).
  - apply run_answers. vm_compute. reflexivity.
  - done.
  - apply run_answers. vm_compute. reflexivity.
  - by exists before, c, child, run, status.
Defined.

Definition started_mutator :=
  run cache_handle (execute_uv_supervisor supervisor_arguments 0) supervisor_world.

Lemma mutator_starts_under_its_capability_witness :
  ∃ cap reading checks, runs (read_capability 20) reading (Some (Ok cap)) ∧
    start_checks 4 0 "/opt/homebrew/bin/uv" cap checks.
Proof.
  destruct (mutator_starts_under_its_capability supervisor_arguments 0 started_mutator.1.2
    started_mutator.2 (take 11 started_mutator.1.2) (prune_command "/opt/homebrew/bin/uv" 4)
    (Ok (mkChild 40 30)) (drop 12 started_mutator.1.2))
    as (t1 & t2 & binary & f1 & f2 & cap & reading & checks & [= <- <- <-] & H1 &
      H2 & _ & _ & _ & _ & Hr & Hc & _).
  - apply run_runs.
  - apply split_at. vm_compute. reflexivity.
  - exists cap, reading, checks. vm_compute in H1, H2. injection H1 as <-. injection H2 as <-. by split.
Defined.

Lemma children_are_reaped_witness : one_child started_mutator.1.2.
Proof.
  refine (proj2 children_are_reaped supervisor_arguments 0%N started_mutator.1.2 _ _).
  apply run_answers. vm_compute. reflexivity.
Defined.

(** ** Time *)

Lemma cache_maintenance_ends_witness :
  cache_time 0 machine_removal.1.2 ∧ cache_time 1000 waiting.1.2 ∧
  ends_from 0 (remove_files node_adapter) ∧ ends_from 1000 (wait_uv running_supervisor).
Proof.
  split; [vm_compute; by repeat split|]. split; [vm_compute; by repeat split|].
  destruct (cache_maintenance_ends 0 "aarch64" node_adapter running_supervisor supervisor_arguments 0)
    as (_ & H1 & _ & _ & _ & H2); [vm_compute; discriminate|]. by split.
Defined.

(** ** The worker *)

Record worker_world : Type := mkWorkerWorld {
  ww_machine : cache_world;
  ww_control : ControlPlane;
  ww_calls : Z;
}.

Definition worker_env (w : worker_world) : call_env :=
  mkCallEnv no_fault (λ event, pretty (10 ^ 31 + 1000 * ww_calls w + event)%Z) example_namespace 0.

Definition worker_handle (X : Type) (e : WorkerE X) (w : worker_world) : worker_world * X :=
  match e in WorkerE X return worker_world * X with
  | Native e => let '(m, x) := cache_handle _ e (ww_machine w) in (w <| ww_machine := m |>, x)
  | CacheWorkerCancelled | CacheShutdownAsked => (w, false)
  | UnixMillis => (w, Ok 2500%N)
  | Cache call =>
      let '(c, x) := cache_call call (worker_env w) (ww_control w) in
      (w <| ww_control := c |> <| ww_calls ::= Z.succ |>, x)
  end.

Lemma worker_world_step {X} (e : WorkerE X) w :
  cache_step (ww_control w) (Obs e (worker_handle X e w).2) (ww_control (worker_handle X e w).1).
Proof.
  destruct e as [X e| | | |X call]; try done; simpl.
  - by destruct (cache_handle _ e (ww_machine w)).
  - exists (worker_env w). by destruct (cache_call call (worker_env w) (ww_control w)).
Qed.

(** A run of the world is a run of its control plane. *)
Lemma worker_world_runs {A} (p : prog WorkerE A) w held :
  cache_run held (ww_control w) (run worker_handle p w).1.2 (ww_control (run worker_handle p w).1.1).
Proof.
  revert w held. induction p as [a|X e k IH]; intros w held; simpl; [constructor|].
  pose proof (worker_world_step e w) as Hs. destruct (worker_handle X e w) as [w' x]. simpl in Hs.
  specialize (IH x w' (locks held (Obs e x))).
  destruct (run worker_handle (k x) w') as [[w'' tr] a]. simpl in *. by eapply cache_event.
Qed.

Definition machine_work :=
  run worker_handle (cache_work "aarch64" 2000) (mkWorkerWorld cache_machine armed 0).

Example machine_work_settles :
  machine_work.2 = Some true ∧ (cw_files (ww_machine machine_work.1.1)).*1 = ["0a1b2c3d.Ab12Cd"].
Proof. split; vm_compute; reflexivity. Qed.

Lemma machine_work_runs : runs (cache_work "aarch64" 2000) machine_work.1.2 machine_work.2.
Proof. apply run_runs. Qed.

Lemma caches_are_changed_durably_armed_witness :
  (∃ lease before c1,
     take 330 machine_work.1.2 = before ++ [Obs (Cache (CacheContinue lease)) true] ∧
     cache_run false armed before c1 ∧
     goes_on (pca_token lease.1) lease.2
       (cache_activity (ctl_status c1)) (storage_activity (ctl_status c1)) c1 ∧
     durably_enforcing lease.2 c1) ∧
  (∃ lease before start c1,
     take 105 machine_work.1.2 = before ++ lease_granted 2000 false lease :: start ∧
     cache_run false armed (take 105 machine_work.1.2) c1 ∧ durably_enforcing lease.2 c1).
Proof.
  destruct (caches_are_changed_durably_armed "1.0" "/state" no_fault 1 1 1 7 1 42 100 _ new_maintenance
    booted armed machine_work.1.2 (ww_control machine_work.1.1) "aarch64" 2000 machine_work.2
    (history_new example_namespace) boots boot_arms
    (worker_world_runs _ (mkWorkerWorld cache_machine armed 0) false) machine_work_runs) as [Hu Hs].
  split.
  - destruct (Hu (take 330 machine_work.1.2) 3%N final_name (Ok tt) (drop 331 machine_work.1.2))
      as (lease & before & H1 & _ & _ & (c1 & c2 & H2) & H3).
    { apply split_at. vm_compute. reflexivity. }
    exists lease, before, c1. split; [exact H1|]. split; [exact (proj1 H2)|exact (H3 c1 c2 H2)].
  - destruct (Hs (take 105 machine_work.1.2)
      (supervisor_command "/usr/local/bin/unlingerd" 20 4 "/opt/homebrew/bin/uv") (Ok (mkChild 40 30))
      (drop 106 machine_work.1.2)) as (lease & before & start & H1 & _ & _ & (c1 & H2) & H3).
    { apply split_at. vm_compute. reflexivity. }
    { reflexivity. }
    exists lease, before, start, c1. split; [exact H1|]. split; [exact (proj1 H2)|exact (H3 c1 H2)].
Defined.

Definition machine_cycle :=
  run worker_handle (run_node_compile_cache_cycle "aarch64" 2000 true)
    (mkWorkerWorld cache_machine armed 0).

Definition machine_lease : CacheLease :=
  (mkPreparedToolCacheAttempt "10000000000000000000000000010000" 2000 NodeCompileCache,
   "g1-p2a-i2a-64-7-1-82-2").

Lemma cache_cycles_return_activities_witness :
  ∃ before lease mid finished,
    machine_cycle.1.2 = before ++ lease_granted 2000 true lease :: mid
      ++ [Obs (Cache (FinishCache lease.1)) finished] ∧ commits true 2000 lease mid.
Proof.
  assert (runs (run_node_compile_cache_cycle "aarch64" 2000 true) machine_cycle.1.2 (Some (Ok tt))) as Hr.
  { assert (machine_cycle.2 = Some (Ok tt)) as <- by (vm_compute; reflexivity). apply run_runs. }
  destruct (cache_cycles_return_activities "aarch64" 2000 true true _ _ Hr)
    as [H|(before & lease & mid & finished & E & _ & H)].
  - destruct (H machine_lease). apply (list_elem_of_lookup_2 _ 93). vm_compute. reflexivity.
  - exists before, lease, mid, finished. split; [exact E|]. by destruct (H eq_refl).
Defined.
